(* ===== verification/_CoqProject ===== *)
-Q . S2P
Prelude.v
Heap.v
Bytes.v
RlpEncode.v
RlpDecode.v
RlpCanonical.v
RlpRaw.v
TrieEncoding.v
Types.v
Params.v
EvmData.v
EvmBitmap.v
Fallible.v
TrieNode.v
Trie.v
TriePure.v
TrieHash.v
TrieRefine.v
TrieCommit.v
TrieMap.v
SecureTrie.v
TrieProof.v
TrieBinding.v
StateDB.v
StateRevert.v
StateEffect.v
StateFinal.v
StateDemo.v
EvmCore.v
EvmGas.v
EvmOps.v
JumpTable.v
Precompiled.v
Evm.v
EvmSafe.v
EvmArith.v
EvmSafeGas.v
EvmSafeOps.v
EvmSafeMem.v
EvmSafeCalls.v
EvmSafePre.v
EvmSafeRun.v
EvmSafeLevel.v
ValidatorSet.v
Messages.v
MessageSet.v
MsgStorage.v
Timeout.v
Engine.v
Staking.v
Proposer.v
Reward.v
Core.v
Consensus.v
Finalize.v
Handler.v
Termination.v
Spec.v
Refinement.v
Simulation.v
EventSim.v
Safety.v
Signing.v
TxList.v
TxListSpec.v
SigningSpec.v
Transition.v
TxPool.v
TxPoolSafe.v
TransitionSafe.v
Receipts.v
ReceiptSpec.v
Processor.v
ProcessorSafe.v
Validator.v
Demo.v
EngineDemo.v
EvmDemo.v
ProcessorDemo.v
