(* ===== verification/Prelude.v ===== *)
(** * Evrynet node: a verification development of its consensus and state

    ** The program

    [evrynet-node] is a fork of go-ethereum whose blocks are agreed on by a Tendermint
    protocol among validators. A node has a consensus core
    ([src/consensus/tendermint/core]), a state machine that handles messages, timeouts
    and new blocks; a backend ([src/consensus/tendermint/backend]) that connects it to
    the chain: it verifies, prepares and seals headers, finds the validators of a height
    and pays rewards; and below them the data the two exchange: RLP ([src/rlp]), headers,
    blocks and the extra data of Tendermint headers ([src/core/types]), validator sets
    ([src/consensus/tendermint/validator]), and the staking contract whose storage
    decides who validates ([src/core/state/staking]). What blocks change is the state of
    accounts ([src/core/state]), kept in memory with a journal to undo changes, over
    Merkle Patricia tries ([src/trie]) whose root hashes are in the headers. Transactions
    change it: their signatures tell who sends them and who pays
    ([src/core/types/transaction_signing.go]), a state transition buys gas, runs code in the
    virtual machine ([src/core/vm]) and gives gas back ([src/core/state_transition.go]), and
    the processor applies the transactions of a block and writes receipts
    ([src/core/state_processor.go], [src/core/types/receipt.go]), which the validator
    compares with the header ([src/core/block_validator.go]).

    A block takes this way through the modelled code. The worker has the engine prepare a
    header ([Prepare]) and seal it ([Seal]); the block is posted to the core, which
    proposes it, votes in rounds with the other validators, and, when a quorum has
    precommitted it, writes their seals into the header ([FinalizeBlock]) and commits it.
    On import every node verifies the seals against the validators of the height
    ([verifyCommittedSeals]), which it finds in the last header of the previous epoch,
    checks the body ([ValidateBody]), processes the transactions ([Process]) and compares
    the gas, the bloom filter, the receipts and the state with the header
    ([ValidateState]); at the end of an epoch the proposer writes the next validators, read from the staking
    contract, into the header, and rewards are paid ([accumulateRewards]).

    ** The files

    - [Prelude]: Go's integers with their wrap-around ([int64], [uint64]), results that may
      be a panic or exhausted fuel ([res]), the state monad the handlers are written in
      ([M]), its partial specifications ([wp]) and the tactics for them.
    - [Bytes]: byte strings, [common.Hash] and [common.Address], hexadecimal and decimal
      text, big integers as bytes ([src/common/types.go], [src/common/bytes.go]).
    - [RlpEncode], [RlpDecode], [RlpCanonical], [RlpRaw]: [src/rlp/encode.go],
      [src/rlp/decode.go] and [src/rlp/raw.go]. The encoder is the two-part buffer of the code with its list
      headers; the decoder is the stream with its stack of list sizes and every error. Go
      types are values of [ty], the values of them [gval].
    - [Types]: headers, blocks and transactions of [src/core/types], the Tendermint extra
      data and the functions of [src/consensus/tendermint/utils/utils.go]. Cryptography is
      the class [Crypto]; [CryptoLaws] says what the code relies on.
    - [Heap]: Go's [container/heap] on lists, with the order it keeps.
    - [Fallible]: functions that return an error or panic, as a monad.
    - [TrieEncoding], [TrieNode], [Trie]: keys, nodes with their flags, the cache of nodes,
      and the operations of [src/trie/trie.go] and [hasher.go] on nodes that are loaded on
      demand. [SecureTrie] hashes the keys, [TrieProof] is [proof.go], and [TrieBinding]
      has [DeriveSha] of [src/core/types/derive_sha.go].
    - [TriePure], [TrieHash], [TrieRefine], [TrieCommit], [TrieMap]: tries
      without a database, their hashes, which trie a node stands for, and the refinement of
      finite maps by the operations.
    - [StateDB], [StateRevert], [StateEffect], [StateFinal], [StateDemo]: accounts and the
      state database with its journal ([src/core/state]), over the class [StateDatabase];
      what its operations leave alone, the total value of the accounts and the logs of a
      transaction; and [Finalise], over a trie of accounts with the laws [TrieLaws].
    - [Params]: the protocol parameters, gas tables and fork rules of [src/params].
    - [EvmData], [EvmCore], [EvmGas], [EvmOps], [JumpTable], [Precompiled],
      [Evm]: the virtual machine of [src/core/vm]. [EvmData] has the opcodes, the arithmetic of
      [src/common/math], the memory and the analysis of code; [EvmCore] the contract, the
      stack and the machine, as a record [Evm], and a run of the interpreter as a record
      [frame]; every gas function, instruction and instruction set of the code is a
      definition of [EvmGas], [EvmOps] and [JumpTable]; [Evm] has the interpreter and the
      calls. The block a transaction runs in, with its configuration, is the class
      [Environment], the native hashes and curves the class [NativeCrypto].
    - [EvmBitmap], [EvmArith]: the analysis of jump destinations and the instructions with
      two operands against their references.
    - [EvmSafe], [EvmSafeGas], [EvmSafeOps], [EvmSafeMem], [EvmSafeCalls], [EvmSafePre],
      [EvmSafeRun], [EvmSafeLevel]: what an instruction, the interpreter and a
      call promise, proved for each instruction and by induction on the depth of calls
      for the whole; [EvmDemo] runs concrete contracts.
    - [Signing], [SigningSpec]: signers, senders, providers and messages of transactions
      ([src/core/types/transaction_signing.go], [transaction.go]).
    - [Transition], [TransitionSafe]: [src/core/state_transition.go] and [gaspool.go].
    - [Receipts], [ReceiptSpec]: [src/core/types/receipt.go], [log.go] and [bloom9.go].
    - [Processor], [ProcessorSafe]: [src/core/evm.go] and
      [state_processor.go]; the chain and the consensus engine are the class
      [ChainContext].
    - [TxList], [TxListSpec]: [src/core/tx_list.go] and the order by price and nonce of
      [src/core/types/transaction.go]; the lists stand for sorted lists.
    - [TxPool], [TxPoolSafe]: [src/core/tx_pool.go] and [src/core/state/managed_state.go],
      and the invariant of the pool; it is proved of queueing and promoting transactions
      already indexed, not of addition, removal, the limits, demotion, eviction and the reset.
    - [Validator]: [src/core/block_validator.go]; [ProcessorDemo] runs and validates a block.
    - [ValidatorSet]: [src/consensus/tendermint/validator].
    - [Messages], [MessageSet], [MsgStorage], [Timeout]: messages and vote sets
      ([core/messages.go], [core/types.go]), the storage of sent messages
      ([core/sentMsgStorage.go]), the ticker and its timeouts ([core/timeout.go],
      [config.go]).
    - [Core], [Consensus], [Handler]: the core. Its state is the record
      [core]; every handler of [core/handler.go] and every step of [core/consensus.go] is
      a state transformer with all its guards and early returns; what it sends,
      schedules and commits is added to a log. The backend and the priority queue of the
      future messages are the classes [Backend] and [PriorityQueue].
    - [Termination]: the handlers run on fuel where they call each other.
    - [Spec]: the abstract protocol. A node of it is a height, a round, a
      lock, its votes and its decisions; its steps are what a correct validator may do.
      Agreement is proved there.
    - [Refinement], [Simulation], [EventSim], [Safety]: the simulation of the core by the
      abstract protocol, handler by handler, and the properties of the core and of a
      network of cores with faulty validators.
    - [Engine], [Proposer]: [backend/engine.go] with the providers of validator sets of
      [backend/staking] and [backend/fixed_valset_info].
    - [Staking]: the storage reader of the staking contract.
    - [Reward]: [backend/reward.go].
    - [Finalize]: the seals of a committed block, between core and engine.
    - [Demo], [EngineDemo]: concrete executions, and the instances that show that the
      hypotheses of the theorems can be met.

    ** The theorems

    - The core refines the abstract protocol ([core_refines_spec]); a node never votes twice
      ([no_double_vote]), keeps to its lock ([lock_discipline]), and commits only what a
      quorum precommitted ([commit_has_quorum]); no two correct nodes commit different
      blocks of a height ([agreement]), for any number of nodes and any order of messages
      and timeouts, with at most [F] faulty validators, which may send anything they can
      sign. Handling events always ends ([events_terminate]).
    - Votes are counted as they should ([AddVotes_majority], [quorum_intersection]).
    - A proposal made by [Prepare] and [Seal] verifies ([proposal_verifies]); the
      block made of the precommits verifies exactly when their seals are genuine
      ([FinalizeBlock_seals]); two verified headers of a height have more than [F] common
      signers ([sealed_headers_overlap]). The seals of precommits are not checked in time,
      which lets one validator stop the others ([bad_seal_panics],
      [one_validator_halts_node]).
    - RLP: the encoder computes the reference encoding, decoding inverts it, and only
      canonical encodings are accepted. From these follow the round trips of messages
      and extra data and what block hashes commit to.
    - Reverting to a snapshot restores the state ([snapshot_revert]).
    - The virtual machine runs any code to its end without a panic, never leaves more gas
      than it was given, undoes what failed calls did and creates no value
      ([evm_Call_safe], [evm_Create_safe]); a static call changes nothing
      ([evm_StaticCall_quiet]). The arithmetic instructions compute their references
      ([binary_instructions]), and jumps go to instructions only ([codeBitmap_correct]).
      The promise needs less than [2^62] gas, which the gas limit of a block keeps; a query
      may have more, and then a precompiled contract can panic ([bigModExp_overflow]).
    - A block that is accepted is what its header says ([accepted_block]): its transactions
      are processed without a panic, their gas adds up to that of the header and the value of
      all accounts shrinks by the fees ([block_processed], [transition_accounts]); the
      receipts tell what happened, are found by the bloom filters ([bloom_complete]) and
      survive the database ([receipts_stored]); accounts are written to the trie
      ([Finalise_writes]). These need that hashes of codes of different lengths differ
      ([EnvironmentOk]) and that the trie of accounts can be read.
    - A signed transaction gives the message of its sender and payer ([signed_message]), and
      what is signed is what the transaction says ([signed_content]); but a provider's
      signature can be used as a sender's ([provider_signature_sends]).
    - The memoised hashes of earlier blocks are those of the chain ([GetHashFn_memo]), and the
      next gas limit is one that is accepted ([CalcGasLimit_allowed]).
    - A trie is a finite map, whatever is loaded, cached or committed, and its hash is a
      function of the contents alone ([trie_is_map]) which determines them
      ([root_hash_binding], [DeriveSha_binding]); Merkle proofs verify exactly with the
      values a trie has ([VerifyProof_sound], [Prove_verifies]). These are relative to a
      set of byte strings on which Keccak-256 has no collisions, in which the nodes are.
    - The storage reader refines the value of the contract ([staking_refines]); what
      is paid as rewards is exactly what the blocks earned ([calculateReward_conserves],
      [accumulateRewards_supply]), on every node the same ([calculateReward_order]).

    ** Fuel and bounds

    Go's recursion and loops are structural where the data bounds them. Fuel is used in
    seven places: in the interpreter, where every instruction costs a unit of gas at least,
    and for the depth of calls, which the code limits ([evm_Call_safe]); in the operations on tries, where twice the length of the key is enough
    ([trie_is_map]); in the RLP encoder and decoder, where the theorems give it as a function
    of the size and prove it enough; in the walk of [GetHashFn] down the chain, where the
    block number is enough ([GetHashFn_memo]); in the walk back to a checkpoint, where the block
    number bounds it ([getValSetFromChain_checkpoint]); and in the core, where handling a
    message can handle kept proposals, replies and queued messages: [events_terminate]
    shows the amount given there is never used up. Sizes of encoded values are assumed
    below [2^64] (and block heights below [2^63] where the code converts them), as memory
    and time bound them.

    ** Not modelled

    - Goroutines, channels, locks and peers: the core handles one event at a time, which
      is what its mutex and event loop enforce; starting and stopping, gossip and the
      commit channels of the backend only move messages.
    - Cryptography, the leveled database, the LRU caches and the EVM caller of the staking
      contract: interfaces with the behaviour relied on.
    - The Byzantine test mode: deliberately faulty behaviour; [be_fakeProposal] stands for
      it.
    - Reference counts of the cache of trie nodes, iteration and synchronisation of tries:
      they move nodes between memory, disk and network.
    - Of the virtual machine: tracing, cancellation from another goroutine, and the pool
      of big integers, whose reuse of memory the values do not show. Memory can always be
      allocated. EWASM is not implemented in the source and panics.
    - The insertion of blocks into the database with its reorganisations: processing,
      validation and the pool use the chain through the interfaces above. The goroutine of
      the pool, its subscriptions and the file of its journal; the networking, the RPC, light
      client and command line parts are input and output.
    - Clique and ethash are other engines, which a Tendermint chain does not run. *)

From stdpp Require Export base tactics numbers relations list gmap strings sorting.
From Stdlib Require Export ZArith Lia.
From Stdlib Require Strings.Byte.

#[global] Open Scope Z_scope.

(** ** Scope of the development's notations *)
Declare Scope go_scope.
Delimit Scope go_scope with go.
#[global] Open Scope go_scope.

(** ** Machine integers of Go

    An [int64] is a [Z] kept in range by [int64]; a [uint64] one kept by
    [uint64]; [/] and [%] on them truncate towards zero. *)
Definition int64 (z : Z) : Z := (z + 2 ^ 63) mod 2 ^ 64 - 2 ^ 63.
Definition uint64 (z : Z) : Z := z mod 2 ^ 64.
Definition uint8 (z : Z) : Z := z mod 2 ^ 8.

Definition is_int64 (z : Z) : Prop := - 2 ^ 63 <= z < 2 ^ 63.
Definition is_uint64 (z : Z) : Prop := 0 <= z < 2 ^ 64.

Abbreviation MaxInt64 := (2 ^ 63 - 1).
Abbreviation MaxUint64 := (2 ^ 64 - 1).

Lemma int64_small z : is_int64 z -> int64 z = z.
Proof. unfold is_int64, int64. intros ?. rewrite Z.mod_small; lia. Qed.

Lemma int64_range z : is_int64 (int64 z).
Proof.
  unfold is_int64, int64.
  pose proof (Z.mod_pos_bound (z + 2 ^ 63) (2 ^ 64) ltac:(lia)). lia.
Qed.

Lemma uint64_small z : is_uint64 z -> uint64 z = z.
Proof. unfold is_uint64, uint64. intros ?. by rewrite Z.mod_small. Qed.

Lemma uint64_range z : is_uint64 (uint64 z).
Proof. unfold is_uint64, uint64. apply Z.mod_pos_bound. lia. Qed.

Lemma int64_uint64 z : is_int64 z -> int64 (uint64 z) = z.
Proof.
  unfold is_int64, int64, uint64. intros ?.
  rewrite Z.add_mod_idemp_l, Z.mod_small; lia.
Qed.

(** ** Results of Go computations

    [Panic] is a Go run-time panic (or [logger.Panicw]); [OutOfFuel] is the
    bound of a recursive definition being exhausted, which the termination
    theorems exclude. *)
Inductive res (A : Type) : Type :=
  | Ok (a : A)
  | Panic
  | OutOfFuel.
Arguments Ok {A} a.
Arguments Panic {A}.
Arguments OutOfFuel {A}.

#[export] Instance Ok_inj A : Inj (=) (=) (@Ok A).
Proof. by intros x y [= ->]. Qed.

Lemma Ok_pair {A B} (a a' : A) (b b' : B) : Ok (a, b) = Ok (a', b') <-> a = a' /\ b = b'.
Proof. split; [by intros [= -> ->]|by intros [-> ->]]. Qed.

(** ** The state monad of stateful Go code *)
Definition M (S A : Type) : Type := S -> res (A * S).

#[export] Instance M_ret S : MRet (M S) := fun A a s => Ok (a, s).
#[export] Instance M_bind S : MBind (M S) := fun A B f m s =>
  match m s with
  | Ok (a, s') => f a s'
  | Panic => Panic
  | OutOfFuel => OutOfFuel
  end.

Section monad.
Context {S : Type}.

Definition get : M S S := fun s => Ok (s, s).
Definition gets {A} (f : S -> A) : M S A := fun s => Ok (f s, s).
Definition modify (f : S -> S) : M S unit := fun s => Ok (tt, f s).
Definition panic {A} : M S A := fun _ => Panic.
Definition diverge {A} : M S A := fun _ => OutOfFuel.

(** Dereferencing a pointer: nil panics. *)
Definition deref {A} (p : option A) : M S A :=
  match p with Some a => mret a | None => panic end.

(** A statement guarded by [if]. *)
Definition when (b : bool) (m : M S unit) : M S unit :=
  if b then m else mret tt.

Lemma bind_Ok {A B} (m : M S A) (f : A -> M S B) s b s'' :
  (m ≫= f) s = Ok (b, s'') <-> exists a s', m s = Ok (a, s') /\ f a s' = Ok (b, s'').
Proof.
  unfold mbind, M_bind. destruct (m s) as [[a s']| |] eqn:E.
  - split; [eauto|]. intros (? & ? & [= -> ->] & ?). done.
  - split; [done|]. by intros (? & ? & ? & ?).
  - split; [done|]. by intros (? & ? & ? & ?).
Qed.

Lemma bind_run {A B} (m : M S A) (f : A -> M S B) s a s' : m s = Ok (a, s') -> (m ≫= f) s = f a s'.
Proof. unfold mbind, M_bind. by intros ->. Qed.

Lemma deref_Some {A B} (a : A) (f : A -> M S B) s : (deref (Some a) ≫= f) s = f a s.
Proof. done. Qed.
End monad.

Arguments get {S} _ /.
Arguments gets {S A} _ _ /.
Arguments modify {S} _ _ /.
Arguments panic {S A} _ /.
Arguments deref {S A} _ : simpl nomatch.

(** [run]: computes the monadic operations of the goal, and nothing else. *)
Ltac run :=
  unfold mbind, M_bind, mret, M_ret, get, gets, modify, when, panic; cbv beta iota zeta.

(** ** Specifications of stateful code

    [wp m Q s]: when [m] started in [s] returns, it returns a result and a state of
    [Q]. [total P m]: from a state of [P], [m] never exhausts its fuel. *)
Definition wp {S A} (m : M S A) (Q : A -> S -> Prop) (s : S) : Prop :=
  match m s with Ok (a, s') => Q a s' | _ => True end.

Definition total {S A} (P : S -> Prop) (m : M S A) : Prop :=
  forall s, P s -> m s <> OutOfFuel.

Section wp.
Context {S : Type}.
Implicit Types (s : S).

Lemma wp_Ok {A} (m : M S A) Q s a s' : wp m Q s -> m s = Ok (a, s') -> Q a s'.
Proof. unfold wp. intros H E. by rewrite E in H. Qed.

Lemma wp_mono {A} (m : M S A) (P Q : A -> S -> Prop) s :
  wp m P s -> (forall a s', P a s' -> Q a s') -> wp m Q s.
Proof. unfold wp. destruct (m s) as [[a s']| |]; eauto. Qed.

Lemma wp_bind {A B} (m : M S A) (f : A -> M S B) Q s :
  wp m (fun a s' => wp (f a) Q s') s -> wp (m ≫= f) Q s.
Proof. unfold wp, mbind, M_bind. by destruct (m s) as [[a s']| |]. Qed.

Lemma wp_ret {A} (a : A) (Q : A -> S -> Prop) s : Q a s -> wp (mret a) Q s.
Proof. done. Qed.

Lemma wp_get (Q : S -> S -> Prop) s : Q s s -> wp get Q s.
Proof. done. Qed.

Lemma wp_gets {A} (f : S -> A) (Q : A -> S -> Prop) s : Q (f s) s -> wp (gets f) Q s.
Proof. done. Qed.

Lemma wp_modify (f : S -> S) (Q : unit -> S -> Prop) s : Q tt (f s) -> wp (modify f) Q s.
Proof. done. Qed.

Lemma wp_panic {A} (Q : A -> S -> Prop) s : wp panic Q s.
Proof. done. Qed.

Lemma wp_diverge {A} (Q : A -> S -> Prop) s : wp diverge Q s.
Proof. done. Qed.

Lemma wp_deref {A} (p : option A) (Q : A -> S -> Prop) s :
  (forall a, p = Some a -> Q a s) -> wp (deref p) Q s.
Proof. destruct p; [|done]. intros H. by apply H. Qed.

Lemma wp_when b (m : M S unit) (Q : unit -> S -> Prop) s :
  (b = true -> wp m Q s) -> (b = false -> Q tt s) -> wp (when b m) Q s.
Proof. destruct b; [|intros _ H; by apply wp_ret, H]. intros H _. by apply H. Qed.
End wp.

Create HintDb wp.
#[export] Hint Resolve wp_ret wp_get wp_gets wp_modify wp_panic wp_diverge : wp.

(** [wp_step]: one monadic operation at the head of the goal. *)
Ltac wp_step :=
  match goal with
  | |- wp (_ ≫= _) _ _ => apply wp_bind
  | |- wp (mret _) _ _ => apply wp_ret
  | |- wp get _ _ => apply wp_get
  | |- wp (gets _) _ _ => apply wp_gets
  | |- wp (modify _) _ _ => apply wp_modify
  | |- wp panic _ _ => apply wp_panic
  | |- wp diverge _ _ => apply wp_diverge
  | |- wp (deref _) _ _ => apply wp_deref; intros ? ?
  | |- wp (when _ _) _ _ => apply wp_when; intros ?
  end.

(** [twp m Q s]: [m] started in [s] returns, with a result and a state of [Q]. *)
Definition twp {S A} (m : M S A) (Q : A -> S -> Prop) (s : S) : Prop :=
  exists a s', m s = Ok (a, s') /\ Q a s'.

Section twp.
Context {S : Type}.
Implicit Types (s : S).

Lemma twp_mono {A} (m : M S A) (P Q : A -> S -> Prop) s :
  twp m P s -> (forall a s', P a s' -> Q a s') -> twp m Q s.
Proof. intros (a & s' & E & H) HQ. exists a, s'. auto. Qed.

Lemma twp_bind {A B} (m : M S A) (f : A -> M S B) Q s :
  twp m (fun a s' => twp (f a) Q s') s -> twp (m ≫= f) Q s.
Proof. intros (a & s' & E & b & s'' & E' & H). exists b, s''. by rewrite (bind_run _ _ _ _ _ E). Qed.

Lemma twp_ret {A} (a : A) (Q : A -> S -> Prop) s : Q a s -> twp (mret a) Q s.
Proof. intros H. by exists a, s. Qed.

Lemma twp_get (Q : S -> S -> Prop) s : Q s s -> twp get Q s.
Proof. intros H. by exists s, s. Qed.

Lemma twp_gets {A} (f : S -> A) (Q : A -> S -> Prop) s : Q (f s) s -> twp (gets f) Q s.
Proof. intros H. by exists (f s), s. Qed.

Lemma twp_modify (f : S -> S) (Q : unit -> S -> Prop) s : Q tt (f s) -> twp (modify f) Q s.
Proof. intros H. by exists tt, (f s). Qed.

Lemma twp_deref {A} (a : A) (Q : A -> S -> Prop) s : Q a s -> twp (deref (Some a)) Q s.
Proof. intros H. by exists a, s. Qed.

Lemma twp_when b (m : M S unit) (Q : unit -> S -> Prop) s :
  (b = true -> twp m Q s) -> (b = false -> Q tt s) -> twp (when b m) Q s.
Proof. destruct b; [|intros _ H; by apply twp_ret, H]. intros H _. by apply H. Qed.
End twp.

(** [twp_step]: as [wp_step], for operations that return. *)
Ltac twp_step :=
  match goal with
  | |- twp (_ ≫= _) _ _ => apply twp_bind
  | |- twp (mret _) _ _ => apply twp_ret
  | |- twp get _ _ => apply twp_get
  | |- twp (gets _) _ _ => apply twp_gets
  | |- twp (modify _) _ _ => apply twp_modify
  | |- twp (deref (Some _)) _ _ => apply twp_deref
  end.

(** ** Lists *)
Lemma omap_cons_None {A B} (f : A -> option B) x l : f x = None -> omap f (x :: l) = omap f l.
Proof. intros H. csimpl. by rewrite H. Qed.

Lemma omap_cons_Some {A B} (f : A -> option B) x l y : f x = Some y -> omap f (x :: l) = y :: omap f l.
Proof. intros H. csimpl. by rewrite H. Qed.

Lemma omap_of_fmap {A B C} (f : B -> option C) (g : A -> B) (l : list A) : omap f (g <$> l) = omap (fun x => f (g x)) l.
Proof. induction l as [|x l IH]; [done|]. csimpl. by rewrite IH. Qed.

Lemma StronglySorted_snoc {A} (R : A -> A -> Prop) l x :
  StronglySorted R l -> Forall (fun y => R y x) l -> StronglySorted R (l ++ [x]).
Proof.
  induction l as [|y l IH]; intros Hs Hf; [by repeat constructor|].
  inversion Hs; inversion Hf; subst. simpl. constructor; [by apply IH|].
  apply Forall_app. by split; [|constructor].
Qed.

Lemma StronglySorted_filter {A} (R : A -> A -> Prop) (P : A -> Prop) `{!forall x, Decision (P x)} l :
  StronglySorted R l -> StronglySorted R (filter P l).
Proof.
  induction 1 as [|x l Hs IH Hf]; [constructor|]. rewrite filter_cons. case_decide; [|done]. constructor; [done|].
  rewrite Forall_forall in Hf |- *. intros y [_ Hy]%list_elem_of_filter. by apply Hf.
Qed.

Lemma filter_all {A} (P : A -> Prop) `{!forall x, Decision (P x)} l : Forall P l -> filter P l = l.
Proof. induction 1; [done|]. rewrite filter_cons_True by done. by f_equal. Qed.

Lemma filter_none {A} (P : A -> Prop) `{!forall x, Decision (P x)} l : Forall (fun x => ~ P x) l -> filter P l = [].
Proof. induction 1; [done|]. by rewrite filter_cons_False. Qed.

(** ** Bytes

    Go's [byte]: the kernel's 256-element type, so that a value of it is in
    range by construction; arithmetic is done on [Z]. *)
Abbreviation byte := Init.Byte.byte.

Definition Z_of_byte (b : byte) : Z := Z.of_N (Strings.Byte.to_N b).

(** [byte(z)]: conversion keeps the low eight bits. *)
Definition byte_of_Z (z : Z) : byte :=
  match Strings.Byte.of_N (Z.to_N (z mod 256)) with
  | Some b => b
  | None => Init.Byte.x00
  end.

#[export] Instance byte_eq_dec : EqDecision byte := Strings.Byte.byte_eq_dec.

Lemma Z_of_byte_range b : 0 <= Z_of_byte b < 256.
Proof. unfold Z_of_byte. pose proof (Strings.Byte.to_N_bounded b). lia. Qed.

Lemma Z_of_byte_of_Z z : Z_of_byte (byte_of_Z z) = z mod 256.
Proof.
  unfold Z_of_byte, byte_of_Z.
  pose proof (Z.mod_pos_bound z 256 ltac:(lia)) as Hb.
  destruct (Strings.Byte.of_N (Z.to_N (z mod 256))) as [b|] eqn:E.
  - apply Strings.Byte.to_of_N in E. rewrite E. lia.
  - apply Strings.Byte.of_N_None_iff in E. lia.
Qed.

(** Shifting bits in from the right. *)
Lemma lor_shiftl_low a b n : 0 <= a -> 0 <= n -> 0 <= b < 2 ^ n -> Z.lor (Z.shiftl a n) b = a * 2 ^ n + b.
Proof.
  intros Ha Hn Hb. rewrite Z.shiftl_mul_pow2 by lia. rewrite <- Z.add_lor_land.
  replace (Z.land (a * 2 ^ n) b) with 0; [lia|]. symmetry. apply Z.bits_inj'. intros i Hi. rewrite Z.land_spec, Z.bits_0.
  destruct (decide (i < n)); [by rewrite Z.mul_pow2_bits_low|].
  destruct (decide (b = 0)) as [->|]; [by rewrite Z.bits_0, andb_false_r|].
  rewrite (Z.bits_above_log2 b i), andb_false_r; [done|lia|]. apply Z.log2_lt_pow2; [lia|].
  apply (Z.lt_le_trans _ (2 ^ n)); [lia|]. apply Z.pow_le_mono_r; lia.
Qed.

Lemma byte_of_Z_of_byte b : byte_of_Z (Z_of_byte b) = b.
Proof.
  unfold byte_of_Z. rewrite Z.mod_small by apply Z_of_byte_range.
  unfold Z_of_byte. by rewrite N2Z.id, Strings.Byte.of_to_N.
Qed.

#[export] Instance Z_of_byte_inj : Inj (=) (=) Z_of_byte.
Proof.
  intros a b H. by rewrite <- (byte_of_Z_of_byte a), <- (byte_of_Z_of_byte b), H.
Qed.

#[export] Instance byte_countable : Countable byte :=
  inj_countable' Z_of_byte byte_of_Z byte_of_Z_of_byte.
