(* ===== verification/Heap.v ===== *)
(** * Binary heaps

    Go's [container/heap], as [src/core/tx_list.go] and [src/core/types/transaction.go] use
    it on slices: the functions, and that they keep a heap a heap. *)

From S2P Require Import Prelude.

Section heap.
Context {A : Type} (less : A -> A -> bool).

(** [Less] and [Swap] of a slice, at positions of it. *)
Definition Less_at (l : list A) (i j : nat) : bool :=
  match l !! i, l !! j with
  | Some x, Some y => less x y
  | _, _ => false
  end.

Definition Swap (i j : nat) (l : list A) : list A :=
  match l !! i, l !! j with
  | Some x, Some y => <[i := y]> (<[j := x]> l)
  | _, _ => l
  end.

(** [up] and [down]; the latter with the position where it ends. *)
Fixpoint up (fuel j : nat) (l : list A) : list A :=
  match fuel with
  | O => l
  | S fuel =>
      let i := ((j - 1) / 2)%nat in
      if (i =? j)%nat || negb (Less_at l j i) then l
      else up fuel i (Swap i j l)
  end.

Fixpoint down (fuel i n : nat) (l : list A) : list A * nat :=
  match fuel with
  | O => (l, i)
  | S fuel =>
      let j1 := (2 * i + 1)%nat in
      if (n <=? j1)%nat then (l, i)
      else
        let j := if (S j1 <? n)%nat && Less_at l (S j1) j1 then S j1 else j1 in
        if negb (Less_at l j i) then (l, i)
        else down fuel j n (Swap i j l)
  end.

(** Down the heap positions grow, and up they shrink. *)
Definition heap_down (i n : nat) (l : list A) : list A * bool :=
  let '(l', i') := down n i n l in (l', (i <? i')%nat).

Definition heap_up (j : nat) (l : list A) : list A := up j j l.

Fixpoint init_from (k n : nat) (l : list A) : list A :=
  match k with
  | O => l
  | S k => init_from k n (heap_down k n l).1
  end.

Definition heap_Init (l : list A) : list A := init_from (length l / 2) (length l) l.

Definition heap_Push (x : A) (l : list A) : list A := heap_up (length l) (l ++ [x]).

(** The elements of a slice and the last one. *)
Definition pop_last (l : list A) : option (A * list A) := x ← last l; Some (x, take (length l - 1) l).

(** Popping or removing what is not there panics: [None]. *)
Definition heap_Pop (l : list A) : option (A * list A) :=
  match l with
  | [] => None
  | _ => let n := (length l - 1)%nat in pop_last (heap_down 0 n (Swap 0 n l)).1
  end.

Definition heap_Fix_in (i n : nat) (l : list A) : list A :=
  let '(l', moved) := heap_down i n l in if moved : bool then l' else heap_up i l'.

Definition heap_Fix (i : nat) (l : list A) : list A := heap_Fix_in i (length l) l.

Definition heap_Remove (i : nat) (l : list A) : option (A * list A) :=
  if (length l <=? i)%nat then None
  else
    let n := (length l - 1)%nat in
    pop_last (if (n =? i)%nat then l else heap_Fix_in i n (Swap i n l)).

(** ** What a heap is *)
Class StrictWeakOrder : Prop := {
  less_irrefl : forall x, less x x = false;
  less_trans : forall x y z, less x y = true -> less y z = true -> less x z = true;
  less_neg_trans : forall x y z, less x y = false -> less y z = false -> less x z = false
}.

Definition parent (k : nat) : nat := ((k - 1) / 2)%nat.

Definition ordered_at (l : list A) (k p : nat) : Prop :=
  forall x y, l !! k = Some x -> l !! p = Some y -> less x y = false.

Definition heap_ok (l : list A) : Prop := forall k, (0 < k < length l)%nat -> ordered_at l k (parent k).

Context {O : StrictWeakOrder}.

Lemma less_asym x y : less x y = true -> less y x = false.
Proof.
  intros H. destruct (less y x) eqn:E; [|done]. pose proof (less_irrefl x). pose proof (less_trans x y x H E). congruence.
Qed.

(** ** Swapping *)
Lemma Swap_some i j l x y : l !! i = Some x -> l !! j = Some y -> Swap i j l = <[i := y]> (<[j := x]> l).
Proof. intros Hi Hj. unfold Swap. by rewrite Hi, Hj. Qed.

Lemma length_Swap i j l : length (Swap i j l) = length l.
Proof. unfold Swap. destruct (l !! i), (l !! j); by rewrite ?length_insert. Qed.

Lemma Swap_lookup i j l k x y :
  l !! i = Some x -> l !! j = Some y ->
  Swap i j l !! k = if decide (k = i) then Some y else if decide (k = j) then Some x else l !! k.
Proof.
  intros Hi Hj. rewrite (Swap_some i j l x y) by done.
  pose proof (lookup_lt_Some _ _ _ Hi). pose proof (lookup_lt_Some _ _ _ Hj).
  destruct (decide (k = i)) as [->|]; [by apply list_lookup_insert_eq; rewrite length_insert|].
  rewrite list_lookup_insert_ne by done. destruct (decide (k = j)) as [->|]; [by apply list_lookup_insert_eq|].
  by apply list_lookup_insert_ne.
Qed.

Lemma Swap_perm i j l : Swap i j l ≡ₚ l.
Proof.
  destruct (l !! i) as [x|] eqn:Hi, (l !! j) as [y|] eqn:Hj; try (unfold Swap; rewrite ?Hi, ?Hj; done).
  apply Permutation_inj. split; [apply length_Swap|].
  exists (fun k => if decide (k = i) then j else if decide (k = j) then i else k). split.
  - intros a b. repeat case_decide; naive_solver.
  - intros k. rewrite (Swap_lookup i j l k x y) by done. repeat case_decide; subst; congruence.
Qed.

(** ** Children *)
Lemma parent_child k i : (0 < k)%nat -> parent k = i -> k = (2 * i + 1)%nat \/ k = (2 * i + 2)%nat.
Proof. unfold parent. intros Hk <-. pose proof (Nat.div_mod (k - 1) 2 ltac:(lia)). pose proof (Nat.mod_upper_bound (k - 1) 2). lia. Qed.

Lemma parent_left i : parent (2 * i + 1) = i.
Proof. unfold parent. replace (2 * i + 1 - 1)%nat with (i * 2)%nat by lia. by apply Nat.div_mul. Qed.

Lemma parent_right i : parent (2 * i + 2) = i.
Proof. unfold parent. replace (2 * i + 2 - 1)%nat with (1 + i * 2)%nat by lia. by rewrite Nat.div_add by lia. Qed.

Lemma parent_lt k : (0 < k)%nat -> (parent k < k)%nat.
Proof. intros Hk. unfold parent. apply Nat.Div0.div_lt_upper_bound. lia. Qed.

Lemma Less_at_some l i j x y : l !! i = Some x -> l !! j = Some y -> Less_at l i j = less x y.
Proof. intros Hi Hj. unfold Less_at. by rewrite Hi, Hj. Qed.

(** ** Going down

    The heap is in order from position [lo] on, but at [i], whose children come after its
    parent nevertheless. *)
Definition grand (l : list A) (i n : nat) : Prop :=
  forall c, (0 < c < n)%nat -> parent c = i -> ordered_at l c (parent i).

Definition hole (lo i n : nat) (l : list A) : Prop :=
  (forall k, (0 < k < n)%nat -> (lo <= parent k)%nat -> k <> i -> parent k <> i -> ordered_at l k (parent k)) /\
  ((0 < i)%nat -> (lo <= parent i)%nat -> grand l i n).

(** The smaller child of [i], and that the other one is not below it. *)
Lemma small_child i n l :
  (n <= length l)%nat -> (2 * i + 1 < n)%nat ->
  let j := if (S (2 * i + 1) <? n)%nat && Less_at l (S (2 * i + 1)) (2 * i + 1) then S (2 * i + 1) else (2 * i + 1)%nat in
  (0 < j < n)%nat /\ parent j = i /\ forall k, (0 < k < n)%nat -> parent k = i -> ordered_at l k j.
Proof.
  intros Hn Hi. cbv zeta. destruct (lookup_lt_is_Some_2 l (2 * i + 1) ltac:(lia)) as [x Hx].
  assert (Hr : S (2 * i + 1) = (2 * i + 2)%nat) by lia.
  destruct (Nat.ltb_spec (S (2 * i + 1)) n) as [Hlt|Hge]; cbn [andb].
  - destruct (lookup_lt_is_Some_2 l (S (2 * i + 1)) ltac:(lia)) as [y Hy]. rewrite (Less_at_some l _ _ y x Hy Hx).
    destruct (less y x) eqn:E; (split; [lia|]; split; [rewrite ?Hr; apply parent_right || apply parent_left|]);
      intros k Hk Hp a b Ha Hb; destruct (parent_child k i) as [-> | ->]; try lia; rewrite ?Hr in *; simplify_eq;
      (by apply less_asym) || apply less_irrefl || done.
  - split; [lia|]. split; [apply parent_left|]. intros k Hk Hp a b Ha Hb.
    destruct (parent_child k i) as [-> | ->]; try lia. simplify_eq. apply less_irrefl.
Qed.

(** A child that is smaller than [i] changes places with it. *)
Lemma hole_down lo i j n l x y :
  (n <= length l)%nat -> (lo <= i)%nat -> hole lo i n l -> (0 < j < n)%nat -> parent j = i ->
  (forall k, (0 < k < n)%nat -> parent k = i -> ordered_at l k j) ->
  l !! i = Some x -> l !! j = Some y -> less y x = true ->
  hole lo j n (Swap i j l) /\ ((0 < i)%nat -> (lo <= parent i)%nat -> ordered_at (Swap i j l) i (parent i)).
Proof.
  intros Hn Hlo [Hk Hg] Hj Hp Hmin Hx Hy Hless. pose proof (parent_lt j ltac:(lia)) as Hlt.
  assert (Hsw : forall k, Swap i j l !! k = if decide (k = i) then Some y else if decide (k = j) then Some x else l !! k)
    by (intros k; by apply Swap_lookup).
  split; [split|].
  - intros k Hk0 Hlok Hne Hpk a b. rewrite !Hsw. rewrite (decide_False (P := k = j)) by done.
    rewrite (decide_False (P := parent k = j)) by done.
    destruct (decide (parent k = i)) as [Hpi|Hpi]; destruct (decide (k = i)) as [->|Hki].
    + pose proof (parent_lt i ltac:(lia)). lia.
    + intros Ha Hb. simplify_eq. by eapply (Hmin k).
    + intros Ha Hb. simplify_eq. by eapply (Hg ltac:(lia) Hlok j).
    + intros Ha Hb. by eapply (Hk k).
  - intros _ _ c Hc Hpc a b. rewrite !Hsw, Hp. pose proof (parent_lt c ltac:(lia)).
    rewrite (decide_True (P := i = i)) by done. rewrite (decide_False (P := c = i)), (decide_False (P := c = j)) by lia.
    intros Ha Hb. simplify_eq. eapply (Hk c); [lia| |lia|lia|exact Ha|exact Hy]. lia.
  - intros Hi Hlop a b. rewrite !Hsw. pose proof (parent_lt i Hi).
    rewrite (decide_True (P := i = i)) by done. rewrite (decide_False (P := parent i = i)), (decide_False (P := parent i = j)) by lia.
    intros Ha Hb. simplify_eq. by eapply (Hg Hi Hlop j).
Qed.

(** Nothing moves: the children are not smaller. *)
Lemma hole_filled lo i n l x :
  hole lo i n l -> l !! i = Some x -> (forall k, (0 < k < n)%nat -> parent k = i -> ordered_at l k i) ->
  forall k, (0 < k < n)%nat -> (lo <= parent k)%nat -> k <> i -> ordered_at l k (parent k).
Proof. intros [Hk _] Hx Hc k Hk0 Hlo Hne. destruct (decide (parent k = i)) as [E|]; [rewrite E; by apply Hc|by apply Hk]. Qed.

Record down_result (lo i n : nat) (l l' : list A) (i' : nat) : Prop := {
  dr_perm : l' ≡ₚ l;
  dr_same : forall k, (k < i)%nat \/ (n <= k)%nat -> l' !! k = l !! k;
  dr_le : (i <= i')%nat;
  dr_still : i' = i -> l' = l;
  dr_ordered : forall k, (0 < k < n)%nat -> (lo <= parent k)%nat -> k <> i \/ i' <> i -> ordered_at l' k (parent k)
}.

Lemma down_ok lo n fuel i l :
  (n <= length l)%nat -> (n <= fuel + i)%nat -> (lo <= i < n)%nat -> hole lo i n l ->
  down_result lo i n l (down fuel i n l).1 (down fuel i n l).2.
Proof.
  revert i l. induction fuel as [|fuel IH]; intros i l Hn Hf Hlo Hh; [lia|]. cbn [down].
  destruct (lookup_lt_is_Some_2 l i ltac:(lia)) as [x Hx].
  destruct (Nat.leb_spec n (2 * i + 1)) as [Hleaf|Hin].
  { split; try done. intros k Hk Hlok [Hne|]; [|done]. eapply hole_filled; [done..| |done|done|done].
    intros c Hc Hpc. destruct (parent_child c i) as [-> | ->]; lia. }
  destruct (small_child i n l Hn Hin) as (Hj & Hpj & Hmin). set (j := if _ && _ then _ else _) in *.
  destruct (lookup_lt_is_Some_2 l j ltac:(lia)) as [y Hy]. rewrite (Less_at_some l j i y x) by done.
  pose proof (parent_lt j ltac:(lia)). destruct (less y x) eqn:E; cbn [negb].
  - destruct (hole_down lo i j n l x y) as [Hh' Hi]; try done; [lia|].
    destruct (IH j (Swap i j l)) as [P1 S1 L1 T1 O1]; [by rewrite length_Swap|lia|lia|done|].
    split; [by rewrite P1, Swap_perm| |lia|lia|].
    + intros k Hk. rewrite S1 by lia. rewrite (Swap_lookup i j l k x y) by done.
      by rewrite !decide_False by lia.
    + intros k Hk Hlok Hor. destruct (decide (k = j)) as [->|Hkj].
      * destruct (decide ((down fuel j n (Swap i j l)).2 = j)) as [Hs|Hs]; [|by apply O1; [..|right]].
        rewrite (T1 Hs), Hpj. intros a b. rewrite !(Swap_lookup i j l _ x y) by done.
        rewrite (decide_False (P := j = i)), (decide_True (P := j = j)), (decide_True (P := i = i)) by lia.
        intros Ha Hb. simplify_eq. by apply less_asym.
      * by apply O1; [..|left].
  - split; try done. intros k Hk Hlok [Hne|]; [|done]. eapply hole_filled; [done..| |done|done|done].
    intros c Hc Hpc a b Ha Hb. cbn [fst] in *. simplify_eq. eapply less_neg_trans; [|exact E]. by eapply (Hmin c).
Qed.

(** ** Going up *)
Lemma hole_up j n l x y :
  (j < n <= length l)%nat -> (0 < j)%nat -> l !! j = Some y -> l !! parent j = Some x -> less y x = true ->
  (forall k, (0 < k < n)%nat -> k <> j -> ordered_at l k (parent k)) -> grand l j n ->
  (forall k, (0 < k < n)%nat -> k <> parent j -> ordered_at (Swap (parent j) j l) k (parent k)) /\
  ((0 < parent j)%nat -> grand (Swap (parent j) j l) (parent j) n).
Proof.
  intros Hn Hj Hy Hx Hless Hk Hg. pose proof (parent_lt j Hj) as Hlt. remember (parent j) as i eqn:Hpj.
  assert (Hsw : forall k, Swap i j l !! k = if decide (k = i) then Some y else if decide (k = j) then Some x else l !! k)
    by (intros k; by apply Swap_lookup).
  split.
  - intros k Hk0 Hne a b. rewrite !Hsw, (decide_False (P := k = i)) by done.
    destruct (decide (k = j)) as [->|Hkj].
    + rewrite <- Hpj, (decide_True (P := i = i)) by done. intros Ha Hb. simplify_eq. by apply less_asym.
    + destruct (decide (parent k = i)) as [Hpi|Hpi].
      * intros Ha [= <-]. destruct (less a y) eqn:E; [|done]. pose proof (less_trans a y x E Hless) as Ht.
        pose proof (Hk k Hk0 Hkj a x Ha) as Hf. rewrite Hpi in Hf. specialize (Hf Hx). congruence.
      * destruct (decide (parent k = j)) as [E|E]; [|by apply (Hk k)]. intros Ha [= <-]. eapply (Hg k); [done..|].
        by rewrite <- Hpj.
  - intros Hi c Hc Hpc a b. rewrite !Hsw. pose proof (parent_lt i Hi). pose proof (parent_lt c ltac:(lia)).
    rewrite (decide_False (P := c = i)), (decide_False (P := parent i = i)), (decide_False (P := parent i = j)) by lia.
    destruct (decide (c = j)) as [->|Hcj]; [intros [= <-] Hb; by eapply (Hk i); [lia|lia|..]|]. intros Ha Hb.
    eapply less_neg_trans; [eapply (Hk c); [done..|by rewrite Hpc]|by eapply (Hk i); [lia|lia|..]].
Qed.

Record up_result (n : nat) (l l' : list A) : Prop := {
  ur_perm : l' ≡ₚ l;
  ur_same : forall k, (n <= k)%nat -> l' !! k = l !! k;
  ur_ordered : forall k, (0 < k < n)%nat -> ordered_at l' k (parent k)
}.

Lemma up_ok n fuel j l :
  (j < n <= length l)%nat -> (j <= fuel)%nat ->
  (forall k, (0 < k < n)%nat -> k <> j -> ordered_at l k (parent k)) -> ((0 < j)%nat -> grand l j n) ->
  up_result n l (up fuel j l).
Proof.
  revert j l. induction fuel as [|fuel IH]; intros j l Hn Hf Hk Hg; cbn [up].
  { split; [done..|]. intros k Hk0. apply Hk; lia. }
  fold (parent j). destruct (decide (j = 0%nat)) as [->|Hj].
  { cbn. split; [done..|]. intros k Hk0. apply Hk; lia. }
  pose proof (parent_lt j ltac:(lia)). rewrite (proj2 (Nat.eqb_neq (parent j) j)) by lia. cbn [orb].
  destruct (lookup_lt_is_Some_2 l j ltac:(lia)) as [y Hy]. destruct (lookup_lt_is_Some_2 l (parent j) ltac:(lia)) as [x Hx].
  rewrite (Less_at_some l j (parent j) y x) by done. destruct (less y x) eqn:E; cbn [negb].
  - destruct (hole_up j n l x y) as [Hk' Hg']; try done; [lia|apply Hg; lia|].
    destruct (IH (parent j) (Swap (parent j) j l)) as [P S O']; [by rewrite length_Swap; lia|lia|done..|].
    split; [by rewrite P, Swap_perm| |done]. intros k Hk0. rewrite S by done. rewrite (Swap_lookup _ j l k x y) by done.
    by rewrite !decide_False by lia.
  - split; [done..|]. intros k Hk0. destruct (decide (k = j)) as [->|]; [|by apply Hk].
    intros a b Ha Hb. by simplify_eq.
Qed.

(** ** The operations *)
Lemma heap_down_eq i n l : heap_down i n l = ((down n i n l).1, (i <? (down n i n l).2)%nat).
Proof. unfold heap_down. by destruct (down n i n l). Qed.

Lemma init_from_ok k n l :
  (n = length l)%nat -> (k <= n / 2)%nat -> (forall c, (0 < c < n)%nat -> (k <= parent c)%nat -> ordered_at l c (parent c)) ->
  init_from k n l ≡ₚ l /\ heap_ok (init_from k n l).
Proof.
  revert l. induction k as [|k IH]; intros l Hn Hk Ho; cbn [init_from].
  { split; [done|]. intros c Hc. apply Ho; lia. }
  assert (Hk' : (2 * S k <= n)%nat). { pose proof (Nat.Div0.mul_div_le n 2). lia. }
  destruct (down_ok k n n k l) as [P S L T O']; [lia..| |].
  { split; [|intros Hi Hp; pose proof (parent_lt k Hi); lia]. intros c Hc Hlo _ Hne. apply Ho; lia. }
  rewrite heap_down_eq. cbn [fst]. destruct (IH (down n k n l).1) as [P' H']; [by rewrite P|lia| |].
  { intros c Hc Hlo. apply O'; [done|lia|]. left. intros ->. pose proof (parent_lt k ltac:(lia)). lia. }
  split; [by rewrite P', P|done].
Qed.

(** [Init] makes a heap of any slice. *)
Lemma heap_Init_ok l : heap_Init l ≡ₚ l /\ heap_ok (heap_Init l).
Proof.
  apply init_from_ok; [done..|]. intros c Hc Hp. exfalso. destruct (parent_child c (parent c)) as [E|E]; [lia|done|..];
    pose proof (Nat.div_mod (length l) 2 ltac:(lia)); pose proof (Nat.mod_upper_bound (length l) 2); lia.
Qed.

Lemma heap_Push_ok x l : heap_ok l -> heap_Push x l ≡ₚ x :: l /\ heap_ok (heap_Push x l).
Proof.
  intros Hl. unfold heap_Push, heap_up. destruct (up_ok (S (length l)) (length l) (length l) (l ++ [x])) as [P S O'].
  - rewrite length_app. cbn. lia.
  - done.
  - intros k Hk Hne a b. pose proof (parent_lt k ltac:(lia)). rewrite !lookup_app_l by lia. apply Hl. lia.
  - intros Hj c Hc Hpc. pose proof (parent_lt c ltac:(lia)). lia.
  - split; [rewrite P; by rewrite Permutation_app_comm|]. intros k Hk. apply O'. rewrite P, length_app in Hk. cbn in Hk. lia.
Qed.

(** The first element of a heap is a smallest one. *)
Lemma heap_min l x y : heap_ok l -> l !! 0%nat = Some x -> y ∈ l -> less y x = false.
Proof.
  intros Hl Hx [k Hk]%list_elem_of_lookup. revert y Hk. induction (lt_wf k) as [k _ IH]. intros y Hk.
  destruct (decide (k = 0%nat)) as [->|Hne]; [simplify_eq; apply less_irrefl|].
  pose proof (parent_lt k ltac:(lia)) as Hp. pose proof (lookup_lt_Some _ _ _ Hk).
  destruct (lookup_lt_is_Some_2 l (parent k) ltac:(lia)) as [z Hz].
  eapply less_neg_trans; [|by eapply (IH (parent k))]. eapply (Hl k); [lia|done..].
Qed.

(** ** Putting one position right *)
Lemma heap_Fix_in_ok i n l : (i < n <= length l)%nat -> hole 0 i n l -> up_result n l (heap_Fix_in i n l).
Proof.
  intros Hi Hh. unfold heap_Fix_in, heap_up. rewrite heap_down_eq.
  destruct (down_ok 0 n n i l) as [P S L T O']; [lia..|done|].
  destruct (Nat.ltb_spec i (down n i n l).2) as [Hlt|Hge].
  - split; [done|intros k Hk; apply S; lia|]. intros k Hk. apply O'; [done|lia|]. right. lia.
  - assert (Hs : (down n i n l).2 = i) by lia. rewrite (T Hs) in *. destruct Hh as [_ Hg]. apply up_ok; [done..| |].
    + intros k Hk Hne. apply O'; [done|lia|by left].
    + intros Hp. apply Hg; [done|lia].
Qed.

(** A heap in which the positions below [n] other than [i] are left alone. *)
Lemma heap_hole i n l l' :
  (i < n <= length l)%nat -> heap_ok l -> (forall k, (k < n)%nat -> k <> i -> l' !! k = l !! k) -> hole 0 i n l'.
Proof.
  intros Hi Hl Hs. split.
  - intros k Hk _ Hne Hp a b. pose proof (parent_lt k ltac:(lia)). rewrite !Hs by lia. apply Hl. lia.
  - intros Hp _ c Hc Hpc a b. pose proof (parent_lt c ltac:(lia)). pose proof (parent_lt i Hp). rewrite !Hs by lia.
    intros Ha Hb. destruct (lookup_lt_is_Some_2 l i ltac:(lia)) as [y Hy].
    eapply less_neg_trans; [eapply (Hl c); [lia|exact Ha|by rewrite Hpc]|by eapply (Hl i); [lia|..]].
Qed.

Lemma heap_Fix_ok i x l : (i < length l)%nat -> heap_ok l -> heap_Fix i (<[i := x]> l) ≡ₚ <[i := x]> l /\ heap_ok (heap_Fix i (<[i := x]> l)).
Proof.
  intros Hi Hl. unfold heap_Fix. rewrite length_insert. destruct (heap_Fix_in_ok i (length l) (<[i := x]> l)) as [P S O'].
  - rewrite length_insert. lia.
  - apply (heap_hole i (length l) l); [lia|done|]. intros k Hk Hne. by apply list_lookup_insert_ne.
  - split; [done|]. intros k Hk. apply O'. by rewrite P, length_insert in Hk.
Qed.

(** ** Taking elements out *)
Lemma pop_last_ok n l : length l = S n -> exists x, l !! n = Some x /\ pop_last l = Some (x, take n l) /\ x :: take n l ≡ₚ l.
Proof.
  intros Hn. destruct (lookup_lt_is_Some_2 l n ltac:(lia)) as [x Hx]. exists x. split_and!; [done| |].
  - unfold pop_last. rewrite last_lookup, Hn. cbn [Nat.pred]. rewrite Hx. cbn. by rewrite Nat.sub_0_r.
  - rewrite <- (take_drop n l) at 2. rewrite (drop_S l x n Hx), drop_ge by lia. by rewrite Permutation_app_comm.
Qed.

Lemma taken_ok n l l' :
  length l = S n -> up_result n l l' -> exists x, l !! n = Some x /\ pop_last l' = Some (x, take n l') /\ x :: take n l' ≡ₚ l /\ heap_ok (take n l').
Proof.
  intros Hn [P S O']. destruct (pop_last_ok n l') as (x & Hx & Hp & Hperm); [by rewrite P|].
  exists x. split_and!; [by rewrite <- S by lia|done|by rewrite Hperm|].
  intros k Hk a b. rewrite length_take in Hk. pose proof (parent_lt k ltac:(lia)). rewrite !lookup_take_lt by lia. apply O'. lia.
Qed.

Lemma heap_ok_ordered n l : (n <= length l)%nat -> heap_ok l -> up_result n l l.
Proof. intros Hn Hl. split; [done..|]. intros k Hk. apply Hl. lia. Qed.

(** [Pop] takes out a smallest element. *)
Lemma heap_Pop_ok l x rest :
  heap_ok l -> l = x :: rest ->
  exists l', heap_Pop l = Some (x, l') /\ x :: l' ≡ₚ l /\ heap_ok l' /\ forall y, y ∈ l -> less y x = false.
Proof.
  intros Hl ->. set (l := x :: rest) in *. set (n := length rest). assert (Hn : length l = S n) by done.
  destruct (lookup_lt_is_Some_2 l n ltac:(lia)) as [z Hz]. assert (Hx : l !! 0%nat = Some x) by done.
  assert (Hsw : up_result n (Swap 0 n l) (heap_down 0 n (Swap 0 n l)).1).
  { rewrite heap_down_eq. cbn [fst]. destruct (decide (n = 0%nat)) as [E|E].
    - rewrite E. cbn. split; [done..|lia].
    - destruct (down_ok 0 n n 0 (Swap 0 n l)) as [P S L T O']; [rewrite length_Swap; lia|lia|lia| |].
      + apply (heap_hole 0 n l); [lia|done|]. intros k Hk Hne. rewrite (Swap_lookup 0 n l k x z) by done.
        by rewrite !decide_False by lia.
      + split; [done|intros k Hk; apply S; lia|]. intros k Hk. apply O'; lia. }
  destruct (taken_ok n (Swap 0 n l) _ ltac:(by rewrite length_Swap) Hsw) as (x' & Hx' & Hp & Hperm & Hok).
  rewrite (Swap_lookup 0 n l n x z) in Hx' by done.
  assert (x' = x) as ->.
  { repeat case_decide; [|congruence..]. assert (l !! n = l !! 0%nat) by congruence. congruence. }
  eexists. split_and!; [|by rewrite Hperm, Swap_perm|exact Hok|intros y; by apply heap_min].
  unfold heap_Pop. cbn [l]. fold l. rewrite Hn. replace (S n - 1)%nat with n by lia. exact Hp.
Qed.

Lemma heap_Remove_ok i x l :
  heap_ok l -> l !! i = Some x -> exists l', heap_Remove i l = Some (x, l') /\ x :: l' ≡ₚ l /\ heap_ok l'.
Proof.
  intros Hl Hx. pose proof (lookup_lt_Some _ _ _ Hx) as Hi. unfold heap_Remove.
  rewrite (proj2 (Nat.leb_gt (length l) i)) by done. set (n := (length l - 1)%nat).
  assert (Hn : length l = S n) by lia. destruct (Nat.eqb_spec n i) as [<-|Hne].
  - destruct (taken_ok n l l Hn (heap_ok_ordered n l ltac:(lia) Hl)) as (x' & Hx' & Hp & Hperm & Hok).
    simplify_eq. eauto.
  - destruct (lookup_lt_is_Some_2 l n ltac:(lia)) as [z Hz].
    assert (Hf : up_result n (Swap i n l) (heap_Fix_in i n (Swap i n l))).
    { apply heap_Fix_in_ok; [rewrite length_Swap; lia|]. apply (heap_hole i n l); [lia|done|]. intros k Hk Hki.
      rewrite (Swap_lookup i n l k x z) by done. by rewrite !decide_False by lia. }
    destruct (taken_ok n (Swap i n l) _ ltac:(by rewrite length_Swap) Hf) as (x' & Hx' & Hp & Hperm & Hok).
    rewrite (Swap_lookup i n l n x z), decide_False, decide_True in Hx' by done. simplify_eq.
    eexists. split_and!; [exact Hp|by rewrite Hperm, Swap_perm|done].
Qed.
End heap.
