(* ===== verification/Bytes.v ===== *)
(** * Byte strings, fixed-size arrays, hexadecimal and decimal text

    Models [math/big]'s byte conversions, [common.Hash] and [common.Address]
    with their conversions ([src/common/types.go], [src/common/bytes.go],
    [src/common/hexutil/hexutil.go]) and the parts of [encoding/hex] and
    [strconv] these and the consensus messages use. *)

From S2P Require Import Prelude.

(** Go byte slices and strings are both [list byte]. *)
Abbreviation bytes := (list byte).

(** ** Big-endian numbers: [big.Int.SetBytes] and [big.Int.Bytes] *)
Definition SetBytes (l : bytes) : Z :=
  foldl (fun acc b => acc * 256 + Z_of_byte b) 0 l.

Fixpoint big_bytes_go (fuel : nat) (z : Z) (acc : bytes) : bytes :=
  match fuel with
  | O => acc
  | S n => if z =? 0 then acc else big_bytes_go n (z / 256) (byte_of_Z z :: acc)
  end.

(** The absolute value in the least number of bytes; zero gives none. The fuel
    is at least the number of bits. *)
Definition BigBytes (z : Z) : bytes :=
  big_bytes_go (S (Z.to_nat (Z.log2 (Z.abs z)))) (Z.abs z) [].

Section big_endian.
Lemma foldl_be_shift l acc :
  foldl (fun acc b => acc * 256 + Z_of_byte b) acc l
  = acc * 256 ^ Z.of_nat (length l) + SetBytes l.
Proof.
  unfold SetBytes. revert acc. induction l as [|b l IH]; intros acc; simpl.
  - lia.
  - rewrite IH, (IH (0 * 256 + Z_of_byte b)), Nat2Z.inj_succ, Z.pow_succ_r by lia. lia.
Qed.

Lemma SetBytes_app l1 l2 :
  SetBytes (l1 ++ l2) = SetBytes l1 * 256 ^ Z.of_nat (length l2) + SetBytes l2.
Proof. unfold SetBytes at 1. by rewrite foldl_app, foldl_be_shift. Qed.

Lemma SetBytes_cons b l :
  SetBytes (b :: l) = Z_of_byte b * 256 ^ Z.of_nat (length l) + SetBytes l.
Proof. unfold SetBytes at 1. simpl. rewrite foldl_be_shift. lia. Qed.

Lemma SetBytes_snoc l b : SetBytes (l ++ [b]) = SetBytes l * 256 + Z_of_byte b.
Proof. rewrite SetBytes_app. unfold SetBytes at 2. simpl. lia. Qed.

Lemma SetBytes_bound l : 0 <= SetBytes l < 256 ^ Z.of_nat (length l).
Proof.
  induction l as [|b l IH] using rev_ind; [done|].
  rewrite SetBytes_snoc, length_app, Nat.add_1_r, Nat2Z.inj_succ, Z.pow_succ_r by lia.
  pose proof (Z_of_byte_range b). lia.
Qed.

Lemma big_bytes_go_app fuel z acc :
  big_bytes_go fuel z acc = big_bytes_go fuel z [] ++ acc.
Proof.
  revert z acc. induction fuel as [|n IH]; intros z acc; simpl; [done|].
  destruct (z =? 0); [done|].
  rewrite IH, (IH _ [byte_of_Z z]), <- app_assoc. done.
Qed.

Lemma big_bytes_go_spec fuel z :
  0 <= z < 2 ^ Z.of_nat fuel -> SetBytes (big_bytes_go fuel z []) = z.
Proof.
  revert z. induction fuel as [|n IH]; intros z Hz; simpl.
  - rewrite Nat2Z.inj_0 in Hz. unfold SetBytes; simpl. lia.
  - destruct (Z.eqb_spec z 0) as [->|Hne]; [done|].
    rewrite big_bytes_go_app, SetBytes_snoc, IH, Z_of_byte_of_Z.
    + pose proof (Z.div_mod z 256). lia.
    + rewrite Nat2Z.inj_succ, Z.pow_succ_r in Hz by lia.
      split; [apply Z.div_pos; lia|]. apply Z.div_lt_upper_bound; lia.
Qed.

Lemma SetBytes_BigBytes z : 0 <= z -> SetBytes (BigBytes z) = z.
Proof.
  intros Hz. unfold BigBytes. rewrite Z.abs_eq by done.
  apply big_bytes_go_spec. split; [done|].
  rewrite Nat2Z.inj_succ, Z2Nat.id by apply Z.log2_nonneg.
  destruct (decide (z = 0)) as [->|]; [done|]. apply Z.log2_spec. lia.
Qed.

Lemma BigBytes_0 : BigBytes 0 = [].
Proof. done. Qed.

Lemma big_bytes_go_head fuel z b l :
  0 <= z -> big_bytes_go fuel z [] = b :: l -> z < 2 ^ Z.of_nat fuel -> b <> byte_of_Z 0.
Proof.
  revert z b l. induction fuel as [|n IH]; intros z b l Hz; simpl; [done|].
  destruct (Z.eqb_spec z 0) as [->|Hne]; [done|].
  rewrite big_bytes_go_app. intros Heq Hlt.
  assert (Hdlt : z / 256 < 2 ^ Z.of_nat n).
  { rewrite Nat2Z.inj_succ, Z.pow_succ_r in Hlt by lia.
    apply Z.div_lt_upper_bound; lia. }
  destruct (big_bytes_go n (z / 256) []) as [|b' l'] eqn:E.
  - simplify_eq/=. intros Hb%(f_equal Z_of_byte). rewrite !Z_of_byte_of_Z in Hb.
    assert (Hd : 0 <= z / 256 < 2 ^ Z.of_nat n) by (split; [apply Z.div_pos; lia|done]).
    pose proof (big_bytes_go_spec n (z / 256) Hd) as Hs. rewrite E in Hs.
    unfold SetBytes in Hs; simpl in Hs. pose proof (Z.div_mod z 256).
    rewrite (Z.mod_small 0) in Hb by lia. lia.
  - simplify_eq/=. eapply IH; [|done|done]. apply Z.div_pos; lia.
Qed.

(** The first byte of [Bytes] is never zero. *)
Lemma BigBytes_head z b l : BigBytes z = b :: l -> b <> byte_of_Z 0.
Proof.
  unfold BigBytes. intros H. eapply big_bytes_go_head; [|done|]; [lia|].
  rewrite Nat2Z.inj_succ, Z2Nat.id by apply Z.log2_nonneg.
  destruct (decide (Z.abs z = 0)) as [->|]; [done|]. apply Z.log2_spec. lia.
Qed.

Lemma SetBytes_head_lower b l :
  b <> byte_of_Z 0 -> 256 ^ Z.of_nat (length l) <= SetBytes (b :: l).
Proof.
  intros Hb. rewrite SetBytes_cons. pose proof (SetBytes_bound l).
  assert (Z_of_byte b <> 0).
  { intros H0. apply Hb. rewrite <- (byte_of_Z_of_byte b), H0. done. }
  pose proof (Z_of_byte_range b).
  assert (0 < 256 ^ Z.of_nat (length l)) by (apply Z.pow_pos_nonneg; lia). nia.
Qed.

Lemma SetBytes_inj_length l1 l2 :
  length l1 = length l2 -> SetBytes l1 = SetBytes l2 -> l1 = l2.
Proof.
  revert l2. induction l1 as [|b l1 IH] using rev_ind; intros l2 Hlen Heq.
  - by destruct l2.
  - destruct l2 as [|c l2 _] using rev_ind; [rewrite length_app in Hlen; simpl in Hlen; lia|].
    rewrite !length_app in Hlen. simpl in Hlen. rewrite !SetBytes_snoc in Heq.
    pose proof (Z_of_byte_range b). pose proof (Z_of_byte_range c).
    assert (SetBytes l1 = SetBytes l2 /\ Z_of_byte b = Z_of_byte c) as [H1 H2] by lia.
    apply (inj Z_of_byte) in H2. subst. f_equal. apply IH; [lia|done].
Qed.

Lemma SetBytes_canonical_length l1 l2 :
  head l1 <> Some (byte_of_Z 0) -> head l2 <> Some (byte_of_Z 0) ->
  SetBytes l1 = SetBytes l2 -> (length l1 <= length l2)%nat.
Proof.
  intros H1 H2 Heq. destruct l1 as [|b l1]; [simpl; lia|].
  simpl in H1. pose proof (SetBytes_head_lower b l1 ltac:(congruence)).
  pose proof (SetBytes_bound l2). rewrite Heq in H.
  assert (256 ^ Z.of_nat (length l1) < 256 ^ Z.of_nat (length l2)) as Hlt by lia.
  apply Z.pow_lt_mono_r_iff in Hlt; simpl; lia.
Qed.

(** A byte string without a leading zero is the canonical form of its value. *)
Lemma BigBytes_SetBytes l : head l <> Some (byte_of_Z 0) -> BigBytes (SetBytes l) = l.
Proof.
  intros Hh. pose proof (SetBytes_bound l).
  assert (Hh' : head (BigBytes (SetBytes l)) <> Some (byte_of_Z 0)).
  { destruct (BigBytes _) as [|b r] eqn:E; [done|]. simpl.
    apply BigBytes_head in E. congruence. }
  assert (Heq : SetBytes (BigBytes (SetBytes l)) = SetBytes l)
    by (apply SetBytes_BigBytes; lia).
  apply SetBytes_inj_length; [|done].
  apply Nat.le_antisymm; by apply SetBytes_canonical_length.
Qed.

Lemma BigBytes_length_bound z (n : nat) :
  0 <= z < 256 ^ Z.of_nat n -> (length (BigBytes z) <= n)%nat.
Proof.
  intros Hz. destruct (BigBytes z) as [|b l] eqn:E; [simpl; lia|].
  pose proof (BigBytes_head _ _ _ E) as Hb.
  pose proof (SetBytes_head_lower b l Hb) as Hlow.
  rewrite <- E, SetBytes_BigBytes in Hlow by lia.
  assert (256 ^ Z.of_nat (length l) < 256 ^ Z.of_nat n) as Hlt by lia.
  apply Z.pow_lt_mono_r_iff in Hlt; simpl; lia.
Qed.

Lemma BigBytes_nonempty z : 0 < z -> BigBytes z <> [].
Proof.
  intros Hz H. pose proof (SetBytes_BigBytes z ltac:(lia)) as Heq.
  rewrite H in Heq. unfold SetBytes in Heq; simpl in Heq. lia.
Qed.
End big_endian.

(** ** Fixed-size byte arrays *)
Record bytesN (n : nat) : Type := BytesN {
  bytes_of : bytes;
  bytes_len : bool_decide (length bytes_of = n) = true }.
Arguments BytesN {n} bytes_of bytes_len.
Arguments bytes_of {n} _.
Arguments bytes_len {n} _.

Lemma bytes_of_length {n} (a : bytesN n) : length (bytes_of a) = n.
Proof. destruct a as [l H]. simpl. by apply bool_decide_eq_true in H. Qed.

#[export] Instance bytes_of_inj n : Inj (=) (=) (@bytes_of n).
Proof.
  intros [l1 H1] [l2 H2]. simpl. intros ->. f_equal. apply proof_irrel.
Qed.

#[export] Instance bytesN_eq_dec n : EqDecision (bytesN n).
Proof.
  intros a b. destruct (decide (bytes_of a = bytes_of b)) as [H|H].
  - left. by apply (inj bytes_of).
  - right. congruence.
Defined.

(** [SetBytes] of [Hash] and [Address]: too long a slice loses its left part,
    a short one is padded with zeros on the left. *)
Definition fit (n : nat) (b : bytes) : bytes :=
  let b := if (n <? length b)%nat then drop (length b - n) b else b in
  replicate (n - length b) (byte_of_Z 0) ++ b.

Lemma length_fit n b : length (fit n b) = n.
Proof.
  unfold fit. rewrite length_app, length_replicate.
  destruct (Nat.ltb_spec n (length b)); rewrite ?length_drop; lia.
Qed.

Lemma fit_id n b : length b = n -> fit n b = b.
Proof.
  intros <-. unfold fit. rewrite Nat.ltb_irrefl, Nat.sub_diag. done.
Qed.

(** Of a longer slice the last [n] bytes are kept. *)
Lemma fit_app n a b : length b = n -> fit n (a ++ b) = b.
Proof.
  intros Hb. unfold fit. rewrite length_app. destruct (Nat.ltb_spec n (length a + length b)).
  - replace (length a + length b - n)%nat with (length a) by lia.
    rewrite drop_app_length, Hb, Nat.sub_diag. done.
  - assert (a = []) as -> by (destruct a; [done|simpl in *; lia]).
    simpl. rewrite Hb, Nat.sub_diag. done.
Qed.

Lemma fit_short n b : (length b <= n)%nat -> fit n b = replicate (n - length b) (byte_of_Z 0) ++ b.
Proof. intros Hb. unfold fit. by rewrite (proj2 (Nat.ltb_ge _ _) Hb). Qed.

(** Padding does not change the number. *)
Lemma SetBytes_fit n b : (length b <= n)%nat -> SetBytes (fit n b) = SetBytes b.
Proof.
  intros Hb. rewrite fit_short by done. induction (n - length b)%nat as [|k IH]; [done|]. cbn [replicate app].
  rewrite SetBytes_cons, IH. change (Z_of_byte (byte_of_Z 0)) with 0. lia.
Qed.

Lemma fit_ok n b : bool_decide (length (fit n b) = n) = true.
Proof. apply bool_decide_eq_true. apply length_fit. Qed.

(** The length proof is rebuilt by evaluation, so that concrete arrays are
    convertible whenever their bytes are. *)
Definition mk_bytesN (n : nat) (b : bytes) : bytesN n :=
  BytesN (fit n b)
    (match bool_decide (length (fit n b) = n) as c return c = true -> c = true with
     | true => fun _ => eq_refl
     | false => fun H => H
     end (fit_ok n b)).

Lemma bytes_of_mk n b : bytes_of (mk_bytesN n b) = fit n b.
Proof. done. Qed.

Lemma mk_bytesN_of {n} (a : bytesN n) : mk_bytesN n (bytes_of a) = a.
Proof. apply (inj bytes_of). simpl. apply fit_id, bytes_of_length. Qed.

#[export] Instance bytesN_countable n : Countable (bytesN n) :=
  inj_countable' bytes_of (mk_bytesN n) mk_bytesN_of.

#[export] Instance bytesN_inhabited n : Inhabited (bytesN n) := populate (mk_bytesN n []).

Definition HashLength : nat := 32.
Definition AddressLength : nat := 20.
Definition Hash : Type := bytesN HashLength.
Definition Address : Type := bytesN AddressLength.

#[export] Instance Hash_eq_dec : EqDecision Hash := bytesN_eq_dec _.
#[export] Instance Hash_countable : Countable Hash := bytesN_countable _.
#[export] Instance Hash_inhabited : Inhabited Hash := bytesN_inhabited _.
#[export] Instance Address_eq_dec : EqDecision Address := bytesN_eq_dec _.
#[export] Instance Address_countable : Countable Address := bytesN_countable _.
#[export] Instance Address_inhabited : Inhabited Address := bytesN_inhabited _.

Definition BytesToHash (b : bytes) : Hash := mk_bytesN HashLength b.
Definition BigToHash (z : Z) : Hash := BytesToHash (BigBytes z).
Definition Hash_Big (h : Hash) : Z := SetBytes (bytes_of h).
Definition BytesToAddress (b : bytes) : Address := mk_bytesN AddressLength b.
Definition BigToAddress (z : Z) : Address := BytesToAddress (BigBytes z).
(** [Address.Hash]: the address padded on the left to a hash. *)
Definition Address_Hash (a : Address) : Hash := BytesToHash (bytes_of a).

(** The zero values [common.Hash{}] and [common.Address{}]. *)
Definition zeroHash : Hash := BytesToHash [].
Definition zeroAddress : Address := BytesToAddress [].

(** ** Hexadecimal text: [encoding/hex], [common.FromHex], [hexutil.Encode] *)
Definition str (s : string) : bytes := String.list_byte_of_string s.

Definition hexDigit (n : Z) : byte :=
  if n <? 10 then byte_of_Z (48 + n) else byte_of_Z (87 + n).

Definition fromHexChar (c : byte) : option Z :=
  let c := Z_of_byte c in
  if (48 <=? c) && (c <=? 57) then Some (c - 48)
  else if (97 <=? c) && (c <=? 102) then Some (c - 87)
  else if (65 <=? c) && (c <=? 70) then Some (c - 55)
  else None.

(** [hex.EncodeToString] *)
Definition hexEncodeToString (b : bytes) : bytes :=
  flat_map (fun c => [hexDigit (Z_of_byte c / 16); hexDigit (Z_of_byte c mod 16)]) b.

(** The bytes [hex.DecodeString] returns beside its error: those decoded before
    the first invalid pair. *)
Fixpoint hexDecodeString (s : bytes) : bytes :=
  match s with
  | a :: b :: s' =>
      match fromHexChar a, fromHexChar b with
      | Some x, Some y => byte_of_Z (Z.lor (Z.shiftl x 4) y) :: hexDecodeString s'
      | _, _ => []
      end
  | _ => []
  end.

(** [hexutil.Encode]: with the 0x prefix. *)
Definition hexutil_Encode (b : bytes) : bytes := str "0x" ++ hexEncodeToString b.

Definition FromHex (s : bytes) : bytes :=
  let s := if (1 <? length s)%nat then
             if bool_decide (take 2 s = str "0x") || bool_decide (take 2 s = str "0X")
             then drop 2 s else s
           else s in
  let s := if (length s mod 2 =? 1)%nat then str "0" ++ s else s in
  hexDecodeString s.

Definition Hash_Hex (h : Hash) : bytes := hexutil_Encode (bytes_of h).
Definition HexToHash (s : bytes) : Hash := BytesToHash (FromHex s).
Definition HexToAddress (s : bytes) : Address := BytesToAddress (FromHex s).

Section hexadecimal.
Lemma fromHexChar_hexDigit n : 0 <= n < 16 -> fromHexChar (hexDigit n) = Some n.
Proof.
  intros Hn.
  assert (Hall : forallb (fun k => bool_decide (fromHexChar (hexDigit k) = Some k))
                   (Z.of_nat <$> seq 0 16) = true) by (vm_compute; done).
  rewrite forallb_forall in Hall.
  specialize (Hall n). apply bool_decide_eq_true in Hall; [done|].
  apply list_elem_of_In, list_elem_of_fmap. exists (Z.to_nat n).
  split; [lia|]. apply elem_of_seq. lia.
Qed.

Lemma nibbles c : Z.lor (Z.shiftl (Z_of_byte c / 16) 4) (Z_of_byte c mod 16) = Z_of_byte c.
Proof.
  change 16 with (2 ^ 4). rewrite <- Z.land_ones, <- Z.shiftr_div_pow2 by lia.
  apply Z.bits_inj'. intros i Hi.
  rewrite Z.lor_spec, Z.land_spec, Z.testbit_ones_nonneg by lia.
  destruct (Z.ltb_spec i 4).
  - rewrite Z.shiftl_spec_low by lia. by rewrite andb_true_r.
  - rewrite Z.shiftl_spec_high, Z.shiftr_spec by lia.
    replace (i - 4 + 4) with i by lia. by rewrite andb_false_r, orb_false_r.
Qed.

Lemma length_hexEncode b : length (hexEncodeToString b) = (2 * length b)%nat.
Proof. induction b as [|c b IH]; simpl; [done|]. rewrite IH. lia. Qed.

Lemma hexDecode_Encode b : hexDecodeString (hexEncodeToString b) = b.
Proof.
  induction b as [|c b IH]; simpl; [done|].
  pose proof (Z_of_byte_range c).
  rewrite !fromHexChar_hexDigit.
  - by rewrite IH, nibbles, byte_of_Z_of_byte.
  - apply Z.mod_pos_bound. lia.
  - split; [apply Z.div_pos|apply Z.div_lt_upper_bound]; lia.
Qed.

Lemma FromHex_Encode b : FromHex (hexutil_Encode b) = b.
Proof.
  assert (Hl : (length (hexEncodeToString b) mod 2 =? 1)%nat = false).
  { by rewrite length_hexEncode, (Nat.mul_comm 2), Nat.Div0.mod_mul. }
  unfold FromHex, hexutil_Encode. cbn -[Nat.modulo Nat.eqb hexDecodeString].
  rewrite take_0, drop_0, bool_decide_eq_true_2 by done. simpl orb. cbv iota.
  rewrite Hl. apply hexDecode_Encode.
Qed.

Lemma HexToHash_Hex h : HexToHash (Hash_Hex h) = h.
Proof. unfold HexToHash, Hash_Hex. rewrite FromHex_Encode. apply mk_bytesN_of. Qed.

(** Comparing two hashes by their [Hex] strings, as the consensus code does, is
    comparing the hashes. *)
#[export] Instance Hash_Hex_inj : Inj (=) (=) Hash_Hex.
Proof. intros a b H. by rewrite <- (HexToHash_Hex a), <- (HexToHash_Hex b), H. Qed.
End hexadecimal.

(** ** Decimal text: [strconv.FormatInt(i, 10)] and [strconv.ParseInt(s, 10, 64)] *)
Fixpoint decimal_go (fuel : nat) (z : Z) (acc : bytes) : bytes :=
  match fuel with
  | O => acc
  | S n =>
      let acc := byte_of_Z (48 + z mod 10) :: acc in
      if z <? 10 then acc else decimal_go n (z / 10) acc
  end.

(** [strconv.FormatInt] in base 10; an [int64] has at most 19 digits. *)
Definition FormatInt (z : Z) : bytes :=
  if z <? 0 then str "-" ++ decimal_go 20 (- z) [] else decimal_go 20 z [].

(** The digit loop of [strconv.ParseUint] in base 10; [None] is its syntax error. *)
Fixpoint parse_digits (s : bytes) (n : Z) : option Z :=
  match s with
  | [] => Some n
  | c :: s' =>
      let d := Z_of_byte c in
      if (48 <=? d) && (d <=? 57) then parse_digits s' (n * 10 + (d - 48)) else None
  end.

(** [strconv.ParseInt(s, 10, 64)]; [None] is its syntax or range error. *)
Definition ParseInt (s : bytes) : option Z :=
  let '(neg, ds) :=
    match s with
    | c :: r => if bool_decide (c = byte_of_Z 43) then (false, r)
                else if bool_decide (c = byte_of_Z 45) then (true, r) else (false, s)
    | [] => (false, [])
    end in
  match ds with
  | [] => None
  | _ =>
      match parse_digits ds 0 with
      | None => None
      | Some un =>
          if negb neg && (2 ^ 63 <=? un) then None
          else if neg && (2 ^ 63 <? un) then None
          else Some (if neg then - un else un)
      end
  end.

Section decimal.
Lemma parse_digits_app s1 s2 n m :
  parse_digits s1 n = Some m -> parse_digits (s1 ++ s2) n = parse_digits s2 m.
Proof.
  revert n. induction s1 as [|c s1 IH]; intros n; simpl; [by intros [= ->]|].
  destruct (_ && _); [apply IH|done].
Qed.

Lemma decimal_go_app fuel z acc :
  decimal_go fuel z acc = decimal_go fuel z [] ++ acc.
Proof.
  revert z acc. induction fuel as [|n IH]; intros z acc; simpl; [done|].
  destruct (z <? 10); [done|]. rewrite IH, (IH _ [_]), <- app_assoc. done.
Qed.

Lemma decimal_go_S n z acc :
  decimal_go (S n) z acc
  = if z <? 10 then byte_of_Z (48 + z mod 10) :: acc
    else decimal_go n (z / 10) (byte_of_Z (48 + z mod 10) :: acc).
Proof. done. Qed.

Lemma parse_digit_one d n :
  0 <= d < 10 -> parse_digits [byte_of_Z (48 + d)] n = Some (n * 10 + d).
Proof.
  intros Hd. simpl. rewrite Z_of_byte_of_Z, Z.mod_small by lia.
  rewrite (proj2 (Z.leb_le 48 _)), (proj2 (Z.leb_le (48 + d) 57)) by lia. simpl. f_equal. lia.
Qed.

Lemma parse_decimal_go fuel z :
  0 <= z < 10 ^ Z.of_nat fuel -> parse_digits (decimal_go fuel z []) 0 = Some z.
Proof.
  revert z. induction fuel as [|n IH]; intros z Hz.
  - simpl in Hz. assert (z = 0) as -> by lia. done.
  - pose proof (Z.mod_pos_bound z 10 ltac:(lia)) as Hm.
    rewrite decimal_go_S. destruct (Z.ltb_spec z 10).
    + rewrite parse_digit_one by done. rewrite Z.mod_small by lia. done.
    + rewrite Nat2Z.inj_succ, Z.pow_succ_r in Hz by lia.
      rewrite decimal_go_app, (parse_digits_app _ _ 0 (z / 10)).
      * rewrite parse_digit_one by done. f_equal.
        pose proof (Z.div_mod z 10 ltac:(lia)). lia.
      * apply IH. split; [apply Z.div_pos; lia|apply Z.div_lt_upper_bound; lia].
Qed.

Lemma decimal_go_digits fuel z c :
  0 <= z -> c ∈ decimal_go fuel z [] -> 48 <= Z_of_byte c <= 57.
Proof.
  revert z. induction fuel as [|n IH]; intros z Hz; simpl; [by intros ?%not_elem_of_nil|].
  assert (Hd : 48 <= Z_of_byte (byte_of_Z (48 + z mod 10)) <= 57).
  { pose proof (Z.mod_pos_bound z 10 ltac:(lia)).
    rewrite Z_of_byte_of_Z, Z.mod_small; lia. }
  destruct (z <? 10).
  - by intros ->%list_elem_of_singleton.
  - rewrite decimal_go_app. intros [Hin| ->%list_elem_of_singleton]%elem_of_app; [|done].
    eapply IH; [|done]. apply Z.div_pos; lia.
Qed.

Lemma decimal_go_cons fuel z :
  (0 < fuel)%nat -> exists c r, decimal_go fuel z [] = c :: r.
Proof.
  intros Hf. destruct fuel as [|n]; [lia|]. rewrite decimal_go_S.
  destruct (z <? 10); [eauto|]. rewrite decimal_go_app.
  destruct (decimal_go n (z / 10) []) as [|c r]; simpl; eauto.
Qed.

Lemma ParseInt_FormatInt z : is_int64 z -> ParseInt (FormatInt z) = Some z.
Proof.
  intros Hz. unfold is_int64 in Hz. unfold FormatInt. destruct (Z.ltb_spec z 0).
  - destruct (decimal_go_cons 20 (- z)) as (c & r & E); [lia|].
    pose proof (parse_decimal_go 20 (- z) ltac:(lia)) as Hp. rewrite E in *.
    unfold ParseInt. simpl app. cbv beta iota.
    rewrite bool_decide_eq_false_2, bool_decide_eq_true_2 by done.
    cbv beta iota. rewrite Hp. simpl negb. simpl andb.
    rewrite (proj2 (Z.ltb_ge _ _)) by lia. simpl. f_equal. lia.
  - destruct (decimal_go_cons 20 z) as (c & r & E); [lia|].
    pose proof (parse_decimal_go 20 z ltac:(lia)) as Hp.
    assert (Hc : 48 <= Z_of_byte c <= 57).
    { apply (decimal_go_digits 20 z); [done|]. rewrite E. apply elem_of_cons. by left. }
    rewrite E in *. unfold ParseInt. cbv beta iota.
    rewrite !bool_decide_eq_false_2.
    + cbv beta iota. rewrite Hp. simpl. rewrite (proj2 (Z.leb_gt _ _)) by lia. done.
    + intros ->. vm_compute in Hc. by destruct Hc as [[] _].
    + intros ->. vm_compute in Hc. by destruct Hc as [[] _].
Qed.

Lemma parse_digits_nonneg s : forall n z, 0 <= n -> parse_digits s n = Some z -> 0 <= z.
Proof.
  induction s as [|c s IH]; cbn [parse_digits]; intros n z Hn Hz; [by injection Hz as <-|].
  destruct (_ && _) eqn:E; [|done]. eapply IH; [|exact Hz]. apply andb_true_iff in E as [E1 E2]. lia.
Qed.

Lemma ParseInt_int64 s z : ParseInt s = Some z -> is_int64 z.
Proof.
  unfold ParseInt, is_int64. destruct (match s with [] => _ | _ => _ end) as [neg ds].
  destruct ds as [|d ds]; [done|]. destruct (parse_digits (d :: ds) 0) as [un|] eqn:E; [|done].
  apply parse_digits_nonneg in E; [|lia].
  destruct neg; cbn [negb andb]; [destruct (2 ^ 63 <? un) eqn:El|destruct (2 ^ 63 <=? un) eqn:El]; try done;
    intros [= <-]; lia.
Qed.

Lemma length_decimal_go fuel : forall z acc, (length (decimal_go fuel z acc) <= fuel + length acc)%nat.
Proof.
  induction fuel as [|n IH]; intros z acc; cbn [decimal_go]; [lia|].
  destruct (z <? 10); [simpl; lia|]. etrans; [apply IH|]. simpl. lia.
Qed.

Lemma length_FormatInt z : (length (FormatInt z) <= 21)%nat.
Proof.
  unfold FormatInt. destruct (z <? 0).
  - rewrite length_app. pose proof (length_decimal_go 20 (- z) []) as Hl.
    change (length (str "-")) with 1%nat. cbn [length] in Hl. lia.
  - pose proof (length_decimal_go 20 z []) as Hl. cbn [length] in Hl. lia.
Qed.
End decimal.

(** ** Comparison of strings: [strings.Compare(a, b) < 0] *)
Fixpoint bytes_ltb (a b : bytes) : bool :=
  match a, b with
  | _, [] => false
  | [], _ :: _ => true
  | x :: a', y :: b' =>
      (Z_of_byte x <? Z_of_byte y) || (bool_decide (x = y) && bytes_ltb a' b')
  end.
