(* ===== verification/RlpEncode.v ===== *)
(** * RLP encoding

    Models [src/rlp/encode.go]: the two-part encoding buffer (string data and
    list headers kept apart), the writers [makeWriter] selects for a Go type,
    and the assembly of the output. The reference encoding of RLP is defined
    beside it and the buffered encoder is proved to compute it. *)

From S2P Require Import Prelude Bytes.

(** The errors of package rlp; [decodeError] carries a message. [nontermination] is
    not an error of the code: it is the result of a loop that would not end. *)
Inductive decode_msg : Type :=
  | NonCanonicalInt | NonCanonicalSize | ExpectedInputList | ExpectedInputString
  | InputStringTooLong | InputStringTooShort | TooManyElements | TooFewElements.

Inductive rlp_error : Type :=
  | EOL | ErrExpectedString | ErrExpectedList | ErrCanonInt | ErrCanonSize
  | ErrElemTooLarge | ErrValueTooLarge | ErrMoreThanOneValue
  | errNotInList | errNotAtEOL | errUintOverflow
  | io_EOF | io_ErrUnexpectedEOF
  | errNegativeBigInt | errInvalidBool | errParseInt
  | decodeError (m : decode_msg)
  | nontermination.

#[export] Instance decode_msg_eq_dec : EqDecision decode_msg.
Proof. solve_decision. Defined.
#[export] Instance rlp_error_eq_dec : EqDecision rlp_error.
Proof. solve_decision. Defined.

(** ** Headers *)

(** [putint]: big-endian in the least number of bytes; the bytes written. *)
Definition putint (i : Z) : bytes :=
  let b k := byte_of_Z (Z.shiftr i k) in
  if i <? Z.shiftl 1 8 then [byte_of_Z i]
  else if i <? Z.shiftl 1 16 then [b 8; byte_of_Z i]
  else if i <? Z.shiftl 1 24 then [b 16; b 8; byte_of_Z i]
  else if i <? Z.shiftl 1 32 then [b 24; b 16; b 8; byte_of_Z i]
  else if i <? Z.shiftl 1 40 then [b 32; b 24; b 16; b 8; byte_of_Z i]
  else if i <? Z.shiftl 1 48 then [b 40; b 32; b 24; b 16; b 8; byte_of_Z i]
  else if i <? Z.shiftl 1 56 then [b 48; b 40; b 32; b 24; b 16; b 8; byte_of_Z i]
  else [b 56; b 48; b 40; b 32; b 24; b 16; b 8; byte_of_Z i].

Fixpoint intsize_loop (fuel : nat) (size i : Z) : Z :=
  match fuel with
  | O => size
  | S n => let i := Z.shiftr i 8 in if i =? 0 then size else intsize_loop n (size + 1) i
  end.

(** [intsize]; a [uint64] is shifted out after eight rounds. *)
Definition intsize (i : Z) : Z := intsize_loop 8 1 i.

Definition headsize (size : Z) : Z := if size <? 56 then 1 else 1 + intsize size.

(** [puthead]: the bytes written. *)
Definition puthead (smalltag largetag size : Z) : bytes :=
  if size <? 56 then [byte_of_Z (smalltag + size)]
  else let sizebytes := putint size in
       byte_of_Z (largetag + Z.of_nat (length sizebytes)) :: sizebytes.

(** ** The encoding buffer *)
Record listhead : Type := Listhead { lh_offset : nat; lh_size : Z }.

Record encbuf : Type := Encbuf {
  eb_str : bytes;            (* string data, everything except list headers *)
  eb_lheads : list listhead; (* all list headers *)
  eb_lhsize : Z              (* sum of sizes of all encoded list headers *)
}.

Definition encbuf_reset : encbuf := Encbuf [] [] 0.

Definition eb_append (b : bytes) (w : encbuf) : encbuf :=
  Encbuf (eb_str w ++ b) (eb_lheads w) (eb_lhsize w).

Definition eb_size (w : encbuf) : Z := Z.of_nat (length (eb_str w)) + eb_lhsize w.

Definition encodeStringHeader (size : Z) (w : encbuf) : encbuf :=
  if size <? 56 then eb_append [byte_of_Z (0x80 + size)] w
  else let sizebytes := putint size in
       eb_append (byte_of_Z (0xB7 + Z.of_nat (length sizebytes)) :: sizebytes) w.

Definition encodeString (b : bytes) (w : encbuf) : encbuf :=
  match b with
  | [c] => if Z_of_byte c <=? 0x7F then eb_append [c] w
           else eb_append b (encodeStringHeader 1 w)
  | _ => eb_append b (encodeStringHeader (Z.of_nat (length b)) w)
  end.

(** [list] returns the new header's place, standing for the pointer. *)
Definition eb_list (w : encbuf) : encbuf * nat :=
  (Encbuf (eb_str w) (eb_lheads w ++ [Listhead (length (eb_str w)) (eb_lhsize w)]) (eb_lhsize w),
   length (eb_lheads w)).

Definition listEnd (w : encbuf) (lh : nat) : encbuf :=
  match eb_lheads w !! lh with
  | None => w
  | Some h =>
      let size := eb_size w - Z.of_nat (lh_offset h) - lh_size h in
      Encbuf (eb_str w) (<[lh := Listhead (lh_offset h) size]> (eb_lheads w))
        (if size <? 56 then eb_lhsize w + 1 else eb_lhsize w + (1 + intsize size))
  end.

Definition listhead_encode (h : listhead) : bytes := puthead 0xC0 0xF7 (lh_size h).

(** [toWriter]: what it writes to an [io.Writer] that accepts everything, piece by
    piece, from position [strpos] of the string data. *)
Fixpoint toWriter_loop (str : bytes) (strpos : nat) (heads : list listhead) : bytes :=
  match heads with
  | [] => drop strpos str
  | h :: heads' =>
      let piece := drop strpos (take (lh_offset h) str) in
      piece ++ listhead_encode h ++ toWriter_loop str (strpos + length piece) heads'
  end.

Definition toWriter (w : encbuf) : bytes := toWriter_loop (eb_str w) 0 (eb_lheads w).

(** Go's [copy(out[pos:], src)]: the buffer after it and the number copied. *)
Definition copy_at (out : bytes) (pos : nat) (src : bytes) : bytes * nat :=
  let n := Nat.min (length src) (length out - pos) in
  (take pos out ++ take n src ++ drop (pos + n) out, n).

(** [toBytes] fills a buffer of [size] bytes in place; writing a header past its
    end is an index-out-of-range panic. *)
Fixpoint toBytes_loop (str out : bytes) (strpos pos : nat) (heads : list listhead) : res bytes :=
  match heads with
  | [] => Ok (copy_at out pos (drop strpos str)).1
  | h :: heads' =>
      let '(out, n) := copy_at out pos (drop strpos (take (lh_offset h) str)) in
      let pos := (pos + n)%nat in
      let strpos := (strpos + n)%nat in
      let enc := listhead_encode h in
      if (length out <? pos + length enc)%nat then Panic
      else toBytes_loop str (copy_at out pos enc).1 strpos (pos + length enc) heads'
  end.

Definition toBytes (w : encbuf) : res bytes :=
  toBytes_loop (eb_str w) (replicate (Z.to_nat (eb_size w)) (byte_of_Z 0)) 0 0 (eb_lheads w).

(** ** Writers

    A Go value as [makeWriter] sees it: its kind and content. [GNilBytes] is a
    nil pointer to a byte array, [GList] a slice, an array or a struct, and a nil
    pointer to a struct is an empty one. *)
#[warnings="-register-all"]
Inductive gval : Type :=
  | GRaw (b : bytes)
  | GUint (i : Z)
  | GBool (b : bool)
  | GBigInt (p : option Z)
  | GString (s : bytes)
  | GBytes (b : bytes)
  | GByteArray (b : bytes)
  | GNilBytes
  | GList (l : list gval).

Definition writeUint (i : Z) (w : encbuf) : encbuf :=
  if i =? 0 then eb_append [byte_of_Z 0x80] w
  else if i <? 128 then eb_append [byte_of_Z i] w
  else let s := putint i in
       eb_append (byte_of_Z (0x80 + Z.of_nat (length s)) :: s) w.

Definition writeBool (b : bool) (w : encbuf) : encbuf :=
  if b then eb_append [byte_of_Z 0x01] w else eb_append [byte_of_Z 0x80] w.

Definition writeBigInt (i : Z) (w : encbuf) : rlp_error + encbuf :=
  if i <? 0 then inl errNegativeBigInt
  else if i =? 0 then inr (eb_append [byte_of_Z 0x80] w)
  else inr (encodeString (BigBytes i) w).

Definition writeBigIntPtr (p : option Z) (w : encbuf) : rlp_error + encbuf :=
  match p with
  | None => inr (eb_append [byte_of_Z 0x80] w)
  | Some i => writeBigInt i w
  end.

Definition writeString (s : bytes) (w : encbuf) : encbuf :=
  match s with
  | [c] => if Z_of_byte c <=? 0x7F then eb_append [c] w
           else eb_append s (encodeStringHeader 1 w)
  | _ => eb_append s (encodeStringHeader (Z.of_nat (length s)) w)
  end.

Fixpoint write (v : gval) (w : encbuf) : rlp_error + encbuf :=
  match v with
  | GRaw b => inr (eb_append b w)
  | GUint i => inr (writeUint i w)
  | GBool b => inr (writeBool b w)
  | GBigInt p => writeBigIntPtr p w
  | GString s => inr (writeString s w)
  | GBytes b | GByteArray b => inr (encodeString b w)
  | GNilBytes => inr (eb_append [byte_of_Z 0x80] w)
  | GList l =>
      let '(w, lh) := eb_list w in
      let fix go (l : list gval) (w : encbuf) : rlp_error + encbuf :=
        match l with
        | [] => inr w
        | v :: l' => match write v w with inl e => inl e | inr w => go l' w end
        end in
      match go l w with inl e => inl e | inr w => inr (listEnd w lh) end
  end.

Definition EncodeToBytes (v : gval) : rlp_error + res bytes :=
  match write v encbuf_reset with inl e => inl e | inr w => inr (toBytes w) end.

(** [Encode] to a writer that is not itself an encoding buffer. *)
Definition Encode (v : gval) : rlp_error + bytes :=
  match write v encbuf_reset with inl e => inl e | inr w => inr (toWriter w) end.

(** ** Reference encoding *)
Definition ref_string (b : bytes) : bytes :=
  match b with
  | [c] => if Z_of_byte c <? 128 then [c] else puthead 0x80 0xB7 1 ++ b
  | _ => puthead 0x80 0xB7 (Z.of_nat (length b)) ++ b
  end.

Definition ref_list (payload : bytes) : bytes :=
  puthead 0xC0 0xF7 (Z.of_nat (length payload)) ++ payload.

(** Unsigned integers are the strings of their big-endian bytes, lists carry the
    concatenation of their elements. *)
Fixpoint ref_encode (v : gval) : bytes :=
  match v with
  | GRaw b => b
  | GUint i => ref_string (BigBytes i)
  | GBool b => ref_string (BigBytes (if b then 1 else 0))
  | GBigInt p => ref_string (BigBytes (default 0 p))
  | GString s | GBytes s | GByteArray s => ref_string s
  | GNilBytes => ref_string []
  | GList l => ref_list (concat (ref_encode <$> l))
  end.

(** Values whose integers are in their Go ranges: encodable ones. *)
Fixpoint encodable (v : gval) : bool :=
  match v with
  | GUint i => (0 <=? i) && (i <? 2 ^ 64)
  | GBigInt (Some i) => 0 <=? i
  | GList l => forallb encodable l
  | _ => true
  end.

(** ** Correctness of the headers *)
Section headers.
Fixpoint be_fix (n : nat) (i : Z) : bytes :=
  match n with O => [] | S m => be_fix m (Z.shiftr i 8) ++ [byte_of_Z i] end.

Lemma SetBytes_be_fix n i : 0 <= i < 256 ^ Z.of_nat n -> SetBytes (be_fix n i) = i.
Proof.
  revert i. induction n as [|n IH]; intros i Hi; simpl.
  - unfold SetBytes; simpl. simpl in Hi. lia.
  - rewrite Nat2Z.inj_succ, Z.pow_succ_r in Hi by lia.
    rewrite SetBytes_snoc, Z_of_byte_of_Z, Z.shiftr_div_pow2 by lia. change (2 ^ 8) with 256.
    rewrite IH; [pose proof (Z.div_mod i 256); lia|].
    split; [apply Z.div_pos; lia|apply Z.div_lt_upper_bound; lia].
Qed.

Lemma putint_be_fix i :
  exists n, putint i = be_fix n i /\ (0 < n <= 8)%nat /\
    (0 <= i < 2 ^ 64 -> i < 256 ^ Z.of_nat n /\ (256 <= i -> 256 ^ (Z.of_nat n - 1) <= i)).
Proof.
  unfold putint. rewrite !Z.shiftl_1_l.
  repeat (match goal with |- context [?a <? ?b] => destruct (Z.ltb_spec a b) end).
  - exists 1%nat. split_and!; [done|lia|lia|]. intros. lia.
  - exists 2%nat. split_and!; [simpl; by rewrite ?Z.shiftr_shiftr by lia|lia..].
  - exists 3%nat. split_and!; [simpl; by rewrite ?Z.shiftr_shiftr by lia|lia..].
  - exists 4%nat. split_and!; [simpl; by rewrite ?Z.shiftr_shiftr by lia|lia..].
  - exists 5%nat. split_and!; [simpl; by rewrite ?Z.shiftr_shiftr by lia|lia..].
  - exists 6%nat. split_and!; [simpl; by rewrite ?Z.shiftr_shiftr by lia|lia..].
  - exists 7%nat. split_and!; [simpl; by rewrite ?Z.shiftr_shiftr by lia|lia..].
  - exists 8%nat. split_and!; [simpl; by rewrite ?Z.shiftr_shiftr by lia|lia..].
Qed.

Lemma length_be_fix n i : length (be_fix n i) = n.
Proof.
  revert i. induction n as [|n IH]; intros i; simpl; [done|].
  rewrite length_app, IH. simpl. lia.
Qed.

Lemma SetBytes_putint i : 0 <= i < 2 ^ 64 -> SetBytes (putint i) = i.
Proof.
  intros Hi. destruct (putint_be_fix i) as (n & -> & Hn & Hb).
  apply SetBytes_be_fix. destruct Hb; [done|]. lia.
Qed.

(** [putint] writes exactly the bytes of the number. *)
Lemma putint_BigBytes i : 0 < i < 2 ^ 64 -> putint i = BigBytes i.
Proof.
  intros Hi. rewrite <- (SetBytes_putint i) at 2 by lia.
  rewrite BigBytes_SetBytes; [done|]. intros Hh.
  pose proof (SetBytes_putint i ltac:(lia)) as Hs.
  destruct (putint i) as [|b l] eqn:E; [done|]. simpl in Hh. injection Hh as ->.
  rewrite SetBytes_cons, Z_of_byte_of_Z in Hs. rewrite Z.mod_0_l in Hs by lia.
  pose proof (SetBytes_bound l) as Hl.
  destruct (putint_be_fix i) as (n & Hn & Hn8 & Hb).
  assert (length (putint i) = n) as Hlen by (rewrite Hn; apply length_be_fix).
  rewrite E in Hlen. simpl in Hlen. destruct Hb as [_ Hb]; [lia|].
  destruct (decide (256 <= i)).
  - specialize (Hb ltac:(lia)). replace (Z.of_nat n - 1) with (Z.of_nat (length l)) in Hb by lia. lia.
  - unfold putint in E. rewrite !Z.shiftl_1_l in E.
    rewrite (proj2 (Z.ltb_lt _ _)) in E by lia. simplify_eq/=. lia.
Qed.

Lemma shiftr_eqb_0 i k : 0 <= i -> 0 <= k -> (Z.shiftr i k =? 0) = (i <? Z.shiftl 1 k).
Proof.
  intros Hi Hk. rewrite Z.shiftl_1_l, Z.shiftr_div_pow2 by done.
  assert (0 < 2 ^ k) by (apply Z.pow_pos_nonneg; lia).
  destruct (Z.ltb_spec i (2 ^ k)).
  - rewrite Z.div_small by lia. done.
  - apply Z.eqb_neq. assert (1 <= i / 2 ^ k); [|lia]. apply Z.div_le_lower_bound; lia.
Qed.

(** [intsize] computes the size [putint] uses, so that the headers announced by
    [listEnd] are those [toBytes] writes. *)
Lemma intsize_putint i : 0 <= i < 2 ^ 64 -> intsize i = Z.of_nat (length (putint i)).
Proof.
  intros Hi. unfold intsize, intsize_loop.
  rewrite !Z.shiftr_shiftr by lia. rewrite !shiftr_eqb_0 by lia.
  unfold putint. rewrite !Z.shiftl_1_l. simpl Z.add.
  repeat (match goal with |- context [?a <? ?b] => destruct (Z.ltb_spec a b); try lia end);
    simpl; lia.
Qed.

Lemma length_puthead s l n :
  0 <= n < 2 ^ 64 -> Z.of_nat (length (puthead s l n)) = headsize n.
Proof.
  intros Hn. unfold puthead, headsize. destruct (n <? 56); [done|].
  rewrite intsize_putint by done. simpl. lia.
Qed.
End headers.

Lemma headsize_mono p q : 0 <= p <= q -> q < 2 ^ 64 -> headsize p <= headsize q.
Proof.
  intros Hp Hq. unfold headsize. destruct (Z.ltb_spec p 56), (Z.ltb_spec q 56); try lia.
  - rewrite intsize_putint by lia. lia.
  - rewrite !intsize_putint by lia. unfold putint. rewrite !Z.shiftl_1_l.
    repeat (match goal with |- context [?a <? ?b] => destruct (Z.ltb_spec a b); try lia end);
      simpl; lia.
Qed.

(** ** The buffered encoder computes the reference encoding *)
(** String data, header list and header bytes that writing a value adds. *)
Fixpoint strs (v : gval) : bytes :=
  match v with
  | GList l => concat (strs <$> l)
  | _ => ref_encode v
  end.

Fixpoint hsz (v : gval) : Z :=
  match v with
  | GList l => foldr Z.add 0 (hsz <$> l)
               + headsize (Z.of_nat (length (concat (ref_encode <$> l))))
  | _ => 0
  end.

Fixpoint heads (off : nat) (v : gval) : list listhead :=
  match v with
  | GList l =>
      Listhead off (Z.of_nat (length (concat (ref_encode <$> l)))) ::
      (fix go (off : nat) (l : list gval) : list listhead :=
         match l with
         | [] => []
         | v :: l' => heads off v ++ go (off + length (strs v))%nat l'
         end) off l
  | _ => []
  end.

Fixpoint heads_list (off : nat) (l : list gval) : list listhead :=
  match l with
  | [] => []
  | v :: l' => heads off v ++ heads_list (off + length (strs v)) l'
  end.

Fixpoint write_list (l : list gval) (w : encbuf) : rlp_error + encbuf :=
  match l with
  | [] => inr w
  | v :: l' => match write v w with inl e => inl e | inr w => write_list l' w end
  end.

Lemma gval_ind' (P : gval -> Prop) :
  (forall v, (forall l, v <> GList l) -> P v) ->
  (forall l, Forall P l -> P (GList l)) -> forall v, P v.
Proof.
  intros Hleaf Hlist. fix IH 1. intros [| | | | | | | |l]; [by apply Hleaf..|].
  apply Hlist. induction l as [|v l IHl]; constructor; [apply IH|apply IHl].
Qed.

Lemma write_GList l w :
  write (GList l) w =
  match write_list l (eb_list w).1 with
  | inl e => inl e | inr w' => inr (listEnd w' (eb_list w).2) end.
Proof.
  simpl. generalize (eb_list w). intros [w1 lh]. simpl.
  assert (forall w2, (fix go (l : list gval) (w : encbuf) : rlp_error + encbuf :=
     match l with
     | [] => inr w
     | v :: l' => match write v w with inl e => inl e | inr w => go l' w end
     end) l w2 = write_list l w2) as ->; [|done].
  induction l as [|v l IH]; intros w2; simpl; [done|]. destruct (write v w2); [done|apply IH].
Qed.

Lemma heads_GList off l :
  heads off (GList l) =
  Listhead off (Z.of_nat (length (concat (ref_encode <$> l)))) :: heads_list off l.
Proof.
  done.
Qed.

(** Leaf writers append the reference encoding to the string data. *)
Lemma encodeString_ref b w :
  Z.of_nat (length b) < 2 ^ 64 -> encodeString b w = eb_append (ref_string b) w.
Proof.
  intros Hb. unfold encodeString, encodeStringHeader, ref_string, puthead, eb_append.
  destruct b as [|c [|d b]].
  - simpl. by rewrite app_nil_r.
  - simpl length. destruct (Z.leb_spec (Z_of_byte c) 127), (Z.ltb_spec (Z_of_byte c) 128);
      try lia; [done|]. simpl. by rewrite <- app_assoc.
  - destruct (_ <? 56); simpl; by rewrite <- app_assoc.
Qed.

Lemma Z_of_byte_small i : 0 <= i < 256 -> Z_of_byte (byte_of_Z i) = i.
Proof. intros. rewrite Z_of_byte_of_Z, Z.mod_small; lia. Qed.

Lemma ref_string_uint i :
  0 <= i < 2 ^ 64 -> ref_string (BigBytes i) =
    if i =? 0 then [byte_of_Z 0x80] else if i <? 128 then [byte_of_Z i]
    else byte_of_Z (0x80 + Z.of_nat (length (putint i))) :: putint i.
Proof.
  intros Hi. destruct (Z.eqb_spec i 0) as [->|Hi0]; [done|].
  rewrite <- putint_BigBytes by lia. unfold ref_string.
  destruct (putint_be_fix i) as (n & Hn & Hn8 & Hb). destruct Hb as [Hb _]; [lia|].
  assert (Hl : length (putint i) = n) by (rewrite Hn; apply length_be_fix).
  destruct (decide (i < 256)).
  - unfold putint. rewrite Z.shiftl_1_l, (proj2 (Z.ltb_lt i (2 ^ 8))) by lia. simpl length.
    rewrite Z_of_byte_small by lia. destruct (i <? 128); done.
  - rewrite (proj2 (Z.ltb_ge i 128)) by lia.
    assert (n <> 1%nat) by (intros ->; simpl in Hb; lia).
    destruct (putint i) as [|c [|d r]] eqn:E; [simpl in Hl; lia|simpl in Hl; lia|].
    unfold puthead. rewrite Hl, (proj2 (Z.ltb_lt _ _)) by lia. done.
Qed.

Definition after (v : gval) (w : encbuf) : encbuf :=
  Encbuf (eb_str w ++ strs v) (eb_lheads w ++ heads (length (eb_str w)) v)
    (eb_lhsize w + hsz v).

Lemma after_leaf v w : (forall l, v <> GList l) -> after v w = eb_append (ref_encode v) w.
Proof.
  intros Hv. unfold after, eb_append.
  destruct v as [| | | | | | | |l]; [..|by edestruct Hv];
    simpl; rewrite ?app_nil_r, ?Z.add_0_r; done.
Qed.

Lemma length_ref_string b : (length b <= length (ref_string b))%nat.
Proof.
  unfold ref_string. destruct b as [|c [|d b]]; simpl; [lia| |rewrite length_app; simpl; lia].
  destruct (_ <? 128); simpl; lia.
Qed.

Lemma write_leaf v w :
  (forall l, v <> GList l) -> encodable v = true ->
  Z.of_nat (length (ref_encode v)) < 2 ^ 64 -> write v w = inr (after v w).
Proof.
  intros Hv He Hl. rewrite after_leaf by done.
  destruct v as [b|i|b|p|s|b|b| |l]; simpl in *; try done.
  - rewrite ref_string_uint by lia. unfold writeUint.
    destruct (i =? 0); [done|]. by destruct (i <? 128).
  - by destruct b.
  - destruct p as [i|]; [|done]. simpl in *. unfold writeBigInt.
    rewrite (proj2 (Z.ltb_ge i 0)) by lia. destruct (Z.eqb_spec i 0) as [->|]; [done|].
    rewrite encodeString_ref; [done|]. pose proof (length_ref_string (BigBytes i)). lia.
  - pose proof (length_ref_string s). rewrite <- encodeString_ref by lia. done.
  - pose proof (length_ref_string b). rewrite encodeString_ref by lia. done.
  - pose proof (length_ref_string b). rewrite encodeString_ref by lia. done.
  - by edestruct Hv.
Qed.

Abbreviation fits v := (Z.of_nat (length (ref_encode v)) < 2 ^ 64).

Lemma fits_list l : fits (GList l) ->
  Z.of_nat (length (concat (ref_encode <$> l))) < 2 ^ 64 /\ Forall (fun v => fits v) l.
Proof.
  simpl. unfold ref_list. rewrite length_app. intros Hl. split; [lia|].
  assert (Z.of_nat (length (concat (ref_encode <$> l))) < 2 ^ 64) as Hc by lia. clear Hl.
  induction l as [|v l IH]; constructor; csimpl in Hc; rewrite length_app in Hc; [lia|].
  apply IH. lia.
Qed.

Lemma size_split v :
  fits v -> Z.of_nat (length (strs v)) + hsz v = Z.of_nat (length (ref_encode v)).
Proof.
  induction v as [v Hv|l IH] using gval_ind'; intros Hf.
  - destruct v as [| | | | | | | |l]; [..|by edestruct Hv]; simpl; lia.
  - destruct (fits_list l Hf) as [Hc Hl]. simpl. unfold ref_list.
    rewrite length_app, Nat2Z.inj_add, length_puthead by lia.
    assert (Z.of_nat (length (concat (strs <$> l))) + foldr Z.add 0 (hsz <$> l)
            = Z.of_nat (length (concat (ref_encode <$> l)))); [|lia].
    clear Hf Hc. induction IH as [|v l Hv IH IHl]; csimpl; [done|].
    inversion Hl; subst. rewrite !length_app, !Nat2Z.inj_add, <- Hv by done.
    rewrite <- IHl by done. lia.
Qed.

Lemma size_split_list l : Forall (fun v => fits v) l ->
  Z.of_nat (length (concat (strs <$> l))) + foldr Z.add 0 (hsz <$> l)
  = Z.of_nat (length (concat (ref_encode <$> l))).
Proof.
  induction 1 as [|v l Hv Hl IH]; csimpl; [done|].
  rewrite !length_app, !Nat2Z.inj_add, <- IH, <- (size_split v) by done. lia.
Qed.

Lemma write_list_after l w :
  Forall (fun v => forall w, write v w = inr (after v w)) l ->
  write_list l w =
  inr (Encbuf (eb_str w ++ concat (strs <$> l)) (eb_lheads w ++ heads_list (length (eb_str w)) l)
         (eb_lhsize w + foldr Z.add 0 (hsz <$> l))).
Proof.
  intros Hl. revert w. induction Hl as [|v l Hv _ IH]; intros [s h z]; csimpl.
  - by rewrite !app_nil_r, Z.add_0_r.
  - rewrite Hv, IH. csimpl. rewrite <- !app_assoc, length_app, Z.add_assoc. done.
Qed.

Lemma listEnd_after l w :
  Forall (fun v => fits v) l -> fits (GList l) ->
  listEnd (Encbuf (eb_str w ++ concat (strs <$> l))
    ((eb_lheads w ++ [Listhead (length (eb_str w)) (eb_lhsize w)])
       ++ heads_list (length (eb_str w)) l)
    (eb_lhsize w + foldr Z.add 0 (hsz <$> l))) (length (eb_lheads w)) = after (GList l) w.
Proof.
  intros Hl Hf. destruct (fits_list l Hf) as [Hc _].
  pose proof (size_split_list l Hl) as Hs.
  unfold listEnd, eb_size. simpl eb_lheads. rewrite <- app_assoc.
  simpl app. rewrite list_lookup_middle by done. cbn [eb_str eb_lhsize lh_offset lh_size].
  rewrite insert_app_r_alt, Nat.sub_diag by done. simpl insert.
  rewrite length_app.
  match goal with |- context [Listhead _ ?n] =>
    replace n with (Z.of_nat (length (concat (ref_encode <$> l)))) by lia end.
  unfold after. rewrite heads_GList. simpl. unfold headsize. f_equal.
  destruct (_ <? 56); lia.
Qed.

Lemma write_after v w : encodable v = true -> fits v -> write v w = inr (after v w).
Proof.
  revert w. induction v as [v Hv|l IH] using gval_ind'; intros w He Hf.
  - by apply write_leaf.
  - destruct (fits_list l Hf) as [_ Hl]. rewrite write_GList. simpl eb_list.
    rewrite write_list_after.
    + simpl. f_equal. by apply listEnd_after.
    + simpl in He. rewrite forallb_forall in He. rewrite Forall_forall in *.
      intros v Hv w'. apply IH; [done| |by apply Hl]. by apply He, list_elem_of_In.
Qed.

(** ** Assembly *)
Definition starts_at (n : nat) (hs : list listhead) : Prop :=
  match hs with [] => True | h :: _ => (n <= lh_offset h)%nat end.

Lemma toWriter_skip a b c hs :
  starts_at (length (a ++ b)) hs ->
  toWriter_loop (a ++ b ++ c) (length a) hs
  = b ++ toWriter_loop (a ++ b ++ c) (length (a ++ b)) hs.
Proof.
  assert (Hd : forall x, drop (length a) (a ++ b ++ x) = b ++ x) by (intros; apply drop_app_length).
  assert (Hd' : forall x, drop (length (a ++ b)) (a ++ b ++ x) = x)
    by (intros; rewrite app_assoc; apply drop_app_length).
  destruct hs as [|h hs]; simpl; intros Hs; [by rewrite Hd, Hd'|].
  assert (take (lh_offset h) (a ++ b ++ c)
          = a ++ b ++ take (lh_offset h - length (a ++ b)) c) as ->
    by (rewrite (app_assoc a b c), take_app_ge, <- app_assoc by done; done).
  rewrite Hd, Hd', <- !app_assoc. do 4 f_equal. rewrite !length_app. lia.
Qed.

Lemma starts_at_heads off v hs :
  starts_at (off + length (strs v)) hs -> starts_at off (heads off v ++ hs).
Proof.
  intros Hs. destruct v; simpl; try done; destruct hs as [|h hs]; simpl in *; lia.
Qed.

Lemma starts_at_heads_list off l hs :
  starts_at (off + length (concat (strs <$> l))) hs -> starts_at off (heads_list off l ++ hs).
Proof.
  revert off. induction l as [|v l IH]; intros off; csimpl.
  - by rewrite Nat.add_0_r.
  - rewrite length_app, Nat.add_assoc. intros Hs. rewrite <- app_assoc.
    by apply starts_at_heads, IH.
Qed.

(** From the data of a value, [toWriter] emits its reference encoding. *)
Lemma toWriter_value v a c hs :
  starts_at (length (a ++ strs v)) hs ->
  toWriter_loop (a ++ strs v ++ c) (length a) (heads (length a) v ++ hs)
  = ref_encode v ++ toWriter_loop (a ++ strs v ++ c) (length (a ++ strs v)) hs.
Proof.
  revert a c hs. induction v as [v Hv|l IH] using gval_ind'; intros a c hs Hs.
  - destruct v as [| | | | | | | |l]; [..|by edestruct Hv]; by apply toWriter_skip.
  - rewrite heads_GList. cbn [strs ref_encode toWriter_loop app lh_offset] in *.
    rewrite (drop_ge (take _ _)) by (rewrite length_take; lia).
    unfold listhead_encode, ref_list; cbn [lh_size app length]. rewrite <- app_assoc. f_equal.
    rewrite Nat.add_0_r.
    revert a c Hs. induction IH as [|v l Hv _ IHl]; intros a c Hs; csimpl in *.
    + by rewrite app_nil_r.
    + rewrite <- !app_assoc. rewrite Hv.
      * f_equal. rewrite <- length_app. rewrite (app_assoc a (strs v)) at 1.
        rewrite IHl; [|by rewrite <- app_assoc]. by rewrite <- !app_assoc.
      * rewrite length_app. apply starts_at_heads_list.
        rewrite <- !length_app, <- app_assoc. done.
Qed.

Lemma toWriter_after v : toWriter (after v encbuf_reset) = ref_encode v.
Proof.
  unfold toWriter, after; simpl.
  pose proof (toWriter_value v [] [] []) as H. simpl in H. rewrite !app_nil_r in H.
  rewrite H by done. by rewrite drop_ge, app_nil_r.
Qed.

Lemma copy_at_app pre post src :
  (length src <= length post)%nat ->
  copy_at (pre ++ post) (length pre) src = ((pre ++ src) ++ drop (length src) post, length src).
Proof.
  intros Hl. unfold copy_at. rewrite length_app, take_app_length.
  replace (Nat.min _ _) with (length src) by lia.
  rewrite take_ge, <- drop_drop, drop_app_length, app_assoc by lia. done.
Qed.

(** [toBytes] fills its buffer with what [toWriter] writes, without panicking,
    when the buffer has exactly that size. *)
Lemma toBytes_toWriter str pre post strpos hs :
  length post = length (toWriter_loop str strpos hs) ->
  toBytes_loop str (pre ++ post) strpos (length pre) hs
  = Ok (pre ++ toWriter_loop str strpos hs).
Proof.
  revert pre post strpos. induction hs as [|h hs IH]; intros pre post strpos;
    cbn [toBytes_loop toWriter_loop]; intros Hl.
  - rewrite copy_at_app, (drop_ge post), app_nil_r by lia. done.
  - rewrite !length_app in Hl.
    set (piece := drop strpos (take (lh_offset h) str)) in *.
    rewrite copy_at_app by lia. cbv iota zeta. rewrite <- length_app.
    rewrite copy_at_app by (rewrite length_drop; lia). cbn [fst].
    rewrite (proj2 (Nat.ltb_ge _ _)) by (rewrite !length_app, length_drop; lia).
    rewrite drop_drop, <- (length_app (pre ++ piece)), IH by (rewrite length_drop; lia).
    by rewrite <- !app_assoc.
Qed.

Lemma toBytes_after v : fits v -> toBytes (after v encbuf_reset) = Ok (ref_encode v).
Proof.
  intros Hf. unfold toBytes. pose proof (toWriter_after v) as Hw. unfold toWriter in Hw.
  set (w := after v encbuf_reset) in *. rewrite <- Hw.
  apply (toBytes_toWriter (eb_str w) [] _ 0). rewrite Hw, length_replicate.
  unfold eb_size, w, after; simpl. rewrite size_split by done. lia.
Qed.

(** ** Properties *)

Lemma EncodeToBytes_ref v : encodable v = true -> fits v -> EncodeToBytes v = inr (Ok (ref_encode v)).
Proof. intros He Hf. unfold EncodeToBytes. rewrite write_after by done. by rewrite toBytes_after. Qed.

(** [EncodeToBytes] computes the RLP encoding. For every encodable value whose
    encoding is shorter than 2^64 bytes, the buffered encoder (string data and list
    headers kept apart, list sizes filled in afterwards, output copied into a buffer
    of the announced size) returns the reference encoding and never writes out of
    range. *)
Theorem EncodeToBytes_correct (v : gval) :
  encodable v = true -> Z.of_nat (length (ref_encode v)) < 2 ^ 64 ->
  EncodeToBytes v = inr (Ok (ref_encode v)) /\ Encode v = inr (ref_encode v).
Proof.
  intros He Hf. split; [by apply EncodeToBytes_ref|]. unfold Encode. rewrite write_after by done. by rewrite toWriter_after.
Qed.

Lemma EncodeToBytes_correct_witness :
  let v := GList [GUint 1024; GBigInt (Some 0); GList []; GString (str "dog")] in
  EncodeToBytes v = inr (Ok (ref_encode v)) /\ Encode v = inr (ref_encode v).
Proof. apply EncodeToBytes_correct; vm_compute; reflexivity. Defined.
