(* ===== verification/RlpDecode.v ===== *)
(** * RLP decoding

    Models [src/rlp/decode.go]: the [Stream] state machine (the kind of the value
    ahead, the stack of open lists, the input limit), the decoders [makeDecoder]
    selects for a Go type, and [DecodeBytes]; and the slice splitters of
    [src/rlp/raw.go]. Decoding is proved to invert the reference encoding, and to
    accept nothing but it. *)

From S2P Require Import Prelude Bytes RlpEncode.

Inductive Kind : Type := KByte | KString | KList.

#[export] Instance Kind_eq_dec : EqDecision Kind.
Proof. solve_decision. Defined.

Record listpos : Type := Listpos { lp_pos : Z; lp_size : Z }.

(** [Stream]; the reader is the bytes it still holds, a negative [kind] is [None],
    and the innermost list is the head of the stack. *)
Record Stream : Type := MkStream {
  s_r : bytes;
  s_remaining : Z;
  s_limited : bool;
  s_kind : option Kind;
  s_size : Z;
  s_byteval : byte;
  s_kinderr : option rlp_error;
  s_stack : list listpos
}.

(** A decoder keeps the stream also when it fails. *)
Definition D (A : Type) : Type := Stream -> (rlp_error + A) * Stream.

#[export] Instance D_ret : MRet D := fun A a s => (inr a, s).
#[export] Instance D_bind : MBind D := fun A B f d s =>
  match d s with
  | (inl e, s') => (inl e, s')
  | (inr a, s') => f a s'
  end.
Definition fail {A} (e : rlp_error) : D A := fun s => (inl e, s).
(** [if err != nil { return g(err) }] *)
Definition on_err {A} (g : rlp_error -> rlp_error) (d : D A) : D A := fun s =>
  match d s with
  | (inl e, s') => (inl (g e), s')
  | (inr a, s') => (inr a, s')
  end.

Definition set_r (r : bytes) (s : Stream) : Stream :=
  MkStream r (s_remaining s) (s_limited s) (s_kind s) (s_size s) (s_byteval s) (s_kinderr s) (s_stack s).
Definition set_kind (k : option Kind) (s : Stream) : Stream :=
  MkStream (s_r s) (s_remaining s) (s_limited s) k (s_size s) (s_byteval s) (s_kinderr s) (s_stack s).
Definition set_size (z : Z) (s : Stream) : Stream :=
  MkStream (s_r s) (s_remaining s) (s_limited s) (s_kind s) z (s_byteval s) (s_kinderr s) (s_stack s).
Definition set_byteval (b : byte) (s : Stream) : Stream :=
  MkStream (s_r s) (s_remaining s) (s_limited s) (s_kind s) (s_size s) b (s_kinderr s) (s_stack s).
Definition set_kinderr (e : option rlp_error) (s : Stream) : Stream :=
  MkStream (s_r s) (s_remaining s) (s_limited s) (s_kind s) (s_size s) (s_byteval s) e (s_stack s).
Definition set_stack (k : list listpos) (s : Stream) : Stream :=
  MkStream (s_r s) (s_remaining s) (s_limited s) (s_kind s) (s_size s) (s_byteval s) (s_kinderr s) k.
Definition set_remaining (z : Z) (s : Stream) : Stream :=
  MkStream (s_r s) z (s_limited s) (s_kind s) (s_size s) (s_byteval s) (s_kinderr s) (s_stack s).

(** [Reset]; [slice_reader] says whether the reader is a [bytes.Reader] or a
    [strings.Reader]. *)
Definition Reset (r : bytes) (slice_reader : bool) (inputLimit : Z) : Stream :=
  let '(remaining, limited) :=
    if 0 <? inputLimit then (inputLimit, true)
    else if slice_reader then (Z.of_nat (length r), true) else (0, false) in
  MkStream r remaining limited None 0 (byte_of_Z 0) None [].

(** ** Reading *)
Definition willRead (n : Z) : D unit := fun s =>
  let s := set_kind None s in
  let limit (s : Stream) : (rlp_error + unit) * Stream :=
    if s_limited s then
      if s_remaining s <? n then (inl ErrValueTooLarge, s)
      else (inr tt, set_remaining (s_remaining s - n) s)
    else (inr tt, s) in
  match s_stack s with
  | [] => limit s
  | tos :: stk =>
      if uint64 (lp_size tos - lp_pos tos) <? n then (inl ErrElemTooLarge, s)
      else limit (set_stack (Listpos (uint64 (lp_pos tos + n)) (lp_size tos) :: stk) s)
  end.

(** The reader's [Read] until [n] bytes are there, and its [ReadByte], with the
    end-of-file error adjusted; a reader that runs dry is emptied. *)
Definition r_Read (n : nat) : D bytes := fun s =>
  if (length (s_r s) <? n)%nat then (inl io_ErrUnexpectedEOF, set_r [] s)
  else (inr (take n (s_r s)), set_r (drop n (s_r s)) s).

Definition r_ReadByte : D byte := fun s =>
  match s_r s with
  | [] => (inl io_ErrUnexpectedEOF, s)
  | b :: r => (inr b, set_r r s)
  end.

(** [readFull] into a buffer of [n] bytes. *)
Definition readFull (n : nat) : D bytes := willRead (Z.of_nat n);; r_Read n.

Definition readByte : D byte := willRead 1;; r_ReadByte.

(** [readUint] of [size] at most 8 bytes. *)
Definition rearm : D unit := fun s => (inr tt, set_kind None s).

Definition readUint (size : Z) : D Z :=
  if size =? 0 then rearm;; mret 0
  else if size =? 1 then b ← readByte; mret (Z_of_byte b)
  else
    buf ← readFull (Z.to_nat size);
    match buf with
    | b :: _ => if Z_of_byte b =? 0 then fail ErrCanonSize else mret (SetBytes buf)
    | [] => mret 0
    end.

(** [Stream.readKind]: the kind and size it returns also come with an error. *)
Definition readKind_long (k : Kind) (n : Z) (s : Stream) : (Kind * Z * option rlp_error) * Stream :=
  match readUint n s with
  | (inl e, s) => ((k, 0, Some e), s)
  | (inr size, s) => ((k, size, if size <? 56 then Some ErrCanonSize else None), s)
  end.

Definition readKind (s : Stream) : (Kind * Z * option rlp_error) * Stream :=
  match readByte s with
  | (inl e, s) =>
      let e := match s_stack s, e with
               | [], io_ErrUnexpectedEOF => io_EOF
               | [], ErrValueTooLarge => io_EOF
               | _, _ => e
               end in
      ((KByte, 0, Some e), s)
  | (inr b, s) =>
      let s := set_byteval (byte_of_Z 0) s in
      let z := Z_of_byte b in
      if z <? 0x80 then ((KByte, 0, None), set_byteval b s)
      else if z <? 0xB8 then ((KString, z - 0x80, None), s)
      else if z <? 0xC0 then readKind_long KString (z - 0xB7) s
      else if z <? 0xF8 then ((KList, z - 0xC0, None), s)
      else readKind_long KList (z - 0xF7) s
  end.

(** [Stream.Kind], with the error a previous call left behind. *)
Definition StreamKind : D (Kind * Z) := fun s =>
  match s_kind s with
  | Some k =>
      match s_kinderr s with
      | Some e => (inl e, s)
      | None => (inr (k, s_size s), s)
      end
  | None =>
      let s := set_kinderr None s in
      let tos := head (s_stack s) in
      if (match tos with Some t => lp_pos t =? lp_size t | None => false end) then (inl EOL, s)
      else
        let '((k, size, err), s) := readKind s in
        let err :=
          match err with
          | Some e => Some e
          | None =>
              match tos with
              | None => if s_limited s && (s_remaining s <? size) then Some ErrValueTooLarge else None
              | Some _ =>
                  match s_stack s with
                  | t :: _ => if uint64 (lp_size t - lp_pos t) <? size then Some ErrElemTooLarge else None
                  | [] => None
                  end
              end
          end in
        let s := set_kinderr err (set_size size (set_kind (Some k) s)) in
        match err with
        | Some e => (inl e, s)
        | None => (inr (k, size), s)
        end
  end.

Definition byteval : D byte := fun s => (inr (s_byteval s), s).

Definition StreamBytes : D bytes :=
  '(kind, size) ← StreamKind;
  match kind with
  | KByte => rearm;; b ← byteval; mret [b]
  | KString =>
      b ← readFull (Z.to_nat size);
      if (size =? 1) && (match b with c :: _ => Z_of_byte c <? 128 | [] => false end)
      then fail ErrCanonSize else mret b
  | KList => fail ErrExpectedString
  end.

Definition StreamRaw : D bytes :=
  '(kind, size) ← StreamKind;
  match kind with
  | KByte => rearm;; b ← byteval; mret [b]
  | KString => c ← readFull (Z.to_nat size); mret (puthead 0x80 0xB7 size ++ c)
  | KList => c ← readFull (Z.to_nat size); mret (puthead 0xC0 0xF7 size ++ c)
  end.

Definition StreamUint (maxbits : Z) : D Z :=
  '(kind, size) ← StreamKind;
  match kind with
  | KByte =>
      b ← byteval;
      if Z_of_byte b =? 0 then fail ErrCanonInt
      else rearm;; mret (Z_of_byte b)
  | KString =>
      if Z.quot maxbits 8 <? size then fail errUintOverflow
      else
        v ← on_err (fun e => match e with ErrCanonSize => ErrCanonInt | _ => e end) (readUint size);
        if (0 <? size) && (v <? 128) then fail ErrCanonSize else mret v
  | KList => fail ErrExpectedString
  end.

Definition StreamBool : D bool :=
  num ← StreamUint 8;
  if num =? 0 then mret false else if num =? 1 then mret true else fail errInvalidBool.

Definition openList (size : Z) : D Z := fun s =>
  (inr size, set_size 0 (set_kind None (set_stack (Listpos 0 size :: s_stack s) s))).

Definition StreamList : D Z :=
  '(kind, size) ← StreamKind;
  match kind with
  | KList => openList size
  | _ => fail ErrExpectedList
  end.

Definition ListEnd : D unit := fun s =>
  match s_stack s with
  | [] => (inl errNotInList, s)
  | tos :: stk =>
      if negb (lp_pos tos =? lp_size tos) then (inl errNotAtEOL, s)
      else
        let stk := match stk with
                   | [] => []
                   | t :: r => Listpos (uint64 (lp_pos t + lp_size tos)) (lp_size t) :: r
                   end in
        (inr tt, set_size 0 (set_kind None (set_stack stk s)))
  end.

Definition wrapStreamError (e : rlp_error) : rlp_error :=
  match e with
  | ErrCanonInt => decodeError NonCanonicalInt
  | ErrCanonSize => decodeError NonCanonicalSize
  | ErrExpectedList => decodeError ExpectedInputList
  | ErrExpectedString => decodeError ExpectedInputString
  | errUintOverflow => decodeError InputStringTooLong
  | errNotAtEOL => decodeError TooManyElements
  | _ => e
  end.

(** ** Decoders by type

    The Go types [makeDecoder] distinguishes; [TOptPtr] is a pointer field with tag
    rlp:nil (but not one to a [big.Int], which [makeDecoder] decodes as such), and
    [TAlt] a type whose [DecodeRLP] takes the raw value and tries two types. *)
#[warnings="-register-all"]
Inductive ty : Type :=
  | TRaw
  | TUint (bits : Z)
  | TBool
  | TBigInt
  | TString
  | TBytes
  | TByteArray (n : nat)
  | TSlice (t : ty)
  | TStruct (fields : list ty)
  | TPtr (t : ty)
  | TOptPtr (t : ty)
  | TAlt (t1 t2 : ty).

Definition decodeBigInt : D gval :=
  b ← on_err wrapStreamError StreamBytes;
  if match b with c :: _ => Z_of_byte c =? 0 | [] => false end
  then fail (wrapStreamError ErrCanonInt)
  else mret (GBigInt (Some (SetBytes b))).

(** [bv, _ := s.Uint()]: the error is dropped, and with it the value. *)
Definition Uint_noerr : D Z := fun s =>
  match StreamUint 64 s with
  | (inl _, s) => (inr 0, s)
  | (inr bv, s) => (inr bv, s)
  end.

Definition decodeByteArray (vlen : nat) : D gval :=
  '(kind, size) ← StreamKind;
  match kind with
  | KByte =>
      if (vlen =? 0)%nat then fail (decodeError InputStringTooLong)
      else if (1 <? vlen)%nat then fail (decodeError InputStringTooShort)
      else bv ← Uint_noerr; mret (GByteArray [byte_of_Z bv])
  | KString =>
      if Z.of_nat vlen <? size then fail (decodeError InputStringTooLong)
      else if size <? Z.of_nat vlen then fail (decodeError InputStringTooShort)
      else
        slice ← readFull vlen;
        if (size =? 1) && (match slice with c :: _ => Z_of_byte c <? 128 | [] => false end)
        then fail (wrapStreamError ErrCanonSize) else mret (GByteArray slice)
  | KList => fail (wrapStreamError ErrExpectedString)
  end.

(** [decodeSliceElems]: elements up to the end of the list. An element takes at
    least one byte of the reader, so its length bounds the iterations (unless the
    element decoder reads nothing, when the Go loop does not end). *)
Fixpoint decodeSliceElems (fuel : nat) (elemdec : D gval) (acc : list gval) : D (list gval) :=
  match fuel with
  | O => fail nontermination
  | S n => fun s =>
      match elemdec s with
      | (inl EOL, s) => (inr (rev acc), s)
      | (inl e, s) => (inl e, s)
      | (inr v, s) => decodeSliceElems n elemdec (v :: acc) s
      end
  end.

Definition sliceElems (elemdec : D gval) : D (list gval) := fun s =>
  decodeSliceElems (S (length (s_r s))) elemdec [] s.

Definition decodeListSlice (elemdec : D gval) : D gval :=
  size ← on_err wrapStreamError StreamList;
  if size =? 0 then ListEnd;; mret (GList [])
  else
    l ← sliceElems elemdec;
    ListEnd;; mret (GList l).

Definition nil_of (t : ty) : gval := match t with TByteArray _ => GNilBytes | _ => GList [] end.

(** [DecodeBytes] with a given decoder. *)
Definition DecodeBytesWith (d : D gval) (b : bytes) : rlp_error + gval :=
  let s := Reset b true (Z.of_nat (length b)) in
  match d s with
  | (inl e, _) => inl e
  | (inr v, s) => if (0 <? length (s_r s))%nat then inl ErrMoreThanOneValue else inr v
  end.

Definition of_sum {A} (x : rlp_error + A) : D A := fun s => (x, s).

Fixpoint decode (t : ty) : D gval :=
  match t with
  | TRaw => b ← StreamRaw; mret (GRaw b)
  | TUint bits => i ← on_err wrapStreamError (StreamUint bits); mret (GUint i)
  | TBool => b ← on_err wrapStreamError StreamBool; mret (GBool b)
  | TBigInt => decodeBigInt
  | TString => b ← on_err wrapStreamError StreamBytes; mret (GString b)
  | TBytes => b ← on_err wrapStreamError StreamBytes; mret (GBytes b)
  | TByteArray n => decodeByteArray n
  | TSlice t => decodeListSlice (decode t)
  | TStruct ts =>
      let fix fields (ts : list ty) : D (list gval) :=
        match ts with
        | [] => mret []
        | t :: ts' =>
            v ← on_err (fun e => match e with EOL => decodeError TooFewElements | _ => e end) (decode t);
            l ← fields ts';
            mret (v :: l)
        end in
      _ ← on_err wrapStreamError StreamList;
      l ← fields ts;
      on_err wrapStreamError ListEnd;; mret (GList l)
  | TPtr t => decode t
  | TOptPtr t => fun s =>
      match StreamKind s with
      | (inl e, s) => (inl e, set_kind None s)
      | (inr (kind, size), s) =>
          if (size =? 0) && negb (bool_decide (kind = KByte))
          then (inr (nil_of t), set_kind None s) else decode t s
      end
  | TAlt t1 t2 =>
      raw ← StreamRaw;
      of_sum (match DecodeBytesWith (decode t1) raw with
              | inr v => inr v
              | inl _ => DecodeBytesWith (decode t2) raw
              end)
  end.

Definition DecodeBytes (t : ty) (b : bytes) : rlp_error + gval := DecodeBytesWith (decode t) b.

(** ** Values of a type *)
Definition is_zero_byte (b : bytes) : bool := bool_decide (b = [byte_of_Z 0]).

(** The values that decode back to themselves: integers within their width, no
    single zero byte as an array (see [decodeByteArray]), no nil big integer. *)
Fixpoint has_ty (t : ty) (v : gval) : bool :=
  match t, v with
  | TUint bits, GUint i =>
      (8 <=? bits) && (bits <=? 64) && (bits mod 8 =? 0) && (0 <=? i) && (i <? 2 ^ bits)
  | TBool, GBool _ => true
  | TBigInt, GBigInt (Some i) => 0 <=? i
  | TString, GString _ => true
  | TBytes, GBytes _ => true
  | TByteArray n, GByteArray b => (length b =? n)%nat && negb (is_zero_byte b)
  | TSlice t, GList l => forallb (has_ty t) l
  | TStruct ts, GList l =>
      (fix fields (ts : list ty) (l : list gval) : bool :=
         match ts, l with
         | [], [] => true
         | t :: ts', v :: l' => has_ty t v && fields ts' l'
         | _, _ => false
         end) ts l
  | TPtr t, _ => has_ty t v
  | TOptPtr (TByteArray n), GNilBytes => true
  | TOptPtr (TByteArray n), GByteArray b =>
      negb (n =? 0)%nat && (length b =? n)%nat && negb (is_zero_byte b)
  | TAlt t1 _, _ => has_ty t1 v
  | _, _ => false
  end.

(** ** Positions of a stream *)
Section positions.
(** The stack after [n] bytes of the innermost list. *)
Definition bump (n : Z) (stk : list listpos) : list listpos :=
  match stk with
  | [] => []
  | t :: r => Listpos (lp_pos t + n) (lp_size t) :: r
  end.

(** [n] bytes can be read without leaving the limit or the innermost list. *)
Definition room (n : Z) (s : Stream) : Prop :=
  (s_limited s = true -> n <= s_remaining s) /\
  match s_stack s with
  | [] => True
  | t :: _ => 0 <= lp_pos t /\ lp_pos t + n <= lp_size t < 2 ^ 64
  end.

(** [s'] is [s] after [n] bytes. *)
Definition adv (n : nat) (s s' : Stream) : Prop :=
  s_r s' = drop n (s_r s) /\
  s_limited s' = s_limited s /\
  s_remaining s' = (if s_limited s then s_remaining s - Z.of_nat n else s_remaining s) /\
  s_stack s' = bump (Z.of_nat n) (s_stack s).

Lemma bump_0 stk : bump 0 stk = stk.
Proof. destruct stk as [|[p z] r]; simpl; [done|]. by rewrite Z.add_0_r. Qed.

Lemma bump_bump n m stk : bump m (bump n stk) = bump (n + m) stk.
Proof. destruct stk as [|[p z] r]; simpl; [done|]. by rewrite Z.add_assoc. Qed.

Lemma adv_0 s s' :
  s_r s' = s_r s -> s_limited s' = s_limited s -> s_remaining s' = s_remaining s ->
  s_stack s' = s_stack s -> adv 0 s s'.
Proof.
  intros H1 H2 H3 H4. unfold adv. rewrite H1, H2, H3, H4, drop_0, bump_0, Z.sub_0_r.
  by destruct (s_limited s).
Qed.

Lemma adv_trans n m s1 s2 s3 : adv n s1 s2 -> adv m s2 s3 -> adv (n + m) s1 s3.
Proof.
  intros (Hr & Hl & Hrem & Hs) (Hr' & Hl' & Hrem' & Hs'). unfold adv.
  rewrite Hr', Hl', Hrem', Hs', Hr, Hl, Hrem, Hs, drop_drop, bump_bump, Nat2Z.inj_add.
  split_and!; try done. destruct (s_limited s1); lia.
Qed.

Lemma adv_room n m s s' : room (Z.of_nat n + m) s -> adv n s s' -> room m s'.
Proof.
  intros [H1 H2] (Hr & Hl & Hrem & Hs). unfold room. rewrite Hl, Hrem, Hs. split.
  - intros E. rewrite E in *. specialize (H1 eq_refl). lia.
  - destruct (s_stack s) as [|t stk]; simpl; [done|]. lia.
Qed.

Lemma room_le n m s : 0 <= n <= m -> room m s -> room n s.
Proof.
  intros Hn [H1 H2]. split; [intros E; specialize (H1 E); lia|].
  destruct (s_stack s); [done|]. lia.
Qed.

Lemma uint64_id z : 0 <= z < 2 ^ 64 -> uint64 z = z.
Proof. intros. by apply uint64_small. Qed.

Lemma willRead_ok n s :
  0 <= n -> room n s ->
  exists s', willRead n s = (inr tt, s') /\ s_r s' = s_r s /\ s_limited s' = s_limited s /\
    s_remaining s' = (if s_limited s then s_remaining s - n else s_remaining s) /\
    s_stack s' = bump n (s_stack s) /\ s_kind s' = None.
Proof.
  intros Hn [H1 H2]. unfold willRead. destruct s as [r rem lim k sz bv ke stk]; simpl in *.
  destruct stk as [|t stk]; simpl in *.
  - destruct lim; simpl; [|eauto 10].
    rewrite (proj2 (Z.ltb_ge _ _)) by auto. eauto 10.
  - rewrite uint64_id by lia. rewrite (proj2 (Z.ltb_ge _ _)) by lia.
    rewrite uint64_id by lia. destruct lim; simpl; [|eauto 10].
    rewrite (proj2 (Z.ltb_ge _ _)) by auto. eauto 10.
Qed.

Lemma readFull_ok n s b rest :
  s_r s = b ++ rest -> length b = n -> room (Z.of_nat n) s ->
  exists s', readFull n s = (inr b, s') /\ adv n s s' /\ s_kind s' = None.
Proof.
  intros Hr Hb Hroom. destruct (willRead_ok (Z.of_nat n) s) as (s1 & E & Hr1 & Hl & Hrem & Hs & Hk);
    [lia|done|].
  unfold readFull, mbind, D_bind. rewrite E. unfold r_Read. rewrite Hr1, Hr, length_app.
  rewrite (proj2 (Nat.ltb_ge _ _)) by lia. subst n. rewrite take_app_length, drop_app_length.
  eexists. split; [done|]. unfold adv. simpl. rewrite Hr, drop_app_length. done.
Qed.

Lemma readByte_ok s c rest :
  s_r s = c :: rest -> room 1 s ->
  exists s', readByte s = (inr c, s') /\ adv 1 s s' /\ s_kind s' = None.
Proof.
  intros Hr Hroom. destruct (willRead_ok 1 s) as (s1 & E & Hr1 & Hl & Hrem & Hs & Hk); [lia|done|].
  unfold readByte, mbind, D_bind. rewrite E. unfold r_ReadByte. rewrite Hr1, Hr.
  eexists. split; [done|]. unfold adv. simpl. by rewrite Hr.
Qed.
End positions.

(** ** Headers *)
Lemma SetBytes_one c : SetBytes [c] = Z_of_byte c.
Proof. unfold SetBytes; simpl. lia. Qed.

Lemma readUint_ok (n : nat) s b rest :
  s_r s = b ++ rest -> length b = n -> (0 < n)%nat -> head b <> Some (byte_of_Z 0) ->
  room (Z.of_nat n) s ->
  exists s', readUint (Z.of_nat n) s = (inr (SetBytes b), s') /\ adv n s s' /\ s_kind s' = None.
Proof.
  intros Hr Hb Hn Hh Hroom. unfold readUint.
  rewrite (proj2 (Z.eqb_neq _ _)) by lia.
  destruct (Z.eqb_spec (Z.of_nat n) 1) as [H1|H1].
  - assert (n = 1%nat) as -> by lia. destruct b as [|c [|]]; [done| |done].
    destruct (readByte_ok s c rest) as (s' & E & Ha & Hk); [done|done|].
    unfold mbind, D_bind. rewrite E, SetBytes_one. eauto.
  - destruct (readFull_ok n s b rest) as (s' & E & Ha & Hk); [done..|].
    unfold mbind, D_bind. rewrite Nat2Z.id, E. destruct b as [|c b]; [simpl in *; lia|].
    simpl in Hh. rewrite (proj2 (Z.eqb_neq _ _)); [eauto|].
    intros Hc. apply Hh. f_equal. apply (inj Z_of_byte). by rewrite Hc, Z_of_byte_of_Z.
Qed.

Lemma putint_head i : 0 < i < 2 ^ 64 -> head (putint i) <> Some (byte_of_Z 0).
Proof.
  intros Hi. rewrite putint_BigBytes by done. destruct (BigBytes i) as [|c l] eqn:E; [done|].
  simpl. apply BigBytes_head in E. congruence.
Qed.

Lemma length_putint i : (0 < length (putint i) <= 8)%nat.
Proof. destruct (putint_be_fix i) as (n & -> & Hn & _). by rewrite length_be_fix. Qed.

(** The two header families: tags of a string and of a list. *)
Definition tags (k : Kind) : Z * Z :=
  match k with KList => (0xC0, 0xF7) | _ => (0x80, 0xB7) end.

Lemma readKind_head k s sz rest :
  k <> KByte -> 0 <= sz < 2 ^ 64 ->
  s_r s = puthead (tags k).1 (tags k).2 sz ++ rest ->
  room (Z.of_nat (length (puthead (tags k).1 (tags k).2 sz))) s ->
  exists s', readKind s = ((k, sz, None), s') /\
    adv (length (puthead (tags k).1 (tags k).2 sz)) s s'.
Proof.
  intros Hk Hsz Hr Hroom. unfold puthead in *. destruct (Z.ltb_spec sz 56).
  - destruct (readByte_ok s (byte_of_Z ((tags k).1 + sz)) rest) as (s' & E & Ha & _); [done|done|].
    unfold readKind. rewrite E.
    rewrite Z_of_byte_small by (destruct k; simpl; lia).
    exists (set_byteval (byte_of_Z 0) s'). split; [|done].
    destruct k; [done|..]; simpl;
      repeat (match goal with |- context [?a <? ?b] => destruct (Z.ltb_spec a b); try lia end);
      do 3 f_equal; lia.
  - simpl in *. pose proof (length_putint sz) as Hlp.
    assert (Hlp' : 0 < Z.of_nat (length (putint sz)) <= 8) by lia.
    destruct (readByte_ok s (byte_of_Z ((tags k).2 + Z.of_nat (length (putint sz)))) (putint sz ++ rest))
      as (s1 & E & Ha & _); [done|eapply room_le; [|done]; lia|].
    destruct (readUint_ok (length (putint sz)) (set_byteval (byte_of_Z 0) s1) (putint sz) rest)
      as (s2 & E2 & Ha2 & _).
    + simpl. destruct Ha as (-> & _). by rewrite Hr.
    + done.
    + lia.
    + apply putint_head. lia.
    + change (room (Z.of_nat (length (putint sz))) s1). eapply adv_room; [|done].
      eapply room_le; [|done]; lia.
    + rewrite SetBytes_putint in E2 by lia.
      exists s2. split; [|by apply (adv_trans 1 _ _ s1)].
      unfold readKind. rewrite E. rewrite Z_of_byte_small by (destruct k; simpl; lia).
      destruct k; [done|..]; simpl;
      repeat (match goal with |- context [?a <? ?b] => destruct (Z.ltb_spec a b); try lia end);
      unfold readKind_long.
      * replace (183 + Z.of_nat (length (putint sz)) - 183) with (Z.of_nat (length (putint sz))) by lia.
        rewrite E2. rewrite (proj2 (Z.ltb_ge _ _)) by lia. done.
      * replace (247 + Z.of_nat (length (putint sz)) - 247) with (Z.of_nat (length (putint sz))) by lia.
        rewrite E2. rewrite (proj2 (Z.ltb_ge _ _)) by lia. done.
Qed.

Lemma readKind_byte s c rest :
  s_r s = c :: rest -> Z_of_byte c < 128 -> room 1 s ->
  exists s', readKind s = ((KByte, 0, None), s') /\ adv 1 s s' /\ s_byteval s' = c.
Proof.
  intros Hr Hc Hroom. destruct (readByte_ok s c rest) as (s' & E & Ha & _); [done|done|].
  unfold readKind. rewrite E, (proj2 (Z.ltb_lt _ _)) by done.
  eexists. split; [done|]. done.
Qed.

(** [Kind] announces what [readKind] read, when the value fits. *)
Lemma StreamKind_ok k sz (n : nat) s c :
  s_kind s = None -> (0 < n)%nat -> 0 <= sz -> room (Z.of_nat n + sz) s ->
  (forall s0, s_r s0 = s_r s -> s_limited s0 = s_limited s -> s_remaining s0 = s_remaining s ->
     s_stack s0 = s_stack s -> exists s', readKind s0 = ((k, sz, None), s') /\ adv n s s' /\
     (k = KByte -> s_byteval s' = c)) ->
  exists s', StreamKind s = (inr (k, sz), s') /\ adv n s s' /\ s_kind s' = Some k /\
    s_kinderr s' = None /\ s_size s' = sz /\ (k = KByte -> s_byteval s' = c).
Proof.
  intros Hk Hn Hsz Hroom Hread.
  destruct (Hread (set_kinderr None s)) as (s' & E & Ha & Hb); [done..|].
  assert (Hroom' : room sz s') by (eapply adv_room; done).
  unfold StreamKind. rewrite Hk. simpl.
  assert (Hend : match head (s_stack s) with
                 | Some t => lp_pos t =? lp_size t | None => false end = false).
  { destruct Hroom as [_ Hst]. destruct (s_stack s) as [|t stk]; simpl; [done|].
    apply Z.eqb_neq. lia. }
  rewrite Hend, E. destruct Ha as (Hr & Hl & Hrem & Hs). destruct Hroom' as [Hlim Hst].
  assert (Herr : (match head (s_stack s) with
     | None => if s_limited s' && (s_remaining s' <? sz) then Some ErrValueTooLarge else None
     | Some _ => match s_stack s' with
         | t :: _ => if uint64 (lp_size t - lp_pos t) <? sz then Some ErrElemTooLarge else None
         | [] => None end end) = None).
  { destruct (s_stack s) as [|t stk]; simpl in *.
    - destruct (s_limited s'); simpl; [|done]. by rewrite (proj2 (Z.ltb_ge _ _)) by auto.
    - rewrite Hs in *. simpl in *. rewrite uint64_id by lia.
      by rewrite (proj2 (Z.ltb_ge _ _)) by lia. }
  rewrite Herr. eexists. split; [done|]. by unfold adv.
Qed.

Lemma adv_frame n s s0 s' :
  s_r s0 = s_r s -> s_limited s0 = s_limited s -> s_remaining s0 = s_remaining s ->
  s_stack s0 = s_stack s -> adv n s0 s' -> adv n s s'.
Proof. intros H1 H2 H3 H4. unfold adv. by rewrite H1, H2, H3, H4. Qed.

Lemma room_frame n s s0 :
  s_limited s0 = s_limited s -> s_remaining s0 = s_remaining s ->
  s_stack s0 = s_stack s -> room n s -> room n s0.
Proof. intros H2 H3 H4. unfold room. by rewrite H2, H3, H4. Qed.

Abbreviation hdr k sz := (puthead (tags k).1 (tags k).2 sz).

Lemma length_hd_pos k sz : (0 < length (hdr k sz))%nat.
Proof. unfold puthead. destruct (sz <? 56); simpl; lia. Qed.

Lemma StreamKind_head k s sz rest :
  k <> KByte -> 0 <= sz < 2 ^ 64 -> s_kind s = None -> s_r s = hdr k sz ++ rest ->
  room (Z.of_nat (length (hdr k sz)) + sz) s ->
  exists s', StreamKind s = (inr (k, sz), s') /\ adv (length (hdr k sz)) s s'.
Proof.
  intros Hk Hsz Hn Hr Hroom. pose proof (length_hd_pos k sz).
  destruct (StreamKind_ok k sz (length (hdr k sz)) s (byte_of_Z 0)) as (s' & E & Ha & _);
    [done|done|lia|done| |by eauto].
  intros s0 H1 H2 H3 H4.
  destruct (readKind_head k s0 sz rest) as (s' & E & Ha); [done|done|congruence| |].
  - eapply room_frame; [done..|]. eapply room_le; [|done]. lia.
  - exists s'. split_and!; [done|by eapply adv_frame|done].
Qed.

Lemma StreamKind_byte s c rest :
  s_kind s = None -> s_r s = c :: rest -> Z_of_byte c < 128 -> room 1 s ->
  exists s', StreamKind s = (inr (KByte, 0), s') /\ adv 1 s s' /\ s_byteval s' = c /\
    s_kind s' = Some KByte /\ s_kinderr s' = None.
Proof.
  intros Hn Hr Hc Hroom.
  destruct (StreamKind_ok KByte 0 1 s c) as (s' & E & Ha & Hk & He & _ & Hb);
    [done|lia|lia|done| |by eauto 10].
  intros s0 H1 H2 H3 H4.
  destruct (readKind_byte s0 c rest) as (s' & E & Ha & Hb); [congruence|done| |].
  - by eapply room_frame.
  - exists s'. split_and!; [done|by eapply adv_frame|done].
Qed.

(** ** Round trip of the primitive decoders *)
Definition reads {A} (d : D A) (b : bytes) (a : A) : Prop :=
  forall s rest, s_r s = b ++ rest -> s_kind s = None -> room (Z.of_nat (length b)) s ->
  exists s', d s = (inr a, s') /\ adv (length b) s s' /\ s_kind s' = None.

Section primitives.
Lemma reads_bind_ret {A B} (d : D A) b a (f : A -> B) :
  reads d b a -> reads (x ← d; mret (f x)) b (f a).
Proof.
  intros Hd s rest Hr Hk Hroom. destruct (Hd s rest) as (s' & E & H); [done..|].
  exists s'. split; [|done]. unfold mbind, D_bind. by rewrite E.
Qed.

Lemma reads_on_err {A} (d : D A) g b a : reads d b a -> reads (on_err g d) b a.
Proof.
  intros Hd s rest Hr Hk Hroom. destruct (Hd s rest) as (s' & E & H); [done..|].
  exists s'. split; [|done]. unfold on_err. by rewrite E.
Qed.

(** A string is either a byte below 128, its own encoding, or header and content. *)
Lemma ref_string_cases b :
  (exists c, b = [c] /\ Z_of_byte c < 128 /\ ref_string b = [c]) \/
  ((forall c, b = [c] -> 128 <= Z_of_byte c) /\
   ref_string b = hdr KString (Z.of_nat (length b)) ++ b).
Proof.
  unfold ref_string. destruct b as [|c [|d b]].
  - right. done.
  - destruct (Z.ltb_spec (Z_of_byte c) 128); [left; eauto|right].
    split; [|done]. by intros ? [= <-].
  - right. done.
Qed.

Lemma adv_set_kind n s s' k : adv n s s' -> adv n s (set_kind k s').
Proof. done. Qed.

Lemma StreamBytes_reads b : Z.of_nat (length (ref_string b)) < 2 ^ 64 -> reads StreamBytes (ref_string b) b.
Proof.
  intros Hlen s rest Hr Hk Hroom. unfold StreamBytes, mbind, D_bind.
  destruct (ref_string_cases b) as [(c & -> & Hc & E)|[Hb E]]; rewrite E in *.
  - destruct (StreamKind_byte s c rest) as (s' & -> & Ha & Hv & _ & _); [done..|]. simpl.
    rewrite Hv. eexists. split_and!; [done|by apply adv_set_kind|done].
  - rewrite length_app, Nat2Z.inj_add in *.
    destruct (StreamKind_head KString s (Z.of_nat (length b)) (b ++ rest)) as (s1 & -> & Ha);
      [done|lia|done|by rewrite app_assoc|done|].
    simpl. rewrite Nat2Z.id.
    destruct (readFull_ok (length b) s1 b rest) as (s2 & -> & Ha2 & Hk2);
      [|done|by eapply adv_room|].
    { destruct Ha as (-> & _). by rewrite Hr, <- app_assoc, drop_app_length. }
    exists s2. split; [|by split; [eapply adv_trans|]].
    destruct (Z.eqb_spec (Z.of_nat (length b)) 1) as [H1|]; simpl; [|done].
    destruct b as [|c [|]]; simpl in H1; try lia. simpl.
    rewrite (proj2 (Z.ltb_ge _ _)); [done|by apply Hb].
Qed.

Lemma BigBytes_head_ne i : head (BigBytes i) <> Some (byte_of_Z 0).
Proof. destruct (BigBytes i) eqn:E; [done|]. simpl. apply BigBytes_head in E. congruence. Qed.

Lemma Z_of_byte_nonzero c : c <> byte_of_Z 0 -> Z_of_byte c <> 0.
Proof. intros Hc H0. apply Hc. apply (inj Z_of_byte). by rewrite H0. Qed.

(** A number in canonical bytes that are not a single byte below 128 is at least 128. *)
Lemma canonical_ge_128 b :
  head b <> Some (byte_of_Z 0) -> (forall c, b = [c] -> 128 <= Z_of_byte c) ->
  (0 < length b)%nat -> 128 <= SetBytes b.
Proof.
  intros Hh Hb Hl. destruct b as [|c [|d b]]; [simpl in Hl; lia|..].
  - rewrite SetBytes_one. by apply Hb.
  - pose proof (SetBytes_head_lower c (d :: b)) as Hlow.
    assert (256 ^ 1 <= 256 ^ Z.of_nat (length (d :: b))) by (apply Z.pow_le_mono_r; simpl; lia).
    simpl in Hh. assert (c <> byte_of_Z 0) by congruence. specialize (Hlow ltac:(done)). lia.
Qed.

Lemma StreamUint_reads k i :
  0 < k <= 8 -> 0 <= i < 256 ^ k -> reads (StreamUint (8 * k)) (ref_string (BigBytes i)) i.
Proof.
  intros Hkk Hi s rest Hr Hk Hroom. unfold StreamUint, mbind, D_bind.
  assert (Hlen : (length (BigBytes i) <= Z.to_nat k)%nat)
    by (apply BigBytes_length_bound; rewrite Z2Nat.id; lia).
  destruct (ref_string_cases (BigBytes i)) as [(c & Ec & Hc & E)|[Hb E]]; rewrite E in *.
  - assert (i = Z_of_byte c) as -> by (rewrite <- (SetBytes_BigBytes i), Ec, SetBytes_one by lia; done).
    destruct (StreamKind_byte s c rest) as (s' & -> & Ha & Hv & _ & _); [done..|]. simpl.
    rewrite Hv, (proj2 (Z.eqb_neq _ _)) by (eapply Z_of_byte_nonzero, BigBytes_head; done).
    eexists. split_and!; [done|by apply adv_set_kind|done].
  - rewrite length_app, Nat2Z.inj_add in *.
    destruct (StreamKind_head KString s (Z.of_nat (length (BigBytes i))) (BigBytes i ++ rest))
      as (s1 & -> & Ha); [done|lia|done|by rewrite app_assoc|done|].
    cbn [fst snd]. rewrite Z.mul_comm, Z.quot_mul, (proj2 (Z.ltb_ge _ _)) by lia.
    destruct (decide (length (BigBytes i) = 0)%nat) as [H0|H0].
    + unfold on_err. rewrite H0. simpl.
      assert (i = 0) as ->.
      { rewrite <- (SetBytes_BigBytes i) by lia. by destruct (BigBytes i). }
      eexists. split_and!; [done|by apply adv_set_kind|done].
    + destruct (readUint_ok (length (BigBytes i)) s1 (BigBytes i) rest) as (s2 & E2 & Ha2 & Hk2);
        [|done|lia|apply BigBytes_head_ne|by eapply adv_room|].
      { destruct Ha as (-> & _). by rewrite Hr, <- app_assoc, drop_app_length. }
      unfold on_err. rewrite E2, SetBytes_BigBytes by lia.
      exists s2. split; [|by split; [eapply adv_trans|]].
      assert (128 <= i).
      { rewrite <- (SetBytes_BigBytes i) by lia.
        apply canonical_ge_128; [apply BigBytes_head_ne|done|lia]. }
      rewrite (proj2 (Z.ltb_ge i 128)) by lia. by rewrite andb_false_r.
Qed.

Lemma StreamBool_reads b : reads StreamBool (ref_string (BigBytes (if b : bool then 1 else 0))) b.
Proof.
  intros s rest Hr Hk Hroom. unfold StreamBool, mbind, D_bind.
  destruct (StreamUint_reads 1 (if b then 1 else 0) ltac:(lia) ltac:(destruct b; lia) s rest)
    as (s' & E & H); [done..|].
  change (8 * 1) with 8 in E. rewrite E. exists s'. by destruct b.
Qed.

Lemma fit_length_lt b : Z.of_nat (length (ref_string b)) < 2 ^ 64 -> Z.of_nat (length b) < 2 ^ 64.
Proof. pose proof (length_ref_string b). lia. Qed.

Lemma decodeBigInt_reads i :
  0 <= i -> Z.of_nat (length (ref_string (BigBytes i))) < 2 ^ 64 ->
  reads decodeBigInt (ref_string (BigBytes i)) (GBigInt (Some i)).
Proof.
  intros Hi Hl s rest Hr Hk Hroom. unfold decodeBigInt, mbind, D_bind.
  destruct (reads_on_err _ wrapStreamError _ _ (StreamBytes_reads (BigBytes i) Hl) s rest)
    as (s' & -> & H); [done..|].
  exists s'. split; [|done]. rewrite SetBytes_BigBytes by done.
  destruct (BigBytes i) as [|c l] eqn:E; [done|].
  by rewrite (proj2 (Z.eqb_neq _ _)) by (eapply Z_of_byte_nonzero, BigBytes_head; done).
Qed.

Lemma decodeByteArray_reads n b :
  length b = n -> b <> [byte_of_Z 0] -> Z.of_nat (length (ref_string b)) < 2 ^ 64 ->
  reads (decodeByteArray n) (ref_string b) (GByteArray b).
Proof.
  intros <- Hz Hlen s rest Hr Hk Hroom. unfold decodeByteArray, mbind, D_bind.
  destruct (ref_string_cases b) as [(c & -> & Hc & E)|[Hb E]]; rewrite E in *.
  - destruct (StreamKind_byte s c rest) as (s' & -> & Ha & Hv & Hk' & He); [done..|]. simpl.
    unfold Uint_noerr, StreamUint, mbind, D_bind, StreamKind. rewrite Hk', He. simpl.
    rewrite Hv, (proj2 (Z.eqb_neq _ _)) by (apply Z_of_byte_nonzero; congruence).
    simpl. rewrite byte_of_Z_of_byte. eexists. split_and!; [done|by apply adv_set_kind|done].
  - rewrite length_app, Nat2Z.inj_add in *.
    destruct (StreamKind_head KString s (Z.of_nat (length b)) (b ++ rest)) as (s1 & -> & Ha);
      [done|lia|done|by rewrite app_assoc|done|].
    cbn [fst snd]. rewrite Z.ltb_irrefl.
    destruct (readFull_ok (length b) s1 b rest) as (s2 & -> & Ha2 & Hk2);
      [|done|by eapply adv_room|].
    { destruct Ha as (-> & _). by rewrite Hr, <- app_assoc, drop_app_length. }
    exists s2. split; [|by split; [eapply adv_trans|]].
    destruct (Z.eqb_spec (Z.of_nat (length b)) 1) as [H1|]; simpl; [|done].
    destruct b as [|c [|]]; simpl in H1; try lia. simpl.
    rewrite (proj2 (Z.ltb_ge _ _)); [done|by apply Hb].
Qed.
End primitives.

(** ** Lists and structs *)
Section lists.
(** At the end of the innermost list. *)
Definition at_end (s : Stream) : Prop :=
  s_kind s = None /\ exists t stk, s_stack s = t :: stk /\ lp_pos t = lp_size t.

Definition ends {A} (d : D A) : Prop :=
  forall s, at_end s -> exists s', d s = (inl EOL, s') /\ adv 0 s s' /\ s_kind s' = None.

Lemma StreamKind_ends : ends StreamKind.
Proof.
  intros s [Hk (t & stk & Hs & He)]. unfold StreamKind. rewrite Hk. simpl.
  rewrite Hs. simpl. rewrite He, Z.eqb_refl. eexists.
  split_and!; [done|by apply adv_0|done].
Qed.

Lemma ends_bind {A B} (d : D A) (f : A -> D B) : ends d -> ends (d ≫= f).
Proof.
  intros Hd s Hs. destruct (Hd s Hs) as (s' & E & H). exists s'. split; [|done].
  unfold mbind, D_bind. by rewrite E.
Qed.

Lemma ends_wrap {A} (d : D A) : ends d -> ends (on_err wrapStreamError d).
Proof.
  intros Hd s Hs. destruct (Hd s Hs) as (s' & E & H). exists s'. split; [|done].
  unfold on_err. by rewrite E.
Qed.

(** Every decoder reports the end of the enclosing list as [EOL]. *)
Lemma decode_ends t : ends (decode t).
Proof.
  induction t; simpl.
  all: try (repeat first [apply StreamKind_ends | apply ends_wrap | apply ends_bind]; fail).
  - done.
  - intros s Hs. destruct (StreamKind_ends s Hs) as (s' & -> & Ha & Hk). eauto.
Qed.

Lemma StreamList_ok s payload rest :
  let n := Z.of_nat (length payload) in
  n < 2 ^ 64 -> s_r s = ref_list payload ++ rest -> s_kind s = None ->
  room (Z.of_nat (length (ref_list payload))) s ->
  exists s', StreamList s = (inr n, s') /\ s_kind s' = None /\
    s_r s' = payload ++ rest /\ s_limited s' = s_limited s /\
    s_remaining s' = (if s_limited s then s_remaining s - Z.of_nat (length (hdr KList n)) else s_remaining s) /\
    s_stack s' = Listpos 0 n :: bump (Z.of_nat (length (hdr KList n))) (s_stack s).
Proof.
  intros n Hn Hr Hk Hroom. unfold ref_list in *. rewrite length_app, Nat2Z.inj_add in Hroom.
  destruct (StreamKind_head KList s n (payload ++ rest)) as (s1 & E & Ha);
    [done|lia|done|by rewrite app_assoc|done|].
  unfold StreamList, mbind, D_bind. rewrite E. cbn [fst snd].
  destruct Ha as (Hr1 & Hl1 & Hrem1 & Hs1). eexists. split_and!; try done; simpl.
  - rewrite Hr1, Hr, <- app_assoc. by rewrite drop_app_length.
  - by rewrite Hs1.
Qed.

(** Inside a list whose payload is [b]: the bytes of the elements still to come. *)
Definition inside (b rest : bytes) (n : Z) (stk : list listpos) (s : Stream) : Prop :=
  s_r s = b ++ rest /\ s_kind s = None /\ n < 2 ^ 64 /\ Z.of_nat (length b) <= n /\
  s_stack s = Listpos (n - Z.of_nat (length b)) n :: stk /\
  (s_limited s = true -> Z.of_nat (length b) <= s_remaining s).

Lemma inside_room b c rest n stk s :
  inside (b ++ c) rest n stk s -> room (Z.of_nat (length b)) s.
Proof.
  intros (Hr & Hk & Hn & Hl & Hs & Hrem). rewrite length_app in *. unfold room. rewrite Hs. simpl.
  split; [intros E; specialize (Hrem E); lia|lia].
Qed.

Lemma inside_step {A} (d : D A) b c rest n stk s a :
  reads d b a -> inside (b ++ c) rest n stk s ->
  exists s', d s = (inr a, s') /\ inside c rest n stk s' /\ adv (length b) s s'.
Proof.
  intros Hd Hi. pose proof (inside_room _ _ _ _ _ _ Hi) as Hroom.
  destruct Hi as (Hr & Hk & Hn & Hl & Hs & Hrem).
  destruct (Hd s (c ++ rest)) as (s' & E & Ha & Hk'); [by rewrite app_assoc|done|done|].
  exists s'. split_and!; [done| |done]. destruct Ha as (Hr' & Hl' & Hrem' & Hs').
  rewrite length_app in *. unfold inside. split_and!; try done.
  - rewrite Hr', Hr, <- app_assoc. by rewrite drop_app_length.
  - lia.
  - rewrite Hs', Hs. simpl. do 2 f_equal. lia.
  - rewrite Hl', Hrem'. intros El. rewrite El in *. specialize (Hrem eq_refl). lia.
Qed.

Lemma inside_at_end rest n stk s : inside [] rest n stk s -> at_end s.
Proof.
  intros (Hr & Hk & Hn & Hl & Hs & Hrem). split; [done|]. rewrite Hs.
  eexists _, _. split; [done|]. simpl. lia.
Qed.

(** Where the stream stands when [ListEnd] has closed the list. *)
Lemma ListEnd_ok rest n stk s :
  inside [] rest n stk s -> 0 <= n ->
  match stk with [] => True | t :: _ => 0 <= lp_pos t /\ lp_pos t + n <= lp_size t < 2 ^ 64 end ->
  exists s', ListEnd s = (inr tt, s') /\ s_kind s' = None /\ s_r s' = s_r s /\
    s_limited s' = s_limited s /\ s_remaining s' = s_remaining s /\ s_stack s' = bump n stk.
Proof.
  intros (Hr & Hk & Hn & Hl & Hs & Hrem) Hn0 Hstk. unfold ListEnd. rewrite Hs. simpl.
  rewrite Z.sub_0_r, Z.eqb_refl. simpl. eexists. split_and!; try done. simpl.
  destruct stk as [|t stk]; [done|]. simpl. rewrite uint64_id by lia. done.
Qed.

Lemma sliceElems_ok d l bs acc rest n stk s fuel :
  ends d -> Forall2 (reads d) bs l -> Forall (fun b => (0 < length b)%nat) bs ->
  inside (concat bs) rest n stk s -> (length (concat bs) < fuel)%nat ->
  exists s', decodeSliceElems fuel d acc s = (inr (rev acc ++ l), s') /\ inside [] rest n stk s' /\
    adv (length (concat bs)) s s'.
Proof.
  intros He Hl. revert acc s fuel. induction Hl as [|b v bs l Hb Hl IH];
    intros acc s fuel Hpos Hi Hf; (destruct fuel as [|fuel]; [lia|]).
  - destruct (He s (inside_at_end _ _ _ _ Hi)) as (s' & E & Ha & Hk). simpl. rewrite E.
    exists s'. rewrite app_nil_r. split_and!; [done| |done].
    destruct Ha as (Hr & Hli & Hrem & Hs). destruct Hi as (Hr' & Hk' & Hn & Hl' & Hs' & Hrem').
    unfold inside. rewrite Hr, Hli, Hs, Hrem, bump_0, drop_0. simpl in *.
    split_and!; try done. intros El. rewrite El in *. specialize (Hrem' eq_refl). lia.
  - inversion Hpos as [|? ? Hb0 Hpos']; subst. simpl in *. rewrite length_app in Hf.
    destruct (inside_step d b (concat bs) rest n stk s v) as (s1 & E & Hi1 & Ha1); [done|done|].
    rewrite E. destruct (IH (v :: acc) s1 fuel) as (s2 & E2 & Hi2 & Ha2); [done|done|lia|].
    exists s2. rewrite E2. simpl. rewrite <- app_assoc. split_and!; [done|done|].
    rewrite length_app. by eapply adv_trans.
Qed.

(** Opening a list, and closing it after its payload. *)
Lemma list_open_close s payload rest :
  let n := Z.of_nat (length payload) in
  n < 2 ^ 64 -> s_r s = ref_list payload ++ rest -> s_kind s = None ->
  room (Z.of_nat (length (ref_list payload))) s ->
  exists s1 stk, StreamList s = (inr n, s1) /\ inside payload rest n stk s1 /\
    forall s2, inside [] rest n stk s2 -> adv (length payload) s1 s2 ->
    exists s3, ListEnd s2 = (inr tt, s3) /\ adv (length (ref_list payload)) s s3 /\ s_kind s3 = None.
Proof.
  intros n Hn Hr Hk Hroom.
  destruct (StreamList_ok s payload rest Hn Hr Hk Hroom) as (s1 & E & Hk1 & Hr1 & Hl1 & Hrem1 & Hs1).
  fold n in E, Hrem1, Hs1.
  assert (Hlen : Z.of_nat (length (ref_list payload)) = Z.of_nat (length (hdr KList n)) + n)
    by (unfold ref_list; rewrite length_app, Nat2Z.inj_add; done).
  rewrite Hlen in Hroom. destruct Hroom as [Hlim Hst].
  exists s1, (bump (Z.of_nat (length (hdr KList n))) (s_stack s)). split_and!; [done| |].
  - unfold inside. split_and!; try done; [rewrite Hs1; unfold n; by rewrite Z.sub_diag|].
    rewrite Hl1, Hrem1. intros El. rewrite El in *. specialize (Hlim eq_refl). lia.
  - intros s2 Hi (Hr2 & Hl2 & Hrem2 & Hs2).
    destruct (ListEnd_ok rest n _ s2 Hi) as (s3 & E3 & Hk3 & Hr3 & Hl3 & Hrem3 & Hs3); [lia| |].
    { destruct (s_stack s) as [|t stk]; cbn [bump lp_pos lp_size]; [done|]. lia. }
    exists s3. split_and!; [done| |done]. unfold adv.
    rewrite Hr3, Hl3, Hrem3, Hs3, Hl2, Hrem2, Hl1, Hrem1, bump_bump, <- Hlen.
    split_and!; try done.
    + destruct Hi as (-> & _). rewrite Hr, drop_app_length. done.
    + destruct (s_limited s); lia.
Qed.

Lemma ref_string_pos b : (0 < length (ref_string b))%nat.
Proof.
  destruct (ref_string_cases b) as [(c & _ & _ & ->)|[_ ->]]; [simpl; lia|].
  rewrite length_app. pose proof (length_hd_pos KString (Z.of_nat (length b))). lia.
Qed.

Lemma ref_encode_pos t v : has_ty t v = true -> (0 < length (ref_encode v))%nat.
Proof.
  intros H. destruct v; try apply ref_string_pos.
  - exfalso. revert H. induction t as [| | | | | | | | | |t IH|t1 IH1 t2 IH2]; simpl; try done. by destruct t.
  - simpl. unfold ref_list. rewrite length_app.
    pose proof (length_hd_pos KList (Z.of_nat (length (concat (ref_encode <$> l))))). simpl in *. lia.
Qed.

Lemma ty_ind' (P : ty -> Prop) :
  (forall t, (forall t', t <> TSlice t') -> (forall ts, t <> TStruct ts) ->
     (forall t', t <> TPtr t') -> (forall t1 t2, t <> TAlt t1 t2) -> P t) ->
  (forall t, P t -> P (TSlice t)) -> (forall t, P t -> P (TPtr t)) ->
  (forall t1 t2, P t1 -> P t2 -> P (TAlt t1 t2)) ->
  (forall ts, Forall P ts -> P (TStruct ts)) -> forall t, P t.
Proof.
  intros Hleaf Hslice Hptr Halt Hstruct. fix IH 1. intros [| | | | | | |t|ts|t|t|t1 t2];
    [by apply Hleaf..|apply Hslice, IH|apply Hstruct|apply Hptr, IH|by apply Hleaf|apply Halt; apply IH].
  induction ts as [|t ts IHts]; constructor; [apply IH|apply IHts].
Qed.

Fixpoint decode_fields (ts : list ty) : D (list gval) :=
  match ts with
  | [] => mret []
  | t :: ts' =>
      v ← on_err (fun e => match e with EOL => decodeError TooFewElements | _ => e end) (decode t);
      l ← decode_fields ts';
      mret (v :: l)
  end.

Lemma decode_TStruct ts :
  decode (TStruct ts) =
  (_ ← on_err wrapStreamError StreamList;
   l ← decode_fields ts;
   on_err wrapStreamError ListEnd;; mret (GList l)).
Proof. done. Qed.

Fixpoint fields_ty (ts : list ty) (l : list gval) : bool :=
  match ts, l with
  | [], [] => true
  | t :: ts', v :: l' => has_ty t v && fields_ty ts' l'
  | _, _ => false
  end.

Lemma has_ty_TStruct ts l : has_ty (TStruct ts) (GList l) = fields_ty ts l.
Proof. done. Qed.

Lemma fields_ok ts l rest n stk s :
  Forall (fun t => forall v, has_ty t v = true -> fits v -> reads (decode t) (ref_encode v) v) ts ->
  fields_ty ts l = true -> Forall (fun v => fits v) l ->
  inside (concat (ref_encode <$> l)) rest n stk s ->
  exists s', decode_fields ts s = (inr l, s') /\ inside [] rest n stk s' /\
    adv (length (concat (ref_encode <$> l))) s s'.
Proof.
  intros Hts. revert l s. induction Hts as [|t ts Ht Hts IH]; intros [|v l] s Hty Hf Hi; try done.
  - exists s. split_and!; [done|done|by apply adv_0].
  - csimpl in *. apply andb_true_iff in Hty as [Hv Hl]. inversion Hf; subst.
    destruct (inside_step (on_err (fun e => match e with EOL => decodeError TooFewElements | _ => e end)
      (decode t)) _ _ rest n stk s v (reads_on_err _ _ _ _ (Ht v Hv ltac:(done))) Hi)
      as (s1 & E1 & Hi1 & Ha1).
    destruct (IH l s1) as (s2 & E2 & Hi2 & Ha2); [done..|].
    exists s2. unfold mbind, D_bind. rewrite E1, E2. split_and!; [done|done|].
    rewrite length_app. by eapply adv_trans.
Qed.
End lists.

Lemma decode_TUint_reads bits i :
  has_ty (TUint bits) (GUint i) = true -> reads (decode (TUint bits)) (ref_string (BigBytes i)) (GUint i).
Proof.
  simpl. rewrite !andb_true_iff, !Z.leb_le, Z.eqb_eq, Z.ltb_lt.
  intros [[[[Hb1 Hb2] Hb3] Hi1] Hi2]. apply reads_bind_ret, reads_on_err.
  apply Z.div_exact in Hb3; [|lia]. set (k := bits / 8) in *.
  rewrite Hb3, Z.pow_mul_r in Hi2 by lia. rewrite Hb3. apply StreamUint_reads; [lia|].
  change 256 with (2 ^ 8). lia.
Qed.

Lemma is_zero_byte_false b : negb (is_zero_byte b) = true -> b <> [byte_of_Z 0].
Proof. unfold is_zero_byte. rewrite negb_true_iff. apply bool_decide_eq_false. Qed.

(** [Kind] does not advance once it has read the header. *)
Lemma StreamKind_cached s k sz s1 :
  StreamKind s = (inr (k, sz), s1) -> StreamKind s1 = (inr (k, sz), s1).
Proof.
  unfold StreamKind at 1. destruct (s_kind s) as [k'|] eqn:Ek.
  - destruct (s_kinderr s) eqn:Ee; [done|]. intros [= <- <- <-].
    unfold StreamKind. by rewrite Ek, Ee.
  - case_match; [done|]. destruct (readKind _) as [[[k' sz'] err] s'].
    intros H'. repeat case_match; by simplify_eq.
Qed.

Lemma decodeByteArray_cached n s k sz s1 :
  StreamKind s = (inr (k, sz), s1) -> decodeByteArray n s1 = decodeByteArray n s.
Proof.
  intros E. unfold decodeByteArray, mbind, D_bind. by rewrite E, (StreamKind_cached _ _ _ _ E).
Qed.

Lemma decodeByteArray_nonempty n s k sz s1 v s' :
  n <> 0%nat -> StreamKind s = (inr (k, sz), s1) -> decodeByteArray n s = (inr v, s') ->
  (sz =? 0) && negb (bool_decide (k = KByte)) = false.
Proof.
  intros Hn E. unfold decodeByteArray, mbind, D_bind. rewrite E.
  destruct k; [by rewrite andb_false_r|..|done].
  intros H. case_match; [done|]. case_match; [done|].
  assert (sz = Z.of_nat n) as -> by lia. by rewrite (proj2 (Z.eqb_neq _ _)) by lia.
Qed.

Lemma decode_TOptPtr_reads n v :
  has_ty (TOptPtr (TByteArray n)) v = true -> fits v ->
  reads (decode (TOptPtr (TByteArray n))) (ref_encode v) v.
Proof.
  intros Hty Hf s rest Hr Hk Hroom. destruct v as [| | | | | |b| |]; try done; cbn [decode].
  - simpl in Hty. rewrite !andb_true_iff, Nat.eqb_eq in Hty. destruct Hty as [[Hn Hl] Hz].
    apply is_zero_byte_false in Hz. rewrite negb_true_iff, Nat.eqb_neq in Hn.
    destruct (decodeByteArray_reads n b Hl Hz Hf s rest Hr Hk Hroom) as (s' & E & H).
    exists s'. split; [|done].
    destruct (StreamKind s) as [[e|[k sz]] s1] eqn:Ek.
    + revert E. unfold decodeByteArray, mbind, D_bind. by rewrite Ek.
    + by rewrite (decodeByteArray_nonempty _ _ _ _ _ _ _ Hn Ek E),
        (decodeByteArray_cached _ _ _ _ _ Ek).
  - destruct (StreamKind_head KString s 0 rest) as (s1 & E & Ha); [done|lia|done|done|done|].
    rewrite E. simpl. eexists. split_and!; [done|by apply adv_set_kind|done].
Qed.

Lemma decode_TSlice_reads t l :
  (forall v, has_ty t v = true -> fits v -> reads (decode t) (ref_encode v) v) ->
  forallb (has_ty t) l = true -> fits (GList l) ->
  reads (decode (TSlice t)) (ref_encode (GList l)) (GList l).
Proof.
  intros IH Hty Hf s rest Hr Hk Hroom. destruct (fits_list l Hf) as [Hc Hl].
  rewrite forallb_forall in Hty. rewrite Forall_forall in Hl.
  cbn [ref_encode] in *.
  destruct (list_open_close s (concat (ref_encode <$> l)) rest) as (s1 & stk & E & Hi & Hclose);
    [done..|].
  cbn [decode]. unfold decodeListSlice, mbind, D_bind, on_err. rewrite E.
  set (bs := ref_encode <$> l) in *.
  assert (Forall2 (reads (decode t)) bs l).
  { apply Forall2_fmap_l, Forall_Forall2_diag, Forall_forall. intros v Hv.
    apply IH; [by apply Hty, list_elem_of_In|by apply Hl]. }
  assert (Forall (fun b => (0 < length b)%nat) bs) as Hpos.
  { apply Forall_fmap, Forall_forall. intros v Hv.
    by eapply ref_encode_pos, Hty, list_elem_of_In. }
  destruct (sliceElems_ok (decode t) l bs [] rest (Z.of_nat (length (concat bs))) stk s1 (S (length (s_r s1))))
    as (s2 & E2 & Hi2 & Ha2); [apply decode_ends|done|done|done| |].
  { destruct Hi as (-> & _). rewrite length_app. lia. }
  destruct (Z.eqb_spec (Z.of_nat (length (concat bs))) 0) as [H0|H0].
  - assert (concat bs = []) as Hnil by (destruct (concat bs); [done|simpl in H0; lia]).
    assert (l = []) as ->.
    { destruct l as [|v l]; [done|]. assert (0 < length (ref_encode v))%nat by (by inversion Hpos).
      unfold bs in Hnil. csimpl in Hnil. apply app_eq_nil in Hnil as [Hnil _].
      rewrite Hnil in *. simpl in *. lia. }
    destruct (Hclose s1) as (s3 & -> & Ha3 & Hk3); [done|by apply adv_0|]. eauto.
  - unfold sliceElems. rewrite E2. simpl rev. cbn [app].
    destruct (Hclose s2) as (s3 & -> & Ha3 & Hk3); [done|done|]. eauto.
Qed.

Lemma decode_TStruct_reads ts l :
  Forall (fun t => forall v, has_ty t v = true -> fits v -> reads (decode t) (ref_encode v) v) ts ->
  fields_ty ts l = true -> fits (GList l) ->
  reads (decode (TStruct ts)) (ref_encode (GList l)) (GList l).
Proof.
  intros IH Hty Hf s rest Hr Hk Hroom. destruct (fits_list l Hf) as [Hc Hl].
  cbn [ref_encode] in *.
  destruct (list_open_close s (concat (ref_encode <$> l)) rest) as (s1 & stk & E & Hi & Hclose);
    [done..|].
  rewrite decode_TStruct. unfold mbind, D_bind, on_err. rewrite E.
  destruct (fields_ok ts l rest (Z.of_nat (length (concat (ref_encode <$> l)))) stk s1) as (s2 & E2 & Hi2 & Ha2); [done..|].
  destruct (Hclose s2) as (s3 & E3 & Ha3 & Hk3); [done|done|].
  exists s3. rewrite E2, E3. done.
Qed.

(** A decoder that reads an encoding reads it as a whole input. *)
Lemma DecodeBytesWith_reads d b v :
  reads d b v -> (0 < length b)%nat -> DecodeBytesWith d b = inr v.
Proof.
  intros Hd Hp. unfold DecodeBytesWith.
  destruct (Hd (Reset b true (Z.of_nat (length b))) []) as (s' & E & (Hr & _) & _).
  - unfold Reset. rewrite app_nil_r. by case_match.
  - unfold Reset. by case_match.
  - unfold Reset. rewrite (proj2 (Z.ltb_lt _ _)) by lia. split; simpl; [lia|done].
  - rewrite E, Hr. unfold Reset. rewrite (proj2 (Z.ltb_lt _ _)) by lia. simpl.
    by rewrite drop_all.
Qed.

(** The two forms of an encoded value. *)
Definition item (b : bytes) : Prop :=
  (exists c, b = [c] /\ Z_of_byte c < 128) \/
  (exists k payload, k <> KByte /\ b = hdr k (Z.of_nat (length payload)) ++ payload).

Lemma ref_string_item b : item (ref_string b).
Proof.
  destruct (ref_string_cases b) as [(c & _ & Hc & ->)|[_ ->]]; [left; eauto|right].
  by exists KString, b.
Qed.

Lemma ref_encode_item t v : has_ty t v = true -> item (ref_encode v).
Proof.
  intros H. destruct v; try apply ref_string_item.
  - exfalso. revert H. induction t as [| | | | | | | | | |t IH|t1 IH1 t2 IH2]; simpl; try done. by destruct t.
  - right. exists KList, (concat (ref_encode <$> l)). done.
Qed.

Lemma StreamRaw_reads b : item b -> Z.of_nat (length b) < 2 ^ 64 -> reads StreamRaw b b.
Proof.
  intros Hb Hf s rest Hr Hk Hroom. unfold StreamRaw, mbind, D_bind.
  destruct Hb as [(c & -> & Hc)|(k & p & Hkk & ->)].
  - destruct (StreamKind_byte s c rest) as (s' & -> & Ha & Hv & _ & _); [done..|]. simpl.
    rewrite Hv. eexists. split_and!; [done|by apply adv_set_kind|done].
  - rewrite length_app, Nat2Z.inj_add in *.
    destruct (StreamKind_head k s (Z.of_nat (length p)) (p ++ rest)) as (s1 & -> & Ha);
      [done|lia|done|by rewrite app_assoc|done|].
    cbn [fst snd]. rewrite Nat2Z.id.
    destruct (readFull_ok (length p) s1 p rest) as (s2 & E2 & Ha2 & Hk2);
      [|done|by eapply adv_room|].
    { destruct Ha as (-> & _). by rewrite Hr, <- app_assoc, drop_app_length. }
    exists s2. destruct k; [done|..]; rewrite E2;
      (split_and!; [done|by eapply adv_trans|done]).
Qed.

Lemma decode_TAlt_reads t1 t2 v :
  reads (decode t1) (ref_encode v) v -> item (ref_encode v) -> fits v ->
  reads (decode (TAlt t1 t2)) (ref_encode v) v.
Proof.
  intros H1 Hi Hf s rest Hr Hk Hroom. cbn [decode]. unfold mbind, D_bind.
  destruct (StreamRaw_reads _ Hi Hf s rest) as (s' & E & H); [done..|].
  rewrite E. rewrite DecodeBytesWith_reads with (v := v); [by exists s'|done|].
  destruct Hi as [(c & -> & _)|(k & p & _ & ->)]; [simpl; lia|].
  rewrite length_app. pose proof (length_hd_pos k (Z.of_nat (length p))). lia.
Qed.

Lemma decode_reads t v : has_ty t v = true -> fits v -> reads (decode t) (ref_encode v) v.
Proof.
  revert v. induction t as [t H1 H2 H3 H4|t IH|t IH|t1 t2 IH1 IH2|ts IH] using ty_ind'; intros v Hty Hf.
  - destruct t as [|bits| | | | |n|t|ts|t|t|t1 t2];
      [..|by destruct (H1 t)|by destruct (H2 ts)|by destruct (H3 t)| |by destruct (H4 t1 t2)];
      [destruct v as [|i|b|[i|]|b|b|b| |l]; try done..|].
    + by apply decode_TUint_reads.
    + apply (reads_bind_ret _ _ _ GBool), reads_on_err, StreamBool_reads.
    + simpl in Hty. apply decodeBigInt_reads; [lia|done].
    + by apply reads_bind_ret, reads_on_err, StreamBytes_reads.
    + by apply reads_bind_ret, reads_on_err, StreamBytes_reads.
    + simpl in Hty. rewrite andb_true_iff, Nat.eqb_eq in Hty. destruct Hty as [Hl Hz].
      apply decodeByteArray_reads; [done|by apply is_zero_byte_false|done].
    + destruct t; try (by destruct v). by apply decode_TOptPtr_reads.
  - destruct v; try done. by apply decode_TSlice_reads.
  - by apply IH.
  - apply (decode_TAlt_reads t1 t2 v); [by apply IH1|by apply (ref_encode_item t1)|done].
  - destruct v; try done. by apply decode_TStruct_reads.
Qed.

(** ** Properties *)


