(* ===== verification/RlpCanonical.v ===== *)
(** * Canonical decoding

    The decoders of [src/rlp/decode.go] accept one encoding of a value only: what
    they consume is the reference encoding of what they return. The exceptions are
    the pointers with tag rlp:nil, which accept both empty encodings. *)

From S2P Require Import Prelude Bytes RlpEncode RlpDecode.

(** Types whose decoders are injective: no raw values, no optional pointers, no
    one-byte arrays, widths of whole bytes. *)
Fixpoint canon_ty (t : ty) : bool :=
  match t with
  | TRaw | TOptPtr _ => false
  | TUint bits => (8 <=? bits) && (bits <=? 64)
  | TBool | TBigInt | TString | TBytes => true
  | TByteArray n => negb (n =? 1)%nat
  | TSlice t | TPtr t => canon_ty t
  | TStruct ts => forallb canon_ty ts
  | TAlt t1 t2 => canon_ty t1 && canon_ty t2
  end.

(** ** Inversion of the reading operations *)
Section reading.
Definition wfs (s : Stream) : Prop :=
  Forall (fun t => 0 <= lp_pos t <= lp_size t /\ lp_size t < 2 ^ 64) (s_stack s).

(** [s'] is [s] after reading [b]. *)
Record ate (b : bytes) (s s' : Stream) : Prop := Ate {
  ate_r : s_r s = b ++ s_r s';
  ate_adv : adv (length b) s s';
  ate_wfs : wfs s'
}.

Lemma ate_trans b c s1 s2 s3 : ate b s1 s2 -> ate c s2 s3 -> ate (b ++ c) s1 s3.
Proof.
  intros [H1 H2 H3] [H4 H5 H6]. constructor; [|rewrite length_app; by eapply adv_trans|done].
  by rewrite H1, H4, app_assoc.
Qed.

Lemma ate_set_kind b s s' k : ate b s s' -> ate b s (set_kind k s').
Proof. by intros [H1 H2 H3]. Qed.

Lemma ate_nil s s' :
  s_r s' = s_r s -> s_limited s' = s_limited s -> s_remaining s' = s_remaining s ->
  s_stack s' = s_stack s -> wfs s -> ate [] s s'.
Proof.
  intros H1 H2 H3 H4 Hw. constructor; [done|by apply adv_0|]. unfold wfs. by rewrite H4.
Qed.

Lemma willRead_inv n s s' :
  0 <= n -> wfs s -> willRead n s = (inr tt, s') ->
  s_r s' = s_r s /\ s_limited s' = s_limited s /\
  s_remaining s' = (if s_limited s then s_remaining s - n else s_remaining s) /\
  s_stack s' = bump n (s_stack s) /\ s_kind s' = None /\ wfs s'.
Proof.
  intros Hn Hw. unfold willRead, wfs in *. destruct s as [r rem lim k sz bv ke stk]; simpl in *.
  destruct stk as [|t stk]; simpl.
  - destruct lim; [destruct (_ <? _); [done|]|]; intros [= <-]; done.
  - inversion Hw as [|? ? Ht Hw']; subst. rewrite uint64_id by lia.
    destruct (Z.ltb_spec (lp_size t - lp_pos t) n); [done|].
    rewrite uint64_id by lia.
    destruct lim; [destruct (_ <? _); [done|]|]; intros [= <-];
      (split_and!; try done; constructor; [simpl; lia|done]).
Qed.

Lemma readFull_inv n s b s' :
  wfs s -> readFull n s = (inr b, s') -> ate b s s' /\ length b = n /\ s_kind s' = None.
Proof.
  intros Hw. unfold readFull, mbind, D_bind.
  destruct (willRead (Z.of_nat n) s) as [[e|[]] s1] eqn:E; [done|].
  apply willRead_inv in E as (Hr & Hl & Hrem & Hs & Hk & Hw1); [|lia|done].
  unfold r_Read. destruct (Nat.ltb_spec (length (s_r s1)) n); [done|].
  intros [= <- <-]. rewrite length_take, Nat.min_l by done. split; [|done].
  constructor; simpl; [by rewrite <- Hr, take_drop| |done].
  rewrite length_take, Nat.min_l by done. unfold adv. simpl. by rewrite Hr.
Qed.

Lemma readByte_inv s c s' :
  wfs s -> readByte s = (inr c, s') -> ate [c] s s' /\ s_kind s' = None.
Proof.
  intros Hw. unfold readByte, mbind, D_bind.
  destruct (willRead 1 s) as [[e|[]] s1] eqn:E; [done|].
  apply willRead_inv in E as (Hr & Hl & Hrem & Hs & Hk & Hw1); [|lia|done].
  unfold r_ReadByte. destruct (s_r s1) as [|c' r] eqn:Er; [done|].
  intros [= <- <-]. split; [|done]. constructor; simpl; [by rewrite <- Hr| |done].
  unfold adv. simpl. by rewrite <- Hr.
Qed.

Lemma readUint_inv (n : nat) s v s' :
  wfs s -> readUint (Z.of_nat n) s = (inr v, s') ->
  exists b, ate b s s' /\ length b = n /\ v = SetBytes b /\ s_kind s' = None /\
    ((1 < n)%nat -> head b <> Some (byte_of_Z 0)).
Proof.
  intros Hw. unfold readUint, mbind, D_bind.
  destruct (Z.eqb_spec (Z.of_nat n) 0) as [H0|H0].
  - simpl. intros [= <- <-]. exists []. split_and!; try done; [by apply ate_nil|simpl; lia].
  - destruct (Z.eqb_spec (Z.of_nat n) 1) as [H1|H1].
    + destruct (readByte s) as [[e|c] s1] eqn:E; [done|]. intros [= <- <-].
      apply readByte_inv in E as [Ha Hk]; [|done]. exists [c].
      split_and!; try done; [simpl; lia|lia].
    + rewrite Nat2Z.id. destruct (readFull n s) as [[e|b] s1] eqn:E; [done|].
      apply readFull_inv in E as (Ha & Hl & Hk); [|done].
      destruct b as [|c b]; [simpl in Hl; lia|].
      destruct (Z.eqb_spec (Z_of_byte c) 0) as [|Hc]; [done|]. intros [= <- <-].
      exists (c :: b). split_and!; try done. intros _ [= ->]. done.
Qed.

Lemma byte_tag c z : Z_of_byte c = z -> c = byte_of_Z z.
Proof. intros <-. by rewrite byte_of_Z_of_byte. Qed.

(** A long header that is accepted is the one [puthead] writes. *)
Lemma readKind_long_inv k k' (n : nat) s sz s' :
  wfs s -> (0 < n <= 8)%nat -> readKind_long k (Z.of_nat n) s = ((k', sz, None), s') ->
  k' = k /\ 56 <= sz < 2 ^ 64 /\ ate (putint sz) s s' /\ length (putint sz) = n.
Proof.
  intros Hw Hn. unfold readKind_long. destruct (readUint _ s) as [[e|v] s1] eqn:E; [done|].
  destruct (Z.ltb_spec v 56); [done|]. intros [= <- <- <-].
  apply readUint_inv in E as (b & Ha & Hl & -> & Hk & Hh); [|done].
  pose proof (SetBytes_bound b) as Hb. rewrite Hl in Hb.
  assert (256 ^ Z.of_nat n <= 256 ^ 8) by (apply Z.pow_le_mono_r; lia).
  assert (SetBytes b < 2 ^ 64) by lia.
  assert (Hhd : head b <> Some (byte_of_Z 0)).
  { destruct (decide (n = 1%nat)) as [->|]; [|apply Hh; lia].
    destruct b as [|c [|]]; try done. simpl. intros [= ->]. done. }
  rewrite putint_BigBytes, BigBytes_SetBytes by (done || lia). done.
Qed.

Definition head_of (k : Kind) (sz : Z) (s' : Stream) (b : bytes) : Prop :=
  match k with
  | KByte => sz = 0 /\ b = [s_byteval s'] /\ Z_of_byte (s_byteval s') < 128
  | _ => 0 <= sz < 2 ^ 64 /\ b = hdr k sz
  end.

Lemma readKind_inv s k sz s' :
  wfs s -> readKind s = ((k, sz, None), s') -> exists b, ate b s s' /\ head_of k sz s' b.
Proof.
  intros Hw. unfold readKind. destruct (readByte s) as [[e|c] s1] eqn:E; [done|].
  apply readByte_inv in E as [Ha Hk]; [|done]. pose proof (Z_of_byte_range c) as Hc.
  set (s2 := set_byteval (byte_of_Z 0) s1).
  assert (Ha2 : ate [c] s s2) by (by destruct Ha). assert (Hw2 : wfs s2) by apply Ha2.
  destruct (Z.ltb_spec (Z_of_byte c) 0x80).
  { intros [= <- <- <-]. exists [c]. split; [by destruct Ha2|]. simpl. done. }
  destruct (Z.ltb_spec (Z_of_byte c) 0xB8).
  { intros [= <- <- <-]. exists [c]. split; [done|]. simpl. split; [lia|].
    unfold puthead. rewrite (proj2 (Z.ltb_lt _ _)) by lia. f_equal. apply byte_tag. lia. }
  destruct (Z.ltb_spec (Z_of_byte c) 0xC0).
  { replace (Z_of_byte c - 0xB7) with (Z.of_nat (Z.to_nat (Z_of_byte c - 0xB7))) by lia.
    intros H'. apply readKind_long_inv in H' as (-> & Hsz & Ha3 & Hl); [|done|lia].
    exists ([c] ++ putint sz). split; [by eapply ate_trans|]. simpl. split; [lia|].
    unfold puthead. rewrite (proj2 (Z.ltb_ge _ _)) by lia. f_equal. apply byte_tag. lia. }
  destruct (Z.ltb_spec (Z_of_byte c) 0xF8).
  { intros [= <- <- <-]. exists [c]. split; [done|]. simpl. split; [lia|].
    unfold puthead. rewrite (proj2 (Z.ltb_lt _ _)) by lia. f_equal. apply byte_tag. lia. }
  replace (Z_of_byte c - 0xF7) with (Z.of_nat (Z.to_nat (Z_of_byte c - 0xF7))) by lia.
  intros H'. apply readKind_long_inv in H' as (-> & Hsz & Ha3 & Hl); [|done|lia].
  exists ([c] ++ putint sz). split; [by eapply ate_trans|]. simpl. split; [lia|].
  unfold puthead. rewrite (proj2 (Z.ltb_ge _ _)) by lia. f_equal. apply byte_tag. lia.
Qed.

(** After [Kind], the content announced fits into the innermost list. *)
Lemma StreamKind_inv s k sz s' :
  wfs s -> s_kind s = None -> StreamKind s = (inr (k, sz), s') ->
  exists b, ate b s s' /\ head_of k sz s' b /\ s_kind s' = Some k /\ s_kinderr s' = None /\
    match s_stack s' with [] => True | t :: _ => sz <= lp_size t - lp_pos t end.
Proof.
  intros Hw Hk. unfold StreamKind. rewrite Hk. cbn [s_stack set_kinderr].
  case_match eqn:Eend; [done|].
  destruct (readKind _) as [[[k' sz'] err] s1] eqn:E. destruct err as [e|]; [done|].
  apply readKind_inv in E as (b & Ha & Hh); [|done].
  intros Hres. exists b.
  assert (Hs1 : match s_stack s1 with [] => s_stack s = [] | _ :: _ => s_stack s <> [] end).
  { destruct Ha as [_ (_ & _ & _ & Hs) _]. cbn [set_kinderr s_stack] in Hs.
    rewrite Hs. by destruct (s_stack s). }
  assert (Hfit : k' = k /\ sz' = sz /\
    match s_stack s1 with [] => True | t :: _ => sz <= lp_size t - lp_pos t end /\
    exists s0, s' = s0 /\ s0 = set_kinderr None (set_size sz' (set_kind (Some k') s1))).
  { destruct (s_stack s) as [|t0 stk0], (s_stack s1) as [|t1 stk1] eqn:Est; try done; simpl in Hres.
    - case_match; [done|]. simplify_eq. eauto 10.
    - pose proof (ate_wfs _ _ _ Ha) as Hw1. unfold wfs in Hw1. rewrite Est in Hw1.
      inversion Hw1; subst. rewrite uint64_id in Hres by lia.
      destruct (Z.ltb_spec (lp_size t1 - lp_pos t1) sz'); [done|]. simplify_eq. eauto 10. }
  destruct Hfit as (-> & -> & Hf & s0 & -> & ->). split_and!; try done.
  by destruct Ha.
Qed.
End reading.

(** ** Decoders consume what they return *)
Definition exact {A} (d : D A) (enc : A -> bytes) : Prop :=
  forall s v s', wfs s -> s_kind s = None -> d s = (inr v, s') ->
  ate (enc v) s s' /\ s_kind s' = None /\ enc v <> [].

(** The only source of [EOL] is the end of the enclosing list. *)
Definition eol_pure {A} (d : D A) : Prop :=
  forall s s', s_kind s = None -> d s = (inl EOL, s') ->
  s_stack s <> [] /\ (wfs s -> ate [] s s') /\ s_kind s' = None.

Section primitives.
Lemma exact_bind_ret {A B} (d : D A) (f : A -> B) enc enc' :
  exact d enc -> (forall a, enc' (f a) = enc a) -> exact (x ← d; mret (f x)) enc'.
Proof.
  intros Hd He s v s' Hw Hk. unfold mbind, D_bind. destruct (d s) as [[e|a] s1] eqn:E; [done|].
  intros [= <- <-]. rewrite He. by apply (Hd s).
Qed.

Lemma exact_on_err {A} g (d : D A) enc : exact d enc -> exact (on_err g d) enc.
Proof.
  intros Hd s v s' Hw Hk. unfold on_err. destruct (d s) as [[e|a] s1] eqn:E; [done|].
  intros [= <- <-]. by apply (Hd s).
Qed.

Lemma hdr_ne k sz b : hdr k sz ++ b <> [].
Proof. pose proof (length_hd_pos k sz). intros [Hn _]%app_eq_nil. rewrite Hn in *. simpl in *. lia. Qed.

Lemma ref_string_head b : (forall c, b = [c] -> 128 <= Z_of_byte c) ->
  ref_string b = hdr KString (Z.of_nat (length b)) ++ b.
Proof.
  intros Hb. destruct (ref_string_cases b) as [(c & -> & Hc & _)|[_ ->]]; [|done].
  specialize (Hb c eq_refl). lia.
Qed.

Lemma StreamBytes_exact : exact StreamBytes ref_string.
Proof.
  intros s v s' Hw Hk. unfold StreamBytes, mbind, D_bind.
  destruct (StreamKind s) as [[e|[k sz]] s1] eqn:E; [done|].
  apply StreamKind_inv in E as (b & Ha & Hh & Hk1 & He1 & Hf); [|done|done].
  destruct k; simpl in *.
  - destruct Hh as (-> & -> & Hc). intros [= <- <-]. unfold ref_string.
    rewrite (proj2 (Z.ltb_lt _ _)) by done. split_and!; [by apply ate_set_kind|done|done].
  - destruct Hh as [Hsz ->]. destruct (readFull _ s1) as [[e|c] s2] eqn:E2; [done|].
    apply readFull_inv in E2 as (Ha2 & Hl & Hk2); [|apply Ha].
    destruct ((sz =? 1) && _) eqn:Ec; [done|]. intros [= <- <-].
    assert (Z.of_nat (length c) = sz) by lia. subst sz.
    rewrite ref_string_head; [split_and!; [by eapply ate_trans|done|apply (hdr_ne KString)]|].
    intros c' ->. simpl in Ec. lia.
  - done.
Qed.

Lemma StreamUint_exact bits :
  8 <= bits <= 64 -> exact (StreamUint bits) (fun i => ref_string (BigBytes i)).
Proof.
  intros Hb s v s' Hw Hk. unfold StreamUint, mbind, D_bind.
  destruct (StreamKind s) as [[e|[k sz]] s1] eqn:E; [done|].
  apply StreamKind_inv in E as (b & Ha & Hh & Hk1 & He1 & Hf); [|done|done].
  destruct k; simpl in *.
  - destruct Hh as (-> & -> & Hc). destruct (Z.eqb_spec (Z_of_byte (s_byteval s1)) 0) as [|Hz]; [done|].
    simpl. intros [= <- <-].
    assert (BigBytes (Z_of_byte (s_byteval s1)) = [s_byteval s1]) as ->.
    { rewrite <- SetBytes_one. apply BigBytes_SetBytes. simpl. intros [= H0]. by rewrite H0 in Hz. }
    unfold ref_string. rewrite (proj2 (Z.ltb_lt _ _)) by done.
    split_and!; [by apply ate_set_kind|done|done].
  - destruct Hh as [Hsz ->]. destruct (Z.ltb_spec (Z.quot bits 8) sz) as [|Hq]; [done|].
    assert (Z.quot bits 8 <= 8) by (rewrite Z.quot_div_nonneg by lia; apply Z.div_le_upper_bound; lia).
    unfold on_err. replace sz with (Z.of_nat (Z.to_nat sz)) at 1 by lia.
    destruct (readUint _ s1) as [[e|x] s2] eqn:E2; [done|].
    apply readUint_inv in E2 as (c & Ha2 & Hl & -> & Hk2 & Hh2); [|apply Ha].
    destruct ((0 <? sz) && (SetBytes c <? 128)) eqn:Ec; [done|]. simpl. intros [= <- <-].
    assert (Z.of_nat (length c) = sz) by lia. subst sz.
    rewrite BigBytes_SetBytes.
    + rewrite ref_string_head; [split_and!; [by eapply ate_trans|done|apply (hdr_ne KString)]|].
      intros c' ->. rewrite SetBytes_one in Ec. simpl in Ec. lia.
    + destruct c as [|c0 [|c1 c]]; [done| |apply Hh2; simpl; lia].
      simpl. intros [= ->]. rewrite SetBytes_one in Ec. done.
  - done.
Qed.

Lemma StreamBool_exact :
  exact StreamBool (fun b => ref_string (BigBytes (if b : bool then 1 else 0))).
Proof.
  intros s v s' Hw Hk. unfold StreamBool, mbind, D_bind.
  destruct (StreamUint 8 s) as [[e|i] s1] eqn:E; [done|].
  apply StreamUint_exact in E as H; [|lia|done|done].
  destruct (Z.eqb_spec i 0) as [->|]; [|destruct (Z.eqb_spec i 1) as [->|]; [|done]];
    intros [= <- <-]; done.
Qed.

Lemma decodeBigInt_exact : exact decodeBigInt ref_encode.
Proof.
  intros s v s' Hw Hk. unfold decodeBigInt, mbind, D_bind.
  destruct (on_err _ _ s) as [[e|b] s1] eqn:E; [done|].
  apply (exact_on_err _ _ _ StreamBytes_exact) in E as H; [|done|done].
  destruct b as [|c b]; [by intros [= <- <-]|].
  destruct (Z.eqb_spec (Z_of_byte c) 0) as [|Hc]; [done|]. intros [= <- <-]. simpl.
  rewrite BigBytes_SetBytes; [done|]. simpl. intros [= ->]. done.
Qed.

Lemma decodeByteArray_exact n : n <> 1%nat -> exact (decodeByteArray n) ref_encode.
Proof.
  intros Hn s v s' Hw Hk. unfold decodeByteArray, mbind, D_bind.
  destruct (StreamKind s) as [[e|[k sz]] s1] eqn:E; [done|].
  apply StreamKind_inv in E as (b & Ha & Hh & Hk1 & He1 & Hf); [|done|done].
  destruct k; simpl in *.
  - destruct (Nat.eqb_spec n 0), (Nat.ltb_spec 1 n); try done. lia.
  - destruct Hh as [Hsz ->]. destruct (Z.ltb_spec (Z.of_nat n) sz); [done|].
    destruct (Z.ltb_spec sz (Z.of_nat n)); [done|]. assert (sz = Z.of_nat n) as -> by lia.
    destruct (readFull _ s1) as [[e|c] s2] eqn:E2; [done|].
    apply readFull_inv in E2 as (Ha2 & Hl & Hk2); [|apply Ha].
    destruct ((_ =? 1) && _) eqn:Ec; [done|]. intros [= <- <-]. simpl. subst n.
    rewrite ref_string_head; [split_and!; [by eapply ate_trans|done|apply (hdr_ne KString)]|].
    intros c' ->. simpl in Hn. lia.
  - done.
Qed.

Lemma StreamRaw_exact s b s' :
  wfs s -> s_kind s = None -> StreamRaw s = (inr b, s') -> ate b s s' /\ s_kind s' = None /\ b <> [].
Proof.
  intros Hw Hk. unfold StreamRaw, mbind, D_bind.
  destruct (StreamKind s) as [[e|[k sz]] s1] eqn:E; [done|].
  apply StreamKind_inv in E as (c & Ha & Hh & Hk1 & He1 & Hf); [|done|done].
  destruct k; simpl in *.
  - destruct Hh as (-> & -> & Hc). intros [= <- <-]. split_and!; [by apply ate_set_kind|done|done].
  - destruct Hh as [Hsz ->]. destruct (readFull _ s1) as [[e|c] s2] eqn:E2; [done|].
    apply readFull_inv in E2 as (Ha2 & Hl & Hk2); [|apply Ha]. intros [= <- <-].
    split_and!; [by eapply ate_trans|done|apply (hdr_ne KString)].
  - destruct Hh as [Hsz ->]. destruct (readFull _ s1) as [[e|c] s2] eqn:E2; [done|].
    apply readFull_inv in E2 as (Ha2 & Hl & Hk2); [|apply Ha]. intros [= <- <-].
    split_and!; [by eapply ate_trans|done|apply (hdr_ne KList)].
Qed.
End primitives.

(** ** The end of a list *)
Definition no_eol {A} (d : D A) : Prop := forall s s', d s <> (inl EOL, s').

Section eol.
Lemma no_eol_bind {A B} (d : D A) (f : A -> D B) :
  no_eol d -> (forall a, no_eol (f a)) -> no_eol (d ≫= f).
Proof.
  intros Hd Hf s s'. unfold mbind, D_bind. destruct (d s) as [[e|a] s1] eqn:E; [|apply Hf].
  intros [= -> ->]. by apply Hd in E.
Qed.

Lemma no_eol_ret {A} (a : A) : no_eol (mret a).
Proof. done. Qed.

Lemma no_eol_fail {A} e : e <> EOL -> no_eol (@fail A e).
Proof. intros He s s'. unfold fail. congruence. Qed.

Lemma no_eol_willRead n : no_eol (willRead n).
Proof. intros s s'. unfold willRead. repeat case_match; congruence. Qed.

Lemma no_eol_readFull n : no_eol (readFull n).
Proof.
  apply no_eol_bind; [apply no_eol_willRead|]. intros _ s s'. unfold r_Read. by case_match.
Qed.

Lemma no_eol_readByte : no_eol readByte.
Proof.
  apply no_eol_bind; [apply no_eol_willRead|]. intros _ s s'. unfold r_ReadByte. by case_match.
Qed.

Lemma no_eol_readUint n : no_eol (readUint n).
Proof.
  unfold readUint. case_match; [done|]. case_match.
  - apply no_eol_bind; [apply no_eol_readByte|done].
  - apply no_eol_bind; [apply no_eol_readFull|]. intros [|c b]; [done|]. by case_match.
Qed.

Lemma readKind_no_eol s k sz s' : readKind s <> ((k, sz, Some EOL), s').
Proof.
  assert (Hl : forall k' n s1, readKind_long k' n s1 <> ((k, sz, Some EOL), s')).
  { intros k' n s1. unfold readKind_long. destruct (readUint n s1) as [[e|v] s2] eqn:E.
    - intros [= _ _ -> _]. by apply no_eol_readUint in E.
    - by case_match. }
  unfold readKind. destruct (readByte s) as [[e|c] s1] eqn:E.
  - intros H. simplify_eq. repeat case_match; simplify_eq; by apply no_eol_readByte in E.
  - repeat case_match; try done; apply Hl.
Qed.

Lemma StreamKind_eol : eol_pure StreamKind.
Proof.
  intros s s' Hk. unfold StreamKind. rewrite Hk. cbn [s_stack set_kinderr].
  destruct (s_stack s) as [|t stk] eqn:Est; cbn [head].
  - destruct (readKind _) as [[[k sz] err] s1] eqn:E. destruct err as [e|].
    + intros [= -> _]. by apply readKind_no_eol in E.
    + repeat case_match; congruence.
  - case_match.
    + intros [= <-]. split_and!; [done| |done]. intros Hw. by apply ate_nil.
    + destruct (readKind _) as [[[k sz] err] s1] eqn:E. destruct err as [e|].
      * intros [= -> _]. by apply readKind_no_eol in E.
      * repeat case_match; congruence.
Qed.

Lemma eol_bind {A B} (d : D A) (f : A -> D B) :
  eol_pure d -> (forall a, no_eol (f a)) -> eol_pure (d ≫= f).
Proof.
  intros Hd Hf s s' Hk. unfold mbind, D_bind. destruct (d s) as [[e|a] s1] eqn:E.
  - intros [= -> ->]. by apply Hd.
  - by intros ?%Hf.
Qed.

Lemma eol_wrap {A} (d : D A) : eol_pure d -> eol_pure (on_err wrapStreamError d).
Proof.
  intros Hd s s' Hk. unfold on_err. destruct (d s) as [[e|a] s1] eqn:E; [|done].
  intros [= He <-]. apply Hd; [done|]. by destruct e.
Qed.

Lemma no_eol_StreamKind_cont {A} (f : Kind * Z -> D A) :
  (forall kz, no_eol (f kz)) -> eol_pure (StreamKind ≫= f).
Proof. intros. apply eol_bind; [apply StreamKind_eol|done]. Qed.

Lemma no_eol_ListEnd : no_eol ListEnd.
Proof. intros s s'. unfold ListEnd. repeat case_match; congruence. Qed.

Lemma no_eol_wrap {A} (d : D A) : no_eol d -> no_eol (on_err wrapStreamError d).
Proof.
  intros Hd s s'. unfold on_err. destruct (d s) as [[e|a] s1] eqn:E; [|done].
  intros [= He <-]. apply (Hd s s1). rewrite E. by destruct e.
Qed.

Lemma StreamBytes_eol : eol_pure StreamBytes.
Proof.
  apply no_eol_StreamKind_cont. intros [[] sz].
  - done.
  - apply no_eol_bind; [apply no_eol_readFull|]. intros b. by case_match.
  - by apply no_eol_fail.
Qed.

Lemma StreamUint_eol n : eol_pure (StreamUint n).
Proof.
  apply no_eol_StreamKind_cont. intros [[] sz].
  - intros s s'. unfold mbind, D_bind, byteval. by case_match.
  - case_match; [by apply no_eol_fail|]. apply no_eol_bind; [|intros v; by case_match].
    intros s s'. unfold on_err. destruct (readUint sz s) as [[e|v] s1] eqn:E; [|done].
    intros [= He <-]. apply (no_eol_readUint sz s s1). rewrite E. by destruct e.
  - by apply no_eol_fail.
Qed.

Lemma StreamRaw_eol : eol_pure StreamRaw.
Proof.
  apply no_eol_StreamKind_cont. intros [[] sz]; [done|..];
    (apply no_eol_bind; [apply no_eol_readFull|done]).
Qed.

Lemma StreamList_eol : eol_pure StreamList.
Proof. apply no_eol_StreamKind_cont. by intros [[] sz]. Qed.

Lemma decodeByteArray_eol n : eol_pure (decodeByteArray n).
Proof.
  apply no_eol_StreamKind_cont. intros [[] sz].
  - repeat case_match; try by apply no_eol_fail. apply no_eol_bind; [|done].
    intros s s'. unfold Uint_noerr. by repeat case_match.
  - repeat case_match; try by apply no_eol_fail. apply no_eol_bind; [apply no_eol_readFull|].
    intros b. by case_match.
  - by apply no_eol_fail.
Qed.

Lemma no_eol_sliceElems fuel d acc : no_eol (decodeSliceElems fuel d acc).
Proof.
  revert acc. induction fuel as [|n IH]; intros acc; [by apply no_eol_fail|].
  intros s s'. simpl. destruct (d s) as [[e|v] s1]; [|apply IH]. by destruct e.
Qed.

Lemma no_eol_fields ts : no_eol (decode_fields ts).
Proof.
  induction ts as [|t ts IH]; simpl; [done|]. apply no_eol_bind.
  - intros s s'. unfold on_err. destruct (decode t s) as [[e|v] s1]; [|done].
    intros [= He _]. by destruct e.
  - intros v. apply no_eol_bind; [apply IH|done].
Qed.

Lemma no_eol_DecodeBytesWith d b : eol_pure d -> DecodeBytesWith d b <> inl EOL.
Proof.
  intros Hd. unfold DecodeBytesWith. destruct (d _) as [[e|v] s1] eqn:E; [|by case_match].
  intros [= ->]. apply Hd in E as [Hs _]; unfold Reset in *; by repeat case_match.
Qed.

Lemma decode_eol t : canon_ty t = true -> eol_pure (decode t).
Proof.
  induction t as [t H1 H2 H3 H4|t IH|t IH|t1 t2 IH1 IH2|ts IH] using ty_ind'; intros Hc.
  - destruct t as [|bits| | | | |n|t|ts|t|t|t1 t2];
      [done|..|by destruct (H1 t)|by destruct (H2 ts)|by destruct (H3 t)|done|by destruct (H4 t1 t2)];
      cbn [decode].
    + apply eol_bind; [apply eol_wrap, StreamUint_eol|done].
    + apply eol_bind; [apply eol_wrap, eol_bind; [apply StreamUint_eol|]|done].
      intros v. by repeat case_match.
    + apply eol_bind; [apply eol_wrap, StreamBytes_eol|]. intros [|c b]; [done|]. by case_match.
    + apply eol_bind; [apply eol_wrap, StreamBytes_eol|done].
    + apply eol_bind; [apply eol_wrap, StreamBytes_eol|done].
    + apply decodeByteArray_eol.
  - apply eol_bind; [apply eol_wrap, StreamList_eol|]. intros sz. case_match.
    + apply no_eol_bind; [apply no_eol_ListEnd|done].
    + apply no_eol_bind; [intros s s'; apply no_eol_sliceElems|]. intros l.
      apply no_eol_bind; [apply no_eol_ListEnd|done].
  - by apply IH.
  - simpl in Hc. apply andb_true_iff in Hc as [Hc1 Hc2].
    cbn [decode]. apply eol_bind; [apply StreamRaw_eol|]. intros raw s s'. unfold of_sum.
    destruct (DecodeBytesWith (decode t1) raw); [|congruence].
    pose proof (no_eol_DecodeBytesWith (decode t2) raw (IH2 Hc2)). congruence.
  - rewrite decode_TStruct. apply eol_bind; [apply eol_wrap, StreamList_eol|]. intros _.
    apply no_eol_bind; [apply no_eol_fields|]. intros l.
    apply no_eol_bind; [apply no_eol_wrap, no_eol_ListEnd|done].
Qed.
End eol.

(** ** Lists *)
Section lists.
Lemma StreamList_inv s sz s1 :
  wfs s -> s_kind s = None -> StreamList s = (inr sz, s1) ->
  exists s0, ate (hdr KList sz) s s0 /\ 0 <= sz < 2 ^ 64 /\
    match s_stack s0 with [] => True | t :: _ => sz <= lp_size t - lp_pos t end /\
    s_r s1 = s_r s0 /\ s_limited s1 = s_limited s0 /\ s_remaining s1 = s_remaining s0 /\
    s_stack s1 = Listpos 0 sz :: s_stack s0 /\ s_kind s1 = None /\ wfs s1.
Proof.
  intros Hw Hk. unfold StreamList, mbind, D_bind.
  destruct (StreamKind s) as [[e|[k z]] s0] eqn:E; [done|].
  apply StreamKind_inv in E as (b & Ha & Hh & Hk1 & He1 & Hf); [|done|done].
  destruct k; simpl in *; [done..|]. destruct Hh as [Hsz ->]. intros [= <- <-].
  exists s0. split_and!; try done; [lia|lia|]. constructor; [simpl; lia|]. by destruct Ha.
Qed.

Lemma list_exact s sz s1 p s2 s3 :
  wfs s -> s_kind s = None -> StreamList s = (inr sz, s1) -> ate p s1 s2 ->
  ListEnd s2 = (inr tt, s3) -> ate (ref_list p) s s3 /\ s_kind s3 = None.
Proof.
  intros Hw Hk Hl Hp. apply StreamList_inv in Hl as (s0 & Ha & Hsz & Hf & Hr & Hli & Hrem & Hs & Hk1 & Hw1);
    [|done|done].
  destruct Hp as [Hpr (Hpr' & Hpl & Hprem & Hps) Hpw]. unfold ListEnd.
  rewrite Hps, Hs. simpl. rewrite Hs in Hps. simpl in Hps.
  rewrite Z.add_0_l in *. destruct (Z.eqb_spec (Z.of_nat (length p)) sz) as [Heq|]; simpl; [|done].
  intros [= <-]. split; [|done]. unfold ref_list. rewrite Heq.
  change (puthead 0xC0 0xF7 sz) with (hdr KList sz).
  eapply ate_trans; [done|]. constructor; simpl.
  - by rewrite <- Hr.
  - unfold adv. simpl. rewrite Hpr', Hpl, Hprem, Hr, Hli, Hrem. split_and!; try done.
    destruct (s_stack s0) as [|t stk] eqn:Est; [done|]. simpl. rewrite Heq.
    assert (Ht : 0 <= lp_pos t <= lp_size t /\ lp_size t < 2 ^ 64).
    { pose proof (ate_wfs _ _ _ Ha) as Hw0. unfold wfs in Hw0. rewrite Est in Hw0. by inversion Hw0. }
    rewrite uint64_id by lia. done.
  - pose proof (ate_wfs _ _ _ Ha) as Hw0. unfold wfs in *. simpl.
    destruct (s_stack s0) as [|t stk]; [done|]. inversion Hw0; subst. constructor; [|done]. simpl.
    rewrite uint64_id by lia. lia.
Qed.

Lemma sliceElems_exact d fuel acc s l s' :
  exact d ref_encode -> eol_pure d -> wfs s -> s_kind s = None ->
  decodeSliceElems fuel d acc s = (inr l, s') ->
  exists l', l = rev acc ++ l' /\ ate (concat (ref_encode <$> l')) s s' /\ s_kind s' = None.
Proof.
  intros Hd He. revert acc s. induction fuel as [|n IH]; intros acc s Hw Hk; [done|].
  simpl. destruct (d s) as [[e|v] s1] eqn:E.
  - destruct e; try done. intros [= <- <-]. exists []. rewrite app_nil_r.
    apply He in E as (_ & Ha & Hk1); [|done]. split_and!; [done|by apply Ha|done].
  - intros H. apply Hd in E as (Ha & Hk1 & _); [|done|done].
    apply IH in H as (l' & -> & Ha' & Hk'); [|apply Ha|done].
    exists (v :: l'). simpl. rewrite <- app_assoc. split_and!; [done| |done].
    csimpl. by eapply ate_trans.
Qed.

Lemma fields_exact ts s l s' :
  Forall (fun t => exact (decode t) ref_encode) ts -> wfs s -> s_kind s = None ->
  decode_fields ts s = (inr l, s') -> ate (concat (ref_encode <$> l)) s s' /\ s_kind s' = None.
Proof.
  intros Hts. revert s l. induction Hts as [|t ts Ht _ IH]; intros s l Hw Hk; simpl.
  - intros [= <- <-]. split; [by apply ate_nil|done].
  - unfold mbind, D_bind. destruct (on_err _ _ s) as [[e|v] s1] eqn:E; [done|].
    apply (exact_on_err _ _ _ Ht) in E as (Ha & Hk1 & _); [|done|done].
    destruct (decode_fields ts s1) as [[e|l1] s2] eqn:E2; [done|]. intros [= <- <-].
    apply IH in E2 as (Ha2 & Hk2); [|apply Ha|done]. csimpl. split; [by eapply ate_trans|done].
Qed.

Lemma DecodeBytesWith_exact d b v :
  exact d ref_encode -> DecodeBytesWith d b = inr v -> ref_encode v = b.
Proof.
  intros Hd. unfold DecodeBytesWith. set (s := Reset _ _ _).
  destruct (d s) as [[e|v'] s'] eqn:E; [done|]. case_match eqn:Hl; [done|]. intros [= ->].
  assert (Hs : s_r s = b /\ s_stack s = [] /\ s_kind s = None) by (unfold s, Reset; by repeat case_match).
  destruct Hs as (Hr & Hst & Hk).
  apply Hd in E as ([Hr' _ _] & _); [|by unfold wfs; rewrite Hst|done].
  apply Nat.ltb_ge in Hl. assert (s_r s' = []) as Hnil by (apply nil_length_inv; lia).
  rewrite Hr', Hnil, app_nil_r in Hr. done.
Qed.

Lemma decode_exact t : canon_ty t = true -> exact (decode t) ref_encode.
Proof.
  induction t as [t H1 H2 H3 H4|t IH|t IH|t1 t2 IH1 IH2|ts IH] using ty_ind'; intros Hc.
  - destruct t as [|bits| | | | |n|t|ts|t|t|t1 t2];
      [done|..|by destruct (H1 t)|by destruct (H2 ts)|by destruct (H3 t)|done|by destruct (H4 t1 t2)];
      cbn [decode]; simpl in Hc.
    + eapply exact_bind_ret; [apply exact_on_err, StreamUint_exact; lia|done].
    + eapply exact_bind_ret; [apply exact_on_err, StreamBool_exact|done].
    + apply decodeBigInt_exact.
    + eapply exact_bind_ret; [apply exact_on_err, StreamBytes_exact|done].
    + eapply exact_bind_ret; [apply exact_on_err, StreamBytes_exact|done].
    + apply decodeByteArray_exact. apply negb_true_iff, Nat.eqb_neq in Hc. done.
  - intros s v s' Hw Hk. cbn [decode]. unfold decodeListSlice, mbind, D_bind, on_err.
    destruct (StreamList s) as [[e|sz] s1] eqn:E; [done|].
    pose proof (StreamList_inv _ _ _ Hw Hk E) as (s0 & _ & _ & _ & _ & _ & _ & _ & Hk1 & Hw1).
    destruct (Z.eqb_spec sz 0) as [->|].
    + destruct (ListEnd s1) as [[e|[]] s2] eqn:E2; [done|]. intros [= <- <-].
      destruct (list_exact s 0 s1 [] s1 s2) as [Ha Hk2]; [done|done|done|by apply ate_nil|done|].
      split_and!; [done|done|apply (hdr_ne KList)].
    + destruct (sliceElems _ s1) as [[e|l] s2] eqn:E2; [done|].
      destruct (ListEnd s2) as [[e|[]] s3] eqn:E3; [done|]. intros [= <- <-].
      unfold sliceElems in E2.
      apply sliceElems_exact in E2 as (l' & -> & Ha2 & Hk2); [|by apply IH|by apply decode_eol|done|done].
      destruct (list_exact _ _ _ _ _ _ Hw Hk E Ha2 E3) as [Ha Hk3]. simpl.
      split_and!; [done|done|apply (hdr_ne KList)].
  - by apply IH.
  - simpl in Hc. apply andb_true_iff in Hc as [Hc1 Hc2].
    intros s v s' Hw Hk. cbn [decode]. unfold mbind, D_bind, of_sum.
    destruct (StreamRaw s) as [[e|raw] s1] eqn:E; [done|].
    apply StreamRaw_exact in E as (Ha & Hk1 & Hne); [|done|done].
    assert (Hraw : forall v, (match DecodeBytesWith (decode t1) raw with
      | inl _ => DecodeBytesWith (decode t2) raw | inr v => inr v end) = inr v -> ref_encode v = raw).
    { intros v0. destruct (DecodeBytesWith (decode t1) raw) eqn:E1.
      - apply DecodeBytesWith_exact, IH2, Hc2.
      - intros [= ->]. by eapply DecodeBytesWith_exact, E1; apply IH1. }
    intros [= Hv <-]. by rewrite (Hraw v Hv).
  - intros s v s' Hw Hk. rewrite decode_TStruct. unfold mbind, D_bind, on_err.
    destruct (StreamList s) as [[e|sz] s1] eqn:E; [done|].
    pose proof (StreamList_inv _ _ _ Hw Hk E) as (s0 & _ & _ & _ & _ & _ & _ & _ & Hk1 & Hw1).
    destruct (decode_fields ts s1) as [[e|l] s2] eqn:E2; [done|].
    destruct (ListEnd s2) as [[e|[]] s3] eqn:E3; [done|]. intros [= <- <-].
    apply fields_exact in E2 as (Ha2 & Hk2); [| |done|done].
    + destruct (list_exact _ _ _ _ _ _ Hw Hk E Ha2 E3) as [Ha Hk3]. split_and!; [done|done|apply (hdr_ne KList)].
    + simpl in Hc. rewrite forallb_forall in Hc. rewrite Forall_forall in *. intros t Ht.
      apply IH; [done|]. by apply Hc, list_elem_of_In.
Qed.
End lists.

(** ** Properties *)


