(* ===== verification/RlpRaw.v ===== *)
(** * Splitting encoded values

    Models [src/rlp/raw.go], which takes encoded values apart without decoding them. *)

From S2P Require Import Prelude Bytes RlpEncode RlpDecode RlpCanonical.

(** [ListSize] *)
Definition ListSize (contentSize : Z) : Z := uint64 (headsize contentSize + contentSize).

(** [readSize]: the big-endian number in the first [slen] bytes. *)
Definition readSize (b : bytes) (slen : Z) : rlp_error + Z :=
  if Z.of_nat (length b) <? slen then inl io_ErrUnexpectedEOF
  else
    let s := foldl (fun s c => Z.lor (Z.shiftl s 8) (Z_of_byte c)) 0 (take (Z.to_nat slen) b) in
    if (s <? 56) || bool_decide (head b = Some (byte_of_Z 0)) then inl ErrCanonSize else inr s.

(** [readKind] of [raw.go]: kind, size of the head and size of the content. *)
Definition raw_readKind (buf : bytes) : rlp_error + Kind * Z * Z :=
  match buf with
  | [] => inl io_ErrUnexpectedEOF
  | b0 :: rest =>
      let b := Z_of_byte b0 in
      let r :=
        if b <? 0x80 then inr (KByte, 0, 1)
        else if b <? 0xB8 then
          let contentsize := b - 0x80 in
          if (contentsize =? 1) && match rest with c :: _ => Z_of_byte c <? 128 | [] => false end
          then inl ErrCanonSize
          else inr (KString, 1, contentsize)
        else if b <? 0xC0 then
          match readSize rest (b - 0xB7) with inl e => inl e | inr s => inr (KString, b - 0xB7 + 1, s) end
        else if b <? 0xF8 then inr (KList, 1, b - 0xC0)
        else match readSize rest (b - 0xF7) with inl e => inl e | inr s => inr (KList, b - 0xF7 + 1, s) end in
      match r with
      | inl e => inl e
      | inr (k, tagsize, contentsize) =>
          if uint64 (Z.of_nat (length buf) - tagsize) <? contentsize then inl ErrValueTooLarge
          else inr (k, tagsize, contentsize)
      end
  end.

(** [Split], the slices of it in range. *)
Definition Split (b : bytes) : rlp_error + Kind * bytes * bytes :=
  match raw_readKind b with
  | inl e => inl e
  | inr (k, ts, cs) => inr (k, take (Z.to_nat cs) (drop (Z.to_nat ts) b), drop (Z.to_nat (ts + cs)) b)
  end.

Definition SplitString (b : bytes) : rlp_error + bytes * bytes :=
  match Split b with
  | inl e => inl e
  | inr (k, content, rest) => if bool_decide (k = KList) then inl ErrExpectedString else inr (content, rest)
  end.

Definition SplitList (b : bytes) : rlp_error + bytes * bytes :=
  match Split b with
  | inl e => inl e
  | inr (k, content, rest) => if bool_decide (k = KList) then inr (content, rest) else inl ErrExpectedList
  end.

(** [CountValues]: every value takes at least a byte. *)
Fixpoint CountValues_loop (fuel : nat) (b : bytes) (i : Z) : rlp_error + Z :=
  match fuel with
  | O => inl nontermination
  | S n =>
      match b with
      | [] => inr i
      | _ =>
          match raw_readKind b with
          | inl e => inl e
          | inr (_, tagsize, size) => CountValues_loop n (drop (Z.to_nat (tagsize + size)) b) (i + 1)
          end
      end
  end.

Definition CountValues (b : bytes) : rlp_error + Z := CountValues_loop (S (length b)) b 0.

(** ** What is split *)

(** An encoded value with its kind and content. *)
Definition encodes (k : Kind) (content item : bytes) : Prop :=
  match k with
  | KByte => exists c, content = [c] /\ Z_of_byte c < 128 /\ item = [c]
  | KString => (forall c, content = [c] -> 128 <= Z_of_byte c) /\ item = hdr KString (Z.of_nat (length content)) ++ content
  | KList => item = hdr KList (Z.of_nat (length content)) ++ content
  end.

Lemma be_or_SetBytes l : foldl (fun s c => Z.lor (Z.shiftl s 8) (Z_of_byte c)) 0 l = SetBytes l.
Proof.
  induction l as [|c l IH] using rev_ind; [done|]. rewrite foldl_app, SetBytes_snoc, <- IH. cbn [foldl].
  set (s := foldl _ 0 l). assert (0 <= s) by (unfold s; rewrite IH; apply SetBytes_bound).
  pose proof (Z_of_byte_range c). by apply (lor_shiftl_low s (Z_of_byte c) 8).
Qed.

Lemma readSize_iff (n : nat) b s :
  (0 < n <= 8)%nat ->
  readSize b (Z.of_nat n) = inr s <-> 56 <= s < 2 ^ 64 /\ length (putint s) = n /\ exists rest, b = putint s ++ rest.
Proof.
  intros Hn. unfold readSize. rewrite Nat2Z.id, be_or_SetBytes. split.
  - destruct (Z.ltb_spec (Z.of_nat (length b)) (Z.of_nat n)); [done|].
    destruct (Z.ltb_spec (SetBytes (take n b)) 56); [done|]. cbn [orb].
    case_bool_decide as Hh; [done|]. intros [= <-].
    assert (Hlen : length (take n b) = n) by (rewrite length_take; lia).
    pose proof (SetBytes_bound (take n b)) as Hb. rewrite Hlen in Hb.
    assert (256 ^ Z.of_nat n <= 256 ^ 8) by (apply Z.pow_le_mono_r; lia).
    assert (Hp : putint (SetBytes (take n b)) = take n b).
    { rewrite putint_BigBytes by lia. apply BigBytes_SetBytes. destruct b as [|c b]; [by rewrite take_nil|].
      destruct n; [lia|]. exact Hh. }
    rewrite Hp. split; [lia|]. split; [done|]. exists (drop n b). by rewrite take_drop.
  - intros (Hs & Hl & rest & ->). rewrite length_app, Hl, (proj2 (Z.ltb_ge _ _)) by lia.
    rewrite <- Hl, take_app_length, SetBytes_putint, (proj2 (Z.ltb_ge _ _)) by lia. cbn [orb].
    rewrite bool_decide_eq_false_2; [done|]. pose proof (putint_head s ltac:(lia)) as Hh.
    destruct (putint s); [cbn in Hl; lia|done].
Qed.

Lemma hdr_short k n : 0 <= n < 56 -> hdr k n = [byte_of_Z ((tags k).1 + n)].
Proof. intros Hn. unfold puthead. by rewrite (proj2 (Z.ltb_lt _ _)) by lia. Qed.

Lemma hdr_long k n : 56 <= n -> hdr k n = byte_of_Z ((tags k).2 + Z.of_nat (length (putint n))) :: putint n.
Proof. intros Hn. unfold puthead. by rewrite (proj2 (Z.ltb_ge _ _)) by lia. Qed.

Lemma hdr_short_cons c k n rest :
  0 <= n < 56 -> Z_of_byte c = (tags k).1 + n -> c :: rest = hdr k n ++ rest /\ Z.of_nat (length (hdr k n)) = 1.
Proof. intros Hn Hc. rewrite hdr_short, <- Hc, byte_of_Z_of_byte by lia. done. Qed.

(** The head of a value. *)
Definition headed (k : Kind) (ts cs : Z) (buf : bytes) : Prop :=
  match k with
  | KByte => ts = 0 /\ cs = 1 /\ exists c rest, buf = c :: rest /\ Z_of_byte c < 128
  | _ => 0 <= cs < 2 ^ 64 /\ ts = Z.of_nat (length (hdr k cs)) /\ exists rest, buf = hdr k cs ++ rest /\
           (k = KString -> cs = 1 -> forall c r, rest = c :: r -> 128 <= Z_of_byte c)
  end.

(** [byte_cases c]: the five ranges of a first byte. *)
Ltac byte_cases c :=
  let z := constr:(Z_of_byte c) in
  pose proof (Z_of_byte_range c);
  destruct (Z.ltb_spec z 0x80); [|destruct (Z.ltb_spec z 0xB8); [|destruct (Z.ltb_spec z 0xC0);
    [|destruct (Z.ltb_spec z 0xF8)]]].

Lemma raw_readKind_headed buf k ts cs :
  raw_readKind buf = inr (k, ts, cs) -> headed k ts cs buf /\ cs <= uint64 (Z.of_nat (length buf) - ts).
Proof.
  destruct buf as [|c rest]; [done|]. cbn [raw_readKind].
  set (fitted := fun r : rlp_error + Kind * Z * Z => match r with inl e => inl e | inr (k, t, s) =>
    if uint64 (Z.of_nat (length (c :: rest)) - t) <? s then inl ErrValueTooLarge else inr (k, t, s) end).
  assert (Hfit : forall r, fitted r = inr (k, ts, cs) -> r = inr (k, ts, cs) /\ cs <= uint64 (Z.of_nat (length (c :: rest)) - ts)).
  { intros [e|[[k' t'] s']]; [done|]. cbn [fitted]. destruct (Z.ltb_spec (uint64 (Z.of_nat (length (c :: rest)) - t')) s'); [done|].
    by intros [= -> -> ->]. }
  assert (Hlong : forall k' z, (k' = KString /\ z = 0xB7 \/ k' = KList /\ z = 0xF7) -> z < Z_of_byte c <= z + 8 ->
    match readSize rest (Z_of_byte c - z) with inl e => inl e | inr s => inr (k', Z_of_byte c - z + 1, s) end = inr (k, ts, cs) ->
    headed k ts cs (c :: rest)).
  { intros k' z Hk Hz. replace (Z_of_byte c - z) with (Z.of_nat (Z.to_nat (Z_of_byte c - z))) by lia.
    destruct (readSize _ _) as [|s] eqn:E; [done|]. intros [= <- <- <-].
    apply readSize_iff in E as (Hs & Hl & r & ->); [|lia].
    assert (Hc : hdr k' s = c :: putint s) by (rewrite hdr_long by lia; f_equal; symmetry; apply byte_tag; destruct Hk as [[-> ->]|[-> ->]]; cbn; lia).
    destruct Hk as [[-> ->]|[-> ->]]; cbn [headed]; rewrite Hc; cbn [length];
      (split; [lia|]; split; [lia|]; exists r; split; [done|]; intros ?; lia || done). }
  intros [Hr Hle]%Hfit. split; [|done]. clear Hfit fitted Hle. revert Hr. byte_cases c.
  - intros [= <- <- <-]. split_and!; [done..|]. by exists c, rest.
  - destruct (hdr_short_cons c KString (Z_of_byte c - 128) rest) as [Hc Hl]; [lia|cbn; lia|].
    destruct ((Z_of_byte c - 128 =? 1) && _) eqn:E1; [done|]. intros [= <- <- <-].
    cbn [headed]. split; [lia|]. split; [done|]. exists rest. split; [done|].
    intros _ E c' r ->. rewrite E in E1. cbn in E1. by apply Z.ltb_ge.
  - apply Hlong; [by left|lia].
  - destruct (hdr_short_cons c KList (Z_of_byte c - 192) rest) as [Hc Hl]; [lia|cbn; lia|].
    intros [= <- <- <-]. cbn [headed]. split; [lia|]. split; [done|]. by exists rest.
  - apply Hlong; [by right|lia].
Qed.

Lemma headed_raw_readKind buf k ts cs :
  headed k ts cs buf -> cs <= uint64 (Z.of_nat (length buf) - ts) -> raw_readKind buf = inr (k, ts, cs).
Proof.
  intros Hh Hle. assert (Hlt : (uint64 (Z.of_nat (length buf) - ts) <? cs) = false) by (apply Z.ltb_ge; done).
  destruct k; cbn [headed] in Hh.
  { destruct Hh as (-> & -> & c & rest & -> & Hc). cbn [raw_readKind].
    rewrite (proj2 (Z.ltb_lt _ _)) by lia. by rewrite Hlt. }
  all: destruct Hh as (Hcs & Hts & rest & -> & Hone).
  all: destruct (decide (cs < 56)) as [Hs|Hs];
    [rewrite hdr_short in * by lia; cbn [tags fst snd] in *; cbn [app raw_readKind] in *; rewrite Z_of_byte_small by lia
    |rewrite hdr_long in * by lia; cbn [tags fst snd] in *; cbn [app raw_readKind] in *;
     pose proof (length_putint cs); rewrite Z_of_byte_small by lia].
  - rewrite (proj2 (Z.ltb_ge _ 0x80)), (proj2 (Z.ltb_lt _ 0xB8)) by lia.
    replace (0x80 + cs - 0x80) with cs by lia. change (Z.of_nat (length [byte_of_Z (0x80 + cs)])) with 1 in Hts. subst ts.
    destruct (Z.eqb_spec cs 1) as [->|]; cbn [andb]; [|by rewrite Hlt].
    destruct rest as [|c r]; [by rewrite Hlt|]. specialize (Hone eq_refl eq_refl c r eq_refl).
    rewrite (proj2 (Z.ltb_ge (Z_of_byte c) _)) by lia. by rewrite Hlt.
  - rewrite (proj2 (Z.ltb_ge _ 0x80)), (proj2 (Z.ltb_ge _ 0xB8)), (proj2 (Z.ltb_lt _ 0xC0)) by lia.
    replace (0xB7 + Z.of_nat (length (putint cs)) - 0xB7) with (Z.of_nat (length (putint cs))) by lia.
    assert (readSize (putint cs ++ rest) (Z.of_nat (length (putint cs))) = inr cs) as ->
      by (apply readSize_iff; [lia|]; split; [lia|]; split; [done|]; by exists rest).
    cbn [length] in Hts. replace (Z.of_nat (length (putint cs)) + 1) with ts by lia. by rewrite Hlt.
  - rewrite (proj2 (Z.ltb_ge _ 0x80)), (proj2 (Z.ltb_ge _ 0xB8)), (proj2 (Z.ltb_ge _ 0xC0)), (proj2 (Z.ltb_lt _ 0xF8)) by lia.
    replace (0xC0 + cs - 0xC0) with cs by lia. change (Z.of_nat (length [byte_of_Z (0xC0 + cs)])) with 1 in Hts. subst ts.
    by rewrite Hlt.
  - rewrite (proj2 (Z.ltb_ge _ 0x80)), (proj2 (Z.ltb_ge _ 0xB8)), (proj2 (Z.ltb_ge _ 0xC0)), (proj2 (Z.ltb_ge _ 0xF8)) by lia.
    replace (0xF7 + Z.of_nat (length (putint cs)) - 0xF7) with (Z.of_nat (length (putint cs))) by lia.
    assert (readSize (putint cs ++ rest) (Z.of_nat (length (putint cs))) = inr cs) as ->
      by (apply readSize_iff; [lia|]; split; [lia|]; split; [done|]; by exists rest).
    cbn [length] in Hts. replace (Z.of_nat (length (putint cs)) + 1) with ts by lia. by rewrite Hlt.
Qed.

Lemma headed_room k ts cs buf : headed k ts cs buf -> 0 <= ts <= Z.of_nat (length buf) /\ 0 <= cs.
Proof.
  destruct k; cbn [headed]; [intros (-> & -> & _); lia|..];
    intros (? & -> & rest & -> & _); rewrite length_app; lia.
Qed.

Lemma raw_readKind_iff buf k ts cs :
  Z.of_nat (length buf) < 2 ^ 64 ->
  raw_readKind buf = inr (k, ts, cs) <-> headed k ts cs buf /\ ts + cs <= Z.of_nat (length buf).
Proof.
  intros Hl. split.
  - intros [Hh Hle]%raw_readKind_headed. pose proof (headed_room _ _ _ _ Hh).
    rewrite uint64_small in Hle by (unfold is_uint64; lia). split; [done|lia].
  - intros [Hh Hle]. pose proof (headed_room _ _ _ _ Hh). apply headed_raw_readKind; [done|].
    rewrite uint64_small by (unfold is_uint64; lia). lia.
Qed.

Lemma headed_encodes k ts cs buf :
  headed k ts cs buf /\ ts + cs <= Z.of_nat (length buf) <->
  exists content item rest, buf = item ++ rest /\ encodes k content item /\ Z.of_nat (length content) < 2 ^ 64 /\
    cs = Z.of_nat (length content) /\ ts + cs = Z.of_nat (length item).
Proof.
  split.
  - intros [Hh Hle]. destruct k; cbn [headed] in Hh.
    + destruct Hh as (-> & -> & c & rest & -> & Hc). exists [c], [c], rest. split_and!; [done|by exists c|done..].
    + destruct Hh as (Hcs & -> & rest & -> & Hone). rewrite length_app in Hle.
      exists (take (Z.to_nat cs) rest), (hdr KString cs ++ take (Z.to_nat cs) rest), (drop (Z.to_nat cs) rest).
      assert (Hlen : Z.of_nat (length (take (Z.to_nat cs) rest)) = cs) by (rewrite length_take; lia).
      split_and!; [by rewrite <- app_assoc, take_drop| |lia|done|rewrite length_app; lia].
      split; [|by rewrite Hlen]. intros c Hc. rewrite Hc in Hlen. cbn in Hlen. subst cs.
      destruct rest as [|d r]; [done|]. injection Hc as ->. by eapply Hone.
    + destruct Hh as (Hcs & -> & rest & -> & _). rewrite length_app in Hle.
      exists (take (Z.to_nat cs) rest), (hdr KList cs ++ take (Z.to_nat cs) rest), (drop (Z.to_nat cs) rest).
      assert (Hlen : Z.of_nat (length (take (Z.to_nat cs) rest)) = cs) by (rewrite length_take; lia).
      split_and!; [by rewrite <- app_assoc, take_drop| |lia|done|rewrite length_app; lia]. cbn [encodes]. by rewrite Hlen.
  - intros (content & item & rest & -> & He & Hl & -> & Hts). rewrite length_app. split; [|lia].
    destruct k; cbn [encodes headed] in *.
    + destruct He as (c & -> & Hc & ->). cbn in *. split_and!; [lia|done|]. by exists c, rest.
    + destruct He as [Hone ->]. rewrite length_app in Hts. split; [lia|]. split; [lia|]. exists (content ++ rest).
      split; [by rewrite app_assoc|]. intros _ H1 c r Hc. destruct content as [|d [|]]; cbn in *; try lia.
      injection Hc as <- _. by apply Hone.
    + subst item. rewrite length_app in Hts. split; [lia|]. split; [lia|]. exists (content ++ rest).
      split; [by rewrite app_assoc|done].
Qed.

Lemma encodes_length k content item : encodes k content item -> (length content <= length item)%nat /\ (0 < length item)%nat.
Proof.
  pose proof (length_hd_pos k (Z.of_nat (length content))).
  destruct k; cbn [encodes]; [intros (? & -> & _ & ->); cbn; lia|intros [_ ->]|intros ->]; rewrite length_app; lia.
Qed.

Lemma raw_readKind_encodes k content item rest :
  encodes k content item -> Z.of_nat (length (item ++ rest)) < 2 ^ 64 ->
  raw_readKind (item ++ rest) = inr (k, Z.of_nat (length item - length content), Z.of_nat (length content)).
Proof.
  intros He Hl. pose proof (encodes_length _ _ _ He). apply raw_readKind_iff; [done|]. rewrite length_app in Hl.
  apply headed_encodes. exists content, item, rest. split_and!; [done|done|lia|done|lia].
Qed.

Lemma Split_iff (buf : bytes) (k : Kind) (content rest : bytes) :
  Z.of_nat (length buf) < 2 ^ 64 ->
  Split buf = inr (k, content, rest) <-> exists item, buf = item ++ rest /\ encodes k content item.
Proof.
  intros Hl. unfold Split. split.
  - destruct (raw_readKind buf) as [|[[k' ts] cs]] eqn:E; [done|]. intros [= -> <- <-].
    apply raw_readKind_iff, headed_encodes in E as (c & item & r & -> & He & Hc & -> & Hts); [|done].
    exists item. rewrite Hts, Nat2Z.id, drop_app_length. split; [done|]. rewrite Nat2Z.id.
    destruct k; cbn [encodes] in He |- *.
    + destruct He as (d & -> & Hd & ->). cbn in Hts. replace ts with 0 by lia. by exists d.
    + destruct He as [Hone Hi]. subst item. rewrite length_app in Hts.
      replace (Z.to_nat ts) with (length (hdr KString (Z.of_nat (length c)))) by lia.
      rewrite <- app_assoc, drop_app_length, take_app_length. done.
    + subst item. rewrite length_app in Hts.
      replace (Z.to_nat ts) with (length (hdr KList (Z.of_nat (length c)))) by lia.
      by rewrite <- app_assoc, drop_app_length, take_app_length.
  - intros (item & -> & He). rewrite length_app in Hl.
    destruct (encodes_length _ _ _ He) as [Hc _].
    rewrite (raw_readKind_encodes _ _ _ _ He) by (rewrite length_app; lia).
    replace (Z.of_nat (length item - length content) + Z.of_nat (length content)) with (Z.of_nat (length item)) by lia.
    rewrite !Nat2Z.id, drop_app_length. do 3 f_equal.
    destruct k; cbn [encodes] in He.
    + by destruct He as (d & -> & Hd & ->).
    + destruct He as [_ Hi]. subst item. rewrite length_app. replace (_ + _ - _)%nat with (length (hdr KString (Z.of_nat (length content)))) by lia.
      by rewrite <- app_assoc, drop_app_length, take_app_length.
    + subst item. rewrite length_app. replace (_ + _ - _)%nat with (length (hdr KList (Z.of_nat (length content)))) by lia.
      by rewrite <- app_assoc, drop_app_length, take_app_length.
Qed.

(** Encoded values one after the other. *)
Inductive values : bytes -> nat -> Prop :=
  | values_nil : values [] 0
  | values_cons k content item rest n : encodes k content item -> values rest n -> values (item ++ rest) (S n).

(** The first of some values. *)
Lemma values_first b m :
  values b m -> Z.of_nat (length b) < 2 ^ 64 ->
  match b with
  | [] => m = O
  | _ => exists m' ts cs k, m = S m' /\ raw_readKind b = inr (k, ts, cs) /\ values (drop (Z.to_nat (ts + cs)) b) m'
  end.
Proof.
  intros [|k content item rest m' He Hv] Hl; [done|]. pose proof (encodes_length _ _ _ He) as [Hc Hp].
  destruct (item ++ rest) as [|c0 b0] eqn:Eb; [apply (f_equal length) in Eb; rewrite length_app in Eb; cbn in Eb; lia|].
  rewrite <- Eb in *. do 4 eexists. split; [done|]. split; [exact (raw_readKind_encodes _ _ _ _ He Hl)|].
  replace (Z.to_nat _) with (length item) by lia. by rewrite drop_app_length.
Qed.

Lemma CountValues_loop_iff fuel b i n :
  (length b < fuel)%nat -> Z.of_nat (length b) < 2 ^ 64 ->
  CountValues_loop fuel b i = inr n <-> exists m, values b m /\ n = i + Z.of_nat m.
Proof.
  revert b i. induction fuel as [|fuel IH]; intros b i Hf Hl; [lia|].
  pose proof (fun m Hv => values_first b m Hv Hl) as Hvals.
  destruct b as [|c b]; cbn [CountValues_loop].
  { split; [intros [= ->]; exists O; split; [constructor|lia]|]. intros (m & Hv & ->). rewrite (Hvals m Hv). f_equal. lia. }
  set (buf := c :: b) in *. destruct (raw_readKind buf) as [e|[[k ts] cs]] eqn:E.
  - split; [done|]. intros (m & Hv & _). destruct (Hvals m Hv) as (? & ? & ? & ? & _ & Hk & _). congruence.
  - pose proof E as (content & item & rest & Hb & He & _ & Hcs & Hts)%raw_readKind_iff%headed_encodes; [|done].
    destruct (encodes_length _ _ _ He) as [_ Hp].
    assert (Hd : drop (Z.to_nat (ts + cs)) buf = rest) by (rewrite Hts, Nat2Z.id, Hb; apply drop_app_length).
    assert (Hlen : length buf = (length item + length rest)%nat) by (rewrite Hb; apply length_app).
    rewrite IH by (rewrite Hd; lia). split.
    + intros (m & Hv & ->). exists (S m). split; [|lia]. rewrite Hd in Hv. rewrite Hb. by econstructor.
    + intros (m & Hv & ->). destruct (Hvals m Hv) as (m' & ts' & cs' & k' & -> & Hk & Hv').
      exists m'. split; [congruence|lia].
Qed.

(** Taking encoded values apart. [Split] succeeds exactly when the input starts with
    the canonical encoding of a value, and returns its kind, its content and what
    follows it; [CountValues] succeeds exactly on encoded values one after the other, and
    returns their number. *)
Theorem raw_values (buf : bytes) :
  Z.of_nat (length buf) < 2 ^ 64 ->
  (forall k content rest, Split buf = inr (k, content, rest) <->
     exists item, buf = item ++ rest /\ encodes k content item) /\
  (forall n, CountValues buf = inr n <-> exists m, values buf m /\ n = Z.of_nat m).
Proof.
  intros Hl. split; [intros; by apply Split_iff|]. intros n. apply CountValues_loop_iff; [lia|done].
Qed.

Lemma raw_values_witness :
  Split (ref_encode (GList [GBytes [byte_of_Z 1]; GUint 300]) ++ [byte_of_Z 7])
    = inr (KList, ref_encode (GBytes [byte_of_Z 1]) ++ ref_encode (GUint 300), [byte_of_Z 7]) /\
  CountValues (ref_encode (GBytes [byte_of_Z 1]) ++ ref_encode (GUint 300)) = inr 2.
Proof.
  split.
  - apply raw_values; [vm_compute; reflexivity|]. eexists. split; [reflexivity|]. vm_compute. reflexivity.
  - apply raw_values; [vm_compute; reflexivity|]. exists 2%nat. split; [|reflexivity].
    apply (values_cons KByte [byte_of_Z 1]); [by exists (byte_of_Z 1)|].
    rewrite <- (app_nil_r (ref_encode (GUint 300))).
    apply (values_cons KString (BigBytes 300)); [|constructor]. split; [done|vm_compute; reflexivity].
Defined.

(** A string is split off what it was encoded to. *)
Lemma Split_ref_string b rest :
  Z.of_nat (length (ref_string b ++ rest)) < 2 ^ 64 -> exists k, k <> KList /\ Split (ref_string b ++ rest) = inr (k, b, rest).
Proof.
  intros Hl. destruct (ref_string_cases b) as [(c & Hb & Hc & Hr)|[Hone Hr]].
  - exists KByte. split; [done|]. apply Split_iff; [done|]. exists (ref_string b). split; [done|]. by exists c; subst.
  - exists KString. split; [done|]. apply Split_iff; [done|]. by exists (ref_string b).
Qed.
