(* ===== verification/TrieEncoding.v ===== *)
(** * Encodings of trie keys

    Models [src/trie/encoding.go]: keys as bytes, as nibbles with an optional terminator,
    and in the compact form in which nodes are stored. *)

From S2P Require Import Prelude Bytes.

(** [hasTerm]: does a hex key end in the terminator 16? *)
Definition hasTerm (s : bytes) : bool := bool_decide (last s = Some (byte_of_Z 16)).

(** [decodeNibbles]: two nibbles per byte. Both callers pass an even number of them. *)
Fixpoint decodeNibbles (nibbles : bytes) : bytes :=
  match nibbles with
  | a :: b :: r => byte_of_Z (Z.lor (Z.shiftl (Z_of_byte a) 4) (Z_of_byte b)) :: decodeNibbles r
  | _ => []
  end.

Definition hexToCompact (hex : bytes) : bytes :=
  let terminator := if hasTerm hex then 1 else 0 in
  let hex := if hasTerm hex then removelast hex else hex in
  let flag := Z.shiftl terminator 5 in
  match Nat.odd (length hex), hex with
  | true, h :: r => byte_of_Z (Z.lor (Z.lor flag (Z.shiftl 1 4)) (Z_of_byte h)) :: decodeNibbles r
  | _, _ => byte_of_Z flag :: decodeNibbles hex
  end.

Definition keybytesToHex (str : bytes) : bytes :=
  concat ((fun b => [byte_of_Z (Z_of_byte b / 16); byte_of_Z (Z_of_byte b mod 16)]) <$> str) ++ [byte_of_Z 16].

Definition compactToHex (compact : bytes) : bytes :=
  match compact with
  | [] => compact
  | _ =>
      let base := keybytesToHex compact in
      let b0 := match base with b :: _ => Z_of_byte b | [] => 0 end in
      let base := if b0 <? 2 then removelast base else base in
      drop (Z.to_nat (2 - Z.land b0 1)) base
  end.

Definition hexToKeybytes (hex : bytes) : res bytes :=
  let hex := if hasTerm hex then removelast hex else hex in
  if Nat.odd (length hex) then Panic else Ok (decodeNibbles hex).

(** [prefixLen]: the length of the common prefix. *)
Fixpoint prefixLen (a b : bytes) : nat :=
  match a, b with
  | x :: a', y :: b' => if bool_decide (x = y) then S (prefixLen a' b') else O
  | _, _ => O
  end.

(** ** Hex keys *)
Definition nibble (b : byte) : Prop := Z_of_byte b < 16.
Definition term : byte := byte_of_Z 16.

(** The path of an inner node, and the key of a value. *)
Definition path (k : bytes) : Prop := Forall nibble k.
Definition terminated (k : bytes) : Prop := exists p, path p /\ k = p ++ [term].

Lemma Z_of_term : Z_of_byte term = 16.
Proof. done. Qed.

Lemma path_not_term p : path p -> hasTerm p = false.
Proof.
  intros Hp. apply bool_decide_eq_false. rewrite last_Some. intros (l & ->).
  apply Forall_app in Hp as [_ Hp]. inversion Hp as [|? ? Hn _]. unfold nibble in Hn. fold term in Hn.
  rewrite Z_of_term in Hn. lia.
Qed.

Lemma hasTerm_snoc p : hasTerm (p ++ [term]) = true.
Proof. apply bool_decide_eq_true. by rewrite last_snoc. Qed.

Lemma removelast_snoc {A} (l : list A) x : removelast (l ++ [x]) = l.
Proof. apply removelast_last. Qed.

(** ** Round trips *)
Lemma pack_nibbles a b :
  nibble a -> nibble b ->
  Z_of_byte (byte_of_Z (Z.lor (Z.shiftl (Z_of_byte a) 4) (Z_of_byte b))) = Z_of_byte a * 16 + Z_of_byte b.
Proof.
  unfold nibble. intros Ha Hb. pose proof (Z_of_byte_range a). pose proof (Z_of_byte_range b).
  rewrite lor_shiftl_low, Z_of_byte_of_Z, Z.mod_small by lia. done.
Qed.

Definition nibbles (str : bytes) : bytes :=
  concat ((fun b => [byte_of_Z (Z_of_byte b / 16); byte_of_Z (Z_of_byte b mod 16)]) <$> str).

Lemma unpack_nibbles a b c :
  nibble a -> nibble b -> Z_of_byte c = Z_of_byte a * 16 + Z_of_byte b -> nibbles [c] = [a; b].
Proof.
  unfold nibble, nibbles. intros Ha Hb Hc. pose proof (Z_of_byte_range a). pose proof (Z_of_byte_range b). cbn. rewrite Hc.
  rewrite Z.div_add_l, (Z.div_small (Z_of_byte b)), Z.add_0_r, byte_of_Z_of_byte by lia.
  rewrite Z.add_comm, Z.mod_add, Z.mod_small, byte_of_Z_of_byte by lia. done.
Qed.

Lemma nibbles_cons c str : nibbles (c :: str) = nibbles [c] ++ nibbles str.
Proof. done. Qed.

Lemma nibbles_path str : path (nibbles str).
Proof.
  apply Forall_concat. apply Forall_fmap. apply Forall_true. intros b. cbn. pose proof (Z_of_byte_range b).
  repeat constructor; unfold nibble; rewrite Z_of_byte_of_Z.
  - rewrite Z.mod_small; [apply Z.div_lt_upper_bound; lia|]. split; [apply Z.div_pos; lia|].
    apply Z.div_lt_upper_bound; lia.
  - pose proof (Z.mod_pos_bound (Z_of_byte b) 16). rewrite Z.mod_small; lia.
Qed.

Lemma length_nibbles str : length (nibbles str) = (2 * length str)%nat.
Proof. induction str as [|b str IH]; [done|]. rewrite nibbles_cons, length_app, IH. cbn. lia. Qed.

Lemma nibbles_decodeNibbles k : path k -> Nat.even (length k) = true -> nibbles (decodeNibbles k) = k.
Proof.
  revert k. fix IH 1. intros [|a [|b k]] Hk Hl; [done|done|]. inversion Hk as [|? ? Ha [|? ? Hb Hk']]; subst.
  cbn [decodeNibbles]. rewrite nibbles_cons, (unpack_nibbles a b) by (done || by apply pack_nibbles).
  cbn. do 2 f_equal. by apply IH.
Qed.

Lemma decodeNibbles_nibbles str : decodeNibbles (nibbles str) = str.
Proof.
  induction str as [|b str IH]; [done|]. pose proof (Z_of_byte_range b). rewrite nibbles_cons. cbn. fold (nibbles str).
  rewrite IH. f_equal. apply (inj Z_of_byte). pose proof (nibbles_path [b]) as Hp. inversion Hp as [|? ? Ha [|? ? Hb _]].
  rewrite pack_nibbles by done. rewrite !Z_of_byte_of_Z.
  pose proof (Z.mod_pos_bound (Z_of_byte b) 16). assert (0 <= Z_of_byte b / 16 < 16).
  { split; [apply Z.div_pos; lia|apply Z.div_lt_upper_bound; lia]. }
  rewrite !Z.mod_small by lia. pose proof (Z.div_mod (Z_of_byte b) 16). lia.
Qed.

Lemma keybytesToHex_eq str : keybytesToHex str = nibbles str ++ [term].
Proof. done. Qed.

Lemma keybytesToHex_terminated str : terminated (keybytesToHex str).
Proof. exists (nibbles str). split; [apply nibbles_path|done]. Qed.

#[export] Instance keybytesToHex_inj : Inj (=) (=) keybytesToHex.
Proof.
  intros a b. rewrite !keybytesToHex_eq. intros [H _]%app_inj_tail.
  by rewrite <- (decodeNibbles_nibbles a), <- (decodeNibbles_nibbles b), H.
Qed.

(** A flag nibble, another nibble and pairs of nibbles. *)
Lemma compactToHex_cons f a c r :
  nibble f -> nibble a -> Z_of_byte c = Z_of_byte f * 16 + Z_of_byte a -> path r -> Nat.even (length r) = true ->
  compactToHex (c :: decodeNibbles r) =
  (if Z.odd (Z_of_byte f) then [a] else []) ++ r ++ (if Z_of_byte f <? 2 then [] else [term]).
Proof.
  intros Hf Ha Hc Hr He. cbn [compactToHex]. rewrite keybytesToHex_eq, nibbles_cons, (unpack_nibbles f a c) by done.
  rewrite (nibbles_decodeNibbles r) by done. cbn [app]. change 1 with (Z.ones 1). rewrite Z.land_ones, Zmod_odd by lia.
  assert (Hl : (if Z_of_byte f <? 2 then removelast (f :: a :: r ++ [term]) else f :: a :: r ++ [term])
               = f :: a :: r ++ (if Z_of_byte f <? 2 then [] else [term])).
  { destruct (Z_of_byte f <? 2); [|done]. rewrite app_nil_r. change (f :: a :: r ++ [term]) with ((f :: a :: r) ++ [term]).
    by rewrite removelast_last. }
  rewrite Hl. destruct (Z.odd (Z_of_byte f)); done.
Qed.

Lemma hexToCompact_odd (t : bool) a r :
  nibble a -> path r -> Nat.even (length r) = true ->
  exists c, hexToCompact (a :: r ++ (if t then [term] else [])) = c :: decodeNibbles r /\
            Z_of_byte c = (if t then 3 else 1) * 16 + Z_of_byte a.
Proof.
  intros Ha Hr He. unfold hexToCompact.
  assert (Ht : hasTerm (a :: r ++ (if t then [term] else [])) = t).
  { destruct t; [apply (hasTerm_snoc (a :: r))|]. rewrite app_nil_r. apply path_not_term. by constructor. }
  rewrite Ht. assert (Hh : (if t then removelast (a :: r ++ (if t then [term] else [])) else a :: r ++ (if t then [term] else []))
                           = a :: r) by (destruct t; [exact (removelast_last (a :: r) term)|by rewrite app_nil_r]).
  rewrite Hh. cbn [length]. rewrite Nat.odd_succ, He. eexists. split; [done|]. unfold nibble in Ha.
  pose proof (Z_of_byte_range a). destruct t; rewrite Z_of_byte_of_Z.
  - change (Z.lor (Z.shiftl 1 5) (Z.shiftl 1 4)) with (Z.shiftl 3 4). rewrite lor_shiftl_low, Z.mod_small by lia. lia.
  - change (Z.lor (Z.shiftl 0 5) (Z.shiftl 1 4)) with (Z.shiftl 1 4). rewrite lor_shiftl_low, Z.mod_small by lia. lia.
Qed.

Lemma hexToCompact_even (t : bool) r :
  path r -> Nat.even (length r) = true ->
  exists c, hexToCompact (r ++ (if t then [term] else [])) = c :: decodeNibbles r /\ Z_of_byte c = (if t then 2 else 0) * 16.
Proof.
  intros Hr He. unfold hexToCompact.
  assert (Ht : hasTerm (r ++ (if t then [term] else [])) = t).
  { destruct t; [apply (hasTerm_snoc r)|]. rewrite app_nil_r. by apply path_not_term. }
  rewrite Ht. assert (Hh : (if t then removelast (r ++ (if t then [term] else [])) else r ++ (if t then [term] else [])) = r)
    by (destruct t; [exact (removelast_last r term)|by rewrite app_nil_r]).
  rewrite Hh, <- Nat.negb_even, He. eexists. split; [done|]. by destruct t.
Qed.

Definition hex_key (k : bytes) : Prop := path k \/ terminated k.

Lemma hex_key_split k : hex_key k -> exists (t : bool) p, path p /\ k = p ++ (if t then [term] else []).
Proof. intros [Hk|(p & Hp & ->)]; [exists false, k; by rewrite app_nil_r|by exists true, p]. Qed.

Lemma compact_roundtrip k : hex_key k -> compactToHex (hexToCompact k) = k.
Proof.
  intros (t & p & Hp & ->)%hex_key_split. destruct (Nat.even (length p)) eqn:He.
  - destruct (hexToCompact_even t p Hp He) as (c & -> & Hc).
    rewrite (compactToHex_cons (byte_of_Z (if t then 2 else 0)) (byte_of_Z 0)); [by destruct t| |done| |done..].
    + unfold nibble. by destruct t.
    + rewrite Hc. by destruct t.
  - destruct p as [|a r]; [done|]. inversion Hp as [|? ? Ha Hr]; subst.
    cbn [length] in He. rewrite Nat.even_succ, <- Nat.negb_even in He. apply negb_false_iff in He.
    destruct (hexToCompact_odd t a r Ha Hr He) as (c & Hh & Hc). cbn [app]. rewrite Hh.
    rewrite (compactToHex_cons (byte_of_Z (if t then 3 else 1)) a); [by destruct t| |done| |done..].
    + unfold nibble. by destruct t.
    + rewrite Hc. by destruct t.
Qed.

(** A key in hexadecimal form, with the terminator or without, survives the compact
    encoding. *)
Theorem compactToHex_hexToCompact k : hex_key k -> compactToHex (hexToCompact k) = k.
Proof. apply compact_roundtrip. Qed.

Lemma compactToHex_hexToCompact_witness :
  compactToHex (hexToCompact [byte_of_Z 1; byte_of_Z 15; byte_of_Z 7; term]) = [byte_of_Z 1; byte_of_Z 15; byte_of_Z 7; term].
Proof.
  apply compactToHex_hexToCompact. right. exists [byte_of_Z 1; byte_of_Z 15; byte_of_Z 7].
  split; [|reflexivity]. repeat constructor.
Defined.

(** Bytes written as hex and back. *)
Lemma hexToKeybytes_keybytesToHex str : hexToKeybytes (keybytesToHex str) = Ok str.
Proof.
  unfold hexToKeybytes. rewrite keybytesToHex_eq, hasTerm_snoc, removelast_snoc, length_nibbles, Nat.odd_mul. cbn.
  by rewrite decodeNibbles_nibbles.
Qed.

(** ** Common prefixes *)
Lemma prefixLen_spec a b :
  exists p a' b', a = p ++ a' /\ b = p ++ b' /\ prefixLen a b = length p /\
    (forall x y a'' b'', a' = x :: a'' -> b' = y :: b'' -> x <> y).
Proof.
  revert b. induction a as [|x a IH]; intros b; [by exists [], [], b|]. destruct b as [|y b]; [by exists [], (x :: a), []|].
  cbn [prefixLen]. case_bool_decide as Hxy.
  - subst y. destruct (IH b) as (p & a' & b' & -> & -> & Hl & Hne). exists (x :: p), a', b'. by rewrite Hl.
  - exists [], (x :: a), (y :: b). split_and!; [done..|]. intros ? ? ? ? [= -> ->] [= -> ->]. done.
Qed.

Lemma prefixLen_app p a b :
  (forall x y a'' b'', a = x :: a'' -> b = y :: b'' -> x <> y) -> prefixLen (p ++ a) (p ++ b) = length p.
Proof.
  intros Hne. induction p as [|x p IH]; cbn [app prefixLen length].
  - destruct a, b; [done..|]. cbn [prefixLen]. rewrite bool_decide_eq_false_2; [done|]. by eapply Hne.
  - by rewrite bool_decide_eq_true_2, IH.
Qed.
