(* ===== verification/Types.v ===== *)
(** * Headers, blocks, transactions and their hashes

    Models the header, block and transaction types of [src/core/types] with their
    RLP forms, the Tendermint extra data of a header ([src/core/types/tendermint.go])
    and the helpers of [src/consensus/tendermint/utils/utils.go] that seal a header.
    The cryptographic primitives are a parameter. *)

From S2P Require Import Prelude Bytes RlpEncode RlpDecode RlpCanonical.

(** ** Cryptography

    The hash functions of golang.org/x/crypto/sha3 and the secp256k1 signatures the
    code calls: [keccak256] is the legacy Keccak of [crypto.Keccak256] and [rlpHash],
    [sha3_256] the [sha3.New256] of [SigHash], [SigToAddress] is [crypto.SigToPub]
    followed by [crypto.PubkeyToAddress], and [PubkeyAddress] the address of a key. *)
Class Crypto : Type := {
  keccak256 : bytes -> Hash;
  sha3_256 : bytes -> Hash;
  PrivateKey : Type;
  PubkeyAddress : PrivateKey -> Address;
  Sign : Hash -> PrivateKey -> option bytes;
  SigToAddress : Hash -> bytes -> option Address
}.

(** Documented behaviour of [crypto.Sign]: the signature is in the 65-byte
    [R || S || V] format and recovers the signer. *)
Class CryptoLaws (C : Crypto) : Prop := {
  sign_recovers : forall h k sig, Sign h k = Some sig -> SigToAddress h sig = Some (PubkeyAddress k);
  sign_length : forall h k sig, Sign h k = Some sig -> length sig = 65%nat
}.

(** ** Errors of the consensus packages *)
Inductive error : Type :=
  | ErrRlp (e : rlp_error)
  | ErrParseInt
  | ErrSigToPub | ErrSign
  | ErrInvalidTendermintHeaderExtra
  | ErrInvalidSealLength
  (* consensus/tendermint/errors.go *)
  | ErrStartedEngine | ErrStoppedEngine | ErrEmptyCommittedSeals | ErrEmptyValSet
  | ErrMismatchValSet | ErrMismatchTxhashes | ErrInvalidSignature | ErrUnknownBlock
  | ErrUnauthorized | ErrInvalidDifficulty | ErrInvalidExtraDataFormat
  | ErrInvalidMixDigest | ErrInvalidCommittedSeals | ErrInvalidVotingChain
  | ErrCoinBaseInvalid | ErrInvalidUncleHash | ErrInvalidVote | ErrInvalidCandidate
  | ErrUnknownParent | ErrFinalizeZeroBlock
  (* consensus/tendermint/core *)
  | ErrInvalidProposalPOLRound | ErrInvalidProposalSignature | ErrVoteHeightMismatch
  | ErrVoteInvalidValidatorAddress | ErrEmptyBlockProposal | ErrSignerMessageMissMatch
  | ErrCatchUpReplyAddressMissMatch | ErrConflictingVotes | ErrDifferentMsgType
  | ErrInvalidVoteForMessageSet | ErrUnknownMsgCode
  (* package consensus *)
  | ErrUnknownAncestor | ErrPrunedAncestor | ErrFutureBlock | ErrInvalidNumber
  (* package core *)
  | ErrKnownBlock | ErrNonceTooHigh | ErrNonceTooLow | ErrGasLimitReached | ErrInsufficientBalanceForGas
  | ErrVmOutOfGas | ErrVmInsufficientBalance
  (* core/block_validator.go *)
  | ErrUncleRootMismatch | ErrTransactionRootMismatch | ErrGasUsedMismatch | ErrBloomMismatch
  | ErrReceiptRootMismatch | ErrStateRootMismatch | ErrTransactionGasPriceMismatch
  (* package core/types *)
  | ErrInvalidSig | ErrInvalidChainId | ErrInvalidPublicKey | ErrRecoverPublicKey | ErrInvalidReceiptStatus
  | ErrReceiptCountMismatch
  (* core/tx_pool.go *)
  | ErrOwnerReqired | ErrInvalidSender | ErrInvalidProvider | ErrRedundantProvider | ErrUnderpriced | ErrReplaceUnderpriced
  | ErrInsufficientFunds | ErrProviderInsufficientFunds | ErrSenderInsufficientFunds | ErrIntrinsicGas | ErrGasLimit
  | ErrNegativeValue | ErrOversizedData | ErrSameNonce | ErrTxPoolFull | ErrInvalidGasPrice | ErrKnownTransaction
  (* core/state/staking and accounts/abi/bind *)
  | ErrEmptyValidatorSet | ErrNoCode
  (* package trie *)
  | MissingNodeError (nodeHash : Hash) (path : bytes)
  (* an error of code outside the model *)
  | ErrOther (n : Z).

#[export] Instance error_eq_dec : EqDecision error.
Proof. solve_decision. Defined.

(** ** Headers *)
Definition BloomByteLength : nat := 256.
Definition Bloom : Type := bytesN BloomByteLength.
Definition BlockNonce : Type := bytesN 8.

Record Header : Type := MkHeader {
  h_ParentHash : Hash;
  h_UncleHash : Hash;
  h_Coinbase : Address;
  h_Root : Hash;
  h_TxHash : Hash;
  h_ReceiptHash : Hash;
  h_Bloom : Bloom;
  h_Difficulty : option Z;
  h_Number : option Z;
  h_GasLimit : Z;
  h_GasUsed : Z;
  h_Time : Z;
  h_Extra : bytes;
  h_MixDigest : Hash;
  h_Nonce : BlockNonce
}.

#[export] Instance Header_eq_dec : EqDecision Header.
Proof. solve_decision. Defined.

Definition header_ty : ty :=
  TStruct [TByteArray 32; TByteArray 32; TByteArray 20; TByteArray 32; TByteArray 32;
           TByteArray 32; TByteArray 256; TBigInt; TBigInt; TUint 64; TUint 64; TUint 64;
           TBytes; TByteArray 32; TByteArray 8].

(** The fields as [makeStructWriter] sees them. *)
Definition header_gval (h : Header) : gval :=
  GList [GByteArray (bytes_of (h_ParentHash h)); GByteArray (bytes_of (h_UncleHash h));
         GByteArray (bytes_of (h_Coinbase h)); GByteArray (bytes_of (h_Root h));
         GByteArray (bytes_of (h_TxHash h)); GByteArray (bytes_of (h_ReceiptHash h));
         GByteArray (bytes_of (h_Bloom h)); GBigInt (h_Difficulty h); GBigInt (h_Number h);
         GUint (h_GasLimit h); GUint (h_GasUsed h); GUint (h_Time h); GBytes (h_Extra h);
         GByteArray (bytes_of (h_MixDigest h)); GByteArray (bytes_of (h_Nonce h))].

(** The header a decoded struct is; [None] for a value of another shape. *)
Definition header_of_gval (v : gval) : option Header :=
  match v with
  | GList [GByteArray parent; GByteArray uncle; GByteArray coinbase; GByteArray root;
           GByteArray tx; GByteArray receipt; GByteArray bloom; GBigInt diff; GBigInt num;
           GUint gl; GUint gu; GUint tm; GBytes extra; GByteArray mix; GByteArray nonce] =>
      Some (MkHeader (mk_bytesN _ parent) (mk_bytesN _ uncle) (mk_bytesN _ coinbase)
              (mk_bytesN _ root) (mk_bytesN _ tx) (mk_bytesN _ receipt) (mk_bytesN _ bloom)
              diff num gl gu tm extra (mk_bytesN _ mix) (mk_bytesN _ nonce))
  | _ => None
  end.

(** A header as Go holds it: its integers in range and, as after decoding, its
    numbers not nil. *)
Definition header_ok (h : Header) : bool :=
  match h_Difficulty h, h_Number h with
  | Some d, Some n =>
      (0 <=? d) && (0 <=? n)
      && (0 <=? h_GasLimit h) && (h_GasLimit h <? 2 ^ 64)
      && (0 <=? h_GasUsed h) && (h_GasUsed h <? 2 ^ 64)
      && (0 <=? h_Time h) && (h_Time h <? 2 ^ 64)
  | _, _ => false
  end.

Definition CopyHeader (h : Header) : Header :=
  MkHeader (h_ParentHash h) (h_UncleHash h) (h_Coinbase h) (h_Root h) (h_TxHash h)
    (h_ReceiptHash h) (h_Bloom h)
    (Some (default 0 (h_Difficulty h))) (Some (default 0 (h_Number h)))
    (h_GasLimit h) (h_GasUsed h) (h_Time h) (h_Extra h) (h_MixDigest h) (h_Nonce h).

Definition with_Extra (h : Header) (extra : bytes) : Header :=
  MkHeader (h_ParentHash h) (h_UncleHash h) (h_Coinbase h) (h_Root h) (h_TxHash h)
    (h_ReceiptHash h) (h_Bloom h) (h_Difficulty h) (h_Number h)
    (h_GasLimit h) (h_GasUsed h) (h_Time h) extra (h_MixDigest h) (h_Nonce h).

(** What [rlp.Encode] hands to a hash: nothing when it fails. *)
Definition hash_input (v : gval) : bytes :=
  match Encode v with inr b => b | inl _ => [] end.

(** ** Extra data *)
Definition TendermintExtraVanity : nat := 32.
Definition TendermintExtraSeal : nat := 65.
Definition TendermintDigest : Hash := HexToHash (str "0x0").

Record TendermintExtra : Type := MkExtra {
  te_Seal : bytes;
  te_CommittedSeal : list bytes;
  te_ValidatorAdds : bytes
}.

Definition extra_ty : ty := TStruct [TBytes; TSlice TBytes; TBytes].

(** [TendermintExtra.EncodeRLP] *)
Definition extra_gval (te : TendermintExtra) : gval :=
  GList [GBytes (te_Seal te); GList (GBytes <$> te_CommittedSeal te); GBytes (te_ValidatorAdds te)].

Definition bytes_of_gval (v : gval) : option bytes :=
  match v with GBytes b => Some b | _ => None end.

(** [TendermintExtra.DecodeRLP] *)
Definition extra_of_gval (v : gval) : option TendermintExtra :=
  match v with
  | GList [GBytes seal; GList cs; GBytes vals] =>
      cs' ← mapM bytes_of_gval cs; Some (MkExtra seal cs' vals)
  | _ => None
  end.

Definition ExtractTendermintExtra (h : Header) : error + TendermintExtra :=
  if (length (h_Extra h) <? TendermintExtraVanity)%nat then inl ErrInvalidTendermintHeaderExtra
  else
    match DecodeBytes extra_ty (drop TendermintExtraVanity (h_Extra h)) with
    | inl e => inl (ErrRlp e)
    | inr v => match extra_of_gval v with Some te => inr te | None => inl (ErrRlp (decodeError TooFewElements)) end
    end.

(** [append(h.Extra[:TendermintExtraVanity], payload...)] of the encoded extra data. *)
Definition put_extra (h : Header) (te : TendermintExtra) : error + Header :=
  match EncodeToBytes (extra_gval te) with
  | inr (Ok payload) => inr (with_Extra h (take TendermintExtraVanity (h_Extra h) ++ payload))
  | inr _ => inl (ErrRlp nontermination)
  | inl e => inl (ErrRlp e)
  end.

Definition TendermintFilteredHeader (h : Header) (keepSeal : bool) : option Header :=
  let newHeader := CopyHeader h in
  match ExtractTendermintExtra newHeader with
  | inl _ => None
  | inr te =>
      let te := MkExtra (if keepSeal then te_Seal te else []) [] [] in
      match put_extra newHeader te with inr h' => Some h' | inl _ => None end
  end.

Section hashing.
Context `{Crypto}.

Definition rlpHash (v : gval) : Hash := keccak256 (hash_input v).

(** [Header.Hash] *)
Definition Header_Hash (h : Header) : Hash :=
  if bool_decide (h_MixDigest h = TendermintDigest) then
    match TendermintFilteredHeader h true with
    | Some header => rlpHash (header_gval header)
    | None => rlpHash (header_gval h)
    end
  else rlpHash (header_gval h).

(** What [Header_Hash] hashes. *)
Definition header_preimage (h : Header) : bytes :=
  hash_input (header_gval
    (if bool_decide (h_MixDigest h = TendermintDigest) then default h (TendermintFilteredHeader h true) else h)).

(** Two byte strings that Keccak-256 tells apart. *)
Definition no_collision (x y : bytes) : Prop := keccak256 x = keccak256 y -> x = y.

(** [SigHash]; a header that cannot be filtered is a nil pointer, encoded as an
    empty list. *)
Definition SigHash (h : Header) : Hash :=
  sha3_256 (hash_input (match TendermintFilteredHeader h false with
                        | Some header => header_gval header
                        | None => GList []
                        end)).
End hashing.

Definition WriteSeal (h : Header) (seal : bytes) : error + Header :=
  if negb (length seal mod TendermintExtraSeal =? 0)%nat then inl ErrInvalidSealLength
  else
    match ExtractTendermintExtra h with
    | inl e => inl e
    | inr te => put_extra h (MkExtra seal (te_CommittedSeal te) (te_ValidatorAdds te))
    end.

Definition addresses_gval (l : list Address) : gval := GList ((fun a => GByteArray (bytes_of a)) <$> l).

Definition WriteValSet (h : Header) (validators : list Address) : error + Header :=
  match ExtractTendermintExtra h with
  | inl e => inl e
  | inr te =>
      match EncodeToBytes (addresses_gval validators) with
      | inr (Ok valSetData) => put_extra h (MkExtra (te_Seal te) (te_CommittedSeal te) valSetData)
      | inr _ => inl (ErrRlp nontermination)
      | inl e => inl (ErrRlp e)
      end
  end.

Definition WriteCommittedSeals (h : Header) (committedSeals : list bytes) : error + Header :=
  match committedSeals with
  | [] => inl ErrInvalidSealLength
  | _ =>
      if negb (forallb (fun seal => (length seal =? TendermintExtraSeal)%nat) committedSeals)
      then inl ErrInvalidSealLength
      else
        match ExtractTendermintExtra h with
        | inl e => inl e
        | inr te => put_extra h (MkExtra (te_Seal te) committedSeals (te_ValidatorAdds te))
        end
  end.

Definition msgCommit : Z := 0.

Definition PrepareCommittedSeal (hash : Hash) : bytes := bytes_of hash ++ [byte_of_Z msgCommit].

(** [GetCheckpointNumber] on [uint64]. *)
Definition GetCheckpointNumber (epochDuration blockNumber : Z) : res Z :=
  if (blockNumber =? 0) || (blockNumber <? epochDuration) then Ok 0
  else if epochDuration =? 0 then Panic
  else Ok (uint64 (epochDuration * (uint64 (blockNumber - 1) / epochDuration))).

Definition address_of_gval (v : gval) : option Address :=
  match v with GByteArray b => Some (mk_bytesN _ b) | _ => None end.

Definition addresses_of_gval (v : gval) : option (list Address) :=
  match v with GList l => mapM address_of_gval l | _ => None end.

Definition GetValSetAddresses (h : Header) : error + list Address :=
  match ExtractTendermintExtra h with
  | inl e => inl e
  | inr te =>
      if (length (te_ValidatorAdds te) =? 0)%nat then inl ErrEmptyValSet
      else
        match DecodeBytes (TSlice (TByteArray 20)) (te_ValidatorAdds te) with
        | inl e => inl (ErrRlp e)
        | inr v => match addresses_of_gval v with
                   | Some l => inr l
                   | None => inl (ErrRlp (decodeError TooFewElements))
                   end
        end
  end.

Definition GetSignatureAddress `{Crypto} (data sig : bytes) : error + Address :=
  match SigToAddress (keccak256 data) sig with
  | Some a => inr a
  | None => inl ErrSigToPub
  end.

(** ** Transactions *)
Record txdata : Type := MkTxdata {
  tx_AccountNonce : Z;
  tx_Price : option Z;
  tx_GasLimit : Z;
  tx_Recipient : option Address;
  tx_Amount : option Z;
  tx_Payload : bytes;
  tx_Owner : option Address;
  tx_Provider : option Address;
  tx_V : option Z; tx_R : option Z; tx_S : option Z;
  tx_PV : option Z; tx_PR : option Z; tx_PS : option Z
}.

Abbreviation Transaction := txdata.

#[export] Instance txdata_eq_dec : EqDecision txdata.
Proof. solve_decision. Defined.

Definition txdata_ty : ty :=
  TStruct [TUint 64; TBigInt; TUint 64; TOptPtr (TByteArray 20); TBigInt; TBytes;
           TOptPtr (TByteArray 20); TOptPtr (TByteArray 20);
           TBigInt; TBigInt; TBigInt; TBigInt; TBigInt; TBigInt].

Definition txdataNormal_ty : ty :=
  TStruct [TUint 64; TBigInt; TUint 64; TOptPtr (TByteArray 20); TBigInt; TBytes;
           TBigInt; TBigInt; TBigInt].

(** [Transaction.DecodeRLP] tries both forms. *)
Definition tx_ty : ty := TAlt txdata_ty txdataNormal_ty.

Definition optaddr_gval (a : option Address) : gval :=
  match a with Some a => GByteArray (bytes_of a) | None => GNilBytes end.

Definition optaddr_of_gval (v : gval) : option (option Address) :=
  match v with
  | GByteArray b => Some (Some (mk_bytesN _ b))
  | GNilBytes => Some None
  | _ => None
  end.

(** [Transaction.EncodeRLP] *)
Definition tx_gval (t : Transaction) : gval :=
  GList [GUint (tx_AccountNonce t); GBigInt (tx_Price t); GUint (tx_GasLimit t);
         optaddr_gval (tx_Recipient t); GBigInt (tx_Amount t); GBytes (tx_Payload t);
         optaddr_gval (tx_Owner t); optaddr_gval (tx_Provider t);
         GBigInt (tx_V t); GBigInt (tx_R t); GBigInt (tx_S t);
         GBigInt (tx_PV t); GBigInt (tx_PR t); GBigInt (tx_PS t)].

(** [Transaction.DecodeRLP] with [txdataNormal.toTxData] for the short form. *)
Definition tx_of_gval (v : gval) : option Transaction :=
  match v with
  | GList [GUint nonce; GBigInt price; GUint gas; rcpt; GBigInt amount; GBytes payload;
           owner; provider; GBigInt v; GBigInt r; GBigInt s; GBigInt pv; GBigInt pr; GBigInt ps] =>
      rcpt ← optaddr_of_gval rcpt; owner ← optaddr_of_gval owner;
      provider ← optaddr_of_gval provider;
      Some (MkTxdata nonce price gas rcpt amount payload owner provider v r s pv pr ps)
  | GList [GUint nonce; GBigInt price; GUint gas; rcpt; GBigInt amount; GBytes payload;
           GBigInt v; GBigInt r; GBigInt s] =>
      rcpt ← optaddr_of_gval rcpt;
      Some (MkTxdata nonce price gas rcpt amount payload None None v r s None None None)
  | _ => None
  end.

Definition nonneg (p : option Z) : bool := match p with Some z => 0 <=? z | None => false end.

(** A transaction as decoding leaves it. *)
Definition tx_ok (t : Transaction) : bool :=
  (0 <=? tx_AccountNonce t) && (tx_AccountNonce t <? 2 ^ 64)
  && (0 <=? tx_GasLimit t) && (tx_GasLimit t <? 2 ^ 64)
  && nonneg (tx_Price t) && nonneg (tx_Amount t)
  && nonneg (tx_V t) && nonneg (tx_R t) && nonneg (tx_S t)
  && nonneg (tx_PV t) && nonneg (tx_PR t) && nonneg (tx_PS t).

Definition Transaction_Hash `{Crypto} (t : Transaction) : Hash := rlpHash (tx_gval t).

(** ** Blocks *)
Record Block : Type := MkBlock {
  b_header : Header;
  b_transactions : list Transaction;
  b_uncles : list Header
}.

#[export] Instance Block_eq_dec : EqDecision Block.
Proof. solve_decision. Defined.

(** [extblock] *)
Definition block_ty : ty := TStruct [TPtr header_ty; TSlice tx_ty; TSlice (TPtr header_ty)].

(** [Block.EncodeRLP] *)
Definition block_gval (b : Block) : gval :=
  GList [header_gval (b_header b); GList (tx_gval <$> b_transactions b);
         GList (header_gval <$> b_uncles b)].

(** [Block.DecodeRLP] *)
Definition block_of_gval (v : gval) : option Block :=
  match v with
  | GList [h; GList txs; GList us] =>
      h ← header_of_gval h; txs ← mapM tx_of_gval txs; us ← mapM header_of_gval us;
      Some (MkBlock h txs us)
  | _ => None
  end.

Definition block_ok (b : Block) : bool :=
  header_ok (b_header b) && forallb tx_ok (b_transactions b) && forallb header_ok (b_uncles b).

(** [Block.Hash]; the cached value is the one computed first. *)
Definition Block_Hash `{Crypto} (b : Block) : Hash := Header_Hash (b_header b).

(** [Block.WithSeal] *)
Definition WithSeal (b : Block) (h : Header) : Block := MkBlock h (b_transactions b) (b_uncles b).

(** [Number] panics on a block without number: [None]. *)
Definition Block_Number (b : Block) : option Z := h_Number (b_header b).
Definition Block_Header (b : Block) : Header := CopyHeader (b_header b).
Definition NewBlockWithHeader (h : Header) : Block := MkBlock (CopyHeader h) [] [].

(** ** Round trips of the forms *)
Section forms.
Lemma header_of_gval_gval h : header_of_gval (header_gval h) = Some h.
Proof. destruct h; simpl. by rewrite !mk_bytesN_of. Qed.

Lemma optaddr_of_gval_gval a : optaddr_of_gval (optaddr_gval a) = Some a.
Proof. destruct a; simpl; [by rewrite mk_bytesN_of|done]. Qed.

Lemma tx_of_gval_gval t : tx_of_gval (tx_gval t) = Some t.
Proof.
  destruct t as [n p g rc a pl [ow|] [pr|] ? ? ? ? ? ?]; destruct rc as [rc|]; simpl;
    by rewrite ?mk_bytesN_of.
Qed.

Lemma mapM_of_gval {A} (f : A -> gval) (g : gval -> option A) l :
  (forall a, g (f a) = Some a) -> mapM g (f <$> l) = Some l.
Proof.
  intros H. apply mapM_Some_2, Forall2_fmap_l, Forall_Forall2_diag, Forall_true. done.
Qed.

Lemma block_of_gval_gval b : block_of_gval (block_gval b) = Some b.
Proof.
  destruct b as [h txs us]. unfold block_gval, block_of_gval.
  cbn [b_header b_transactions b_uncles]. rewrite header_of_gval_gval.
  rewrite (mapM_of_gval tx_gval tx_of_gval txs tx_of_gval_gval).
  by rewrite (mapM_of_gval header_gval header_of_gval us header_of_gval_gval).
Qed.

Lemma extra_of_gval_gval te : extra_of_gval (extra_gval te) = Some te.
Proof.
  destruct te as [a l b]. unfold extra_gval, extra_of_gval. simpl te_CommittedSeal.
  by rewrite (mapM_of_gval GBytes bytes_of_gval l) by done.
Qed.

Lemma array_ty n (a : bytesN n) :
  n <> 1%nat -> has_ty (TByteArray n) (GByteArray (bytes_of a)) = true.
Proof.
  intros Hn. simpl. rewrite bytes_of_length, Nat.eqb_refl. simpl.
  apply negb_true_iff, bool_decide_eq_false. intros E.
  pose proof (bytes_of_length a) as Hl. rewrite E in Hl. done.
Qed.

Lemma header_has_ty h : header_ok h = true -> has_ty header_ty (header_gval h) = true.
Proof.
  intros H. unfold header_ty, header_gval. rewrite has_ty_TStruct. cbn [fields_ty].
  rewrite !array_ty by done. unfold header_ok in H.
  destruct (h_Difficulty h) as [d|], (h_Number h) as [n|]; try done.
  rewrite !andb_true_iff in H. destruct_and!. simpl. rewrite !andb_true_iff. done.
Qed.

Lemma extra_has_ty te : has_ty extra_ty (extra_gval te) = true.
Proof.
  unfold extra_ty, extra_gval. rewrite has_ty_TStruct. cbn [fields_ty]. simpl.
  rewrite andb_true_r. apply forallb_forall. intros v Hv%list_elem_of_In.
  apply list_elem_of_fmap in Hv as (b & -> & _). done.
Qed.

Lemma optaddr_has_ty a : has_ty (TOptPtr (TByteArray 20)) (optaddr_gval a) = true.
Proof. destruct a as [a|]; [|done]. apply (array_ty AddressLength a). done. Qed.

Lemma tx_has_ty t : tx_ok t = true -> has_ty tx_ty (tx_gval t) = true.
Proof.
  unfold tx_ok. rewrite !andb_true_iff. intros H. destruct_and!.
  change (has_ty txdata_ty (tx_gval t) = true). unfold txdata_ty, tx_gval.
  rewrite has_ty_TStruct. cbn [fields_ty]. rewrite !optaddr_has_ty.
  unfold nonneg in *. repeat case_match; try done. simpl. rewrite !andb_true_iff. done.
Qed.

Lemma forallb_fmap_true {A} (f : A -> gval) (p : A -> bool) (q : gval -> bool) l :
  (forall a, p a = true -> q (f a) = true) -> forallb p l = true -> forallb q (f <$> l) = true.
Proof.
  intros H. induction l as [|a l IH]; csimpl; [done|].
  rewrite !andb_true_iff. intros [Ha Hl]. auto.
Qed.

Lemma block_has_ty b : block_ok b = true -> has_ty block_ty (block_gval b) = true.
Proof.
  unfold block_ok. rewrite !andb_true_iff. intros [[Hh Ht] Hu].
  unfold block_ty, block_gval. rewrite has_ty_TStruct. cbn [fields_ty].
  change (has_ty header_ty (header_gval (b_header b)) && (forallb (has_ty tx_ty) (tx_gval <$> b_transactions b)
    && (forallb (has_ty header_ty) (header_gval <$> b_uncles b) && true)) = true).
  rewrite (header_has_ty _ Hh), (forallb_fmap_true _ tx_ok _ _ tx_has_ty Ht).
  by rewrite (forallb_fmap_true _ header_ok _ _ header_has_ty Hu).
Qed.
End forms.

(** ** The extra data of a header *)
Section extra.
Lemma encodable_has_ty t v : has_ty t v = true -> encodable v = true.
Proof.
  revert v. induction t as [t H1 H2 H3 H4|t IH|t IH|t1 t2 IH1 IH2|ts IH] using ty_ind'; intros v Hty.
  - destruct t as [|bits| | | | |n|t|ts|t|t|t1 t2];
      [..|by destruct (H1 t)|by destruct (H2 ts)|by destruct (H3 t)| |by destruct (H4 t1 t2)];
      [destruct v as [|i|b|[i|]|b|b|b| |l]; try done..|].
    + cbn [has_ty encodable] in *. rewrite !andb_true_iff, !Z.leb_le, !Z.ltb_lt in *.
      destruct Hty as [[[[Hb1 Hb2] _] Hi1] Hi2]. split; [done|].
      eapply Z.lt_le_trans; [done|]. apply Z.pow_le_mono_r; lia.
    + destruct t; by destruct v.
  - destruct v; try done. cbn [has_ty encodable] in *. rewrite forallb_forall in *. auto.
  - by apply IH.
  - by apply IH1.
  - destruct v as [| | | | | | | |l]; try done. rewrite has_ty_TStruct in Hty. cbn [encodable].
    revert l Hty. induction IH as [|t ts Ht _ IHts]; intros [|v l]; simpl; try done.
    rewrite !andb_true_iff. intros [Hv Hl]. auto.
Qed.

Lemma EncodeToBytes_ty t v :
  has_ty t v = true -> fits v -> EncodeToBytes v = inr (Ok (ref_encode v)).
Proof. intros Ht Hf. apply EncodeToBytes_ref; eauto using encodable_has_ty. Qed.

Lemma Encode_ty t v : has_ty t v = true -> fits v -> Encode v = inr (ref_encode v).
Proof.
  intros Ht Hf. unfold Encode. rewrite write_after by eauto using encodable_has_ty.
  by rewrite toWriter_after.
Qed.

Lemma DecodeBytes_ty t v : has_ty t v = true -> fits v -> DecodeBytes t (ref_encode v) = inr v.
Proof. intros. apply DecodeBytesWith_reads; [by apply decode_reads|by eapply ref_encode_pos]. Qed.

Lemma put_extra_eq h te :
  fits (extra_gval te) ->
  put_extra h te
  = inr (with_Extra h (take TendermintExtraVanity (h_Extra h) ++ ref_encode (extra_gval te))).
Proof. intros Hf. unfold put_extra. by rewrite (EncodeToBytes_ty _ _ (extra_has_ty te) Hf). Qed.

Lemma Extract_put h te :
  fits (extra_gval te) -> (TendermintExtraVanity <= length (h_Extra h))%nat ->
  ExtractTendermintExtra
    (with_Extra h (take TendermintExtraVanity (h_Extra h) ++ ref_encode (extra_gval te))) = inr te.
Proof.
  intros Hf Hl. unfold ExtractTendermintExtra. cbn [with_Extra h_Extra].
  assert (length (take TendermintExtraVanity (h_Extra h)) = TendermintExtraVanity) as Ht
    by (rewrite length_take; lia).
  rewrite length_app, Ht, (proj2 (Nat.ltb_ge _ _)) by lia.
  rewrite <- Ht at 1. rewrite drop_app_length, (DecodeBytes_ty _ _ (extra_has_ty te) Hf).
  by rewrite extra_of_gval_gval.
Qed.

Lemma Extract_length h te :
  ExtractTendermintExtra h = inr te -> (TendermintExtraVanity <= length (h_Extra h))%nat.
Proof. unfold ExtractTendermintExtra. case_match eqn:E; [done|]. intros _. by apply Nat.ltb_ge. Qed.

(** Rewriting the extra data keeps the vanity, hence what the next rewriting keeps. *)
Lemma take_put (x y : bytes) :
  (TendermintExtraVanity <= length x)%nat ->
  take TendermintExtraVanity (take TendermintExtraVanity x ++ y) = take TendermintExtraVanity x.
Proof.
  intros Hl. rewrite take_app_le by (rewrite length_take; lia). by rewrite take_take.
Qed.

Lemma ref_list_mono p q :
  (length p <= length q)%nat -> Z.of_nat (length (ref_list q)) < 2 ^ 64 ->
  (length (ref_list p) <= length (ref_list q))%nat.
Proof.
  unfold ref_list. rewrite !length_app. intros Hp Hq.
  pose proof (length_puthead 0xC0 0xF7 (Z.of_nat (length p)) ltac:(lia)).
  pose proof (length_puthead 0xC0 0xF7 (Z.of_nat (length q)) ltac:(lia)).
  pose proof (headsize_mono (Z.of_nat (length p)) (Z.of_nat (length q)) ltac:(lia) ltac:(lia)).
  lia.
Qed.

Lemma fits_filtered te keep :
  fits (extra_gval te) -> fits (extra_gval (MkExtra (if keep : bool then te_Seal te else []) [] [])).
Proof.
  intros Hf. eapply Z.le_lt_trans; [|exact Hf]. apply inj_le.
  unfold extra_gval in *. cbn [ref_encode te_Seal te_CommittedSeal te_ValidatorAdds] in *.
  apply ref_list_mono; [|done]. csimpl. rewrite !length_app. simpl.
  pose proof (ref_string_pos (te_Seal te)).
  pose proof (ref_string_pos (te_ValidatorAdds te)).
  pose proof (length_hd_pos KList (Z.of_nat (length (concat (ref_encode <$> (GBytes <$> te_CommittedSeal te)))))) as Hh.
  unfold ref_list. rewrite length_app. cbn [tags fst snd] in Hh. csimpl in *.
  destruct keep; simpl; lia.
Qed.

(** The filtered header depends on the header and its seal only. *)
Lemma Filtered_put h te keep :
  fits (extra_gval te) -> (TendermintExtraVanity <= length (h_Extra h))%nat ->
  TendermintFilteredHeader
    (with_Extra h (take TendermintExtraVanity (h_Extra h) ++ ref_encode (extra_gval te))) keep
  = Some (with_Extra (CopyHeader h) (take TendermintExtraVanity (h_Extra h)
      ++ ref_encode (extra_gval (MkExtra (if keep then te_Seal te else []) [] [])))).
Proof.
  intros Hf Hl. unfold TendermintFilteredHeader.
  change (CopyHeader (with_Extra h ?x)) with (with_Extra (CopyHeader h) x).
  rewrite (Extract_put (CopyHeader h)) by done.
  rewrite put_extra_eq by by apply fits_filtered.
  cbn [with_Extra h_Extra]. by rewrite take_put.
Qed.

Lemma mapM_gval_inv {A} (f : A -> gval) (g : gval -> option A) vs l :
  (forall v a, g v = Some a -> v = f a) -> mapM g vs = Some l -> vs = f <$> l.
Proof.
  intros Hg Hm. apply mapM_Some in Hm. induction Hm as [|v a vs l Hva _ IH]; [done|].
  csimpl. f_equal; [by apply Hg|done].
Qed.

Lemma extra_of_gval_inv v te : extra_of_gval v = Some te -> v = extra_gval te.
Proof.
  unfold extra_of_gval. intros H. repeat case_match; try done. simplify_option_eq.
  unfold extra_gval; simpl. f_equal. f_equal. f_equal. f_equal.
  eapply mapM_gval_inv; [|done]. intros v a. by destruct v; intros [= ->].
Qed.

(** Extra data that decodes is the vanity followed by the encoded form. *)
Lemma Extract_inv h te :
  ExtractTendermintExtra h = inr te ->
  h_Extra h = take TendermintExtraVanity (h_Extra h) ++ ref_encode (extra_gval te).
Proof.
  unfold ExtractTendermintExtra. case_match; [done|].
  destruct (DecodeBytes _ _) as [e|v] eqn:E; [done|].
  destruct (extra_of_gval v) as [te'|] eqn:Ev; [|done]. intros [= ->].
  apply extra_of_gval_inv in Ev as ->.
  apply DecodeBytesWith_exact in E; [|by apply decode_exact].
  rewrite E. by rewrite take_drop.
Qed.

Lemma Extract_fits h te :
  ExtractTendermintExtra h = inr te -> Z.of_nat (length (h_Extra h)) < 2 ^ 62 ->
  fits (extra_gval te).
Proof.
  intros He Hl. pose proof (Extract_inv h te He) as Hx. rewrite Hx, length_app in Hl. lia.
Qed.

Lemma with_Extra_id h : with_Extra h (h_Extra h) = h.
Proof. by destruct h. Qed.

Lemma Filtered_eq h te keep :
  ExtractTendermintExtra h = inr te -> fits (extra_gval te) ->
  TendermintFilteredHeader h keep
  = Some (with_Extra (CopyHeader h) (take TendermintExtraVanity (h_Extra h)
      ++ ref_encode (extra_gval (MkExtra (if keep then te_Seal te else []) [] [])))).
Proof.
  intros He Hf. rewrite <- (with_Extra_id h) at 1. rewrite (Extract_inv h te He) at 1.
  apply Filtered_put; [done|by eapply Extract_length].
Qed.

(** Filtering after a rewriting of the extra data. *)
Lemma Filtered_rewritten h te te' h' keep :
  ExtractTendermintExtra h = inr te -> fits (extra_gval te) -> fits (extra_gval te') ->
  put_extra h te' = inr h' ->
  (if keep : bool then te_Seal te' = te_Seal te else True) ->
  TendermintFilteredHeader h' keep = TendermintFilteredHeader h keep.
Proof.
  intros He Hf Hf' Hp Hseal. rewrite put_extra_eq in Hp by done.
  apply (inj inr) in Hp as <-.
  rewrite (Filtered_put h te' keep Hf' (Extract_length h te He)), (Filtered_eq h te keep He Hf).
  destruct keep; [by rewrite Hseal|done].
Qed.

(** Sizes *)
Lemma length_puthead_le s l n : 0 <= n < 2 ^ 64 -> (length (puthead s l n) <= 9)%nat.
Proof.
  intros Hn. unfold puthead. case_match; simpl; [lia|]. pose proof (length_putint n). lia.
Qed.

Lemma length_ref_string_le b :
  Z.of_nat (length b) < 2 ^ 64 -> (length (ref_string b) <= length b + 9)%nat.
Proof.
  intros Hb. destruct (ref_string_cases b) as [(c & -> & _ & ->)|[_ ->]]; [simpl; lia|].
  rewrite length_app. pose proof (length_puthead_le 0x80 0xB7 (Z.of_nat (length b)) ltac:(lia)).
  simpl in *. lia.
Qed.

Lemma length_ref_list_le p :
  Z.of_nat (length p) < 2 ^ 64 -> (length (ref_list p) <= length p + 9)%nat.
Proof.
  intros Hb. unfold ref_list. rewrite length_app.
  pose proof (length_puthead_le 0xC0 0xF7 (Z.of_nat (length p)) ltac:(lia)). lia.
Qed.

Lemma length_concat_strings (l : list bytes) (n : nat) :
  Forall (fun b => (length b <= n)%nat) l -> Z.of_nat n < 2 ^ 63 ->
  (length (concat (ref_encode <$> (GBytes <$> l))) <= length l * (n + 9))%nat.
Proof.
  intros Hl Hn. induction Hl as [|b l Hb _ IH]; csimpl; [lia|].
  rewrite length_app. pose proof (length_ref_string_le b ltac:(lia)). lia.
Qed.

Definition seals_enc (l : list bytes) : bytes := ref_list (concat (ref_encode <$> (GBytes <$> l))).

Lemma extra_enc te :
  ref_encode (extra_gval te)
  = ref_list (ref_string (te_Seal te) ++ seals_enc (te_CommittedSeal te) ++ ref_string (te_ValidatorAdds te)).
Proof.
  unfold extra_gval, seals_enc. simpl. by rewrite app_nil_r.
Qed.

Lemma extra_parts te :
  (length (te_Seal te) + length (te_ValidatorAdds te) + length (seals_enc (te_CommittedSeal te))
   <= length (ref_encode (extra_gval te)))%nat.
Proof.
  rewrite extra_enc. unfold ref_list. rewrite !length_app.
  pose proof (length_ref_string (te_Seal te)).
  pose proof (length_ref_string (te_ValidatorAdds te)). lia.
Qed.

Lemma extra_size te n :
  (length (te_Seal te) + length (te_ValidatorAdds te) + length (seals_enc (te_CommittedSeal te)) <= n)%nat ->
  Z.of_nat n < 2 ^ 63 -> fits (extra_gval te).
Proof.
  intros Hn Hb. rewrite extra_enc.
  pose proof (length_ref_string_le (te_Seal te) ltac:(lia)).
  pose proof (length_ref_string_le (te_ValidatorAdds te) ltac:(lia)).
  match goal with |- context [ref_list ?p] =>
    assert (length p <= n + 18)%nat by (rewrite !length_app; lia);
    pose proof (length_ref_list_le p ltac:(lia)) end.
  lia.
Qed.

Lemma committed_fits h te seals :
  ExtractTendermintExtra h = inr te -> Z.of_nat (length (h_Extra h)) < 2 ^ 62 ->
  Forall (fun s => length s = TendermintExtraSeal) seals -> Z.of_nat (length seals) < 2 ^ 32 ->
  fits (extra_gval (MkExtra (te_Seal te) seals (te_ValidatorAdds te))).
Proof.
  intros He Hl Hs Hn. pose proof (Extract_inv h te He) as Hx.
  assert (Hlen : (length (ref_encode (extra_gval te)) <= length (h_Extra h))%nat)
    by (apply (f_equal length) in Hx; rewrite length_app in Hx; lia).
  pose proof (extra_parts te).
  pose proof (length_concat_strings seals 65) as Hc. specialize (Hc ltac:(eapply Forall_impl; [done|]; intros ? ->; done) ltac:(lia)).
  apply (extra_size _ (length (h_Extra h) + length seals * 74 + 9)); cbn [te_Seal te_CommittedSeal te_ValidatorAdds]; [|lia].
  unfold seals_enc.
  assert (Hlt : Z.of_nat (length (concat (ref_encode <$> (GBytes <$> seals)))) < 2 ^ 64) by lia.
  pose proof (length_ref_list_le (concat (ref_encode <$> (GBytes <$> seals))) Hlt). lia.
Qed.
End extra.

(** ** What a header hash commits to *)
Section binding.
Definition header_pre (h : Header) : bytes :=
  concat (ref_encode <$>
    [GByteArray (bytes_of (h_ParentHash h)); GByteArray (bytes_of (h_UncleHash h));
     GByteArray (bytes_of (h_Coinbase h)); GByteArray (bytes_of (h_Root h));
     GByteArray (bytes_of (h_TxHash h)); GByteArray (bytes_of (h_ReceiptHash h));
     GByteArray (bytes_of (h_Bloom h)); GBigInt (h_Difficulty h); GBigInt (h_Number h);
     GUint (h_GasLimit h); GUint (h_GasUsed h); GUint (h_Time h)]).

Definition header_post (h : Header) : bytes :=
  concat (ref_encode <$> [GByteArray (bytes_of (h_MixDigest h)); GByteArray (bytes_of (h_Nonce h))]).

Lemma header_enc h e :
  ref_encode (header_gval (with_Extra h e)) = ref_list (header_pre h ++ ref_string e ++ header_post h).
Proof.
  unfold header_gval, header_pre, header_post. cbn [ref_encode with_Extra h_ParentHash h_UncleHash
    h_Coinbase h_Root h_TxHash h_ReceiptHash h_Bloom h_Difficulty h_Number h_GasLimit h_GasUsed
    h_Time h_Extra h_MixDigest h_Nonce]. f_equal. csimpl.
  by rewrite !app_nil_r, <- !app_assoc.
Qed.

Lemma ref_string_long b : (2 <= length b)%nat -> ref_string b = hdr KString (Z.of_nat (length b)) ++ b.
Proof. destruct b as [|? [|? b]]; simpl; [lia|lia|done]. Qed.

Lemma length_ref_string_mono a b :
  (2 <= length a <= length b)%nat -> Z.of_nat (length b) < 2 ^ 64 ->
  (length (ref_string a) <= length (ref_string b))%nat.
Proof.
  intros Hab Hb. rewrite !ref_string_long, !length_app by lia.
  pose proof (length_puthead 0x80 0xB7 (Z.of_nat (length a)) ltac:(lia)).
  pose proof (length_puthead 0x80 0xB7 (Z.of_nat (length b)) ltac:(lia)).
  pose proof (headsize_mono (Z.of_nat (length a)) (Z.of_nat (length b)) ltac:(lia) ltac:(lia)).
  simpl in *. lia.
Qed.

Lemma CopyHeader_ok h : header_ok h = true -> CopyHeader h = h.
Proof.
  unfold header_ok. destruct h; simpl. by repeat case_match.
Qed.

Lemma length_extra_mono te keep :
  fits (extra_gval te) ->
  (length (ref_encode (extra_gval (MkExtra (if keep : bool then te_Seal te else []) [] [])))
   <= length (ref_encode (extra_gval te)))%nat.
Proof.
  intros Hf. rewrite !extra_enc in *. apply ref_list_mono; [|done]. rewrite !length_app.
  cbn [te_Seal te_CommittedSeal te_ValidatorAdds].
  pose proof (ref_string_pos (te_Seal te)). pose proof (ref_string_pos (te_ValidatorAdds te)).
  assert (length (ref_string []) = 1%nat) as H1 by done.
  assert (length (seals_enc []) = 1%nat) as H2 by done.
  pose proof (length_hd_pos KList (Z.of_nat (length (concat (ref_encode <$> (GBytes <$> te_CommittedSeal te)))))) as Hh.
  assert (1 <= length (seals_enc (te_CommittedSeal te)))%nat as H3.
  { unfold seals_enc, ref_list. rewrite length_app. cbn [tags fst snd] in Hh. lia. }
  destruct keep; lia.
Qed.

(** The header that is hashed, and its encoded size. *)
Lemma Filtered_ok h te :
  header_ok h = true -> ExtractTendermintExtra h = inr te ->
  Z.of_nat (length (ref_encode (header_gval h))) < 2 ^ 62 ->
  let e := take TendermintExtraVanity (h_Extra h)
             ++ ref_encode (extra_gval (MkExtra (te_Seal te) [] [])) in
  TendermintFilteredHeader h true = Some (with_Extra h e) /\ fits (header_gval (with_Extra h e)).
Proof.
  intros Hok He Hl e. pose proof (Extract_inv h te He) as Hx. pose proof (Extract_length h te He) as Hv.
  assert (Hle : (length (h_Extra h) <= length (ref_encode (header_gval h)))%nat).
  { rewrite <- (with_Extra_id h) at 2. rewrite header_enc. unfold ref_list.
    rewrite !length_app. pose proof (length_ref_string (h_Extra h)). lia. }
  assert (Hf : fits (extra_gval te)) by (eapply Extract_fits; [done|lia]).
  split; [by rewrite (Filtered_eq h te true He Hf), CopyHeader_ok|].
  assert (Hlen : (2 <= length e <= length (h_Extra h))%nat).
  { pose proof (length_extra_mono te true Hf) as Hm. cbv beta iota in Hm.
    apply (f_equal length) in Hx. unfold e. rewrite !length_app in *.
    assert (length (take TendermintExtraVanity (h_Extra h)) = TendermintExtraVanity) as ->
      by (rewrite length_take; lia).
    assert (TendermintExtraVanity = 32%nat) by done. rewrite length_take in Hx. lia. }
  assert (Hex : Z.of_nat (length (h_Extra h)) < 2 ^ 64) by lia.
  rewrite <- (with_Extra_id h), header_enc in Hl.
  eapply Z.le_lt_trans; [|exact (Z.lt_trans _ _ (2 ^ 64) Hl eq_refl)]. apply inj_le.
  rewrite header_enc. apply ref_list_mono; [|lia]. rewrite !length_app.
  pose proof (length_ref_string_mono e (h_Extra h) Hlen Hex). lia.
Qed.

Lemma header_ok_Extra h e : header_ok (with_Extra h e) = header_ok h.
Proof. done. Qed.

Lemma header_enc_inj h1 h2 :
  header_ok h1 = true -> header_ok h2 = true -> fits (header_gval h1) ->
  ref_encode (header_gval h1) = ref_encode (header_gval h2) -> h1 = h2.
Proof.
  intros H1 H2 Hf Heq. pose proof (DecodeBytes_ty _ _ (header_has_ty h1 H1) Hf) as D1.
  rewrite Heq in Hf. pose proof (DecodeBytes_ty _ _ (header_has_ty h2 H2) Hf) as D2.
  rewrite Heq, D2 in D1. apply (inj inr), (f_equal header_of_gval) in D1.
  rewrite !header_of_gval_gval in D1. by simplify_eq.
Qed.

Lemma extra_enc_inj te1 te2 :
  fits (extra_gval te1) -> ref_encode (extra_gval te1) = ref_encode (extra_gval te2) -> te1 = te2.
Proof.
  intros Hf Heq. pose proof (DecodeBytes_ty _ _ (extra_has_ty te1) Hf) as D1.
  rewrite Heq in Hf. pose proof (DecodeBytes_ty _ _ (extra_has_ty te2) Hf) as D2.
  rewrite Heq, D2 in D1. apply (inj inr), (f_equal extra_of_gval) in D1.
  rewrite !extra_of_gval_gval in D1. by simplify_eq.
Qed.
End binding.

(** ** Validator lists *)
Section valset.
Lemma address_ty (a : Address) : has_ty (TByteArray 20) (GByteArray (bytes_of a)) = true.
Proof. by apply (array_ty AddressLength). Qed.

Lemma addresses_has_ty l : has_ty (TSlice (TByteArray 20)) (addresses_gval l) = true.
Proof.
  unfold addresses_gval. cbn [has_ty]. apply forallb_forall. intros v Hv%list_elem_of_In.
  apply list_elem_of_fmap in Hv as (a & -> & _). apply address_ty.
Qed.

Lemma addresses_of_gval_gval l : addresses_of_gval (addresses_gval l) = Some l.
Proof. apply mapM_of_gval. intros a. simpl. by rewrite mk_bytesN_of. Qed.

Lemma length_addresses_le l :
  Z.of_nat (length l) < 2 ^ 32 ->
  (length (ref_encode (addresses_gval l)) <= length l * 29 + 9)%nat.
Proof.
  intros Hl. unfold addresses_gval. cbn [ref_encode].
  set (f := fun a : Address => GByteArray (bytes_of a)).
  assert (Hc : (length (concat (ref_encode <$> (f <$> l))) <= length l * 29)%nat).
  { clear Hl. induction l as [|a l IH]; csimpl; [lia|]. rewrite length_app.
    change (ref_encode (f a)) with (ref_string (bytes_of a)).
    pose proof (length_ref_string_le (bytes_of a)) as Ha. rewrite bytes_of_length in Ha.
    assert (AddressLength = 20%nat) as HA by done. specialize (Ha ltac:(lia)). lia. }
  assert (Hlt : Z.of_nat (length (concat (ref_encode <$> (f <$> l)))) < 2 ^ 64) by lia.
  eapply Nat.le_trans; [exact (length_ref_list_le _ Hlt)|]. lia.
Qed.

Lemma part_fits h te te' n :
  ExtractTendermintExtra h = inr te -> Z.of_nat (length (h_Extra h)) < 2 ^ 62 ->
  te_CommittedSeal te' = te_CommittedSeal te -> Z.of_nat n < 2 ^ 62 ->
  (length (te_Seal te') + length (te_ValidatorAdds te')
   <= length (te_Seal te) + length (te_ValidatorAdds te) + n)%nat -> fits (extra_gval te').
Proof.
  intros He Hl Hc Hn Hle. pose proof (Extract_inv h te He) as Hx.
  apply (f_equal length) in Hx. rewrite length_app in Hx. pose proof (extra_parts te).
  apply (extra_size te' (length (h_Extra h) + n)); [rewrite Hc; lia|lia].
Qed.

(** Reading the validators an extra holds. *)
Lemma GetValSetAddresses_enc h te vals :
  ExtractTendermintExtra h = inr te -> te_ValidatorAdds te = ref_encode (addresses_gval vals) ->
  Z.of_nat (length vals) < 2 ^ 32 -> GetValSetAddresses h = inr vals.
Proof.
  intros He Hv Hn. pose proof (length_addresses_le vals Hn).
  assert (Hf : fits (addresses_gval vals)) by lia. unfold GetValSetAddresses. rewrite He, Hv.
  pose proof (ref_encode_pos _ _ (addresses_has_ty vals)). rewrite (proj2 (Nat.eqb_neq _ _)) by lia.
  rewrite (DecodeBytes_ty _ _ (addresses_has_ty vals) Hf). by rewrite addresses_of_gval_gval.
Qed.

Lemma WriteValSet_eq h te vals :
  ExtractTendermintExtra h = inr te -> Z.of_nat (length (h_Extra h)) < 2 ^ 62 -> Z.of_nat (length vals) < 2 ^ 32 ->
  let te' := MkExtra (te_Seal te) (te_CommittedSeal te) (ref_encode (addresses_gval vals)) in
  fits (extra_gval te') /\ WriteValSet h vals = put_extra h te'.
Proof.
  intros He Hl Hn te'. pose proof (length_addresses_le vals Hn) as Hv. split.
  - apply (part_fits h te te' (length vals * 29 + 9)); try done; [lia|]. cbn [te_Seal te_ValidatorAdds te']. lia.
  - assert (Hf : fits (addresses_gval vals)) by lia.
    unfold WriteValSet. by rewrite He, (EncodeToBytes_ty _ _ (addresses_has_ty vals) Hf).
Qed.

Lemma WriteSeal_eq h te seal :
  ExtractTendermintExtra h = inr te -> Z.of_nat (length (h_Extra h)) < 2 ^ 62 -> length seal = TendermintExtraSeal ->
  let te' := MkExtra seal (te_CommittedSeal te) (te_ValidatorAdds te) in
  fits (extra_gval te') /\ WriteSeal h seal = put_extra h te'.
Proof.
  intros He Hl Hs te'. split.
  - apply (part_fits h te te' 65); try done. cbn [te_Seal te_ValidatorAdds te']. rewrite Hs. change TendermintExtraSeal with 65%nat. lia.
  - unfold WriteSeal. by rewrite Hs, Nat.Div0.mod_same, He.
Qed.
End valset.

(** ** Sealed headers *)
Section sealed.
Context `{Crypto}.

(** Sealing changes the extra data only. *)
Lemma WriteCommittedSeals_Extra h seals h' :
  WriteCommittedSeals h seals = inr h' -> h' = with_Extra h (h_Extra h').
Proof.
  unfold WriteCommittedSeals, put_extra. intros Hw. repeat case_match; try done; by simplify_eq.
Qed.

Lemma WriteCommittedSeals_inv h seals h' :
  WriteCommittedSeals h seals = inr h' ->
  Forall (fun s => length s = TendermintExtraSeal) seals /\
  exists te, ExtractTendermintExtra h = inr te /\
    put_extra h (MkExtra (te_Seal te) seals (te_ValidatorAdds te)) = inr h'.
Proof.
  unfold WriteCommittedSeals. destruct seals as [|s0 sl]; [done|].
  destruct (forallb _ _) eqn:Hall; [|done]. cbn [negb].
  destruct (ExtractTendermintExtra h) as [e|te]; [done|]. intros Hp. split; [|by exists te].
  rewrite forallb_forall in Hall. apply Forall_forall. intros x Hx%list_elem_of_In.
  by apply Nat.eqb_eq, Hall.
Qed.

Lemma rewritten_Hash h te te' h' :
  h_MixDigest h = TendermintDigest -> ExtractTendermintExtra h = inr te ->
  fits (extra_gval te) -> fits (extra_gval te') -> put_extra h te' = inr h' -> te_Seal te' = te_Seal te ->
  Header_Hash h' = Header_Hash h.
Proof.
  intros Hm He Hf Hf' Hp Hs. pose proof Hp as Hp'. rewrite put_extra_eq in Hp' by done. apply (inj inr) in Hp'.
  unfold Header_Hash. replace (h_MixDigest h') with (h_MixDigest h) by by subst h'.
  rewrite bool_decide_eq_true_2 by done. rewrite (Filtered_rewritten h te te' h' true) by done.
  by rewrite (Filtered_eq h te true He Hf).
Qed.

Lemma Hash_CopyHeader h te :
  h_MixDigest h = TendermintDigest -> ExtractTendermintExtra h = inr te -> fits (extra_gval te) ->
  Header_Hash (CopyHeader h) = Header_Hash h.
Proof.
  intros Hm He Hf. unfold Header_Hash. cbn [CopyHeader h_MixDigest]. rewrite bool_decide_eq_true_2 by done.
  by rewrite (Filtered_eq h te true He Hf), (Filtered_eq (CopyHeader h) te true He Hf).
Qed.

(** A header small enough to be sealed. *)
Definition sealable (h : Header) (seals : list bytes) : Prop :=
  h_MixDigest h = TendermintDigest /\ Z.of_nat (length (h_Extra h)) < 2 ^ 62 /\ Z.of_nat (length seals) < 2 ^ 32.

Lemma sealed_Hash h seals h' :
  WriteCommittedSeals (CopyHeader h) seals = inr h' -> sealable h seals -> Header_Hash h' = Header_Hash h.
Proof.
  intros (Hs & te & He & Hp)%WriteCommittedSeals_inv (Hm & Hl & Hn).
  pose proof (Extract_fits (CopyHeader h) te He Hl) as Hf.
  pose proof (committed_fits (CopyHeader h) te seals He Hl Hs Hn) as Hf'.
  rewrite <- (Hash_CopyHeader h te Hm He Hf). by apply (rewritten_Hash (CopyHeader h) te _ _ Hm He Hf Hf' Hp).
Qed.
End sealed.

(** ** Properties *)
Section properties.
Context `{Crypto}.

(** Committing a block does not change its hash. [WriteCommittedSeals] on a
    Tendermint header with decodable extra data succeeds for well-formed seals, leaves
    the block hash unchanged, and the seals can be read back. *)
Theorem WriteCommittedSeals_hash (h : Header) (te : TendermintExtra) (seals : list bytes) :
  ExtractTendermintExtra h = inr te -> Z.of_nat (length (h_Extra h)) < 2 ^ 62 ->
  seals <> [] -> Forall (fun s => length s = TendermintExtraSeal) seals ->
  Z.of_nat (length seals) < 2 ^ 32 -> h_MixDigest h = TendermintDigest ->
  exists h', WriteCommittedSeals h seals = inr h' /\ Header_Hash h' = Header_Hash h /\
    ExtractTendermintExtra h' = inr (MkExtra (te_Seal te) seals (te_ValidatorAdds te)).
Proof.
  intros He Hl Hne Hs Hn Hm. pose proof (committed_fits h te seals He Hl Hs Hn) as Hf.
  pose proof (put_extra_eq h _ Hf) as Hp.
  eexists. split; [|split].
  - unfold WriteCommittedSeals. destruct seals as [|s0 sl]; [done|].
    assert (Hall : forallb (fun seal => (length seal =? TendermintExtraSeal)%nat) (s0 :: sl) = true).
    { apply forallb_forall. rewrite Forall_forall in Hs. intros x Hx%list_elem_of_In.
      rewrite (Hs x Hx). apply Nat.eqb_refl. }
    rewrite Hall, He. exact Hp.
  - by apply (rewritten_Hash h te _ _ Hm He (Extract_fits h te He Hl) Hf Hp).
  - apply Extract_put; [done|by eapply Extract_length].
Qed.

(** The signature of the proposer covers neither its own seal, nor the committed
    seals, nor the validator list. Writing any of the three keeps [SigHash], so a seal
    made before they are written still verifies after. *)
Theorem SigHash_rewritten (h : Header) (te te' : TendermintExtra) (h' : Header) :
  ExtractTendermintExtra h = inr te -> Z.of_nat (length (h_Extra h)) < 2 ^ 62 ->
  Z.of_nat (length (ref_encode (extra_gval te'))) < 2 ^ 64 ->
  put_extra h te' = inr h' -> SigHash h' = SigHash h.
Proof.
  intros He Hl Hf Hp. unfold SigHash.
  by rewrite (Filtered_rewritten h te te' h' false He (Extract_fits h te He Hl) Hf Hp I).
Qed.

(** The validator list written to an epoch header can be read back, and neither the
    block hash nor the proposer's signature depends on it. *)
Theorem WriteValSet_roundtrip (h : Header) (te : TendermintExtra) (vals : list Address) :
  ExtractTendermintExtra h = inr te -> Z.of_nat (length (h_Extra h)) < 2 ^ 62 ->
  Z.of_nat (length vals) < 2 ^ 32 -> h_MixDigest h = TendermintDigest ->
  exists h', WriteValSet h vals = inr h' /\ GetValSetAddresses h' = inr vals /\
    Header_Hash h' = Header_Hash h /\ SigHash h' = SigHash h.
Proof.
  intros He Hl Hn Hm. destruct (WriteValSet_eq h te vals He Hl Hn) as [Hf ->].
  set (te' := MkExtra _ _ _) in *. pose proof (put_extra_eq h _ Hf) as Hp. pose proof (Extract_fits h te He Hl) as Hf0.
  eexists. split_and!; [exact Hp|..].
  - exact (GetValSetAddresses_enc _ te' vals (Extract_put h te' Hf (Extract_length h te He)) eq_refl Hn).
  - by apply (rewritten_Hash h te te' _ Hm He Hf0 Hf Hp).
  - unfold SigHash. by rewrite (Filtered_rewritten h te te' _ false He Hf0 Hf Hp I).
Qed.

Lemma Header_Hash_preimage h : Header_Hash h = keccak256 (header_preimage h).
Proof.
  unfold Header_Hash, header_preimage, rlpHash. destruct (bool_decide _); [|done].
  by destruct (TendermintFilteredHeader h true).
Qed.

(** C39: a block hash commits to its header. Two Tendermint headers with the same hash
    agree on every field but the extra data, and there on the vanity and the
    proposer's seal, unless Keccak-256 has the same value for the two encodings that are
    hashed though they differ. *)
Theorem Header_Hash_binding (h1 h2 : Header) (te1 te2 : TendermintExtra) :
  header_ok h1 = true -> header_ok h2 = true ->
  h_MixDigest h1 = TendermintDigest -> h_MixDigest h2 = TendermintDigest ->
  ExtractTendermintExtra h1 = inr te1 -> ExtractTendermintExtra h2 = inr te2 ->
  Z.of_nat (length (ref_encode (header_gval h1))) < 2 ^ 62 ->
  Z.of_nat (length (ref_encode (header_gval h2))) < 2 ^ 62 ->
  no_collision (header_preimage h1) (header_preimage h2) ->
  Header_Hash h1 = Header_Hash h2 ->
  with_Extra h1 [] = with_Extra h2 [] /\
  take TendermintExtraVanity (h_Extra h1) = take TendermintExtraVanity (h_Extra h2) /\
  te_Seal te1 = te_Seal te2.
Proof.
  intros Hok1 Hok2 Hm1 Hm2 He1 He2 Hl1 Hl2 Hnc Heq.
  destruct (Filtered_ok h1 te1 Hok1 He1 Hl1) as [F1 S1].
  destruct (Filtered_ok h2 te2 Hok2 He2 Hl2) as [F2 S2].
  rewrite !Header_Hash_preimage in Heq. apply Hnc in Heq. clear Hnc. revert Heq.
  unfold header_preimage. rewrite !bool_decide_eq_true_2, F1, F2 by done. cbn [default from_option id].
  unfold hash_input.
  rewrite (Encode_ty _ _ (header_has_ty (with_Extra h1 _) Hok1) S1).
  rewrite (Encode_ty _ _ (header_has_ty (with_Extra h2 _) Hok2) S2).
  intros Heq. apply header_enc_inj in Heq; [|done..].
  split; [apply (f_equal (fun h => with_Extra h [])) in Heq; by destruct h1, h2|].
  apply (f_equal h_Extra) in Heq. cbn [with_Extra h_Extra] in Heq.
  assert (length (take TendermintExtraVanity (h_Extra h1)) = length (take TendermintExtraVanity (h_Extra h2))) as Hlen.
  { apply Extract_length in He1, He2. rewrite !length_take. lia. }
  apply app_inj_1 in Heq as [Ht Hs]; [|done]. split; [done|].
  apply extra_enc_inj in Hs; [by injection Hs|].
  eapply (fits_filtered te1 true), Extract_fits; [done|].
  rewrite <- (with_Extra_id h1), header_enc in Hl1. unfold ref_list in Hl1.
  rewrite !length_app in Hl1. pose proof (length_ref_string (h_Extra h1)). lia.
Qed.
End properties.

(** The checkpoint of a block is the last multiple of the epoch before it. *)
Lemma GetCheckpointNumber_eq epoch n :
  0 < epoch < 2 ^ 64 -> 0 < n < 2 ^ 64 -> GetCheckpointNumber epoch n = Ok (n - 1 - (n - 1) mod epoch).
Proof.
  intros He Hn. unfold GetCheckpointNumber. rewrite (proj2 (Z.eqb_neq n 0)) by lia. cbn [orb].
  pose proof (Z.div_mod (n - 1) epoch ltac:(lia)) as Hd. pose proof (Z.mod_pos_bound (n - 1) epoch ltac:(lia)).
  assert (0 <= (n - 1) / epoch) by (apply Z.div_pos; lia).
  destruct (Z.ltb_spec n epoch); [rewrite Z.mod_small by lia; f_equal; lia|].
  rewrite (proj2 (Z.eqb_neq epoch 0)), (uint64_id (n - 1)), uint64_id by nia. f_equal. lia.
Qed.

(** The checkpoint of a block is the last epoch boundary before it: a multiple of
    the epoch, at most one epoch behind, and strictly below every block but the
    genesis. *)
Theorem GetCheckpointNumber_spec (epoch n : Z) :
  0 < epoch < 2 ^ 64 -> 0 <= n < 2 ^ 64 ->
  exists c, GetCheckpointNumber epoch n = Ok c /\ (epoch | c) /\ 0 <= c <= n /\
    n <= c + epoch /\ (0 < n -> c < n).
Proof.
  intros He Hn. unfold GetCheckpointNumber.
  destruct (Z.eqb_spec n 0) as [->|]; simpl.
  { exists 0. split_and!; try done; [apply Z.divide_0_r|lia]. }
  destruct (Z.ltb_spec n epoch).
  { exists 0. split_and!; try done; [apply Z.divide_0_r|lia..]. }
  rewrite (proj2 (Z.eqb_neq epoch 0)), (uint64_id (n - 1)) by lia.
  pose proof (Z.div_mod (n - 1) epoch ltac:(lia)) as Hd.
  pose proof (Z.mod_pos_bound (n - 1) epoch ltac:(lia)) as Hm.
  assert (0 <= (n - 1) / epoch) by (apply Z.div_pos; lia).
  exists (epoch * ((n - 1) / epoch)). rewrite uint64_id by nia.
  split_and!; [done|apply Z.divide_factor_l|nia|lia|lia|lia].
Qed.

(** ** Instances *)
(** A concrete instance of the cryptography, with a key as its own public address. *)
Definition demo_hash (b : bytes) : Hash :=
  let mask := Z.ones 32 in
  BigToHash (foldl (fun acc x => Z.land (31 * acc + Z_of_byte x + 1) mask) 0 b).

Definition demo_crypto : Crypto := {|
  keccak256 := demo_hash;
  sha3_256 := demo_hash;
  PrivateKey := Address;
  PubkeyAddress := fun k => k;
  Sign := fun h k => Some (replicate 45 (byte_of_Z 0) ++ bytes_of k);
  SigToAddress := fun h sig => Some (BytesToAddress sig)
|}.

Lemma demo_crypto_laws : CryptoLaws demo_crypto.
Proof.
  split; intros h k sig H; apply (inj Some) in H as <-.
  - apply (f_equal Some), (inj bytes_of), (fit_app AddressLength), bytes_of_length.
  - rewrite length_app, bytes_of_length. done.
Qed.

Definition demo_header : Header :=
  MkHeader zeroHash zeroHash zeroAddress zeroHash zeroHash zeroHash (mk_bytesN _ [])
    (Some 1) (Some 7) 1000 10 1600000000
    (replicate 32 (byte_of_Z 0) ++ ref_encode (extra_gval (MkExtra [] [] []))) zeroHash (mk_bytesN _ []).

Definition demo_seals : list bytes := [replicate 65 (byte_of_Z 1); replicate 65 (byte_of_Z 2)].

Lemma WriteCommittedSeals_hash_witness :
  exists h', WriteCommittedSeals demo_header demo_seals = inr h' /\
    @Header_Hash demo_crypto h' = @Header_Hash demo_crypto demo_header /\
    ExtractTendermintExtra h' = inr (MkExtra [] demo_seals []).
Proof.
  apply (@WriteCommittedSeals_hash demo_crypto demo_header (MkExtra [] [] []));
    [vm_compute; reflexivity|vm_compute; reflexivity|discriminate|repeat constructor
    |vm_compute; reflexivity|vm_compute; reflexivity].
Defined.

Lemma SigHash_rewritten_witness :
  exists h', put_extra demo_header (MkExtra (replicate 65 (byte_of_Z 3)) demo_seals []) = inr h' /\
    @SigHash demo_crypto h' = @SigHash demo_crypto demo_header.
Proof.
  eexists. split; [vm_compute; reflexivity|].
  apply (@SigHash_rewritten demo_crypto demo_header (MkExtra [] [] [])
           (MkExtra (replicate 65 (byte_of_Z 3)) demo_seals [])); vm_compute; reflexivity.
Defined.

Lemma WriteValSet_roundtrip_witness :
  exists h', WriteValSet demo_header [BigToAddress 5; BigToAddress 9] = inr h' /\
    GetValSetAddresses h' = inr [BigToAddress 5; BigToAddress 9] /\
    @Header_Hash demo_crypto h' = @Header_Hash demo_crypto demo_header /\
    @SigHash demo_crypto h' = @SigHash demo_crypto demo_header.
Proof.
  apply (@WriteValSet_roundtrip demo_crypto demo_header (MkExtra [] [] [])); vm_compute; reflexivity.
Defined.

(** The same block, with committed seals. *)
Definition sealed_header : Header :=
  with_Extra demo_header (replicate 32 (byte_of_Z 0) ++ ref_encode (extra_gval (MkExtra [] demo_seals []))).

Lemma Header_Hash_binding_witness :
  with_Extra demo_header [] = with_Extra sealed_header [] /\
  take TendermintExtraVanity (h_Extra demo_header) = take TendermintExtraVanity (h_Extra sealed_header) /\
  te_Seal (MkExtra [] [] []) = te_Seal (MkExtra [] demo_seals []).
Proof.
  apply (@Header_Hash_binding demo_crypto demo_header sealed_header (MkExtra [] [] []) (MkExtra [] demo_seals []));
    [vm_compute; reflexivity..|intros _; vm_compute; reflexivity|vm_compute; reflexivity].
Defined.

Lemma GetCheckpointNumber_spec_witness :
  exists c, GetCheckpointNumber 30 61 = Ok c /\ (30 | c) /\ 0 <= c <= 61 /\
    61 <= c + 30 /\ (0 < 61 -> c < 61).
Proof. apply GetCheckpointNumber_spec; lia. Defined.
