(* ===== verification/Params.v ===== *)
(** * Chain parameters

    Models [src/params]: the gas prices of [protocol_params.go] and [gas_table.go], and of
    [config.go] the forks of a chain and the check that a changed configuration does not
    alter the past. *)

From S2P Require Import Prelude Bytes Types.

(** ** Gas prices *)
Definition GasLimitBoundDivisor : Z := 1024.
Definition MinGasLimit : Z := 5000.
Definition CallValueTransferGas : Z := 9000.
Definition CallNewAccountGas : Z := 25000.
Definition TxGas : Z := 21000.
Definition TxGasContractCreation : Z := 53000.
Definition TxDataZeroGas : Z := 4.
Definition QuadCoeffDiv : Z := 512.
Definition LogDataGas : Z := 8.
Definition CallStipend : Z := 2300.
Definition Sha3Gas : Z := 30.
Definition Sha3WordGas : Z := 6.
Definition SstoreSetGas : Z := 20000.
Definition SstoreResetGas : Z := 5000.
Definition SstoreClearGas : Z := 5000.
Definition SstoreRefundGas : Z := 15000.
Definition NetSstoreNoopGas : Z := 200.
Definition NetSstoreInitGas : Z := 20000.
Definition NetSstoreCleanGas : Z := 5000.
Definition NetSstoreDirtyGas : Z := 200.
Definition NetSstoreClearRefund : Z := 15000.
Definition NetSstoreResetRefund : Z := 4800.
Definition NetSstoreResetClearRefund : Z := 19800.
Definition JumpdestGas : Z := 1.
Definition CreateDataGas : Z := 200.
Definition CallCreateDepth : Z := 1024.
Definition ExpGas : Z := 10.
Definition LogGas : Z := 375.
Definition CopyGas : Z := 3.
Definition StackLimit : Z := 1024.
Definition LogTopicGas : Z := 375.
Definition CreateGas : Z := 32000.
Definition Create2Gas : Z := 32000.
Definition SuicideRefundGas : Z := 24000.
Definition MemoryGas : Z := 3.
Definition TxDataNonZeroGas : Z := 68.
Definition MaxCodeSize : Z := 24576.
Definition EcrecoverGas : Z := 3000.
Definition Sha256BaseGas : Z := 60.
Definition Sha256PerWordGas : Z := 12.
Definition Ripemd160BaseGas : Z := 600.
Definition Ripemd160PerWordGas : Z := 120.
Definition IdentityBaseGas : Z := 15.
Definition IdentityPerWordGas : Z := 3.
Definition ModExpQuadCoeffDiv : Z := 20.
Definition Bn256AddGas : Z := 500.
Definition Bn256ScalarMulGas : Z := 40000.
Definition Bn256PairingBaseGas : Z := 100000.
Definition Bn256PairingPerPointGas : Z := 80000.

Record GasTable : Type := MkGasTable {
  gt_ExtcodeSize : Z;
  gt_ExtcodeCopy : Z;
  gt_ExtcodeHash : Z;
  gt_Balance : Z;
  gt_SLoad : Z;
  gt_Calls : Z;
  gt_Suicide : Z;
  gt_ExpByte : Z;
  gt_CreateBySuicide : Z
}.

Definition GasTableHomestead : GasTable := MkGasTable 20 20 0 20 50 40 0 10 0.
Definition GasTableEIP150 : GasTable := MkGasTable 700 700 0 400 200 700 5000 10 25000.
Definition GasTableEIP158 : GasTable := MkGasTable 700 700 0 400 200 700 5000 50 25000.
Definition GasTableConstantinople : GasTable := MkGasTable 700 700 400 400 200 700 5000 50 25000.

(** ** The configuration of a chain

    A nil block number is [None]. The configurations of the consensus engines, which the
    forks do not depend on, are left out. *)
Record ChainConfig : Type := MkChainConfig {
  cc_ChainID : option Z;
  cc_GasPrice : option Z;
  cc_HomesteadBlock : option Z;
  cc_DAOForkBlock : option Z;
  cc_DAOForkSupport : bool;
  cc_EIP150Block : option Z;
  cc_EIP155Block : option Z;
  cc_EIP158Block : option Z;
  cc_ByzantiumBlock : option Z;
  cc_ConstantinopleBlock : option Z;
  cc_PetersburgBlock : option Z;
  cc_EWASMBlock : option Z
}.

Definition isForked (s head : option Z) : bool :=
  match s, head with
  | Some s, Some head => s <=? head
  | _, _ => false
  end.

Definition IsHomestead (c : ChainConfig) (num : Z) : bool := isForked (cc_HomesteadBlock c) (Some num).
Definition IsDAOFork (c : ChainConfig) (num : Z) : bool := isForked (cc_DAOForkBlock c) (Some num).
Definition IsEIP150 (c : ChainConfig) (num : Z) : bool := isForked (cc_EIP150Block c) (Some num).
Definition IsEIP155 (c : ChainConfig) (num : Z) : bool := isForked (cc_EIP155Block c) (Some num).
Definition IsEIP158 (c : ChainConfig) (num : Z) : bool := isForked (cc_EIP158Block c) (Some num).
Definition IsByzantium (c : ChainConfig) (num : Z) : bool := isForked (cc_ByzantiumBlock c) (Some num).
Definition IsConstantinople (c : ChainConfig) (num : Z) : bool := isForked (cc_ConstantinopleBlock c) (Some num).
Definition IsPetersburg (c : ChainConfig) (num : Z) : bool :=
  isForked (cc_PetersburgBlock c) (Some num) ||
  bool_decide (cc_PetersburgBlock c = None) && isForked (cc_ConstantinopleBlock c) (Some num).
Definition IsEWASM (c : ChainConfig) (num : Z) : bool := isForked (cc_EWASMBlock c) (Some num).

Definition GasTable_of (c : ChainConfig) (num : option Z) : GasTable :=
  match num with
  | None => GasTableHomestead
  | Some num =>
      if IsConstantinople c num then GasTableConstantinople
      else if IsEIP158 c num then GasTableEIP158
      else if IsEIP150 c num then GasTableEIP150
      else GasTableHomestead
  end.

Record Rules : Type := MkRules {
  r_ChainID : Z;
  r_IsHomestead : bool; r_IsEIP150 : bool; r_IsEIP155 : bool; r_IsEIP158 : bool;
  r_IsByzantium : bool; r_IsConstantinople : bool; r_IsPetersburg : bool
}.

Definition Rules_of (c : ChainConfig) (num : Z) : Rules :=
  MkRules (default 0 (cc_ChainID c)) (IsHomestead c num) (IsEIP150 c num) (IsEIP155 c num) (IsEIP158 c num)
    (IsByzantium c num) (IsConstantinople c num) (IsPetersburg c num).

(** ** Compatible configurations *)
Definition configNumEqual (x y : option Z) : bool :=
  match x, y with
  | None, None => true
  | Some x, Some y => x =? y
  | _, _ => false
  end.

Definition isForkIncompatible (s1 s2 head : option Z) : bool :=
  (isForked s1 head || isForked s2 head) && negb (configNumEqual s1 s2).

Record ConfigCompatError : Type := MkCompatError {
  ce_What : string;
  ce_StoredConfig : option Z;
  ce_NewConfig : option Z;
  ce_RewindTo : Z
}.

Definition newCompatError (what : string) (storedblock newblock : option Z) : ConfigCompatError :=
  let rew :=
    match storedblock, newblock with
    | None, _ => newblock
    | Some _, None => storedblock
    | Some s, Some n => if s <? n then storedblock else newblock
    end in
  let rewind := match rew with Some r => if 0 <? r then uint64 (uint64 r - 1) else 0 | None => 0 end in
  MkCompatError what storedblock newblock rewind.

Definition checkCompatible (c newcfg : ChainConfig) (head : Z) : option ConfigCompatError :=
  let h := Some head in
  if isForkIncompatible (cc_HomesteadBlock c) (cc_HomesteadBlock newcfg) h then
    Some (newCompatError "Homestead fork block" (cc_HomesteadBlock c) (cc_HomesteadBlock newcfg))
  else if isForkIncompatible (cc_DAOForkBlock c) (cc_DAOForkBlock newcfg) h then
    Some (newCompatError "DAO fork block" (cc_DAOForkBlock c) (cc_DAOForkBlock newcfg))
  else if IsDAOFork c head && negb (Bool.eqb (cc_DAOForkSupport c) (cc_DAOForkSupport newcfg)) then
    Some (newCompatError "DAO fork support flag" (cc_DAOForkBlock c) (cc_DAOForkBlock newcfg))
  else if isForkIncompatible (cc_EIP150Block c) (cc_EIP150Block newcfg) h then
    Some (newCompatError "EIP150 fork block" (cc_EIP150Block c) (cc_EIP150Block newcfg))
  else if isForkIncompatible (cc_EIP155Block c) (cc_EIP155Block newcfg) h then
    Some (newCompatError "EIP155 fork block" (cc_EIP155Block c) (cc_EIP155Block newcfg))
  else if isForkIncompatible (cc_EIP158Block c) (cc_EIP158Block newcfg) h then
    Some (newCompatError "EIP158 fork block" (cc_EIP158Block c) (cc_EIP158Block newcfg))
  else if IsEIP158 c head && negb (configNumEqual (cc_ChainID c) (cc_ChainID newcfg)) then
    Some (newCompatError "EIP158 chain ID" (cc_EIP158Block c) (cc_EIP158Block newcfg))
  else if isForkIncompatible (cc_ByzantiumBlock c) (cc_ByzantiumBlock newcfg) h then
    Some (newCompatError "Byzantium fork block" (cc_ByzantiumBlock c) (cc_ByzantiumBlock newcfg))
  else if isForkIncompatible (cc_ConstantinopleBlock c) (cc_ConstantinopleBlock newcfg) h then
    Some (newCompatError "Constantinople fork block" (cc_ConstantinopleBlock c) (cc_ConstantinopleBlock newcfg))
  else if isForkIncompatible (cc_PetersburgBlock c) (cc_PetersburgBlock newcfg) h then
    Some (newCompatError "ConstantinopleFix fork block" (cc_PetersburgBlock c) (cc_PetersburgBlock newcfg))
  else if isForkIncompatible (cc_EWASMBlock c) (cc_EWASMBlock newcfg) h then
    Some (newCompatError "ewasm fork block" (cc_EWASMBlock c) (cc_EWASMBlock newcfg))
  else None.

(** The loop of [CheckCompatible]: the head goes back to where the last error rewinds to,
    until there is none, or the same again. *)
Fixpoint check_compatible_from (fuel : nat) (c newcfg : ChainConfig) (bhead : Z) (lasterr : option ConfigCompatError)
    : res (option ConfigCompatError) :=
  match fuel with
  | O => OutOfFuel
  | S n =>
      match checkCompatible c newcfg bhead with
      | None => Ok lasterr
      | Some err =>
          match lasterr with
          | Some l => if ce_RewindTo err =? ce_RewindTo l then Ok lasterr
                      else check_compatible_from n c newcfg (ce_RewindTo err) (Some err)
          | None => check_compatible_from n c newcfg (ce_RewindTo err) (Some err)
          end
      end
  end.

Definition CheckCompatible (c newcfg : ChainConfig) (height : Z) : res (option ConfigCompatError) :=
  check_compatible_from (S (S (Z.to_nat height))) c newcfg height None.
