(* ===== verification/EvmData.v ===== *)
(** * Opcodes, numbers, memory and code of the virtual machine

    Models the constants of [src/core/vm/opcodes.go] (an opcode is a byte, here a [Z]),
    [src/common/math/big.go] and [integer.go] as the virtual machine uses them, the
    methods of Go's [big.Int] it calls, and of [src/core/vm] the files [common.go],
    [memory.go] and [analysis.go]. A [big.Int] is a [Z]; its words have 64 bits. *)

From S2P Require Import Prelude Bytes Types Params.


Definition STOP : Z := 0x00.
Definition ADD : Z := 0x01.
Definition MUL : Z := 0x02.
Definition SUB : Z := 0x03.
Definition DIV : Z := 0x04.
Definition SDIV : Z := 0x05.
Definition MOD : Z := 0x06.
Definition SMOD : Z := 0x07.
Definition ADDMOD : Z := 0x08.
Definition MULMOD : Z := 0x09.
Definition EXP : Z := 0x0a.
Definition SIGNEXTEND : Z := 0x0b.
Definition LT : Z := 0x10.
Definition GT : Z := 0x11.
Definition SLT : Z := 0x12.
Definition SGT : Z := 0x13.
Definition EQ : Z := 0x14.
Definition ISZERO : Z := 0x15.
Definition AND : Z := 0x16.
Definition OR : Z := 0x17.
Definition XOR : Z := 0x18.
Definition NOT : Z := 0x19.
Definition BYTE : Z := 0x1a.
Definition SHL : Z := 0x1b.
Definition SHR : Z := 0x1c.
Definition SAR : Z := 0x1d.
Definition SHA3 : Z := 0x20.
Definition ADDRESS : Z := 0x30.
Definition BALANCE : Z := 0x31.
Definition ORIGIN : Z := 0x32.
Definition CALLER : Z := 0x33.
Definition CALLVALUE : Z := 0x34.
Definition CALLDATALOAD : Z := 0x35.
Definition CALLDATASIZE : Z := 0x36.
Definition CALLDATACOPY : Z := 0x37.
Definition CODESIZE : Z := 0x38.
Definition CODECOPY : Z := 0x39.
Definition GASPRICE : Z := 0x3a.
Definition EXTCODESIZE : Z := 0x3b.
Definition EXTCODECOPY : Z := 0x3c.
Definition RETURNDATASIZE : Z := 0x3d.
Definition RETURNDATACOPY : Z := 0x3e.
Definition EXTCODEHASH : Z := 0x3f.
Definition BLOCKHASH : Z := 0x40.
Definition COINBASE : Z := 0x41.
Definition TIMESTAMP : Z := 0x42.
Definition NUMBER : Z := 0x43.
Definition DIFFICULTY : Z := 0x44.
Definition GASLIMIT : Z := 0x45.
Definition POP : Z := 0x50.
Definition MLOAD : Z := 0x51.
Definition MSTORE : Z := 0x52.
Definition MSTORE8 : Z := 0x53.
Definition SLOAD : Z := 0x54.
Definition SSTORE : Z := 0x55.
Definition JUMP : Z := 0x56.
Definition JUMPI : Z := 0x57.
Definition PC : Z := 0x58.
Definition MSIZE : Z := 0x59.
Definition GAS : Z := 0x5a.
Definition JUMPDEST : Z := 0x5b.
Definition PUSH1 : Z := 0x60.
Definition PUSH2 : Z := 0x61.
Definition PUSH3 : Z := 0x62.
Definition PUSH4 : Z := 0x63.
Definition PUSH5 : Z := 0x64.
Definition PUSH6 : Z := 0x65.
Definition PUSH7 : Z := 0x66.
Definition PUSH8 : Z := 0x67.
Definition PUSH9 : Z := 0x68.
Definition PUSH10 : Z := 0x69.
Definition PUSH11 : Z := 0x6a.
Definition PUSH12 : Z := 0x6b.
Definition PUSH13 : Z := 0x6c.
Definition PUSH14 : Z := 0x6d.
Definition PUSH15 : Z := 0x6e.
Definition PUSH16 : Z := 0x6f.
Definition PUSH17 : Z := 0x70.
Definition PUSH18 : Z := 0x71.
Definition PUSH19 : Z := 0x72.
Definition PUSH20 : Z := 0x73.
Definition PUSH21 : Z := 0x74.
Definition PUSH22 : Z := 0x75.
Definition PUSH23 : Z := 0x76.
Definition PUSH24 : Z := 0x77.
Definition PUSH25 : Z := 0x78.
Definition PUSH26 : Z := 0x79.
Definition PUSH27 : Z := 0x7a.
Definition PUSH28 : Z := 0x7b.
Definition PUSH29 : Z := 0x7c.
Definition PUSH30 : Z := 0x7d.
Definition PUSH31 : Z := 0x7e.
Definition PUSH32 : Z := 0x7f.
Definition DUP1 : Z := 0x80.
Definition DUP2 : Z := 0x81.
Definition DUP3 : Z := 0x82.
Definition DUP4 : Z := 0x83.
Definition DUP5 : Z := 0x84.
Definition DUP6 : Z := 0x85.
Definition DUP7 : Z := 0x86.
Definition DUP8 : Z := 0x87.
Definition DUP9 : Z := 0x88.
Definition DUP10 : Z := 0x89.
Definition DUP11 : Z := 0x8a.
Definition DUP12 : Z := 0x8b.
Definition DUP13 : Z := 0x8c.
Definition DUP14 : Z := 0x8d.
Definition DUP15 : Z := 0x8e.
Definition DUP16 : Z := 0x8f.
Definition SWAP1 : Z := 0x90.
Definition SWAP2 : Z := 0x91.
Definition SWAP3 : Z := 0x92.
Definition SWAP4 : Z := 0x93.
Definition SWAP5 : Z := 0x94.
Definition SWAP6 : Z := 0x95.
Definition SWAP7 : Z := 0x96.
Definition SWAP8 : Z := 0x97.
Definition SWAP9 : Z := 0x98.
Definition SWAP10 : Z := 0x99.
Definition SWAP11 : Z := 0x9a.
Definition SWAP12 : Z := 0x9b.
Definition SWAP13 : Z := 0x9c.
Definition SWAP14 : Z := 0x9d.
Definition SWAP15 : Z := 0x9e.
Definition SWAP16 : Z := 0x9f.
Definition LOG0 : Z := 0xa0.
Definition LOG1 : Z := 0xa1.
Definition LOG2 : Z := 0xa2.
Definition LOG3 : Z := 0xa3.
Definition LOG4 : Z := 0xa4.
Definition PUSH : Z := 0xb0.
Definition DUP : Z := 0xb1.
Definition SWAP : Z := 0xb2.
Definition CREATE : Z := 0xf0.
Definition CALL : Z := 0xf1.
Definition CALLCODE : Z := 0xf2.
Definition RETURN : Z := 0xf3.
Definition DELEGATECALL : Z := 0xf4.
Definition CREATE2 : Z := 0xf5.
Definition STATICCALL : Z := 0xfa.
Definition REVERT : Z := 0xfd.
Definition SELFDESTRUCT : Z := 0xff.

Definition IsPush (op : Z) : bool := bool_decide (op ∈ seqZ PUSH1 32).
Definition IsStaticJump (op : Z) : bool := op =? JUMP.

(** ** [big.Int] *)
Definition big_BitLen (x : Z) : Z := if x =? 0 then 0 else Z.log2 (Z.abs x) + 1.
Definition big_IsUint64 (x : Z) : bool := (0 <=? x) && (x <? 2 ^ 64).
Definition big_Uint64 (x : Z) : Z := Z.abs x mod 2 ^ 64.
Definition big_Int64 (x : Z) : Z :=
  let v := int64 (Z.abs x mod 2 ^ 64) in if x <? 0 then int64 (- v) else v.

Fixpoint words_of (n : nat) (x : Z) : list Z :=
  match n with
  | O => []
  | S n => x mod 2 ^ 64 :: words_of n (x / 2 ^ 64)
  end.
Definition big_Bits (x : Z) : list Z := words_of (Z.to_nat ((big_BitLen x + 63) / 64)) (Z.abs x).

(** ** Package math *)
Definition tt255 : Z := 2 ^ 255.
Definition tt256 : Z := 2 ^ 256.

Definition BigMax (x y : Z) : Z := if x <? y then y else x.
Definition BigMin (x y : Z) : Z := if y <? x then y else x.

Definition U256 (x : Z) : Z := Z.land x (tt256 - 1).
Definition S256 (x : Z) : Z := if x <? tt255 then x else x - tt256.

(** The inner loop of [Exp] over the bits of a word, and the outer one over the words. *)
Fixpoint exp_word (n : nat) (word : Z) (result base : Z) : Z * Z :=
  match n with
  | O => (result, base)
  | S n =>
      let result := if Z.land word 1 =? 1 then U256 (result * base) else result in
      exp_word n (Z.shiftr word 1) result (U256 (base * base))
  end.

Fixpoint exp_words (ws : list Z) (result base : Z) : Z :=
  match ws with
  | [] => result
  | w :: ws => let '(result, base) := exp_word 64 w result base in exp_words ws result base
  end.

Definition Exp (base exponent : Z) : Z := exp_words (big_Bits exponent) 1 base.

Definition bigEndianByteAt (x : Z) (n : Z) : Z :=
  match big_Bits x !! Z.to_nat (n / 8) with
  | None => 0
  | Some word => Z.shiftr word (8 * (n mod 8)) mod 256
  end.

Definition Byte (x padlength n : Z) : Z :=
  if padlength <=? n then 0 else bigEndianByteAt x (padlength - 1 - n).

(** The bytes of a word, the lowest first. *)
Fixpoint word_bytes (n : nat) (d : Z) : bytes :=
  match n with
  | O => []
  | S n => byte_of_Z d :: word_bytes n (Z.shiftr d 8)
  end.

Definition ReadBits (x : Z) (buf : bytes) : bytes :=
  let le := take (length buf) (flat_map (word_bytes 8) (big_Bits x)) in
  take (length buf - length le) buf ++ reverse le.

Definition SafeSub (x y : Z) : Z * bool := (uint64 (x - y), x <? y).
Definition SafeAdd (x y : Z) : Z * bool := (uint64 (x + y), MaxUint64 - x <? y).
Definition SafeMul (x y : Z) : Z * bool :=
  if (x =? 0) || (y =? 0) then (0, false) else (uint64 (x * y), MaxUint64 / x <? y).

(** ** Package common *)
Definition RightPadBytes (slice : bytes) (l : Z) : bytes :=
  if l <=? Z.of_nat (length slice) then slice
  else slice ++ replicate (Z.to_nat l - length slice) (byte_of_Z 0).

Definition LeftPadBytes (slice : bytes) (l : Z) : bytes :=
  if l <=? Z.of_nat (length slice) then slice
  else replicate (Z.to_nat l - length slice) (byte_of_Z 0) ++ slice.

(** Slicing out of range panics, which is [None]. *)
Definition slice_of {A} (l : list A) (lo hi : Z) : option (list A) :=
  if (0 <=? lo) && (lo <=? hi) && (hi <=? Z.of_nat (length l))
  then Some (take (Z.to_nat (hi - lo)) (drop (Z.to_nat lo) l)) else None.

(** ** [common.go] *)
Definition calcMemSize64WithUint (off length64 : Z) : Z * bool :=
  if length64 =? 0 then (0, false)
  else if negb (big_IsUint64 off) then (0, true)
  else
    let offset64 := big_Uint64 off in
    let val := uint64 (offset64 + length64) in
    (val, val <? offset64).

Definition calcMemSize64 (off l : Z) : Z * bool :=
  if negb (big_IsUint64 l) then (0, true) else calcMemSize64WithUint off (big_Uint64 l).

Definition getData (data : bytes) (start size : Z) : option bytes :=
  let length := Z.of_nat (length data) in
  let start := if length <? start then length else start in
  let e := uint64 (start + size) in
  let e := if length <? e then length else e in
  s ← slice_of data start e;
  Some (RightPadBytes s (int64 size)).

Definition getDataBig (data : bytes) (start size : Z) : option bytes :=
  let dlen := Z.of_nat (length data) in
  let s := BigMin start dlen in
  let e := BigMin (s + size) dlen in
  d ← slice_of data (big_Uint64 s) (big_Uint64 e);
  Some (RightPadBytes d (int64 (big_Uint64 size))).

Definition bigUint64 (v : Z) : Z * bool := (big_Uint64 v, negb (big_IsUint64 v)).

Definition toWordSize (size : Z) : Z :=
  if MaxUint64 - 31 <? size then MaxUint64 / 32 + 1 else (size + 31) / 32.

Definition allZero (b : bytes) : bool := forallb (fun x => Z_of_byte x =? 0) b.

(** ** [memory.go] *)
Record Memory : Type := MkMemory {
  m_store : bytes;
  m_lastGasCost : Z
}.

Definition NewMemory : Memory := MkMemory [] 0.
Definition mem_Len (m : Memory) : Z := Z.of_nat (length (m_store m)).

(** [copy] into the store from an offset on; as much as there is room for. *)
Definition copy_at (dst : bytes) (offset : nat) (src : bytes) : bytes :=
  let src := take (length dst - offset) src in
  take offset dst ++ src ++ drop (offset + length src) dst.

Definition mem_Set (offset size : Z) (value : bytes) (m : Memory) : option Memory :=
  if 0 <? size then
    if mem_Len m <? uint64 (offset + size) then None
    else if uint64 (offset + size) <? offset then None
    else Some (MkMemory (copy_at (m_store m) (Z.to_nat offset) (take (Z.to_nat size) value)) (m_lastGasCost m))
  else Some m.

Definition mem_Set32 (offset : Z) (val : Z) (m : Memory) : option Memory :=
  if mem_Len m <? uint64 (offset + 32) then None
  else if uint64 (offset + 32) <? offset then None
  else Some (MkMemory (copy_at (m_store m) (Z.to_nat offset) (ReadBits val (replicate 32 (byte_of_Z 0)))) (m_lastGasCost m)).

Definition mem_Resize (size : Z) (m : Memory) : Memory :=
  if mem_Len m <? size
  then MkMemory (m_store m ++ replicate (Z.to_nat size - length (m_store m)) (byte_of_Z 0)) (m_lastGasCost m)
  else m.

(** [Get] and [GetPtr] return nil ([Some None]) when there is nothing to read, and panic
    ([None]) when the end is out of range. *)
Definition mem_Get (offset size : Z) (m : Memory) : option (option bytes) :=
  if size =? 0 then Some None
  else if offset <? mem_Len m
  then d ← slice_of (m_store m) offset (int64 (offset + size)); Some (Some d)
  else Some None.

Definition mem_GetPtr (offset size : Z) (m : Memory) : option (option bytes) :=
  if size =? 0 then Some None
  else if offset <? mem_Len m
  then d ← slice_of (m_store m) offset (int64 (offset + size)); Some (Some d)
  else Some None.

(** ** [analysis.go]

    A bit vector is a list of bytes; an index out of range panics. *)
Definition bv_or (bits : bytes) (i : nat) (mask : Z) : option bytes :=
  b ← bits !! i; Some (<[i := byte_of_Z (Z.lor (Z_of_byte b) mask)]> bits).

Definition bv_set (pos : nat) (bits : bytes) : option bytes :=
  bv_or bits (pos / 8)%nat (Z.shiftr 0x80 (Z.of_nat (pos mod 8))).

Definition bv_set8 (pos : nat) (bits : bytes) : option bytes :=
  bits ← bv_or bits (pos / 8)%nat (Z.shiftr 0xFF (Z.of_nat (pos mod 8)));
  bv_or bits (pos / 8 + 1)%nat (Z.lxor 0xFF (Z.shiftr 0xFF (Z.of_nat (pos mod 8)))).

Definition codeSegment (bits : bytes) (pos : Z) : option bool :=
  b ← bits !! Z.to_nat (pos / 8);
  Some (Z.land (Z_of_byte b) (Z.shiftr 0x80 (pos mod 8)) =? 0).

(** The two inner loops of [codeBitmap]: the rest of [numbits] is below eight. *)
Fixpoint set_rest (numbits : nat) (pc : nat) (bits : bytes) : option (nat * bytes) :=
  match numbits with
  | O => Some (pc, bits)
  | S n => bits ← bv_set pc bits; set_rest n (S pc) bits
  end.

Fixpoint set_octets (k : nat) (pc : nat) (bits : bytes) : option (nat * bytes) :=
  match k with
  | O => Some (pc, bits)
  | S k => bits ← bv_set8 pc bits; set_octets k (pc + 8) bits
  end.

Definition is_push (op : Z) : bool := (PUSH1 <=? op) && (op <=? PUSH32).

Fixpoint code_bitmap_from (fuel : nat) (code : bytes) (pc : nat) (bits : bytes) : option bytes :=
  match fuel with
  | O => Some bits
  | S fuel =>
      match code !! pc with
      | None => Some bits
      | Some c =>
          let op := Z_of_byte c in
          if is_push op then
            let numbits := Z.to_nat (op - PUSH1 + 1) in
            '(pc, bits) ← set_octets (numbits / 8) (S pc) bits;
            '(pc, bits) ← set_rest (numbits mod 8) pc bits;
            code_bitmap_from fuel code pc bits
          else code_bitmap_from fuel code (S pc) bits
      end
  end.

(** Each round of the loop moves on by a byte at least. *)
Definition codeBitmap (code : bytes) : option bytes :=
  code_bitmap_from (length code) code 0 (replicate (length code / 8 + 1 + 4) (byte_of_Z 0)).
