(* ===== verification/EvmBitmap.v ===== *)
(** * The analysis of code

    [codeBitmap] of [src/core/vm/analysis.go] marks the operands of push instructions: a
    position it leaves unmarked is one where an instruction starts. *)

From S2P Require Import Prelude Bytes Types Params EvmData.

(** ** Where instructions start *)
Definition operand_size (c : byte) : nat :=
  if is_push (Z_of_byte c) then Z.to_nat (Z_of_byte c - PUSH1 + 1) else 0.

Definition next_instruction (code : bytes) (pc : nat) : nat :=
  match code !! pc with Some c => S pc + operand_size c | None => S pc end.

Definition instruction_at (code : bytes) (n : nat) : nat := Nat.iter n (next_instruction code) 0%nat.

Definition starts (code : bytes) (pc : nat) : Prop := exists n, pc = instruction_at code n.

Lemma next_instruction_gt code pc : (pc < next_instruction code pc)%nat.
Proof. unfold next_instruction. destruct (code !! pc); lia. Qed.

Lemma instruction_at_S code n : instruction_at code (S n) = next_instruction code (instruction_at code n).
Proof. done. Qed.

Lemma instruction_at_mono code m n : (m <= n)%nat -> (instruction_at code m <= instruction_at code n)%nat.
Proof.
  induction 1 as [|n _ IH]; [done|]. rewrite instruction_at_S.
  pose proof (next_instruction_gt code (instruction_at code n)). lia.
Qed.

(** No instruction starts among the operands of another. *)
Lemma starts_apart code pc q : starts code pc -> starts code q -> (q <= pc \/ next_instruction code pc <= q)%nat.
Proof.
  intros (m & ->) (n & ->). destruct (decide (n <= m)%nat); [left; by apply instruction_at_mono|].
  right. rewrite <- instruction_at_S. apply instruction_at_mono. lia.
Qed.

(** ** Bits *)
Definition bv_bit (bits : bytes) (p : nat) : bool :=
  match bits !! (p / 8)%nat with Some b => Z.testbit (Z_of_byte b) (7 - Z.of_nat (p mod 8)) | None => false end.

Lemma eight (P : nat -> Prop) : P 0%nat -> P 1%nat -> P 2%nat -> P 3%nat -> P 4%nat -> P 5%nat -> P 6%nat -> P 7%nat ->
  forall k, (k < 8)%nat -> P k.
Proof. intros. do 8 (destruct k as [|k]; [done|]). lia. Qed.

(** The masks of [set] and [set8], bit by bit. *)
Lemma mask_bits k j :
  (k < 8)%nat -> (j < 8)%nat ->
  Z.testbit (Z.shiftr 0x80 (Z.of_nat k)) (7 - Z.of_nat j) = (j =? k)%nat /\
  Z.testbit (Z.shiftr 0xFF (Z.of_nat k)) (7 - Z.of_nat j) = (k <=? j)%nat /\
  Z.testbit (Z.lxor 0xFF (Z.shiftr 0xFF (Z.of_nat k))) (7 - Z.of_nat j) = (j <? k)%nat.
Proof. intros Hk Hj. revert k Hk. apply eight; revert j Hj; by apply eight; vm_compute. Qed.

Lemma bv_or_bit bits i mask :
  (i < length bits)%nat -> 0 <= mask < 256 ->
  exists bits', bv_or bits i mask = Some bits' /\ length bits' = length bits /\
    forall p, bv_bit bits' p = bv_bit bits p || ((p / 8 =? i)%nat && Z.testbit mask (7 - Z.of_nat (p mod 8))).
Proof.
  intros Hi Hm. destruct (lookup_lt_is_Some_2 bits i Hi) as (b & Eb). unfold bv_or. rewrite Eb.
  eexists. split; [done|]. split; [by rewrite length_insert|]. intros p. unfold bv_bit.
  destruct (Nat.eqb_spec (p / 8) i) as [->|Hn]; [|rewrite list_lookup_insert_ne by done; by rewrite orb_false_r].
  rewrite list_lookup_insert_eq, Eb by done. rewrite Z_of_byte_of_Z, Z.mod_small, Z.lor_spec; [done|].
  pose proof (Z_of_byte_range b) as Hb. split; [apply Z.lor_nonneg; lia|].
  destruct (decide (Z.lor (Z_of_byte b) mask = 0)) as [->|]; [lia|]. change 256 with (2 ^ 8).
  assert (0 < Z.lor (Z_of_byte b) mask) by (pose proof (proj2 (Z.lor_nonneg (Z_of_byte b) mask) ltac:(lia)); lia).
  apply Z.log2_lt_pow2; [done|]. rewrite Z.log2_lor by lia.
  assert (forall z, 0 <= z < 256 -> Z.log2 z < 8) as Hlog.
  { intros z Hz. destruct (decide (z = 0)) as [->|]; [done|]. apply Z.log2_lt_pow2; lia. }
  pose proof (Hlog _ Hb). pose proof (Hlog _ Hm). lia.
Qed.

Lemma divmod8 (p q : nat) : (p / 8 =? q / 8)%nat && (p mod 8 =? q mod 8)%nat = (p =? q)%nat.
Proof.
  pose proof (Nat.div_mod_eq p 8). pose proof (Nat.div_mod_eq q 8).
  destruct (Nat.eqb_spec (p / 8) (q / 8)), (Nat.eqb_spec (p mod 8) (q mod 8)), (Nat.eqb_spec p q); subst; lia || done.
Qed.

Lemma bv_set_bit bits pos :
  (pos / 8 < length bits)%nat ->
  exists bits', bv_set pos bits = Some bits' /\ length bits' = length bits /\
    forall p, bv_bit bits' p = bv_bit bits p || (p =? pos)%nat.
Proof.
  intros Hp. pose proof (Nat.mod_upper_bound pos 8 ltac:(lia)) as Hk. unfold bv_set.
  destruct (bv_or_bit bits (pos / 8) (Z.shiftr 0x80 (Z.of_nat (pos mod 8))) Hp) as (bits' & E & Hl & Hb).
  { revert Hk. generalize (pos mod 8)%nat. apply eight; vm_compute; done. }
  exists bits'. split_and!; [done..|]. intros p. rewrite Hb. pose proof (Nat.mod_upper_bound p 8 ltac:(lia)) as Hj.
  destruct (mask_bits (pos mod 8) (p mod 8) Hk Hj) as (-> & _). by rewrite divmod8.
Qed.

Lemma octet_bits (p pos : nat) :
  (p / 8 =? pos / 8)%nat && (pos mod 8 <=? p mod 8)%nat || ((p / 8 =? pos / 8 + 1)%nat && (p mod 8 <? pos mod 8)%nat) =
  (pos <=? p)%nat && (p <? pos + 8)%nat.
Proof.
  pose proof (Nat.div_mod_eq p 8). pose proof (Nat.div_mod_eq pos 8). pose proof (Nat.mod_upper_bound p 8 ltac:(lia)).
  pose proof (Nat.mod_upper_bound pos 8 ltac:(lia)).
  destruct (Nat.eqb_spec (p / 8) (pos / 8)), (Nat.eqb_spec (p / 8) (pos / 8 + 1)), (Nat.leb_spec (pos mod 8) (p mod 8)),
    (Nat.ltb_spec (p mod 8) (pos mod 8)), (Nat.leb_spec pos p), (Nat.ltb_spec p (pos + 8)); cbn; lia.
Qed.

Lemma bv_set8_bit bits pos :
  (pos / 8 + 1 < length bits)%nat ->
  exists bits', bv_set8 pos bits = Some bits' /\ length bits' = length bits /\
    forall p, bv_bit bits' p = bv_bit bits p || ((pos <=? p)%nat && (p <? pos + 8)%nat).
Proof.
  intros Hp. pose proof (Nat.mod_upper_bound pos 8 ltac:(lia)) as Hk. unfold bv_set8.
  destruct (bv_or_bit bits (pos / 8) (Z.shiftr 0xFF (Z.of_nat (pos mod 8))) ltac:(lia)) as (bits1 & E1 & L1 & B1).
  { revert Hk. generalize (pos mod 8)%nat. apply eight; vm_compute; done. }
  rewrite E1. cbn [mbind option_bind].
  destruct (bv_or_bit bits1 (pos / 8 + 1) (Z.lxor 0xFF (Z.shiftr 0xFF (Z.of_nat (pos mod 8)))) ltac:(lia)) as (bits2 & E2 & L2 & B2).
  { revert Hk. generalize (pos mod 8)%nat. apply eight; vm_compute; done. }
  exists bits2. split_and!; [done|lia|]. intros p. rewrite B2, B1. pose proof (Nat.mod_upper_bound p 8 ltac:(lia)) as Hj.
  destruct (mask_bits (pos mod 8) (p mod 8) Hk Hj) as (_ & -> & ->). by rewrite <- orb_assoc, octet_bits.
Qed.

(** ** The loops *)
Lemma set_rest_bits n pc bits :
  (n = 0 \/ (pc + n - 1) / 8 < length bits)%nat ->
  exists bits', set_rest n pc bits = Some ((pc + n)%nat, bits') /\ length bits' = length bits /\
    forall p, bv_bit bits' p = bv_bit bits p || ((pc <=? p)%nat && (p <? pc + n)%nat).
Proof.
  revert pc bits. induction n as [|n IH]; intros pc bits Hn; cbn [set_rest].
  - exists bits. rewrite Nat.add_0_r. split_and!; [done..|]. intros p.
    destruct (Nat.leb_spec pc p), (Nat.ltb_spec p pc); try lia; by rewrite ?orb_false_r.
  - destruct Hn as [?|Hn]; [lia|]. destruct (bv_set_bit bits pc) as (b1 & -> & L1 & B1).
    { eapply Nat.le_lt_trans; [|exact Hn]. apply Nat.Div0.div_le_mono. lia. }
    cbn [mbind option_bind]. destruct (IH (S pc) b1) as (b2 & E2 & L2 & B2).
    { destruct n; [by left|right]. rewrite L1. by replace (S pc + S n - 1)%nat with (pc + S (S n) - 1)%nat by lia. }
    exists b2. rewrite E2. split_and!; [do 2 f_equal; lia|lia|]. intros p. rewrite B2, B1, <- orb_assoc. f_equal.
    destruct (Nat.eqb_spec p pc), (Nat.leb_spec (S pc) p), (Nat.leb_spec pc p), (Nat.ltb_spec p (S pc + n)),
      (Nat.ltb_spec p (pc + S n)); cbn; lia.
Qed.

Lemma set_octets_bits k pc bits :
  (k = 0 \/ (pc + 8 * k - 8) / 8 + 1 < length bits)%nat ->
  exists bits', set_octets k pc bits = Some ((pc + 8 * k)%nat, bits') /\ length bits' = length bits /\
    forall p, bv_bit bits' p = bv_bit bits p || ((pc <=? p)%nat && (p <? pc + 8 * k)%nat).
Proof.
  revert pc bits. induction k as [|k IH]; intros pc bits Hk; cbn [set_octets].
  - exists bits. rewrite Nat.mul_0_r, Nat.add_0_r. split_and!; [done..|]. intros p.
    destruct (Nat.leb_spec pc p), (Nat.ltb_spec p pc); try lia; by rewrite ?orb_false_r.
  - destruct Hk as [?|Hk]; [lia|]. destruct (bv_set8_bit bits pc) as (b1 & -> & L1 & B1).
    { eapply Nat.le_lt_trans; [|exact Hk]. apply Nat.add_le_mono_r, Nat.Div0.div_le_mono. lia. }
    cbn [mbind option_bind]. destruct (IH (pc + 8)%nat b1) as (b2 & E2 & L2 & B2).
    { destruct k; [by left|right]. rewrite L1. by replace (pc + 8 + 8 * S k - 8)%nat with (pc + 8 * S (S k) - 8)%nat by lia. }
    exists b2. rewrite E2. split_and!; [do 2 f_equal; lia|lia|]. intros p. rewrite B2, B1, <- orb_assoc. f_equal.
    destruct (Nat.leb_spec pc p), (Nat.ltb_spec p (pc + 8)), (Nat.leb_spec (pc + 8) p), (Nat.ltb_spec p (pc + 8 + 8 * k)),
      (Nat.ltb_spec p (pc + 8 * S k)); cbn; lia.
Qed.

Lemma operand_size_max c : (operand_size c <= 32)%nat.
Proof. unfold operand_size, is_push, PUSH1, PUSH32. case_match eqn:E; [|lia]. lia. Qed.

(** The operands of one instruction are marked. *)
Lemma operands_bits n pc bits len :
  (pc < len)%nat -> (n <= 32)%nat -> length bits = (len / 8 + 1 + 4)%nat ->
  exists bits', ('(pc, bits) ← set_octets (n / 8) (S pc) bits; set_rest (n mod 8) pc bits) = Some ((S pc + n)%nat, bits') /\
    length bits' = length bits /\
    forall p, bv_bit bits' p = bv_bit bits p || ((S pc <=? p)%nat && (p <? S pc + n)%nat).
Proof.
  intros Hpc Hn Hl. pose proof (Nat.div_mod_eq n 8) as Hd. pose proof (Nat.mod_upper_bound n 8 ltac:(lia)) as Hm.
  assert (Hdiv : forall x, (x <= len + 32)%nat -> (x / 8 < length bits)%nat).
  { intros x Hx. assert (x / 8 <= (len + 32) / 8)%nat by by apply Nat.Div0.div_le_mono.
    assert ((len + 32) / 8 <= len / 8 + 4)%nat; [|lia]. pose proof (Nat.div_mod_eq len 8).
    pose proof (Nat.mod_upper_bound len 8 ltac:(lia)). apply Nat.lt_succ_r, Nat.Div0.div_lt_upper_bound. lia. }
  destruct (set_octets_bits (n / 8) (S pc) bits) as (b1 & -> & L1 & B1).
  { destruct (decide (n / 8 = 0)%nat); [by left|right].
    replace ((S pc + 8 * (n / 8) - 8) / 8 + 1)%nat with ((S pc + 8 * (n / 8) - 8 + 1 * 8) / 8)%nat by by rewrite Nat.div_add.
    apply Hdiv. lia. }
  cbn [mbind option_bind].
  destruct (set_rest_bits (n mod 8) (S pc + 8 * (n / 8)) b1) as (b2 & E2 & L2 & B2).
  { destruct (decide (n mod 8 = 0)%nat); [by left|right]. rewrite L1. apply Hdiv. lia. }
  exists b2. rewrite E2. split_and!; [do 2 f_equal; lia|lia|]. intros p. rewrite B2, B1, <- orb_assoc. f_equal.
  destruct (Nat.leb_spec (S pc) p), (Nat.ltb_spec p (S pc + 8 * (n / 8))), (Nat.leb_spec (S pc + 8 * (n / 8)) p),
    (Nat.ltb_spec p (S pc + 8 * (n / 8) + n mod 8)), (Nat.ltb_spec p (S pc + n)); cbn; lia.
Qed.

(** Going through the code from the start of an instruction on, with the operands before
    it marked. *)
Lemma code_bitmap_from_bits fuel code pc bits :
  (length code - pc <= fuel)%nat -> starts code pc -> length bits = (length code / 8 + 1 + 4)%nat ->
  (forall p, bv_bit bits p = true <-> (p < pc)%nat /\ ~ starts code p) ->
  exists bits', code_bitmap_from fuel code pc bits = Some bits' /\ length bits' = length bits /\
    forall p, (p < length code)%nat -> bv_bit bits' p = true <-> ~ starts code p.
Proof.
  revert pc bits. induction fuel as [|fuel IH]; intros pc bits Hf Hs Hl Hb; cbn [code_bitmap_from].
  { exists bits. split_and!; [done..|]. intros p Hp. rewrite Hb. intuition lia. }
  destruct (code !! pc) as [c|] eqn:Ec; [|].
  2: { apply lookup_ge_None in Ec. exists bits. split_and!; [done..|]. intros p Hp. rewrite Hb. intuition lia. }
  pose proof (lookup_lt_Some _ _ _ Ec) as Hpc. assert (Hn : next_instruction code pc = (S pc + operand_size c)%nat)
    by (unfold next_instruction; by rewrite Ec).
  assert (Hs' : starts code (S pc + operand_size c)) by (destruct Hs as (n & ->); exists (S n); by rewrite instruction_at_S).
  assert (Hnew : forall bits1 p, (forall p, bv_bit bits1 p = bv_bit bits p || ((S pc <=? p)%nat && (p <? S pc + operand_size c)%nat)) ->
            bv_bit bits1 p = true <-> (p < S pc + operand_size c)%nat /\ ~ starts code p).
  { intros bits1 p B1. rewrite B1, orb_true_iff, Hb, andb_true_iff, Nat.leb_le, Nat.ltb_lt. split.
    - intros [[? ?]|[? ?]]; (split; [lia|]); [done|]. intros Hp. pose proof (starts_apart _ _ _ Hs Hp). lia.
    - intros [? Hp]. destruct (decide (p < pc)%nat); [by left|right]. split; [|lia]. destruct (decide (p = pc)); [by subst|lia]. }
  unfold operand_size in *. destruct (is_push (Z_of_byte c)) eqn:Ep.
  - pose proof (operand_size_max c) as Hmax. unfold operand_size in Hmax. rewrite Ep in Hmax.
    destruct (operands_bits (Z.to_nat (Z_of_byte c - PUSH1 + 1)) pc bits (length code)) as (b1 & E1 & L1 & B1); [done..|].
    destruct (set_octets _ (S pc) bits) as [[pc1 b]|]; [|done]. cbn [mbind option_bind] in *. rewrite E1. cbn [mbind option_bind].
    destruct (IH (S pc + Z.to_nat (Z_of_byte c - PUSH1 + 1))%nat b1) as (b2 & -> & L2 & B2);
      [lia|done|congruence|intros p; by apply Hnew|]. exists b2. split_and!; [done|congruence|done].
  - rewrite Nat.add_0_r in *. destruct (IH (S pc) bits) as (b2 & -> & L2 & B2); [lia|done|done| |by exists b2].
    intros p. apply (Hnew bits). intros q. destruct (Nat.leb_spec (S pc) q), (Nat.ltb_spec q (S pc)); try lia; by rewrite ?orb_false_r.
Qed.

Lemma codeBitmap_bits code :
  exists bits, codeBitmap code = Some bits /\ length bits = (length code / 8 + 1 + 4)%nat /\
    forall p, (p < length code)%nat -> bv_bit bits p = true <-> ~ starts code p.
Proof.
  unfold codeBitmap. set (b0 := replicate _ _).
  destruct (code_bitmap_from_bits (length code) code 0 b0) as (bits & E & L & B); [lia|by exists 0%nat|apply length_replicate| |].
  - intros p. unfold bv_bit. destruct (b0 !! (p / 8)%nat) as [b|] eqn:Eb; [|intuition lia].
    apply lookup_replicate in Eb as [-> _]. change (Z_of_byte (byte_of_Z 0)) with 0. rewrite Z.bits_0. intuition lia.
  - exists bits. split_and!; [done| |done]. rewrite L. apply length_replicate.
Qed.

Lemma codeSegment_bit bits pos :
  0 <= pos -> (Z.to_nat pos / 8 < length bits)%nat -> codeSegment bits pos = Some (negb (bv_bit bits (Z.to_nat pos))).
Proof.
  intros Hp Hl. destruct (lookup_lt_is_Some_2 _ _ Hl) as (b & Eb). unfold codeSegment, bv_bit.
  set (n := Z.to_nat pos) in *. replace pos with (Z.of_nat n) by lia. change 8 with (Z.of_nat 8).
  rewrite <- Nat2Z.inj_div, Nat2Z.id, Eb. cbn [mbind option_bind]. f_equal. rewrite <- Nat2Z.inj_mod.
  pose proof (Nat.mod_upper_bound n 8 ltac:(lia)) as Hk. generalize (n mod 8)%nat, Hk. clear. intros k Hk.
  destruct (Z.testbit (Z_of_byte b) (7 - Z.of_nat k)) eqn:Et; cbn [negb].
  - apply Z.eqb_neq. intros H0. assert (Ht : Z.testbit (Z.land (Z_of_byte b) (Z.shiftr 0x80 (Z.of_nat k))) (7 - Z.of_nat k) = true).
    { rewrite Z.land_spec, Et. destruct (mask_bits k k Hk Hk) as (-> & _). by rewrite Nat.eqb_refl. }
    by rewrite H0, Z.bits_0 in Ht.
  - apply Z.eqb_eq, Z.bits_inj'. intros i Hi. rewrite Z.land_spec, Z.bits_0. destruct (decide (i < 8)) as [Hi8|Hi8].
    + replace i with (7 - Z.of_nat (Z.to_nat (7 - i))) by lia. destruct (mask_bits k (Z.to_nat (7 - i)) Hk ltac:(lia)) as (-> & _).
      destruct (Nat.eqb_spec (Z.to_nat (7 - i)) k) as [<-|]; [|by rewrite andb_false_r]. by rewrite Et.
    + rewrite (Z.bits_above_log2 (Z_of_byte b)); [done|apply Z_of_byte_range|]. pose proof (Z_of_byte_range b).
      destruct (decide (Z_of_byte b = 0)) as [->|]; [cbn; lia|]. apply (Z.lt_le_trans _ 8); [|lia].
      apply Z.log2_lt_pow2; lia.
Qed.

Lemma instruction_at_ge code n : (n <= instruction_at code n)%nat.
Proof.
  induction n as [|n IH]; [done|]. rewrite instruction_at_S.
  pose proof (next_instruction_gt code (instruction_at code n)). lia.
Qed.

Lemma starts_seq code pc : Exists (fun n => pc = instruction_at code n) (seq 0 (S pc)) <-> starts code pc.
Proof.
  rewrite Exists_exists. split; [intros (n & _ & ->); by exists n|]. intros (n & ->). exists n. split; [|done].
  apply elem_of_seq. pose proof (instruction_at_ge code n). lia.
Qed.

#[export] Instance starts_dec code pc : Decision (starts code pc) :=
  match decide (Exists (fun n => pc = instruction_at code n) (seq 0 (S pc))) with
  | left H => left (proj1 (starts_seq code pc) H)
  | right H => right (fun Hs => H (proj2 (starts_seq code pc) Hs))
  end.

(** C24: A position is a possible jump destination exactly when an instruction starts
    there: the analysis marks the operands of the push instructions, also of one that is
    cut off by the end of the code, and never writes outside its bit vector. *)
Theorem codeBitmap_correct code :
  exists bits, codeBitmap code = Some bits /\
    forall pos, 0 <= pos < Z.of_nat (length code) -> codeSegment bits pos = Some (bool_decide (starts code (Z.to_nat pos))).
Proof.
  destruct (codeBitmap_bits code) as (bits & E & L & B). exists bits. split; [done|]. intros pos Hp.
  rewrite codeSegment_bit; [|lia|].
  - f_equal. specialize (B (Z.to_nat pos) ltac:(lia)). case_bool_decide as Hs.
    + destruct (bv_bit bits (Z.to_nat pos)); [|done]. by destruct (proj1 B eq_refl).
    + by rewrite (proj2 B Hs).
  - rewrite L. assert (Z.to_nat pos / 8 <= length code / 8)%nat; [apply Nat.Div0.div_le_mono; lia|lia].
Qed.
