(* ===== verification/Fallible.v ===== *)
(** * Functions that return an error or panic

    Go's results with an error at the end, in code that can also panic, as a monad. *)

From S2P Require Import Prelude Bytes RlpEncode RlpDecode RlpCanonical Types.

(** ** Panics *)
#[export] Instance res_ret : MRet res := fun A a => Ok a.
#[export] Instance res_bind : MBind res := fun A B f m =>
  match m with
  | Ok a => f a
  | Panic => Panic
  | OutOfFuel => OutOfFuel
  end.

(** ** Errors and panics *)
Definition fallible (A : Type) : Type := res (error + A).

#[export] Instance fallible_ret : MRet fallible := fun A a => Ok (inr a).
#[export] Instance fallible_bind : MBind fallible := fun A B f m =>
  match m with
  | Ok (inr a) => f a
  | Ok (inl e) => Ok (inl e)
  | Panic => Panic
  | OutOfFuel => OutOfFuel
  end.

Definition fail {A} (e : error) : fallible A := Ok (inl e).
Definition raise {A} (p : option A) : fallible A := match p with Some a => mret a | None => Panic end.
Definition check {A} (x : error + A) : fallible A := Ok x.
Definition returns {A} (x : res A) : fallible A :=
  match x with Ok a => mret a | Panic => Panic | OutOfFuel => OutOfFuel end.
Definition require (b : bool) (e : error) : fallible unit := if b then mret tt else fail e.

Lemma raise_Some {A B} (a : A) (f : A -> fallible B) : (raise (Some a) ≫= f) = f a.
Proof. done. Qed.

Lemma returns_Ok {A B} (a : A) (f : A -> fallible B) : (returns (Ok a) ≫= f) = f a.
Proof. done. Qed.

(** [fal]: computes the operations above. *)
Ltac fal := unfold raise, check, returns, require, fail, mbind, fallible_bind, mret, fallible_ret; cbn [negb].
