(* ===== verification/TrieNode.v ===== *)
(** * Nodes of a trie

    Models [src/trie/node.go], the nodes and their RLP form, and of [src/trie/database.go]
    the cache of nodes that are not on disk yet. Reference counts and the flush list, with
    which nodes are dropped from the cache or moved to disk, are not modelled, nor is the
    cache of disk reads. The disk is a function from hashes to stored bytes. *)

From S2P Require Import Prelude Bytes RlpEncode RlpDecode RlpCanonical RlpRaw Types TrieEncoding.

(** ** Nodes *)
Record nodeFlag : Type := MkFlag {
  nf_hash : option bytes;     (* nil when it is not known *)
  nf_dirty : bool
}.

(** [nilNode] is the nil interface value. *)
#[warnings="-register-all"]
Inductive node : Type :=
  | nilNode
  | shortNode (Key : bytes) (Val : node) (flags : nodeFlag)
  | fullNode (Children : list node) (flags : nodeFlag)
  | hashNode (h : bytes)
  | valueNode (v : bytes).

(** [cache] *)
Definition cache (n : node) : option bytes * bool :=
  match n with
  | shortNode _ _ f | fullNode _ f => (nf_hash f, nf_dirty f)
  | _ => (None, true)
  end.

(** [EncodeRLP] of the nodes: a nil child of a full node is written as [nilValueNode]. *)
Fixpoint node_gval (n : node) : gval :=
  match n with
  | nilNode => GBytes []
  | shortNode k v _ => GList [GBytes k; node_gval v]
  | fullNode cs _ => GList (node_gval <$> cs)
  | hashNode h => GBytes h
  | valueNode v => GBytes v
  end.

(** ** Decoding *)
Inductive decode_error : Type :=
  | DRlp (e : rlp_error)
  | DUnexpectedEOF
  | DNumberOfElements
  | DOversizedNode
  | DStringSize.

(** [decodeRef], given the decoder of embedded nodes. *)
Definition decodeRef (decodeNode : bytes -> decode_error + node) (buf : bytes) : decode_error + node * bytes :=
  match Split buf with
  | inl e => inl (DRlp e)
  | inr (KList, _, rest) =>
      if (32 <? length buf - length rest)%nat then inl DOversizedNode
      else match decodeNode buf with inl e => inl e | inr n => inr (n, rest) end
  | inr (KString, [], rest) => inr (nilNode, rest)
  | inr (k, val, rest) =>
      if bool_decide (k = KString) && (length val =? 32)%nat then inr (hashNode val, rest) else inl DStringSize
  end.

Definition decodeShort (decodeNode : bytes -> decode_error + node) (hash : option bytes) (elems : bytes) : decode_error + node :=
  match SplitString elems with
  | inl e => inl (DRlp e)
  | inr (kbuf, rest) =>
      let flag := MkFlag hash false in
      let key := compactToHex kbuf in
      if hasTerm key then
        match SplitString rest with
        | inl e => inl (DRlp e)
        | inr (val, _) => inr (shortNode key (valueNode val) flag)
        end
      else
        match decodeRef decodeNode rest with
        | inl e => inl e
        | inr (r, _) => inr (shortNode key r flag)
        end
  end.

(** The loop of [decodeFull] over the first sixteen children. *)
Fixpoint decodeChildren (decodeNode : bytes -> decode_error + node) (n : nat) (elems : bytes) : decode_error + list node * bytes :=
  match n with
  | O => inr ([], elems)
  | S n' =>
      match decodeRef decodeNode elems with
      | inl e => inl e
      | inr (cld, rest) =>
          match decodeChildren decodeNode n' rest with
          | inl e => inl e
          | inr (l, rest) => inr (cld :: l, rest)
          end
      end
  end.

Definition decodeFull (decodeNode : bytes -> decode_error + node) (hash : option bytes) (elems : bytes) : decode_error + node :=
  match decodeChildren decodeNode 16 elems with
  | inl e => inl e
  | inr (l, elems) =>
      match SplitString elems with
      | inl e => inl (DRlp e)
      | inr (val, _) =>
          inr (fullNode (l ++ [if (0 <? length val)%nat then valueNode val else nilNode]) (MkFlag hash false))
      end
  end.

(** [decodeNode]: a node is longer than the nodes embedded in it. *)
Fixpoint decodeNode_fuel (fuel : nat) (hash : option bytes) (buf : bytes) : decode_error + node :=
  match fuel with
  | O => inl (DRlp nontermination)
  | S n =>
      match buf with
      | [] => inl DUnexpectedEOF
      | _ =>
          match SplitList buf with
          | inl e => inl (DRlp e)
          | inr (elems, _) =>
              match CountValues elems with
              | inr 2 => decodeShort (decodeNode_fuel n None) hash elems
              | inr 17 => decodeFull (decodeNode_fuel n None) hash elems
              | _ => inl DNumberOfElements
              end
          end
      end
  end.

Definition decodeNode (hash : option bytes) (buf : bytes) : decode_error + node := decodeNode_fuel (S (length buf)) hash buf.

Definition mustDecodeNode (hash : option bytes) (buf : bytes) : res node :=
  match decodeNode hash buf with inl _ => Panic | inr n => Ok n end.

(** ** The cache of nodes *)

(** Nodes without flags, or encoded: [rawShortNode], [rawFullNode] and [rawNode]. *)
#[warnings="-register-all"]
Inductive raw : Type :=
  | rawNil
  | rawShortNode (Key : bytes) (Val : raw)
  | rawFullNode (Children : list raw)
  | rawHash (h : bytes)
  | rawValue (v : bytes)
  | rawNode (blob : bytes).

(** [None] is the panic on an unknown type of node, which nil is but for a child of a full
    node. *)
Fixpoint simplifyNode (n : node) : option raw :=
  match n with
  | nilNode => None
  | shortNode k v _ => rawShortNode k <$> simplifyNode v
  | fullNode cs _ => rawFullNode <$> mapM (fun c => match c with nilNode => Some rawNil | _ => simplifyNode c end) cs
  | hashNode h => Some (rawHash h)
  | valueNode v => Some (rawValue v)
  end.

Fixpoint expandNode (hash : option bytes) (n : raw) : option node :=
  match n with
  | rawNil | rawNode _ => None
  | rawShortNode k v => (fun v => shortNode (compactToHex k) v (MkFlag hash false)) <$> expandNode None v
  | rawFullNode cs =>
      (fun cs => fullNode cs (MkFlag hash false)) <$>
      mapM (fun c => match c with rawNil => Some nilNode | _ => expandNode None c end) cs
  | rawHash h => Some (hashNode h)
  | rawValue v => Some (valueNode v)
  end.

Record Database : Type := MkDatabase {
  td_dirties : gmap Hash raw;
  td_preimages : gmap Hash bytes;
  td_disk : Hash -> option bytes;      (* [Get] of the store; [None] is an error or nothing *)
  td_disk_preimage : Hash -> option bytes    (* the same behind [secureKey] *)
}.

(** [NewDatabase]: the entry of the zero hash holds the references to roots and no node. *)
Definition NewDatabase (disk preimages : Hash -> option bytes) : Database := MkDatabase {[zeroHash := rawNil]} ∅ disk preimages.

(** [cachedNode.obj] *)
Definition obj (hash : Hash) (n : raw) : res node :=
  match n with
  | rawNode blob => mustDecodeNode (Some (bytes_of hash)) blob
  | _ => match expandNode (Some (bytes_of hash)) n with Some n => Ok n | None => Panic end
  end.

(** [Database.node] *)
Definition Database_node (db : Database) (hash : Hash) : res (option node) :=
  match td_dirties db !! hash with
  | Some n => match obj hash n with Ok n => Ok (Some n) | Panic => Panic | OutOfFuel => OutOfFuel end
  | None =>
      match td_disk db hash with
      | None => Ok None
      | Some enc => match mustDecodeNode (Some (bytes_of hash)) enc with Ok n => Ok (Some n) | Panic => Panic | OutOfFuel => OutOfFuel end
      end
  end.

(** [Database.insert], the counters left out. *)
Definition Database_insert (hash : Hash) (n : raw) (db : Database) : Database :=
  match td_dirties db !! hash with
  | Some _ => db
  | None => MkDatabase (<[hash := n]> (td_dirties db)) (td_preimages db) (td_disk db) (td_disk_preimage db)
  end.

Definition InsertBlob (hash : Hash) (blob : bytes) (db : Database) : Database := Database_insert hash (rawNode blob) db.

Definition insertPreimage (hash : Hash) (preimage : bytes) (db : Database) : Database :=
  match td_preimages db !! hash with
  | Some _ => db
  | None => MkDatabase (td_dirties db) (<[hash := preimage]> (td_preimages db)) (td_disk db) (td_disk_preimage db)
  end.

Definition preimage (db : Database) (hash : Hash) : option bytes :=
  match td_preimages db !! hash with
  | Some p => Some p
  | None => td_disk_preimage db hash
  end.

(** RLP of a node without flags, as [cachedNode.rlp] writes it. *)
Fixpoint raw_gval (n : raw) : gval :=
  match n with
  | rawNil => GBytes []
  | rawShortNode k v => GList [GBytes k; raw_gval v]
  | rawFullNode cs => GList (raw_gval <$> cs)
  | rawHash h => GBytes h
  | rawValue v => GBytes v
  | rawNode b => GBytes b
  end.

Definition cachedNode_rlp (n : raw) : res bytes :=
  match n with
  | rawNode blob => Ok blob
  | _ => match EncodeToBytes (raw_gval n) with inr r => r | inl _ => Panic end
  end.

(** [Database.Node]: the encoded node; [None] is not found. *)
Definition Database_Node (db : Database) (hash : Hash) : res (option bytes) :=
  if bool_decide (hash = zeroHash) then Ok None
  else match td_dirties db !! hash with
       | Some n => match cachedNode_rlp n with Ok b => Ok (Some b) | Panic => Panic | OutOfFuel => OutOfFuel end
       | None => Ok (td_disk db hash)
       end.
