(* ===== verification/Trie.v ===== *)
(** * Merkle Patricia tries

    Models [src/trie/trie.go], [hasher.go] and [secure_trie.go]: lookup, insertion and
    deletion on nodes that are loaded on demand, and the hashing that writes them back. A
    trie is its root node; the database it points to is an argument. *)

From S2P Require Import Prelude Bytes RlpEncode RlpDecode RlpCanonical RlpRaw TrieEncoding Types Fallible TrieNode.

(** [emptyRoot] *)
Definition emptyRoot : Hash := HexToHash (str "56e81f171bcc55a6ff8345e692c0f86e5b48e01b996cadc001622fb5e363b421").

(** [newFlag] *)
Definition newFlag : nodeFlag := MkFlag None true.

(** An index of [Children]. *)
Definition index (b : byte) : nat := Z.to_nat (Z_of_byte b).

Section trie.
Context (db : Database).

Definition resolveHash (n : bytes) (prefix : bytes) : fallible node :=
  let hash := BytesToHash n in
  r ← returns (Database_node db hash);
  match r with
  | Some node => mret node
  | None => fail (MissingNodeError hash prefix)
  end.

Definition resolve (n : node) (prefix : bytes) : fallible node :=
  match n with
  | hashNode h => resolveHash h prefix
  | _ => mret n
  end.

(** [tryGet]: the value, the node with what was loaded, and whether anything was. *)
Fixpoint tryGet (fuel : nat) (n : node) (key : bytes) (pos : nat) : fallible (bytes * node * bool) :=
  match fuel with
  | O => OutOfFuel
  | S fuel =>
      match n with
      | nilNode => mret ([], nilNode, false)
      | valueNode v => mret (v, n, false)
      | shortNode k v f =>
          if (length key - pos <? length k)%nat || negb (bool_decide (k = take (length k) (drop pos key)))
          then mret ([], n, false)
          else
            '(value, newnode, didResolve) ← tryGet fuel v key (pos + length k);
            mret (value, if (didResolve : bool) then shortNode k newnode f else n, didResolve)
      | fullNode cs f =>
          b ← raise (key !! pos);
          c ← raise (cs !! index b);
          '(value, newnode, didResolve) ← tryGet fuel c key (pos + 1);
          mret (value, if (didResolve : bool) then fullNode (<[index b := newnode]> cs) f else n, didResolve)
      | hashNode h =>
          child ← resolveHash h (take pos key);
          '(value, newnode, _) ← tryGet fuel child key pos;
          mret (value, newnode, true)
      end
  end.

(** [insert]: whether anything changed, and the node. *)
Fixpoint insert_node (fuel : nat) (n : node) (prefix key : bytes) (value : node) : fallible (bool * node) :=
  match fuel with
  | O => OutOfFuel
  | S fuel =>
      match key with
      | [] =>
          match n with
          | valueNode v =>
              match value with
              | valueNode v' => mret (negb (bool_decide (v = v')), value)
              | _ => Panic
              end
          | _ => mret (true, value)
          end
      | k0 :: krest =>
          match n with
          | shortNode nk nv f =>
              let matchlen := prefixLen key nk in
              if (matchlen =? length nk)%nat then
                '(dirty, nn) ← insert_node fuel nv (prefix ++ take matchlen key) (drop matchlen key) value;
                if (dirty : bool) then mret (true, shortNode nk nn newFlag) else mret (false, n)
              else
                i ← raise (nk !! matchlen);
                '(_, c1) ← insert_node fuel nilNode (prefix ++ take (S matchlen) nk) (drop (S matchlen) nk) nv;
                cs ← raise (if (index i <? 17)%nat then Some (<[index i := c1]> (replicate 17 nilNode)) else None);
                j ← raise (key !! matchlen);
                '(_, c2) ← insert_node fuel nilNode (prefix ++ take (S matchlen) key) (drop (S matchlen) key) value;
                cs ← raise (if (index j <? 17)%nat then Some (<[index j := c2]> cs) else None);
                let branch := fullNode cs newFlag in
                if (matchlen =? 0)%nat then mret (true, branch)
                else mret (true, shortNode (take matchlen key) branch newFlag)
          | fullNode cs f =>
              c ← raise (cs !! index k0);
              '(dirty, nn) ← insert_node fuel c (prefix ++ [k0]) krest value;
              if (dirty : bool) then mret (true, fullNode (<[index k0 := nn]> cs) newFlag) else mret (false, n)
          | nilNode => mret (true, shortNode key value newFlag)
          | hashNode h =>
              rn ← resolveHash h prefix;
              '(dirty, nn) ← insert_node fuel rn prefix key value;
              if (dirty : bool) then mret (true, nn) else mret (false, rn)
          | valueNode _ => Panic
          end
      end
  end.

(** The loop of [delete] that looks for a single child: [inl i] is its index, [inr true]
    means that there are more, [inr false] that there is none. *)
Fixpoint single_child (i : nat) (pos : option nat) (cs : list node) : nat + bool :=
  match cs with
  | [] => match pos with Some p => inl p | None => inr false end
  | nilNode :: r => single_child (S i) pos r
  | _ :: r => match pos with Some _ => inr true | None => single_child (S i) (Some i) r end
  end.

Fixpoint delete_node (fuel : nat) (n : node) (prefix key : bytes) : fallible (bool * node) :=
  match fuel with
  | O => OutOfFuel
  | S fuel =>
      match n with
      | shortNode nk nv f =>
          let matchlen := prefixLen key nk in
          if (matchlen <? length nk)%nat then mret (false, n)
          else if (matchlen =? length key)%nat then mret (true, nilNode)
          else
            '(dirty, child) ← delete_node fuel nv (prefix ++ take (length nk) key) (drop (length nk) key);
            if (dirty : bool) then
              match child with
              | shortNode ck cv _ => mret (true, shortNode (nk ++ ck) cv newFlag)
              | _ => mret (true, shortNode nk child newFlag)
              end
            else mret (false, n)
      | fullNode cs f =>
          k0 ← raise (head key);
          c ← raise (cs !! index k0);
          '(dirty, nn) ← delete_node fuel c (prefix ++ [k0]) (tail key);
          if (dirty : bool) then
            let cs := <[index k0 := nn]> cs in
            match single_child 0 None cs with
            | inl pos =>
                c ← raise (cs !! pos);
                cnode ← (if (pos =? 16)%nat then mret nilNode else resolve c prefix);
                match cnode with
                | shortNode ck cv _ => mret (true, shortNode (byte_of_Z (Z.of_nat pos) :: ck) cv newFlag)
                | _ => mret (true, shortNode [byte_of_Z (Z.of_nat pos)] c newFlag)
                end
            | inr _ => mret (true, fullNode cs newFlag)
            end
          else mret (false, n)
      | valueNode _ => mret (true, nilNode)
      | nilNode => mret (false, nilNode)
      | hashNode h =>
          rn ← resolveHash h prefix;
          '(dirty, nn) ← delete_node fuel rn prefix key;
          if (dirty : bool) then mret (true, nn) else mret (false, rn)
      end
  end.

(** ** The operations on a trie

    A level of nodes takes at least one nibble of the key, and may have to be loaded. *)
Definition key_fuel (key : bytes) : nat := 2 * length key + 2.

Definition Trie_New (root : Hash) : fallible node :=
  if bool_decide (root = zeroHash) || bool_decide (root = emptyRoot) then mret nilNode
  else resolveHash (bytes_of root) [].

Definition TryGet (key : bytes) (root : node) : fallible (bytes * node) :=
  let k := keybytesToHex key in
  '(value, newroot, didResolve) ← tryGet (key_fuel k) root k 0;
  mret (value, if (didResolve : bool) then newroot else root).

Definition TryDelete (key : bytes) (root : node) : fallible node :=
  let k := keybytesToHex key in
  '(_, n) ← delete_node (key_fuel k) root [] k;
  mret n.

Definition TryUpdate (key value : bytes) (root : node) : fallible node :=
  let k := keybytesToHex key in
  match value with
  | [] => TryDelete key root
  | _ => '(_, n) ← insert_node (key_fuel k) root [] k (valueNode value); mret n
  end.
End trie.

(** ** Hashing and writing

    [None] of the database only hashes. *)
Section hasher.
Context `{C : Crypto}.

(** The RLP of a node; an error of the encoder panics. *)
Definition encode_node (n : node) : res bytes :=
  match EncodeToBytes (node_gval n) with
  | inr r => r
  | inl _ => Panic
  end.

(** [store], without the callback on leaves, which counts references. *)
Definition store (n : node) (db : option Database) (force : bool) : res (node * option Database) :=
  match n with
  | nilNode | hashNode _ => mret (n, db)
  | _ =>
      tmp ← encode_node n;
      if (length tmp <? 32)%nat && negb force then mret (n, db)
      else
        let hash := match (cache n).1 with Some h => h | None => bytes_of (keccak256 tmp) end in
        match db with
        | None => mret (hashNode hash, db)
        | Some d =>
            match td_dirties d !! BytesToHash hash with
            | Some _ => mret (hashNode hash, db)
            | None =>
                match simplifyNode n with
                | Some r => mret (hashNode hash, Some (Database_insert (BytesToHash hash) r d))
                | None => Panic
                end
            end
        end
  end.

(** The flags of the node that replaces a hashed one. *)
Definition set_cached (hashed : node) (committed : bool) (n : node) : node :=
  let h := match hashed with hashNode h => Some h | _ => None end in
  match n with
  | shortNode k v f => shortNode k v (MkFlag h (if committed then false else nf_dirty f))
  | fullNode cs f => fullNode cs (MkFlag h (if committed then false else nf_dirty f))
  | _ => n
  end.

(** The loop of [hashChildren] over the children of a full node, but for the last one. *)
Definition hash_children (hash : node -> option Database -> res (node * node * option Database)) :=
  fix go (i : nat) (cs : list node) (db : option Database) : res (list node * list node * option Database) :=
    match cs with
    | [] => mret ([], [], db)
    | c :: r =>
        '(h, c', db) ← (match c with
                        | nilNode => mret (c, c, db)
                        | _ => if (i <? 16)%nat then hash c db else mret (c, c, db)
                        end);
        '(hs, cs', db) ← go (S i) r db;
        mret (h :: hs, c' :: cs', db)
    end.

(** The second half of [hash]: the collapsed node is stored, the other one keeps its hash. *)
Definition finish (collapsed cached : node) (db : option Database) (force : bool) : res (node * node * option Database) :=
  '(hashed, db) ← store collapsed db force;
  mret (hashed, set_cached hashed (bool_decide (is_Some db)) cached, db).

(** [hasher.hash] and [hashChildren]: the collapsed node and the node with its hashes. *)
Fixpoint hash_node (n : node) (db : option Database) (force : bool) : res (node * node * option Database) :=
  match cache n, db with
  | (Some h, _), None => mret (hashNode h, n, db)
  | (Some h, false), Some _ => mret (hashNode h, hashNode h, db)
  | _, _ =>
      match n with
      | nilNode => Panic      (* a method of nil *)
      | shortNode k v f =>
          match v with
          | valueNode _ => finish (shortNode (hexToCompact k) v f) n db force
          | _ => '(hv, cv, db) ← hash_node v db false;
                 finish (shortNode (hexToCompact k) hv f) (shortNode k cv f) db force
          end
      | fullNode cs f =>
          '(hs, cs', db) ← hash_children (fun c db => hash_node c db false) O cs db;
          finish (fullNode hs f) (fullNode cs' f) db force
      | _ => finish n n db force
      end
  end.

(** [hashChildren] by itself, as proofs use it. *)
Definition hashChildren (n : node) (db : option Database) : res (node * node * option Database) :=
  match n with
  | shortNode k v f =>
      match v with
      | valueNode _ => mret (shortNode (hexToCompact k) v f, n, db)
      | _ => '(hv, cv, db) ← hash_node v db false;
             mret (shortNode (hexToCompact k) hv f, shortNode k cv f, db)
      end
  | fullNode cs f =>
      '(hs, cs', db) ← hash_children (fun c db => hash_node c db false) O cs db;
      mret (fullNode hs f, fullNode cs' f, db)
  | _ => mret (n, n, db)
  end.

(** [hashRoot] *)
Definition hashRoot (root : node) (db : option Database) : res (node * node * option Database) :=
  match root with
  | nilNode => mret (hashNode (bytes_of emptyRoot), nilNode, db)
  | _ => hash_node root db true
  end.

Definition root_hash (n : node) : res Hash := match n with hashNode h => mret (BytesToHash h) | _ => Panic end.

Definition Trie_Hash (root : node) : res (Hash * node) :=
  '(hash, cached, _) ← hashRoot root None;
  h ← root_hash hash;
  mret (h, cached).

Definition Trie_Commit (root : node) (db : Database) : res (Hash * node * Database) :=
  '(hash, cached, db') ← hashRoot root (Some db);
  h ← root_hash hash;
  match db' with Some d => mret (h, cached, d) | None => Panic end.
End hasher.
