(* ===== verification/TriePure.v ===== *)
(** * Tries without a database

    The trie a root node stands for once all its nodes are loaded, with lookup, insertion
    and deletion on it. Tries in reduced form are maps: lookups after an insertion or a
    deletion are those of a map, and tries with the same contents are equal. *)

From S2P Require Import Prelude Bytes RlpEncode RlpDecode RlpCanonical RlpRaw TrieEncoding Types Fallible TrieNode Trie.

#[warnings="-register-all"]
Inductive ptree : Type :=
  | PNil
  | PShort (k : bytes) (c : ptree)
  | PFull (cs : list ptree)
  | PVal (v : bytes).

Section ptree_ind.
Context (P : ptree -> Prop).
Hypothesis HNil : P PNil.
Hypothesis HShort : forall k c, P c -> P (PShort k c).
Hypothesis HFull : forall cs, Forall P cs -> P (PFull cs).
Hypothesis HVal : forall v, P (PVal v).

Fixpoint ptree_nested_ind (t : ptree) : P t :=
  match t with
  | PNil => HNil
  | PShort k c => HShort k c (ptree_nested_ind c)
  | PFull cs => HFull cs ((fix go l : Forall P l := match l with [] => Forall_nil_2 P | c :: r => Forall_cons_2 P c r (ptree_nested_ind c) (go r) end) cs)
  | PVal v => HVal v
  end.
End ptree_ind.

(** ** Operations *)

(** What is left of a key after a prefix. *)
Fixpoint strip (p key : bytes) : option bytes :=
  match p, key with
  | [], _ => Some key
  | x :: p', y :: key' => if bool_decide (x = y) then strip p' key' else None
  | _ :: _, [] => None
  end.

Fixpoint pget (t : ptree) (key : bytes) : option bytes :=
  match t with
  | PNil => None
  | PVal v => Some v
  | PShort k c => match strip k key with Some rest => pget c rest | None => None end
  | PFull cs =>
      match key with
      | [] => None
      | b :: rest =>
          (fix go (l : list ptree) (i : nat) : option bytes :=
             match l, i with
             | [], _ => None
             | c :: _, O => pget c rest
             | _ :: r, S i => go r i
             end) cs (index b)
      end
  end.

(** A subtree below a key. *)
Definition pleaf (key : bytes) (value : ptree) : ptree := match key with [] => value | _ => PShort key value end.

Fixpoint pinsert (t : ptree) (key : bytes) (value : ptree) : ptree :=
  match key with
  | [] => value
  | k0 :: krest =>
      match t with
      | PNil | PVal _ => PShort key value
      | PShort nk c =>
          let m := prefixLen key nk in
          if (m =? length nk)%nat then PShort nk (pinsert c (drop m key) value)
          else
            let branch := PFull (<[index (default term (key !! m)) := pleaf (drop (S m) key) value]>
                                 (<[index (default term (nk !! m)) := pleaf (drop (S m) nk) c]> (replicate 17 PNil))) in
            if (m =? 0)%nat then branch else PShort (take m key) branch
      | PFull cs => PFull (alter (fun c => pinsert c krest value) (index k0) cs)
      end
  end.

(** The only child of a full node. *)
Definition is_nil (t : ptree) : bool := match t with PNil => true | _ => false end.

Fixpoint only_child (i : nat) (cs : list ptree) : option (nat * ptree) :=
  match cs with
  | [] => None
  | PNil :: r => only_child (S i) r
  | c :: r => if forallb is_nil r then Some (i, c) else None
  end.

Definition reduce (cs : list ptree) : ptree :=
  match only_child 0 cs with
  | None => PFull cs
  | Some (i, PShort k c) => if (i =? 16)%nat then PShort [byte_of_Z (Z.of_nat i)] (PShort k c)
                            else PShort (byte_of_Z (Z.of_nat i) :: k) c
  | Some (i, c) => PShort [byte_of_Z (Z.of_nat i)] c
  end.

Fixpoint pdelete (t : ptree) (key : bytes) : ptree :=
  match t with
  | PNil => PNil
  | PVal _ => PNil
  | PShort nk c =>
      let m := prefixLen key nk in
      if (m <? length nk)%nat then t
      else if (m =? length key)%nat then PNil
      else match pdelete c (drop (length nk) key) with
           | PShort ck cc => PShort (nk ++ ck) cc
           | c' => PShort nk c'
           end
  | PFull cs =>
      match key with
      | [] => t
      | k0 :: krest => reduce (alter (fun c => pdelete c krest) (index k0) cs)
      end
  end.

(** ** Reduced tries *)

(** The child at position [i] of a full node. *)
Definition child_ok (wf : ptree -> Prop) (i : nat) (c : ptree) : Prop :=
  match c with
  | PNil => True
  | PVal v => i = 16%nat /\ v <> []
  | _ => (i < 16)%nat /\ wf c
  end.

Definition two_children (cs : list ptree) : Prop :=
  exists i j c d, i <> j /\ cs !! i = Some c /\ cs !! j = Some d /\ c <> PNil /\ d <> PNil.

Fixpoint wf (t : ptree) : Prop :=
  match t with
  | PShort k c =>
      match c with
      | PVal v => terminated k /\ v <> []
      | PFull _ => path k /\ k <> [] /\ wf c
      | _ => False
      end
  | PFull cs =>
      length cs = 17%nat /\ two_children cs /\
      (fix go (i : nat) (l : list ptree) : Prop :=
         match l with [] => True | c :: r => child_ok wf i c /\ go (S i) r end) 0%nat cs
  | _ => False
  end.

Definition wf_root (t : ptree) : Prop := t = PNil \/ wf t.

(** ** Keys *)
Lemma index_lt b : nibble b -> (index b < 16)%nat.
Proof. unfold nibble, index. pose proof (Z_of_byte_range b). lia. Qed.

Lemma index_term : index term = 16%nat.
Proof. done. Qed.

#[export] Instance index_inj : Inj (=) (=) index.
Proof.
  intros a b. unfold index. pose proof (Z_of_byte_range a). pose proof (Z_of_byte_range b). intros H1.
  apply (inj Z_of_byte). lia.
Qed.

Lemma byte_of_index i : (i < 256)%nat -> index (byte_of_Z (Z.of_nat i)) = i.
Proof. intros Hi. unfold index. rewrite Z_of_byte_of_Z, Z.mod_small by lia. lia. Qed.

Lemma index_of_byte b : byte_of_Z (Z.of_nat (index b)) = b.
Proof. unfold index. pose proof (Z_of_byte_range b). rewrite Z2Nat.id by lia. apply byte_of_Z_of_byte. Qed.

Lemma nibble_not_term b : nibble b -> b <> term.
Proof. unfold nibble. intros Hb ->. rewrite Z_of_term in Hb. lia. Qed.

Lemma nibble_of_index i : (i < 16)%nat -> nibble (byte_of_Z (Z.of_nat i)).
Proof. intros Hi. unfold nibble. rewrite Z_of_byte_of_Z, Z.mod_small; lia. Qed.

Lemma terminated_cons b k : terminated (b :: k) <-> (b = term /\ k = []) \/ (nibble b /\ terminated k).
Proof.
  split.
  - intros ([|x p] & Hp & He); [left; by injection He|right]. injection He as -> ->. inversion Hp; subst.
    split; [done|by exists p].
  - intros [[-> ->]|[Hb (p & Hp & ->)]]; [exists []; split; [constructor|done]|]. exists (b :: p). split; [by constructor|done].
Qed.

Lemma terminated_nil : ~ terminated [].
Proof. intros (p & _ & He). by destruct p. Qed.

Lemma terminated_app p k : path p -> terminated (p ++ k) <-> terminated k.
Proof.
  intros Hp. induction Hp as [|b p Hb Hp IH]; [done|]. cbn [app]. rewrite terminated_cons, IH. split; [|by right].
  intros [[-> _]|[_ Hk]]; [|done]. by destruct (nibble_not_term _ Hb).
Qed.

(** No key is a proper prefix of another one. *)
Lemma terminated_prefix a b : terminated a -> terminated (a ++ b) -> b = [].
Proof.
  induction a as [|x a IH]; intros Ha Hab; [by apply terminated_nil in Ha|]. cbn [app] in Hab.
  apply terminated_cons in Ha as [[-> ->]|[Hx Ha]]; apply terminated_cons in Hab as [[Ht He]|[Hx' Hab]]; [done| | |by apply IH].
  - by destruct (nibble_not_term _ Hx').
  - subst x. by destruct (nibble_not_term _ Hx).
Qed.

Lemma terminated_not_path p k : path p -> ~ terminated k \/ p <> k.
Proof.
  intros Hp. destruct (decide (p = k)) as [<-|]; [|by right]. left. intros (q & _ & ->).
  apply Forall_app in Hp as [_ Hp]. inversion Hp as [|? ? Hn _]. by destruct (nibble_not_term _ Hn).
Qed.

Lemma strip_app p key : strip p (p ++ key) = Some key.
Proof. induction p as [|x p IH]; [done|]. cbn. by rewrite bool_decide_eq_true_2. Qed.

Lemma strip_Some p key rest : strip p key = Some rest <-> key = p ++ rest.
Proof.
  split; [|intros ->; apply strip_app]. revert key. induction p as [|x p IH]; intros key; cbn; [by intros [= ->]|].
  destruct key as [|y key]; [done|]. case_bool_decide as Hxy; [|done]. subst y. by intros ->%IH.
Qed.

Lemma strip_app_app p k key : strip (p ++ k) (p ++ key) = strip k key.
Proof. induction p as [|x p IH]; [done|]. cbn. by rewrite bool_decide_eq_true_2. Qed.

Lemma strip_app_l p k key : strip (p ++ k) key = match strip p key with Some r => strip k r | None => None end.
Proof.
  revert key. induction p as [|x p IH]; intros key; [done|]. cbn. destruct key as [|y key]; [done|]. by case_bool_decide.
Qed.

(** ** Unfolding *)
Lemma pget_full cs b rest : pget (PFull cs) (b :: rest) = match cs !! index b with Some c => pget c rest | None => None end.
Proof.
  cbn [pget]. generalize (index b). induction cs as [|c cs IH]; intros [|i]; done || apply IH.
Qed.

Lemma pget_short k c key : pget (PShort k c) key = match strip k key with Some r => pget c r | None => None end.
Proof. done. Qed.

Lemma wf_children cs i :
  (fix go (i : nat) (l : list ptree) : Prop := match l with [] => True | c :: r => child_ok wf i c /\ go (S i) r end) i cs <->
  forall j c, cs !! j = Some c -> child_ok wf (i + j) c.
Proof.
  revert i. induction cs as [|c cs IH]; intros i; [done|]. rewrite IH. split.
  - intros [Hc Hr] [|j] d; cbn; [intros [= <-]; by rewrite Nat.add_0_r|]. intros Hd. rewrite Nat.add_succ_r. by apply (Hr j).
  - intros H. split; [rewrite <- (Nat.add_0_r i); by apply (H O)|]. intros j d Hd. rewrite Nat.add_succ_comm. by apply (H (S j)).
Qed.

Lemma wf_full cs :
  wf (PFull cs) <-> length cs = 17%nat /\ two_children cs /\ forall j c, cs !! j = Some c -> child_ok wf j c.
Proof. cbn [wf]. by rewrite (wf_children cs 0). Qed.

Lemma wf_ext k cs : wf (PShort k (PFull cs)) <-> path k /\ k <> [] /\ wf (PFull cs).
Proof. done. Qed.

Lemma wf_leaf k v : wf (PShort k (PVal v)) <-> terminated k /\ v <> [].
Proof. done. Qed.

Lemma wf_nonnil t : wf t -> t <> PNil.
Proof. by destruct t. Qed.

(** ** Insertion *)

(** Replacing a child. *)
Lemma get_insert_child cs i c b rest :
  (i < length cs)%nat ->
  pget (PFull (<[i := c]> cs)) (b :: rest) = if decide (index b = i) then pget c rest else pget (PFull cs) (b :: rest).
Proof.
  intros Hi. rewrite !pget_full. destruct (decide (index b = i)) as [->|Hne].
  - by rewrite list_lookup_insert_eq.
  - by rewrite list_lookup_insert_ne.
Qed.

Lemma pget_empty_full b rest : pget (PFull (replicate 17 PNil)) (b :: rest) = None.
Proof. rewrite pget_full. destruct (replicate 17 PNil !! index b) eqn:E; [|done]. by apply lookup_replicate in E as [-> _]. Qed.

Lemma pget_pleaf k c key : pget (pleaf k c) key = match strip k key with Some r => pget c r | None => None end.
Proof. by destruct k. Qed.

(** What is left of a short node behind the nibble where the keys part. *)
Lemma pleaf_ok i k c :
  (exists v, c = PVal v /\ v <> [] /\ terminated (i :: k)) \/ (exists cs, c = PFull cs /\ wf c /\ path (i :: k)) ->
  child_ok wf (index i) (pleaf k c) /\ pleaf k c <> PNil /\ (index i < 17)%nat.
Proof.
  intros [(v & -> & Hv & Ht)|(cs & -> & Hw & Hp)].
  - apply terminated_cons in Ht as [[-> ->]|[Hi Ht]]; cbn [pleaf child_ok].
    + rewrite index_term. split_and!; [done..|lia].
    + pose proof (index_lt i Hi). destruct k as [|x k]; [by apply terminated_nil in Ht|]. cbn. split_and!; [done..|lia].
  - inversion Hp as [|? ? Hi Hk]; subst. pose proof (index_lt i Hi). destruct k as [|x k]; cbn [pleaf child_ok].
    + split_and!; [done..|lia].
    + rewrite wf_ext. split_and!; [done..|lia].
Qed.

Lemma two_children_insert cs i j c d :
  (i < length cs)%nat -> (j < length cs)%nat -> i <> j -> c <> PNil -> d <> PNil -> two_children (<[j := d]> (<[i := c]> cs)).
Proof.
  intros Hi Hj Hij Hc Hd. exists i, j, c, d. split_and!; try done.
  - by rewrite list_lookup_insert_ne, list_lookup_insert_eq.
  - by rewrite list_lookup_insert_eq by (rewrite length_insert; done).
Qed.

Definition branch (i : byte) (c : ptree) (j : byte) (d : ptree) : ptree :=
  PFull (<[index j := d]> (<[index i := c]> (replicate 17 PNil))).

Lemma pinsert_short nk c key value :
  key <> [] ->
  pinsert (PShort nk c) key value =
  let m := prefixLen key nk in
  if (m =? length nk)%nat then PShort nk (pinsert c (drop m key) value)
  else pleaf (take m key) (branch (default term (nk !! m)) (pleaf (drop (S m) nk) c)
                                  (default term (key !! m)) (pleaf (drop (S m) key) value)).
Proof.
  intros Hk. destruct key as [|x key]; [done|]. cbn [pinsert]. cbv zeta. destruct (prefixLen (x :: key) nk =? length nk)%nat; [done|].
  by destruct (prefixLen (x :: key) nk).
Qed.

Lemma drop_middle {A} (p : list A) x l : drop (S (length p)) (p ++ x :: l) = l.
Proof. induction p as [|y p IH]; [done|exact IH]. Qed.

Lemma pinsert_below nk c key value : nk <> [] -> pinsert (PShort nk c) (nk ++ key) value = PShort nk (pinsert c key value).
Proof.
  intros Hk. assert (Hm : prefixLen (nk ++ key) nk = length nk).
  { rewrite <- (app_nil_r nk) at 2. by apply prefixLen_app. }
  rewrite pinsert_short by (by destruct nk). cbv zeta. by rewrite Hm, Nat.eqb_refl, drop_app_length.
Qed.

Lemma pinsert_branch p i nk c j key value :
  i <> j ->
  pinsert (PShort (p ++ i :: nk) c) (p ++ j :: key) value = pleaf p (branch i (pleaf nk c) j (pleaf key value)).
Proof.
  intros Hij. assert (Hm : prefixLen (p ++ j :: key) (p ++ i :: nk) = length p) by (apply prefixLen_app; congruence).
  rewrite pinsert_short by (by destruct p). cbv zeta. rewrite Hm, !list_lookup_middle, !drop_middle, take_app_length by done.
  cbn [default]. destruct (Nat.eqb_spec (length p) (length (p ++ i :: nk))) as [E|]; [|done].
  rewrite length_app in E. cbn in E. lia.
Qed.

Lemma branch_get i c j d b r :
  (index i < 17)%nat -> (index j < 17)%nat ->
  pget (branch i c j d) (b :: r) = if decide (b = j) then pget d r else if decide (b = i) then pget c r else None.
Proof.
  intros Hi Hj. unfold branch. rewrite get_insert_child by (rewrite length_insert; exact Hj). destruct (decide (b = j)) as [->|Hbj].
  { by rewrite decide_True. }
  rewrite decide_False by (intros E%(inj index); done). rewrite get_insert_child by exact Hi. destruct (decide (b = i)) as [->|Hbi].
  { by rewrite decide_True. }
  rewrite decide_False by (intros E%(inj index); done). apply pget_empty_full.
Qed.

Lemma branch_wf i c j d :
  i <> j -> child_ok wf (index i) c -> child_ok wf (index j) d -> c <> PNil -> d <> PNil ->
  (index i < 17)%nat -> (index j < 17)%nat -> wf (branch i c j d).
Proof.
  intros Hij Hc Hd Hcn Hdn Hi Hj. apply wf_full. split_and!; [by rewrite !length_insert| |].
  - apply two_children_insert; try done. intros E%(inj index). done.
  - intros k x Hx. destruct (decide (k = index j)) as [->|].
    { rewrite list_lookup_insert_eq in Hx by (rewrite length_insert; exact Hj). by injection Hx as <-. }
    rewrite list_lookup_insert_ne in Hx by done. destruct (decide (k = index i)) as [->|].
    { rewrite list_lookup_insert_eq in Hx by exact Hi. by injection Hx as <-. }
    rewrite list_lookup_insert_ne in Hx by done. by apply lookup_replicate in Hx as [-> _].
Qed.

Lemma pget_leaf k v key :
  terminated k -> terminated key -> pget (PShort k (PVal v)) key = if decide (key = k) then Some v else None.
Proof.
  intros Hk Hkey. cbn [pget]. destruct (strip k key) as [r|] eqn:E.
  - apply strip_Some in E as ->. rewrite (terminated_prefix k r Hk Hkey), app_nil_r, decide_True by done. done.
  - rewrite decide_False; [done|]. intros ->. rewrite <- (app_nil_r k) in E at 2. by rewrite strip_app in E.
Qed.

(** What the map is after an insertion. *)
Definition inserted (t : ptree) (key v : bytes) (t' : ptree) : Prop :=
  wf t' /\ forall key', terminated key' -> pget t' key' = if decide (key' = key) then Some v else pget t key'.

Lemma inserted_branch p i nk c j key v :
  i <> j -> path p -> terminated (j :: key) -> v <> [] ->
  (exists w, c = PVal w /\ w <> [] /\ terminated (i :: nk)) \/ (exists cs, c = PFull cs /\ wf c /\ path (i :: nk)) ->
  inserted (PShort (p ++ i :: nk) c) (p ++ j :: key) v (pleaf p (branch i (pleaf nk c) j (pleaf key (PVal v)))).
Proof.
  intros Hij Hp Hj Hv Hc. destruct (pleaf_ok i nk c Hc) as (Hi1 & Hi2 & Hi3).
  destruct (pleaf_ok j key (PVal v)) as (Hj1 & Hj2 & Hj3); [left; by exists v|]. split.
  - assert (Hw : wf (branch i (pleaf nk c) j (pleaf key (PVal v)))) by by apply branch_wf.
    destruct p as [|x p]; [done|]. by apply wf_ext.
  - intros key' Hk'. rewrite pget_pleaf. cbn [pget]. rewrite strip_app_l. destruct (strip p key') as [r|] eqn:E.
    + apply strip_Some in E as ->. apply terminated_app in Hk'; [|done]. destruct r as [|b r]; [by apply terminated_nil in Hk'|].
      rewrite branch_get, !pget_pleaf by done. cbn [strip]. destruct (decide (b = j)) as [->|Hb].
      * rewrite (bool_decide_eq_false_2 (i = j)) by done. destruct (strip key r) as [r'|] eqn:Er.
        -- apply strip_Some in Er as ->. change (j :: key ++ r') with ((j :: key) ++ r') in Hk'.
           apply terminated_prefix in Hk' as ->; [|done]. rewrite app_nil_r, decide_True by done. done.
        -- rewrite decide_False; [done|]. intros [= ->]%(inj (app p)). rewrite <- (app_nil_r key) in Er at 2.
           by rewrite strip_app in Er.
      * rewrite (decide_False (P := p ++ b :: r = p ++ j :: key)) by (intros [= -> _]%(inj (app p)); done). destruct (decide (b = i)) as [->|Hbi].
        -- by rewrite bool_decide_eq_true_2.
        -- by rewrite bool_decide_eq_false_2.
    + rewrite decide_False; [done|]. intros ->. by rewrite strip_app in E.
Qed.

Lemma path_app_inv p b k : path (p ++ b :: k) -> path p /\ nibble b /\ path k.
Proof. intros [? H]%Forall_app. by inversion H. Qed.

(** The keys of a short node part from another key inside of it. *)
Lemma short_parts nk c key :
  wf (PShort nk c) -> terminated key ->
  (exists key', key = nk ++ key' /\ prefixLen key nk = length nk) \/
  (exists p i nk' j key', nk = p ++ i :: nk' /\ key = p ++ j :: key' /\ i <> j /\ path p /\ terminated (j :: key')).
Proof.
  intros Hw Hkey. destruct (prefixLen_spec key nk) as (p & a & b & -> & -> & Hm & Hne). destruct b as [|i nk'].
  { left. rewrite app_nil_r in *. by exists a. }
  right. assert (Hp : path p).
  { destruct c as [| |cs|v]; cbn [wf] in Hw; try done.
    - destruct Hw as [Hp _]. by apply path_app_inv in Hp as [? _].
    - destruct Hw as [(q & Hq & He) _]. destruct (exists_last (l := i :: nk')) as (l & x & El); [done|].
      rewrite El, app_assoc in He. apply app_inj_tail in He as [<- _]. by apply Forall_app in Hq as [? _]. }
  apply terminated_app in Hkey; [|done]. destruct a as [|j key']; [by apply terminated_nil in Hkey|].
  exists p, i, nk', j, key'. split_and!; try done. intros ->. by eapply Hne.
Qed.

Lemma short_child nk c p i nk' :
  wf (PShort nk c) -> nk = p ++ i :: nk' -> path p ->
  (exists w, c = PVal w /\ w <> [] /\ terminated (i :: nk')) \/ (exists cs, c = PFull cs /\ wf c /\ path (i :: nk')).
Proof.
  intros Hw -> Hp. destruct c as [| |cs|v]; try done.
  - right. apply wf_ext in Hw as (Hk & _ & Hw). apply path_app_inv in Hk as (_ & ? & ?). exists cs. split_and!; [done..|by constructor].
  - left. apply wf_leaf in Hw as [Ht Hv]. exists v. split_and!; [done..|]. by apply terminated_app in Ht.
Qed.

Lemma pinsert_full_shape cs key value : key <> [] -> exists cs', pinsert (PFull cs) key value = PFull cs'.
Proof. destruct key; [done|]. cbn. eauto. Qed.

Lemma alter_insert {A} (f : A -> A) i (l : list A) c : l !! i = Some c -> alter f i l = <[i := f c]> l.
Proof.
  intros Hc. apply list_eq. intros j. destruct (decide (j = i)) as [->|Hne].
  - rewrite list_lookup_alter_eq, Hc, list_lookup_insert_eq; [done|by eapply lookup_lt_Some].
  - by rewrite list_lookup_alter_ne, list_lookup_insert_ne.
Qed.

Lemma two_children_replace cs i c :
  two_children cs -> c <> PNil -> (i < length cs)%nat -> two_children (<[i := c]> cs).
Proof.
  intros (a & b & x & y & Hab & Ha & Hb & Hx & Hy) Hc Hi.
  destruct (decide (a = i)) as [->|Hai]; [|destruct (decide (b = i)) as [->|Hbi]].
  - exists i, b, c, y. rewrite list_lookup_insert_eq, list_lookup_insert_ne by done. done.
  - exists a, i, x, c. rewrite list_lookup_insert_eq, list_lookup_insert_ne by done. done.
  - exists a, b, x, y. rewrite !list_lookup_insert_ne by done. done.
Qed.

Lemma insert_child_wf cs i c :
  wf (PFull cs) -> (i < 17)%nat -> child_ok wf i c -> c <> PNil -> wf (PFull (<[i := c]> cs)).
Proof.
  rewrite !wf_full. intros (Hl & Ht & Hc) Hi Hok Hn. split_and!; [by rewrite length_insert|apply two_children_replace; [done..|lia]|].
  intros j d Hd. destruct (decide (j = i)) as [->|]; [|rewrite list_lookup_insert_ne in Hd by done; by apply Hc].
  rewrite list_lookup_insert_eq in Hd by lia. by injection Hd as <-.
Qed.

Lemma child_wf i c : child_ok wf i c -> (i < 16)%nat -> wf_root c.
Proof. intros Hc Hi. destruct c; cbn [child_ok] in Hc; [by left|right; apply Hc..|lia]. Qed.

Lemma wf_child i c : wf c -> (i < 16)%nat -> child_ok wf i c.
Proof. by destruct c. Qed.

Lemma terminated_tail b k : nibble b -> terminated (b :: k) -> terminated k.
Proof. intros Hb [[-> _]|[_ ?]]%terminated_cons; [by destruct (nibble_not_term _ Hb)|done]. Qed.

Lemma child_inserted b c key v :
  child_ok wf (index b) c -> terminated (b :: key) -> v <> [] ->
  (wf_root c -> forall key, terminated key -> inserted c key v (pinsert c key (PVal v))) ->
  let c' := pinsert c key (PVal v) in
  child_ok wf (index b) c' /\ c' <> PNil /\
  forall r, terminated (b :: r) -> pget c' r = if decide (r = key) then Some v else pget c r.
Proof.
  intros Hc Hk Hv IH c'. pose proof Hk as [[-> ->]|[Hb Hkey]]%terminated_cons.
  - assert (c' = PVal v) as -> by (unfold c'; by destruct c). split_and!; [done..|].
    intros r [[_ ->]|[Hn _]]%terminated_cons; [done|by destruct (nibble_not_term _ Hn)].
  - pose proof (index_lt b Hb) as Hi. destruct (IH (child_wf _ _ Hc Hi) key Hkey) as [Hw Hg]. split_and!.
    + by apply wf_child.
    + by apply wf_nonnil.
    + intros r Hr. by apply Hg, (terminated_tail b).
Qed.

Lemma pinsert_spec t key v : wf_root t -> terminated key -> v <> [] -> inserted t key v (pinsert t key (PVal v)).
Proof.
  intros Ht Hk Hv. revert key Hk. induction t as [|nk c IH|cs IH|w] using ptree_nested_ind; intros key Hk.
  - assert (pinsert PNil key (PVal v) = PShort key (PVal v)) as -> by (destruct key; [by apply terminated_nil in Hk|done]).
    split; [done|]. intros key' Hk'. by apply pget_leaf.
  - destruct Ht as [|Hw]; [done|]. destruct (short_parts nk c key Hw Hk) as [(key' & -> & _)|(p & i & nk' & j & key' & Hnk & -> & Hij & Hp & Hj)].
    + destruct c as [| |cs|w]; try done.
      * apply wf_ext in Hw as (Hnk & Hne & Hw). rewrite pinsert_below by done. apply terminated_app in Hk; [|done].
        destruct (IH (or_intror Hw) key' Hk) as [Hw' Hg]. destruct (pinsert_full_shape cs key' (PVal v)) as (cs' & E).
        { intros ->. by apply terminated_nil in Hk. }
        rewrite E in *. split; [by apply wf_ext|]. intros x Hx. rewrite !pget_short. destruct (strip nk x) as [r|] eqn:Es.
        -- apply strip_Some in Es as ->. apply terminated_app in Hx; [|done]. rewrite Hg by done. destruct (decide (r = key')) as [->|]; [by rewrite decide_True|].
           rewrite decide_False; [done|]. by intros ?%(inj (app nk)).
        -- rewrite decide_False; [done|]. intros ->. by rewrite strip_app in Es.
      * apply wf_leaf in Hw as [Hnk Hw]. rewrite (terminated_prefix nk key' Hnk Hk) in *. rewrite pinsert_below.
        2: { intros ->. by apply terminated_nil in Hnk. }
        rewrite app_nil_r. change (pinsert (PVal w) [] (PVal v)) with (PVal v). split; [done|]. intros x Hx.
        rewrite !pget_leaf by done. by destruct (decide (x = nk)).
    + pose proof (short_child nk c p i nk' Hw Hnk Hp) as Hc. subst nk. rewrite pinsert_branch by done. by apply inserted_branch.
  - destruct Ht as [|Hw]; [done|]. destruct key as [|b key]; [by apply terminated_nil in Hk|]. cbn [pinsert].
    pose proof Hw as (Hl & Htwo & Hcs)%wf_full.
    assert (Hb : (index b < 17)%nat).
    { apply terminated_cons in Hk as [[-> _]|[Hn _]]; [rewrite index_term; lia|pose proof (index_lt b Hn); lia]. }
    destruct (cs !! index b) as [c|] eqn:Ec; [|apply lookup_ge_None in Ec; lia]. rewrite (alter_insert _ _ _ _ Ec).
    assert (Hnew : child_ok wf (index b) (pinsert c key (PVal v)) /\ pinsert c key (PVal v) <> PNil /\
                   forall r, terminated (b :: r) -> pget (pinsert c key (PVal v)) r = if decide (r = key) then Some v else pget c r).
    { apply child_inserted; [by apply Hcs|done..|]. intros Hc. by apply (Forall_lookup_1 _ _ _ _ IH Ec). }
    destruct Hnew as (Hok & Hn & Hg). split; [by apply insert_child_wf|]. intros [|x r] Hx; [by apply terminated_nil in Hx|].
    rewrite get_insert_child by lia. destruct (decide (index x = index b)) as [->%(inj index)|Hxb].
    + rewrite Hg, pget_full, Ec by done. destruct (decide (r = key)) as [->|]; [by rewrite decide_True|].
      rewrite decide_False by congruence. done.
    + rewrite decide_False by congruence. done.
  - by destruct Ht.
Qed.

(** ** Deletion *)
Lemma only_child_Some i cs j c :
  only_child i cs = Some (j, c) ->
  exists m, j = (i + m)%nat /\ cs !! m = Some c /\ c <> PNil /\ forall k d, cs !! k = Some d -> k <> m -> d = PNil.
Proof.
  revert i. induction cs as [|x cs IH]; intros i; [done|].
  assert (Hx : x <> PNil -> (if forallb is_nil cs then Some (i, x) else None) = Some (j, c) ->
    exists m, j = (i + m)%nat /\ (x :: cs) !! m = Some c /\ c <> PNil /\ forall k d, (x :: cs) !! k = Some d -> k <> m -> d = PNil).
  { intros Hn. destruct (forallb is_nil cs) eqn:E; [|done]. intros [= <- <-]. exists O. split_and!; [lia|done..|].
    intros [|k] d Hd Hk; [done|]. rewrite forallb_forall in E. specialize (E d). rewrite <- list_elem_of_In in E.
    apply (list_elem_of_lookup_2 cs k), E in Hd. by destruct d. }
  destruct x; cbn [only_child]; try (by apply Hx). intros (m & -> & Hm & Hc & Ho)%IH. exists (S m). split_and!; [lia|done..|].
  intros [|k] d Hd Hk; [by injection Hd as <-|]. by eapply Ho; [exact Hd|lia].
Qed.

Lemma not_all_nil cs : forallb is_nil cs = false -> exists k d, cs !! k = Some d /\ d <> PNil.
Proof.
  induction cs as [|x cs IH]; [done|]. cbn [forallb]. destruct (is_nil x) eqn:E; [|by exists O, x; destruct x].
  intros (k & d & Hk & Hd)%IH. by exists (S k), d.
Qed.

Lemma only_child_None i cs : only_child i cs = None -> (exists k d, cs !! k = Some d /\ d <> PNil) -> two_children cs.
Proof.
  revert i. induction cs as [|x cs IH]; intros i; [by intros _ (k & d & Hk & _)|].
  assert (Hx : x <> PNil -> (if forallb is_nil cs then Some (i, x) else None) = None -> two_children (x :: cs)).
  { intros Hn. destruct (forallb is_nil cs) eqn:E; [done|]. apply not_all_nil in E as (k & d & Hk & Hd). intros _.
    by exists O, (S k), x, d. }
  destruct x; cbn [only_child]; try (by intros ? _; apply Hx). intros Hc (k & d & Hk & Hd).
  destruct k as [|k]; [by injection Hk as <-|]. destruct (IH (S i) Hc) as (a & b & y & z & Hab & Ha & Hb & Hy & Hz); [eauto|].
  exists (S a), (S b), y, z. split_and!; try done. lia.
Qed.

(** A full node with one child, put together with it. *)
Definition joined (i : nat) (c : ptree) : ptree :=
  match c with
  | PShort k d => if (i =? 16)%nat then PShort [byte_of_Z (Z.of_nat i)] c else PShort (byte_of_Z (Z.of_nat i) :: k) d
  | _ => PShort [byte_of_Z (Z.of_nat i)] c
  end.

Lemma reduce_eq cs : reduce cs = match only_child 0 cs with None => PFull cs | Some (i, c) => joined i c end.
Proof. unfold reduce. destruct (only_child 0 cs) as [[i [| | |]]|]; done. Qed.

Lemma joined_wf i c : child_ok wf i c -> c <> PNil -> wf (joined i c).
Proof.
  intros Hc Hn. destruct c as [|k d|cs|v]; cbn [joined child_ok] in *; [done|..].
  - destruct Hc as [Hi Hw]. rewrite (proj2 (Nat.eqb_neq i 16)) by lia. pose proof (nibble_of_index i Hi) as Hb.
    destruct d as [| |cs|v]; try done.
    + apply wf_ext in Hw as (Hp & _ & Hw). apply wf_ext. split_and!; [by constructor|done..].
    + apply wf_leaf in Hw as [Ht Hv]. apply wf_leaf. split; [|done]. apply terminated_cons. by right.
  - destruct Hc as [Hi Hw]. apply wf_ext. split_and!; [|done..]. constructor; [by apply nibble_of_index|constructor].
  - destruct Hc as [-> Hv]. apply wf_leaf. split; [|done]. apply terminated_cons. by left.
Qed.

Lemma joined_get i c b r :
  (i < 256)%nat -> child_ok wf i c -> pget (joined i c) (b :: r) = if decide (index b = i) then pget c r else None.
Proof.
  intros Hi Hc. assert (Hj : pget (joined i c) (b :: r) = pget (PShort [byte_of_Z (Z.of_nat i)] c) (b :: r)).
  { destruct c as [|k d|cs|v]; [done| |done..]. cbn [joined child_ok] in *. rewrite (proj2 (Nat.eqb_neq i 16)) by lia.
    rewrite !pget_short. cbn [strip]. case_bool_decide; [|done]. by rewrite pget_short. }
  rewrite Hj, pget_short. cbn [strip]. case_bool_decide as Hb.
  - rewrite <- Hb, byte_of_index, decide_True by done. done.
  - rewrite decide_False; [done|]. intros <-. by rewrite index_of_byte in Hb.
Qed.

Lemma reduce_spec cs :
  length cs = 17%nat -> (forall i c, cs !! i = Some c -> child_ok wf i c) -> (exists k d, cs !! k = Some d /\ d <> PNil) ->
  wf (reduce cs) /\ forall b r, pget (reduce cs) (b :: r) = pget (PFull cs) (b :: r).
Proof.
  intros Hl Hc Hn. rewrite reduce_eq. destruct (only_child 0 cs) as [[i c]|] eqn:E.
  - apply only_child_Some in E as (m & -> & Hm & Hcn & Ho). cbn [Nat.add]. specialize (Hc _ _ Hm) as Hok.
    split; [by apply joined_wf|]. intros b r. pose proof (lookup_lt_Some _ _ _ Hm). rewrite joined_get, pget_full by (done || lia).
    destruct (decide (index b = m)) as [->|Hb]; [by rewrite Hm|]. destruct (cs !! index b) as [d|] eqn:Ed; [|done].
    by rewrite (Ho _ _ Ed Hb).
  - split; [|done]. apply wf_full. split_and!; [done| |done]. by eapply only_child_None.
Qed.

(** What the map is after a deletion. *)
Definition deleted (t : ptree) (key : bytes) (t' : ptree) : Prop :=
  wf_root t' /\ forall key', terminated key' -> pget t' key' = if decide (key' = key) then None else pget t key'.

Lemma reduce_shape cs : (exists k c, reduce cs = PShort k c) \/ reduce cs = PFull cs.
Proof. rewrite reduce_eq. destruct (only_child 0 cs) as [[i [|k c|cs'|v]]|]; cbn [joined]; try case_match; eauto. Qed.

Lemma prefixLen_below nk key : prefixLen (nk ++ key) nk = length nk.
Proof. rewrite <- (app_nil_r nk) at 2. by apply prefixLen_app. Qed.

(** Two short nodes put together. *)
Definition below (nk : bytes) (c : ptree) : ptree :=
  match c with PShort ck cc => PShort (nk ++ ck) cc | _ => PShort nk c end.

Lemma below_get nk c key : pget (below nk c) key = pget (PShort nk c) key.
Proof. destruct c as [|ck cc| |]; try done. cbn [below]. rewrite !pget_short, strip_app_l. by destruct (strip nk key). Qed.

Lemma below_wf nk c : path nk -> nk <> [] -> wf c -> wf (below nk c).
Proof.
  intros Hp Hn Hw. destruct c as [|ck [| |cs|v]|cs|v]; try done; cbn [below].
  - apply wf_ext in Hw as (Hk & Hne & Hw). apply wf_ext. split_and!; [by apply Forall_app|by destruct nk|done].
  - apply wf_leaf in Hw as [Ht Hv]. apply wf_leaf. split; [|done]. by apply terminated_app.
Qed.

Lemma pdelete_short nk c key :
  key <> [] ->
  pdelete (PShort nk c) (nk ++ key) = below nk (pdelete c key) /\ pdelete (PShort nk c) nk = PNil.
Proof.
  intros Hk. cbn [pdelete]. rewrite prefixLen_below, Nat.ltb_irrefl, length_app, drop_app_length.
  assert (Hlen : (length nk =? length nk + length key)%nat = false) by (apply Nat.eqb_neq; destruct key; cbn in *; [done|lia]).
  rewrite Hlen. split; [by destruct (pdelete c key)|].
  pose proof (prefixLen_below nk []) as Hp. rewrite app_nil_r in Hp. by rewrite Hp, Nat.ltb_irrefl, Nat.eqb_refl.
Qed.

Lemma pdelete_other p i nk c j key :
  i <> j -> pdelete (PShort (p ++ i :: nk) c) (p ++ j :: key) = PShort (p ++ i :: nk) c /\
            pget (PShort (p ++ i :: nk) c) (p ++ j :: key) = None.
Proof.
  intros Hij. cbn [pdelete]. rewrite prefixLen_app by congruence. rewrite (proj2 (Nat.ltb_lt _ _)).
  2: { rewrite length_app. cbn. lia. }
  split; [done|]. rewrite pget_short, strip_app_app. cbn [strip]. by rewrite bool_decide_eq_false_2.
Qed.

Lemma pdelete_full_nonnil cs key : pdelete (PFull cs) key <> PNil.
Proof. destruct key as [|b key]; [done|]. cbn [pdelete]. destruct (reduce_shape (alter (fun c => pdelete c key) (index b) cs)) as [(? & ? & ->)| ->]; done. Qed.

(** A child of a full node after the deletion. *)
Lemma child_deleted b c key :
  child_ok wf (index b) c -> terminated (b :: key) ->
  (wf_root c -> forall key, terminated key -> deleted c key (pdelete c key)) ->
  let c' := pdelete c key in
  child_ok wf (index b) c' /\ forall r, terminated (b :: r) -> pget c' r = if decide (r = key) then None else pget c r.
Proof.
  intros Hc Hk IH c'. pose proof Hk as [[-> ->]|[Hb Hkey]]%terminated_cons.
  - rewrite index_term in *. assert (c' = PNil) as -> by (unfold c'; destruct c; cbn [child_ok] in Hc; [done|lia..|done]).
    split; [done|]. intros r [[_ ->]|[Hn _]]%terminated_cons; [done|by destruct (nibble_not_term _ Hn)].
  - pose proof (index_lt b Hb) as Hi. destruct (IH (child_wf _ _ Hc Hi) key Hkey) as [Hw Hg]. split.
    + destruct Hw as [E|Hw]; [unfold c'; by rewrite E|by apply wf_child].
    + intros r Hr. by apply Hg, (terminated_tail b).
Qed.

Lemma deleted_full cs b key c' :
  wf (PFull cs) -> terminated (b :: key) -> child_ok wf (index b) c' ->
  (forall c r, cs !! index b = Some c -> terminated (b :: r) -> pget c' r = if decide (r = key) then None else pget c r) ->
  deleted (PFull cs) (b :: key) (reduce (<[index b := c']> cs)).
Proof.
  intros (Hl & Htwo & Hcs)%wf_full Hk Hok Hg.
  assert (Hb : (index b < length cs)%nat).
  { apply terminated_cons in Hk as [[-> _]|[Hn _]]; [rewrite index_term; lia|pose proof (index_lt b Hn); lia]. }
  destruct (reduce_spec (<[index b := c']> cs)) as [Hw Hget]; [by rewrite length_insert| | |].
  - intros j d Hd. destruct (decide (j = index b)) as [->|]; [|rewrite list_lookup_insert_ne in Hd by done; by apply Hcs].
    rewrite list_lookup_insert_eq in Hd by done. by injection Hd as <-.
  - destruct Htwo as (i & j & x & y & Hij & Hi & Hj & Hx & Hy). destruct (decide (i = index b)) as [->|].
    + exists j, y. by rewrite list_lookup_insert_ne.
    + exists i, x. by rewrite list_lookup_insert_ne.
  - split; [by right|]. intros [|x r] Hx; [by apply terminated_nil in Hx|]. rewrite Hget, get_insert_child by done.
    destruct (decide (index x = index b)) as [->%(inj index)|Hxb].
    + destruct (cs !! index b) as [c|] eqn:Ec; [|apply lookup_ge_None in Ec; lia]. rewrite (Hg c r eq_refl Hx), pget_full, Ec.
      destruct (decide (r = key)) as [->|]; [by rewrite decide_True|]. rewrite decide_False by congruence. done.
    + rewrite decide_False by congruence. done.
Qed.

Lemma pdelete_spec t key : wf_root t -> terminated key -> deleted t key (pdelete t key).
Proof.
  intros Ht. revert key. induction t as [|nk c IH|cs IH|w] using ptree_nested_ind; intros key Hk.
  - split; [by left|]. intros key' _. by destruct (decide (key' = key)).
  - destruct Ht as [|Hw]; [done|]. destruct (short_parts nk c key Hw Hk) as [(key' & -> & _)|(p & i & nk' & j & key' & -> & -> & Hij & Hp & Hj)].
    + destruct c as [| |cs|w]; try done.
      * apply wf_ext in Hw as (Hnk & Hne & Hw). apply terminated_app in Hk; [|done].
        destruct (pdelete_short nk (PFull cs) key') as [-> _]; [by intros ->; apply terminated_nil in Hk|].
        destruct (IH (or_intror Hw) key' Hk) as [[E|Hw'] Hg]; [by apply pdelete_full_nonnil in E|].
        split; [right; by apply below_wf|]. intros x Hx. rewrite below_get, !pget_short. destruct (strip nk x) as [r|] eqn:Es.
        -- apply strip_Some in Es as ->. apply terminated_app in Hx; [|done]. rewrite Hg by done.
           destruct (decide (r = key')) as [->|]; [by rewrite decide_True|]. rewrite decide_False; [done|]. by intros ?%(inj (app nk)).
        -- by destruct (decide (x = nk ++ key')).
      * apply wf_leaf in Hw as [Hnk Hv]. rewrite (terminated_prefix nk key' Hnk Hk), app_nil_r.
        destruct (pdelete_short nk (PVal w) [term]) as [_ ->]; [done|]. split; [by left|]. intros x Hx.
        rewrite pget_leaf by done. by destruct (decide (x = nk)).
    + destruct (pdelete_other p i nk' c j key' Hij) as [-> Hg]. split; [by right|]. intros x Hx.
      destruct (decide (x = p ++ j :: key')) as [->|]; done.
  - destruct Ht as [|Hw]; [done|]. destruct key as [|b key]; [by apply terminated_nil in Hk|]. cbn [pdelete].
    pose proof Hw as (Hl & _ & Hcs)%wf_full.
    destruct (cs !! index b) as [c|] eqn:Ec.
    2: { apply lookup_ge_None in Ec. apply terminated_cons in Hk as [[-> _]|[Hn _]]; [rewrite index_term in Ec; lia|].
         pose proof (index_lt b Hn). lia. }
    rewrite (alter_insert _ _ _ _ Ec). destruct (child_deleted b c key) as [Hok Hg]; [by apply Hcs|done| |].
    { intros Hc. by apply (Forall_lookup_1 _ _ _ _ IH Ec). }
    apply deleted_full; [done..|]. intros d r Hd Hr. assert (d = c) as -> by congruence. by apply Hg.
  - by destruct Ht.
Qed.

(** ** Contents determine a reduced trie *)
Definition has_key (t : ptree) : Prop := exists key v, terminated key /\ pget t key = Some v.

Lemma child_has i c :
  (i < 17)%nat -> child_ok wf i c -> c <> PNil -> (wf c -> has_key c) ->
  exists r v, terminated (byte_of_Z (Z.of_nat i) :: r) /\ pget c r = Some v.
Proof.
  intros Hi Hc Hn Hw.
  assert (Hin : (i < 16)%nat /\ wf c -> exists r v, terminated (byte_of_Z (Z.of_nat i) :: r) /\ pget c r = Some v).
  { intros [Hi16 (r & v & Hr & Hv)%Hw]. exists r, v. split; [|done]. apply terminated_cons. right.
    split; [by apply nibble_of_index|done]. }
  destruct c as [|k d|ds|v]; [done|by apply Hin..|]. destruct Hc as [-> _]. exists [], v. split; [|done].
  apply terminated_cons. by left.
Qed.

Lemma wf_has t : wf t -> has_key t.
Proof.
  induction t as [|k c IH|cs IH|v] using ptree_nested_ind; [done|..|done].
  - destruct c as [| |cs|v]; [done..| |].
    + intros (Hp & _ & Hw)%wf_ext. destruct (IH Hw) as (key & v & Hk & Hv). exists (k ++ key), v.
      split; [by apply terminated_app|]. by rewrite pget_short, strip_app.
    + intros (Hk & _)%wf_leaf. exists k, v. split; [done|]. by rewrite pget_leaf, decide_True.
  - intros (Hl & (i & _ & c & _ & _ & Hi & _ & Hc & _) & Hcs)%wf_full. pose proof (lookup_lt_Some _ _ _ Hi) as Hlt.
    destruct (child_has i c ltac:(lia) (Hcs _ _ Hi) Hc (Forall_lookup_1 _ _ _ _ IH Hi)) as (r & v & Hr & Hv).
    exists (byte_of_Z (Z.of_nat i) :: r), v. split; [done|]. by rewrite pget_full, byte_of_index, Hi by lia.
Qed.

(** Two keys that part after [p]. *)
Definition parts_at (t : ptree) (p : bytes) : Prop :=
  exists b1 r1 v1 b2 r2 v2, b1 <> b2 /\ terminated (p ++ b1 :: r1) /\ terminated (p ++ b2 :: r2) /\
    pget t (p ++ b1 :: r1) = Some v1 /\ pget t (p ++ b2 :: r2) = Some v2.

Lemma full_parts cs : wf (PFull cs) -> parts_at (PFull cs) [].
Proof.
  intros (Hl & (i & j & c & d & Hij & Hi & Hj & Hc & Hd) & Hcs)%wf_full.
  pose proof (lookup_lt_Some _ _ _ Hi). pose proof (lookup_lt_Some _ _ _ Hj).
  destruct (child_has i c ltac:(lia) (Hcs _ _ Hi) Hc (wf_has c)) as (r1 & v1 & Hr1 & Hv1).
  destruct (child_has j d ltac:(lia) (Hcs _ _ Hj) Hd (wf_has d)) as (r2 & v2 & Hr2 & Hv2).
  exists (byte_of_Z (Z.of_nat i)), r1, v1, (byte_of_Z (Z.of_nat j)), r2, v2. cbn [app].
  rewrite !pget_full, !byte_of_index, Hi, Hj by lia. split_and!; try done.
  intros E%(f_equal index). rewrite !byte_of_index in E by lia. done.
Qed.

Lemma ext_parts k cs : wf (PShort k (PFull cs)) -> parts_at (PShort k (PFull cs)) k.
Proof.
  intros (Hp & _ & Hw)%wf_ext. destruct (full_parts cs Hw) as (b1 & r1 & v1 & b2 & r2 & v2 & Hne & H1 & H2 & G1 & G2).
  exists b1, r1, v1, b2, r2, v2. rewrite !pget_short, !strip_app. split_and!; try done; by apply terminated_app.
Qed.

Lemma parts_eq t t' p : (forall key, terminated key -> pget t key = pget t' key) -> parts_at t p -> parts_at t' p.
Proof.
  intros He (b1 & r1 & v1 & b2 & r2 & v2 & Hne & H1 & H2 & G1 & G2). rewrite He in G1, G2 by done.
  by exists b1, r1, v1, b2, r2, v2.
Qed.

Lemma parts_leaf k v p : terminated k -> ~ parts_at (PShort k (PVal v)) p.
Proof.
  intros Hk (b1 & r1 & v1 & b2 & r2 & v2 & Hne & H1 & H2 & G1 & G2). rewrite pget_leaf in G1, G2 by done.
  destruct (decide (p ++ b1 :: r1 = k)) as [E1|]; [|done]. destruct (decide (p ++ b2 :: r2 = k)) as [E2|]; [|done].
  rewrite <- E2 in E1. by apply (inj (app p)) in E1 as [= ? ?].
Qed.

Lemma parts_short k c p : parts_at (PShort k c) p -> exists q, p = k ++ q.
Proof.
  intros (b1 & r1 & v1 & b2 & r2 & v2 & Hne & _ & _ & G1 & G2). rewrite pget_short in G1, G2.
  destruct (strip k (p ++ b1 :: r1)) as [x1|] eqn:E1; [|done]. destruct (strip k (p ++ b2 :: r2)) as [x2|] eqn:E2; [|done].
  apply strip_Some in E1, E2. clear G1 G2. revert p E1 E2. induction k as [|a k IH]; intros p E1 E2; [by exists p|].
  destruct p as [|y p]; cbn [app] in *.
  - exfalso. congruence.
  - injection E1 as -> E1. injection E2 as E2. destruct (IH p E1 E2) as (q & ->). by exists q.
Qed.

Lemma parts_nil p : ~ parts_at PNil p.
Proof. by intros (? & ? & ? & ? & ? & ? & _ & _ & _ & ? & _). Qed.

Definition same_contents (t1 t2 : ptree) : Prop := forall key, terminated key -> pget t1 key = pget t2 key.

Lemma same_sym t1 t2 : same_contents t1 t2 -> same_contents t2 t1.
Proof. intros H key Hk. symmetry. by apply H. Qed.

(** The child of a full node, from the contents. *)
Lemma same_child cs ds i c d :
  wf (PFull cs) -> wf (PFull ds) -> same_contents (PFull cs) (PFull ds) -> cs !! i = Some c -> ds !! i = Some d ->
  (forall t, wf_root c -> wf_root t -> same_contents c t -> c = t) -> c = d.
Proof.
  intros (Hl & _ & Hcs)%wf_full (_ & _ & Hds)%wf_full He Hc Hd IH. pose proof (lookup_lt_Some _ _ _ Hc) as Hi.
  assert (Hget : forall r, terminated (byte_of_Z (Z.of_nat i) :: r) -> pget c r = pget d r).
  { intros r Hr. specialize (He _ Hr). rewrite !pget_full, byte_of_index, Hc, Hd in He by lia. done. }
  specialize (Hcs _ _ Hc). specialize (Hds _ _ Hd). destruct (decide (i < 16)%nat) as [Hlt|Hge].
  - apply IH; [by eapply child_wf..|]. intros r Hr. apply Hget, terminated_cons. right. split; [by apply nibble_of_index|done].
  - assert (i = 16%nat) as -> by lia. specialize (Hget [] ltac:(apply terminated_cons; by left)).
    destruct c, d; cbn [child_ok] in *; try lia; cbn in Hget; congruence.
Qed.

(** A reduced trie is determined by its contents. *)
Theorem reduced_trie_canonical t1 t2 :
  wf_root t1 -> wf_root t2 -> (forall key, terminated key -> pget t1 key = pget t2 key) -> t1 = t2.
Proof.
  revert t2. induction t1 as [|k c IH|cs IH|v] using ptree_nested_ind; intros t2 H1 H2 He; fold (same_contents) in He.
  - destruct H2 as [->|H2]; [done|]. destruct (wf_has _ H2) as (key & v & Hk & Hv). rewrite <- He in Hv by done. done.
  - destruct H1 as [|H1]; [done|]. destruct H2 as [->|H2].
    { destruct (wf_has _ H1) as (key & v & Hk & Hv). by rewrite He in Hv. }
    destruct c as [| |cs|v]; [done..| |].
    + pose proof (ext_parts _ _ H1) as Hp%(parts_eq _ t2); [|done]. destruct t2 as [|k2 [| |ds|w]|ds|w]; try done.
      * pose proof (ext_parts _ _ H2) as Hp2%(parts_eq _ (PShort k (PFull cs))); [|by apply same_sym].
        apply parts_short in Hp as [q Hq]. apply parts_short in Hp2 as [q2 Hq2].
        assert (q = []) as ->. { apply (f_equal length) in Hq, Hq2. rewrite length_app in Hq, Hq2. destruct q; [done|cbn in *; lia]. }
        rewrite app_nil_r in Hq. subst k2. f_equal. apply wf_ext in H1 as (Hk & _ & H1), H2 as (_ & _ & H2).
        apply IH; [by right..|]. intros r Hr. specialize (He (k ++ r)). rewrite !pget_short, !strip_app in He.
        apply He. by apply terminated_app.
      * apply wf_leaf in H2 as [Hk2 _]. by apply parts_leaf in Hp.
      * pose proof (full_parts _ H2) as Hp2%(parts_eq _ (PShort k (PFull cs))); [|by apply same_sym].
        apply parts_short in Hp2 as [q Hq]. apply wf_ext in H1 as (_ & Hne & _). by destruct k.
    + apply wf_leaf in H1 as [Hk Hv]. destruct t2 as [|k2 [| |ds|w]|ds|w]; try done.
      * pose proof (ext_parts _ _ H2) as Hp2%(parts_eq _ (PShort k (PVal v))); [|by apply same_sym]. by apply parts_leaf in Hp2.
      * apply wf_leaf in H2 as [Hk2 Hw]. specialize (He k Hk). rewrite !pget_leaf, decide_True in He by done.
        destruct (decide (k = k2)) as [->|]; congruence.
      * pose proof (full_parts _ H2) as Hp2%(parts_eq _ (PShort k (PVal v))); [|by apply same_sym]. by apply parts_leaf in Hp2.
  - destruct H1 as [|H1]; [done|]. destruct H2 as [->|H2].
    { destruct (wf_has _ H1) as (key & v & Hk & Hv). by rewrite He in Hv. }
    pose proof (full_parts _ H1) as Hp%(parts_eq _ t2); [|done]. destruct t2 as [|k2 [| |ds|w]|ds|w]; try done.
    + apply parts_short in Hp as [q Hq]. apply wf_ext in H2 as (_ & Hne & _). by destruct k2.
    + apply wf_leaf in H2 as [Hk2 _]. by apply parts_leaf in Hp.
    + f_equal. pose proof H1 as (Hl1 & _)%wf_full. pose proof H2 as (Hl2 & _)%wf_full.
      apply (list_eq_same_length _ _ 17); [done..|]. intros i c d Hi Hc Hd.
      eapply (same_child cs ds i); [done..|]. exact (Forall_lookup_1 _ _ _ _ IH Hc).
  - by destruct H1.
Qed.
