(* ===== verification/TrieHash.v ===== *)
(** * Hashes of a trie

    The Merkle hash of a trie, its stored nodes, and the decoding of them: what is decoded
    from a stored node is what it was encoded from. *)

From S2P Require Import Prelude Bytes RlpEncode RlpDecode RlpCanonical RlpRaw TrieEncoding Types Fallible TrieNode Trie TriePure.

Section hash.
Context `{C : Crypto}.

(** Nodes with children can be referred to by their hash. *)
Definition inner (t : ptree) : bool := match t with PShort _ _ | PFull _ => true | _ => false end.

(** A reference to a node with the given encoding: the node, or its hash if it is long. *)
Definition ref_gval (t : ptree) (g : gval) : gval :=
  if inner t && (32 <=? length (ref_encode g))%nat then GBytes (bytes_of (keccak256 (ref_encode g))) else g.

Fixpoint pgval (t : ptree) : gval :=
  match t with
  | PNil => GBytes []
  | PVal v => GBytes v
  | PShort k c => GList [GBytes (hexToCompact k); ref_gval c (pgval c)]
  | PFull cs => GList ((fun c => ref_gval c (pgval c)) <$> cs)
  end.

Definition enc (t : ptree) : bytes := ref_encode (pgval t).
Definition node_hash (t : ptree) : Hash := keccak256 (enc t).
Definition big (t : ptree) : bool := inner t && (32 <=? length (enc t))%nat.

Definition merkle_root (t : ptree) : Hash := match t with PNil => emptyRoot | _ => node_hash t end.

(** The node as it is loaded, with its hash if it was referred to by it. *)
Fixpoint dnode (h : option bytes) (t : ptree) : node :=
  match t with
  | PNil => nilNode
  | PVal v => valueNode v
  | PShort k c => shortNode k (if big c then hashNode (bytes_of (node_hash c)) else dnode None c) (MkFlag h false)
  | PFull cs => fullNode ((fun c => if big c then hashNode (bytes_of (node_hash c)) else dnode None c) <$> cs) (MkFlag h false)
  end.

Definition dref (t : ptree) : node := if big t then hashNode (bytes_of (node_hash t)) else dnode None t.

(** The node as it is kept in memory. *)
Fixpoint raw_of (t : ptree) : raw :=
  match t with
  | PNil => rawNil
  | PVal v => rawValue v
  | PShort k c => rawShortNode (hexToCompact k) (if big c then rawHash (bytes_of (node_hash c)) else raw_of c)
  | PFull cs => rawFullNode ((fun c => if big c then rawHash (bytes_of (node_hash c)) else raw_of c) <$> cs)
  end.

Definition raw_ref (t : ptree) : raw := if big t then rawHash (bytes_of (node_hash t)) else raw_of t.

(** ** Sizes *)
Fixpoint bounded (t : ptree) : bool :=
  match t with
  | PNil => true
  | PVal v => Z.of_nat (length v) <? 2 ^ 32
  | PShort k c => (Z.of_nat (length k) <? 2 ^ 32) && bounded c
  | PFull cs => forallb bounded cs
  end.

Definition pref (t : ptree) : gval := ref_gval t (pgval t).

Lemma pref_eq t : pref t = if big t then GBytes (bytes_of (node_hash t)) else pgval t.
Proof. done. Qed.

Lemma length_decodeNibbles k : (length (decodeNibbles k) <= length k)%nat.
Proof. revert k. fix IH 1. intros [|a [|b k]]; cbn; [lia..|]. specialize (IH k). lia. Qed.

Lemma length_hexToCompact k : (length (hexToCompact k) <= length k + 1)%nat.
Proof.
  unfold hexToCompact. set (h := if hasTerm k then removelast k else k).
  assert (Hh : (length h <= length k)%nat) by (unfold h; destruct (hasTerm k); [rewrite removelast_firstn_len, length_firstn; lia|lia]).
  pose proof (length_decodeNibbles h). destruct (Nat.odd (length h)); [|cbn [length]; lia].
  destruct h as [|x r]; [cbn; lia|]. pose proof (length_decodeNibbles r). cbn [length] in *. lia.
Qed.

Lemma length_head k n : (length (hdr k n) <= 9)%nat.
Proof.
  unfold puthead. destruct (n <? 56); [cbn; lia|]. pose proof (length_putint n). cbn [length]. lia.
Qed.

Lemma length_ref_list p : (length (ref_list p) <= length p + 9)%nat.
Proof. unfold ref_list. rewrite length_app. pose proof (length_head KList (Z.of_nat (length p))) as H. cbn [tags fst snd] in H. lia. Qed.

Lemma length_ref_string_head b : (length (ref_string b) <= length b + 9)%nat.
Proof.
  destruct (ref_string_cases b) as [(c & -> & _ & ->)|[_ ->]]; [cbn; lia|]. rewrite length_app.
  pose proof (length_head KString (Z.of_nat (length b))). lia.
Qed.

Definition MAXREF : Z := 2 ^ 32 + 9.

Lemma length_pref t : bounded t = true -> Z.of_nat (length (ref_encode (pref t))) <= MAXREF.
Proof.
  intros Hb. rewrite pref_eq. unfold MAXREF. destruct (big t) eqn:E.
  - cbn [ref_encode]. pose proof (length_ref_string_head (bytes_of (node_hash t))) as H.
    assert (length (bytes_of (node_hash t)) = 32%nat) by apply bytes_of_length. lia.
  - assert (Hs : inner t = true -> (length (ref_encode (pgval t)) < 32)%nat).
    { intros Hi. unfold big, enc in E. rewrite Hi in E. cbn [andb] in E. by apply Nat.leb_gt in E. }
    destruct t as [|k c|cs|v]; [vm_compute; congruence|specialize (Hs eq_refl); lia..|].
    cbn [bounded] in Hb. apply Z.ltb_lt in Hb. cbn [pgval ref_encode]. pose proof (length_ref_string_head v). lia.
Qed.

Lemma length_enc t : bounded t = true -> wf_root t \/ (exists v, t = PVal v) -> Z.of_nat (length (enc t)) < 2 ^ 40.
Proof.
  intros Hb Hw. unfold enc. destruct t as [|k c|cs|v]; cbn [pgval ref_encode].
  - vm_compute. reflexivity.
  - cbn [bounded] in Hb. apply andb_true_iff in Hb as [Hk Hc]. apply Z.ltb_lt in Hk. pose proof (length_pref c Hc) as Hp.
    unfold pref in Hp. pose proof (length_hexToCompact k). pose proof (length_ref_string_head (hexToCompact k)).
    rewrite fmap_cons, fmap_cons. cbn [concat fmap list_fmap ref_encode]. rewrite app_nil_r.
    set (p := _ ++ _). pose proof (length_ref_list p). assert (length p = length (ref_string (hexToCompact k)) + length (ref_encode (ref_gval c (pgval c))))%nat by apply length_app.
    unfold MAXREF in *. lia.
  - assert (Hl : length cs = 17%nat). { destruct Hw as [[|Hw]|[v ?]]; [done| |done]. by apply wf_full in Hw as [? _]. }
    cbn [bounded] in Hb. set (p := concat _). pose proof (length_ref_list p).
    assert (Z.of_nat (length p) <= Z.of_nat (length cs) * MAXREF); [|rewrite Hl in *; unfold MAXREF in *; lia].
    unfold p. clear - Hb. induction cs as [|c cs IH]; [done|]. cbn [forallb] in Hb. apply andb_true_iff in Hb as [Hc Hb].
    rewrite fmap_cons, fmap_cons. cbn [concat length]. rewrite length_app. specialize (IH Hb). pose proof (length_pref c Hc) as Hp.
    unfold pref in Hp. lia.
  - cbn [bounded] in Hb. apply Z.ltb_lt in Hb. pose proof (length_ref_string_head v). lia.
Qed.

(** ** Loading from memory *)
Lemma wf_hex_key k c : wf (PShort k c) -> hex_key k.
Proof. destruct c; [done|done|intros (? & _)%wf_ext; by left|intros (? & _)%wf_leaf; by right]. Qed.

Lemma expand_raw t h : wf t -> expandNode h (raw_of t) = Some (dnode h t).
Proof.
  revert h. induction t as [|k c IH|cs IH|v] using ptree_nested_ind; intros h Hw; [done|..|done].
  - cbn [raw_of expandNode dnode]. rewrite compact_roundtrip by by eapply wf_hex_key. destruct (big c); [done|].
    destruct c as [| |cs|v]; [done|done| |done]. apply wf_ext in Hw as (_ & _ & Hw). by rewrite IH.
  - apply wf_full in Hw as (_ & _ & Hcs). cbn [raw_of expandNode dnode]. set (f := fun c : raw => _).
    assert (Hm : mapM f ((fun c => if big c then rawHash (bytes_of (node_hash c)) else raw_of c) <$> cs)
                 = Some ((fun c => if big c then hashNode (bytes_of (node_hash c)) else dnode None c) <$> cs)).
    { apply mapM_Some_2, Forall2_fmap_2, Forall_Forall2_diag, Forall_lookup_2. intros i c Hc. specialize (Hcs i c Hc).
      destruct (big c); [done|]. destruct c as [|k d|ds|v]; [done| | |done].
      - destruct Hcs as [_ Hw]. exact (Forall_lookup_1 _ _ _ _ IH Hc None Hw).
      - destruct Hcs as [_ Hw]. exact (Forall_lookup_1 _ _ _ _ IH Hc None Hw). }
    by rewrite Hm.
Qed.

(** ** Decoding *)
Lemma ref_string_encodes b : exists k, encodes k b (ref_string b) /\ k <> KList.
Proof.
  destruct (ref_string_cases b) as [(c & -> & Hc & Hr)|[Hone Hr]]; [exists KByte|exists KString]; rewrite Hr.
  - split; [|done]. by exists c.
  - done.
Qed.

Lemma ref_list_encodes p : encodes KList p (ref_list p).
Proof. done. Qed.

Lemma pgval_encodes t : exists k content, encodes k content (enc t).
Proof.
  unfold enc. destruct t as [|k c|cs|v]; cbn [pgval ref_encode].
  - destruct (ref_string_encodes []) as (k & ? & _). eauto.
  - eexists KList, _. apply ref_list_encodes.
  - eexists KList, _. apply ref_list_encodes.
  - destruct (ref_string_encodes v) as (k & ? & _). eauto.
Qed.

Lemma pref_encodes t : exists k content, encodes k content (ref_encode (pref t)).
Proof.
  rewrite pref_eq. destruct (big t); [|apply pgval_encodes]. cbn [ref_encode].
  destruct (ref_string_encodes (bytes_of (node_hash t))) as (k & ? & _). eauto.
Qed.

Lemma values_concat items : Forall (fun it => exists k content, encodes k content it) items -> values (concat items) (length items).
Proof. induction 1 as [|it items (k & content & He) _ IH]; [constructor|]. cbn [concat length]. by econstructor. Qed.

Lemma CountValues_items items n :
  Forall (fun it => exists k content, encodes k content it) items -> Z.of_nat (length (concat items)) < 2 ^ 64 ->
  length items = n -> CountValues (concat items) = inr (Z.of_nat n).
Proof. intros Hi Hl <-. apply CountValues_loop_iff; [lia|done|]. exists (length items). split; [by apply values_concat|lia]. Qed.

Lemma Split_list p rest : Z.of_nat (length (ref_list p ++ rest)) < 2 ^ 64 -> Split (ref_list p ++ rest) = inr (KList, p, rest).
Proof. intros Hl. apply Split_iff; [done|]. exists (ref_list p). split; [done|apply ref_list_encodes]. Qed.

Lemma SplitString_string b rest :
  Z.of_nat (length (ref_string b ++ rest)) < 2 ^ 64 -> SplitString (ref_string b ++ rest) = inr (b, rest).
Proof.
  intros Hl. destruct (Split_ref_string b rest Hl) as (k & Hk & E). unfold SplitString. rewrite E.
  by rewrite bool_decide_eq_false_2.
Qed.

Lemma enc_list t : inner t = true -> exists l, enc t = ref_list (concat (ref_encode <$> l)) /\ pgval t = GList l.
Proof. destruct t; [done| | |done]; cbn [inner]; intros _; eexists; split; reflexivity. Qed.

(** A child of a full node, and the child of a short node that is not a value. *)
Lemma decodeRef_pref dec c rest :
  (inner c = true -> wf c) -> (forall v, c <> PVal v) -> Z.of_nat (length (ref_encode (pref c) ++ rest)) < 2 ^ 64 ->
  (inner c = true -> big c = false -> dec (enc c ++ rest) = inr (dnode None c)) ->
  decodeRef dec (ref_encode (pref c) ++ rest) = inr (dref c, rest).
Proof.
  intros Hw Hv Hl Hd. rewrite pref_eq in *. unfold dref, decodeRef. destruct (big c) eqn:Eb.
  - cbn [ref_encode] in *. destruct (Split_ref_string _ rest Hl) as (k & Hk & E). rewrite E.
    assert (H32 : length (bytes_of (node_hash c)) = 32%nat) by apply bytes_of_length.
    destruct (ref_string_cases (bytes_of (node_hash c))) as [(x & Hx & _)|[Hone Hr]]; [rewrite Hx in H32; done|].
    assert (k = KString) as ->.
    { assert (E' : Split (ref_string (bytes_of (node_hash c)) ++ rest) = inr (KString, bytes_of (node_hash c), rest)).
      { apply Split_iff; [done|]. eexists. split; [reflexivity|]. done. }
      congruence. }
    destruct (bytes_of (node_hash c)) as [|x l] eqn:Ex; [done|]. rewrite H32. done.
  - destruct (inner c) eqn:Ei.
    + destruct (enc_list c Ei) as (l & El & _). fold (enc c) in *. rewrite El in *. rewrite (Split_list _ rest Hl).
      rewrite length_app. assert (Hs : (32 <=? length (enc c))%nat = false) by (unfold big in Eb; by rewrite Ei in Eb).
      rewrite El in Hs. apply Nat.leb_gt in Hs. rewrite (proj2 (Nat.ltb_ge _ _)) by lia. by rewrite Hd.
    + destruct c as [| | |v]; [|done|done|by destruct (Hv v)]. cbn [pgval ref_encode] in *.
      assert (E : Split (ref_string [] ++ rest) = inr (KString, [], rest)).
      { apply Split_iff; [done|]. eexists. split; [reflexivity|]. split; [done|]. vm_compute. reflexivity. }
      by rewrite E.
Qed.
Lemma SplitList_list p rest : Z.of_nat (length (ref_list p ++ rest)) < 2 ^ 64 -> SplitList (ref_list p ++ rest) = inr (p, rest).
Proof. intros Hl. unfold SplitList. by rewrite Split_list. Qed.

Lemma ref_list_nonnil p rest : ref_list p ++ rest <> [].
Proof. unfold ref_list, puthead. by destruct (_ <? 56). Qed.

Lemma ref_list_longer p : (length p < length (ref_list p))%nat.
Proof. unfold ref_list. rewrite length_app. unfold puthead. destruct (_ <? 56); cbn [length]; lia. Qed.

(** The fuel is enough for a list, whose elements are then at hand. *)
Lemma decodeNode_items fuel h items rest n :
  (0 < fuel)%nat -> Forall (fun it => exists k content, encodes k content it) items -> length items = n ->
  Z.of_nat (length (ref_list (concat items) ++ rest)) < 2 ^ 64 ->
  decodeNode_fuel fuel h (ref_list (concat items) ++ rest) =
  match n with
  | 2%nat => decodeShort (decodeNode_fuel (pred fuel) None) h (concat items)
  | 17%nat => decodeFull (decodeNode_fuel (pred fuel) None) h (concat items)
  | _ => inl DNumberOfElements
  end.
Proof.
  intros Hf Hi Hn Hl. destruct fuel as [|fuel]; [lia|]. cbn [decodeNode_fuel pred].
  destruct (ref_list (concat items) ++ rest) as [|x buf] eqn:E; [by apply ref_list_nonnil in E|]. rewrite <- E in *.
  rewrite SplitList_list by done. rewrite (CountValues_items items n).
  - do 18 (destruct n as [|n]; [reflexivity|]). clear Hl Hn. destruct (Z.of_nat _) as [|q|q] eqn:Eq; [reflexivity| |reflexivity].
    do 6 (try destruct q as [q|q|]; try reflexivity); lia.
  - done.
  - pose proof (ref_list_longer (concat items)). rewrite length_app in Hl. lia.
  - done.
Qed.

(** What the encoding of a node is made of. *)
Lemma pref_concat cs : concat (ref_encode <$> ((fun c => ref_gval c (pgval c)) <$> cs)) = concat ((fun c => ref_encode (pref c)) <$> cs).
Proof. by rewrite <- list_fmap_compose. Qed.

Lemma enc_short k c : enc (PShort k c) = ref_list (concat [ref_string (hexToCompact k); ref_encode (pref c)]).
Proof. done. Qed.

Lemma enc_full cs : enc (PFull cs) = ref_list (concat ((fun c => ref_encode (pref c)) <$> cs)).
Proof. unfold enc. cbn [pgval ref_encode]. by rewrite pref_concat. Qed.

Lemma items_encode cs : Forall (fun it => exists k content, encodes k content it) ((fun c => ref_encode (pref c)) <$> cs).
Proof. apply Forall_fmap, Forall_true. intros c. apply pref_encodes. Qed.

Definition decodes (c : ptree) : Prop :=
  forall fuel h rest, (length (enc c) < fuel)%nat -> Z.of_nat (length (enc c ++ rest)) < 2 ^ 64 ->
                      decodeNode_fuel fuel h (enc c ++ rest) = inr (dnode h c).

(** The children of a full node, one after the other. *)
Lemma decodeChildren_prefs cs fuel rest :
  Forall (fun c => (inner c = true -> wf c /\ decodes c) /\ forall v, c <> PVal v) cs ->
  Z.of_nat (length (concat ((fun c => ref_encode (pref c)) <$> cs) ++ rest)) < 2 ^ 64 ->
  (length (concat ((fun c => ref_encode (pref c)) <$> cs)) < fuel)%nat ->
  decodeChildren (decodeNode_fuel fuel None) (length cs) (concat ((fun c => ref_encode (pref c)) <$> cs) ++ rest)
  = inr (dref <$> cs, rest).
Proof.
  intros Hcs. induction Hcs as [|c cs [Hi Hv] Hcs IH]; intros Hl Hf; [done|].
  cbn [length decodeChildren]. rewrite fmap_cons in *. cbn [concat] in *. rewrite <- app_assoc in *.
  rewrite !length_app in Hl, Hf. rewrite decodeRef_pref.
  - rewrite IH; [done|lia|lia].
  - intros E. by apply Hi.
  - done.
  - rewrite length_app. lia.
  - intros E Hb. destruct (Hi E) as [_ Hd]. rewrite pref_eq, Hb in *. apply Hd; fold (enc c) in *; [lia|].
    rewrite length_app. lia.
Qed.

Lemma decode_short k c : wf (PShort k c) -> (wf c -> decodes c) -> decodes (PShort k c).
Proof.
  intros Hw Hd fuel h rest Hf Hl. rewrite enc_short in *. rewrite (decodeNode_items fuel h _ rest 2); [|lia| |done|done].
  2: { constructor; [|constructor; [apply pref_encodes|constructor]]. destruct (ref_string_encodes (hexToCompact k)) as (x & ? & _). eauto. }
  pose proof (ref_list_longer (concat [ref_string (hexToCompact k); ref_encode (pref c)])) as Hlong.
  cbn [concat] in *. rewrite app_nil_r in *. rewrite !length_app in *.
  unfold decodeShort. rewrite SplitString_string by (rewrite length_app; lia). rewrite compact_roundtrip by by eapply wf_hex_key.
  destruct c as [| |cs|v]; [done|done| |].
  - apply wf_ext in Hw as (Hk & _ & Hw). rewrite path_not_term by done. rewrite <- (app_nil_r (ref_encode (pref _))).
    rewrite decodeRef_pref; [done|done|done|rewrite app_nil_r; lia|]. intros _ Hb. rewrite pref_eq, Hb in *. fold (enc (PFull cs)) in *.
    apply Hd; [done|lia|rewrite app_nil_r; lia].
  - apply wf_leaf in Hw as [(p & Hp & ->) _]. rewrite hasTerm_snoc. cbn [ref_encode pref ref_gval inner pgval andb] in *.
    rewrite <- (app_nil_r (ref_string v)). rewrite SplitString_string; [done|]. rewrite app_nil_r. lia.
Qed.
Lemma decode_full cs :
  wf (PFull cs) -> Forall (fun c => wf c -> decodes c) cs -> decodes (PFull cs).
Proof.
  intros (Hlen & _ & Hcs)%wf_full Hd fuel h rest Hf Hl. rewrite enc_full in *.
  rewrite (decodeNode_items fuel h _ rest 17); [|lia|apply items_encode|by rewrite length_fmap|done].
  set (items := concat _) in *. pose proof (ref_list_longer items) as Hlong. rewrite length_app in Hl.
  destruct cs as [|c l _] using rev_ind; [done|]. rewrite length_app in Hlen. cbn [length] in Hlen.
  assert (Hll : length l = 16%nat) by lia. unfold decodeFull.
  assert (Hi : items = concat ((fun c => ref_encode (pref c)) <$> l) ++ ref_encode (pref c)).
  { unfold items. rewrite fmap_app, concat_app. cbn. by rewrite app_nil_r. }
  assert (Hil : length items = (length (concat ((fun c => ref_encode (pref c)) <$> l)) + length (ref_encode (pref c)))%nat)
    by (rewrite Hi; apply length_app).
  assert (Hsz : Z.of_nat (length (ref_encode (pref c))) < 2 ^ 64) by lia.
  rewrite Hi, <- Hll, decodeChildren_prefs.
  - assert (Hc : child_ok wf 16 c) by (apply Hcs; rewrite lookup_app_r by lia; by rewrite Hll).
    cbn [dnode]. rewrite fmap_app. clear - Hc Hsz.
    destruct c as [| | |v]; [|by destruct Hc; lia..|]; cbn [pref ref_gval inner pgval andb ref_encode] in *;
      rewrite <- (app_nil_r (ref_string _)), SplitString_string by (rewrite app_nil_r; lia); [done|].
    destruct Hc as [_ Hv]. by destruct v.
  - apply Forall_lookup_2. intros i d Hdi. pose proof (lookup_lt_Some _ _ _ Hdi).
    assert (Hok : (l ++ [c]) !! i = Some d) by by apply lookup_app_l_Some.
    specialize (Hcs i d Hok). pose proof (Forall_lookup_1 _ _ _ _ Hd Hok) as Hdd. destruct d as [|k d|ds|v]; cbn [inner child_ok] in *.
    + done.
    + destruct Hcs as [_ Hw]. split; [auto|done].
    + destruct Hcs as [_ Hw]. split; [auto|done].
    + lia.
  - rewrite <- Hi. lia.
  - lia.
Qed.

(** A stored node is decoded to what it was encoded from. *)
Lemma decode_enc t : wf t -> decodes t.
Proof.
  induction t as [|k c IH|cs IH|v] using ptree_nested_ind; intros Hw; [done| | |done].
  - by apply decode_short.
  - by apply decode_full.
Qed.
End hash.
