(* ===== verification/TrieRefine.v ===== *)
(** * Tries in a database, and the operations on them

    When a database holds a trie, and which trie a node with its flags stands for: children
    may still have to be loaded, hashes may be cached, nodes may be clean. Loading a node
    that is held gives back what was stored. Lookup, insertion and deletion on nodes that
    are loaded on demand do what they do on the trie behind the nodes: they need no more
    fuel than the length of the key gives, never panic, and miss no node of a trie that the
    database holds.

    Two byte strings with the same hash would be confused. The properties are stated for a
    set of byte strings without such a pair, in which the encoded nodes are. *)

From S2P Require Import Prelude Bytes RlpEncode RlpDecode RlpCanonical RlpRaw TrieEncoding Types Fallible TrieNode Trie TriePure TrieHash.


Section load.
Context `{C : Crypto}.

(** No two of the byte strings have the same hash, and none has the hash of nothing. *)
Record collision_free (S : bytes -> Prop) : Prop := {
  cf_inj : forall a b, S a -> S b -> keccak256 a = keccak256 b -> a = b;
  cf_zero : forall a, S a -> keccak256 a <> zeroHash;
  cf_empty : forall a, S a -> keccak256 a = emptyRoot -> a = [byte_of_Z 128]
}.

(** The nodes that a trie refers to by hash. *)
Definition self (t : ptree) : list ptree := if big t then [t] else [].

Fixpoint hashed (t : ptree) : list ptree :=
  match t with
  | PShort _ c => self c ++ hashed c
  | PFull cs => concat ((fun c => self c ++ hashed c) <$> cs)
  | _ => []
  end.

Context (S : bytes -> Prop).

(** ** What a database holds *)
Definition entry_ok (h : Hash) (r : raw) : Prop :=
  (exists t, wf t /\ bounded t = true /\ r = raw_of t /\ h = node_hash t /\ S (enc t)) \/
  (exists b, r = rawNode b /\ h = keccak256 b /\ S b).

Record db_ok (db : Database) : Prop := {
  ok_dirties : forall h r, td_dirties db !! h = Some r -> h = zeroHash \/ entry_ok h r;
  ok_disk : forall h e, td_disk db h = Some e -> h = keccak256 e /\ S e
}.

Definition present (db : Database) (h : Hash) : Prop := is_Some (td_dirties db !! h) \/ is_Some (td_disk db h).

Record stored (db : Database) (t : ptree) : Prop := {
  st_wf : wf t;
  st_bounded : bounded t = true;
  st_safe : S (enc t);
  st_present : present db (node_hash t)
}.

Definition stored_all (db : Database) (t : ptree) : Prop := stored db t /\ Forall (stored db) (hashed t).

(** A database that holds at least what another one does. *)
Definition extends (db db' : Database) : Prop := forall h, present db h -> present db' h.

#[export] Instance extends_preorder : PreOrder extends.
Proof. split; [by intros db h|]. intros a b c H1 H2 h Hh. by apply H2, H1. Qed.

Lemma stored_extends db db' t : extends db db' -> stored db t -> stored db' t.
Proof. intros He [? ? ? ?]. split; try done. by apply He. Qed.

Lemma Forall_stored_extends db db' l : extends db db' -> Forall (stored db) l -> Forall (stored db') l.
Proof. intros He Hl. eapply Forall_impl; [exact Hl|]. intros t. by apply stored_extends. Qed.

Lemma stored_all_extends db db' t : extends db db' -> stored_all db t -> stored_all db' t.
Proof. intros He [Hs Ha]. split; [by eapply stored_extends|by eapply Forall_stored_extends]. Qed.

(** ** What is loaded *)
Lemma ref_list_not_string p : ref_list p <> [byte_of_Z 128].
Proof.
  unfold ref_list, puthead. destruct (Z.of_nat (length p) <? 56) eqn:E; intros [= Hb Hp].
  - subst p. by vm_compute in Hb.
  - apply app_eq_nil in Hp as [_ ->]. by vm_compute in E.
Qed.

Lemma enc_not_empty t : wf t -> enc t <> [byte_of_Z 128].
Proof.
  intros Hw. destruct t as [|k c|cs|v]; [done|rewrite enc_short|rewrite enc_full|done]; apply ref_list_not_string.
Qed.

Lemma decode_stored h t : wf t -> bounded t = true -> mustDecodeNode h (enc t) = Ok (dnode h t).
Proof.
  intros Hw Hb. unfold mustDecodeNode, decodeNode. pose proof (length_enc t Hb (or_introl (or_intror Hw))) as Hl.
  pose proof (decode_enc t Hw (Datatypes.S (length (enc t))) h []) as Hd. rewrite app_nil_r in Hd.
  rewrite Hd by lia. done.
Qed.

Lemma raw_of_wf h t : wf t -> obj h (raw_of t) = Ok (dnode (Some (bytes_of h)) t).
Proof.
  intros Hw. unfold obj. pose proof (expand_raw t (Some (bytes_of h)) Hw) as He.
  destruct t as [| | |]; [done|..|done]; cbn [raw_of] in *; by rewrite He.
Qed.

(** Nodes with the same encoding are loaded as the same. *)
Lemma dnode_enc h s t : wf s -> bounded s = true -> wf t -> bounded t = true -> enc s = enc t -> dnode h s = dnode h t.
Proof.
  intros Hs Hbs Ht Hbt He. pose proof (decode_stored h s Hs Hbs) as H1. rewrite He, decode_stored in H1 by done. by injection H1.
Qed.

Context (HS : collision_free S).

Lemma load_stored db t :
  db_ok db -> stored db t -> Database_node db (node_hash t) = Ok (Some (dnode (Some (bytes_of (node_hash t))) t)).
Proof.
  intros Hdb [Hw Hb Hsafe Hp]. unfold Database_node. destruct (td_dirties db !! node_hash t) as [r|] eqn:Er.
  - apply (ok_dirties _ Hdb) in Er as [Hz|[(s & Hws & Hbs & -> & Hh & Hss)|(b & -> & Hh & Hsb)]].
    + by destruct (cf_zero _ HS _ Hsafe).
    + apply (cf_inj _ HS) in Hh; [|done..]. rewrite raw_of_wf by done. by rewrite (dnode_enc _ t s).
    + apply (cf_inj _ HS) in Hh as <-; [|done..]. cbn [obj]. by rewrite decode_stored.
  - destruct Hp as [[? ?]|[e He]]; [congruence|]. rewrite He. apply (ok_disk _ Hdb) in He as [Hh Hse].
    apply (cf_inj _ HS) in Hh as <-; [|done..]. by rewrite decode_stored.
Qed.

(** ** The trie of a node *)
Definition flag_ok (db : Database) (root : bool) (f : nodeFlag) (t : ptree) : Prop :=
  match nf_hash f with
  | Some h => h = bytes_of (node_hash t) /\ (root = true \/ big t = true) /\ (nf_dirty f = false -> stored_all db t)
  | None => nf_dirty f = false -> root = false /\ big t = false
  end.

(** [loads db root n t]: the node [n], which is the root or not, stands for the trie [t]. *)
#[warnings="-register-all"]
Inductive loads (db : Database) : bool -> node -> ptree -> Prop :=
  | loads_nil root : loads db root nilNode PNil
  | loads_value root v : loads db root (valueNode v) (PVal v)
  | loads_short root k n t f : loads db false n t -> flag_ok db root f (PShort k t) -> loads db root (shortNode k n f) (PShort k t)
  | loads_full root ns ts f : Forall2 (loads db false) ns ts -> flag_ok db root f (PFull ts) -> loads db root (fullNode ns f) (PFull ts)
  | loads_hash root h t : h = bytes_of (node_hash t) -> root = true \/ big t = true -> stored_all db t -> loads db root (hashNode h) t.

Lemma flag_ok_new db root t : flag_ok db root newFlag t.
Proof. done. Qed.

Lemma hashed_full db cs : Forall (stored db) (hashed (PFull cs)) <-> Forall (fun c => Forall (stored db) (self c ++ hashed c)) cs.
Proof. cbn [hashed]. by rewrite Forall_concat, Forall_fmap. Qed.

Lemma big_inner t : big t = true -> inner t = true.
Proof. unfold big. by intros [? _]%andb_true_iff. Qed.

Lemma loads_dnode db root h t :
  Forall (stored db) (hashed t) -> (inner t = true -> flag_ok db root (MkFlag h false) t) -> loads db root (dnode h t) t.
Proof.
  revert root h. induction t as [|k c IH|cs IH|v] using ptree_nested_ind; intros root h Ha Hf; [constructor|..|constructor].
  - cbn [dnode hashed] in *. constructor; [|by apply Hf]. unfold self in Ha. destruct (big c) eqn:Eb.
    + apply Forall_cons in Ha as [Hc Ha]. constructor; auto. by split.
    + by apply IH.
  - cbn [dnode]. constructor; [|by apply Hf]. apply hashed_full in Ha. apply Forall2_fmap_l, Forall_Forall2_diag.
    apply Forall_lookup_2. intros i c Hc. pose proof (Forall_lookup_1 _ _ _ _ Ha Hc) as Hcs. unfold compose, self in *.
    destruct (big c) eqn:Eb.
    + apply Forall_cons in Hcs as [? ?]. constructor; auto. by split.
    + by apply (Forall_lookup_1 _ _ _ _ IH Hc).
Qed.

Lemma loads_root db root t : root = true \/ big t = true -> stored_all db t -> loads db root (dnode (Some (bytes_of (node_hash t))) t) t.
Proof. intros Hr Hs. apply loads_dnode; [apply Hs|]. intros _. cbn. auto. Qed.

Lemma loads_extends db db' root n t : extends db db' -> loads db root n t -> loads db' root n t.
Proof.
  intros He. assert (Hfl : forall root f t, flag_ok db root f t -> flag_ok db' root f t).
  { intros r f u. unfold flag_ok. destruct (nf_hash f); [|done]. intros (-> & ? & Hs). split_and!; [done..|].
    intros ?. eapply stored_all_extends; eauto. }
  revert root n. induction t as [|k c IH|cs IH|v] using ptree_nested_ind; intros root n Hn; inversion Hn; subst.
  all: try (constructor; eauto using stored_all_extends; done).
  constructor; [|by auto]. apply Forall2_same_length_lookup. split; [by eapply Forall2_length|].
  intros i m c Hm Hc. apply (Forall_lookup_1 _ _ _ _ IH Hc). by eapply Forall2_lookup_lr.
Qed.

(** ** Loading nodes *)
Definition is_hash (n : node) : bool := match n with hashNode _ => true | _ => false end.

Lemma loads_resolve db root h t p :
  db_ok db -> loads db root (hashNode h) t ->
  exists n, resolveHash db h p = Ok (inr n) /\ loads db root n t /\ is_hash n = false.
Proof.
  intros Hdb Hl. inversion Hl as [| | | |? ? ? Hh Hr [Hs Ha]]; subst. eexists. unfold resolveHash, BytesToHash.
  rewrite mk_bytesN_of, load_stored by done. split; [reflexivity|]. split; [by apply loads_root|].
  apply st_wf in Hs. by destruct t.
Qed.
End load.

(** ** Subtries and what is left of a key there *)
Definition at_key (t : ptree) (key : bytes) : Prop :=
  (wf_root t /\ terminated key) \/ (key = [] /\ (t = PNil \/ exists v, t = PVal v)).

Lemma at_full cs key :
  at_key (PFull cs) key ->
  exists b key' c, key = b :: key' /\ cs !! index b = Some c /\ at_key c key' /\ (index b < length cs)%nat.
Proof.
  intros [[[|Hw] Hk]|[_ [|[v ?]]]]; [done| |done|done]. apply wf_full in Hw as (Hl & _ & Hcs).
  destruct key as [|b key]; [by apply terminated_nil in Hk|]. exists b, key. rewrite Hl.
  apply terminated_cons in Hk as [[-> ->]|[Hb Hk]].
  - destruct (lookup_lt_is_Some_2 cs (index term)) as [c Hc]; [rewrite Hl; vm_compute; lia|]. exists c.
    split_and!; [done..| |vm_compute; lia]. right. split; [done|]. specialize (Hcs _ _ Hc). rewrite index_term in Hcs.
    destruct c as [| | |v]; [by left|by destruct Hcs; lia..|by right; exists v].
  - pose proof (index_lt b Hb) as Hi. destruct (lookup_lt_is_Some_2 cs (index b)) as [c Hc]; [lia|]. exists c.
    split_and!; [done..| |lia]. left. split; [|done]. eapply child_wf; [by apply Hcs|done].
Qed.

Lemma at_short k c key : at_key (PShort k c) key -> wf (PShort k c) /\ terminated key.
Proof. intros [[[|Hw] Hk]|[_ [|[v ?]]]]; done. Qed.

Lemma at_below k c key : wf (PShort k c) -> terminated (k ++ key) -> at_key c key /\ (0 < length k)%nat.
Proof.
  intros Hw Hk. destruct c as [| |cs|v]; try done.
  - apply wf_ext in Hw as (Hp & Hne & Hw). split; [|destruct k; [done|cbn; lia]]. left.
    split; [by right|]. by apply terminated_app in Hk.
  - apply wf_leaf in Hw as [Ht _]. split; [|destruct k; [by apply terminated_nil in Ht|cbn; lia]]. right.
    split; [exact (terminated_prefix k key Ht Hk)|by eauto].
Qed.

(** The test for a key of a short node. *)
Lemma key_test k K pos :
  (length K - pos <? length k)%nat || negb (bool_decide (k = take (length k) (drop pos K))) =
  match strip k (drop pos K) with Some _ => false | None => true end.
Proof.
  destruct (strip k (drop pos K)) as [r|] eqn:E.
  - apply strip_Some in E. assert (Hl : (length (drop pos K) = length k + length r)%nat) by (rewrite E; apply length_app).
    rewrite length_drop in Hl. rewrite (proj2 (Nat.ltb_ge _ _)) by lia. rewrite E, take_app_length. by rewrite bool_decide_eq_true_2.
  - case_bool_decide as Hk; [|by rewrite orb_true_r]. exfalso.
    assert (strip k (drop pos K) = Some (drop (length k) (drop pos K))); [|congruence].
    apply strip_Some. rewrite Hk at 1. symmetry. apply take_drop.
Qed.

Section refine.
Context `{C : Crypto} (S : bytes -> Prop) (HS : collision_free S) (db : Database) (Hdb : db_ok S db).

Abbreviation loads := (loads S db).

(** A node may have to be loaded first. *)
Definition need (n : node) (key : bytes) : nat := 2 * length key + (if is_hash n then 2 else 1).

Lemma loads_nil_iff root n t : loads root n t -> n = nilNode <-> t = PNil.
Proof.
  intros Hn. inversion Hn as [| | | |? ? ? Hh Hr [Hs Ha]]; subst; try done. apply st_wf in Hs. by destruct t.
Qed.

(** A node that is loaded has the constructor of its trie. *)
Lemma loads_short_inv root n k t :
  loads root n (PShort k t) -> is_hash n = false ->
  exists m f, n = shortNode k m f /\ loads false m t /\ flag_ok S db root f (PShort k t).
Proof. intros Hn Hh. inversion Hn; subst; [by eauto|done]. Qed.

Lemma loads_full_inv root n ts :
  loads root n (PFull ts) -> is_hash n = false ->
  exists ns f, n = fullNode ns f /\ Forall2 (loads false) ns ts /\ flag_ok S db root f (PFull ts).
Proof. intros Hn Hh. inversion Hn; subst; [by eauto|done]. Qed.

Lemma loads_nil_inv root n : loads root n PNil -> n = nilNode.
Proof. intros Hn. by apply (loads_nil_iff _ _ _ Hn). Qed.

Lemma loads_value_inv root n v : loads root n (PVal v) -> n = valueNode v.
Proof. intros Hn. inversion Hn as [| | | |? ? ? Hh Hr [Hs Ha]]; subst; [done|]. by apply st_wf in Hs. Qed.

(** ** Lookup *)
Definition gets (t : ptree) : Prop :=
  forall root n K pos key fuel, loads root n t -> at_key t key -> key = drop pos K -> (need n key <= fuel)%nat ->
  exists n' d, tryGet db fuel n K pos = Ok (inr (default [] (pget t key), n', d)) /\ loads root n' t.

Lemma gets_hash t :
  (forall root n K pos key fuel, is_hash n = false -> loads root n t -> at_key t key -> key = drop pos K -> (need n key <= fuel)%nat ->
   exists n' d, tryGet db fuel n K pos = Ok (inr (default [] (pget t key), n', d)) /\ loads root n' t) -> gets t.
Proof.
  intros Hn root n K pos key fuel Hl Hk HK Hf. destruct (is_hash n) eqn:E; [|by eapply Hn].
  destruct n as [| | |h|]; try done. destruct (loads_resolve S HS db root h t (take pos K) Hdb Hl) as (m & Hm & Hlm & Ehm).
  unfold need in Hf. cbn [is_hash] in Hf. destruct fuel as [|fuel]; [lia|]. cbn [tryGet]. rewrite Hm.
  destruct (Hn root m K pos key fuel Ehm Hlm Hk HK) as (n' & d & Hg & Hl'); [unfold need; rewrite Ehm; lia|].
  exists n', true. split; [|done]. fal. by rewrite Hg.
Qed.

Lemma need_le n key : (need n key <= 2 * length key + 2)%nat.
Proof. unfold need. destruct (is_hash n); lia. Qed.

Lemma tryGet_gets t : gets t.
Proof.
  induction t as [|k c IH|cs IH|v] using ptree_nested_ind; apply gets_hash; intros root n K pos key fuel Hh Hl Hk HK Hf;
    unfold need in Hf; rewrite Hh in Hf; (destruct fuel as [|fuel]; [lia|]).
  - apply loads_nil_inv in Hl as ->. exists nilNode, false. split; [done|constructor].
  - destruct (loads_short_inv _ _ _ _ Hl Hh) as (m & f & -> & Hm & Hfl). apply at_short in Hk as [Hw Hk]. cbn [tryGet].
    rewrite key_test, <- HK, pget_short. destruct (strip k key) as [r|] eqn:E; [|eexists _, false; done].
    apply strip_Some in E. subst key. destruct (at_below k c r Hw) as [Hr Hlk]; [by rewrite <- E|].
    rewrite E, length_app in Hf. pose proof (need_le m r).
    destruct (IH false m K (pos + length k)%nat r fuel Hm Hr) as (n' & d & Hg & Hl'); [|lia|].
    { by rewrite <- drop_drop, E, drop_app_length. }
    rewrite Hg. fal. eexists _, d. split; [done|]. destruct d; [by constructor|done].
  - destruct (loads_full_inv _ _ _ Hl Hh) as (ns & f & -> & Hns & Hfl). cbn [tryGet].
    apply at_full in Hk as (b & key' & c & Ek & Hc & Hkc & Hi). subst key. cbn [length] in Hf.
    assert (Hpos : K !! pos = Some b) by (rewrite <- (Nat.add_0_r pos), <- lookup_drop; by rewrite <- HK).
    destruct (Forall2_lookup_r _ _ _ _ _ Hns Hc) as (m & Hm & Hmc). rewrite Hpos. fal. rewrite Hm. pose proof (need_le m key').
    destruct (Forall_lookup_1 _ _ _ _ IH Hc false m K (pos + 1)%nat key' fuel Hmc Hkc) as (n' & d & Hg & Hl'); [|lia|].
    { rewrite <- drop_drop, <- HK. done. }
    rewrite Hg, pget_full, Hc. eexists _, d. split; [done|]. destruct d; [|done]. constructor; [|done].
    rewrite <- (list_insert_id cs (index b) c) by done. by apply Forall2_insert.
  - apply loads_value_inv in Hl as ->. eexists _, false. split; [done|constructor].
Qed.
(** ** Insertion *)
Definition inserts (v : bytes) (t : ptree) : Prop :=
  forall root n prefix key fuel, loads root n t -> at_key t key -> (need n key <= fuel)%nat ->
  exists d n', insert_node db fuel n prefix key (valueNode v) = Ok (inr (d, n')) /\
               loads root n' (pinsert t key (PVal v)) /\ (d = false -> pinsert t key (PVal v) = t).

Lemma at_hash root h t key : loads root (hashNode h) t -> at_key t key -> key <> [].
Proof.
  intros Hn Hk ->. inversion Hn as [| | | |? ? ? Hh Hr [Hs Ha]]; subst. apply st_wf in Hs.
  destruct Hk as [[_ Hk]|[_ [->|[v ->]]]]; [by apply terminated_nil in Hk|done|done].
Qed.

Lemma inserts_hash v t :
  (forall root n prefix key fuel, is_hash n = false -> loads root n t -> at_key t key -> (need n key <= fuel)%nat ->
   exists d n', insert_node db fuel n prefix key (valueNode v) = Ok (inr (d, n')) /\
                loads root n' (pinsert t key (PVal v)) /\ (d = false -> pinsert t key (PVal v) = t)) -> inserts v t.
Proof.
  intros Hn root n prefix key fuel Hl Hk Hf. destruct (is_hash n) eqn:E; [|by eapply Hn].
  destruct n as [| | |h|]; try done. destruct (loads_resolve S HS db root h t prefix Hdb Hl) as (m & Hm & Hlm & Ehm).
  pose proof (at_hash _ _ _ _ Hl Hk) as Hne. unfold need in Hf. cbn [is_hash] in Hf. destruct fuel as [|fuel]; [lia|].
  destruct (Hn root m prefix key fuel Ehm Hlm Hk) as (d & n' & Hg & Hl' & Hd); [unfold need; rewrite Ehm; lia|].
  destruct key as [|x key]; [done|]. cbn [insert_node]. rewrite Hm. fal. rewrite Hg.
  destruct d; [by eauto|]. exists false, m. split; [done|]. rewrite Hd by done. done.
Qed.

(** What is put where there was nothing. *)
Definition leaf (key : bytes) (value : node) : node := match key with [] => value | _ => shortNode key value newFlag end.

Lemma insert_nil fuel prefix key value : insert_node db (Datatypes.S fuel) nilNode prefix key value = Ok (inr (true, leaf key value)).
Proof. by destruct key. Qed.

Lemma loads_leaf key n t : loads false n t -> loads false (leaf key n) (pleaf key t).
Proof. intros Hn. destruct key; [done|]. by constructor. Qed.

Lemma insert_split fuel p i nk nv f prefix j key value c t :
  i <> j -> (index i < 17)%nat -> (index j < 17)%nat -> loads false nv c -> loads false value t ->
  exists n', insert_node db (Datatypes.S (Datatypes.S fuel)) (shortNode (p ++ i :: nk) nv f) prefix (p ++ j :: key) value = Ok (inr (true, n')) /\
             forall root, loads root n' (pleaf p (branch i (pleaf nk c) j (pleaf key t))).
Proof.
  intros Hij Hi Hj Hc Ht. assert (Hm : prefixLen (p ++ j :: key) (p ++ i :: nk) = length p) by (apply prefixLen_app; congruence).
  set (cs := <[index j := leaf key value]> (<[index i := leaf nk nv]> (replicate 17 nilNode))).
  exists (match p with [] => fullNode cs newFlag | _ => shortNode p (fullNode cs newFlag) newFlag end). split.
  - remember (Datatypes.S fuel) as fu eqn:Efu. cbn [insert_node].
    destruct (p ++ j :: key) as [|x l] eqn:Ek; [by destruct p|]. rewrite Hm, <- Ek.
    destruct (Nat.eqb_spec (length p) (length (p ++ i :: nk))) as [E|_]; [rewrite length_app in E; cbn in E; lia|].
    rewrite !list_lookup_middle, !drop_middle, take_app_length, Efu, !insert_nil by done. fal.
    rewrite (proj2 (Nat.ltb_lt _ _) Hi), (proj2 (Nat.ltb_lt _ _) Hj). by destruct p.
  - assert (Hcs : Forall2 (loads false) cs (<[index j := pleaf key t]> (<[index i := pleaf nk c]> (replicate 17 PNil)))).
    { repeat apply Forall2_insert; try by apply loads_leaf. apply Forall2_replicate. constructor. }
    intros root. destruct p as [|x p]; cbn [pleaf]; repeat (done || constructor).
Qed.

Lemma insert_inserts v t : inserts v t.
Proof.
  induction t as [|k c IH|cs IH|w] using ptree_nested_ind; apply inserts_hash; intros root n prefix key fuel Hh Hl Hk Hf;
    unfold need in Hf; rewrite Hh in Hf; (destruct fuel as [|fuel]; [lia|]).
  - apply loads_nil_inv in Hl as ->. rewrite insert_nil. exists true, (leaf key (valueNode v)). split; [done|]. split; [|done].
    destruct key; repeat (done || constructor).
  - destruct (loads_short_inv _ _ _ _ Hl Hh) as (m & f & -> & Hm & Hfl). apply at_short in Hk as [Hw Hk].
    destruct (short_parts k c key Hw Hk) as [(key' & -> & Hml)|(p & i & nk & j & key' & -> & -> & Hij & Hp & Hj)].
    + destruct (at_below k c key' Hw Hk) as [Hr Hlk]. rewrite length_app in Hf. pose proof (need_le m key').
      assert (Hne : k <> []) by (intros ->; cbn in Hlk; lia).
      destruct (IH false m (prefix ++ take (length k) (k ++ key')) key' fuel Hm Hr) as (d & n' & Hg & Hl' & Hd); [lia|].
      rewrite pinsert_below by done. cbn [insert_node]. destruct (k ++ key') as [|x l] eqn:Ek; [by destruct k|].
      rewrite Hml, <- Ek in *. rewrite Nat.eqb_refl, drop_app_length, Hg. fal. destruct d.
      * eexists true, _. split; [done|]. split; [by constructor|done].
      * eexists false, _. split; [done|]. rewrite Hd by done. done.
    + rewrite pinsert_branch by done. pose proof (short_child _ _ _ _ _ Hw eq_refl Hp) as Hc.
      destruct (pleaf_ok i nk c Hc) as (_ & _ & Hi). rewrite length_app in Hf. cbn [length] in Hf. destruct fuel as [|fuel]; [lia|].
      assert (Hj17 : (index j < 17)%nat).
      { apply terminated_cons in Hj as [[-> _]|[Hj _]]; [vm_compute; lia|]. apply index_lt in Hj. lia. }
      destruct (insert_split fuel p i nk m f prefix j key' (valueNode v) c (PVal v) Hij Hi Hj17 Hm) as (n' & Hg & Hl'); [constructor|].
      eexists true, n'. split; [done|]. split; [by apply Hl'|done].
  - destruct (loads_full_inv _ _ _ Hl Hh) as (ns & f & -> & Hns & Hfl).
    apply at_full in Hk as (b & key' & c & -> & Hc & Hkc & Hi). cbn [length] in Hf. cbn [insert_node].
    destruct (Forall2_lookup_r _ _ _ _ _ Hns Hc) as (m & Hm & Hmc). fal. rewrite Hm. pose proof (need_le m key').
    destruct (Forall_lookup_1 _ _ _ _ IH Hc false m (prefix ++ [b]) key' fuel Hmc Hkc) as (d & n' & Hg & Hl' & Hd); [lia|].
    rewrite Hg. cbn [pinsert]. rewrite (alter_insert _ _ _ _ Hc). destruct d.
    + eexists true, _. split; [done|]. split; [|done]. constructor; [|done]. by apply Forall2_insert.
    + eexists false, _. split; [done|]. rewrite Hd, list_insert_id by done. done.
  - apply loads_value_inv in Hl as ->. destruct Hk as [[[|Hk] _]|[-> _]]; [done|done|]. cbn [insert_node pinsert].
    eexists _, _. split; [done|]. split; [constructor|]. intros Hb. apply negb_false_iff, bool_decide_eq_true in Hb. by subst.
Qed.
(** ** Deletion *)

(** Nothing is left to be loaded of a node that has changed. *)
Definition deletes (t : ptree) : Prop :=
  forall root n prefix key fuel, loads root n t -> at_key t key -> (need n key <= fuel)%nat ->
  exists d n', delete_node db fuel n prefix key = Ok (inr (d, n')) /\ loads root n' (pdelete t key) /\
               (d = false -> pdelete t key = t) /\ (d = true -> is_hash n' = false).

Lemma deletes_hash t :
  (forall root n prefix key fuel, is_hash n = false -> loads root n t -> at_key t key -> (need n key <= fuel)%nat ->
   exists d n', delete_node db fuel n prefix key = Ok (inr (d, n')) /\ loads root n' (pdelete t key) /\
                (d = false -> pdelete t key = t) /\ (d = true -> is_hash n' = false)) -> deletes t.
Proof.
  intros Hn root n prefix key fuel Hl Hk Hf. destruct (is_hash n) eqn:E; [|by eapply Hn].
  destruct n as [| | |h|]; try done. destruct (loads_resolve S HS db root h t prefix Hdb Hl) as (m & Hm & Hlm & Ehm).
  unfold need in Hf. cbn [is_hash] in Hf. destruct fuel as [|fuel]; [lia|]. cbn [delete_node]. rewrite Hm.
  destruct (Hn root m prefix key fuel Ehm Hlm Hk) as (d & n' & Hg & Hl' & Hd & Hd'); [unfold need; rewrite Ehm; lia|].
  fal. rewrite Hg. destruct d; [by eauto 6|]. exists false, m. split; [done|]. rewrite Hd by done. done.
Qed.

Lemma reduce_two cs : two_children cs -> reduce cs = PFull cs.
Proof.
  intros (i & j & c & d & Hij & Hi & Hj & Hc & Hd). rewrite reduce_eq. destruct (only_child 0 cs) as [[p e]|] eqn:E; [|done].
  apply only_child_Some in E as (m & -> & _ & _ & Ho). destruct (decide (i = m)) as [->|Hne]; [|by destruct Hc; eapply Ho].
  destruct Hd. eapply Ho; [exact Hj|congruence].
Qed.

Definition same_nil (n : node) (t : ptree) : Prop := n = nilNode <-> t = PNil.

Lemma single_more ns ts i p :
  Forall2 same_nil ns ts -> single_child i (Some p) ns = if forallb is_nil ts then inl p else inr true.
Proof.
  intros H. revert i. induction H as [|n t ns ts Hnt _ IH]; intros i; [done|]. cbn [single_child forallb].
  destruct (is_nil t) eqn:E.
  - destruct t; try done. rewrite (proj2 Hnt) by done. apply IH.
  - destruct n; try done. by rewrite (proj1 Hnt) in E.
Qed.

Lemma single_only ns ts i :
  Forall2 same_nil ns ts ->
  match only_child i ts with
  | Some (p, _) => single_child i None ns = inl p
  | None => exists b, single_child i None ns = inr b
  end.
Proof.
  intros H. revert i. induction H as [|n t ns ts Hnt Hr IH]; intros i; [by exists false|].
  assert (Hn : t <> PNil -> single_child i None (n :: ns) = if forallb is_nil ts then inl i else inr true).
  { intros Ht. rewrite <- (single_more ns ts (Datatypes.S i) i Hr). destruct n; try done. by destruct Ht, Hnt; auto. }
  destruct t; cbn [only_child]; try (specialize (Hn ltac:(done)); rewrite Hn; destruct (forallb is_nil ts); by eauto).
  rewrite (proj2 Hnt) by done. apply IH.
Qed.

(** What [delete] does with a full node whose child has changed. *)
Definition shrink (ns : list node) (prefix : bytes) : fallible (bool * node) :=
  match single_child 0 None ns with
  | inl pos =>
      c ← raise (ns !! pos);
      cnode ← (if (pos =? 16)%nat then mret nilNode else resolve db c prefix);
      match cnode with
      | shortNode ck cv _ => mret (true, shortNode (byte_of_Z (Z.of_nat pos) :: ck) cv newFlag)
      | _ => mret (true, shortNode [byte_of_Z (Z.of_nat pos)] c newFlag)
      end
  | inr _ => mret (true, fullNode ns newFlag)
  end.

Lemma resolve_loads root n t p :
  loads root n t -> exists m, resolve db n p = Ok (inr m) /\ loads root m t /\ is_hash m = false.
Proof.
  intros Hn. destruct (is_hash n) eqn:E; [|exists n; by destruct n]. destruct n as [| | |h|]; try done.
  by apply (loads_resolve S HS).
Qed.

Lemma shrink_reduce ns ts prefix :
  Forall2 (loads false) ns ts ->
  exists n', shrink ns prefix = Ok (inr (true, n')) /\ is_hash n' = false /\ forall root, loads root n' (reduce ts).
Proof.
  intros Hns. assert (Hsn : Forall2 same_nil ns ts) by (eapply Forall2_impl; [exact Hns|]; intros n t Hn; by apply loads_nil_iff in Hn).
  pose proof (single_only ns ts 0 Hsn) as Hs. unfold shrink. rewrite reduce_eq. destruct (only_child 0 ts) as [[p c]|] eqn:E.
  - rewrite Hs. apply only_child_Some in E as (m & -> & Hc & _ & _). cbn [Nat.add] in *.
    destruct (Forall2_lookup_r _ _ _ _ _ Hns Hc) as (n & Hn & Hl). rewrite Hn. fal.
    destruct (resolve_loads false n c prefix Hl) as (x & Hx & Hlx & Hhx). destruct (m =? 16)%nat eqn:E16.
    + eexists. split; [done|]. split; [done|]. intros root. destruct c; cbn [joined]; rewrite ?E16; by constructor.
    + rewrite Hx. destruct c as [|k d|cs|v]; cbn [joined]; rewrite ?E16.
      * apply loads_nil_inv in Hlx as ->. eexists. split; [done|]. split; [done|]. by constructor.
      * destruct (loads_short_inv _ _ _ _ Hlx Hhx) as (y & f & -> & Hy & _). eexists. split; [done|]. split; [done|]. by constructor.
      * destruct (loads_full_inv _ _ _ Hlx Hhx) as (y & f & -> & _ & _). eexists. split; [done|]. split; [done|]. by constructor.
      * apply loads_value_inv in Hlx as ->. eexists. split; [done|]. split; [done|]. by constructor.
  - destruct Hs as [b ->]. eexists. split; [done|]. split; [done|]. by constructor.
Qed.

(** A short node above a node that has changed. *)
Definition append (k : bytes) (n : node) : node :=
  match n with
  | shortNode ck cv _ => shortNode (k ++ ck) cv newFlag
  | _ => shortNode k n newFlag
  end.

Lemma loads_append root k n t : loads false n t -> is_hash n = false -> loads root (append k n) (below k t).
Proof. intros Hn Hh. inversion Hn; subst; [..|done]; cbn [append below]; by repeat (done || constructor). Qed.

Lemma delete_short k c : deletes c -> forall root n prefix key fuel,
  is_hash n = false -> loads root n (PShort k c) -> at_key (PShort k c) key -> (2 * length key + 1 <= Datatypes.S fuel)%nat ->
  exists d n', delete_node db (Datatypes.S fuel) n prefix key = Ok (inr (d, n')) /\ loads root n' (pdelete (PShort k c) key) /\
               (d = false -> pdelete (PShort k c) key = PShort k c) /\ (d = true -> is_hash n' = false).
Proof.
  intros IH root n prefix key fuel Hh Hl Hk Hf. destruct (loads_short_inv _ _ _ _ Hl Hh) as (m & f & -> & Hm & Hfl).
  apply at_short in Hk as [Hw Hk].
  destruct (short_parts k c key Hw Hk) as [(key' & -> & Hml)|(p & i & nk & j & key' & -> & -> & Hij & Hp & Hj)].
  - destruct (at_below k c key' Hw Hk) as [Hr Hlk]. rewrite length_app in Hf. pose proof (need_le m key').
    cbn [delete_node]. rewrite Hml, Nat.ltb_irrefl. destruct key' as [|x key'].
    + rewrite app_nil_r, Nat.eqb_refl. exists true, nilNode. destruct (pdelete_short k c [term] ltac:(done)) as [_ ->].
      split_and!; [done|constructor|done|done].
    + destruct (pdelete_short k c (x :: key') ltac:(done)) as [-> _].
      destruct (IH false m (prefix ++ take (length k) (k ++ x :: key')) (x :: key') fuel Hm Hr) as (d & n' & Hg & Hl' & Hd & Hd'); [lia|].
      rewrite length_app, drop_app_length, Hg. destruct (Nat.eqb_spec (length k) (length k + length (x :: key'))) as [E|_]; [cbn in E; lia|].
      destruct c as [| |cs|v]; try done; [|destruct Hr as [[[|?] _]|[? _]]; done]. fal. destruct d.
      * exists true, (append k n'). split; [by destruct n'|]. split_and!; [apply loads_append; by auto|done|by destruct n'].
      * eexists false, _. split; [done|]. rewrite Hd by done. done.
  - destruct (pdelete_other p i nk c j key' Hij) as [-> _]. cbn [delete_node]. rewrite prefixLen_app by congruence.
    rewrite (proj2 (Nat.ltb_lt _ _)) by (rewrite length_app; cbn; lia). eexists false, _. done.
Qed.

Lemma delete_deletes t : deletes t.
Proof.
  induction t as [|k c IH|cs IH|w] using ptree_nested_ind; apply deletes_hash; intros root n prefix key fuel Hh Hl Hk Hf;
    unfold need in Hf; rewrite Hh in Hf; (destruct fuel as [|fuel]; [lia|]).
  - apply loads_nil_inv in Hl as ->. exists false, nilNode. split_and!; [done|constructor|done|done].
  - by apply delete_short.
  - destruct (loads_full_inv _ _ _ Hl Hh) as (ns & f & -> & Hns & Hfl). pose proof Hk as Hk'.
    apply at_full in Hk as (b & key' & c & -> & Hc & Hkc & Hi). cbn [length] in Hf. cbn [delete_node head tail]. fal.
    destruct (Forall2_lookup_r _ _ _ _ _ Hns Hc) as (m & Hm & Hmc). rewrite Hm. pose proof (need_le m key').
    destruct (Forall_lookup_1 _ _ _ _ IH Hc false m (prefix ++ [b]) key' fuel Hmc Hkc) as (d & n' & Hg & Hl' & Hd & Hd'); [lia|].
    rewrite Hg. cbn [pdelete]. rewrite (alter_insert _ _ _ _ Hc). destruct d.
    + destruct (shrink_reduce (<[index b:=n']> ns) (<[index b:=pdelete c key']> cs) prefix) as (x & Hx & Hhx & Hlx); [by apply Forall2_insert|].
      exists true, x. split; [exact Hx|]. split_and!; [apply Hlx|done|done].
    + eexists false, _. split; [done|]. rewrite Hd, list_insert_id by done.
      rewrite reduce_two; [done|]. destruct Hk' as [[[|Hw] _]|[_ [|[v ?]]]]; [done| |done|done]. by apply wf_full in Hw as (_ & ? & _).
  - apply loads_value_inv in Hl as ->. exists true, nilNode. split_and!; [done|constructor|done|done].
Qed.
End refine.
