(* ===== verification/TrieCommit.v ===== *)
(** * Hashing and committing a trie

    [Hash] and [Commit] compute the Merkle hash of the trie behind the nodes, whatever is
    cached, clean or not yet loaded. After [Commit] the database holds every node of the
    trie, and all it held before. *)

From S2P Require Import Prelude Bytes RlpEncode RlpDecode RlpCanonical RlpRaw TrieEncoding Types Fallible TrieNode Trie TriePure TrieHash TrieRefine.

Section commit.
Context `{C : Crypto} (S : bytes -> Prop) (HS : collision_free S).

Abbreviation loads := (loads S).
Abbreviation db_ok := (db_ok S).
Abbreviation stored := (stored S).
Abbreviation stored_all := (stored_all S).
Abbreviation flag_ok := (flag_ok S).

(** With a database, or only hashing. *)
Definition mode (w : bool) (d : Database) : option Database := if w then Some d else None.

(** The nodes of a trie that are written. *)
Definition written (root : bool) (t : ptree) : list ptree := (if root then [t] else self t) ++ hashed t.

Definition safe (root : bool) (t : ptree) : Prop := Forall (fun s => S (enc s)) (written root t).

(** ** Collapsed nodes *)
Definition simplify_child (n : node) : option raw := match n with nilNode => Some rawNil | _ => simplifyNode n end.

(** A reference to a trie in a collapsed node. *)
Definition refers (n : node) (t : ptree) : Prop := node_gval n = pref t /\ simplify_child n = Some (raw_ref t).

Lemma encodable_pgval t : encodable (pgval t) = true.
Proof.
  assert (Href : forall c, encodable (pgval c) = true -> encodable (ref_gval c (pgval c)) = true).
  { intros c Hc. unfold ref_gval. by destruct (_ && _). }
  induction t as [|k c IH|cs IH|v] using ptree_nested_ind; [done|..|done]; cbn [pgval encodable forallb].
  - by rewrite Href.
  - induction IH as [|c cs Hc _ IHcs]; [done|]. rewrite fmap_cons. cbn [forallb]. by rewrite Href, IHcs.
Qed.

Lemma encode_collapsed n t : wf t -> bounded t = true -> node_gval n = pgval t -> encode_node n = Ok (enc t).
Proof.
  intros Hw Hb Hn. unfold encode_node. rewrite Hn, EncodeToBytes_ref; [done|apply encodable_pgval|].
  pose proof (length_enc t Hb (or_introl (or_intror Hw))) as Hl. unfold enc in Hl. lia.
Qed.

Lemma refers_hash t : big t = true -> refers (hashNode (bytes_of (node_hash t))) t.
Proof. intros Hb. unfold refers, raw_ref. rewrite pref_eq, Hb. done. Qed.

Lemma refers_small n t : big t = false -> n <> nilNode -> node_gval n = pgval t -> simplifyNode n = Some (raw_of t) -> refers n t.
Proof. intros Hb Hn Hg Hs. unfold refers, raw_ref. rewrite pref_eq, Hb. split; [done|]. by destruct n. Qed.

Lemma refers_short k n t f :
  wf (PShort k t) -> refers n t ->
  node_gval (shortNode (hexToCompact k) n f) = pgval (PShort k t) /\ simplifyNode (shortNode (hexToCompact k) n f) = Some (raw_of (PShort k t)).
Proof.
  intros Hw [Hg Hs]. cbn [node_gval simplifyNode pgval raw_of]. rewrite Hg. split; [done|].
  destruct n; cbn [simplify_child] in Hs; try by rewrite Hs. injection Hs as Hs. unfold raw_ref in Hs.
  destruct (big t); [done|]. by destruct t.
Qed.

Lemma refers_full ns ts f :
  Forall2 refers ns ts ->
  node_gval (fullNode ns f) = pgval (PFull ts) /\ simplifyNode (fullNode ns f) = Some (raw_of (PFull ts)).
Proof.
  intros Hr. cbn [node_gval simplifyNode pgval raw_of]. split.
  - f_equal. induction Hr as [|n t ns ts [Hg _] _ IH]; [done|]. rewrite !fmap_cons, IH. f_equal. exact Hg.
  - fold simplify_child. assert (mapM simplify_child ns = Some (raw_ref <$> ts)) as ->; [|done].
    apply mapM_Some_2. apply Forall2_fmap_r. eapply Forall2_impl; [exact Hr|]. by intros n t [_ ?].
Qed.

(** ** Storing a node *)
Lemma insert_db_ok d t : db_ok d -> wf t -> bounded t = true -> S (enc t) -> db_ok (Database_insert (node_hash t) (raw_of t) d).
Proof.
  intros Hd Hw Hb Hs. unfold Database_insert. destruct (td_dirties d !! node_hash t); [done|]. split; cbn; [|apply Hd].
  intros h r [[<- <-]|[_ Hr]]%lookup_insert_Some; [|by apply Hd]. right. left. eauto 8.
Qed.

Lemma insert_present d h r : present (Database_insert h r d) h.
Proof.
  unfold Database_insert. destruct (td_dirties d !! h) eqn:E; left; [by rewrite E|]. cbn. by rewrite lookup_insert_eq.
Qed.

Lemma insert_extends d h r : extends d (Database_insert h r d).
Proof.
  unfold Database_insert. destruct (td_dirties d !! h) eqn:E; [done|]. intros h' [Hh|Hh]; [left|by right]. cbn.
  destruct (decide (h' = h)) as [->|]; [by rewrite lookup_insert_eq|by rewrite lookup_insert_ne].
Qed.

Lemma insert_preimages d h r : td_preimages (Database_insert h r d) = td_preimages d.
Proof. unfold Database_insert. by destruct (td_dirties d !! h). Qed.

Definition flags (n : node) : nodeFlag := match n with shortNode _ _ f | fullNode _ f => f | _ => newFlag end.
Definition with_flags (n : node) (f : nodeFlag) : node :=
  match n with shortNode k v _ => shortNode k v f | fullNode cs _ => fullNode cs f | _ => n end.

(** Nothing is written without a database. *)
Definition grows (w : bool) (d d' : Database) : Prop :=
  extends d d' /\ td_preimages d' = td_preimages d /\ (w = false -> d' = d).

#[local] Instance grows_preorder w : PreOrder (grows w).
Proof.
  split; [by intros d|]. intros a b c (H1 & P1 & E1) (H2 & P2 & E2).
  split_and!; [by transitivity b|congruence|]. intros E. by rewrite E2, E1.
Qed.

(** What [hash] gives: the node that refers to the trie, and the node with its hashes. *)
Definition hashed_as (w root : bool) (d : Database) (t : ptree) (r : res (node * node * option Database)) : Prop :=
  exists h n d', r = Ok (h, n, mode w d') /\ db_ok d' /\ grows w d d' /\ loads d' root n t /\
    (if root then h = hashNode (bytes_of (node_hash t)) else refers h t) /\
    (w = true -> Forall (stored d') (written root t)).

(** The flags of a node that has to be hashed. *)
Record to_hash (w root : bool) (t : ptree) (f : nodeFlag) : Prop := {
  th_hash : forall x, nf_hash f = Some x -> x = bytes_of (node_hash t);
  th_clean : w = false -> nf_dirty f = false -> root = false /\ big t = false
}.

Lemma store_small n d t force :
  wf t -> bounded t = true -> node_gval n = pgval t -> inner t = true -> is_hash n = false -> n <> nilNode ->
  force || big t = false -> store n d force = Ok (n, d).
Proof.
  intros Hw Hb Hg Hi Hh Hn Hs. apply orb_false_iff in Hs as [-> Hs]. unfold store.
  unfold big in Hs. rewrite Hi in Hs. cbn [andb] in Hs. apply Nat.leb_gt in Hs.
  destruct n; try done; rewrite (encode_collapsed _ t) by done; cbn [mbind res_bind];
    rewrite (proj2 (Nat.ltb_lt _ _) Hs); done.
Qed.

Lemma store_big w n d t force :
  wf t -> bounded t = true -> node_gval n = pgval t -> simplifyNode n = Some (raw_of t) -> is_hash n = false -> n <> nilNode ->
  (forall x, (cache n).1 = Some x -> x = bytes_of (node_hash t)) -> force || big t = true ->
  store n (mode w d) force =
  Ok (hashNode (bytes_of (node_hash t)), mode w (if w then Database_insert (node_hash t) (raw_of t) d else d)).
Proof.
  intros Hw Hb Hg Hs Hh Hn Hc Hf.
  assert (Hst : store n (mode w d) force =
    (let hash := match (cache n).1 with Some h => h | None => bytes_of (keccak256 (enc t)) end in
     match mode w d with
     | None => Ok (hashNode hash, mode w d)
     | Some d =>
         match td_dirties d !! BytesToHash hash with
         | Some _ => Ok (hashNode hash, mode w d)
         | None => match simplifyNode n with
                   | Some r => Ok (hashNode hash, Some (Database_insert (BytesToHash hash) r d))
                   | None => Panic
                   end
         end
     end)).
  { unfold store. assert (Hl : (length (enc t) <? 32)%nat && negb force = false).
    { destruct force; [by rewrite andb_false_r|]. cbn in Hf. unfold big in Hf. apply andb_true_iff in Hf as [_ Hf].
      apply Nat.leb_le in Hf. by rewrite (proj2 (Nat.ltb_ge _ _) Hf). }
    destruct n; try done; rewrite (encode_collapsed _ t) by done; cbn [mbind res_bind]; rewrite Hl; by destruct w. }
  rewrite Hst. assert (Hash : match (cache n).1 with Some h => h | None => bytes_of (keccak256 (enc t)) end = bytes_of (node_hash t)).
  { destruct (cache n).1 as [x|] eqn:E; [by apply Hc|done]. }
  cbv zeta. rewrite Hash. destruct w; [|done]. cbn [mode]. unfold BytesToHash. rewrite mk_bytesN_of, Hs. unfold Database_insert.
  by destruct (td_dirties d !! node_hash t).
Qed.

Lemma written_stored d root t : stored_all d t -> Forall (stored d) (written root t).
Proof.
  intros [Hs Ha]. unfold written, self. apply Forall_app. split; [|done].
  destruct root; [by apply Forall_singleton|]. destruct (big t); [by apply Forall_singleton|done].
Qed.

(** Nodes with flags. *)
Definition flagged (n : node) (f : nodeFlag) : Prop :=
  match n with shortNode _ _ g | fullNode _ g => g = f | _ => False end.

Lemma finish_hashed w root d t f collapsed cached :
  db_ok d -> wf t -> bounded t = true -> to_hash w root t f -> flagged collapsed f -> flagged cached f ->
  node_gval collapsed = pgval t -> simplifyNode collapsed = Some (raw_of t) ->
  (forall d' g, extends d d' -> flag_ok d' root g t -> loads d' root (with_flags cached g) t) ->
  (w = true -> safe root t /\ Forall (stored d) (hashed t)) ->
  hashed_as w root d t (finish collapsed cached (mode w d) root).
Proof.
  intros Hd Hw Hb [Hh Hcl] Hfc Hfd Hg Hs Hl Hsafe. unfold finish.
  assert (Hi : inner t = true) by (by destruct t). assert (Hn : collapsed <> nilNode /\ is_hash collapsed = false) by by destruct collapsed.
  destruct Hn as [Hn Hnh]. destruct (root || big t) eqn:Er.
  - rewrite (store_big w collapsed d t) by (done || destruct collapsed; try done; cbn in *; subst; auto).
    set (d' := if w then _ else d). assert (He : grows w d d') by (unfold d'; destruct w; [split_and!; [apply insert_extends|apply insert_preimages|done]|done]).
    assert (Hrt : root = true \/ big t = true) by (by apply orb_true_iff).
    assert (Hst : w = true -> stored_all d' t).
    { intros ->. destruct (Hsafe eq_refl) as [Hsf Hall]. split; [|eapply Forall_stored_extends; [apply He|done]]. split; [done..| |apply insert_present].
      unfold safe, written, self in Hsf. destruct root; [|destruct (big t); [|by destruct Hrt]]; by apply Forall_cons in Hsf as [? _]. }
    eexists _, _, d'. split; [reflexivity|]. split_and!.
    + unfold d'. destruct w; [|done]. apply insert_db_ok; try done. apply (st_safe S d'), Hst. done.
    + done.
    + replace (set_cached _ _ cached) with (with_flags cached (MkFlag (Some (bytes_of (node_hash t))) (if w then false else nf_dirty f))).
      2: { destruct cached; try done; cbn in *; subst; by destruct w. }
      apply Hl; [apply He|]. cbn. split_and!; [done..|]. destruct w; [auto|]. intros Hdirty. destruct (Hcl eq_refl Hdirty) as [-> Hbt].
      by rewrite Hbt in Er.
    + destruct root; [done|]. by apply refers_hash.
    + intros E. by apply written_stored, Hst.
  - rewrite (store_small collapsed (mode w d) t) by done. apply orb_false_iff in Er as [-> Hbt].
    eexists _, _, d. split; [reflexivity|]. split_and!; [done|done| |by apply refers_small|].
    + replace (set_cached _ _ cached) with (with_flags cached (MkFlag None (if w then false else nf_dirty f))).
      2: { destruct collapsed; try done; destruct cached; try done; cbn in *; subst; by destruct w. }
      by apply Hl.
    + intros E. destruct (Hsafe E) as [_ Hall]. unfold written, self. by rewrite Hbt.
Qed.

(** ** Hashing a trie *)
Definition hashes (t : ptree) : Prop :=
  forall w root n d, db_ok d -> loads d root n t -> wf t -> bounded t = true -> (w = true -> safe root t) ->
  hashed_as w root d t (hash_node n (mode w d) root).

(** Nodes whose hash is known, or that are not loaded. *)
Lemma hash_known w root d t h n :
  db_ok d -> h = bytes_of (node_hash t) -> root = true \/ big t = true -> loads d root n t -> (w = true -> stored_all d t) ->
  hashed_as w root d t (Ok (hashNode h, n, mode w d)).
Proof.
  intros Hd -> Hr Hl Hs. eexists _, _, d. split; [reflexivity|]. split_and!; [done..| |].
  - destruct root; [done|]. destruct Hr; [done|]. by apply refers_hash.
  - intros E. by apply written_stored, Hs.
Qed.

(** A loaded node is either known or has to be hashed. *)
Lemma flag_cases w root d t f n (rest : res (node * node * option Database)) :
  db_ok d -> flag_ok d root f t -> cache n = (nf_hash f, nf_dirty f) -> loads d root n t ->
  (to_hash w root t f -> hashed_as w root d t rest) ->
  hashed_as w root d t
    (match (nf_hash f, nf_dirty f), mode w d with
     | (Some h, _), None => mret (hashNode h, n, mode w d)
     | (Some h, false), Some _ => mret (hashNode h, hashNode h, mode w d)
     | _, _ => rest
     end).
Proof.
  intros Hd Hf Hc Hl Hr. unfold flag_ok in Hf. destruct f as [[h|] dirty]; cbn in *.
  - destruct Hf as (-> & Hrt & Hst). destruct w, dirty; cbn [mode].
    + apply Hr. split; [|done]. cbn. by intros x [= <-].
    + apply (hash_known true); auto. constructor; auto.
    + by apply hash_known.
    + by apply hash_known.
  - destruct w; cbn [mode]; apply Hr; split; try done; cbn; auto.
Qed.

(** A child of a full node. *)
Definition hash_child (i : nat) (n : node) (db : option Database) : res (node * node * option Database) :=
  match n with
  | nilNode => mret (n, n, db)
  | _ => if (i <? 16)%nat then hash_node n db false else mret (n, n, db)
  end.

Lemma child_hashed w i n t d :
  hashes t -> db_ok d -> loads d false n t -> (i < 17)%nat -> child_ok wf i t -> bounded t = true ->
  (w = true -> safe false t) -> hashed_as w false d t (hash_child i n (mode w d)).
Proof.
  intros Ht Hd Hn Hi Hok Hb Hs.
  assert (Hkeep : hashed t = [] -> self t = [] -> refers n t -> hashed_as w false d t (Ok (n, n, mode w d))).
  { intros E1 E2 Hr. exists n, n, d. split_and!; try done. intros _. unfold written. by rewrite E1, E2. }
  assert (Hin : (i < 16)%nat -> wf t -> n <> nilNode -> hashed_as w false d t (hash_child i n (mode w d))).
  { intros Hi16 Hw Hnn. unfold hash_child. rewrite (proj2 (Nat.ltb_lt _ _) Hi16). destruct n; [done|..]; by apply Ht. }
  assert (Hnil : n = nilNode <-> t = PNil) by by eapply loads_nil_iff.
  destruct t as [|k c|cs|v]; cbn [child_ok] in Hok.
  - apply loads_nil_inv in Hn as ->. by apply Hkeep.
  - apply Hin; try apply Hok. by rewrite Hnil.
  - apply Hin; try apply Hok. by rewrite Hnil.
  - apply loads_value_inv in Hn as ->. destruct Hok as [-> _]. by apply Hkeep.
Qed.

(** The children from the child [i] on. *)
Lemma children_hashed w ts : Forall hashes ts -> forall i ns d,
  db_ok d -> Forall2 (loads d false) ns ts -> (i + length ts = 17)%nat ->
  (forall j c, ts !! j = Some c -> child_ok wf (i + j) c) -> forallb bounded ts = true ->
  (w = true -> Forall (safe false) ts) ->
  exists hs cs d', hash_children (fun c db => hash_node c db false) i ns (mode w d) = Ok (hs, cs, mode w d') /\
    db_ok d' /\ grows w d d' /\ Forall2 refers hs ts /\ Forall2 (loads d' false) cs ts /\
    (w = true -> Forall (fun c => Forall (stored d') (self c ++ hashed c)) ts).
Proof.
  induction 1 as [|t ts Ht _ IH]; intros i ns d Hd Hns Hlen Hok Hb Hs; inversion Hns as [|n ? ns' ? Hn Hns']; subst.
  { exists [], [], d. by split_and!. }
  cbn [forallb] in Hb. apply andb_true_iff in Hb as [Hbt Hb]. cbn [length] in Hlen. pose proof (Hok O t eq_refl) as Ht0. rewrite Nat.add_0_r in Ht0.
  destruct (child_hashed w i n t d) as (h & c & d1 & Hh & Hd1 & He1 & Hc & Hr & Hst); try done; [lia| |].
  { intros E. specialize (Hs E). by apply Forall_cons in Hs as [? _]. }
  destruct (IH (Datatypes.S i) ns' d1) as (hs & cs & d2 & Hhs & Hd2 & He2 & Hrs & Hcs & Hsts); try done; [|lia| | |].
  { eapply Forall2_impl; [exact Hns'|]. intros ? ?. apply loads_extends, He1. }
  { intros j e He. rewrite Nat.add_succ_comm. by apply Hok. }
  { intros E. specialize (Hs E). by apply Forall_cons in Hs as [_ ?]. }
  exists (h :: hs), (c :: cs), d2. split.
  { cbn [hash_children]. fold (hash_child i n (mode w d)). rewrite Hh. cbn [mbind res_bind].
    change ((fix go (i : nat) (cs : list node) (db : option Database) := _) (Datatypes.S i) ns' (mode w d1))
      with (hash_children (fun c db => hash_node c db false) (Datatypes.S i) ns' (mode w d1)). rewrite Hhs. done. }
  split_and!; [done|by transitivity d1|by constructor|constructor; [eapply loads_extends; [apply He2|done]|done]|].
  intros E. constructor; [|by auto]. eapply Forall_stored_extends; [apply He2|by apply Hst].
Qed.

Lemma safe_short root k c : safe root (PShort k c) -> safe false c.
Proof. unfold safe, written. cbn [hashed]. by intros [_ ?]%Forall_app. Qed.

Lemma safe_full root cs : safe root (PFull cs) -> Forall (safe false) cs.
Proof. unfold safe, written. cbn [hashed]. intros [_ H]%Forall_app. rewrite Forall_concat, Forall_fmap in H. exact H. Qed.

Lemma hash_not_loaded w root d h t : db_ok d -> loads d root (hashNode h) t -> hashed_as w root d t (hash_node (hashNode h) (mode w d) root).
Proof.
  intros Hd Hl. assert (E : hash_node (hashNode h) (mode w d) root = Ok (hashNode h, hashNode h, mode w d)) by by destruct w.
  rewrite E. inversion Hl as [| | | |? ? ? Hh Hr Hs]; subst. by apply hash_known.
Qed.

Lemma short_hashed k c : hashes c -> hashes (PShort k c).
Proof.
  intros IH w root n d Hd Hl Hw Hb Hs. destruct (is_hash n) eqn:Eh; [destruct n; try done; by apply hash_not_loaded|].
  destruct (loads_short_inv _ _ _ _ _ _ Hl Eh) as (m & f & -> & Hm & Hfl).
  cbn [hash_node cache]. apply (flag_cases w root d _ f (shortNode k m f)); try done. intros Hth.
  pose proof Hb as Hbc. cbn [bounded] in Hbc. apply andb_true_iff in Hbc as [_ Hbc].
  destruct c as [| |cs|v]; try done.
  - assert (Hc : wf (PFull cs)) by (by apply wf_ext in Hw as (_ & _ & ?)).
    destruct (IH w false m d) as (hv & cv & d1 & E & Hd1 & He & Hcv & Hr & Hst); try done; [intros Ew; by eapply safe_short, Hs|].
    assert (Hm' : forall (a b : res (node * node * option Database)), match m with valueNode _ => a | _ => b end = b).
    { inversion Hm; by subst. }
    rewrite Hm', E. cbn [mbind res_bind]. destruct (refers_short k hv (PFull cs) f Hw Hr) as [Hg Hsm].
    destruct (finish_hashed w root d1 (PShort k (PFull cs)) f (shortNode (hexToCompact k) hv f) (shortNode k cv f)) as (h & n & d2 & ? & ? & ? & ? & ? & ?); try done.
    + intros d' g He' Hg'. constructor; [by eapply loads_extends|done].
    + intros Ew. split; [by auto|]. by apply Hst.
    + exists h, n, d2. split_and!; try done. by transitivity d1.
  - apply loads_value_inv in Hm as ->. destruct (refers_short k (valueNode v) (PVal v) f Hw) as [Hg Hsm]; [done|].
    apply (finish_hashed w root d (PShort k (PVal v)) f); try done.
    + intros d' g He' Hg'. constructor; [constructor|done].
    + intros Ew. split; [by auto|constructor].
Qed.

Lemma full_hashed cs : Forall hashes cs -> hashes (PFull cs).
Proof.
  intros IH w root n d Hd Hl Hw Hb Hs. destruct (is_hash n) eqn:Eh; [destruct n; try done; by apply hash_not_loaded|].
  destruct (loads_full_inv _ _ _ _ _ Hl Eh) as (ns & f & -> & Hns & Hfl).
  cbn [hash_node cache]. apply (flag_cases w root d _ f (fullNode ns f)); try done. intros Hth.
  pose proof Hw as (Hlen & _ & Hok)%wf_full.
  destruct (children_hashed w cs IH 0 ns d) as (hs & cs' & d1 & E & Hd1 & He & Hr & Hcs & Hst); try done.
  { intros Ew. by eapply safe_full, Hs. }
  rewrite E. cbn [mbind res_bind]. destruct (refers_full hs cs f Hr) as [Hg Hsm].
  destruct (finish_hashed w root d1 (PFull cs) f (fullNode hs f) (fullNode cs' f)) as (h & n & d2 & ? & ? & ? & ? & ? & ?); try done.
  - intros d' g He' Hg'. constructor; [|done]. eapply Forall2_impl; [exact Hcs|]. intros ? ?. by apply loads_extends.
  - intros Ew. split; [by auto|]. apply hashed_full. by apply Hst.
  - exists h, n, d2. split_and!; try done. by transitivity d1.
Qed.

Lemma hash_hashes t : hashes t.
Proof.
  induction t as [|k c IH|cs IH|v] using ptree_nested_ind; [by intros ????????|by apply short_hashed|by apply full_hashed|by intros ????????].
Qed.

(** ** The root *)
Lemma hashRoot_root w n d t :
  db_ok d -> loads d true n t -> wf_root t -> bounded t = true -> (w = true -> t <> PNil -> safe true t) ->
  exists n' d', hashRoot n (mode w d) = Ok (hashNode (bytes_of (merkle_root t)), n', mode w d') /\
    db_ok d' /\ grows w d d' /\ loads d' true n' t /\ (w = true -> t <> PNil -> stored_all d' t).
Proof.
  intros Hd Hl Hw Hb Hs. destruct Hw as [->|Hw].
  - apply loads_nil_inv in Hl as Hn. subst n. exists nilNode, d. by split_and!.
  - assert (Hn : n <> nilNode) by (intros ->; apply loads_nil_iff in Hl; destruct t; naive_solver).
    assert (Ht : t <> PNil) by by destruct t.
    destruct (hash_hashes t w true n d) as (h & n' & d' & E & Hd' & He & Hl' & -> & Hst); try done; [by auto|].
    exists n', d'. split_and!; try done.
    + unfold hashRoot. destruct n; try done; rewrite E; by destruct t.
    + intros Ew _. specialize (Hst Ew). unfold written in Hst. by apply Forall_cons in Hst.
Qed.

Lemma Trie_Hash_root n d t :
  db_ok d -> loads d true n t -> wf_root t -> bounded t = true ->
  exists n', Trie_Hash n = Ok (merkle_root t, n') /\ loads d true n' t.
Proof.
  intros Hd Hl Hw Hb. destruct (hashRoot_root false n d t) as (n' & d' & E & _ & (_ & _ & He) & Hl' & _); try done.
  exists n'. rewrite He in Hl' by done. split; [|done]. unfold Trie_Hash. change None with (mode false d). rewrite E. cbn.
  unfold BytesToHash. by rewrite mk_bytesN_of.
Qed.

Lemma Trie_Commit_root n d t :
  db_ok d -> loads d true n t -> wf_root t -> bounded t = true -> (t <> PNil -> safe true t) ->
  exists n' d', Trie_Commit n d = Ok (merkle_root t, n', d') /\ db_ok d' /\ extends d d' /\ loads d' true n' t /\
    (t <> PNil -> stored_all d' t) /\ td_preimages d' = td_preimages d.
Proof.
  intros Hd Hl Hw Hb Hs. destruct (hashRoot_root true n d t) as (n' & d' & E & Hd' & (He & Hp & _) & Hl' & Hst); try done.
  exists n', d'. split_and!; try done; [|by auto]. unfold Trie_Commit. change (Some d) with (mode true d). rewrite E. cbn.
  unfold BytesToHash. by rewrite mk_bytesN_of.
Qed.

(** A trie is opened by its root. *)
Lemma Trie_New_root d t :
  db_ok d -> wf_root t -> (t <> PNil -> stored_all d t) ->
  exists n, Trie_New d (merkle_root t) = Ok (inr n) /\ loads d true n t.
Proof.
  intros Hd [->|Hw] Hs; [exists nilNode; split; [by unfold Trie_New; rewrite orb_true_r|constructor]|].
  assert (Hm : merkle_root t = node_hash t) by by destruct t. assert (Hst : stored_all d t) by (apply Hs; by destruct t).
  destruct (loads_resolve S HS d true (bytes_of (node_hash t)) t []) as (n & E & Hn & _); [done|by constructor; auto|].
  exists n. split; [|done]. unfold Trie_New. rewrite Hm. destruct Hst as [[_ _ Hsafe _] _].
  rewrite (bool_decide_eq_false_2 (node_hash t = zeroHash)) by by apply (cf_zero S HS).
  rewrite bool_decide_eq_false_2; [done|]. intros He. apply (cf_empty S HS) in He; [|done]. by apply enc_not_empty in He.
Qed.
End commit.
