(* ===== verification/TrieMap.v ===== *)
(** * A trie is a map

    Any sequence of operations on a trie, in which it is written to the database and opened
    again at roots it had, behaves as on a finite map; the root hash is that of the map. *)

From S2P Require Import Prelude Bytes RlpEncode RlpDecode RlpCanonical RlpRaw TrieEncoding Types Fallible TrieNode Trie TriePure TrieHash TrieRefine TrieCommit.

(** ** The trie of a map *)
Definition trie_of (m : gmap bytes bytes) : ptree := map_fold (fun k v t => pinsert t (keybytesToHex k) (PVal v)) PNil m.

Record represents (t : ptree) (m : gmap bytes bytes) : Prop := {
  rep_wf : wf_root t;
  rep_get : forall k, pget t (keybytesToHex k) = m !! k;
  rep_keys : forall key v, terminated key -> pget t key = Some v -> exists k, key = keybytesToHex k
}.

Lemma represents_unique t1 t2 m : represents t1 m -> represents t2 m -> t1 = t2.
Proof.
  intros [W1 G1 K1] [W2 G2 K2]. apply reduced_trie_canonical; [done..|]. intros key Hk.
  destruct (pget t1 key) as [v|] eqn:E1.
  - destruct (K1 _ _ Hk E1) as [k ->]. rewrite G1 in E1. by rewrite G2.
  - destruct (pget t2 key) as [v|] eqn:E2; [|done]. destruct (K2 _ _ Hk E2) as [k ->]. rewrite G1 in E1. rewrite G2 in E2. congruence.
Qed.

Lemma represents_empty : represents PNil ∅.
Proof. split; [by left|done|done]. Qed.

Lemma represents_insert t m k v : represents t m -> v <> [] -> represents (pinsert t (keybytesToHex k) (PVal v)) (<[k := v]> m).
Proof.
  intros [W G K] Hv. destruct (pinsert_spec t (keybytesToHex k) v W (keybytesToHex_terminated k) Hv) as [Hw Hg]. split; [by right| |].
  - intros k'. rewrite Hg by apply keybytesToHex_terminated. destruct (decide (k' = k)) as [->|Hne].
    + by rewrite decide_True, lookup_insert_eq.
    + rewrite decide_False, lookup_insert_ne by (congruence || by intros ?%(inj keybytesToHex)). apply G.
  - intros key w Hk. rewrite Hg by done. case_decide; [by eauto|by apply K].
Qed.

Lemma represents_delete t m k : represents t m -> represents (pdelete t (keybytesToHex k)) (delete k m).
Proof.
  intros [W G K]. destruct (pdelete_spec t (keybytesToHex k) W (keybytesToHex_terminated k)) as [Hw Hg]. split; [done| |].
  - intros k'. rewrite Hg by apply keybytesToHex_terminated. destruct (decide (k' = k)) as [->|Hne].
    + by rewrite decide_True, lookup_delete_eq.
    + rewrite decide_False, lookup_delete_ne by (congruence || by intros ?%(inj keybytesToHex)). apply G.
  - intros key w Hk. rewrite Hg by done. case_decide; [done|by apply K].
Qed.

Definition nonempty (m : gmap bytes bytes) : Prop := map_Forall (fun _ v => v <> []) m.

Lemma represents_trie_of m : nonempty m -> represents (trie_of m) m.
Proof.
  unfold trie_of, nonempty. apply (map_fold_weak_ind (fun t m => map_Forall (fun _ v => v <> []) m -> represents t m)).
  - intros _. apply represents_empty.
  - intros k v m' t Hk IH Hm. apply map_Forall_insert in Hm as [Hv Hm]; [|done]. by apply represents_insert; [apply IH|].
Qed.

Lemma represents_eq t m : nonempty m -> represents t m -> t = trie_of m.
Proof. intros Hm Ht. eapply represents_unique; [exact Ht|]. by apply represents_trie_of. Qed.

(** ** Sizes *)
Definition small (t : ptree) : Prop :=
  forall key v, terminated key -> pget t key = Some v -> Z.of_nat (length key) < 2 ^ 32 /\ Z.of_nat (length v) < 2 ^ 32.

Lemma small_bounded t : wf t -> small t -> bounded t = true.
Proof.
  induction t as [|k c IH|cs IH|v] using ptree_nested_ind; intros Hw Hs; [done|..|done].
  - cbn [bounded]. destruct c as [| |cs|v]; try done.
    + apply wf_ext in Hw as (Hp & _ & Hw). destruct (wf_has _ Hw) as (r & w & Hr & Hg).
      assert (Hall : forall r w, terminated r -> pget (PFull cs) r = Some w -> Z.of_nat (length (k ++ r)) < 2 ^ 32 /\ Z.of_nat (length w) < 2 ^ 32).
      { intros r' w' Hr' Hg'. apply Hs; [by apply terminated_app|]. by rewrite pget_short, strip_app. }
      pose proof (Hall r w Hr Hg) as [Hl _]. rewrite length_app in Hl. rewrite (proj2 (Z.ltb_lt _ _)) by lia.
      apply IH; [done|]. intros r' w' Hr' Hg'. specialize (Hall r' w' Hr' Hg'). rewrite length_app in Hall. lia.
    + apply wf_leaf in Hw as [Ht Hv]. destruct (Hs k v Ht) as [H1 H2].
      { rewrite pget_leaf by done. by rewrite decide_True. }
      cbn [bounded]. by rewrite (proj2 (Z.ltb_lt _ _) H1), (proj2 (Z.ltb_lt _ _) H2).
  - cbn [bounded]. apply wf_full in Hw as (Hlen & _ & Hcs). apply forallb_forall. intros c Hc.
    apply list_elem_of_In, list_elem_of_lookup in Hc as [i Hi]. pose proof (lookup_lt_Some _ _ _ Hi) as Hlt. specialize (Hcs i c Hi).
    assert (Hb : forall r w, terminated (byte_of_Z (Z.of_nat i) :: r) -> pget c r = Some w -> Z.of_nat (length r) < 2 ^ 32 /\ Z.of_nat (length w) < 2 ^ 32).
    { intros r w Hr Hg. destruct (Hs (byte_of_Z (Z.of_nat i) :: r) w Hr) as [H1 H2]; [|cbn [length] in H1; lia].
      rewrite pget_full, byte_of_index by lia. by rewrite Hi. }
    assert (Hin : (i < 16)%nat -> wf c -> bounded c = true).
    { intros H16 Hw. apply (Forall_lookup_1 _ _ _ _ IH Hi Hw). intros r w Hr. apply Hb. apply terminated_cons. right.
      split; [by apply nibble_of_index|done]. }
    destruct c as [|k d|ds|v]; cbn [child_ok] in Hcs; [done|destruct Hcs; by apply Hin..|]. destruct Hcs as [-> Hv].
    destruct (Hb [] v) as [_ H2]; [apply terminated_cons; by left|done|]. cbn [bounded]. by apply Z.ltb_lt.
Qed.

Definition small_map (m : gmap bytes bytes) : Prop :=
  map_Forall (fun k v => v <> [] /\ Z.of_nat (length k) < 2 ^ 30 /\ Z.of_nat (length v) < 2 ^ 32) m.

Lemma small_map_nonempty m : small_map m -> nonempty m.
Proof. intros Hm k v Hv. apply (Hm k v Hv). Qed.

Lemma represents_bounded t m : represents t m -> small_map m -> bounded t = true.
Proof.
  intros [[->|W] G K] Hm; [done|]. apply small_bounded; [done|]. intros key v Hk Hg. destruct (K _ _ Hk Hg) as [k ->].
  rewrite G in Hg. apply Hm in Hg as (_ & H1 & H2). rewrite keybytesToHex_eq, length_app, length_nibbles. cbn [length]. lia.
Qed.

(** ** Sequences of operations *)
Inductive trie_op : Type :=
  | OGet (key : bytes)
  | OUpdate (key value : bytes)
  | ODelete (key : bytes)
  | OHash
  | OCommit
  | OOpen (i : nat).        (* [New] with the root of the [i]-th commit *)

Inductive output : Type :=
  | OutNone
  | OutValue (v : bytes)
  | OutRoot (h : Hash).

(** A trie, its database and the roots it was committed with. *)
Record trie_state : Type := MkTrieState {
  tr_root : node;
  tr_db : Database;
  tr_roots : list Hash
}.

Section sequences.
Context `{C : Crypto}.

Definition run_op (o : trie_op) (s : trie_state) : fallible (output * trie_state) :=
  let '(MkTrieState n db roots) := s in
  match o with
  | OGet key => '(v, n) ← TryGet db key n; mret (OutValue v, MkTrieState n db roots)
  | OUpdate key value => n ← TryUpdate db key value n; mret (OutNone, MkTrieState n db roots)
  | ODelete key => n ← TryDelete db key n; mret (OutNone, MkTrieState n db roots)
  | OHash => '(h, n) ← returns (Trie_Hash n); mret (OutRoot h, MkTrieState n db roots)
  | OCommit => '(h, n, db) ← returns (Trie_Commit n db); mret (OutRoot h, MkTrieState n db (roots ++ [h]))
  | OOpen i => h ← raise (roots !! i); n ← Trie_New db h; mret (OutNone, MkTrieState n db roots)
  end.

Fixpoint run_ops (os : list trie_op) (s : trie_state) : fallible (list output * trie_state) :=
  match os with
  | [] => mret ([], s)
  | o :: os => '(x, s) ← run_op o s; '(xs, s) ← run_ops os s; mret (x :: xs, s)
  end.

(** The same on a map, and on the list of maps that were committed. *)
Definition map_update (key value : bytes) (m : gmap bytes bytes) : gmap bytes bytes :=
  match value with [] => delete key m | _ => <[key := value]> m end.

Definition map_root (m : gmap bytes bytes) : Hash := merkle_root (trie_of m).

Definition spec_op (o : trie_op) (s : gmap bytes bytes * list (gmap bytes bytes)) : output * (gmap bytes bytes * list (gmap bytes bytes)) :=
  let '(m, hist) := s in
  match o with
  | OGet key => (OutValue (default [] (m !! key)), s)
  | OUpdate key value => (OutNone, (map_update key value m, hist))
  | ODelete key => (OutNone, (delete key m, hist))
  | OHash => (OutRoot (map_root m), s)
  | OCommit => (OutRoot (map_root m), (m, hist ++ [m]))
  | OOpen i => (OutNone, (default m (hist !! i), hist))
  end.

Fixpoint spec_ops (os : list trie_op) (s : gmap bytes bytes * list (gmap bytes bytes)) : list output * (gmap bytes bytes * list (gmap bytes bytes)) :=
  match os with
  | [] => ([], s)
  | o :: os => let '(x, s) := spec_op o s in let '(xs, s) := spec_ops os s in (x :: xs, s)
  end.

Context (S : bytes -> Prop).

(** Keys and values have a size, only roots there were are opened, and the nodes that are
    written are among those without collisions. *)
Definition allowed (o : trie_op) (s : gmap bytes bytes * list (gmap bytes bytes)) : Prop :=
  match o with
  | OUpdate key value => Z.of_nat (length key) < 2 ^ 30 /\ Z.of_nat (length value) < 2 ^ 32
  | OCommit => trie_of s.1 <> PNil -> safe S true (trie_of s.1)
  | OOpen i => (i < length s.2)%nat
  | _ => True
  end.

Fixpoint all_allowed (os : list trie_op) (s : gmap bytes bytes * list (gmap bytes bytes)) : Prop :=
  match os with
  | [] => True
  | o :: os => allowed o s /\ all_allowed os (spec_op o s).2
  end.

(** ** The invariant *)
Record trie_ok (s : trie_state) (a : gmap bytes bytes * list (gmap bytes bytes)) : Prop := {
  to_db : db_ok S (tr_db s);
  to_root : loads S (tr_db s) true (tr_root s) (trie_of a.1);
  to_small : small_map a.1;
  to_roots : tr_roots s = map_root <$> a.2;
  to_stored : Forall (fun m => small_map m /\ (trie_of m <> PNil -> stored_all S (tr_db s) (trie_of m))) a.2
}.

Context (HS : collision_free S).

Lemma represents_small m : small_map m -> represents (trie_of m) m /\ bounded (trie_of m) = true.
Proof.
  intros Hm. pose proof (represents_trie_of m (small_map_nonempty m Hm)) as Hr. split; [done|]. by eapply represents_bounded.
Qed.

Lemma at_root m key : small_map m -> at_key (trie_of m) (keybytesToHex key).
Proof. intros Hm. left. split; [apply (rep_wf _ m), represents_small, Hm|apply keybytesToHex_terminated]. Qed.

Lemma fuel_enough n key : (need n key <= key_fuel key)%nat.
Proof. apply need_le. Qed.

Lemma small_map_delete key m : small_map m -> small_map (delete key m).
Proof. intros Hm. by apply map_Forall_delete. Qed.

Lemma small_map_insert key value m :
  small_map m -> value <> [] -> Z.of_nat (length key) < 2 ^ 30 -> Z.of_nat (length value) < 2 ^ 32 -> small_map (<[key := value]> m).
Proof. intros Hm Hv H1 H2. by apply map_Forall_insert_2. Qed.

Section one.
Context (db : Database) (Hdb : db_ok S db) (n : node) (m : gmap bytes bytes) (Hm : small_map m).
Context (Hn : loads S db true n (trie_of m)).

Lemma TryGet_map key : exists n', TryGet db key n = Ok (inr (default [] (m !! key), n')) /\ loads S db true n' (trie_of m).
Proof.
  destruct (tryGet_gets S HS db Hdb (trie_of m) true n (keybytesToHex key) O (keybytesToHex key) (key_fuel (keybytesToHex key)))
    as (n' & d & E & Hl); [done|by apply at_root|done|apply fuel_enough|].
  unfold TryGet. rewrite E. fal. rewrite (rep_get _ _ (proj1 (represents_small m Hm))).
  eexists. split; [done|]. by destruct d.
Qed.

Lemma TryDelete_map key : exists n', TryDelete db key n = Ok (inr n') /\ loads S db true n' (trie_of (delete key m)).
Proof.
  destruct (delete_deletes S HS db Hdb (trie_of m) true n [] (keybytesToHex key) (key_fuel (keybytesToHex key)))
    as (d & n' & E & Hl & _); [done|by apply at_root|apply fuel_enough|].
  unfold TryDelete. rewrite E. fal. exists n'. split; [done|].
  rewrite <- (represents_eq (pdelete (trie_of m) (keybytesToHex key))); [done| |].
  - by apply small_map_nonempty, small_map_delete.
  - by apply represents_delete, represents_small.
Qed.

Lemma TryUpdate_map key value :
  Z.of_nat (length key) < 2 ^ 30 -> Z.of_nat (length value) < 2 ^ 32 ->
  exists n', TryUpdate db key value n = Ok (inr n') /\ loads S db true n' (trie_of (map_update key value m)) /\ small_map (map_update key value m).
Proof.
  intros H1 H2. destruct value as [|x value].
  - destruct (TryDelete_map key) as (n' & E & Hl). exists n'. split_and!; [done..|by apply small_map_delete].
  - destruct (insert_inserts S HS db Hdb (x :: value) (trie_of m) true n [] (keybytesToHex key) (key_fuel (keybytesToHex key)))
      as (d & n' & E & Hl & _); [done|by apply at_root|apply fuel_enough|].
    assert (Hm' : small_map (<[key := x :: value]> m)) by by apply small_map_insert.
    unfold TryUpdate. rewrite E. fal. exists n'. split_and!; [done| |done].
    cbn [map_update]. rewrite <- (represents_eq (pinsert (trie_of m) (keybytesToHex key) (PVal (x :: value)))); [done| |].
    + by apply small_map_nonempty.
    + by apply represents_insert; [apply represents_small|].
Qed.
End one.

Lemma run_op_spec o s a :
  trie_ok s a -> allowed o a ->
  exists s', run_op o s = Ok (inr ((spec_op o a).1, s')) /\ trie_ok s' (spec_op o a).2.
Proof.
  destruct s as [n db roots], a as [m hist]. intros [Hdb Hn Hm Hr Hh] Ha. cbn [tr_db tr_root tr_roots fst snd] in *.
  destruct (represents_small m Hm) as [Hrep Hb]. pose proof (rep_wf _ _ Hrep) as Hw.
  destruct o as [key|key value|key| | |i]; cbn [run_op spec_op allowed fst snd] in *.
  - destruct (TryGet_map db Hdb n m Hm Hn key) as (n' & -> & Hl). eexists. split; [done|]. by split.
  - destruct Ha as [H1 H2]. destruct (TryUpdate_map db Hdb n m Hm Hn key value H1 H2) as (n' & -> & Hl & Hm'). eexists. split; [done|]. by split.
  - destruct (TryDelete_map db Hdb n m Hm Hn key) as (n' & -> & Hl). eexists. split; [done|]. split; try done. by apply small_map_delete.
  - destruct (Trie_Hash_root S n db (trie_of m) Hdb Hn Hw Hb) as (n' & -> & Hl). eexists. split; [done|]. by split.
  - destruct (Trie_Commit_root S n db (trie_of m) Hdb Hn Hw Hb Ha) as (n' & db' & -> & Hdb' & He & Hl & Hst & _).
    eexists. split; [done|]. split; cbn; [done..| |].
    + by rewrite Hr, fmap_app.
    + apply Forall_app. split; [|by apply Forall_singleton]. eapply Forall_impl; [exact Hh|]. intros m' [Hm' Hs]. split; [done|].
      intros Hne. eapply stored_all_extends; [exact He|by apply Hs].
  - destruct (lookup_lt_is_Some_2 hist i Ha) as [m' Hi]. rewrite Hr, list_lookup_fmap, Hi. cbn [fmap option_fmap option_map default].
    pose proof (Forall_lookup_1 _ _ _ _ Hh Hi) as [Hm' Hs]. destruct (represents_small m' Hm') as [Hrep' _].
    destruct (Trie_New_root S HS db (trie_of m') Hdb (rep_wf _ _ Hrep') Hs) as (n' & E & Hl).
    eexists. split; [unfold map_root; fal; by rewrite E|]. by split.
Qed.

Lemma run_ops_spec os s a :
  trie_ok s a -> all_allowed os a ->
  exists s', run_ops os s = Ok (inr ((spec_ops os a).1, s')) /\ trie_ok s' (spec_ops os a).2.
Proof.
  revert s a. induction os as [|o os IH]; intros s a Hs Ha; [by exists s|]. destruct Ha as [Ho Ha].
  destruct (run_op_spec o s a Hs Ho) as (s1 & E1 & Hs1). cbn [run_ops spec_ops]. rewrite E1.
  destruct (spec_op o a) as [x a1]. cbn [fst snd] in *. destruct (IH s1 a1 Hs1 Ha) as (s2 & E2 & Hs2).
  exists s2. fal. rewrite E2. by destruct (spec_ops os a1).
Qed.
End sequences.

Lemma trie_ok_empty `{C : Crypto} S db : db_ok S db -> trie_ok S (MkTrieState nilNode db []) (∅, []).
Proof. intros Hdb. split; try done. cbn. unfold trie_of. rewrite map_fold_empty. constructor. Qed.

(** C26: a trie behaves as a finite map: on an empty trie and any database of nodes, a sequence
    of lookups, updates, deletions, hashes, commits and openings at earlier roots succeeds
    without a missing node or a panic, every lookup gives the value the map has or none,
    an opening at the root of an earlier commit gives the contents of then, and the hashes
    are those of the contents alone. The encoded nodes that are written, and what the
    database holds, are taken from byte strings without collisions of Keccak-256. *)
Theorem trie_is_map `{C : Crypto} S db os :
  collision_free S -> db_ok S db -> all_allowed S os (∅, []) ->
  exists s', run_ops os (MkTrieState nilNode db []) = Ok (inr ((spec_ops os (∅, [])).1, s')).
Proof.
  intros HS Hdb Ha. destruct (run_ops_spec S HS os (MkTrieState nilNode db []) (∅, [])) as (s' & E & _); [|done|by exists s'].
  by apply trie_ok_empty.
Qed.

(** ** An example *)

(** A finite list of byte strings without collisions. *)
Definition no_collisions `{C : Crypto} (l : list bytes) : bool :=
  bool_decide (NoDup (keccak256 <$> l)) && forallb (fun b => negb (bool_decide (keccak256 b = zeroHash \/ keccak256 b = emptyRoot))) l.

Lemma no_collisions_free `{C : Crypto} l : no_collisions l = true -> collision_free (fun b => b ∈ l).
Proof.
  intros [Hn Hz]%andb_true_iff. apply bool_decide_eq_true in Hn. rewrite forallb_forall in Hz. split.
  - intros a b [i Ha]%list_elem_of_lookup [j Hb]%list_elem_of_lookup He.
    assert (i = j) as ->; [|congruence].
    eapply NoDup_lookup; [exact Hn|rewrite list_lookup_fmap, Ha; done|]. rewrite list_lookup_fmap, Hb. cbn. by rewrite He.
  - intros a Ha%list_elem_of_In%Hz He. apply negb_true_iff, bool_decide_eq_false in Ha. tauto.
  - intros a Ha%list_elem_of_In%Hz He. apply negb_true_iff, bool_decide_eq_false in Ha. tauto.
Qed.

(** What is allowed can be checked beforehand, but for the nodes that are written. *)
Definition sized (o : trie_op) : bool :=
  match o with
  | OUpdate key value => (Z.of_nat (length key) <? 2 ^ 30) && (Z.of_nat (length value) <? 2 ^ 32)
  | _ => true
  end.

Fixpoint opens_ok (os : list trie_op) (commits : nat) : bool :=
  match os with
  | [] => true
  | OOpen i :: os => (i <? commits)%nat && opens_ok os commits
  | OCommit :: os => opens_ok os (Datatypes.S commits)
  | _ :: os => opens_ok os commits
  end.

Section checks.
Context `{C : Crypto} (S : bytes -> Prop).

Lemma spec_ops_history os m hist : exists l, (spec_ops os (m, hist)).2.2 = hist ++ l.
Proof.
  revert m hist. induction os as [|o os IH]; intros m hist; [exists []; by rewrite app_nil_r|]. cbn [spec_ops].
  destruct (spec_op o (m, hist)) as [x [m' hist']] eqn:Eo.
  assert (Hh : exists l, hist' = hist ++ l).
  { destruct o; cbn in Eo; injection Eo as <- <- <-; try (exists []; by rewrite app_nil_r); by eexists. }
  destruct Hh as [l ->]. destruct (IH m' (hist ++ l)) as [l' Hl']. destruct (spec_ops os (m', hist ++ l)) as [xs a].
  cbn [snd] in *. exists (l ++ l'). by rewrite app_assoc.
Qed.

Lemma all_allowed_intro os m hist :
  forallb sized os = true -> opens_ok os (length hist) = true ->
  (forall m', m' ∈ (spec_ops os (m, hist)).2.2 -> safe S true (trie_of m')) -> all_allowed S os (m, hist).
Proof.
  revert m hist. induction os as [|o os IH]; intros m hist Hs Ho Hm; [done|]. cbn [forallb] in Hs. apply andb_true_iff in Hs as [Hso Hs].
  cbn [all_allowed]. destruct (spec_op o (m, hist)) as [x [m' hist']] eqn:Eo.
  assert (Hm' : forall m2, m2 ∈ (spec_ops os (m', hist')).2.2 -> safe S true (trie_of m2)).
  { intros m2 H2. apply Hm. cbn [spec_ops]. rewrite Eo. by destruct (spec_ops os (m', hist')). }
  assert (Ho' : opens_ok os (length hist') = true).
  { destruct o; cbn in Eo; injection Eo as <- <- <-; cbn [opens_ok] in Ho; try done.
    - by rewrite length_app, Nat.add_1_r.
    - by apply andb_true_iff in Ho as [_ ?]. }
  split; [|by apply IH]. destruct o; cbn in Eo; injection Eo as <- <- <-; cbn [allowed sized opens_ok fst snd] in *; try done.
  - apply andb_true_iff in Hso as [?%Z.ltb_lt ?%Z.ltb_lt]. done.
  - intros _. apply Hm'. destruct (spec_ops_history os m (hist ++ [m])) as [l ->]. set_solver.
  - apply andb_true_iff in Ho as [?%Nat.ltb_lt _]. done.
Qed.
End checks.

Section demo.
#[local] Existing Instance demo_crypto.

Definition demo_value (i : Z) : bytes := byte_of_Z i :: replicate 39 (byte_of_Z 7).

Definition demo_ops : list trie_op :=
  [ OUpdate (str "alpha") (demo_value 1); OUpdate (str "alps") (demo_value 2); OUpdate (str "al") (demo_value 3); OHash; OCommit;
    OUpdate (str "alps") []; OGet (str "alps"); ODelete (str "beta"); OUpdate (str "alpha") (demo_value 4); OCommit;
    OOpen 0; OGet (str "alps"); OGet (str "beta"); OHash ].

(** The maps that are committed, and their nodes. *)
Definition demo_commits : list (gmap bytes bytes) := (spec_ops demo_ops (∅, [])).2.2.

Definition demo_nodes : list bytes := remove_dups (enc <$> concat ((fun m => written true (trie_of m)) <$> demo_commits)).

Lemma demo_free : collision_free (fun b => b ∈ demo_nodes).
Proof. apply no_collisions_free. vm_compute. reflexivity. Qed.

Definition demo_trie_db : Database := NewDatabase (fun _ => None) (fun _ => None).

Lemma demo_db_ok : db_ok (fun b => b ∈ demo_nodes) demo_trie_db.
Proof. split; [|done]. cbn. intros h r [[<- _]|[_ Hr]]%lookup_insert_Some; [by left|done]. Qed.

Lemma demo_safe m : m ∈ demo_commits -> safe (fun b => b ∈ demo_nodes) true (trie_of m).
Proof.
  intros Hm. unfold safe. apply Forall_forall. intros t Ht. apply elem_of_remove_dups, list_elem_of_fmap. exists t. split; [done|].
  apply list_elem_of_In, in_concat. exists (written true (trie_of m)). split; [|by apply list_elem_of_In].
  apply list_elem_of_In, list_elem_of_fmap. by exists m.
Qed.

Lemma trie_is_map_witness :
  exists s', run_ops demo_ops (MkTrieState nilNode demo_trie_db []) = Ok (inr ((spec_ops demo_ops (∅, [])).1, s')).
Proof.
  apply (trie_is_map (fun b => b ∈ demo_nodes)); [exact demo_free|exact demo_db_ok|].
  apply all_allowed_intro; [vm_compute; reflexivity|vm_compute; reflexivity|exact demo_safe].
Defined.
End demo.
