(* ===== verification/SecureTrie.v ===== *)
(** * Secure tries

    Models [src/trie/secure_trie.go]: a trie whose keys are hashed first. The keys
    themselves are remembered until the trie is committed, and in the database after
    that. *)

From S2P Require Import Prelude Bytes RlpEncode RlpDecode RlpCanonical RlpRaw TrieEncoding Types Fallible TrieNode Trie TriePure TrieHash TrieRefine TrieCommit TrieMap.

(** The cache belongs to the trie it was made for: in a copy it is not used. *)
Record SecureTrie : Type := MkSecure {
  sec_root : node;
  sec_keyCache : gmap bytes bytes;
  sec_owned : bool                   (* [secKeyCacheOwner] is the trie itself *)
}.

Section secure.
Context `{C : Crypto}.

Definition hashKey (key : bytes) : bytes := bytes_of (keccak256 key).

Definition getSecKeyCache (t : SecureTrie) : gmap bytes bytes := if sec_owned t then sec_keyCache t else ∅.

Definition NewSecure (root : Hash) (db : Database) : fallible SecureTrie :=
  n ← Trie_New db root;
  mret (MkSecure n ∅ false).

Definition Secure_TryGet (db : Database) (key : bytes) (t : SecureTrie) : fallible (bytes * SecureTrie) :=
  '(v, n) ← TryGet db (hashKey key) (sec_root t);
  mret (v, MkSecure n (sec_keyCache t) (sec_owned t)).

Definition Secure_TryUpdate (db : Database) (key value : bytes) (t : SecureTrie) : fallible SecureTrie :=
  let hk := hashKey key in
  n ← TryUpdate db hk value (sec_root t);
  mret (MkSecure n (<[hk := key]> (getSecKeyCache t)) true).

Definition Secure_TryDelete (db : Database) (key : bytes) (t : SecureTrie) : fallible SecureTrie :=
  let hk := hashKey key in
  let cache := delete hk (getSecKeyCache t) in
  n ← TryDelete db hk (sec_root t);
  mret (MkSecure n cache true).

(** [GetKey]; [None] is nil. *)
Definition GetKey (db : Database) (shaKey : bytes) (t : SecureTrie) : option bytes * SecureTrie :=
  let cache := getSecKeyCache t in
  (match cache !! shaKey with
   | Some key => Some key
   | None => preimage db (BytesToHash shaKey)
   end, MkSecure (sec_root t) cache true).

Definition Secure_Commit (t : SecureTrie) (db : Database) : res (Hash * SecureTrie * Database) :=
  let cache := getSecKeyCache t in
  let db := map_fold (fun hk key db => insertPreimage (BytesToHash hk) key db) db cache in
  '(h, n, db) ← Trie_Commit (sec_root t) db;
  mret (h, MkSecure n ∅ true, db).

Definition Secure_Hash (t : SecureTrie) : res (Hash * SecureTrie) :=
  '(h, n) ← Trie_Hash (sec_root t);
  mret (h, MkSecure n (sec_keyCache t) (sec_owned t)).

(** [Copy] *)
Definition Secure_Copy (t : SecureTrie) : SecureTrie := MkSecure (sec_root t) (sec_keyCache t) false.

(** ** Keys *)

(** Keys are kept under their hashes. *)
Definition keys_ok (t : SecureTrie) : Prop := map_Forall (fun hk key => hk = hashKey key) (getSecKeyCache t).
Definition preimages_ok (db : Database) : Prop := map_Forall (fun h key => h = keccak256 key) (td_preimages db).

(** [GetKey] finds a key with the given hash. *)
Definition knows (db : Database) (t : SecureTrie) (key : bytes) : Prop :=
  exists key', (GetKey db (hashKey key) t).1 = Some key' /\ keccak256 key' = keccak256 key.

Lemma hashKey_hash key : BytesToHash (hashKey key) = keccak256 key.
Proof. unfold BytesToHash, hashKey. apply mk_bytesN_of. Qed.

Lemma insertPreimage_spec h key db :
  td_preimages (insertPreimage h key db) = match td_preimages db !! h with Some _ => td_preimages db | None => <[h := key]> (td_preimages db) end.
Proof. unfold insertPreimage. by destruct (td_preimages db !! h). Qed.

Lemma insertPreimage_ok h key db :
  preimages_ok db -> h = keccak256 key ->
  preimages_ok (insertPreimage h key db) /\ is_Some (td_preimages (insertPreimage h key db) !! h) /\
  forall h', is_Some (td_preimages db !! h') -> is_Some (td_preimages (insertPreimage h key db) !! h').
Proof.
  intros Hp Hh. unfold preimages_ok. rewrite insertPreimage_spec. destruct (td_preimages db !! h) eqn:E; [by rewrite E|].
  split_and!; [by apply map_Forall_insert_2|by rewrite lookup_insert_eq|].
  intros h' Hh'. rewrite lookup_insert. by case_decide.
Qed.

(** All the keys of the cache go to the database. *)
Definition flush (cache : gmap bytes bytes) (db : Database) : Database :=
  map_fold (fun hk key db => insertPreimage (BytesToHash hk) key db) db cache.

Lemma flush_ok cache db :
  map_Forall (fun hk key => hk = hashKey key) cache -> preimages_ok db ->
  preimages_ok (flush cache db) /\ (forall h, is_Some (td_preimages db !! h) -> is_Some (td_preimages (flush cache db) !! h)) /\
  (forall hk, is_Some (cache !! hk) -> is_Some (td_preimages (flush cache db) !! BytesToHash hk)) /\
  td_dirties (flush cache db) = td_dirties db /\ td_disk (flush cache db) = td_disk db.
Proof.
  intros Hc Hp. revert Hc. unfold flush.
  apply (map_fold_weak_ind (fun db' cache => map_Forall (fun hk key => hk = hashKey key) cache ->
    preimages_ok db' /\ (forall h, is_Some (td_preimages db !! h) -> is_Some (td_preimages db' !! h)) /\
    (forall hk, is_Some (cache !! hk) -> is_Some (td_preimages db' !! BytesToHash hk)) /\ td_dirties db' = td_dirties db /\ td_disk db' = td_disk db)).
  { intros _. split_and!; try done. intros hk [? ?]. by rewrite lookup_empty in H. }
  intros hk key m db' Hm IH Hall. apply map_Forall_insert in Hall as [Hk Hall]; [|done]. destruct (IH Hall) as (P1 & P2 & P3 & P4 & P5).
  destruct (insertPreimage_ok (BytesToHash hk) key db' P1) as (Q1 & Q2 & Q3); [by rewrite Hk, hashKey_hash|].
  split_and!; [done|by auto| | |].
  - intros hk' Hs. rewrite lookup_insert in Hs. case_decide as Heq; [by subst|by auto].
  - unfold insertPreimage. by destruct (td_preimages db' !! _).
  - unfold insertPreimage. by destruct (td_preimages db' !! _).
Qed.

Lemma length_hashKey key : Z.of_nat (length (hashKey key)) < 2 ^ 30.
Proof. unfold hashKey. rewrite bytes_of_length. vm_compute. reflexivity. Qed.

Lemma knows_cached db t key : keys_ok t -> is_Some (getSecKeyCache t !! hashKey key) -> knows db t key.
Proof.
  intros Hk [key' Hc]. exists key'. unfold GetKey. rewrite Hc. split; [done|]. apply Hk in Hc. by apply (inj bytes_of) in Hc.
Qed.

Lemma knows_stored db t key :
  preimages_ok db -> getSecKeyCache t !! hashKey key = None -> is_Some (td_preimages db !! keccak256 key) -> knows db t key.
Proof.
  intros Hp Hc [key' Hk]. exists key'. unfold GetKey, preimage. rewrite Hc, hashKey_hash. cbn [fst]. rewrite Hk. split; [done|].
  symmetry. exact (Hp _ _ Hk).
Qed.

Lemma flush_db_ok S cache db : map_Forall (fun hk key => hk = hashKey key) cache -> preimages_ok db -> db_ok S db -> db_ok S (flush cache db).
Proof.
  intros Hc Hp [H1 H2]. destruct (flush_ok cache db Hc Hp) as (_ & _ & _ & E1 & E2). split; [by rewrite E1|by rewrite E2].
Qed.

Lemma flush_extends cache db : map_Forall (fun hk key => hk = hashKey key) cache -> preimages_ok db -> extends db (flush cache db).
Proof. intros Hc Hp h. destruct (flush_ok cache db Hc Hp) as (_ & _ & _ & E1 & E2). unfold present. by rewrite E1, E2. Qed.
End secure.

(** What is put in a secure trie is found again: an update succeeds, the value is read
    back under the key after the trie is committed, the root is that of the map of hashed
    keys, and [GetKey] gives a key with the hash of the key before the commit, after it
    and in a copy of the trie. *)
Theorem secure_update `{C : Crypto} S db t m key value :
  collision_free S -> db_ok S db -> loads S db true (sec_root t) (trie_of m) -> small_map m -> keys_ok t -> preimages_ok db ->
  Z.of_nat (length value) < 2 ^ 32 -> safe S true (trie_of (map_update (hashKey key) value m)) ->
  exists t1 t2 db2 t3,
    Secure_TryUpdate db key value t = Ok (inr t1) /\ Secure_Commit t1 db = Ok (map_root (map_update (hashKey key) value m), t2, db2) /\
    Secure_TryGet db2 key t2 = Ok (inr (value, t3)) /\ knows db t1 key /\ knows db2 t3 key /\ knows db2 (Secure_Copy t3) key.
Proof.
  intros HS Hdb Hl Hm Hk Hp Hv Hsafe.
  destruct (TryUpdate_map S HS db Hdb (sec_root t) m Hm Hl (hashKey key) value (length_hashKey key) Hv) as (n1 & E1 & Hl1 & Hm1).
  set (t1 := MkSecure n1 (<[hashKey key := key]> (getSecKeyCache t)) true).
  assert (Hk1 : keys_ok t1) by by apply map_Forall_insert_2.
  assert (Hc1 : is_Some (getSecKeyCache t1 !! hashKey key)) by (cbn; by rewrite lookup_insert_eq).
  set (dbf := flush (getSecKeyCache t1) db). destruct (flush_ok _ db Hk1 Hp) as (P1 & _ & P3 & _ & _).
  destruct (represents_small _ Hm1) as [Hrep Hb].
  destruct (Trie_Commit_root S n1 dbf (trie_of (map_update (hashKey key) value m))) as (n2 & db2 & E2 & Hdb2 & He2 & Hl2 & _ & Hpre); try done.
  { by apply flush_db_ok. }
  { eapply loads_extends; [by apply flush_extends|done]. }
  { apply (rep_wf _ _ Hrep). }
  destruct (TryGet_map S HS db2 Hdb2 n2 _ Hm1 Hl2 (hashKey key)) as (n3 & E3 & _).
  exists t1, (MkSecure n2 ∅ true), db2, (MkSecure n3 ∅ true).
  assert (Hstored : forall u, getSecKeyCache u = ∅ -> knows db2 u key).
  { intros u Hu. apply knows_stored; [by unfold preimages_ok; rewrite Hpre|by rewrite Hu|]. rewrite Hpre, <- hashKey_hash. by apply P3. }
  split_and!.
  - unfold Secure_TryUpdate. by rewrite E1.
  - unfold Secure_Commit. fold (flush (getSecKeyCache t1) db) dbf. cbn [sec_root t1]. by rewrite E2.
  - unfold Secure_TryGet. cbn [sec_root]. rewrite E3. fal. unfold map_update. destruct value; [by rewrite lookup_delete_eq|by rewrite lookup_insert_eq].
  - by apply knows_cached.
  - by apply Hstored.
  - by apply Hstored.
Qed.

(** ** An example *)
Section demo.
#[local] Existing Instance demo_crypto.

Definition demo_secure_map : gmap bytes bytes := map_update (hashKey (str "key")) (demo_value 1) ∅.
Definition demo_secure_nodes : list bytes := remove_dups (enc <$> written true (trie_of demo_secure_map)).

Lemma secure_update_witness :
  exists t1 t2 db2 t3,
    Secure_TryUpdate demo_trie_db (str "key") (demo_value 1) (MkSecure nilNode ∅ false) = Ok (inr t1) /\
    Secure_Commit t1 demo_trie_db = Ok (map_root demo_secure_map, t2, db2) /\
    Secure_TryGet db2 (str "key") t2 = Ok (inr (demo_value 1, t3)) /\
    knows demo_trie_db t1 (str "key") /\ knows db2 t3 (str "key") /\ knows db2 (Secure_Copy t3) (str "key").
Proof.
  apply (secure_update (fun b => b ∈ demo_secure_nodes) demo_trie_db (MkSecure nilNode ∅ false) ∅).
  - apply no_collisions_free. vm_compute. reflexivity.
  - split; [|discriminate]. cbn. intros h r [[<- _]|[_ Hr]]%lookup_insert_Some; [by left|done].
  - unfold trie_of. rewrite map_fold_empty. constructor.
  - apply map_Forall_empty.
  - apply map_Forall_empty.
  - apply map_Forall_empty.
  - vm_compute. reflexivity.
  - apply Forall_forall. intros t Ht. apply elem_of_remove_dups, list_elem_of_fmap. by exists t.
Defined.
End demo.
