(* ===== verification/TrieProof.v ===== *)
(** * Merkle proofs

    Models [src/trie/proof.go]: a proof is the encoded nodes on the path of a key, by their
    hashes. Proofs of a trie verify, with the value the trie has; and no proof at all, as
    long as its nodes are stored under their hashes, verifies with another one. *)

From S2P Require Import Prelude Bytes RlpEncode RlpDecode RlpCanonical RlpRaw TrieEncoding Types Fallible TrieNode Trie TriePure TrieHash TrieRefine TrieCommit TrieMap.

(** ** Verification *)
Inductive proof_error : Type :=
  | ProofNodeMissing (i : nat) (hash : Hash)
  | BadProofNode (i : nat) (e : decode_error).

(** [get]: what is left of the key, and the node there: [nilNode], a hash or a value. *)
Fixpoint get_node (tn : node) (key : bytes) : res (bytes * node) :=
  match tn with
  | shortNode k v _ =>
      if (length key <? length k)%nat || negb (bool_decide (k = take (length k) key)) then Ok ([], nilNode)
      else get_node v (drop (length k) key)
  | fullNode cs _ =>
      match key with
      | [] => Panic
      | b :: rest =>
          (fix go (l : list node) (i : nat) : res (bytes * node) :=
             match l, i with
             | [], _ => Panic
             | c :: _, O => get_node c rest
             | _ :: r, S i => go r i
             end) cs (index b)
      end
  | hashNode _ => Ok (key, tn)
  | nilNode => Ok (key, nilNode)
  | valueNode _ => Ok ([], tn)
  end.

(** The loop of [VerifyProof]; a node takes a nibble of the key at least, or else the proof
    is not one. *)
Fixpoint verify_loop (fuel : nat) (proofDb : Hash -> option bytes) (i : nat) (wantHash : Hash) (key : bytes)
    : res (proof_error + option bytes * nat) :=
  match fuel with
  | O => OutOfFuel
  | S fuel =>
      match proofDb wantHash with
      | None => Ok (inl (ProofNodeMissing i wantHash))
      | Some buf =>
          match decodeNode (Some (bytes_of wantHash)) buf with
          | inl e => Ok (inl (BadProofNode i e))
          | inr n =>
              '(keyrest, cld) ← get_node n key;
              match cld with
              | hashNode h => verify_loop fuel proofDb (S i) (BytesToHash h) keyrest
              | valueNode v => Ok (inr (Some v, S i))
              | _ => Ok (inr (None, i))
              end
          end
      end
  end.

Definition VerifyProof (rootHash : Hash) (key : bytes) (proofDb : Hash -> option bytes) : res (proof_error + option bytes * nat) :=
  let key := keybytesToHex key in
  verify_loop (S (length key)) proofDb O rootHash key.

(** ** Construction *)
Section prove.
Context (db : Database).

(** The first loop of [Prove]: the nodes on the path. *)
Fixpoint prove_nodes (fuel : nat) (tn : node) (key : bytes) : fallible (list node) :=
  match fuel with
  | O => OutOfFuel
  | S fuel =>
      match key with
      | [] => mret []
      | b :: rest =>
          match tn with
          | nilNode => mret []
          | shortNode k v _ =>
              if (length key <? length k)%nat || negb (bool_decide (k = take (length k) key)) then mret [tn]
              else l ← prove_nodes fuel v (drop (length k) key); mret (tn :: l)
          | fullNode cs _ =>
              c ← raise (cs !! index b);
              l ← prove_nodes fuel c rest;
              mret (tn :: l)
          | hashNode h => n ← resolveHash db h []; prove_nodes fuel n key
          | valueNode _ => Panic
          end
      end
  end.

Context `{C : Crypto}.

(** One node of the second loop; the first one is written whatever its size. *)
Definition prove_node (first : bool) (n : node) (s : nat * gmap Hash bytes) : res (nat * gmap Hash bytes) :=
  '(n, _, _) ← hashChildren n None;
  '(hn, _) ← store n None false;
  let hash := match hn with hashNode h => Some h | _ => None end in
  if first || bool_decide (is_Some hash) then
    match s.1 with
    | S fromLevel => mret (fromLevel, s.2)
    | O => enc ← encode_node n;
           mret (O, <[BytesToHash (default (bytes_of (keccak256 enc)) hash) := enc]> s.2)
    end
  else mret s.

Fixpoint prove_all (first : bool) (l : list node) (s : nat * gmap Hash bytes) : res (nat * gmap Hash bytes) :=
  match l with
  | [] => mret s
  | n :: r => s ← prove_node first n s; prove_all false r s
  end.

Definition Prove (root : node) (key : bytes) (fromLevel : nat) (proofDb : gmap Hash bytes) : fallible (gmap Hash bytes) :=
  let key := keybytesToHex key in
  nodes ← prove_nodes (key_fuel key) root key;
  '(_, proofDb) ← returns (prove_all true nodes (fromLevel, proofDb));
  mret proofDb.
End prove.

(** ** The nodes on a path *)
Fixpoint ppath (t : ptree) (key : bytes) : list ptree :=
  match key with
  | [] => []
  | b :: rest =>
      match t with
      | PShort k c => t :: match strip k key with Some r => ppath c r | None => [] end
      | PFull cs =>
          t :: (fix go (l : list ptree) (i : nat) : list ptree :=
                  match l, i with
                  | [], _ => []
                  | c :: _, O => ppath c rest
                  | _ :: r, S i => go r i
                  end) cs (index b)
      | _ => []
      end
  end.

Lemma ppath_short k c key : key <> [] -> ppath (PShort k c) key = PShort k c :: match strip k key with Some r => ppath c r | None => [] end.
Proof. by destruct key. Qed.

Lemma ppath_full cs b rest : ppath (PFull cs) (b :: rest) = PFull cs :: match cs !! index b with Some c => ppath c rest | None => [] end.
Proof. cbn [ppath]. f_equal. generalize (index b). induction cs as [|c cs IH]; intros [|i]; done || apply IH. Qed.

Lemma get_node_full cs f b rest : get_node (fullNode cs f) (b :: rest) = match cs !! index b with Some c => get_node c rest | None => Panic end.
Proof. cbn [get_node]. generalize (index b). induction cs as [|c cs IH]; intros [|i]; done || apply IH. Qed.

Lemma strip_test k key :
  (length key <? length k)%nat || negb (bool_decide (k = take (length k) key)) = match strip k key with Some _ => false | None => true end.
Proof. pose proof (key_test k key 0) as Ht. by rewrite Nat.sub_0_r, drop_0 in Ht. Qed.

Lemma get_node_short k v f key : get_node (shortNode k v f) key = match strip k key with Some r => get_node v r | None => Ok ([], nilNode) end.
Proof.
  cbn [get_node]. rewrite strip_test.
  destruct (strip k key) as [r|] eqn:E; [|done]. apply strip_Some in E as ->. by rewrite drop_app_length.
Qed.

Section proofs.
Context `{C : Crypto}.

(** Where [get] ends in a node: nowhere, at a value or at the hash of a subtrie. *)
Inductive lands (t : ptree) (key : bytes) : bytes -> node -> Prop :=
  | lands_nil rest : pget t key = None -> lands t key rest nilNode
  | lands_value rest v : pget t key = Some v -> lands t key rest (valueNode v)
  | lands_hash rest s :
      big s = true -> at_key s rest -> pget t key = pget s rest -> s :: hashed s ⊆ hashed t ->
      (length rest < length key)%nat -> ppath s rest ⊆ ppath t key -> lands t key rest (hashNode (bytes_of (node_hash s))).

(** In a child. *)
Lemma lands_below t key c r rest n :
  pget t key = pget c r -> (length r < length key)%nat -> hashed c ⊆ hashed t -> ppath c r ⊆ ppath t key ->
  lands c r rest n -> lands t key rest n.
Proof.
  intros Hg Hl Hh Hp Hn. inversion Hn as [? H|? ? H|? s Hb Hk H Hi Hr Hq]; subst; constructor; try congruence; try lia; etransitivity; done.
Qed.

(** A child, or its hash. *)
Lemma lands_child t key c r :
  at_key c r -> pget t key = pget c r -> (length r < length key)%nat -> self c ++ hashed c ⊆ hashed t -> ppath c r ⊆ ppath t key ->
  (exists rest n, get_node (dnode None c) r = Ok (rest, n) /\ lands c r rest n) ->
  exists rest n, get_node (dref c) r = Ok (rest, n) /\ lands t key rest n.
Proof.
  intros Hk Hg Hl Hh Hp (rest & n & E & Hn). unfold dref, self in *. destruct (big c) eqn:Eb.
  - exists r, (hashNode (bytes_of (node_hash c))). split; [done|]. by constructor.
  - exists rest, n. split; [done|]. by eapply lands_below.
Qed.

Lemma get_dnode h t key : at_key t key -> exists rest n, get_node (dnode h t) key = Ok (rest, n) /\ lands t key rest n.
Proof.
  revert h key. induction t as [|k c IH|cs IH|v] using ptree_nested_ind; intros h key Hk.
  - eexists _, _. split; [done|]. by constructor.
  - apply at_short in Hk as [Hw Hk]. change (dnode h (PShort k c)) with (shortNode k (dref c) (MkFlag h false)). rewrite get_node_short.
    destruct (strip k key) as [r|] eqn:E.
    + pose proof E as Ek. apply strip_Some in Ek. rewrite Ek in Hk. destruct (at_below k c r Hw Hk) as [Hr Hlk].
      apply lands_child; [done| | | | |]; try by apply IH.
      * by rewrite pget_short, E.
      * rewrite Ek, length_app. lia.
      * done.
      * rewrite ppath_short by (intros ->; destruct k; [cbn in Hlk; lia|done]). rewrite E. set_solver.
    + eexists _, _. split; [done|]. constructor. by rewrite pget_short, E.
  - apply at_full in Hk as (b & rest & c & -> & Hc & Hkc & _).
    change (dnode h (PFull cs)) with (fullNode (dref <$> cs) (MkFlag h false)). rewrite get_node_full, list_lookup_fmap, Hc.
    apply lands_child; [done| | | | |]; try by apply (Forall_lookup_1 _ _ _ _ IH Hc).
    + by rewrite pget_full, Hc.
    + cbn. lia.
    + intros s Hs. cbn [hashed]. apply list_elem_of_In, in_concat. exists (self c ++ hashed c).
      split; [|by apply list_elem_of_In]. apply list_elem_of_In, list_elem_of_fmap. exists c. split; [done|]. by eapply list_elem_of_lookup_2.
    + rewrite ppath_full, Hc. set_solver.
  - eexists _, _. split; [done|]. by constructor.
Qed.

Lemma subtries_ok t : wf t -> bounded t = true -> Forall (fun s => wf s /\ bounded s = true) (hashed t).
Proof.
  assert (Hself : forall c, (inner c = true -> wf c) -> bounded c = true -> Forall (fun s => wf s /\ bounded s = true) (self c)).
  { intros c Hw Hb. unfold self. destruct (big c) eqn:E; [|done]. apply Forall_singleton. split; [|done]. by apply Hw, big_inner. }
  induction t as [|k c IH|cs IH|v] using ptree_nested_ind; intros Hw Hb; [done|..|done]; cbn [bounded hashed] in *.
  - apply andb_true_iff in Hb as [_ Hb]. destruct c as [| |cs|v]; try done.
    apply wf_ext in Hw as (_ & _ & Hw). apply Forall_app. split; [by apply Hself|by apply IH].
  - apply wf_full in Hw as (_ & _ & Hcs). rewrite forallb_forall in Hb. rewrite Forall_concat, Forall_fmap. apply Forall_lookup_2.
    intros i c Hc. cbn. assert (Hbc : bounded c = true) by (by apply Hb, list_elem_of_In, (list_elem_of_lookup_2 _ i)).
    specialize (Hcs i c Hc). destruct c as [|k d|ds|v]; cbn [child_ok] in Hcs; [done|..|done].
    + destruct Hcs as [_ Hw]. apply Forall_app. split; [by apply Hself|by apply (Forall_lookup_1 _ _ _ _ IH Hc)].
    + destruct Hcs as [_ Hw]. apply Forall_app. split; [by apply Hself|by apply (Forall_lookup_1 _ _ _ _ IH Hc)].
Qed.

(** The nodes on a path are parts of the trie. *)
Lemma ppath_ok t key s :
  at_key t key -> bounded t = true -> s ∈ ppath t key ->
  wf s /\ bounded s = true /\ (s = t \/ s ∈ hashed t \/ big s = false).
Proof.
  assert (Hsub : forall c t, self c ++ hashed c ⊆ hashed t -> s = c \/ s ∈ hashed c \/ big s = false -> s ∈ hashed t \/ big s = false).
  { intros c u Hi [->|[Hs|Hs]]; [|left; apply Hi; set_solver|by right]. destruct (big c) eqn:E; [left|by right]. apply Hi. unfold self. rewrite E. set_solver. }
  revert key. induction t as [|k c IH|cs IH|v] using ptree_nested_ind; intros key Hk Hb Hs; try by destruct key; apply not_elem_of_nil in Hs.
  - pose proof Hk as [Hw Ht]%at_short. rewrite ppath_short in Hs by (intros ->; by apply terminated_nil in Ht).
    apply elem_of_cons in Hs as [->|Hs]; [by split_and!; [| |left]|]. destruct (strip k key) as [r|] eqn:E; [|by apply not_elem_of_nil in Hs].
    apply strip_Some in E as ->. destruct (at_below k c r Hw Ht) as [Hr _]. cbn [bounded] in Hb. apply andb_true_iff in Hb as [_ Hb].
    destruct (IH r Hr Hb Hs) as (H1 & H2 & H3). split_and!; [done..|]. right. by apply (Hsub c).
  - pose proof Hk as Hk'. apply at_full in Hk as (b & rest & c & -> & Hc & Hkc & _). rewrite ppath_full, Hc in Hs.
    apply elem_of_cons in Hs as [->|Hs]; [split_and!; [|done|by left]; by destruct Hk' as [[[|?] _]|[_ [|[? ?]]]]|].
    pose proof Hb as Hbc. cbn [bounded] in Hbc. rewrite forallb_forall in Hbc. specialize (Hbc c ltac:(by eapply list_elem_of_In, list_elem_of_lookup_2)).
    destruct (Forall_lookup_1 _ _ _ _ IH Hc rest Hkc Hbc Hs) as (H1 & H2 & H3). split_and!; [done..|]. right. apply (Hsub c); [|done].
    intros u Hu. cbn [hashed]. apply list_elem_of_In, in_concat. exists (self c ++ hashed c). split; [|by apply list_elem_of_In].
    apply list_elem_of_In, list_elem_of_fmap. exists c. split; [done|]. by eapply list_elem_of_lookup_2.
Qed.

(** ** Soundness *)
Context (S : bytes -> Prop) (HS : collision_free S) (proofDb : Hash -> option bytes).
Hypothesis Hkeyed : forall h e, proofDb h = Some e -> h = keccak256 e /\ S e.

(** The loop, at a node of the trie. *)
Lemma verify_walk fuel t key i :
  wf t -> terminated key -> bounded t = true -> Forall (fun s => S (enc s)) (t :: hashed t) -> Forall (fun s => wf s /\ bounded s = true) (hashed t) ->
  (length key < fuel)%nat ->
  (exists j s, verify_loop fuel proofDb i (node_hash t) key = Ok (inl (ProofNodeMissing j (node_hash s))) /\
               (s = t \/ (s ∈ ppath t key /\ big s = true)) /\ proofDb (node_hash s) = None) \/
  (exists j, verify_loop fuel proofDb i (node_hash t) key = Ok (inr (pget t key, j))).
Proof.
  revert t key i. induction fuel as [|fuel IH]; intros t key i Hw Hk Hb Hs Hall Hf; [lia|]. cbn [verify_loop].
  apply Forall_cons in Hs as [Hst Hs]. destruct (proofDb (node_hash t)) as [e|] eqn:Ee.
  2: { left. exists i, t. split; [done|]. split; [by left|done]. }
  apply Hkeyed in Ee as [Hh He]. apply (cf_inj S HS) in Hh as <-; [|done..].
  assert (Hd : decodeNode (Some (bytes_of (node_hash t))) (enc t) = inr (dnode (Some (bytes_of (node_hash t))) t)).
  { pose proof (decode_stored (Some (bytes_of (node_hash t))) t Hw Hb) as Hd. unfold mustDecodeNode in Hd.
    destruct (decodeNode _ _); [done|]. by injection Hd as ->. }
  rewrite Hd. destruct (get_dnode (Some (bytes_of (node_hash t))) t key) as (rest & n & E & Hn).
  { left. split; [by right|done]. }
  rewrite E. cbn [mbind res_bind]. inversion Hn as [? Hg|? v Hg|? s Hbs Hks Hg Hi Hl Hp]; subst.
  - right. exists i. by rewrite Hg.
  - right. exists (Datatypes.S i). by rewrite Hg.
  - unfold BytesToHash. rewrite mk_bytesN_of, Hg.
    assert (Hin : Forall (fun s => S (enc s)) (s :: hashed s)) by (apply Forall_forall; intros u Hu; rewrite Forall_forall in Hs; by apply Hs, Hi).
    assert (Hin' : Forall (fun s => wf s /\ bounded s = true) (s :: hashed s)) by (apply Forall_forall; intros u Hu; rewrite Forall_forall in Hall; by apply Hall, Hi).
    apply Forall_cons in Hin' as [[Hws Hbd] Hin'].
    destruct Hks as [[_ Hks]|[_ [->|[v ->]]]]; [|done|done].
    destruct (IH s rest (Datatypes.S i) Hws Hks Hbd Hin Hin') as [(j & u & E' & Hu & Hm)|(j & E')]; [lia| |].
    + left. exists j, u. split; [done|]. split; [|done]. right. destruct Hu as [->|[Hu ?]].
      * split; [|done]. apply Hp. destruct rest as [|b rest]; [by apply terminated_nil in Hks|]. destruct s; try done; cbn [ppath]; set_solver.
      * split; [|done]. by apply Hp.
    + right. by exists j.
Qed.

Lemma VerifyProof_nonempty m key :
  small_map m -> trie_of m <> PNil -> safe S true (trie_of m) ->
  (exists j s, VerifyProof (map_root m) key proofDb = Ok (inl (ProofNodeMissing j (node_hash s))) /\
               (s = trie_of m \/ (s ∈ ppath (trie_of m) (keybytesToHex key) /\ big s = true)) /\ proofDb (node_hash s) = None) \/
  (exists j, VerifyProof (map_root m) key proofDb = Ok (inr (m !! key, j))).
Proof.
  intros Hm Hne Hsafe. destruct (represents_small m Hm) as [Hrep Hb]. destruct (rep_wf _ _ Hrep) as [?|Hw]; [done|].
  rewrite <- (rep_get _ _ Hrep). unfold VerifyProof, map_root.
  assert (merkle_root (trie_of m) = node_hash (trie_of m)) as -> by by destruct (trie_of m).
  apply verify_walk; [done|apply keybytesToHex_terminated|done|exact Hsafe|by apply subtries_ok|lia].
Qed.
End proofs.

(** ** Completeness *)
Section complete.
Context `{C : Crypto} (S : bytes -> Prop) (HS : collision_free S) (db : Database) (Hdb : db_ok S db).

Definition on_path (x : node) (s : ptree) : Prop := is_hash x = false /\ exists root, loads S db root x s.

Lemma prove_nodes_path t : forall fuel root n key,
  loads S db root n t -> at_key t key -> (need n key <= fuel)%nat ->
  exists l, prove_nodes db fuel n key = Ok (inr l) /\ Forall2 on_path l (ppath t key).
Proof.
  assert (Hhash : forall t fuel root n key, loads S db root n t -> at_key t key -> (need n key <= fuel)%nat ->
    (forall fuel n, is_hash n = false -> loads S db root n t -> (need n key <= fuel)%nat ->
     exists l, prove_nodes db fuel n key = Ok (inr l) /\ Forall2 on_path l (ppath t key)) ->
    exists l, prove_nodes db fuel n key = Ok (inr l) /\ Forall2 on_path l (ppath t key)).
  { intros u fuel root n key Hl Hk Hf Hn. destruct (is_hash n) eqn:E; [|by apply Hn]. destruct n as [| | |h|]; try done.
    destruct (loads_resolve S HS db root h u [] Hdb Hl) as (m & Hm & Hlm & Ehm). pose proof (at_hash S db _ _ _ _ Hl Hk) as Hne.
    unfold need in Hf. cbn [is_hash] in Hf. destruct fuel as [|fuel]; [lia|]. cbn [prove_nodes]. destruct key as [|b key]; [done|]. rewrite Hm.
    apply Hn; [done..|]. unfold need. rewrite Ehm. lia. }
  induction t as [|k c IH|cs IH|v] using ptree_nested_ind; intros fuel root n key Hl Hk Hf; eapply Hhash; try done; clear n Hl Hf fuel;
    intros fuel n Hh Hl Hf; unfold need in Hf; rewrite Hh in Hf; (destruct fuel as [|fuel]; [lia|]).
  - apply loads_nil_inv in Hl as ->. exists []. destruct key; split; try done; constructor.
  - destruct (loads_short_inv _ _ _ _ _ _ Hl Hh) as (m & f & -> & Hm & _). apply at_short in Hk as [Hw Ht].
    assert (Hne : key <> []) by (intros ->; by apply terminated_nil in Ht). rewrite ppath_short by done.
    assert (Hone : on_path (shortNode k m f) (PShort k c)) by (split; [done|by exists root]).
    assert (Hp : prove_nodes db (Datatypes.S fuel) (shortNode k m f) key =
      match strip k key with
      | None => Ok (inr [shortNode k m f])
      | Some r => l ← prove_nodes db fuel m r; mret (shortNode k m f :: l)
      end).
    { cbn [prove_nodes]. destruct key as [|b rest]; [done|]. rewrite strip_test. destruct (strip k (b :: rest)) as [r|] eqn:E; [|done].
      apply strip_Some in E. by rewrite E, drop_app_length. }
    rewrite Hp. destruct (strip k key) as [r|] eqn:E; [|exists [shortNode k m f]; split; [done|by constructor; [|constructor]]].
    apply strip_Some in E as ->. destruct (at_below k c r Hw Ht) as [Hr Hlk]. rewrite length_app in Hf. pose proof (need_le m r).
    destruct (IH fuel false m r Hm Hr) as (l & -> & Hl2); [lia|]. eexists. split; [done|]. by constructor.
  - destruct (loads_full_inv _ _ _ _ _ Hl Hh) as (ns & f & -> & Hns & _).
    apply at_full in Hk as (b & rest & c & -> & Hc & Hkc & _). rewrite ppath_full, Hc. cbn [prove_nodes].
    destruct (Forall2_lookup_r _ _ _ _ _ Hns Hc) as (m & Hm & Hmc). cbn [length] in Hf. pose proof (need_le m rest).
    destruct (Forall_lookup_1 _ _ _ _ IH Hc fuel false m rest Hmc Hkc) as (l & E & Hl2); [lia|].
    fal. rewrite Hm, E. eexists. split; [done|]. constructor; [|done]. split; [done|by exists root].
  - apply loads_value_inv in Hl as ->. destruct Hk as [[[|?] _]|[-> _]]; [done..|]. exists []. split; [done|constructor].
Qed.

Lemma hashChildren_collapsed root n t :
  loads S db root n t -> is_hash n = false -> wf t -> bounded t = true ->
  exists c c', hashChildren n None = Ok (c, c', None) /\ node_gval c = pgval t /\ simplifyNode c = Some (raw_of t) /\
    is_hash c = false /\ c <> nilNode /\ forall x, (cache c).1 = Some x -> x = bytes_of (node_hash t).
Proof.
  intros Hl Hh Hw Hb.
  assert (Hflag : forall f, flag_ok S db root f t -> forall x, nf_hash f = Some x -> x = bytes_of (node_hash t)).
  { intros f Hf x Hx. unfold flag_ok in Hf. rewrite Hx in Hf. apply Hf. }
  destruct t as [|k c|cs|v]; [done|..|done].
  - destruct (loads_short_inv _ _ _ _ _ _ Hl Hh) as (m & f & -> & Hm & Hfl). cbn [bounded] in Hb. apply andb_true_iff in Hb as [_ Hb].
    destruct c as [| |cs|v]; try done.
    + destruct (hash_hashes S (PFull cs) false false m db) as (hv & cv & d1 & E & _ & _ & _ & Hr & _); try done.
      { by apply wf_ext in Hw as (_ & _ & ?). }
      destruct (refers_short k hv (PFull cs) f Hw Hr) as [Hg Hs].
      exists (shortNode (hexToCompact k) hv f), (shortNode k cv f). split_and!; try done; [|by apply Hflag].
      cbn [hashChildren]. change None with (mode false db). rewrite E. inversion Hm; by subst.
    + apply loads_value_inv in Hm as ->. destruct (refers_short k (valueNode v) (PVal v) f Hw) as [Hg Hs]; [done|].
      eexists _, _. split; [done|]. split_and!; try done. by apply Hflag.
  - destruct (loads_full_inv _ _ _ _ _ Hl Hh) as (ns & f & -> & Hns & Hfl). pose proof Hw as (Hlen & _ & Hok)%wf_full.
    destruct (children_hashed S false cs ltac:(apply Forall_true, hash_hashes) 0 ns db) as (hs & cs' & d1 & E & _ & _ & Hr & _); try done.
    destruct (refers_full hs cs f Hr) as [Hg Hs].
    exists (fullNode hs f), (fullNode cs' f). split_and!; try done; [|by apply Hflag].
    cbn [hashChildren]. change None with (mode false db). by rewrite E.
Qed.

(** What is written for a node. *)
Lemma prove_node_entry first n s P :
  on_path n s -> wf s -> bounded s = true ->
  prove_node first n (O, P) = Ok (O, if first || big s then <[node_hash s := enc s]> P else P).
Proof.
  intros [Hh [root Hl]] Hw Hb. destruct (hashChildren_collapsed root n s Hl Hh Hw Hb) as (c & c' & E & Hg & Hs & Hhc & Hn & Hx).
  unfold prove_node. rewrite E. cbn [mbind res_bind]. assert (Hi : inner s = true) by by destruct s.
  destruct (big s) eqn:Eb.
  - pose proof (store_big false c db s false Hw Hb Hg Hs Hhc Hn Hx Eb) as Hst. cbn [mode] in Hst. rewrite Hst. cbn [mbind res_bind].
    rewrite bool_decide_eq_true_2 by done. rewrite orb_true_r. cbn [fst snd]. rewrite (encode_collapsed c s) by done. cbn.
    unfold BytesToHash. by rewrite mk_bytesN_of.
  - rewrite (store_small c None s false) by done. cbn [mbind res_bind]. rewrite orb_false_r.
    assert (Hnh : match c with hashNode h => Some h | _ => None end = None) by by destruct c. rewrite Hnh.
    rewrite (bool_decide_eq_false_2 (is_Some None)) by (by intros []). rewrite orb_false_r.
    destruct first; [|done]. cbn [fst snd]. rewrite (encode_collapsed c s) by done. cbn.
    unfold BytesToHash. by rewrite mk_bytesN_of.
Qed.

(** Proofs are sets of nodes under their hashes. *)
Definition keyed (P : gmap Hash bytes) : Prop := forall h e, P !! h = Some e -> h = keccak256 e /\ S e.

Lemma prove_all_entries first l ss P :
  Forall2 on_path l ss -> Forall (fun s => wf s /\ bounded s = true) ss -> keyed P ->
  (forall s, s ∈ ss -> big s = true -> S (enc s)) -> (first = true -> forall s, head ss = Some s -> S (enc s)) ->
  exists P', prove_all first l (O, P) = Ok (O, P') /\ keyed P' /\ (forall h, is_Some (P !! h) -> is_Some (P' !! h)) /\
    (forall s, s ∈ ss -> big s = true -> is_Some (P' !! node_hash s)) /\
    (first = true -> forall s, head ss = Some s -> is_Some (P' !! node_hash s)).
Proof.
  intros Hl. revert first P. induction Hl as [|n s l ss Hn Hl IH]; intros first P Hok HP Hbig Hfirst.
  { exists P. split_and!; try done. intros s Hs. by apply not_elem_of_nil in Hs. }
  apply Forall_cons in Hok as [[Hw Hb] Hok]. cbn [prove_all]. rewrite (prove_node_entry first n s P) by done. cbn [mbind res_bind].
  set (P1 := if first || big s then <[node_hash s := enc s]> P else P).
  assert (HP1 : keyed P1).
  { unfold P1. destruct (first || big s) eqn:E; [|done]. intros h e [[<- <-]|[_ He]]%lookup_insert_Some; [|by apply HP].
    split; [done|]. apply orb_true_iff in E as [->|E]; [by apply Hfirst|]. apply Hbig; [set_solver|done]. }
  assert (Hgrow : forall h, is_Some (P !! h) -> is_Some (P1 !! h)).
  { intros h Hh. unfold P1. destruct (first || big s); [|done]. rewrite lookup_insert. by case_decide. }
  assert (Hs1 : first || big s = true -> is_Some (P1 !! node_hash s)).
  { intros E. unfold P1. rewrite E, lookup_insert_eq. done. }
  destruct (IH false P1 Hok HP1) as (P' & E & HP' & Hgrow' & Hbig' & _).
  { intros u Hu. apply Hbig. set_solver. }
  { done. }
  exists P'. split_and!; [done|done|by auto| |].
  - intros u [->|Hu]%elem_of_cons Eb; [|by apply Hbig']. apply Hgrow', Hs1. by rewrite Eb, orb_true_r.
  - intros -> u [= <-]. by apply Hgrow', Hs1.
Qed.
End complete.

(** ** Proofs of a trie and of anything else *)

(** C28: no proof verifies with a wrong value: against the root hash of a trie with the
    contents [m], and any set of nodes that are stored under their hashes, [VerifyProof]
    ends, without a panic, in an error or in the value that [m] has for the key, absence
    included. *)
Theorem VerifyProof_sound `{C : Crypto} S m key proofDb :
  collision_free S -> small_map m -> (trie_of m <> PNil -> safe S true (trie_of m)) ->
  (forall h e, proofDb h = Some e -> h = keccak256 e /\ S e) ->
  exists r, VerifyProof (map_root m) key proofDb = Ok r /\ match r with inr (v, _) => v = m !! key | inl _ => True end.
Proof.
  intros HS Hm Hsafe Hk. destruct (is_nil (trie_of m)) eqn:En.
  - assert (Et : trie_of m = PNil) by by destruct (trie_of m). unfold VerifyProof, map_root. rewrite Et. cbn [verify_loop merkle_root].
    destruct (proofDb emptyRoot) as [e|] eqn:Ee; [|eexists; split; [reflexivity|done]].
    apply Hk in Ee as [Hh He]. symmetry in Hh. apply (cf_empty S HS) in Hh as ->; [|done].
    eexists. split; [reflexivity|done].
  - assert (Hne : trie_of m <> PNil) by (intros E; by rewrite E in En).
    destruct (VerifyProof_nonempty S HS proofDb Hk m key Hm Hne (Hsafe Hne)) as [(j & s & -> & _)|(j & ->)]; by eexists.
Qed.

(** The proof that [Prove] writes for a key verifies, with the value of the key or its
    absence, whatever part of the trie is loaded and whatever hashes are cached. *)
Theorem Prove_verifies `{C : Crypto} S db n m key :
  collision_free S -> db_ok S db -> small_map m -> loads S db true n (trie_of m) -> m <> ∅ -> safe S true (trie_of m) ->
  exists P j, Prove db n key O ∅ = Ok (inr P) /\ VerifyProof (map_root m) key (fun h => P !! h) = Ok (inr (m !! key, j)).
Proof.
  intros HS Hdb Hm Hl Hne Hsafe. destruct (represents_small m Hm) as [Hrep Hb]. pose proof (at_root m key Hm) as Hat.
  assert (Hw : wf (trie_of m)).
  { destruct (rep_wf _ _ Hrep) as [E|]; [|done]. destruct Hne. apply map_empty. intros k. by rewrite <- (rep_get _ _ Hrep), E. }
  destruct (prove_nodes_path S HS db Hdb (trie_of m) (key_fuel (keybytesToHex key)) true n (keybytesToHex key) Hl Hat (fuel_enough _ _)) as (l & E & Hpath).
  assert (Hparts : Forall (fun s => wf s /\ bounded s = true) (ppath (trie_of m) (keybytesToHex key))).
  { apply Forall_forall. intros s Hs. destruct (ppath_ok _ _ _ Hat Hb Hs) as (? & ? & _). done. }
  apply Forall_cons in Hsafe as Hsafe'. destruct Hsafe' as [Hroot Hsub]. rewrite Forall_forall in Hsub.
  assert (Hhead : head (ppath (trie_of m) (keybytesToHex key)) = Some (trie_of m)).
  { pose proof (keybytesToHex_terminated key) as Ht. destruct (keybytesToHex key); [by apply terminated_nil in Ht|]. by destruct (trie_of m). }
  destruct (prove_all_entries S HS db Hdb true l (ppath (trie_of m) (keybytesToHex key)) ∅ Hpath Hparts) as (P & EP & HP & _ & Hbig & Hfirst).
  { intros h e He. by rewrite lookup_empty in He. }
  { intros s Hs Hbs. destruct (ppath_ok _ _ _ Hat Hb Hs) as (_ & _ & [->|[Hs'|Hs']]); [done|by apply Hsub|congruence]. }
  { intros _ s Hs. rewrite Hhead in Hs. by injection Hs as <-. }
  destruct (VerifyProof_nonempty S HS (fun h => P !! h) HP m key Hm) as [(j & s & _ & Hs & Hnone)|(j & Ev)]; [by intros E0; rewrite E0 in Hw|done| |].
  - exfalso. destruct Hs as [->|[Hs Hbs]].
    + destruct (Hfirst eq_refl _ Hhead) as [? ?]. congruence.
    + destruct (Hbig s Hs Hbs) as [? ?]. congruence.
  - exists P, j. split; [|done]. unfold Prove. rewrite E. fal. rewrite EP. done.
Qed.

(** ** Examples *)
Section demo.
#[local] Existing Instance demo_crypto.

Definition demo_puts : list trie_op :=
  [OUpdate (str "alpha") (demo_value 1); OUpdate (str "alps") (demo_value 2); OUpdate (str "al") (demo_value 3); OHash].

Definition demo_map : gmap bytes bytes := (spec_ops demo_puts (∅, [])).2.1.
Definition demo_map_nodes : list bytes := remove_dups (enc <$> written true (trie_of demo_map)).

Lemma demo_map_free : collision_free (fun b => b ∈ demo_map_nodes).
Proof. apply no_collisions_free. vm_compute. reflexivity. Qed.

Lemma demo_map_safe : safe (fun b => b ∈ demo_map_nodes) true (trie_of demo_map).
Proof. apply Forall_forall. intros t Ht. apply elem_of_remove_dups, list_elem_of_fmap. by exists t. Qed.

(** The map is checked by computing a bool, never the map itself. *)
Definition small_mapb (m : gmap bytes bytes) : bool :=
  forallb (fun kv => negb (bool_decide (kv.2 = [])) && (Z.of_nat (length kv.1) <? 2 ^ 30) && (Z.of_nat (length kv.2) <? 2 ^ 32)) (map_to_list m).

Lemma small_mapb_small m : small_mapb m = true -> small_map m.
Proof.
  intros Hm k v Hkv. unfold small_mapb in Hm. rewrite forallb_forall in Hm.
  specialize (Hm (k, v) ltac:(by apply list_elem_of_In, elem_of_map_to_list)). cbn [fst snd] in Hm.
  rewrite !andb_true_iff in Hm. destruct Hm as [[Hv H1%Z.ltb_lt] H2%Z.ltb_lt]. apply negb_true_iff, bool_decide_eq_false in Hv. done.
Qed.

Lemma demo_map_small : small_map demo_map.
Proof. apply small_mapb_small. vm_compute. reflexivity. Qed.

Definition demo_proof (h : Hash) : option bytes := if bool_decide (h = node_hash (trie_of demo_map)) then Some (enc (trie_of demo_map)) else None.

Lemma demo_nonempty : is_nil (trie_of demo_map) = false.
Proof. vm_compute. reflexivity. Qed.

Lemma demo_map_nonempty : demo_map <> ∅.
Proof. intros E. pose proof demo_nonempty as Hn. rewrite E in Hn. vm_compute in Hn. discriminate. Qed.

Lemma VerifyProof_sound_witness :
  exists r, VerifyProof (map_root demo_map) (str "alps") demo_proof = Ok r /\
    match r with inr (v, _) => v = demo_map !! str "alps" | inl _ => True end.
Proof.
  apply (VerifyProof_sound (fun b => b ∈ demo_map_nodes)); [exact demo_map_free|exact demo_map_small|intros _; exact demo_map_safe|].
  intros h e. unfold demo_proof. case_bool_decide as Hh; [|discriminate]. intros He. apply (inj Some) in He as <-. split; [exact Hh|].
  pose proof demo_map_safe as Hs. apply Forall_cons in Hs as [Hs _]. exact Hs.
Defined.

Lemma Prove_verifies_witness :
  exists s' P j, run_ops demo_puts (MkTrieState nilNode demo_trie_db []) = Ok (inr ((spec_ops demo_puts (∅, [])).1, s')) /\
    Prove (tr_db s') (tr_root s') (str "alps") O ∅ = Ok (inr P) /\
    VerifyProof (map_root demo_map) (str "alps") (fun h => P !! h) = Ok (inr (demo_map !! str "alps", j)).
Proof.
  assert (Hdb : db_ok (fun b => b ∈ demo_map_nodes) demo_trie_db).
  { split; [|discriminate]. cbn. intros h r [[<- _]|[_ Hr]]%lookup_insert_Some; [by left|done]. }
  assert (Ha : all_allowed (fun b => b ∈ demo_map_nodes) demo_puts (∅, [])).
  { apply all_allowed_intro; [vm_compute; reflexivity|vm_compute; reflexivity|]. intros m Hm. exfalso. by apply not_elem_of_nil in Hm. }
  destruct (run_ops_spec _ demo_map_free demo_puts _ _ (trie_ok_empty _ _ Hdb) Ha) as (s' & E & [Hdb' Hl _ _ _]).
  destruct (Prove_verifies _ (tr_db s') (tr_root s') demo_map (str "alps") demo_map_free Hdb' demo_map_small Hl demo_map_nonempty demo_map_safe)
    as (P & j & HP & HV).
  exists s', P, j. split; [exact E|]. split; [exact HP|exact HV].
Defined.

(** Nodes that are not stored under their hashes are not found out: a value verifies
    against the root of the empty trie. *)
Lemma VerifyProof_unkeyed :
  VerifyProof (map_root ∅) (str "key") (fun _ => Some (enc (PShort (keybytesToHex (str "key")) (PVal (str "value"))))) = Ok (inr (Some (str "value"), 1%nat)).
Proof. vm_compute. reflexivity. Qed.
End demo.
