(* ===== verification/TrieBinding.v ===== *)
(** * What a root hash says

    Among byte strings without collisions, the root hash of a trie determines all of its
    contents. [DeriveSha] of [src/core/types/derive_sha.go] is such a hash of a list. *)

From S2P Require Import Prelude Bytes RlpEncode RlpDecode RlpCanonical RlpRaw TrieEncoding Types Fallible TrieNode Trie TriePure TrieHash TrieRefine TrieCommit TrieMap TrieProof.

(** ** [DeriveSha] *)
Section derive.
Context `{C : Crypto}.

(** [Update] only logs an error. The trie has no database, so nothing is ever loaded. *)
Definition no_database : Database := NewDatabase (fun _ => None) (fun _ => None).

Definition Trie_Update (key value : bytes) (n : node) : res node :=
  match TryUpdate no_database key value n with
  | Ok (inr n') => Ok n'
  | Ok (inl _) => Ok n
  | Panic => Panic
  | OutOfFuel => OutOfFuel
  end.

Definition derive_key (i : nat) : bytes := match Encode (GUint (Z.of_nat i)) with inr k => k | inl _ => [] end.

(** The loop from [i] on. *)
Fixpoint derive_loop (i : nat) (list : list bytes) (n : node) : res node :=
  match list with
  | [] => mret n
  | item :: r => n ← Trie_Update (derive_key i) item n; derive_loop (S i) r n
  end.

Definition DeriveSha (list : list bytes) : res Hash :=
  n ← derive_loop O list nilNode;
  '(h, _) ← Trie_Hash n;
  mret h.

(** ** The root determines the trie *)
Context (S : bytes -> Prop) (HS : collision_free S).

Definition all_safe (t : ptree) : Prop := Forall (fun s => S (enc s)) (hashed t).

Lemma all_safe_child c t : self c ++ hashed c ⊆ hashed t -> all_safe t -> all_safe c /\ (big c = true -> S (enc c)).
Proof.
  unfold all_safe. rewrite !Forall_forall. intros Hi Hs. split.
  - intros s Hc. apply Hs, Hi. set_solver.
  - intros Hb. apply Hs, Hi. unfold self. rewrite Hb. set_solver.
Qed.

Lemma child_in_full cs c : c ∈ cs -> self c ++ hashed c ⊆ hashed (PFull cs).
Proof.
  intros Hc s Hs. cbn [hashed]. apply list_elem_of_In, in_concat. exists (self c ++ hashed c). split; [|by apply list_elem_of_In].
  apply list_elem_of_In, list_elem_of_fmap. by exists c.
Qed.

(** What can be below a node. *)
Definition part_ok (t : ptree) : Prop := (inner t = true -> wf t /\ bounded t = true) /\ all_safe t.

Lemma dnode_not_hash h t x : dnode h t <> hashNode x.
Proof. by destruct t. Qed.

Lemma dref_inj_step c d :
  part_ok c -> part_ok d -> (big c = true -> S (enc c)) -> (big d = true -> S (enc d)) ->
  (dnode None c = dnode None d -> c = d) -> dref c = dref d -> c = d.
Proof.
  intros [Hc _] [Hd _] Sc Sd IH He. unfold dref in He. destruct (big c) eqn:Ec, (big d) eqn:Ed.
  - injection He as He%(inj bytes_of). apply (cf_inj S HS) in He; [|by auto..]. apply IH.
    destruct (Hc (big_inner _ Ec)) as [Wc Bc]. destruct (Hd (big_inner _ Ed)) as [Wd Bd]. by apply dnode_enc.
  - symmetry in He. by apply dnode_not_hash in He.
  - by apply dnode_not_hash in He.
  - by apply IH.
Qed.

Lemma part_child t c : part_ok t -> inner t = true -> (wf t -> bounded t = true -> inner c = true -> wf c /\ bounded c = true) ->
  self c ++ hashed c ⊆ hashed t -> part_ok c /\ (big c = true -> S (enc c)).
Proof.
  intros [Ht Hs] Hi Hc Hin. destruct (Ht Hi) as [Hw Hb]. destruct (all_safe_child c t Hin Hs) as [H1 H2]. split; [|done]. split; [|done]. by auto.
Qed.

Lemma dnode_inj t1 t2 : part_ok t1 -> part_ok t2 -> dnode None t1 = dnode None t2 -> t1 = t2.
Proof.
  revert t2. induction t1 as [|k c IH|cs IH|v] using ptree_nested_ind; intros t2 H1 H2 He.
  - destruct t2; try done.
  - destruct t2 as [|k2 d|ds|w]; try done. injection He as <- He.
    assert (Hshort : forall k c, part_ok (PShort k c) -> part_ok c /\ (big c = true -> S (enc c))).
    { intros k' c' Hp. apply (part_child _ _ Hp); [done| |done]. intros Hw Hb Hi. cbn [bounded] in Hb. apply andb_true_iff in Hb as [_ Hb].
      split; [|done]. destruct c'; try done. by apply wf_ext in Hw as (_ & _ & ?). }
    destruct (Hshort _ _ H1) as [Pc Sc]. destruct (Hshort _ _ H2) as [Pd Sd]. f_equal. apply dref_inj_step; try done. by apply IH.
  - destruct t2 as [|k2 d|ds|w]; try done. injection He as He. f_equal.
    assert (Hfull : forall cs c, part_ok (PFull cs) -> c ∈ cs -> part_ok c /\ (big c = true -> S (enc c))).
    { intros cs' c' Hp Hin. apply (part_child _ _ Hp); [done| |by apply child_in_full]. intros Hw Hb Hi. cbn [bounded] in Hb. rewrite forallb_forall in Hb.
      split; [|by apply Hb, list_elem_of_In]. apply wf_full in Hw as (_ & _ & Hok). apply list_elem_of_lookup in Hin as [i Hi'].
      specialize (Hok i c' Hi'). destruct c'; try done; by destruct Hok. }
    assert (Hl : length cs = length ds) by (apply (f_equal length) in He; by rewrite !length_fmap in He).
    apply list_eq_same_length with (length cs); [done|done|]. intros i c d _ Hc Hd.
    destruct (Hfull cs c H1) as [Pc Sc]; [by eapply list_elem_of_lookup_2|]. destruct (Hfull ds d H2) as [Pd Sd]; [by eapply list_elem_of_lookup_2|].
    apply dref_inj_step; try done; [by apply (Forall_lookup_1 _ _ _ _ IH Hc)|].
    apply (f_equal (fun l => l !! i)) in He. rewrite !list_lookup_fmap, Hc, Hd in He. by injection He.
  - destruct t2; try done. by injection He as <-.
Qed.

Lemma merkle_root_inj t1 t2 :
  wf_root t1 -> wf_root t2 -> bounded t1 = true -> bounded t2 = true ->
  (t1 <> PNil -> safe S true t1) -> (t2 <> PNil -> safe S true t2) -> merkle_root t1 = merkle_root t2 -> t1 = t2.
Proof.
  assert (Hempty : forall t, wf t -> safe S true t -> merkle_root t <> emptyRoot).
  { intros t Hw Hs He. apply Forall_cons in Hs as [Hs _]. assert (Hm : merkle_root t = node_hash t) by by destruct t. rewrite Hm in He.
    apply (cf_empty S HS) in He; [|done]. by apply enc_not_empty in He. }
  intros [->|W1] [->|W2] B1 B2 S1 S2 He; [done|..].
  - symmetry in He. apply Hempty in He; [done|done|]. apply S2. by destruct t2.
  - apply Hempty in He; [done|done|]. apply S1. by destruct t1.
  - assert (M1 : merkle_root t1 = node_hash t1) by by destruct t1. assert (M2 : merkle_root t2 = node_hash t2) by by destruct t2.
    rewrite M1, M2 in He. specialize (S1 ltac:(by destruct t1)). specialize (S2 ltac:(by destruct t2)).
    apply Forall_cons in S1 as [S1 A1]. apply Forall_cons in S2 as [S2 A2].
    apply (cf_inj S HS) in He; [|done..]. apply dnode_inj; [by split|by split|]. by apply dnode_enc.
Qed.
End derive.

(** ** The map of a list *)
Lemma derive_key_eq i : Z.of_nat i < 2 ^ 62 -> derive_key i = ref_string (BigBytes (Z.of_nat i)) /\ Z.of_nat (length (derive_key i)) < 2 ^ 30.
Proof.
  intros Hi. unfold derive_key. assert (Hl : (length (BigBytes (Z.of_nat i)) <= 8)%nat) by (apply BigBytes_length_bound; lia).
  pose proof (length_ref_string_head (BigBytes (Z.of_nat i))) as Hr.
  assert (He : encodable (GUint (Z.of_nat i)) = true) by (cbn [encodable]; rewrite (proj2 (Z.leb_le _ _)), (proj2 (Z.ltb_lt _ _)); lia).
  unfold Encode. rewrite write_after; [|done|cbn [ref_encode]; lia]. rewrite toWriter_after by (done || cbn [ref_encode]; lia).
  cbn [ref_encode]. split; [done|lia].
Qed.

Lemma derive_key_inj i j : Z.of_nat i < 2 ^ 62 -> Z.of_nat j < 2 ^ 62 -> derive_key i = derive_key j -> i = j.
Proof.
  intros Hi Hj He. destruct (derive_key_eq i Hi) as [Ei Li]. destruct (derive_key_eq j Hj) as [Ej Lj]. rewrite Ei in *. rewrite Ej in *.
  pose proof (SplitString_string (BigBytes (Z.of_nat i)) []) as S1. pose proof (SplitString_string (BigBytes (Z.of_nat j)) []) as S2.
  rewrite app_nil_r in S1, S2. rewrite He, S2 in S1 by lia. specialize (S1 ltac:(lia)). injection S1 as S1.
  apply (f_equal SetBytes) in S1. rewrite !SetBytes_BigBytes in S1 by lia. lia.
Qed.

Fixpoint derive_map (i : nat) (list : list bytes) (m : gmap bytes bytes) : gmap bytes bytes :=
  match list with
  | [] => m
  | item :: r => derive_map (S i) r (map_update (derive_key i) item m)
  end.

(** Items have a size, and there are not too many. *)
Definition items_ok (list : list bytes) : Prop :=
  Z.of_nat (length list) < 2 ^ 62 /\ Forall (fun x => x <> [] /\ Z.of_nat (length x) < 2 ^ 32) list.

Lemma map_update_nonempty k v m : v <> [] -> map_update k v m = <[k := v]> m.
Proof. by destruct v. Qed.

Lemma derive_map_lookup list : forall i m j,
  Z.of_nat (i + length list) < 2 ^ 62 -> Z.of_nat j < 2 ^ 62 -> Forall (fun x => x <> [] /\ Z.of_nat (length x) < 2 ^ 32) list ->
  derive_map i list m !! derive_key j =
  if decide (i <= j < i + length list)%nat then list !! (j - i)%nat else m !! derive_key j.
Proof.
  induction list as [|x list IH]; intros i m j Hi Hj Hx; cbn [derive_map length] in *.
  { rewrite decide_False by lia. done. }
  apply Forall_cons in Hx as [[Hx _] Hxs]. rewrite IH by (done || lia). rewrite map_update_nonempty by done.
  destruct (decide (j = i)) as [->|Hne].
  - rewrite decide_False, lookup_insert_eq by lia. rewrite decide_True by lia. by rewrite Nat.sub_diag.
  - rewrite lookup_insert_ne by (intros E; apply derive_key_inj in E; lia). destruct (decide (S i <= j < S i + length list)%nat).
    + rewrite decide_True by lia. by replace (j - i)%nat with (S (j - S i)) by lia.
    + by rewrite decide_False by lia.
Qed.

Section spec.
Context `{C : Crypto}.

(** No node is ever looked up, so nothing has to be assumed of the hashes. *)
Definition nothing : bytes -> Prop := fun _ => False.

Lemma nothing_free : collision_free nothing.
Proof. split; [by intros a b []|by intros a []|by intros a []]. Qed.

Lemma no_database_ok : db_ok nothing no_database.
Proof. split; [|done]. cbn. intros h r [[<- _]|[_ Hr]]%lookup_insert_Some; [by left|done]. Qed.

Lemma derive_loop_spec list : forall i n m,
  Z.of_nat (i + length list) < 2 ^ 62 -> Forall (fun x => x <> [] /\ Z.of_nat (length x) < 2 ^ 32) list ->
  small_map m -> loads nothing no_database true n (trie_of m) ->
  exists n', derive_loop i list n = Ok n' /\ small_map (derive_map i list m) /\ loads nothing no_database true n' (trie_of (derive_map i list m)).
Proof.
  induction list as [|x list IH]; intros i n m Hi Hx Hm Hl; [by exists n|]. cbn [derive_loop derive_map length] in *.
  apply Forall_cons in Hx as [[_ Hx] Hxs].
  destruct (TryUpdate_map nothing nothing_free no_database no_database_ok n m Hm Hl (derive_key i) x) as (n1 & E & Hl1 & Hm1); [apply derive_key_eq; lia|done|].
  unfold Trie_Update. rewrite E. cbn [mbind res_bind]. apply IH; [lia|done..].
Qed.

Lemma DeriveSha_root list : items_ok list -> DeriveSha list = Ok (map_root (derive_map O list ∅)) /\ small_map (derive_map O list ∅).
Proof.
  intros [Hn Hx]. destruct (derive_loop_spec list O nilNode ∅) as (n & E & Hm & Hl); [lia|done|apply map_Forall_empty| |].
  { unfold trie_of. rewrite map_fold_empty. constructor. }
  destruct (represents_small _ Hm) as [Hrep Hb].
  destruct (Trie_Hash_root nothing n no_database _ no_database_ok Hl (rep_wf _ _ Hrep) Hb) as (n' & E' & _).
  split; [|done]. unfold DeriveSha. rewrite E. cbn [mbind res_bind]. by rewrite E'.
Qed.

Lemma map_root_inj S m1 m2 :
  collision_free S -> small_map m1 -> small_map m2 -> (trie_of m1 <> PNil -> safe S true (trie_of m1)) ->
  (trie_of m2 <> PNil -> safe S true (trie_of m2)) -> map_root m1 = map_root m2 -> m1 = m2.
Proof.
  intros HS H1 H2 S1 S2 He. destruct (represents_small m1 H1) as [R1 B1]. destruct (represents_small m2 H2) as [R2 B2].
  apply (merkle_root_inj S HS) in He; try done; [|by apply (rep_wf _ _ R1)|by apply (rep_wf _ _ R2)].
  apply map_eq. intros k. by rewrite <- (rep_get _ _ R1), <- (rep_get _ _ R2), He.
Qed.
End spec.

(** C29: [DeriveSha] commits to a list: it succeeds on every list of items, and two lists
    with the same hash are equal, if the nodes of their tries are among byte strings
    without collisions of Keccak-256. *)
Theorem DeriveSha_binding `{C : Crypto} S l1 l2 :
  collision_free S -> items_ok l1 -> items_ok l2 ->
  (l1 <> [] -> safe S true (trie_of (derive_map O l1 ∅))) -> (l2 <> [] -> safe S true (trie_of (derive_map O l2 ∅))) ->
  (exists h, DeriveSha l1 = Ok h) /\ (DeriveSha l1 = DeriveSha l2 -> l1 = l2).
Proof.
  intros HS I1 I2 S1 S2. destruct (DeriveSha_root l1 I1) as [E1 M1]. destruct (DeriveSha_root l2 I2) as [E2 M2].
  split; [by eauto|]. rewrite E1, E2. intros [= He].
  assert (Hnil : forall l, trie_of (derive_map O l ∅) <> PNil -> l <> []).
  { intros l Hl ->. apply Hl. unfold trie_of. cbn [derive_map]. by rewrite map_fold_empty. }
  apply (map_root_inj S) in He; [|done..|by auto|by auto].
  destruct I1 as [N1 X1], I2 as [N2 X2].
  assert (Hlook : forall j, Z.of_nat j < 2 ^ 62 -> l1 !! j = l2 !! j).
  { intros j Hj. pose proof (derive_map_lookup l1 0 ∅ j ltac:(lia) Hj X1) as L1. pose proof (derive_map_lookup l2 0 ∅ j ltac:(lia) Hj X2) as L2.
    rewrite He, L2 in L1. rewrite !Nat.sub_0_r, !lookup_empty in L1.
    destruct (decide (0 <= j < 0 + length l1)%nat), (decide (0 <= j < 0 + length l2)%nat); try done.
    - by rewrite <- L1, lookup_ge_None_2 by lia.
    - by rewrite L1, lookup_ge_None_2 by lia.
    - by rewrite !lookup_ge_None_2 by lia. }
  apply list_eq. intros j. destruct (decide (Z.of_nat j < 2 ^ 62)) as [Hj|Hj]; [by apply Hlook|]. by rewrite !lookup_ge_None_2 by lia.
Qed.

(** C27: the root hash of a trie determines its contents: two tries with the same hash, of
    whatever nodes and flags, hold the same map, if the nodes are among byte strings
    without collisions of Keccak-256. *)
Theorem root_hash_binding `{C : Crypto} S db1 db2 n1 n2 m1 m2 h n1' n2' :
  collision_free S -> db_ok S db1 -> db_ok S db2 ->
  loads S db1 true n1 (trie_of m1) -> loads S db2 true n2 (trie_of m2) -> small_map m1 -> small_map m2 ->
  (m1 <> ∅ -> safe S true (trie_of m1)) -> (m2 <> ∅ -> safe S true (trie_of m2)) ->
  Trie_Hash n1 = Ok (h, n1') -> Trie_Hash n2 = Ok (h, n2') -> m1 = m2.
Proof.
  intros HS D1 D2 L1 L2 H1 H2 S1 S2 E1 E2. destruct (represents_small m1 H1) as [R1 B1]. destruct (represents_small m2 H2) as [R2 B2].
  destruct (Trie_Hash_root S n1 db1 _ D1 L1 (rep_wf _ _ R1) B1) as (x1 & X1 & _).
  destruct (Trie_Hash_root S n2 db2 _ D2 L2 (rep_wf _ _ R2) B2) as (x2 & X2 & _).
  rewrite E1 in X1. rewrite E2 in X2. injection X1 as X1 _. injection X2 as X2 _.
  assert (Hne : forall m, trie_of m <> PNil -> m <> ∅) by (intros m Ht ->; apply Ht; unfold trie_of; by rewrite map_fold_empty).
  apply map_root_inj with S; try done; [by auto|by auto|]. unfold map_root. congruence.
Qed.

(** ** Examples *)
Section demo.
#[local] Existing Instance demo_crypto.

Definition demo_items : list bytes := [demo_value 1; demo_value 2].
Definition demo_items' : list bytes := [demo_value 1; demo_value 3; demo_value 2].

Definition demo_items_nodes : list bytes :=
  remove_dups ((enc <$> written true (trie_of (derive_map O demo_items ∅))) ++ (enc <$> written true (trie_of (derive_map O demo_items' ∅)))).

Lemma DeriveSha_binding_witness :
  (exists h, DeriveSha demo_items = Ok h) /\ (DeriveSha demo_items = DeriveSha demo_items' -> demo_items = demo_items').
Proof.
  apply (DeriveSha_binding (fun b => b ∈ demo_items_nodes)).
  - apply no_collisions_free. vm_compute. reflexivity.
  - split; [reflexivity|]. repeat (apply Forall_cons; split; [split; [discriminate|reflexivity]|]). apply Forall_nil. exact I.
  - split; [reflexivity|]. repeat (apply Forall_cons; split; [split; [discriminate|reflexivity]|]). apply Forall_nil. exact I.
  - intros _. apply Forall_forall. intros t Ht. apply elem_of_remove_dups, elem_of_app. left. apply list_elem_of_fmap. by exists t.
  - intros _. apply Forall_forall. intros t Ht. apply elem_of_remove_dups, elem_of_app. right. apply list_elem_of_fmap. by exists t.
Defined.

(** The same updates in another order. *)
Definition demo_puts' : list trie_op :=
  [OUpdate (str "al") (demo_value 9); OUpdate (str "alps") (demo_value 2); OUpdate (str "al") (demo_value 3); OUpdate (str "alpha") (demo_value 1)].
Definition demo_map' : gmap bytes bytes := (spec_ops demo_puts' (∅, [])).2.1.

Lemma demo_map_root : map_root demo_map' = map_root demo_map.
Proof. vm_compute. reflexivity. Qed.

Lemma root_hash_binding_witness : demo_map = demo_map'.
Proof.
  assert (HS : collision_free (fun b => b ∈ remove_dups (demo_map_nodes ++ (enc <$> written true (trie_of demo_map'))))).
  { apply no_collisions_free. vm_compute. reflexivity. }
  set (l := remove_dups (demo_map_nodes ++ (enc <$> written true (trie_of demo_map')))) in HS.
  assert (Hdb : db_ok (fun b => b ∈ l) demo_trie_db).
  { split; [|discriminate]. cbn. intros h r [[<- _]|[_ Hr]]%lookup_insert_Some; [by left|done]. }
  assert (Ha : all_allowed (fun b => b ∈ l) demo_puts (∅, [])).
  { apply all_allowed_intro; [vm_compute; reflexivity|vm_compute; reflexivity|]. intros m Hm. exfalso. by apply not_elem_of_nil in Hm. }
  assert (Ha' : all_allowed (fun b => b ∈ l) demo_puts' (∅, [])).
  { apply all_allowed_intro; [vm_compute; reflexivity|vm_compute; reflexivity|]. intros m Hm. exfalso. by apply not_elem_of_nil in Hm. }
  destruct (run_ops_spec _ HS demo_puts _ _ (trie_ok_empty _ _ Hdb) Ha) as (s1 & _ & [D1 L1 M1 _ _]).
  destruct (run_ops_spec _ HS demo_puts' _ _ (trie_ok_empty _ _ Hdb) Ha') as (s2 & _ & [D2 L2 M2 _ _]).
  fold demo_map in L1, M1. fold demo_map' in L2, M2.
  destruct (represents_small _ M1) as [R1 B1]. destruct (represents_small _ M2) as [R2 B2].
  destruct (Trie_Hash_root _ _ _ _ D1 L1 (rep_wf _ _ R1) B1) as (x1 & X1 & _).
  destruct (Trie_Hash_root _ _ _ _ D2 L2 (rep_wf _ _ R2) B2) as (x2 & X2 & _).
  change (merkle_root (trie_of demo_map')) with (map_root demo_map') in X2. rewrite demo_map_root in X2.
  refine (root_hash_binding _ _ _ _ _ _ _ _ _ _ HS D1 D2 L1 L2 M1 M2 _ _ X1 X2); intros _; apply Forall_forall; intros t Ht.
  - apply elem_of_remove_dups, elem_of_app. left. apply elem_of_remove_dups, list_elem_of_fmap. exists t. split; [reflexivity|exact Ht].
  - apply elem_of_remove_dups, elem_of_app. right. apply list_elem_of_fmap. exists t. split; [reflexivity|exact Ht].
Defined.
End demo.
