(* ===== verification/StateDB.v ===== *)
(** * Accounts and the state database

    Models [src/core/state/state_object.go], [journal.go] and [statedb.go]: accounts with
    their storage, kept in memory over a trie, and the journal with which changes are
    undone. The tries and the database under them are the class [StateDatabase], as
    [database.go] has them as interfaces. Balances and slices are values, since the code
    replaces and never changes them in place. Proofs, iterators and the counters for
    metrics are not modelled. *)

From S2P Require Import Prelude Bytes RlpEncode RlpDecode RlpCanonical RlpRaw Types.

(** ** Tries and the database *)
Class StateDatabase : Type := {
  database : Type;
  trie : Type;
  db_OpenTrie : database -> Hash -> error + trie;
  db_OpenStorageTrie : database -> Hash -> Hash -> error + trie;
  db_EmptyTrie : trie;      (* opened with the zero root, which reads nothing *)
  db_ContractCode : database -> Hash -> Hash -> option bytes * option error;
  db_ContractCodeSize : database -> Hash -> Hash -> Z * option error;
  db_InsertBlob : Hash -> bytes -> database -> database;
  t_TryGet : trie -> bytes -> bytes * option error;
  t_TryUpdate : bytes -> bytes -> trie -> trie * option error;
  t_TryDelete : bytes -> trie -> trie * option error;
  t_Hash : trie -> Hash;
  t_Commit : trie -> database -> (error + Hash) * trie * database
}.

(** ** Accounts *)
Record Account : Type := MkAccount {
  a_Nonce : Z;
  a_Balance : Z;
  a_Root : Hash;
  a_CodeHash : bytes;
  a_OwnerAddress : option Address;
  a_ProviderAddresses : list Address
}.

#[export] Instance Account_eq_dec : EqDecision Account.
Proof. solve_decision. Defined.

Definition account_gval (a : Account) : gval :=
  GList [GUint (a_Nonce a); GBigInt (Some (a_Balance a)); GByteArray (bytes_of (a_Root a)); GBytes (a_CodeHash a);
         optaddr_gval (a_OwnerAddress a); addresses_gval (a_ProviderAddresses a)].

Definition account_ty : ty :=
  TStruct [TUint 64; TBigInt; TByteArray 32; TBytes; TOptPtr (TByteArray 20); TSlice (TPtr (TByteArray 20))].

Definition account_of_gval (v : gval) : option Account :=
  match v with
  | GList [GUint nonce; GBigInt (Some balance); GByteArray root; GBytes codeHash; owner; providers] =>
      owner ← optaddr_of_gval owner; providers ← addresses_of_gval providers;
      Some (MkAccount nonce balance (mk_bytesN _ root) codeHash owner providers)
  | _ => None
  end.

(** [AccountWithoutProvider] and [ToAccount] *)
Definition accountWithoutProvider_ty : ty := TStruct [TUint 64; TBigInt; TByteArray 32; TBytes].

Definition ToAccount (v : gval) : option Account :=
  match v with
  | GList [GUint nonce; GBigInt (Some balance); GByteArray root; GBytes codeHash] =>
      Some (MkAccount nonce balance (mk_bytesN _ root) codeHash None [])
  | _ => None
  end.

Definition decode_account (enc : bytes) : option Account :=
  match DecodeBytes account_ty enc with
  | inr v => account_of_gval v
  | inl _ =>
      match DecodeBytes accountWithoutProvider_ty enc with
      | inr v => ToAccount v
      | inl _ => None
      end
  end.

(** ** State objects *)
Section object.
Context `{C : Crypto} {DB : StateDatabase}.

(** [None] of the trie and the code is nil; the state database and the hash of the address
    are left out. *)
Record stateObject : Type := MkObject {
  so_address : Address;
  so_data : Account;
  so_dbErr : option error;
  so_trie : option trie;
  so_code : option bytes;
  so_originStorage : gmap Hash Hash;
  so_dirtyStorage : gmap Hash Hash;
  so_dirtyCode : bool;
  so_suicided : bool;
  so_deleted : bool
}.

Definition emptyCodeHash : bytes := bytes_of (keccak256 []).

Definition so_empty (o : stateObject) : bool :=
  (a_Nonce (so_data o) =? 0) && (a_Balance (so_data o) =? 0) && bool_decide (a_CodeHash (so_data o) = emptyCodeHash).

(** [newObject]; nil fields of the account are its empty values here. *)
Definition newObject (address : Address) (data : Account) : stateObject :=
  MkObject address data None None None ∅ ∅ false false false.

Definition addrHash (o : stateObject) : Hash := keccak256 (bytes_of (so_address o)).

(** *** Assignments *)
Definition set_data (a : Account) (o : stateObject) : stateObject :=
  MkObject (so_address o) a (so_dbErr o) (so_trie o) (so_code o) (so_originStorage o) (so_dirtyStorage o)
    (so_dirtyCode o) (so_suicided o) (so_deleted o).
Definition set_so_dbErr (e : option error) (o : stateObject) : stateObject :=
  MkObject (so_address o) (so_data o) e (so_trie o) (so_code o) (so_originStorage o) (so_dirtyStorage o)
    (so_dirtyCode o) (so_suicided o) (so_deleted o).
Definition set_so_trie (t : trie) (o : stateObject) : stateObject :=
  MkObject (so_address o) (so_data o) (so_dbErr o) (Some t) (so_code o) (so_originStorage o) (so_dirtyStorage o)
    (so_dirtyCode o) (so_suicided o) (so_deleted o).
Definition set_so_code (c : option bytes) (o : stateObject) : stateObject :=
  MkObject (so_address o) (so_data o) (so_dbErr o) (so_trie o) c (so_originStorage o) (so_dirtyStorage o)
    (so_dirtyCode o) (so_suicided o) (so_deleted o).
Definition set_origin (m : gmap Hash Hash) (o : stateObject) : stateObject :=
  MkObject (so_address o) (so_data o) (so_dbErr o) (so_trie o) (so_code o) m (so_dirtyStorage o)
    (so_dirtyCode o) (so_suicided o) (so_deleted o).
Definition set_dirtyStorage (m : gmap Hash Hash) (o : stateObject) : stateObject :=
  MkObject (so_address o) (so_data o) (so_dbErr o) (so_trie o) (so_code o) (so_originStorage o) m
    (so_dirtyCode o) (so_suicided o) (so_deleted o).
Definition set_dirtyCode (b : bool) (o : stateObject) : stateObject :=
  MkObject (so_address o) (so_data o) (so_dbErr o) (so_trie o) (so_code o) (so_originStorage o) (so_dirtyStorage o)
    b (so_suicided o) (so_deleted o).
Definition set_suicided (b : bool) (o : stateObject) : stateObject :=
  MkObject (so_address o) (so_data o) (so_dbErr o) (so_trie o) (so_code o) (so_originStorage o) (so_dirtyStorage o)
    (so_dirtyCode o) b (so_deleted o).
Definition set_deleted (b : bool) (o : stateObject) : stateObject :=
  MkObject (so_address o) (so_data o) (so_dbErr o) (so_trie o) (so_code o) (so_originStorage o) (so_dirtyStorage o)
    (so_dirtyCode o) (so_suicided o) b.

(** [setError] remembers the first error. *)
Definition so_setError (e : option error) (o : stateObject) : stateObject :=
  match so_dbErr o with None => set_so_dbErr e o | Some _ => o end.

Definition markSuicided (o : stateObject) : stateObject := set_suicided true o.

Definition setBalance (amount : Z) (o : stateObject) : stateObject :=
  let a := so_data o in
  set_data (MkAccount (a_Nonce a) amount (a_Root a) (a_CodeHash a) (a_OwnerAddress a) (a_ProviderAddresses a)) o.
Definition setNonce (nonce : Z) (o : stateObject) : stateObject :=
  let a := so_data o in
  set_data (MkAccount nonce (a_Balance a) (a_Root a) (a_CodeHash a) (a_OwnerAddress a) (a_ProviderAddresses a)) o.
Definition setRoot (root : Hash) (o : stateObject) : stateObject :=
  let a := so_data o in
  set_data (MkAccount (a_Nonce a) (a_Balance a) root (a_CodeHash a) (a_OwnerAddress a) (a_ProviderAddresses a)) o.
Definition setCode (codeHash : Hash) (code : option bytes) (o : stateObject) : stateObject :=
  let a := so_data o in
  set_dirtyCode true (set_so_code code
    (set_data (MkAccount (a_Nonce a) (a_Balance a) (a_Root a) (bytes_of codeHash) (a_OwnerAddress a) (a_ProviderAddresses a)) o)).
Definition setState (key value : Hash) (o : stateObject) : stateObject :=
  set_dirtyStorage (<[key := value]> (so_dirtyStorage o)) o.

(** *** Storage *)
Definition getTrie (db : database) (o : stateObject) : trie * stateObject :=
  match so_trie o with
  | Some t => (t, o)
  | None =>
      match db_OpenStorageTrie db (addrHash o) (a_Root (so_data o)) with
      | inr t => (t, set_so_trie t o)
      | inl e => (db_EmptyTrie, so_setError (Some e) (set_so_trie db_EmptyTrie o))
      end
  end.

(** The value a storage trie holds for a key: the contents of the string stored. *)
Definition stored_value (enc : bytes) : Hash * option error :=
  match enc with
  | [] => (zeroHash, None)
  | _ => match Split enc with
         | inl e => (BytesToHash [], Some (ErrRlp e))
         | inr (_, content, _) => (BytesToHash content, None)
         end
  end.

Definition GetCommittedState (db : database) (key : Hash) (o : stateObject) : Hash * stateObject :=
  match so_originStorage o !! key with
  | Some value => (value, o)
  | None =>
      let '(t, o) := getTrie db o in
      match t_TryGet t (bytes_of key) with
      | (_, Some e) => (zeroHash, so_setError (Some e) o)
      | (enc, None) =>
          let '(value, err) := stored_value enc in
          let o := match err with Some e => so_setError (Some e) o | None => o end in
          (value, set_origin (<[key := value]> (so_originStorage o)) o)
      end
  end.

Definition GetState (db : database) (key : Hash) (o : stateObject) : Hash * stateObject :=
  match so_dirtyStorage o !! key with
  | Some value => (value, o)
  | None => GetCommittedState db key o
  end.

(** [Code] *)
Definition Code (db : database) (o : stateObject) : option bytes * stateObject :=
  match so_code o with
  | Some c => (Some c, o)
  | None =>
      if bool_decide (a_CodeHash (so_data o) = emptyCodeHash) then (None, o)
      else
        let '(code, err) := db_ContractCode db (addrHash o) (BytesToHash (a_CodeHash (so_data o))) in
        let o := match err with Some e => so_setError (Some e) o | None => o end in
        (code, set_so_code code o)
  end.

(** *** Writing the storage *)
Definition trim_zeros : bytes -> bytes :=
  fix go b := match b with c :: r => if bool_decide (c = byte_of_Z 0) then go r else b | [] => [] end.

Definition encode_value (value : Hash) : bytes :=
  match EncodeToBytes (GBytes (trim_zeros (bytes_of value))) with inr (Ok v) => v | _ => [] end.

(** The loop of [updateTrie] over the dirty slots, in the order Go iterates. *)
Definition update_slot (o : stateObject) (t : trie) (slot : Hash * Hash) : stateObject * trie :=
  let '(key, value) := slot in
  let o := set_dirtyStorage (delete key (so_dirtyStorage o)) o in
  if bool_decide (value = default zeroHash (so_originStorage o !! key)) then (o, t)
  else
    let o := set_origin (<[key := value]> (so_originStorage o)) o in
    if bool_decide (value = zeroHash) then
      let '(t, err) := t_TryDelete (bytes_of key) t in (so_setError err o, t)
    else
      let '(t, err) := t_TryUpdate (bytes_of key) (encode_value value) t in (so_setError err o, t).

Definition updateTrie (order : gmap Hash Hash -> list (Hash * Hash)) (db : database) (o : stateObject) : stateObject :=
  let '(t, o) := getTrie db o in
  let '(o, t) := foldl (fun '(o, t) slot => update_slot o t slot) (o, t) (order (so_dirtyStorage o)) in
  set_so_trie t o.

Definition updateRoot (order : gmap Hash Hash -> list (Hash * Hash)) (db : database) (o : stateObject) : stateObject :=
  let o := updateTrie order db o in
  match so_trie o with Some t => setRoot (t_Hash t) o | None => o end.

Definition CommitTrie (order : gmap Hash Hash -> list (Hash * Hash)) (db : database) (o : stateObject)
    : option error * stateObject * database :=
  let o := updateTrie order db o in
  match so_dbErr o, so_trie o with
  | Some e, _ => (Some e, o, db)
  | None, None => (None, o, db)
  | None, Some t =>
      let '(r, t, db) := t_Commit t db in
      let o := set_so_trie t o in
      match r with
      | inl e => (Some e, o, db)
      | inr root => (None, setRoot root o, db)
      end
  end.

Definition deepCopy (o : stateObject) : stateObject :=
  let n := newObject (so_address o) (so_data o) in
  MkObject (so_address n) (so_data n) (so_dbErr n) (so_trie o) (so_code o) (so_originStorage o) (so_dirtyStorage o)
    (so_dirtyCode o) (so_suicided o) (so_deleted o).
End object.

(** ** The journal *)
Section statedb.
Context `{C : Crypto} {DB : StateDatabase}.

Inductive journalEntry : Type :=
  | createObjectChange (account : Address)
  | resetObjectChange (prev : stateObject)
  | suicideChange (account : Address) (prev : bool) (prevbalance : Z)
  | balanceChange (account : Address) (prev : Z)
  | nonceChange (account : Address) (prev : Z)
  | storageChange (account : Address) (key prevalue : Hash)
  | codeChange (account : Address) (prevcode : option bytes) (prevhash : bytes)
  | refundChange (prev : Z)
  | addLogChange (txhash : Hash)
  | addPreimageChange (hash : Hash)
  | touchChange (account : Address).

Definition dirtied (e : journalEntry) : option Address :=
  match e with
  | createObjectChange a | suicideChange a _ _ | balanceChange a _ | nonceChange a _ | storageChange a _ _
  | codeChange a _ _ | touchChange a => Some a
  | resetObjectChange _ | refundChange _ | addLogChange _ | addPreimageChange _ => None
  end.

Record Log : Type := MkLog {
  l_Address : Address;
  l_Topics : list Hash;
  l_Data : bytes;
  l_BlockNumber : Z;
  l_TxHash : Hash;
  l_TxIndex : Z;
  l_BlockHash : Hash;
  l_Index : Z;
  l_Removed : bool
}.

(** ** The state database *)
Record StateDB : Type := MkStateDB {
  sdb_db : database;
  sdb_trie : trie;
  sdb_objects : gmap Address stateObject;
  sdb_objectsDirty : gset Address;
  sdb_dbErr : option error;
  sdb_refund : Z;
  sdb_thash : Hash;
  sdb_bhash : Hash;
  sdb_txIndex : Z;
  sdb_logs : gmap Hash (list Log);
  sdb_logSize : Z;
  sdb_preimages : gmap Hash bytes;
  sdb_entries : list journalEntry;
  sdb_dirties : gmap Address Z;
  sdb_validRevisions : list (Z * Z);
  sdb_nextRevisionId : Z
}.

(** *** Assignments *)
Definition set_objects (m : gmap Address stateObject) (s : StateDB) : StateDB :=
  MkStateDB (sdb_db s) (sdb_trie s) m (sdb_objectsDirty s) (sdb_dbErr s) (sdb_refund s) (sdb_thash s) (sdb_bhash s)
    (sdb_txIndex s) (sdb_logs s) (sdb_logSize s) (sdb_preimages s) (sdb_entries s) (sdb_dirties s)
    (sdb_validRevisions s) (sdb_nextRevisionId s).
Definition set_objectsDirty (m : gset Address) (s : StateDB) : StateDB :=
  MkStateDB (sdb_db s) (sdb_trie s) (sdb_objects s) m (sdb_dbErr s) (sdb_refund s) (sdb_thash s) (sdb_bhash s)
    (sdb_txIndex s) (sdb_logs s) (sdb_logSize s) (sdb_preimages s) (sdb_entries s) (sdb_dirties s)
    (sdb_validRevisions s) (sdb_nextRevisionId s).
Definition set_sdb_dbErr (e : option error) (s : StateDB) : StateDB :=
  MkStateDB (sdb_db s) (sdb_trie s) (sdb_objects s) (sdb_objectsDirty s) e (sdb_refund s) (sdb_thash s) (sdb_bhash s)
    (sdb_txIndex s) (sdb_logs s) (sdb_logSize s) (sdb_preimages s) (sdb_entries s) (sdb_dirties s)
    (sdb_validRevisions s) (sdb_nextRevisionId s).
Definition set_refund (z : Z) (s : StateDB) : StateDB :=
  MkStateDB (sdb_db s) (sdb_trie s) (sdb_objects s) (sdb_objectsDirty s) (sdb_dbErr s) z (sdb_thash s) (sdb_bhash s)
    (sdb_txIndex s) (sdb_logs s) (sdb_logSize s) (sdb_preimages s) (sdb_entries s) (sdb_dirties s)
    (sdb_validRevisions s) (sdb_nextRevisionId s).
Definition set_logs (m : gmap Hash (list Log)) (size : Z) (s : StateDB) : StateDB :=
  MkStateDB (sdb_db s) (sdb_trie s) (sdb_objects s) (sdb_objectsDirty s) (sdb_dbErr s) (sdb_refund s) (sdb_thash s) (sdb_bhash s)
    (sdb_txIndex s) m size (sdb_preimages s) (sdb_entries s) (sdb_dirties s)
    (sdb_validRevisions s) (sdb_nextRevisionId s).
Definition set_preimages (m : gmap Hash bytes) (s : StateDB) : StateDB :=
  MkStateDB (sdb_db s) (sdb_trie s) (sdb_objects s) (sdb_objectsDirty s) (sdb_dbErr s) (sdb_refund s) (sdb_thash s) (sdb_bhash s)
    (sdb_txIndex s) (sdb_logs s) (sdb_logSize s) m (sdb_entries s) (sdb_dirties s)
    (sdb_validRevisions s) (sdb_nextRevisionId s).
Definition set_journal (l : list journalEntry) (m : gmap Address Z) (s : StateDB) : StateDB :=
  MkStateDB (sdb_db s) (sdb_trie s) (sdb_objects s) (sdb_objectsDirty s) (sdb_dbErr s) (sdb_refund s) (sdb_thash s) (sdb_bhash s)
    (sdb_txIndex s) (sdb_logs s) (sdb_logSize s) (sdb_preimages s) l m
    (sdb_validRevisions s) (sdb_nextRevisionId s).
Definition set_revisions (l : list (Z * Z)) (next : Z) (s : StateDB) : StateDB :=
  MkStateDB (sdb_db s) (sdb_trie s) (sdb_objects s) (sdb_objectsDirty s) (sdb_dbErr s) (sdb_refund s) (sdb_thash s) (sdb_bhash s)
    (sdb_txIndex s) (sdb_logs s) (sdb_logSize s) (sdb_preimages s) (sdb_entries s) (sdb_dirties s) l next.
Definition set_tries (db : database) (t : trie) (s : StateDB) : StateDB :=
  MkStateDB db t (sdb_objects s) (sdb_objectsDirty s) (sdb_dbErr s) (sdb_refund s) (sdb_thash s) (sdb_bhash s)
    (sdb_txIndex s) (sdb_logs s) (sdb_logSize s) (sdb_preimages s) (sdb_entries s) (sdb_dirties s)
    (sdb_validRevisions s) (sdb_nextRevisionId s).
Definition set_tx (thash bhash : Hash) (ti : Z) (s : StateDB) : StateDB :=
  MkStateDB (sdb_db s) (sdb_trie s) (sdb_objects s) (sdb_objectsDirty s) (sdb_dbErr s) (sdb_refund s) thash bhash
    ti (sdb_logs s) (sdb_logSize s) (sdb_preimages s) (sdb_entries s) (sdb_dirties s)
    (sdb_validRevisions s) (sdb_nextRevisionId s).

(** [New] and [setError] *)
Definition New_StateDB (root : Hash) (db : database) : error + StateDB :=
  match db_OpenTrie db root with
  | inl e => inl e
  | inr tr => inr (MkStateDB db tr ∅ ∅ None 0 zeroHash zeroHash 0 ∅ 0 ∅ [] ∅ [] 0)
  end.

Definition sdb_setError (e : option error) (s : StateDB) : StateDB :=
  match sdb_dbErr s with None => set_sdb_dbErr e s | Some _ => s end.

(** *** The journal *)
Definition bump_dirty (d : Z) (a : Address) (m : gmap Address Z) : gmap Address Z := <[a := default 0 (m !! a) + d]> m.

Definition journal_append (e : journalEntry) : M StateDB unit :=
  modify (fun s => set_journal (sdb_entries s ++ [e])
                     (match dirtied e with Some a => bump_dirty 1 a (sdb_dirties s) | None => sdb_dirties s end) s).

Definition journal_dirty (a : Address) : M StateDB unit :=
  modify (fun s => set_journal (sdb_entries s) (bump_dirty 1 a (sdb_dirties s)) s).

Definition clearJournalAndRefund : M StateDB unit :=
  modify (fun s => set_refund 0 (set_revisions [] (sdb_nextRevisionId s) (set_journal [] ∅ s))).

Definition Reset_StateDB (root : Hash) : M StateDB (option error) :=
  s ← get;
  match db_OpenTrie (sdb_db s) root with
  | inl e => mret (Some e)
  | inr tr =>
      modify (fun s => set_preimages ∅ (set_logs ∅ 0 (set_tx zeroHash zeroHash 0
                         (set_objectsDirty ∅ (set_objects ∅ (set_tries (sdb_db s) tr s))))));;
      clearJournalAndRefund;;
      mret None
  end.

(** *** Objects *)
Definition setStateObject (o : stateObject) : M StateDB unit :=
  modify (fun s => set_objects (<[so_address o := o]> (sdb_objects s)) s).

(** What [getStateObject] reads from the trie: the account, and the error it remembers. *)
Definition load_account (t : trie) (addr : Address) : option Account * option error :=
  match t_TryGet t (bytes_of addr) with
  | ([], err) => (None, err)
  | (enc, _) => (decode_account enc, None)
  end.

Definition getStateObject (addr : Address) : M StateDB (option stateObject) :=
  s ← get;
  match sdb_objects s !! addr with
  | Some obj => mret (if so_deleted obj then None else Some obj)
  | None =>
      match load_account (sdb_trie s) addr with
      | (None, err) => modify (sdb_setError err);; mret None
      | (Some data, _) =>
          let obj := newObject addr data in
          setStateObject obj;;
          mret (Some obj)
      end
  end.

(** [createObject] with the options of an enterprise contract, if any. *)
Definition createObject (addr : Address) (opts : option (option Address * option Address))
    : M StateDB (stateObject * option stateObject) :=
  prev ← getStateObject addr;
  let account :=
    match opts with
    | None => MkAccount 0 0 zeroHash emptyCodeHash None []
    | Some (owner, provider) =>
        MkAccount 0 0 zeroHash emptyCodeHash owner (match provider with Some p => [p] | None => [] end)
    end in
  let newobj := setNonce 0 (newObject addr account) in
  match prev with
  | None => journal_append (createObjectChange addr)
  | Some p => journal_append (resetObjectChange p)
  end;;
  setStateObject newobj;;
  mret (newobj, prev).

Definition GetOrNewStateObject (addr : Address) : M StateDB stateObject :=
  o ← getStateObject addr;
  match o with
  | Some o => mret o
  | None => r ← createObject addr None; mret r.1
  end.

Definition CreateAccount (addr : Address) (opts : option (option Address * option Address)) : M StateDB unit :=
  r ← createObject addr opts;
  match r with
  | (newObj, Some prev) => setStateObject (setBalance (a_Balance (so_data prev)) newObj)
  | (_, None) => mret tt
  end.

(** A lookup of an object, whose changes of caches are kept. *)
Definition on_object {A} (addr : Address) (d : A) (f : database -> stateObject -> A * stateObject) : M StateDB A :=
  o ← getStateObject addr;
  match o with
  | None => mret d
  | Some o =>
      s ← get;
      let '(a, o') := f (sdb_db s) o in
      setStateObject o';;
      mret a
  end.

Definition field {A} (f : stateObject -> A) : database -> stateObject -> A * stateObject := fun _ o => (f o, o).

(** *** Lookups *)
Definition Exist (addr : Address) : M StateDB bool := on_object addr false (field (fun _ => true)).
Definition Empty_account (addr : Address) : M StateDB bool := on_object addr true (field so_empty).
Definition GetOwner (addr : Address) : M StateDB (option Address) :=
  on_object addr None (field (fun o => a_OwnerAddress (so_data o))).
Definition GetProviders (addr : Address) : M StateDB (list Address) :=
  on_object addr [] (field (fun o => a_ProviderAddresses (so_data o))).
Definition GetBalance (addr : Address) : M StateDB Z := on_object addr 0 (field (fun o => a_Balance (so_data o))).
Definition GetNonce (addr : Address) : M StateDB Z := on_object addr 0 (field (fun o => a_Nonce (so_data o))).
Definition GetCode (addr : Address) : M StateDB (option bytes) := on_object addr None Code.
Definition GetCodeHash (addr : Address) : M StateDB Hash :=
  on_object addr zeroHash (field (fun o => BytesToHash (a_CodeHash (so_data o)))).
Definition StateDB_GetState (addr : Address) (key : Hash) : M StateDB Hash :=
  on_object addr zeroHash (fun db => GetState db key).
Definition StateDB_GetCommittedState (addr : Address) (key : Hash) : M StateDB Hash :=
  on_object addr zeroHash (fun db => GetCommittedState db key).
Definition HasSuicided (addr : Address) : M StateDB bool := on_object addr false (field so_suicided).
Definition GetRefund : M StateDB Z := gets sdb_refund.
Definition GetLogs (hash : Hash) : M StateDB (list Log) := gets (fun s => default [] (sdb_logs s !! hash)).

Definition GetCodeSize (addr : Address) : M StateDB Z :=
  o ← getStateObject addr;
  match o with
  | None => mret 0
  | Some o =>
      match so_code o with
      | Some c => mret (Z.of_nat (length c))
      | None =>
          s ← get;
          let '(size, err) := db_ContractCodeSize (sdb_db s) (addrHash o) (BytesToHash (a_CodeHash (so_data o))) in
          when (bool_decide (is_Some err)) (modify (sdb_setError err));;
          mret size
      end
  end.

(** *** Changes *)
Definition ripemd : Address := BigToAddress 3.

(** [touch] *)
Definition touch (o : stateObject) : M StateDB unit :=
  journal_append (touchChange (so_address o));;
  when (bool_decide (so_address o = ripemd)) (journal_dirty (so_address o)).

Definition SetBalance (addr : Address) (amount : Z) : M StateDB unit :=
  o ← GetOrNewStateObject addr;
  journal_append (balanceChange (so_address o) (a_Balance (so_data o)));;
  setStateObject (setBalance amount o).

Definition AddBalance (addr : Address) (amount : Z) : M StateDB unit :=
  o ← GetOrNewStateObject addr;
  if amount =? 0 then when (so_empty o) (touch o)
  else
    journal_append (balanceChange (so_address o) (a_Balance (so_data o)));;
    setStateObject (setBalance (a_Balance (so_data o) + amount) o).

Definition SubBalance (addr : Address) (amount : Z) : M StateDB unit :=
  o ← GetOrNewStateObject addr;
  if amount =? 0 then mret tt
  else
    journal_append (balanceChange (so_address o) (a_Balance (so_data o)));;
    setStateObject (setBalance (a_Balance (so_data o) - amount) o).

Definition SetNonce (addr : Address) (nonce : Z) : M StateDB unit :=
  o ← GetOrNewStateObject addr;
  journal_append (nonceChange (so_address o) (a_Nonce (so_data o)));;
  setStateObject (setNonce nonce o).

Definition SetCode (addr : Address) (code : option bytes) : M StateDB unit :=
  o ← GetOrNewStateObject addr;
  s ← get;
  let '(prevcode, o) := Code (sdb_db s) o in
  journal_append (codeChange (so_address o) prevcode (a_CodeHash (so_data o)));;
  setStateObject (setCode (keccak256 (default [] code)) code o).

Definition SetState (addr : Address) (key value : Hash) : M StateDB unit :=
  o ← GetOrNewStateObject addr;
  s ← get;
  let '(prev, o) := GetState (sdb_db s) key o in
  if bool_decide (prev = value) then setStateObject o
  else
    journal_append (storageChange (so_address o) key prev);;
    setStateObject (setState key value o).

Definition Suicide (addr : Address) : M StateDB bool :=
  o ← getStateObject addr;
  match o with
  | None => mret false
  | Some o =>
      journal_append (suicideChange addr (so_suicided o) (a_Balance (so_data o)));;
      setStateObject (setBalance 0 (markSuicided o));;
      mret true
  end.

Definition AddLog (log : Log) : M StateDB unit :=
  s ← get;
  journal_append (addLogChange (sdb_thash s));;
  let log := MkLog (l_Address log) (l_Topics log) (l_Data log) (l_BlockNumber log) (sdb_thash s) (uint64 (sdb_txIndex s))
               (sdb_bhash s) (sdb_logSize s) (l_Removed log) in
  modify (fun s => set_logs (<[sdb_thash s := default [] (sdb_logs s !! sdb_thash s) ++ [log]]> (sdb_logs s))
                     (uint64 (sdb_logSize s + 1)) s).

Definition AddPreimage (hash : Hash) (preimage : bytes) : M StateDB unit :=
  s ← get;
  match sdb_preimages s !! hash with
  | Some _ => mret tt
  | None =>
      journal_append (addPreimageChange hash);;
      modify (fun s => set_preimages (<[hash := preimage]> (sdb_preimages s)) s)
  end.

Definition AddRefund (gas : Z) : M StateDB unit :=
  s ← get;
  journal_append (refundChange (sdb_refund s));;
  modify (fun s => set_refund (uint64 (sdb_refund s + gas)) s).

Definition SubRefund (gas : Z) : M StateDB unit :=
  s ← get;
  journal_append (refundChange (sdb_refund s));;
  if sdb_refund s <? gas then panic else modify (fun s => set_refund (sdb_refund s - gas) s).

Definition Prepare_tx (thash bhash : Hash) (ti : Z) : M StateDB unit := modify (set_tx thash bhash ti).

(** *** Snapshots *)
Definition Snapshot : M StateDB Z :=
  s ← get;
  let id := sdb_nextRevisionId s in
  modify (set_revisions (sdb_validRevisions s ++ [(id, Z.of_nat (length (sdb_entries s)))]) (id + 1));;
  mret id.

(** An object the journal refers to: nil panics. *)
Definition journalled (addr : Address) (f : stateObject -> stateObject) : M StateDB unit :=
  o ← getStateObject addr;
  o ← deref o;
  setStateObject (f o).

Definition revert_entry (e : journalEntry) : M StateDB unit :=
  match e with
  | createObjectChange a =>
      modify (fun s => set_objectsDirty (sdb_objectsDirty s ∖ {[a]}) (set_objects (delete a (sdb_objects s)) s))
  | resetObjectChange prev => setStateObject prev
  | suicideChange a prev prevbalance =>
      o ← getStateObject a;
      match o with
      | Some o => setStateObject (setBalance prevbalance (set_suicided prev o))
      | None => mret tt
      end
  | touchChange _ => mret tt
  | balanceChange a prev => journalled a (setBalance prev)
  | nonceChange a prev => journalled a (setNonce prev)
  | codeChange a prevcode prevhash => journalled a (setCode (BytesToHash prevhash) prevcode)
  | storageChange a key prevalue => journalled a (setState key prevalue)
  | refundChange prev => modify (set_refund prev)
  | addLogChange txhash =>
      s ← get;
      let logs := default [] (sdb_logs s !! txhash) in
      let size := uint64 (sdb_logSize s - 1) in
      match logs with
      | [] => panic
      | [_] => modify (set_logs (delete txhash (sdb_logs s)) size)
      | _ => modify (set_logs (<[txhash := removelast logs]> (sdb_logs s)) size)
      end
  | addPreimageChange hash => modify (fun s => set_preimages (delete hash (sdb_preimages s)) s)
  end.

(** One round of the loop of [journal.revert]: the entry stays in the journal until the
    end. *)
Definition revert_step (e : journalEntry) : M StateDB unit :=
  revert_entry e;;
  match dirtied e with
  | None => mret tt
  | Some a =>
      modify (fun s =>
        let d := bump_dirty (-1) a (sdb_dirties s) in
        set_journal (sdb_entries s) (if default 0 (d !! a) =? 0 then delete a d else d) s)
  end.

Fixpoint revert_steps (l : list journalEntry) : M StateDB unit :=
  match l with
  | [] => mret tt
  | e :: r => revert_step e;; revert_steps r
  end.

Definition journal_revert (snapshot : nat) : M StateDB unit :=
  s ← get;
  revert_steps (reverse (drop snapshot (sdb_entries s)));;
  modify (fun s => set_journal (take snapshot (sdb_entries s)) (sdb_dirties s) s).

(** [sort.Search]: binary search between [i] and [j]. *)
Fixpoint search_from (fuel : nat) (f : nat -> bool) (i j : nat) : nat :=
  match fuel with
  | O => i
  | S n =>
      if (i <? j)%nat then
        let h := Nat.div2 (i + j) in
        if negb (f h) then search_from n f (S h) j else search_from n f i h
      else i
  end.

Definition sort_Search (n : nat) (f : nat -> bool) : nat := search_from n f 0 n.

Definition RevertToSnapshot (revid : Z) : M StateDB unit :=
  s ← get;
  let revs := sdb_validRevisions s in
  let idx := sort_Search (length revs) (fun i => match revs !! i with Some r => revid <=? r.1 | None => true end) in
  match revs !! idx with
  | None => panic
  | Some (id, snapshot) =>
      if negb (id =? revid) then panic
      else
        journal_revert (Z.to_nat snapshot);;
        modify (fun s => set_revisions (take idx (sdb_validRevisions s)) (sdb_nextRevisionId s) s)
  end.

(** ** Writing the state

    Go iterates over maps in no particular order; the orders are functions here. *)
Section writing.
Context (slot_order : gmap Hash Hash -> list (Hash * Hash)).
Context (dirty_order : gmap Address Z -> list (Address * Z)).
Context (object_order : gmap Address stateObject -> list (Address * stateObject)).

Definition deleteStateObject (o : stateObject) : M StateDB unit :=
  setStateObject (set_deleted true o);;
  modify (fun s => let '(t, err) := t_TryDelete (bytes_of (so_address o)) (sdb_trie s) in
                   sdb_setError err (set_tries (sdb_db s) t s)).

Definition updateStateObject (o : stateObject) : M StateDB unit :=
  match EncodeToBytes (account_gval (so_data o)) with
  | inr (Ok data) =>
      modify (fun s => let '(t, err) := t_TryUpdate (bytes_of (so_address o)) data (sdb_trie s) in
                       sdb_setError err (set_tries (sdb_db s) t s))
  | inr OutOfFuel => diverge
  | _ => panic
  end.

Definition add_objectDirty (addr : Address) : M StateDB unit :=
  modify (fun s => set_objectsDirty ({[addr]} ∪ sdb_objectsDirty s) s).

(** The loop of [Finalise] over the dirty addresses. *)
Definition finalise_one (deleteEmptyObjects : bool) (addr : Address) : M StateDB unit :=
  s ← get;
  match sdb_objects s !! addr with
  | None => mret tt
  | Some o =>
      (if so_suicided o || (deleteEmptyObjects && so_empty o) then deleteStateObject o
       else
         let o := updateRoot slot_order (sdb_db s) o in
         setStateObject o;;
         updateStateObject o);;
      add_objectDirty addr
  end.

Fixpoint each {A} (f : A -> M StateDB unit) (l : list A) : M StateDB unit :=
  match l with
  | [] => mret tt
  | a :: r => f a;; each f r
  end.

Definition Finalise (deleteEmptyObjects : bool) : M StateDB unit :=
  s ← get;
  each (fun x => finalise_one deleteEmptyObjects x.1) (dirty_order (sdb_dirties s));;
  clearJournalAndRefund.

Definition IntermediateRoot (deleteEmptyObjects : bool) : M StateDB Hash :=
  Finalise deleteEmptyObjects;;
  s ← get;
  mret (t_Hash (sdb_trie s)).

(** One object of the loop of [Commit]; an error ends the loop. The references kept for
    the garbage collection of the node cache are left out. *)
Definition commit_code (o : stateObject) : M StateDB stateObject :=
  match so_code o with
  | Some code =>
      if so_dirtyCode o then
        modify (fun s => set_tries (db_InsertBlob (BytesToHash (a_CodeHash (so_data o))) code (sdb_db s)) (sdb_trie s) s);;
        mret (set_dirtyCode false o)
      else mret o
  | None => mret o
  end.

Definition commit_one (deleteEmptyObjects : bool) (addr : Address) (o : stateObject) : M StateDB (option error) :=
  s ← get;
  let isDirty := bool_decide (addr ∈ sdb_objectsDirty s) in
  err ← (if so_suicided o || (isDirty && deleteEmptyObjects && so_empty o)
         then deleteStateObject o;; mret None
         else if isDirty then
           o ← commit_code o;
           s ← get;
           let '(err, o, db) := CommitTrie slot_order (sdb_db s) o in
           modify (fun s => set_tries db (sdb_trie s) s);;
           setStateObject o;;
           match err with
           | Some e => mret (Some e)
           | None => updateStateObject o;; mret None
           end
         else mret None);
  match err with
  | Some e => mret (Some e)
  | None => modify (fun s => set_objectsDirty (sdb_objectsDirty s ∖ {[addr]}) s);; mret None
  end.

Fixpoint commit_all (deleteEmptyObjects : bool) (l : list (Address * stateObject)) : M StateDB (option error) :=
  match l with
  | [] => mret None
  | (addr, o) :: r =>
      err ← commit_one deleteEmptyObjects addr o;
      match err with
      | Some e => mret (Some e)
      | None => commit_all deleteEmptyObjects r
      end
  end.

Definition Commit (deleteEmptyObjects : bool) : M StateDB (error + Hash) :=
  s ← get;
  each (fun x => add_objectDirty x.1) (dirty_order (sdb_dirties s));;
  err ← commit_all deleteEmptyObjects (object_order (sdb_objects s));
  match err with
  | Some e => clearJournalAndRefund;; mret (inl e)
  | None =>
      s ← get;
      let '(r, t, db) := t_Commit (sdb_trie s) (sdb_db s) in
      modify (set_tries db t);;
      clearJournalAndRefund;;
      mret r
  end.
End writing.

(** [Copy]: the objects that changed, and everything else but the journal. An address that
    is dirty without an object panics. *)
Definition Copy_StateDB (s : StateDB) : res StateDB :=
  let copied (l : list Address) := omap (fun a => o ← sdb_objects s !! a; Some (a, deepCopy o)) l in
  let journalled := list_to_map (copied (elements (dom (sdb_dirties s)))) in
  let dirty := elements (sdb_objectsDirty s ∖ dom journalled) in
  if forallb (fun a => bool_decide (is_Some (sdb_objects s !! a))) dirty then
    let objects : gmap Address stateObject := journalled ∪ list_to_map (copied dirty) in
    Ok (MkStateDB (sdb_db s) (sdb_trie s) objects (dom objects) None (sdb_refund s) zeroHash zeroHash 0 (sdb_logs s)
          (sdb_logSize s) (sdb_preimages s) [] ∅ [] 0)
  else Panic.
End statedb.
