(* ===== verification/StateRevert.v ===== *)
(** * Snapshots of the state

    [RevertToSnapshot] of [src/core/state/statedb.go] restores the state of the snapshot:
    what can be looked up, the refund, the logs, the preimages and the journal. States are
    compared by what their accounts answer, not by their caches. *)

From S2P Require Import Prelude Bytes RlpEncode RlpDecode RlpCanonical RlpRaw Types StateDB.

(** ** Binary search *)
Section search.
Context (f : nat -> bool).

Lemma search_from_spec fuel i j :
  (i <= j)%nat -> (j - i <= fuel)%nat -> (forall a b, (a <= b)%nat -> f a = true -> f b = true) ->
  let r := search_from fuel f i j in
  (i <= r <= j)%nat /\ (forall h, (i <= h < r)%nat -> f h = false) /\ ((r < j)%nat -> f r = true).
Proof.
  intros Hij Hf Hm. revert i j Hij Hf. induction fuel as [|fuel IH]; intros i j Hij Hf; cbn [search_from].
  - split_and!; [lia|lia|intros h Hh; lia|intros ?; lia].
  - destruct (Nat.ltb_spec i j) as [Hlt|Hge]; [|split_and!; [lia|lia|intros h Hh; lia|intros ?; lia]].
    pose proof (Nat.div2_odd (i + j)) as Hd. set (h := Nat.div2 (i + j)) in *.
    assert (Hh : (i <= h < j)%nat) by (destruct (Nat.odd (i + j)); cbn in Hd; lia).
    destruct (f h) eqn:Efh; cbn [negb].
    + destruct (IH i h ltac:(lia) ltac:(lia)) as (H1 & H2 & H3). split_and!; [lia|lia|done|].
      intros _. destruct (decide (search_from fuel f i h < h)%nat) as [Hc|Hc]; [by apply H3|].
      by replace (search_from fuel f i h) with h by lia.
    + destruct (IH (S h) j ltac:(lia) ltac:(lia)) as (H1 & H2 & H3). split_and!; [lia|lia| |done].
      intros x Hx. destruct (decide (x <= h)%nat) as [Hc|Hc]; [|apply H2; lia].
      destruct (f x) eqn:Ex; [|done]. rewrite (Hm x h Hc Ex) in Efh. done.
Qed.
End search.

Lemma sort_Search_spec n (f : nat -> bool) :
  (forall a b, (a <= b)%nat -> f a = true -> f b = true) ->
  (sort_Search n f <= n)%nat /\ (forall h, (h < sort_Search n f)%nat -> f h = false) /\
  ((sort_Search n f < n)%nat -> f (sort_Search n f) = true).
Proof.
  intros Hm. destruct (search_from_spec f n 0 n ltac:(lia) ltac:(lia) Hm) as (H1 & H2 & H3).
  split_and!; [unfold sort_Search; lia| |done]. intros h Hh. apply H2. unfold sort_Search in Hh. lia.
Qed.

Lemma sorted_lookup {A} (R : relation A) l k h x y :
  StronglySorted R l -> (k < h)%nat -> l !! k = Some x -> l !! h = Some y -> R x y.
Proof.
  intros Hs. revert k h. induction Hs as [|a l Hs IH Ha]; intros k h Hk Hx Hy; [done|].
  destruct h as [|h]; [lia|]. destruct k as [|k]; [|by apply (IH k h); [lia|..]].
  simplify_eq/=. by eapply Forall_lookup_1.
Qed.

Section revert.
Context `{C : Crypto} {DB : StateDatabase}.

(** ** What an object answers *)
Definition eff_trie (db : database) (o : stateObject) : trie := (getTrie db o).1.
Definition eff_code (db : database) (o : stateObject) : option bytes := (Code db o).1.
Definition committed_at (db : database) (k : Hash) (o : stateObject) : Hash := (GetCommittedState db k o).1.
Definition state_at (db : database) (k : Hash) (o : stateObject) : Hash := (GetState db k o).1.

Record obj_equiv (db : database) (o1 o2 : stateObject) : Prop := {
  oe_address : so_address o1 = so_address o2;
  oe_data : so_data o1 = so_data o2;
  oe_suicided : so_suicided o1 = so_suicided o2;
  oe_deleted : so_deleted o1 = so_deleted o2;
  oe_trie : eff_trie db o1 = eff_trie db o2;
  oe_code : eff_code db o1 = eff_code db o2;
  oe_committed : forall k, committed_at db k o1 = committed_at db k o2;
  oe_state : forall k, state_at db k o1 = state_at db k o2
}.

#[global] Instance obj_equiv_equivalence db : Equivalence (obj_equiv db).
Proof.
  split.
  - intros o. by split.
  - intros o1 o2 []. by split.
  - intros o1 o2 o3 [] []. split; congruence.
Qed.

(** Reading an account, a slot or the code changes caches only. *)
Lemma committed_at_eq db k o :
  committed_at db k o =
  match so_originStorage o !! k with
  | Some v => v
  | None => match t_TryGet (eff_trie db o) (bytes_of k) with
            | (_, Some _) => zeroHash
            | (enc, None) => (stored_value enc).1
            end
  end.
Proof.
  unfold committed_at, GetCommittedState, eff_trie. destruct (so_originStorage o !! k); [done|].
  destruct (getTrie db o) as [t o']. cbn [fst]. destruct (t_TryGet t (bytes_of k)) as [enc [e|]]; [done|].
  by destruct (stored_value enc).
Qed.

Lemma state_at_eq db k o :
  state_at db k o = match so_dirtyStorage o !! k with Some v => v | None => committed_at db k o end.
Proof. unfold state_at, GetState. by destruct (so_dirtyStorage o !! k). Qed.

(** The parts of an object its answers depend on. *)
Lemma obj_equiv_parts db o1 o2 :
  so_address o1 = so_address o2 -> so_data o1 = so_data o2 -> so_suicided o1 = so_suicided o2 ->
  so_deleted o1 = so_deleted o2 -> eff_trie db o1 = eff_trie db o2 -> eff_code db o1 = eff_code db o2 ->
  so_dirtyStorage o1 = so_dirtyStorage o2 -> (forall k, committed_at db k o1 = committed_at db k o2) ->
  obj_equiv db o1 o2.
Proof.
  intros ? ? ? ? ? ? Hd Hc. split; try done. intros k. rewrite !state_at_eq, Hd. by destruct (so_dirtyStorage o2 !! k).
Qed.

Lemma so_setError_fields e o :
  so_address (so_setError e o) = so_address o /\ so_data (so_setError e o) = so_data o /\
  so_suicided (so_setError e o) = so_suicided o /\ so_deleted (so_setError e o) = so_deleted o /\
  so_trie (so_setError e o) = so_trie o /\ so_code (so_setError e o) = so_code o /\
  so_dirtyStorage (so_setError e o) = so_dirtyStorage o /\ so_originStorage (so_setError e o) = so_originStorage o.
Proof. unfold so_setError. by destruct (so_dbErr o). Qed.

Lemma eff_trie_eq db o :
  eff_trie db o = match so_trie o with
                  | Some t => t
                  | None => match db_OpenStorageTrie db (addrHash o) (a_Root (so_data o)) with
                            | inr t => t
                            | inl _ => db_EmptyTrie
                            end
                  end.
Proof. unfold eff_trie, getTrie. destruct (so_trie o); [done|]. by destruct (db_OpenStorageTrie _ _ _). Qed.

Lemma eff_code_eq db o :
  eff_code db o = match so_code o with
                  | Some c => Some c
                  | None => if bool_decide (a_CodeHash (so_data o) = emptyCodeHash) then None
                            else (db_ContractCode db (addrHash o) (BytesToHash (a_CodeHash (so_data o)))).1
                  end.
Proof.
  unfold eff_code, Code. destruct (so_code o); [done|]. case_bool_decide; [done|].
  by destruct (db_ContractCode _ _ _) as [c [e|]].
Qed.

Lemma eff_trie_ext db o o' :
  so_trie o' = so_trie o -> so_address o' = so_address o -> a_Root (so_data o') = a_Root (so_data o) ->
  eff_trie db o' = eff_trie db o.
Proof. intros Ht Ha Hd. rewrite !eff_trie_eq. unfold addrHash. by rewrite Ht, Ha, Hd. Qed.

Lemma eff_code_ext db o o' :
  so_code o' = so_code o -> so_address o' = so_address o -> a_CodeHash (so_data o') = a_CodeHash (so_data o) ->
  eff_code db o' = eff_code db o.
Proof. intros Ht Ha Hd. rewrite !eff_code_eq. unfold addrHash. by rewrite Ht, Ha, Hd. Qed.

Lemma getTrie_fields db o :
  let o' := (getTrie db o).2 in
  so_address o' = so_address o /\ so_data o' = so_data o /\ so_suicided o' = so_suicided o /\ so_deleted o' = so_deleted o /\
  so_trie o' = Some (eff_trie db o) /\ so_code o' = so_code o /\ so_dirtyStorage o' = so_dirtyStorage o /\
  so_originStorage o' = so_originStorage o.
Proof.
  cbv zeta. unfold eff_trie, getTrie. destruct (so_trie o) as [t|] eqn:E; [done|].
  destruct (db_OpenStorageTrie _ _ _) as [e|t]; [|done]. exact (so_setError_fields (Some e) (set_so_trie db_EmptyTrie o)).
Qed.

(** An object that differs in its caches only. *)
Record cached (db : database) (o' o : stateObject) : Prop := {
  ca_address : so_address o' = so_address o;
  ca_data : so_data o' = so_data o;
  ca_suicided : so_suicided o' = so_suicided o;
  ca_deleted : so_deleted o' = so_deleted o;
  ca_dirty : so_dirtyStorage o' = so_dirtyStorage o;
  ca_trie : eff_trie db o' = eff_trie db o;
  ca_code : eff_code db o' = eff_code db o;
  ca_origin : forall k, so_originStorage o' !! k = so_originStorage o !! k \/
                        (so_originStorage o !! k = None /\ so_originStorage o' !! k = Some (committed_at db k o))
}.

Lemma cached_equiv db o' o : cached db o' o -> obj_equiv db o' o.
Proof.
  intros []. apply obj_equiv_parts; try done. intros k. rewrite !committed_at_eq, ca_trie0.
  destruct (ca_origin0 k) as [->|[Hn ->]]; [done|]. rewrite Hn, committed_at_eq, Hn. done.
Qed.

Lemma getTrie_cached db o : cached db (getTrie db o).2 o.
Proof.
  pose proof (getTrie_fields db o) as (H1 & H2 & H3 & H4 & H5 & H6 & H7 & H8). set (o' := (getTrie db o).2) in *.
  split; try done.
  - rewrite eff_trie_eq, H5. done.
  - apply eff_code_ext; congruence.
  - intros k. left. by rewrite H8.
Qed.

Lemma so_setError_cached db e o : cached db (so_setError e o) o.
Proof.
  destruct (so_setError_fields e o) as (H1 & H2 & H3 & H4 & H5 & H6 & H7 & H8). split; try done.
  - apply eff_trie_ext; congruence.
  - apply eff_code_ext; congruence.
  - intros k. left. by rewrite H8.
Qed.

Lemma cached_trans db o1 o2 o3 : cached db o1 o2 -> cached db o2 o3 -> cached db o1 o3.
Proof.
  intros H12 H23. pose proof (oe_committed _ _ _ (cached_equiv _ _ _ H23)) as Hc.
  destruct H12 as [? ? ? ? ? ? ? Ho12], H23 as [? ? ? ? ? ? ? Ho23]. split; try congruence.
  intros k. destruct (Ho12 k) as [->|[Hn ->]]; [apply Ho23|]. destruct (Ho23 k) as [Ho|[Ho Ho']]; [|congruence].
  right. split; [congruence|]. by rewrite Hc.
Qed.

Lemma set_origin_cached db k o :
  so_originStorage o !! k = None -> cached db (set_origin (<[k := committed_at db k o]> (so_originStorage o)) o) o.
Proof.
  intros Hn. split; [done..|by apply eff_trie_ext|by apply eff_code_ext|]. intros k'. cbn [set_origin so_originStorage].
  destruct (decide (k = k')) as [<-|Hne]; [right|left; by rewrite lookup_insert_ne].
  by rewrite lookup_insert_eq.
Qed.

Lemma GetCommittedState_cached db k o : cached db (GetCommittedState db k o).2 o.
Proof.
  assert (Hrefl : cached db o o) by (split; try done; intros; by left).
  pose proof (getTrie_cached db o) as Ht. pose proof (getTrie_fields db o) as (_ & _ & _ & _ & _ & _ & _ & Ho).
  unfold GetCommittedState. destruct (so_originStorage o !! k) as [v|] eqn:Ek; [done|].
  pose proof (committed_at_eq db k o) as Hv. rewrite Ek in Hv. unfold eff_trie in Hv.
  destruct (getTrie db o) as [t o1]. cbn [fst snd] in *. destruct (t_TryGet t (bytes_of k)) as [enc [e|]].
  { eapply cached_trans; [apply so_setError_cached|done]. }
  destruct (stored_value enc) as [v err]. cbn [fst] in Hv.
  set (o2 := match err with Some e => so_setError (Some e) o1 | None => o1 end).
  assert (Hc2 : cached db o2 o) by (unfold o2; destruct err; [eapply cached_trans; [apply so_setError_cached|]|]; done).
  assert (Ho2 : so_originStorage o2 = so_originStorage o1)
    by (unfold o2; destruct err; [apply so_setError_fields|done]).
  cbn [snd]. eapply cached_trans; [|exact Hc2].
  rewrite <- Hv, <- (oe_committed _ _ _ (cached_equiv _ _ _ Hc2) k). apply set_origin_cached. by rewrite Ho2, Ho.
Qed.

Lemma GetState_cached db k o : cached db (GetState db k o).2 o.
Proof.
  unfold GetState. destruct (so_dirtyStorage o !! k); [|apply GetCommittedState_cached].
  split; try done. intros; by left.
Qed.

Lemma Code_cached db o : cached db (Code db o).2 o.
Proof.
  assert (Hrefl : cached db o o) by (split; try done; intros; by left).
  unfold Code. destruct (so_code o) as [c|] eqn:Ec; [done|]. case_bool_decide as Eh; [done|].
  destruct (db_ContractCode _ _ _) as [code err] eqn:Ed.
  set (o2 := match err with Some e => so_setError (Some e) o | None => o end).
  assert (Hc2 : cached db o2 o) by (unfold o2; destruct err; [apply so_setError_cached|done]).
  cbn [snd]. eapply cached_trans; [|exact Hc2]. split; [done..|by apply eff_trie_ext| |intros; by left].
  rewrite !eff_code_eq. cbn [set_so_code so_code so_data].
  assert (so_code o2 = None) as -> by (unfold o2; destruct err; [by rewrite <- Ec; apply so_setError_fields|done]).
  destruct Hc2 as [Ha Hda _ _ _ _ _ _]. rewrite Hda, bool_decide_eq_false_2 by done.
  unfold addrHash in *. cbn [set_so_code so_address so_data]. rewrite Ha, Ed. by destruct code.
Qed.

(** Changes that leave the storage alone. *)
Definition same_storage (o' o : stateObject) : Prop :=
  so_address o' = so_address o /\ a_Root (so_data o') = a_Root (so_data o) /\ so_trie o' = so_trie o /\
  so_originStorage o' = so_originStorage o /\ so_dirtyStorage o' = so_dirtyStorage o.

Lemma same_storage_at db o' o :
  same_storage o' o ->
  eff_trie db o' = eff_trie db o /\ (forall k, committed_at db k o' = committed_at db k o) /\
  (forall k, state_at db k o' = state_at db k o).
Proof.
  intros (Ha & Hr & Ht & Ho & Hd). assert (Het : eff_trie db o' = eff_trie db o) by by apply eff_trie_ext.
  assert (Hc : forall k, committed_at db k o' = committed_at db k o) by (intros k; rewrite !committed_at_eq, Het, Ho; done).
  split_and!; [done..|]. intros k. rewrite !state_at_eq, Hd, Hc. done.
Qed.

(** Assignments respect the equivalence. *)
Lemma obj_equiv_update db f o1 o2 :
  (forall o, same_storage (f o) o) -> obj_equiv db o1 o2 -> so_data (f o1) = so_data (f o2) ->
  so_suicided (f o1) = so_suicided (f o2) -> so_deleted (f o1) = so_deleted (f o2) ->
  eff_code db (f o1) = eff_code db (f o2) -> obj_equiv db (f o1) (f o2).
Proof.
  intros Hf [] Hd Hs Hde Hc. destruct (same_storage_at db _ _ (Hf o1)) as (T1 & C1 & S1).
  destruct (same_storage_at db _ _ (Hf o2)) as (T2 & C2 & S2). destruct (Hf o1) as (A1 & _), (Hf o2) as (A2 & _).
  split; congruence.
Qed.

Lemma setBalance_proper db z o1 o2 : obj_equiv db o1 o2 -> obj_equiv db (setBalance z o1) (setBalance z o2).
Proof.
  intros He. pose proof He as []. apply obj_equiv_update; try done; [cbn; by rewrite oe_data0|].
  rewrite (eff_code_ext db o1 (setBalance z o1)), (eff_code_ext db o2 (setBalance z o2)) by done. done.
Qed.

Lemma setNonce_proper db z o1 o2 : obj_equiv db o1 o2 -> obj_equiv db (setNonce z o1) (setNonce z o2).
Proof.
  intros He. pose proof He as []. apply obj_equiv_update; try done; [cbn; by rewrite oe_data0|].
  rewrite (eff_code_ext db o1 (setNonce z o1)), (eff_code_ext db o2 (setNonce z o2)) by done. done.
Qed.

Lemma set_suicided_proper db b o1 o2 : obj_equiv db o1 o2 -> obj_equiv db (set_suicided b o1) (set_suicided b o2).
Proof.
  intros He. pose proof He as []. apply obj_equiv_update; try done.
  rewrite (eff_code_ext db o1 (set_suicided b o1)), (eff_code_ext db o2 (set_suicided b o2)) by done. done.
Qed.

Lemma setCode_proper db h c o1 o2 : obj_equiv db o1 o2 -> obj_equiv db (setCode h c o1) (setCode h c o2).
Proof.
  intros He. pose proof He as []. apply obj_equiv_update; try done; [cbn; by rewrite oe_data0|].
  rewrite !eff_code_eq. unfold addrHash. cbn [setCode set_dirtyCode set_so_code set_data so_code so_data so_address a_CodeHash].
  by rewrite oe_address0.
Qed.

Lemma setState_at db k v o :
  eff_trie db (setState k v o) = eff_trie db o /\ (forall k', committed_at db k' (setState k v o) = committed_at db k' o) /\
  (forall k', state_at db k' (setState k v o) = if decide (k = k') then v else state_at db k' o).
Proof.
  assert (Ht : eff_trie db (setState k v o) = eff_trie db o) by by apply eff_trie_ext.
  assert (Hc : forall k', committed_at db k' (setState k v o) = committed_at db k' o)
    by (intros k'; rewrite !committed_at_eq, Ht; done).
  split_and!; [done..|]. intros k'. rewrite !state_at_eq, Hc. cbn [setState set_dirtyStorage so_dirtyStorage].
  destruct (decide (k = k')) as [<-|]; [by rewrite lookup_insert_eq|by rewrite lookup_insert_ne].
Qed.

Lemma setState_proper db k v o1 o2 : obj_equiv db o1 o2 -> obj_equiv db (setState k v o1) (setState k v o2).
Proof.
  intros []. destruct (setState_at db k v o1) as (T1 & C1 & S1), (setState_at db k v o2) as (T2 & C2 & S2). split; try done.
  - congruence.
  - rewrite (eff_code_ext db o1 (setState k v o1)), (eff_code_ext db o2 (setState k v o2)) by done. done.
  - intros k'. by rewrite C1, C2.
  - intros k'. rewrite S1, S2. by destruct (decide (k = k')).
Qed.

(** ** What a state answers *)
Definition find_object (s : StateDB) (addr : Address) : option stateObject :=
  match sdb_objects s !! addr with
  | Some o => if so_deleted o then None else Some o
  | None => newObject addr <$> (load_account (sdb_trie s) addr).1
  end.

Definition dirty_count (s : StateDB) (a : Address) : Z := default 0 (sdb_dirties s !! a).

(** The journal and the revisions are left out, and the address kept dirty on purpose. *)
Record st_equiv (s1 s2 : StateDB) : Prop := {
  se_db : sdb_db s1 = sdb_db s2;
  se_trie : sdb_trie s1 = sdb_trie s2;
  se_objects : forall a, option_Forall2 (obj_equiv (sdb_db s1)) (find_object s1 a) (find_object s2 a);
  se_refund : sdb_refund s1 = sdb_refund s2;
  se_tx : (sdb_thash s1, sdb_bhash s1, sdb_txIndex s1) = (sdb_thash s2, sdb_bhash s2, sdb_txIndex s2);
  se_logs : forall h, default [] (sdb_logs s1 !! h) = default [] (sdb_logs s2 !! h);
  se_logSize : sdb_logSize s1 = sdb_logSize s2;
  se_preimages : sdb_preimages s1 = sdb_preimages s2;
  se_dirties : forall a, a <> ripemd -> dirty_count s1 a = dirty_count s2 a
}.

#[global] Instance st_equiv_equivalence : Equivalence st_equiv.
Proof.
  split.
  - intros s. by split.
  - intros s1 s2 []. split; try done.
    + intros a. rewrite <- se_db0. symmetry. apply se_objects0.
    + intros a Ha. symmetry. by apply se_dirties0.
  - intros s1 s2 s3 [] []. split; try congruence.
    + intros a. etransitivity; [apply se_objects0|]. rewrite se_db0. apply se_objects1.
    + intros a Ha. rewrite se_dirties0, se_dirties1; done.
Qed.

Lemma found_live s a o : find_object s a = Some o -> so_deleted o = false.
Proof.
  unfold find_object. destruct (sdb_objects s !! a) as [o'|]; [destruct (so_deleted o') eqn:E; [done|by intros [= <-]]|].
  destruct (load_account _ _) as [[d|] ?]; [by intros [= <-]|done].
Qed.

(** ** Lookups *)
Record looked (s s' : StateDB) : Prop := {
  lk_find : forall a, find_object s' a = find_object s a;
  lk_deleted : forall a o, sdb_objects s' !! a = Some o -> so_deleted o = true -> sdb_objects s !! a = Some o;
  lk_rest : exists m e, s' = set_sdb_dbErr e (set_objects m s)
}.

Lemma looked_refl s : looked s s.
Proof. split; try done. exists (sdb_objects s), (sdb_dbErr s). by destruct s. Qed.

Lemma looked_equiv s s' : looked s s' -> st_equiv s' s.
Proof.
  intros [Hf _ (m & e & ->)]. split; try done. intros a. rewrite Hf. reflexivity.
Qed.

Lemma getStateObject_run a s :
  exists s', getStateObject a s = Ok (find_object s a, s') /\ looked s s'.
Proof.
  unfold getStateObject, find_object. run. destruct (sdb_objects s !! a) as [o|] eqn:Eo; cbn.
  { eexists. split; [done|apply looked_refl]. }
  destruct (load_account (sdb_trie s) a) as [[d|] err] eqn:El; cbn.
  - eexists. split; [done|]. split; [| |by exists (<[a := newObject a d]> (sdb_objects s)), (sdb_dbErr s); destruct s].
    + intros a'. unfold find_object. cbn. destruct (decide (a = a')) as [<-|]; [|by rewrite lookup_insert_ne].
      by rewrite lookup_insert_eq, Eo, El.
    + intros a' o. cbn. destruct (decide (a = a')) as [<-|]; [|by rewrite lookup_insert_ne].
      rewrite lookup_insert_eq. by intros [= <-].
  - eexists. split; [done|]. unfold sdb_setError. destruct (sdb_dbErr s) eqn:Ee; [apply looked_refl|].
    split; try done. exists (sdb_objects s), err. by destruct s.
Qed.

(** Putting an object in place. *)
Definition put (o : stateObject) (s : StateDB) : StateDB :=
  set_objects (<[so_address o := o]> (sdb_objects s)) s.

Lemma find_put o s a :
  find_object (put o s) a =
  if decide (so_address o = a) then if so_deleted o then None else Some o else find_object s a.
Proof.
  unfold find_object, put. cbn. destruct (decide (so_address o = a)) as [<-|]; [by rewrite lookup_insert_eq|].
  by rewrite lookup_insert_ne.
Qed.

Lemma put_equiv o1 o2 s1 s2 : obj_equiv (sdb_db s1) o1 o2 -> st_equiv s1 s2 -> st_equiv (put o1 s1) (put o2 s2).
Proof.
  intros He []. split; try done. intros a. rewrite !find_put. pose proof He as []. rewrite oe_address0, oe_deleted0.
  cbn. destruct (decide (so_address o2 = a)); [|done]. destruct (so_deleted o2); by constructor.
Qed.

(** ** Reverting an entry *)
Lemma find_equiv s1 s2 a :
  st_equiv s1 s2 ->
  (find_object s1 a = None /\ find_object s2 a = None) \/
  exists o1 o2, find_object s1 a = Some o1 /\ find_object s2 a = Some o2 /\ obj_equiv (sdb_db s1) o1 o2.
Proof. intros []. destruct (se_objects0 a); [right|left]; eauto. Qed.

(** A statement that does the same in states that answer the same. *)
Definition respects (m : M StateDB unit) : Prop :=
  forall s1 s2 s1', st_equiv s1 s2 -> m s1 = Ok (tt, s1') -> exists s2', m s2 = Ok (tt, s2') /\ st_equiv s1' s2'.

Lemma respects_modify f : (forall s1 s2, st_equiv s1 s2 -> st_equiv (f s1) (f s2)) -> respects (modify f).
Proof. intros Hf s1 s2 s1' Hs [= <-]. exists (f s2). split; [done|by apply Hf]. Qed.

Lemma respects_panic : respects panic.
Proof. by intros s1 s2 s1' _ [=]. Qed.

Lemma respects_skip : respects (mret tt).
Proof. intros s1 s2 s1' Hs [= <-]. by exists s2. Qed.

Lemma respects_seq m1 m2 : respects m1 -> respects m2 -> respects (m1;; m2).
Proof.
  intros H1 H2 s1 s2 s1' Hs. rewrite bind_Ok. intros ([] & t1 & E1 & E2).
  destruct (H1 _ _ _ Hs E1) as (t2 & F1 & Ht), (H2 _ _ _ Ht E2) as (s2' & F2 & ?).
  exists s2'. by rewrite (bind_run _ _ _ _ _ F1).
Qed.

(** The change of an object found by [getStateObject]. *)
Lemma respects_change a (f : stateObject -> stateObject) (d : M StateDB unit) :
  (forall db o1 o2, obj_equiv db o1 o2 -> obj_equiv db (f o1) (f o2)) -> respects d ->
  respects (o ← getStateObject a; match o with Some o => setStateObject (f o) | None => d end).
Proof.
  intros Hf Hd s1 s2 s1' Hs.
  destruct (getStateObject_run a s1) as (t1 & E1 & L1), (getStateObject_run a s2) as (t2 & E2 & L2).
  assert (Ht : st_equiv t1 t2) by (rewrite (looked_equiv _ _ L1), (looked_equiv _ _ L2); done).
  rewrite (bind_run _ _ _ _ _ E1), (bind_run _ _ _ _ _ E2).
  destruct (find_equiv _ _ a Hs) as [[-> ->]|(o1 & o2 & -> & -> & Ho)]; [by apply Hd|].
  intros [= <-]. eexists. split; [done|]. apply put_equiv; [|done]. apply Hf.
  destruct L1 as [_ _ (m & e & ->)]. exact Ho.
Qed.

Lemma journalled_eq a f s :
  journalled a f s = (o ← getStateObject a; match o with Some o => setStateObject (f o) | None => panic end) s.
Proof.
  unfold journalled. destruct (getStateObject_run a s) as (? & E & _). rewrite !(bind_run _ _ _ _ _ E).
  by destruct (find_object s a).
Qed.

Lemma respects_journalled a f :
  (forall db o1 o2, obj_equiv db o1 o2 -> obj_equiv db (f o1) (f o2)) -> respects (journalled a f).
Proof.
  intros Hf s1 s2 s1'. rewrite !journalled_eq. by apply respects_change, respects_panic.
Qed.

Lemma respects_log h : respects (revert_entry (addLogChange h)).
Proof.
  intros s1 s2 s1' Hs. cbn [revert_entry]. run. pose proof Hs as []. rewrite (se_logs0 h), se_logSize0.
  destruct (default [] (sdb_logs s2 !! h)) as [|x [|y l]] eqn:El; [done| |]; intros [= <-];
    eexists; (split; [done|]); split; try done; intros h'; cbn;
    (destruct (decide (h = h')) as [<-|];
     [by rewrite ?lookup_delete_eq, ?lookup_insert_eq|by rewrite ?lookup_delete_ne, ?lookup_insert_ne]).
Qed.

Lemma respects_entry e : respects (revert_entry e).
Proof.
  destruct e; cbn [revert_entry]; try (apply respects_journalled).
  - apply respects_modify. intros s1 s2 []. split; try done. intros x. unfold find_object. cbn.
    destruct (decide (account = x)) as [<-|]; [rewrite !lookup_delete_eq, se_trie0; reflexivity|].
    rewrite !lookup_delete_ne by done. apply se_objects0.
  - apply respects_modify. intros s1 s2 Hs. apply put_equiv; [reflexivity|done].
  - apply (respects_change account (fun o => setBalance prevbalance (set_suicided prev o))); [|apply respects_skip].
    intros. by apply setBalance_proper, set_suicided_proper.
  - intros. by apply setBalance_proper.
  - intros. by apply setNonce_proper.
  - intros. by apply setState_proper.
  - intros. by apply setCode_proper.
  - apply respects_modify. intros s1 s2 []. by split.
  - apply respects_log.
  - apply respects_modify. intros s1 s2 []. split; try done. cbn. by rewrite se_preimages0.
  - apply respects_skip.
Qed.

(** The counters of the journal *)
Definition undirty (a : Address) (s : StateDB) : StateDB :=
  let d := bump_dirty (-1) a (sdb_dirties s) in
  set_journal (sdb_entries s) (if default 0 (d !! a) =? 0 then delete a d else d) s.

Lemma dirty_count_undirty a s x : dirty_count (undirty a s) x = if decide (a = x) then dirty_count s x - 1 else dirty_count s x.
Proof.
  unfold dirty_count, undirty, bump_dirty. cbn. rewrite lookup_insert_eq. cbn. destruct (decide (a = x)) as [<-|].
  - case_eq (default 0 (sdb_dirties s !! a) + -1 =? 0); intros E; [rewrite lookup_delete_eq|rewrite lookup_insert_eq]; cbn; lia.
  - case_match; [rewrite lookup_delete_ne by done|]; by rewrite lookup_insert_ne.
Qed.

Lemma respects_step e : respects (revert_step e).
Proof.
  unfold revert_step. apply respects_seq; [apply respects_entry|]. destruct (dirtied e) as [a|]; [|apply respects_skip].
  apply (respects_modify (undirty a)). intros s1 s2 []. split; try done. intros x Hx.
  rewrite !dirty_count_undirty, se_dirties0 by done. done.
Qed.

Lemma respects_steps l : respects (revert_steps l).
Proof. induction l as [|e l IH]; cbn [revert_steps]; [apply respects_skip|by apply respects_seq, IH; apply respects_step]. Qed.

(** ** What reverting leaves alone

    An object that was deleted had been destroyed or was empty, and is not in the trie. *)
Definition absent (s : StateDB) : Prop :=
  forall a o, sdb_objects s !! a = Some o -> so_deleted o = true ->
    (load_account (sdb_trie s) a).1 = None /\ so_address o = a /\ so_suicided o || so_empty o = true.

Record kept (s s' : StateDB) : Prop := {
  kp_db : sdb_db s' = sdb_db s;
  kp_trie : sdb_trie s' = sdb_trie s;
  kp_entries : sdb_entries s' = sdb_entries s;
  kp_revisions : sdb_validRevisions s' = sdb_validRevisions s;
  kp_next : sdb_nextRevisionId s' = sdb_nextRevisionId s;
  kp_absent : absent s -> absent s'
}.

#[global] Instance kept_preorder : PreOrder kept.
Proof. split; [intros s; by split|]. intros s1 s2 s3 [] []. split; [by etransitivity..|auto]. Qed.

Lemma looked_kept s s' : looked s s' -> kept s s'.
Proof.
  intros [_ Hd (m & e & ->)]. split; try done. intros Ha a o Ho Hdel. exact (Ha a o (Hd a o Ho Hdel) Hdel).
Qed.

Lemma put_kept o s : so_deleted o = false -> kept s (put o s).
Proof.
  intros Ho. split; try done. intros Ha a o'. unfold put. cbn. destruct (decide (so_address o = a)) as [<-|].
  - rewrite lookup_insert_eq. intros [= <-]. congruence.
  - rewrite lookup_insert_ne by done. apply Ha.
Qed.

Definition live_entry (e : journalEntry) : Prop :=
  match e with resetObjectChange p => so_deleted p = false | _ => True end.

Lemma change_kept a (f : stateObject -> stateObject) (d : M StateDB unit) s s' :
  (forall o, so_deleted (f o) = so_deleted o) -> (forall t t', d t = Ok (tt, t') -> kept t t') ->
  (o ← getStateObject a; match o with Some o => setStateObject (f o) | None => d end) s = Ok (tt, s') -> kept s s'.
Proof.
  intros Hf Hd. destruct (getStateObject_run a s) as (t & E & L). rewrite (bind_run _ _ _ _ _ E).
  destruct (find_object s a) as [o|] eqn:Eo.
  - intros [= <-]. rewrite (looked_kept _ _ L). apply put_kept. rewrite Hf. by eapply found_live.
  - intros H. rewrite (looked_kept _ _ L). by apply Hd.
Qed.

Lemma revert_entry_kept e s s' : live_entry e -> revert_entry e s = Ok (tt, s') -> kept s s'.
Proof.
  assert (Hp : forall t t', (panic : M StateDB unit) t = Ok (tt, t') -> kept t t') by done.
  intros Hl. destruct e; cbn [revert_entry]; try (rewrite journalled_eq; by apply change_kept).
  - intros [= <-]. split; try done. intros Ha a o. cbn. rewrite lookup_delete_Some. intros [_ Ho]. by apply Ha.
  - intros [= <-]. by apply put_kept.
  - apply (change_kept account (fun o => setBalance prevbalance (set_suicided prev o)) (mret tt)); [done|].
    by intros t t' [= <-].
  - intros [= <-]. by split.
  - run. destruct (default [] _) as [|x [|y l]]; [done| |]; intros [= <-]; by split.
  - intros [= <-]. by split.
  - by intros [= <-].
Qed.

Lemma revert_steps_kept l s s' : Forall live_entry l -> revert_steps l s = Ok (tt, s') -> kept s s'.
Proof.
  intros Hl. revert s. induction Hl as [|e l He Hl IH]; intros s; cbn [revert_steps]; [by intros [= <-]|].
  unfold revert_step. rewrite bind_Ok. intros ([] & t & Hs & Ht). rewrite bind_Ok in Hs. destruct Hs as ([] & u & Hu & Hs).
  rewrite (revert_entry_kept _ _ _ He Hu), <- (IH _ Ht). destruct (dirtied e); revert Hs; [|by intros [= <-]].
  intros [= <-]. by split.
Qed.

Lemma revert_steps_app l1 l2 s : revert_steps (l1 ++ l2) s = (revert_steps l1;; revert_steps l2) s.
Proof.
  revert s. induction l1 as [|e l IH]; intros s; cbn [app revert_steps]; [done|].
  unfold mbind, M_bind. destruct (revert_step e s) as [[u s1]| |]; [|done..]. apply IH.
Qed.

(** ** Good states *)
Record good (s : StateDB) : Prop := {
  g_found : forall a o, find_object s a = Some o -> so_address o = a /\ length (a_CodeHash (so_data o)) = 32%nat;
  g_absent : absent s;
  g_live : Forall live_entry (sdb_entries s);
  g_logSize : 0 <= sdb_logSize s < 2 ^ 64
}.

(** What was done since [s] can be undone. *)
Record undone (s s' : StateDB) : Prop := {
  un_good : good s';
  un_db : sdb_db s' = sdb_db s;
  un_revert : exists es s0, sdb_entries s' = sdb_entries s ++ es /\ revert_steps (reverse es) s' = Ok (tt, s0) /\ st_equiv s0 s
}.

Lemma good_equiv s s' : good s -> st_equiv s' s -> absent s' -> sdb_entries s' = sdb_entries s -> good s'.
Proof.
  intros [Hf _ Hl Hs] He Ha Hen. split; [|done|by rewrite Hen|by rewrite (se_logSize _ _ He)].
  intros a o Ho. destruct (find_equiv _ _ a He) as [[? _]|(o1 & o2 & H1 & H2 & [])]; [congruence|].
  simplify_eq. rewrite oe_address0, oe_data0. by apply Hf.
Qed.

Lemma undone_equiv s s' : good s -> st_equiv s' s -> absent s' -> sdb_entries s' = sdb_entries s -> undone s s'.
Proof.
  intros Hg He Ha Hen. split; [by eapply good_equiv|apply He|]. exists [], s'. by rewrite app_nil_r.
Qed.

Lemma undone_trans s1 s2 s3 : undone s1 s2 -> undone s2 s3 -> undone s1 s3.
Proof.
  intros [_ D12 (es1 & t1 & E1 & R1 & T1)] [G3 D23 (es2 & t2 & E2 & R2 & T2)]. split; [done|congruence|].
  symmetry in T2. destruct (respects_steps _ _ _ _ T2 R1) as (t3 & R3 & T3).
  exists (es1 ++ es2), t3. rewrite E2, E1, app_assoc, reverse_app, revert_steps_app, (bind_run _ _ _ _ _ R2).
  split_and!; [done..|]. by rewrite <- T3.
Qed.

(** Operations keep the revisions as well. *)
Definition does (s s' : StateDB) : Prop :=
  undone s s' /\ sdb_validRevisions s' = sdb_validRevisions s /\ sdb_nextRevisionId s' = sdb_nextRevisionId s.

Lemma does_trans s1 s2 s3 : does s1 s2 -> does s2 s3 -> does s1 s3.
Proof. intros (U1 & R1 & N1) (U2 & R2 & N2). split_and!; [by eapply undone_trans|congruence..]. Qed.

Lemma looked_does s s' : good s -> looked s s' -> does s s'.
Proof.
  intros Hg Hl. pose proof (looked_kept _ _ Hl) as []. split; [|done]. apply undone_equiv; [done|by apply looked_equiv| |done].
  apply kp_absent0, Hg.
Qed.

Lemma does_refl s : good s -> does s s.
Proof. intros Hg. by apply looked_does, looked_refl. Qed.

(** ** Adding an entry *)
Definition appended (e : journalEntry) (s : StateDB) : StateDB :=
  set_journal (sdb_entries s ++ [e])
    (match dirtied e with Some a => bump_dirty 1 a (sdb_dirties s) | None => sdb_dirties s end) s.

Lemma dirty_count_appended e s x :
  dirty_count (appended e s) x = dirty_count s x + (if decide (dirtied e = Some x) then 1 else 0).
Proof.
  unfold dirty_count, appended. cbn. destruct (dirtied e) as [a|]; [|rewrite decide_False by done; lia].
  unfold bump_dirty. destruct (decide (Some a = Some x)) as [[= ->]|Hn]; [by rewrite lookup_insert_eq|].
  rewrite lookup_insert_ne by congruence. lia.
Qed.

Lemma entry_undone e s s' t :
  good s' -> sdb_db s' = sdb_db s -> sdb_entries s' = sdb_entries s ++ [e] -> revert_entry e s' = Ok (tt, t) ->
  st_equiv t (appended e s) -> undone s s'.
Proof.
  intros Hg Hdb Hen Hr Ht. split; [done..|]. exists [e], (match dirtied e with Some a => undirty a t | None => t end).
  split_and!; [done| |].
  - cbn. unfold revert_step, mbind, M_bind. rewrite Hr. by destruct (dirtied e).
  - assert (Hd : forall x, x <> ripemd -> dirty_count t x = dirty_count (appended e s) x) by apply Ht.
    destruct (dirtied e) as [a|] eqn:Ee; destruct Ht; split; try done; intros x Hx.
    + rewrite dirty_count_undirty, Hd, dirty_count_appended, Ee by done.
      destruct (decide (a = x)) as [->|]; [rewrite decide_True by done; lia|rewrite decide_False by congruence; lia].
    + rewrite Hd, dirty_count_appended, Ee by done. rewrite decide_False by done. lia.
Qed.

(** The states an operation leaves: an object put in place after an entry. *)
Lemma good_put o e s :
  good s -> so_deleted o = false -> length (a_CodeHash (so_data o)) = 32%nat -> live_entry e -> good (put o (appended e s)).
Proof.
  intros [Hf Ha Hl Hs] Ho Hc He. split; [| |apply Forall_app; auto|done].
  - intros a o'. rewrite find_put, Ho. case_decide as Hd; [intros [= <-]; done|]. apply Hf.
  - apply (kp_absent _ _ (put_kept o (appended e s) Ho)). exact Ha.
Qed.

Lemma put_restores o' o o2 t s :
  obj_equiv (sdb_db s) o' o -> find_object s (so_address o) = Some o -> sdb_db t = sdb_db s ->
  (forall a, a <> so_address o -> find_object t a = find_object s a) -> st_equiv t (put o2 s) -> st_equiv (put o' t) s.
Proof.
  intros He Hs Hdb Ho [? ? Hf ? ? ? ? ? ?]. split; try done. intros a. rewrite find_put. destruct He. cbn. rewrite Hdb.
  rewrite oe_address0, oe_deleted0. case_decide as Hd.
  - subst a. rewrite (found_live _ _ _ Hs), Hs. constructor. by split.
  - rewrite Ho by done. reflexivity.
Qed.

Lemma object_undone a e f o o2 s :
  good s -> find_object s a = Some o -> so_address o2 = a -> so_deleted o2 = false ->
  length (a_CodeHash (so_data o2)) = 32%nat -> obj_equiv (sdb_db s) (f o2) o -> live_entry e ->
  (forall t t', getStateObject a t = Ok (Some o2, t') -> revert_entry e t = Ok (tt, put (f o2) t')) ->
  does s (put o2 (appended e s)).
Proof.
  intros Hg Ho Ha Hd Hc Hf Hl He. split; [|done].
  destruct (getStateObject_run a (put o2 (appended e s))) as (t & Et & Lt).
  rewrite find_put, Ha, decide_True, Hd in Et by done.
  apply (entry_undone e _ _ (put (f o2) t)); [by apply good_put|done|done| |].
  - by apply He.
  - destruct (g_found _ Hg a o Ho) as [Hoa _]. pose proof Lt as [Hfind _ (m & er & Em)].
    apply (put_restores (f o2) o o2); [done|by rewrite Hoa|by rewrite Em| |by apply looked_equiv].
    intros x Hx. rewrite Hfind, find_put, decide_False by congruence. done.
Qed.

(** *** Creating *)
Definition creation (s : StateDB) (a : Address) : journalEntry :=
  match find_object s a with None => createObjectChange a | Some p => resetObjectChange p end.

Lemma not_found_absent s a : good s -> find_object s a = None -> (load_account (sdb_trie s) a).1 = None.
Proof.
  intros Hg. unfold find_object. destruct (sdb_objects s !! a) as [o|] eqn:Eo.
  - destruct (so_deleted o) eqn:Ed; [|done]. intros _. by apply (g_absent _ Hg a o).
  - by destruct (load_account (sdb_trie s) a) as [[?|] ?].
Qed.

Lemma create_does s a n :
  good s -> so_address n = a -> so_deleted n = false -> length (a_CodeHash (so_data n)) = 32%nat ->
  does s (put n (appended (creation s a) s)).
Proof.
  intros Hg Ha Hd Hc. unfold creation. split; [|done]. destruct (find_object s a) as [p|] eqn:Ep.
  - pose proof (found_live _ _ _ Ep) as Hp. destruct (g_found _ Hg a p Ep) as [Hpa _].
    eapply (entry_undone (resetObjectChange p)); [by apply good_put|done|done|done|].
    apply (put_restores p p n); [reflexivity|by rewrite Hpa|done| |reflexivity].
    intros x Hx. rewrite find_put, decide_False by congruence. done.
  - eapply (entry_undone (createObjectChange a)); [by apply good_put|done|done|done|].
    split; try done. intros x. unfold find_object at 1. cbn. destruct (decide (a = x)) as [<-|Hx].
    + rewrite Ha, lookup_delete_eq, (not_found_absent s a) by done.
      change (find_object (appended _ s) a) with (find_object s a). rewrite Ep. constructor.
    + rewrite Ha, lookup_delete_ne, lookup_insert_ne by done. reflexivity.
Qed.

Lemma put_put o1 o2 s : so_address o1 = so_address o2 -> put o2 (put o1 s) = put o2 s.
Proof. intros Ha. unfold put, set_objects. cbn. by rewrite Ha, insert_insert_eq. Qed.

Lemma createObject_run a opts s :
  good s ->
  exists n t, createObject a opts s = Ok ((n, find_object s a), put n (appended (creation t a) t)) /\ does s t /\
              find_object t a = find_object s a /\ so_address n = a /\ so_deleted n = false /\
              length (a_CodeHash (so_data n)) = 32%nat.
Proof.
  intros Hg. destruct (getStateObject_run a s) as (t & Et & Lt). pose proof (lk_find _ _ Lt a) as Hf.
  eexists _, t. split.
  - unfold createObject. rewrite (bind_run _ _ _ _ _ Et). unfold creation. rewrite Hf. run. by destruct (find_object s a).
  - split_and!; [by apply looked_does|done..|]. destruct opts as [[owner provider]|]; apply bytes_of_length.
Qed.

Lemma GetOrNewStateObject_run a s :
  good s -> exists o t, GetOrNewStateObject a s = Ok (o, t) /\ does s t /\ find_object t a = Some o.
Proof.
  intros Hg. destruct (getStateObject_run a s) as (t & Et & Lt). pose proof (lk_find _ _ Lt a) as Hf.
  pose proof (looked_does _ _ Hg Lt) as Ht. unfold GetOrNewStateObject. rewrite (bind_run _ _ _ _ _ Et).
  destruct (find_object s a) as [o|]; [by exists o, t|].
  destruct (createObject_run a None t (un_good _ _ (proj1 Ht))) as (n & u & Eu & Du & Fu & Ha & Hd & Hc).
  exists n, (put n (appended (creation u a) u)). rewrite (bind_run _ _ _ _ _ Eu). split_and!; [done| |].
  - eapply does_trans; [exact Ht|]. eapply does_trans; [exact Du|]. by apply create_does, Hc; [apply Du|..].
  - rewrite find_put, decide_True, Hd by done. done.
Qed.

Lemma CreateAccount_does a opts s s' : good s -> CreateAccount a opts s = Ok (tt, s') -> does s s'.
Proof.
  intros Hg. destruct (createObject_run a opts s Hg) as (n & u & Eu & Du & Fu & Ha & Hd & Hc).
  unfold CreateAccount. rewrite (bind_run _ _ _ _ _ Eu). assert (Hu : good u) by apply Du.
  destruct (find_object s a) as [p|].
  - intros [= <-]. eapply does_trans; [exact Du|].
    change (does u (put (setBalance (a_Balance (so_data p)) n) (put n (appended (creation u a) u)))).
    rewrite put_put by done. by apply create_does.
  - intros [= <-]. eapply does_trans; [exact Du|]. by apply create_does.
Qed.

(** *** Changing an object *)
Lemma journalled_run a f o t t' : getStateObject a t = Ok (Some o, t') -> journalled a f t = Ok (tt, put (f o) t').
Proof. intros E. rewrite journalled_eq, (bind_run _ _ _ _ _ E). done. Qed.

Lemma setBalance_back z o : setBalance (a_Balance (so_data o)) (setBalance z o) = o.
Proof. by destruct o as [? [] ? ? ? ? ? ? ? ?]. Qed.

Lemma setNonce_back z o : setNonce (a_Nonce (so_data o)) (setNonce z o) = o.
Proof. by destruct o as [? [] ? ? ? ? ? ? ? ?]. Qed.

Lemma suicide_back b z o :
  setBalance (a_Balance (so_data o)) (set_suicided (so_suicided o) (setBalance z (set_suicided b o))) = o.
Proof. by destruct o as [? [] ? ? ? ? ? ? ? ?]. Qed.

Lemma balance_does a o z s :
  good s -> find_object s a = Some o -> does s (put (setBalance z o) (appended (balanceChange a (a_Balance (so_data o))) s)).
Proof.
  intros Hg Ho. destruct (g_found _ Hg a o Ho) as [Ha Hc].
  apply (object_undone a _ (setBalance (a_Balance (so_data o))) o); try done; [exact (found_live _ _ _ Ho)| |].
  - rewrite setBalance_back. reflexivity.
  - intros t t'. apply journalled_run.
Qed.

Lemma nonce_does a o z s :
  good s -> find_object s a = Some o -> does s (put (setNonce z o) (appended (nonceChange a (a_Nonce (so_data o))) s)).
Proof.
  intros Hg Ho. destruct (g_found _ Hg a o Ho) as [Ha Hc].
  apply (object_undone a _ (setNonce (a_Nonce (so_data o))) o); try done; [exact (found_live _ _ _ Ho)| |].
  - rewrite setNonce_back. reflexivity.
  - intros t t'. apply journalled_run.
Qed.

Lemma suicide_does a o s :
  good s -> find_object s a = Some o ->
  does s (put (setBalance 0 (markSuicided o)) (appended (suicideChange a (so_suicided o) (a_Balance (so_data o))) s)).
Proof.
  intros Hg Ho. destruct (g_found _ Hg a o Ho) as [Ha Hc].
  apply (object_undone a _ (fun x => setBalance (a_Balance (so_data o)) (set_suicided (so_suicided o) x)) o); try done;
    [exact (found_live _ _ _ Ho)| |].
  - unfold markSuicided. rewrite suicide_back. reflexivity.
  - intros t t' E. cbn [revert_entry]. rewrite (bind_run _ _ _ _ _ E). done.
Qed.

Lemma setCode_back db code o o' :
  length (a_CodeHash (so_data o)) = 32%nat -> cached db o' o ->
  obj_equiv db (setCode (BytesToHash (a_CodeHash (so_data o'))) (eff_code db o) (setCode (keccak256 (default [] code)) code o')) o.
Proof.
  intros Hc Hca. transitivity o'; [|by apply cached_equiv]. destruct Hca. rewrite <- ca_data0 in Hc. rewrite <- ca_code0.
  set (o2 := setCode _ _ _).
  assert (Hdata : so_data o2 = so_data o').
  { unfold o2, BytesToHash. cbn [setCode set_dirtyCode set_so_code set_data so_data a_Nonce a_Balance a_Root a_OwnerAddress
      a_ProviderAddresses]. rewrite bytes_of_mk, fit_id by done. by destruct (so_data o'). }
  destruct (same_storage_at db o2 o') as (Ht & Hco & Hst); [repeat split; by rewrite ?Hdata|].
  split; try done. rewrite (eff_code_eq db o2), Hdata. change (addrHash o2) with (addrHash o').
  change (so_code o2) with (eff_code db o').
  rewrite eff_code_eq. destruct (so_code o'); [done|]. case_bool_decide; [done|]. by destruct (db_ContractCode _ _ _).1.
Qed.

Lemma setState_back db key value o o' :
  cached db o' o -> obj_equiv db (setState key (state_at db key o) (setState key value o')) o.
Proof.
  intros Hca. transitivity o'; [|by apply cached_equiv]. pose proof (oe_state _ _ _ (cached_equiv _ _ _ Hca) key) as Hs.
  destruct (setState_at db key value o') as (T1 & C1 & S1).
  destruct (setState_at db key (state_at db key o) (setState key value o')) as (T2 & C2 & S2). split; try congruence; try done.
  - by apply eff_code_ext.
  - intros k. rewrite S2, S1. destruct (decide (key = k)) as [<-|]; congruence.
Qed.

Lemma code_does a o o' code s :
  good s -> find_object s a = Some o -> cached (sdb_db s) o' o ->
  does s (put (setCode (keccak256 (default [] code)) code o')
            (appended (codeChange a (eff_code (sdb_db s) o) (a_CodeHash (so_data o'))) s)).
Proof.
  intros Hg Ho Hca. destruct (g_found _ Hg a o Ho) as [Ha Hc].
  apply (object_undone a _ (setCode (BytesToHash (a_CodeHash (so_data o'))) (eff_code (sdb_db s) o)) o); try done.
  - change (so_address o' = a). rewrite (ca_address _ _ _ Hca). done.
  - change (so_deleted o' = false). rewrite (ca_deleted _ _ _ Hca). exact (found_live _ _ _ Ho).
  - apply bytes_of_length.
  - by apply setCode_back.
  - intros t t'. apply journalled_run.
Qed.

Lemma storage_does a o o' key value s :
  good s -> find_object s a = Some o -> cached (sdb_db s) o' o ->
  does s (put (setState key value o') (appended (storageChange a key (state_at (sdb_db s) key o)) s)).
Proof.
  intros Hg Ho Hca. destruct (g_found _ Hg a o Ho) as [Ha Hc].
  apply (object_undone a _ (setState key (state_at (sdb_db s) key o)) o); try done.
  - change (so_address o' = a). rewrite (ca_address _ _ _ Hca). done.
  - change (so_deleted o' = false). rewrite (ca_deleted _ _ _ Hca). exact (found_live _ _ _ Ho).
  - change (length (a_CodeHash (so_data o')) = 32%nat). by rewrite (ca_data _ _ _ Hca).
  - by apply setState_back.
  - intros t t'. apply journalled_run.
Qed.

(** Keeping the caches of a lookup. *)
Lemma cached_does a o o' s :
  good s -> find_object s a = Some o -> cached (sdb_db s) o' o -> does s (put o' s).
Proof.
  intros Hg Ho Hca. destruct (g_found _ Hg a o Ho) as [Ha _]. pose proof (found_live _ _ _ Ho) as Hd.
  assert (Hd' : so_deleted o' = false) by by rewrite (ca_deleted _ _ _ Hca).
  split; [|done]. apply undone_equiv; [done| |apply (put_kept o' s Hd'), Hg|done].
  split; try done. intros x. rewrite find_put, Hd', (ca_address _ _ _ Hca), Ha. case_decide as Hx; [|reflexivity].
  subst x. rewrite Ho. constructor. by apply cached_equiv.
Qed.

Lemma touch_does a o s s' : good s -> find_object s a = Some o -> touch o s = Ok (tt, s') -> does s s'.
Proof.
  intros Hg Ho. destruct (g_found _ Hg a o Ho) as [Ha _]. unfold touch. run. rewrite Ha.
  assert (Hg' : good (appended (touchChange a) s)).
  { destruct Hg as [Hf Hab Hl Hs]. split; try done. apply Forall_app. by repeat constructor. }
  case_bool_decide as Er; intros [= <-]; (split; [|done]).
  - eapply (entry_undone (touchChange a)); [destruct Hg'; by split|done..|]. split; try done.
    intros x Hx. unfold dirty_count, appended, bump_dirty. cbn. rewrite lookup_insert_ne by congruence. done.
  - by eapply (entry_undone (touchChange a)).
Qed.

Lemma setError_looked e s : looked s (sdb_setError e s).
Proof.
  unfold sdb_setError. destruct (sdb_dbErr s); [apply looked_refl|]. split; try done.
  exists (sdb_objects s), e. by destruct s.
Qed.

(** ** The operations *)
Lemma after_object {A} a (k : stateObject -> M StateDB A) s v s' :
  good s -> (forall o t, good t -> find_object t a = Some o -> k o t = Ok (v, s') -> does t s') ->
  (o ← GetOrNewStateObject a; k o) s = Ok (v, s') -> does s s'.
Proof.
  intros Hg Hk. destruct (GetOrNewStateObject_run a s Hg) as (o & t & E & Ht & Ho). rewrite (bind_run _ _ _ _ _ E).
  intros Hs. eapply does_trans; [exact Ht|]. eapply Hk; [apply Ht|done..].
Qed.

Lemma SetBalance_does a z s s' : good s -> SetBalance a z s = Ok (tt, s') -> does s s'.
Proof.
  intros Hg. apply after_object; [done|]. intros o t Ht Ho. destruct (g_found _ Ht a o Ho) as [Ha _]. rewrite Ha.
  intros [= <-]. by apply balance_does.
Qed.

Lemma AddBalance_does a z s s' : good s -> AddBalance a z s = Ok (tt, s') -> does s s'.
Proof.
  intros Hg. apply after_object; [done|]. intros o t Ht Ho. destruct (g_found _ Ht a o Ho) as [Ha _]. rewrite Ha.
  destruct (z =? 0); [|intros [= <-]; by apply balance_does]. unfold when. destruct (so_empty o).
  - by apply (touch_does a).
  - intros [= <-]. by apply does_refl.
Qed.

Lemma SubBalance_does a z s s' : good s -> SubBalance a z s = Ok (tt, s') -> does s s'.
Proof.
  intros Hg. apply after_object; [done|]. intros o t Ht Ho. destruct (g_found _ Ht a o Ho) as [Ha _]. rewrite Ha.
  destruct (z =? 0); intros [= <-]; [by apply does_refl|by apply balance_does].
Qed.

Lemma SetNonce_does a z s s' : good s -> SetNonce a z s = Ok (tt, s') -> does s s'.
Proof.
  intros Hg. apply after_object; [done|]. intros o t Ht Ho. destruct (g_found _ Ht a o Ho) as [Ha _]. rewrite Ha.
  intros [= <-]. by apply nonce_does.
Qed.

Lemma SetCode_does a code s s' : good s -> SetCode a code s = Ok (tt, s') -> does s s'.
Proof.
  intros Hg. apply after_object; [done|]. intros o t Ht Ho. destruct (g_found _ Ht a o Ho) as [Ha _]. run.
  pose proof (Code_cached (sdb_db t) o) as Hca. pose proof (eq_refl (eff_code (sdb_db t) o)) as Hc. unfold eff_code at 1 in Hc.
  destruct (Code (sdb_db t) o) as [prevcode o']. cbn [fst snd] in *. subst prevcode.
  rewrite (ca_address _ _ _ Hca), Ha. intros [= <-]. by apply (code_does a o o').
Qed.

Lemma SetState_does a key value s s' : good s -> SetState a key value s = Ok (tt, s') -> does s s'.
Proof.
  intros Hg. apply after_object; [done|]. intros o t Ht Ho. destruct (g_found _ Ht a o Ho) as [Ha _]. run.
  pose proof (GetState_cached (sdb_db t) key o) as Hca. pose proof (eq_refl (state_at (sdb_db t) key o)) as Hc.
  unfold state_at at 1 in Hc. destruct (GetState (sdb_db t) key o) as [prev o']. cbn [fst snd] in *. subst prev.
  rewrite (ca_address _ _ _ Hca), Ha. case_bool_decide; intros [= <-]; [by apply (cached_does a o)|by apply (storage_does a o o')].
Qed.

Lemma Suicide_does a b s s' : good s -> Suicide a s = Ok (b, s') -> does s s'.
Proof.
  intros Hg. unfold Suicide. destruct (getStateObject_run a s) as (t & E & L). rewrite (bind_run _ _ _ _ _ E).
  pose proof (looked_does _ _ Hg L) as Ht. pose proof (lk_find _ _ L a) as Hf. destruct (find_object s a) as [o|].
  - intros [= <- <-]. eapply does_trans; [exact Ht|]. apply suicide_does; [apply Ht|done].
  - by intros [= <- <-].
Qed.

Lemma on_object_does {A} a (d : A) f s v s' :
  (forall db o, cached db (f db o).2 o) -> good s -> on_object a d f s = Ok (v, s') -> does s s'.
Proof.
  intros Hf Hg. unfold on_object. destruct (getStateObject_run a s) as (t & E & L). rewrite (bind_run _ _ _ _ _ E).
  pose proof (looked_does _ _ Hg L) as Ht. pose proof (lk_find _ _ L a) as Hfo. destruct (find_object s a) as [o|].
  - run. pose proof (Hf (sdb_db t) o) as Hca. destruct (f (sdb_db t) o) as [x o']. intros [= <- <-].
    eapply does_trans; [exact Ht|]. apply (cached_does a o); [apply Ht|done..].
  - by intros [= <- <-].
Qed.

Lemma field_cached {A} (g : stateObject -> A) db o : cached db (field g db o).2 o.
Proof. split; try done. intros k. by left. Qed.

Lemma GetCodeSize_does a s v s' : good s -> GetCodeSize a s = Ok (v, s') -> does s s'.
Proof.
  intros Hg. unfold GetCodeSize. destruct (getStateObject_run a s) as (t & E & L). rewrite (bind_run _ _ _ _ _ E).
  pose proof (looked_does _ _ Hg L) as Ht. destruct (find_object s a) as [o|]; [|by intros [= <- <-]].
  destruct (so_code o); [by intros [= <- <-]|]. run. destruct (db_ContractCodeSize _ _ _) as [size err].
  destruct (bool_decide (is_Some err)); intros [= <- <-]; [|done].
  eapply does_trans; [exact Ht|]. apply looked_does; [apply Ht|apply setError_looked].
Qed.

(** Entries that do not concern an account. *)
Lemma good_plain e s s' :
  good s -> live_entry e -> sdb_objects s' = sdb_objects s -> sdb_trie s' = sdb_trie s ->
  sdb_entries s' = sdb_entries s ++ [e] -> 0 <= sdb_logSize s' < 2 ^ 64 -> good s'.
Proof.
  intros [Hf Ha Hl Hs] He Ho Ht Hen Hsz. split; [| |rewrite Hen; apply Forall_app; auto|done].
  - intros a o. unfold find_object. rewrite Ho, Ht. apply Hf.
  - unfold absent. rewrite Ho, Ht. exact Ha.
Qed.

Lemma AddLog_does log s s' : good s -> AddLog log s = Ok (tt, s') -> does s s'.
Proof.
  intros Hg. unfold AddLog. run. intros [= <-]. split; [|done]. cbn [sdb_thash sdb_logs sdb_logSize set_journal].
  set (x := MkLog _ _ _ _ _ _ _ _ _). set (old := default [] (sdb_logs s !! sdb_thash s)).
  pose proof (g_logSize _ Hg) as Hsz.
  assert (Hu : uint64 (uint64 (sdb_logSize s + 1) - 1) = sdb_logSize s).
  { unfold uint64. rewrite Zminus_mod_idemp_l. replace (sdb_logSize s + 1 - 1) with (sdb_logSize s) by lia.
    by apply Z.mod_small. }
  set (s' := set_logs _ _ _).
  assert (Hrev : exists m, revert_entry (addLogChange (sdb_thash s)) s' = Ok (tt, set_logs m (sdb_logSize s) s') /\
                   forall h, default [] (m !! h) = default [] (sdb_logs s !! h)).
  { cbn [revert_entry]. run. unfold s'. cbn [sdb_logs sdb_logSize set_logs]. rewrite lookup_insert_eq, Hu. cbn [default].
    destruct old as [|y l] eqn:Eo; cbn [app].
    - eexists. split; [done|]. intros h. destruct (decide (sdb_thash s = h)) as [<-|].
      + rewrite lookup_delete_eq. fold old. by rewrite Eo.
      + by rewrite lookup_delete_ne, lookup_insert_ne.
    - destruct (l ++ [x]) as [|z r] eqn:El; [by destruct l|]. eexists. split; [done|]. intros h.
      destruct (decide (sdb_thash s = h)) as [<-|].
      + rewrite lookup_insert_eq. fold old. rewrite Eo, <- El. exact (removelast_last (y :: l) x).
      + by rewrite !lookup_insert_ne. }
  destruct Hrev as (m & Hr & Hm). eapply (entry_undone (addLogChange (sdb_thash s)) _ _ _); [|done|done|exact Hr|].
  - apply (good_plain (addLogChange (sdb_thash s)) s); try done. unfold s'. cbn. unfold uint64. apply Z.mod_pos_bound. lia.
  - by split.
Qed.

Lemma AddPreimage_does h p s s' : good s -> AddPreimage h p s = Ok (tt, s') -> does s s'.
Proof.
  intros Hg. unfold AddPreimage. run. destruct (sdb_preimages s !! h) eqn:Eh; intros [= <-]; [by apply does_refl|].
  split; [|done]. eapply (entry_undone (addPreimageChange h)); [|done|done|done|].
  - by apply (good_plain (addPreimageChange h) s); [..|apply Hg].
  - split; try done. cbn. by rewrite delete_insert_id.
Qed.

Lemma refund_does z s : good s -> does s (set_refund z (appended (refundChange (sdb_refund s)) s)).
Proof.
  intros Hg. split; [|done]. eapply (entry_undone (refundChange (sdb_refund s))); [|done|done|done|by split].
  by apply (good_plain (refundChange (sdb_refund s)) s); [..|apply Hg].
Qed.

Lemma AddRefund_does gas s s' : good s -> AddRefund gas s = Ok (tt, s') -> does s s'.
Proof. intros Hg. unfold AddRefund. run. intros [= <-]. by apply refund_does. Qed.

Lemma SubRefund_does gas s s' : good s -> SubRefund gas s = Ok (tt, s') -> does s s'.
Proof.
  intros Hg. unfold SubRefund. run. destruct (sdb_refund s <? gas); [done|]. intros [= <-]. by apply refund_does.
Qed.

(** ** Reverting to a snapshot *)
Definition rev_ids (s : StateDB) : list Z := map fst (sdb_validRevisions s).

Lemma search_revision (revs : list (Z * Z)) R1 i n R2 :
  revs = R1 ++ (i, n) :: R2 -> StronglySorted Z.lt (map fst revs) ->
  sort_Search (length revs) (fun k => match revs !! k with Some r => i <=? r.1 | None => true end) = length R1.
Proof.
  intros -> Hs. set (revs := R1 ++ (i, n) :: R2) in *. set (f := fun k => _).
  assert (Hlt : forall k h r r', (k < h)%nat -> revs !! k = Some r -> revs !! h = Some r' -> r.1 < r'.1).
  { intros k h r r' Hk Hr Hr'.
    by apply (sorted_lookup Z.lt (map fst revs) k h); [..|rewrite list_lookup_fmap, Hr|rewrite list_lookup_fmap, Hr']. }
  assert (Hi : revs !! length R1 = Some (i, n)) by (unfold revs; by rewrite list_lookup_middle).
  assert (Hn : (length R1 < length revs)%nat) by (by apply lookup_lt_is_Some; eexists).
  assert (Hm : forall a b, (a <= b)%nat -> f a = true -> f b = true).
  { intros a b Hab. unfold f. destruct (revs !! b) as [rb|] eqn:Eb; [|done].
    destruct (revs !! a) as [ra|] eqn:Ea; [|apply lookup_ge_None in Ea; apply lookup_lt_Some in Eb; lia].
    destruct (decide (a = b)) as [->|]; [by simplify_eq|]. pose proof (Hlt a b ra rb ltac:(lia) Ea Eb). lia. }
  destruct (sort_Search_spec (length revs) f Hm) as (H1 & H2 & H3). set (r := sort_Search _ _) in *.
  destruct (lt_eq_lt_dec r (length R1)) as [[Hr| ->]|Hr]; [|done|].
  - specialize (H3 ltac:(lia)). unfold f in H3. destruct (revs !! r) as [x|] eqn:Ex; [|apply lookup_ge_None in Ex; lia].
    pose proof (Hlt r (length R1) x (i, n) Hr Ex Hi). cbn in *. lia.
  - specialize (H2 _ Hr). unfold f in H2. rewrite Hi in H2. cbn in H2. lia.
Qed.

Lemma revert_undone s0 s R1 i R2 :
  good s0 -> undone s0 s -> sdb_validRevisions s = R1 ++ (i, Z.of_nat (length (sdb_entries s0))) :: R2 ->
  StronglySorted Z.lt (rev_ids s) ->
  exists s', RevertToSnapshot i s = Ok (tt, s') /\ st_equiv s' s0 /\ sdb_entries s' = sdb_entries s0 /\
             sdb_validRevisions s' = R1 /\ sdb_nextRevisionId s' = sdb_nextRevisionId s /\ undone s0 s'.
Proof.
  intros Hg [Hgs Hdb (es & t & Hen & Hr & Ht)] Hrev Hsort. set (n := length (sdb_entries s0)) in *.
  assert (Hdrop : drop n (sdb_entries s) = es) by (unfold n; by rewrite Hen, drop_app_length).
  assert (Hlive : Forall live_entry (reverse es)).
  { apply Forall_reverse. pose proof (g_live _ Hgs) as Hl. rewrite Hen in Hl. by apply Forall_app in Hl as [_ ?]. }
  pose proof (revert_steps_kept _ _ _ Hlive Hr) as [K1 K2 K3 K4 K5 K6].
  assert (Hl : sdb_validRevisions s !! length R1 = Some (i, Z.of_nat n)) by (rewrite Hrev; by apply list_lookup_middle).
  unfold RevertToSnapshot. run. rewrite (search_revision _ R1 i _ R2 Hrev Hsort), Hl, Z.eqb_refl. cbn [negb].
  unfold journal_revert. run. rewrite Nat2Z.id, Hdrop, Hr. eexists. split; [done|]. cbn.
  rewrite K3, K4, K5, Hrev, take_app_length, Hen. unfold n. rewrite take_app_length.
  assert (He : st_equiv (set_revisions R1 (sdb_nextRevisionId s) (set_journal (sdb_entries s0) (sdb_dirties t) t)) s0).
  { transitivity t; [by split|done]. }
  split_and!; try done. apply undone_equiv; try done. exact (K6 (g_absent _ Hgs)).
Qed.

(** The snapshots taken since [s0], each with the state it was taken in. *)
Inductive stack (s0 : StateDB) : list (Z * Z) -> StateDB -> Prop :=
  | stack_nil : stack s0 [] s0
  | stack_snap revs t s i :
      stack s0 revs t -> good t -> undone t s -> stack s0 (revs ++ [(i, Z.of_nat (length (sdb_entries t)))]) s.

Lemma stack_step s0 revs s s' id : head (map fst revs) = Some id -> stack s0 revs s -> undone s s' -> stack s0 revs s'.
Proof.
  intros Hh Hst Hu. destruct Hst as [|revs t s i Hst Hg Hs]; [done|]. apply stack_snap; [done..|]. by eapply undone_trans.
Qed.

Lemma stack_cut s0 R1 i n R2 s :
  stack s0 (R1 ++ (i, n) :: R2) s ->
  exists t, stack s0 R1 t /\ good t /\ undone t s /\ n = Z.of_nat (length (sdb_entries t)).
Proof.
  revert s. induction R2 as [|[j m] R2 IH] using rev_ind; intros s Hst.
  - inversion Hst as [Hn|revs t ? i' Hst' Hg Hu Hn]; [by destruct R1|]. apply app_inj_tail in Hn as [-> [= -> <-]].
    eauto.
  - change (R1 ++ (i, n) :: R2 ++ [(j, m)]) with (R1 ++ ((i, n) :: R2) ++ [(j, m)]) in Hst. rewrite app_assoc in Hst.
    inversion Hst as [Hn|revs t ? i' Hst' Hg Hu Hn]; [by destruct R1|]. apply app_inj_tail in Hn as [-> [= -> <-]].
    destruct (IH t Hst') as (u & H1 & H2 & H3 & H4). exists u. split_and!; try done. by eapply undone_trans.
Qed.

(** ** Sequences of operations *)
Inductive op : Type :=
  | OCreateAccount (a : Address) (opts : option (option Address * option Address))
  | OSetBalance (a : Address) (amount : Z)
  | OAddBalance (a : Address) (amount : Z)
  | OSubBalance (a : Address) (amount : Z)
  | OSetNonce (a : Address) (nonce : Z)
  | OSetCode (a : Address) (code : option bytes)
  | OSetState (a : Address) (key value : Hash)
  | OSuicide (a : Address)
  | OAddLog (log : Log)
  | OAddPreimage (hash : Hash) (preimage : bytes)
  | OAddRefund (gas : Z)
  | OSubRefund (gas : Z)
  | OExist (a : Address)
  | OEmpty (a : Address)
  | OGetBalance (a : Address)
  | OGetNonce (a : Address)
  | OGetOwner (a : Address)
  | OGetProviders (a : Address)
  | OGetCode (a : Address)
  | OGetCodeSize (a : Address)
  | OGetCodeHash (a : Address)
  | OGetState (a : Address) (key : Hash)
  | OGetCommittedState (a : Address) (key : Hash)
  | OHasSuicided (a : Address)
  | OSnapshot
  | ORevertToSnapshot (revid : Z).

Definition discard {A} (m : M StateDB A) : M StateDB unit := _ ← m; mret tt.

Definition run_op (x : op) : M StateDB unit :=
  match x with
  | OCreateAccount a opts => CreateAccount a opts
  | OSetBalance a z => SetBalance a z
  | OAddBalance a z => AddBalance a z
  | OSubBalance a z => SubBalance a z
  | OSetNonce a z => SetNonce a z
  | OSetCode a code => SetCode a code
  | OSetState a key value => SetState a key value
  | OSuicide a => discard (Suicide a)
  | OAddLog log => AddLog log
  | OAddPreimage h p => AddPreimage h p
  | OAddRefund gas => AddRefund gas
  | OSubRefund gas => SubRefund gas
  | OExist a => discard (Exist a)
  | OEmpty a => discard (Empty_account a)
  | OGetBalance a => discard (GetBalance a)
  | OGetNonce a => discard (GetNonce a)
  | OGetOwner a => discard (GetOwner a)
  | OGetProviders a => discard (GetProviders a)
  | OGetCode a => discard (GetCode a)
  | OGetCodeSize a => discard (GetCodeSize a)
  | OGetCodeHash a => discard (GetCodeHash a)
  | OGetState a key => discard (StateDB_GetState a key)
  | OGetCommittedState a key => discard (StateDB_GetCommittedState a key)
  | OHasSuicided a => discard (HasSuicided a)
  | OSnapshot => discard Snapshot
  | ORevertToSnapshot i => RevertToSnapshot i
  end.

(** The operations that are not about snapshots. *)
Definition plain (x : op) : Prop :=
  match x with OSnapshot | ORevertToSnapshot _ => False | _ => True end.

Lemma discard_does {A} (m : M StateDB A) s s' :
  (forall v t, m s = Ok (v, t) -> does s t) -> discard m s = Ok (tt, s') -> does s s'.
Proof. intros Hm. unfold discard. rewrite bind_Ok. intros (v & t & E & [= <-]). by eapply Hm. Qed.

Lemma run_op_does x s s' : plain x -> good s -> run_op x s = Ok (tt, s') -> does s s'.
Proof.
  intros Hp Hg. destruct x; cbn [run_op]; try done;
    try (apply discard_does; intros v t; apply on_object_does; [|done]; intros db o; apply field_cached).
  - by apply CreateAccount_does.
  - by apply SetBalance_does.
  - by apply AddBalance_does.
  - by apply SubBalance_does.
  - by apply SetNonce_does.
  - by apply SetCode_does.
  - by apply SetState_does.
  - apply discard_does. intros v t. by apply Suicide_does.
  - by apply AddLog_does.
  - by apply AddPreimage_does.
  - by apply AddRefund_does.
  - by apply SubRefund_does.
  - apply discard_does. intros v t. apply on_object_does; [apply Code_cached|done].
  - apply discard_does. intros v t. by apply GetCodeSize_does.
  - apply discard_does. intros v t. apply on_object_does; [|done]. intros db o. apply GetState_cached.
  - apply discard_does. intros v t. apply on_object_does; [|done]. intros db o. apply GetCommittedState_cached.
Qed.

(** The identifiers of the snapshots grow. *)
Definition revisions_ok (s : StateDB) : Prop :=
  StronglySorted Z.lt (rev_ids s) /\ Forall (fun i => i < sdb_nextRevisionId s) (rev_ids s).

(** States reached from a snapshot of [s] as [id]. *)
Definition since (s : StateDB) (id : Z) (s' : StateDB) : Prop :=
  exists rest, sdb_validRevisions s' = sdb_validRevisions s ++ rest /\ head (map fst rest) = Some id /\
    stack s rest s' /\ revisions_ok s' /\ good s'.

Lemma sorted_snoc (l : list Z) x : StronglySorted Z.lt l -> Forall (fun i => i < x) l -> StronglySorted Z.lt (l ++ [x]).
Proof.
  intros Hs Hf. apply StronglySorted_app; split_and!; [|done|by repeat constructor].
  intros x1 x2 H1 H2%list_elem_of_singleton. subst. by eapply Forall_forall in Hf.
Qed.

Lemma snapshot_pushed s id s' :
  good s -> revisions_ok s -> Snapshot s = Ok (id, s') ->
  good s' /\ revisions_ok s' /\ undone s s' /\ id = sdb_nextRevisionId s /\
  sdb_validRevisions s' = sdb_validRevisions s ++ [(id, Z.of_nat (length (sdb_entries s)))].
Proof.
  intros Hg [Hs Hn]. unfold Snapshot. run. intros [= <- <-].
  assert (Hu : undone s (set_revisions (sdb_validRevisions s ++ [(sdb_nextRevisionId s, Z.of_nat (length (sdb_entries s)))])
                           (sdb_nextRevisionId s + 1) s)) by (apply undone_equiv; [done|by split|apply Hg|done]).
  split_and!; try done; [apply Hu|]. unfold revisions_ok, rev_ids. cbn. rewrite map_app. split; [by apply sorted_snoc|].
  apply Forall_app. split; [|apply Forall_singleton; cbn; lia]. eapply Forall_impl; [exact Hn|]. cbn. lia.
Qed.

Lemma revisions_same s s' :
  sdb_validRevisions s' = sdb_validRevisions s -> sdb_nextRevisionId s' = sdb_nextRevisionId s -> revisions_ok s -> revisions_ok s'.
Proof. unfold revisions_ok, rev_ids. by intros -> ->. Qed.

Lemma revert_inv i s s' :
  RevertToSnapshot i s = Ok (tt, s') -> exists R1 n R2, sdb_validRevisions s = R1 ++ (i, n) :: R2.
Proof.
  unfold RevertToSnapshot. run. set (idx := sort_Search _ _). destruct (sdb_validRevisions s !! idx) as [[j n]|] eqn:E; [|done].
  destruct (Z.eqb_spec j i) as [->|]; [|done]. intros _. apply list_elem_of_split_length in E as (R1 & R2 & -> & _).
  eauto.
Qed.

Lemma revisions_prefix s s' R1 R2 :
  revisions_ok s -> sdb_validRevisions s = R1 ++ R2 -> sdb_validRevisions s' = R1 ->
  sdb_nextRevisionId s' = sdb_nextRevisionId s -> revisions_ok s'.
Proof.
  unfold revisions_ok, rev_ids. intros [Hs Hn] Hr -> ->. rewrite Hr, map_app in Hs, Hn.
  split; [by eapply StronglySorted_app_1_l|]. by apply Forall_app in Hn as [? _].
Qed.

(** A later snapshot lies above the base. *)
Lemma later_revision (base rest R1 : list (Z * Z)) R2 id i n :
  StronglySorted Z.lt (map fst (base ++ rest)) -> head (map fst rest) = Some id -> id < i ->
  base ++ rest = R1 ++ (i, n) :: R2 ->
  exists k, R1 = base ++ k /\ rest = k ++ (i, n) :: R2 /\ head (map fst k) = Some id.
Proof.
  intros Hs Hh Hi He. apply app_eq_inv in He as [(k & Hb & Hk)|(k & Hb & Hk)].
  - destruct k as [|[j m] k]; cbn in Hk.
    + subst rest. simplify_eq/=. lia.
    + injection Hk as -> -> Hk. destruct rest as [|[j' m'] rest]; [done|]. injection Hh as ->.
      rewrite map_app in Hs. assert (j < id); [|lia].
      apply (StronglySorted_app_1_elem_of Z.lt (map fst base) (map fst ((id, m') :: rest))); [done| |cbn; set_solver].
      rewrite Hb, map_app. cbn. set_solver.
  - exists k. split_and!; [done..|]. destruct k as [|x k]; [|by rewrite Hk in Hh]. subst rest. simplify_eq/=. lia.
Qed.

Lemma since_does s id s1 s2 : since s id s1 -> does s1 s2 -> since s id s2.
Proof.
  intros (rest & Hr & Hh & Hst & Hok & Hg) (Hu & Hrev & Hnext). exists rest.
  split_and!; [congruence|done|by eapply stack_step|by eapply revisions_same|apply Hu].
Qed.

Lemma since_snapshot s id s1 id' s2 : since s id s1 -> Snapshot s1 = Ok (id', s2) -> since s id s2.
Proof.
  intros (rest & Hr & Hh & Hst & Hok & Hg) Hsn. destruct (snapshot_pushed _ _ _ Hg Hok Hsn) as (Hg2 & Hok2 & Hu & -> & Hr2).
  exists (rest ++ [(sdb_nextRevisionId s1, Z.of_nat (length (sdb_entries s1)))]). split_and!; try done.
  - by rewrite Hr2, Hr, app_assoc.
  - by destruct rest.
  - by apply stack_snap.
Qed.

Lemma since_revert s id s1 i s2 :
  since s id s1 -> id < i -> RevertToSnapshot i s1 = Ok (tt, s2) -> since s id s2.
Proof.
  intros (rest & Hr & Hh & Hst & Hok & Hg) Hi Hs2. destruct (revert_inv _ _ _ Hs2) as (R1 & n & R2 & HR).
  rewrite Hr in HR. pose proof (proj1 Hok) as Hsort. unfold rev_ids in Hsort. rewrite Hr in Hsort.
  destruct (later_revision _ _ _ _ _ _ _ Hsort Hh Hi HR) as (k & -> & -> & Hk).
  destruct (stack_cut _ _ _ _ _ _ Hst) as (t & Ht & Hgt & Hu & ->).
  destruct (revert_undone t s1 (sdb_validRevisions s ++ k) i R2) as (s' & E & He & Hen & Hrev & Hnext & Hu');
    [done|done|by rewrite Hr, app_assoc|apply Hok|].
  rewrite E in Hs2. injection Hs2 as <-. exists k. split_and!; [done|done|by eapply stack_step| |apply Hu'].
  eapply revisions_prefix; [exact Hok| |exact Hrev|exact Hnext]. by rewrite Hr, app_assoc.
Qed.

Lemma since_step s id x s1 s2 :
  since s id s1 -> (forall i, x = ORevertToSnapshot i -> id < i) -> run_op x s1 = Ok (tt, s2) -> since s id s2.
Proof.
  intros Hs Hx. assert (plain x \/ x = OSnapshot \/ exists i, x = ORevertToSnapshot i) as [Hp|[->|(i & ->)]]
    by (destruct x; cbn; eauto).
  - intros Hr. eapply since_does; [done|]. apply (run_op_does x); [done| |done]. by destruct Hs as (? & ? & ? & ? & ? & ?).
  - cbn [run_op]. unfold discard. rewrite bind_Ok. intros (id' & t & E & [= <-]). by eapply since_snapshot.
  - cbn [run_op]. eapply since_revert; [done|]. by apply Hx.
Qed.

Lemma since_steps s id ops s1 s2 :
  since s id s1 -> (forall i, ORevertToSnapshot i ∈ ops -> id < i) -> each run_op ops s1 = Ok (tt, s2) -> since s id s2.
Proof.
  revert s1. induction ops as [|x ops IH]; intros s1 Hs Hx; cbn [each]; [by intros [= <-]|].
  rewrite bind_Ok. intros ([] & t & E & Er). apply (IH t); [|set_solver|done]. eapply since_step; [done| |done].
  intros i ->. apply Hx. set_solver.
Qed.

(** What can be asked of a state. *)
Definition value {A} (m : M StateDB A) (s : StateDB) : option A := match m s with Ok (v, _) => Some v | _ => None end.

Definition view (s : StateDB) (a : Address) (key : Hash) :=
  (value (Exist a) s, value (Empty_account a) s, value (GetBalance a) s, value (GetNonce a) s, value (GetOwner a) s,
   value (GetProviders a) s, value (GetCode a) s, value (GetCodeHash a) s, value (StateDB_GetState a key) s,
   value (StateDB_GetCommittedState a key) s, value (HasSuicided a) s).

Lemma value_on_object {A} a (d : A) f s :
  value (on_object a d f) s = Some (match find_object s a with Some o => (f (sdb_db s) o).1 | None => d end).
Proof.
  unfold value, on_object. destruct (getStateObject_run a s) as (t & E & L). rewrite (bind_run _ _ _ _ _ E).
  destruct (find_object s a) as [o|]; [|done]. run. destruct L as [_ _ (m & e & ->)]. cbn.
  by destruct (f (sdb_db s) o).
Qed.

Lemma equiv_value {A} a (d : A) f s1 s2 :
  (forall db o1 o2, obj_equiv db o1 o2 -> (f db o1).1 = (f db o2).1) -> st_equiv s1 s2 ->
  value (on_object a d f) s1 = value (on_object a d f) s2.
Proof.
  intros Hf Hs. rewrite !value_on_object. destruct (find_equiv _ _ a Hs) as [[-> ->]|(o1 & o2 & -> & -> & Ho)]; [done|].
  rewrite <- (se_db _ _ Hs). by rewrite (Hf _ _ _ Ho).
Qed.

Lemma equiv_view s1 s2 a key : st_equiv s1 s2 -> view s1 a key = view s2 a key.
Proof.
  intros Hs. unfold view, Exist, Empty_account, GetBalance, GetNonce, GetOwner, GetProviders, GetCode, GetCodeHash,
    StateDB_GetState, StateDB_GetCommittedState, HasSuicided.
  repeat apply (f_equal2 pair); apply equiv_value; try done; intros db o1 o2 []; unfold field, so_empty; cbn [fst];
    first [by rewrite oe_data0|exact oe_code0|exact (oe_state0 key)|exact (oe_committed0 key)|done].
Qed.

(** C8: Reverting to a snapshot restores the state it was taken of, whatever was done in
    between: accounts created, emptied, destroyed or changed in balance, nonce, code or
    storage, logs, preimages and refunds, lookups that fill the caches, and further
    snapshots and reverts to them. Every account answers as it did, the refund, the logs
    and the preimages are the old ones, and so are the journal and the valid revisions. *)
Theorem snapshot_revert s id s1 ops s2 :
  good s -> revisions_ok s -> Snapshot s = Ok (id, s1) -> each run_op ops s1 = Ok (tt, s2) ->
  (forall i, ORevertToSnapshot i ∈ ops -> id < i) ->
  exists s3, RevertToSnapshot id s2 = Ok (tt, s3) /\ (forall a key, view s3 a key = view s a key) /\
    sdb_refund s3 = sdb_refund s /\ (forall h, value (GetLogs h) s3 = value (GetLogs h) s) /\
    sdb_logSize s3 = sdb_logSize s /\ sdb_preimages s3 = sdb_preimages s /\
    (forall a, a <> ripemd -> dirty_count s3 a = dirty_count s a) /\
    sdb_entries s3 = sdb_entries s /\ sdb_validRevisions s3 = sdb_validRevisions s /\ good s3.
Proof.
  intros Hg Hok Hsn Hops Hi. destruct (snapshot_pushed _ _ _ Hg Hok Hsn) as (Hg1 & Hok1 & Hu1 & _ & Hr1).
  assert (Hs1 : since s id s1).
  { exists [(id, Z.of_nat (length (sdb_entries s)))]. split_and!; try done. apply (stack_snap s []); [apply stack_nil|done..]. }
  destruct (since_steps _ _ _ _ _ Hs1 Hi Hops) as (rest & Hr & Hh & Hst & Hok2 & Hg2).
  destruct rest as [|[i n] rest]; [done|]. injection Hh as ->.
  destruct (stack_cut s [] id n rest s2 Hst) as (t & Ht & _ & Hu & ->). inversion Ht; [subst t|by destruct revs].
  destruct (revert_undone s s2 _ id rest Hg Hu Hr (proj1 Hok2)) as (s3 & E & He & Hen & Hrev & _ & Hu3).
  exists s3. pose proof He as []. split_and!; try done; [|intros h; unfold value; cbn; by rewrite se_logs0|apply Hu3].
  intros a key. by apply equiv_view.
Qed.
End revert.
