(* ===== verification/StateEffect.v ===== *)
(** * What the virtual machine does to the state

    The operations of [StateDB] as the virtual machine uses them: they return, can be
    undone, keep the balances positive, create no value, and, in a static call, change
    nothing an account answers. *)

From S2P Require Import Prelude Bytes RlpEncode RlpDecode RlpCanonical RlpRaw Types StateDB StateRevert.

(** The number of the block that is processed. *)
Class BlockContext : Type := block_number : Z.

Section effect.
Context `{C : Crypto} {DB : StateDatabase} {BC : BlockContext}.

(** ** States that are in order *)
Definition account_ok (a : Account) : Prop := is_uint64 (a_Nonce a) /\ Z.of_nat (length (a_ProviderAddresses a)) < 2 ^ 32.

Record obj_ok (db : database) (o : stateObject) : Prop := {
  ok_account : account_ok (so_data o);
  ok_balance : 0 <= a_Balance (so_data o);
  ok_code : forall c, eff_code db o = Some c ->
              Z.of_nat (length c) < 2 ^ 63 /\ keccak256 c = BytesToHash (a_CodeHash (so_data o))
}.

Definition logs_of (s : StateDB) (h : Hash) : list Log := default [] (sdb_logs s !! h).
Definition tx_logs (s : StateDB) : list Log := logs_of s (sdb_thash s).

(** The logs of a transaction are numbered, and tell where they are from. *)
Definition logged (s : StateDB) : Prop :=
  forall j l, tx_logs s !! j = Some l ->
    (l_BlockNumber l, l_TxHash l, l_TxIndex l, l_BlockHash l, l_Index l, l_Removed l) =
    (block_number, sdb_thash s, uint64 (sdb_txIndex s), sdb_bhash s,
     uint64 (sdb_logSize s - Z.of_nat (length (tx_logs s)) + Z.of_nat j), false).

Record state_ok (s : StateDB) : Prop := {
  ok_good : good s;
  ok_revisions : revisions_ok s;
  ok_objects : forall a o, find_object s a = Some o -> obj_ok (sdb_db s) o;
  ok_refund : 0 <= sdb_refund s;
  ok_logs : logged s
}.

Definition balance_of (s : StateDB) (a : Address) : Z :=
  match find_object s a with Some o => a_Balance (so_data o) | None => 0 end.

(** The balances of the accounts of a set. *)
Definition total (X : gset Address) (s : StateDB) : Z := foldr Z.add 0 (balance_of s <$> elements X).

(** Once the accounts concerned are counted, there is no more than before. *)
Definition creates_nothing (s s' : StateDB) : Prop :=
  exists L : gset Address, forall X, L ⊆ X -> total X s' <= total X s.

(** ** States that answer the same but for new empty accounts *)
Definition blank (o : stateObject) : Prop :=
  a_Nonce (so_data o) = 0 /\ a_Balance (so_data o) = 0 /\ a_CodeHash (so_data o) = emptyCodeHash /\ so_suicided o = false.

Record quiet (s s' : StateDB) : Prop := {
  qu_found : forall a o, find_object s a = Some o -> exists o', find_object s' a = Some o' /\ obj_equiv (sdb_db s) o' o;
  qu_new : forall a o', find_object s a = None -> find_object s' a = Some o' -> blank o';
  qu_refund : sdb_refund s' = sdb_refund s;
  qu_logs : forall h, default [] (sdb_logs s' !! h) = default [] (sdb_logs s !! h);
  qu_logSize : sdb_logSize s' = sdb_logSize s
}.

(** ** Effects *)
(** A transaction adds logs of its own, and writes nothing to the trie of accounts. *)
Record tx_effect (s s' : StateDB) : Prop := {
  le_tx : (sdb_thash s', sdb_bhash s', sdb_txIndex s') = (sdb_thash s, sdb_bhash s, sdb_txIndex s);
  le_other : forall h, h <> sdb_thash s -> logs_of s' h = logs_of s h;
  le_base : uint64 (sdb_logSize s' - Z.of_nat (length (tx_logs s'))) = uint64 (sdb_logSize s - Z.of_nat (length (tx_logs s)));
  le_trie : sdb_trie s' = sdb_trie s
}.

Record effect (ro : bool) (s s' : StateDB) : Prop := {
  ef_undone : undone s s';
  ef_revisions : exists rest, sdb_validRevisions s' = sdb_validRevisions s ++ rest;
  ef_next : sdb_nextRevisionId s <= sdb_nextRevisionId s';
  ef_worth : creates_nothing s s';
  ef_logs : tx_effect s s';
  ef_quiet : ro = true -> quiet s s'
}.

(** A step from a state in order to another. *)
Definition steps (ro : bool) (s s' : StateDB) : Prop := state_ok s' /\ effect ro s s'.

Lemma blank_equiv db o o' : obj_equiv db o' o -> blank o -> blank o'.
Proof. intros [_ Hd Hs _ _ _ _ _] (H1 & H2 & H3 & H4). unfold blank. by rewrite Hd, Hs. Qed.

Lemma quiet_trans s1 s2 s3 : sdb_db s2 = sdb_db s1 -> quiet s1 s2 -> quiet s2 s3 -> quiet s1 s3.
Proof.
  intros Hdb [F1 N1 R1 L1 S1] [F2 N2 R2 L2 S2]. split; [| |congruence..].
  - intros a o Ho. destruct (F1 a o Ho) as (o1 & H1 & E1). destruct (F2 a o1 H1) as (o2 & H2 & E2).
    exists o2. split; [done|]. rewrite Hdb in E2. by transitivity o1.
  - intros a o' Hn Ho'. destruct (find_object s2 a) as [o1|] eqn:E1; [|by eapply N2].
    destruct (F2 a o1 E1) as (o2 & H2 & E2). simplify_eq. eapply blank_equiv; [exact E2|]. by eapply N1.
Qed.

Lemma creates_nothing_trans s1 s2 s3 : creates_nothing s1 s2 -> creates_nothing s2 s3 -> creates_nothing s1 s3.
Proof.
  intros (L1 & H1) (L2 & H2). exists (L1 ∪ L2). intros X HX. specialize (H1 X ltac:(set_solver)).
  specialize (H2 X ltac:(set_solver)). lia.
Qed.

Lemma tx_effect_trans s1 s2 s3 : tx_effect s1 s2 -> tx_effect s2 s3 -> tx_effect s1 s3.
Proof.
  intros [T1 O1 B1 E1] [T2 O2 B2 E2]. split; [congruence| |congruence..].
  intros h Hh. rewrite O2, O1; [done|done|]. congruence.
Qed.

Lemma tx_effect_same s s' :
  (sdb_thash s', sdb_bhash s', sdb_txIndex s') = (sdb_thash s, sdb_bhash s, sdb_txIndex s) ->
  (forall h, logs_of s' h = logs_of s h) -> sdb_logSize s' = sdb_logSize s ->
  sdb_trie s' = sdb_trie s -> tx_effect s s' /\ (logged s -> logged s').
Proof.
  intros Ht Hl Hs He. assert (Htx : tx_logs s' = tx_logs s) by (unfold tx_logs; rewrite Hl; congruence).
  injection Ht as H1 H2 H3. split; [split; [congruence|done|by rewrite Htx, Hs|done]|]. unfold logged. by rewrite Htx, H1, H2, H3, Hs.
Qed.

Lemma tx_effect_equiv s s' : st_equiv s' s -> tx_effect s s' /\ (logged s -> logged s').
Proof. intros He. apply tx_effect_same; apply He. Qed.

Lemma effect_trans ro s1 s2 s3 : effect ro s1 s2 -> effect ro s2 s3 -> effect ro s1 s3.
Proof.
  intros [U1 (r1 & R1) N1 W1 L1 Q1] [U2 (r2 & R2) N2 W2 L2 Q2]. split.
  - by eapply undone_trans.
  - exists (r1 ++ r2). by rewrite R2, R1, app_assoc.
  - lia.
  - by eapply creates_nothing_trans.
  - by eapply tx_effect_trans.
  - intros Hr. eapply quiet_trans; [apply U1|by apply Q1|by apply Q2].
Qed.

Lemma steps_trans ro s1 s2 s3 : steps ro s1 s2 -> steps ro s2 s3 -> steps ro s1 s3.
Proof. intros [_ E1] [K2 E2]. split; [done|]. by eapply effect_trans. Qed.

Lemma steps_weaken ro s s' : steps true s s' -> steps ro s s'.
Proof. intros [K [U R Nx W L Q]]. split; [done|]. split; try done. intros _. by apply Q. Qed.

(** ** Sums of balances *)
Lemma total_same X s s' : (forall a, a ∈ X -> balance_of s' a = balance_of s a) -> total X s' = total X s.
Proof.
  intros H. unfold total. f_equal. apply list_fmap_ext. intros i a Hi. apply H, elem_of_elements.
  by eapply list_elem_of_lookup_2.
Qed.

Lemma total_split X a s : a ∈ X -> total X s = balance_of s a + total (X ∖ {[a]}) s.
Proof.
  intros Ha. unfold total. assert (Hp : elements X ≡ₚ a :: elements (X ∖ {[a]})).
  { rewrite (union_difference_L {[a]} X) at 1 by set_solver. rewrite elements_disj_union by set_solver.
    by rewrite elements_singleton. }
  apply (fmap_Permutation (balance_of s)) in Hp. revert Hp. generalize (balance_of s <$> elements X). intros l Hp.
  transitivity (foldr Z.add 0 (balance_of s <$> a :: elements (X ∖ {[a]}))); [|done].
  apply (foldr_permutation_proper (=) Z.add 0); [..|done]. intros; lia.
Qed.

Lemma total_one X a s s' :
  a ∈ X -> (forall b, b <> a -> balance_of s' b = balance_of s b) ->
  total X s' = total X s + (balance_of s' a - balance_of s a).
Proof.
  intros Ha H. rewrite (total_split X a s), (total_split X a s') by done.
  rewrite (total_same (X ∖ {[a]}) s s') by (intros b Hb; apply H; set_solver). lia.
Qed.

(** ** States with the same answers *)
Lemma equiv_found s s' a o :
  st_equiv s' s -> find_object s' a = Some o -> exists o', find_object s a = Some o' /\ obj_equiv (sdb_db s) o o'.
Proof.
  intros He Ho. destruct (find_equiv _ _ a He) as [[H1 H2]|(o1 & o2 & H1 & H2 & H3)]; [congruence|].
  simplify_eq. exists o2. split; [done|]. by rewrite <- (se_db _ _ He).
Qed.

Lemma obj_ok_equiv db o o' : obj_equiv db o o' -> obj_ok db o' -> obj_ok db o.
Proof. intros [_ Hd _ _ _ He _ _] [Ha Hb Hc]. split; rewrite Hd; [done..|]. intros c. rewrite He. apply Hc. Qed.

Lemma equiv_objects s s' :
  st_equiv s' s -> (forall a o, find_object s a = Some o -> obj_ok (sdb_db s) o) ->
  forall a o, find_object s' a = Some o -> obj_ok (sdb_db s') o.
Proof.
  intros He Hok a o Ho. destruct (equiv_found _ _ _ _ He Ho) as (o' & Ho' & Heq). rewrite (se_db _ _ He).
  eapply obj_ok_equiv; [exact Heq|by eapply Hok].
Qed.

Lemma equiv_balance s s' a : st_equiv s' s -> balance_of s' a = balance_of s a.
Proof.
  intros He. unfold balance_of. destruct (find_equiv _ _ a He) as [[-> ->]|(o1 & o2 & -> & -> & [_ Hd _ _ _ _ _ _])]; [done|].
  by rewrite Hd.
Qed.

Lemma equiv_quiet s s' : st_equiv s' s -> quiet s s'.
Proof.
  intros He. split; [| |apply He..].
  - intros a o Ho. symmetry in He. destruct (equiv_found _ _ _ _ He Ho) as (o' & Ho' & Heq). exists o'. split; [done|].
    rewrite (se_db _ _ He). by symmetry.
  - intros a o' Hn Ho'. destruct (equiv_found _ _ _ _ He Ho') as (o & Ho & _). congruence.
Qed.

Lemma equiv_effect ro s s' :
  undone s s' -> (exists rest, sdb_validRevisions s' = sdb_validRevisions s ++ rest) ->
  sdb_nextRevisionId s <= sdb_nextRevisionId s' -> st_equiv s' s -> effect ro s s'.
Proof.
  intros Hu Hr Hn He. split; try done.
  - exists ∅. intros X _. rewrite (total_same X s s'); [done|]. intros a _. by apply equiv_balance.
  - by apply tx_effect_equiv.
  - intros _. by apply equiv_quiet.
Qed.

Lemma same_steps ro s s' : state_ok s -> does s s' -> st_equiv s' s -> steps ro s s'.
Proof.
  intros [Hg Hr Ho Hf Hl] (Hu & Hrev & Hn) He. split.
  - split; [apply Hu|by eapply revisions_same|by eapply equiv_objects|by rewrite (se_refund _ _ He)|by apply (tx_effect_equiv _ _ He)].
  - apply equiv_effect; [done| |by rewrite Hn|done]. exists []. by rewrite app_nil_r.
Qed.

Lemma steps_refl ro s : state_ok s -> steps ro s s.
Proof. intros Hs. apply same_steps; [done|by apply does_refl, Hs|done]. Qed.

(** ** Lookups *)
Definition code_of (s : StateDB) (a : Address) : option bytes :=
  match find_object s a with Some o => eff_code (sdb_db s) o | None => None end.
Definition code_hash_of (s : StateDB) (a : Address) : Hash :=
  match find_object s a with Some o => BytesToHash (a_CodeHash (so_data o)) | None => zeroHash end.
Definition exists_in (s : StateDB) (a : Address) : bool :=
  match find_object s a with Some _ => true | None => false end.

(** A lookup returns, and leaves a state that answers the same. *)
Definition looks (ro : bool) {A} (P : A -> Prop) (s : StateDB) : A -> StateDB -> Prop :=
  fun v s' => P v /\ steps ro s s' /\ st_equiv s' s.

Lemma looked_steps ro s s' : state_ok s -> looked s s' -> steps ro s s'.
Proof. intros Hs Hl. apply same_steps; [done|by apply looked_does; [apply Hs|]|by apply looked_equiv]. Qed.

Lemma on_object_looks ro {A} a (d : A) f s :
  (forall db o, cached db (f db o).2 o) -> state_ok s ->
  twp (on_object a d f)
    (looks ro (fun v => v = match find_object s a with Some o => (f (sdb_db s) o).1 | None => d end) s) s.
Proof.
  intros Hf Hs. unfold on_object. destruct (getStateObject_run a s) as (t & E & L).
  pose proof (looked_steps ro _ _ Hs L) as Ht. pose proof (looked_equiv _ _ L) as Et.
  apply twp_bind. exists (find_object s a), t. split; [done|]. pose proof (lk_find _ _ L a) as Hfo.
  destruct (find_object s a) as [o|]; [|by apply twp_ret].
  apply twp_bind, twp_get. assert (Hdb : sdb_db t = sdb_db s) by apply Et. rewrite Hdb.
  pose proof (Hf (sdb_db s) o) as Hca. destruct (f (sdb_db s) o) as [x o']. cbn [fst snd] in *.
  exists x, (put o' t). split; [done|]. assert (Hok : state_ok t) by apply Ht.
  assert (Hput : st_equiv (put o' t) t).
  { destruct (g_found _ (ok_good _ Hok) a o Hfo) as [Ha _]. pose proof (found_live _ _ _ Hfo) as Hd.
    split; try done. intros y. rewrite find_put, (ca_deleted _ _ _ Hca), Hd, (ca_address _ _ _ Hca), Ha.
    case_decide as Hy; [|reflexivity]. subst y. rewrite Hfo. constructor. apply cached_equiv. change (sdb_db (put o' t)) with (sdb_db t).
    by rewrite Hdb. }
  split_and!; [done| |by transitivity t]. eapply steps_trans; [exact Ht|]. apply same_steps; [done| |done].
  apply (cached_does a o); [apply Hok|done|by rewrite Hdb].
Qed.

Lemma GetBalance_looks ro a s : state_ok s -> twp (GetBalance a) (looks ro (fun v => v = balance_of s a) s) s.
Proof. intros Hs. apply on_object_looks; [|done]. intros; apply field_cached. Qed.

Lemma Exist_looks ro a s : state_ok s -> twp (Exist a) (looks ro (fun v => v = exists_in s a) s) s.
Proof. intros Hs. apply on_object_looks; [|done]. intros; apply field_cached. Qed.

Lemma GetCodeHash_looks ro a s : state_ok s -> twp (GetCodeHash a) (looks ro (fun v => v = code_hash_of s a) s) s.
Proof. intros Hs. apply on_object_looks; [|done]. intros; apply field_cached. Qed.

Lemma GetCode_looks ro a s : state_ok s -> twp (GetCode a) (looks ro (fun v => v = code_of s a) s) s.
Proof. intros Hs. apply on_object_looks; [|done]. apply Code_cached. Qed.

(** Lookups whose result does not matter. *)
Lemma on_object_looks_any ro {A} a (d : A) f s :
  (forall db o, cached db (f db o).2 o) -> state_ok s -> twp (on_object a d f) (looks ro (fun _ => True) s) s.
Proof. intros Hf Hs. eapply twp_mono; [by apply (on_object_looks ro)|]. by intros v s' (_ & H). Qed.

Lemma Empty_looks ro a s : state_ok s -> twp (Empty_account a) (looks ro (fun _ => True) s) s.
Proof. apply on_object_looks_any. intros; apply field_cached. Qed.

Lemma GetNonce_looks ro a s : state_ok s -> twp (GetNonce a) (looks ro (fun _ => True) s) s.
Proof. apply on_object_looks_any. intros; apply field_cached. Qed.

Lemma HasSuicided_looks ro a s : state_ok s -> twp (HasSuicided a) (looks ro (fun _ => True) s) s.
Proof. apply on_object_looks_any. intros; apply field_cached. Qed.

Lemma GetState_looks ro a k s : state_ok s -> twp (StateDB_GetState a k) (looks ro (fun _ => True) s) s.
Proof. apply on_object_looks_any. intros; apply GetState_cached. Qed.

Lemma GetCommittedState_looks ro a k s : state_ok s -> twp (StateDB_GetCommittedState a k) (looks ro (fun _ => True) s) s.
Proof. apply on_object_looks_any. intros; apply GetCommittedState_cached. Qed.

Lemma GetCodeSize_looks ro a s : state_ok s -> twp (GetCodeSize a) (looks ro (fun _ => True) s) s.
Proof.
  intros Hs. unfold GetCodeSize. destruct (getStateObject_run a s) as (t & E & L).
  pose proof (looked_steps ro _ _ Hs L) as Ht. pose proof (looked_equiv _ _ L) as Et.
  apply twp_bind. exists (find_object s a), t. split; [done|]. destruct (find_object s a) as [o|]; [|by apply twp_ret].
  destruct (so_code o); [by apply twp_ret|]. apply twp_bind, twp_get.
  destruct (db_ContractCodeSize _ _ _) as [size err]. apply twp_bind, twp_when; intros _; [|by apply twp_ret].
  apply twp_modify, twp_ret. pose proof (setError_looked err t) as Lt. split_and!; [done| |].
  - eapply steps_trans; [exact Ht|]. by apply looked_steps; [apply Ht|].
  - transitivity t; [by apply looked_equiv|done].
Qed.

(** What accounts answer in equivalent states. *)
Lemma equiv_exists s s' a : st_equiv s' s -> exists_in s' a = exists_in s a.
Proof. intros He. unfold exists_in. by destruct (find_equiv _ _ a He) as [[-> ->]|(o1 & o2 & -> & -> & _)]. Qed.

Lemma equiv_code s s' a : st_equiv s' s -> code_of s' a = code_of s a.
Proof.
  intros He. unfold code_of. destruct (find_equiv _ _ a He) as [[-> ->]|(o1 & o2 & -> & -> & [_ _ _ _ _ Hc _ _])]; [done|].
  by rewrite Hc, (se_db _ _ He).
Qed.

(** ** Changing an account *)
Record updated (a : Address) (o1 : stateObject) (s s' : StateDB) : Prop := {
  up_does : does s s';
  up_find : forall b, find_object s' b = if decide (a = b) then Some o1 else find_object s b;
  up_refund : sdb_refund s' = sdb_refund s;
  up_tx : (sdb_thash s', sdb_bhash s', sdb_txIndex s') = (sdb_thash s, sdb_bhash s, sdb_txIndex s);
  up_logs : sdb_logs s' = sdb_logs s;
  up_logSize : sdb_logSize s' = sdb_logSize s
}.

Definition fresh_object (opts : option (option Address * option Address)) (a : Address) : stateObject :=
  setNonce 0 (newObject a (match opts with
    | None => MkAccount 0 0 zeroHash emptyCodeHash None []
    | Some (owner, provider) =>
        MkAccount 0 0 zeroHash emptyCodeHash owner (match provider with Some p => [p] | None => [] end)
    end)).

Definition object_of (s : StateDB) (a : Address) : stateObject := default (fresh_object None a) (find_object s a).

Lemma updated_trans a o1 o2 s t u : updated a o1 s t -> updated a o2 t u -> updated a o2 s u.
Proof.
  intros [D1 F1 R1 T1 L1 S1] [D2 F2 R2 T2 L2 S2]. split; [by eapply does_trans| |congruence..].
  intros b. rewrite F2. case_decide as Hb; [done|]. rewrite F1. by rewrite decide_False.
Qed.

Lemma updated_looked a o1 s t u : looked s t -> good s -> updated a o1 t u -> updated a o1 s u.
Proof.
  intros L Hg [D F R T Lg S]. pose proof (looked_does _ _ Hg L) as Ht. destruct L as [Lf _ (m & e & ->)].
  split; [by eapply does_trans| |done..]. intros b. rewrite F. case_decide; [done|]. apply Lf.
Qed.

Lemma updated_put a o1 e s :
  does s (put o1 (appended e s)) -> so_address o1 = a -> so_deleted o1 = false -> updated a o1 s (put o1 (appended e s)).
Proof. intros D Ha Hd. split; try done. intros b. rewrite find_put, Ha, Hd. done. Qed.

Lemma createObject_eq a opts s :
  exists t, looked s t /\ createObject a opts s =
    Ok ((fresh_object opts a, find_object s a), put (fresh_object opts a) (appended (creation t a) t)).
Proof.
  destruct (getStateObject_run a s) as (t & Et & Lt). pose proof (lk_find _ _ Lt a) as Hf. exists t. split; [done|].
  unfold createObject. rewrite (bind_run _ _ _ _ _ Et). unfold creation. rewrite Hf. run. by destruct (find_object s a).
Qed.

Lemma put_fresh_updated a opts z t :
  good t -> updated a (setBalance z (fresh_object opts a)) t (put (setBalance z (fresh_object opts a)) (appended (creation t a) t)).
Proof.
  intros Hg. apply updated_put; [|by destruct opts as [[]|]..]. apply create_does; [done|by destruct opts as [[]|]..|].
  destruct opts as [[]|]; apply bytes_of_length.
Qed.

Lemma fresh_balance opts a : setBalance 0 (fresh_object opts a) = fresh_object opts a.
Proof. by destruct opts as [[]|]. Qed.

Lemma createObject_updated a opts s :
  good s -> exists s', createObject a opts s = Ok ((fresh_object opts a, find_object s a), s') /\
                       updated a (fresh_object opts a) s s'.
Proof.
  intros Hg. destruct (createObject_eq a opts s) as (t & Lt & E). eexists. split; [exact E|].
  eapply updated_looked; [exact Lt|done|]. rewrite <- fresh_balance. apply put_fresh_updated, (looked_does _ _ Hg Lt).
Qed.

Lemma GetOrNewStateObject_updated a s :
  good s -> exists t, GetOrNewStateObject a s = Ok (object_of s a, t) /\ updated a (object_of s a) s t.
Proof.
  intros Hg. destruct (getStateObject_run a s) as (t & Et & Lt). pose proof (lk_find _ _ Lt a) as Hf.
  assert (Hgt : good t) by apply (looked_does _ _ Hg Lt).
  unfold GetOrNewStateObject, object_of. rewrite (bind_run _ _ _ _ _ Et). destruct (find_object s a) as [o|] eqn:Eo.
  - exists t. split; [done|]. eapply updated_looked; [exact Lt|done|]. split; [by apply does_refl| |done..].
    intros b. case_decide; [by subst|done].
  - destruct (createObject_updated a None t Hgt) as (u & Eu & Uu). exists u. rewrite (bind_run _ _ _ _ _ Eu).
    split; [done|]. by eapply updated_looked.
Qed.

(** The operations on an account: what is found at its address, and nothing else. *)
Lemma object_live a s : good s -> so_address (object_of s a) = a /\ so_deleted (object_of s a) = false.
Proof.
  intros Hg. unfold object_of. destruct (find_object s a) as [o|] eqn:Eo; [|done].
  split; [by apply (g_found _ Hg)|by eapply found_live].
Qed.

Lemma after_object_updated a o1 (k : stateObject -> M StateDB unit) s :
  good s ->
  (forall t, good t -> find_object t a = Some (object_of s a) -> sdb_db t = sdb_db s ->
     exists u, k (object_of s a) t = Ok (tt, u) /\ updated a o1 t u) ->
  exists s', (o ← GetOrNewStateObject a; k o) s = Ok (tt, s') /\ updated a o1 s s'.
Proof.
  intros Hg Hk. destruct (GetOrNewStateObject_updated a s Hg) as (t & E & U). destruct U as [D F R L Sz] eqn:EU.
  destruct (Hk t) as (u & Eu & Uu); [apply D|rewrite F; by rewrite decide_True|apply D|].
  exists u. rewrite (bind_run _ _ _ _ _ E). split; [done|]. by eapply updated_trans.
Qed.

(** An operation that has put an object in place after an entry of the journal. *)
Lemma put_updated a o1 e t u :
  u = put o1 (appended e t) -> does t u -> so_address o1 = a -> so_deleted o1 = false -> updated a o1 t u.
Proof. intros ->. apply updated_put. Qed.

Lemma kept_updated a o t : good t -> find_object t a = Some o -> updated a o t t.
Proof. intros Hg Ho. split; [by apply does_refl| |done..]. intros b. case_decide; [by subst|done]. Qed.

Definition added (s : StateDB) (a : Address) (z : Z) : stateObject :=
  if z =? 0 then object_of s a else setBalance (a_Balance (so_data (object_of s a)) + z) (object_of s a).

Lemma AddBalance_updated a z s : good s -> exists s', AddBalance a z s = Ok (tt, s') /\ updated a (added s a z) s s'.
Proof.
  intros Hg. apply after_object_updated; [done|]. intros t Ht Ho _. unfold added. destruct (object_live a s Hg) as [Ha Hd].
  destruct (z =? 0).
  - unfold when. destruct (so_empty _); [|exists t; split; [done|by apply kept_updated]].
    destruct (touch (object_of s a) t) as [[[] u]| |] eqn:Et; [|exfalso; revert Et; unfold touch, when; run; by case_bool_decide..].
    exists u. split; [done|]. split; [by eapply touch_does|..]; revert Et; unfold touch; run; rewrite Ha;
      case_bool_decide; intros [= <-]; try done; (intros b; case_decide; [by subst|done]).
  - eexists. split; [done|]. rewrite Ha. eapply put_updated; [done|by apply balance_does|done..].
Qed.

Lemma SubBalance_updated a z s : good s -> exists s', SubBalance a z s = Ok (tt, s') /\ updated a (added s a (- z)) s s'.
Proof.
  intros Hg. apply after_object_updated; [done|]. intros t Ht Ho _. unfold added. destruct (object_live a s Hg) as [Ha Hd].
  replace (- z =? 0) with (z =? 0) by (destruct (Z.eqb_spec z 0), (Z.eqb_spec (- z) 0); lia).
  destruct (z =? 0); [exists t; split; [done|by apply kept_updated]|].
  eexists. split; [done|]. rewrite Ha. eapply put_updated; [done|by apply balance_does|done..].
Qed.

Lemma SetNonce_updated a n s :
  good s -> exists s', SetNonce a n s = Ok (tt, s') /\ updated a (setNonce n (object_of s a)) s s'.
Proof.
  intros Hg. apply after_object_updated; [done|]. intros t Ht Ho _. destruct (object_live a s Hg) as [Ha Hd].
  eexists. split; [done|]. rewrite Ha. eapply put_updated; [done|by apply nonce_does|done..].
Qed.

Lemma SetCode_updated a code s :
  good s -> exists s' o', SetCode a code s = Ok (tt, s') /\ cached (sdb_db s) o' (object_of s a) /\
                          updated a (setCode (keccak256 (default [] code)) code o') s s'.
Proof.
  intros Hg. destruct (object_live a s Hg) as [Ha Hd]. set (o' := (Code (sdb_db s) (object_of s a)).2).
  pose proof (Code_cached (sdb_db s) (object_of s a)) as Hca. fold o' in Hca.
  destruct (after_object_updated a (setCode (keccak256 (default [] code)) code o') (fun o =>
    s ← get;
    let '(prevcode, o) := Code (sdb_db s) o in
    journal_append (codeChange (so_address o) prevcode (a_CodeHash (so_data o)));;
    setStateObject (setCode (keccak256 (default [] code)) code o)) s Hg) as (s' & E & U); [|by exists s', o'].
  intros t Ht Ho Hdb. run. rewrite Hdb. pose proof (eq_refl (eff_code (sdb_db s) (object_of s a))) as Hc.
  unfold eff_code at 1 in Hc. subst o'. destruct (Code (sdb_db s) (object_of s a)) as [prevcode o']. cbn [fst snd] in *. subst prevcode.
  eexists. split; [done|]. rewrite (ca_address _ _ _ Hca), Ha. eapply put_updated; [done| |..].
  - rewrite <- Hdb in *. by apply (code_does a (object_of s a)).
  - change (so_address o' = a). by rewrite (ca_address _ _ _ Hca).
  - change (so_deleted o' = false). by rewrite (ca_deleted _ _ _ Hca).
Qed.

Lemma SetState_updated a k v s :
  good s -> exists s' o1, SetState a k v s = Ok (tt, s') /\ updated a o1 s s' /\
                          so_data o1 = so_data (object_of s a) /\ eff_code (sdb_db s) o1 = eff_code (sdb_db s) (object_of s a).
Proof.
  intros Hg. destruct (object_live a s Hg) as [Ha Hd]. set (o' := (GetState (sdb_db s) k (object_of s a)).2).
  pose proof (GetState_cached (sdb_db s) k (object_of s a)) as Hca. fold o' in Hca.
  set (o1 := if bool_decide ((GetState (sdb_db s) k (object_of s a)).1 = v) then o' else setState k v o').
  destruct (after_object_updated a o1 (fun o =>
    s ← get;
    let '(prev, o) := GetState (sdb_db s) k o in
    if bool_decide (prev = v) then setStateObject o
    else journal_append (storageChange (so_address o) k prev);; setStateObject (setState k v o)) s Hg) as (s' & E & U).
  - intros t Ht Ho Hdb. run. rewrite Hdb. pose proof (eq_refl (state_at (sdb_db s) k (object_of s a))) as Hc.
    unfold state_at at 1 in Hc. unfold o1. subst o'. destruct (GetState (sdb_db s) k (object_of s a)) as [prev o'].
    cbn [fst snd] in *. rewrite <- Hdb in Hca. case_bool_decide.
    + exists (put o' t). split; [done|]. split; [by apply (cached_does a (object_of s a))| |done..].
      intros b. rewrite find_put, (ca_address _ _ _ Hca), Ha, (ca_deleted _ _ _ Hca), Hd. done.
    + eexists. split; [done|]. rewrite (ca_address _ _ _ Hca), Ha. eapply put_updated; [done| |..].
      * subst prev. rewrite <- Hdb. by apply (storage_does a (object_of s a)).
      * change (so_address o' = a). by rewrite (ca_address _ _ _ Hca).
      * change (so_deleted o' = false). by rewrite (ca_deleted _ _ _ Hca).
  - exists s', o1. split_and!; [done|done|..]; unfold o1; case_bool_decide;
      [apply Hca|exact (ca_data _ _ _ Hca)|apply Hca|]. rewrite <- (ca_code _ _ _ Hca). by apply eff_code_ext.
Qed.

Lemma CreateAccount_updated a opts s :
  good s -> exists s', CreateAccount a opts s = Ok (tt, s') /\
                       updated a (setBalance (balance_of s a) (fresh_object opts a)) s s'.
Proof.
  intros Hg. destruct (createObject_eq a opts s) as (t & Lt & E).
  exists (put (setBalance (balance_of s a) (fresh_object opts a)) (appended (creation t a) t)). split.
  - unfold CreateAccount, balance_of. rewrite (bind_run _ _ _ _ _ E). destruct (find_object s a) as [p|].
    + by rewrite <- (put_put (fresh_object opts a) (setBalance (a_Balance (so_data p)) (fresh_object opts a)) (appended (creation t a) t)) by done.
    + by rewrite fresh_balance.
  - eapply updated_looked; [exact Lt|done|]. apply put_fresh_updated, (looked_does _ _ Hg Lt).
Qed.

Lemma Suicide_updated a s :
  good s -> exists b s', Suicide a s = Ok (b, s') /\
    match find_object s a with
    | Some o => updated a (setBalance 0 (markSuicided o)) s s'
    | None => looked s s'
    end.
Proof.
  intros Hg. unfold Suicide. destruct (getStateObject_run a s) as (t & E & L). pose proof (lk_find _ _ L a) as Hf.
  assert (Hgt : good t) by apply (looked_does _ _ Hg L). rewrite (bind_run _ _ _ _ _ E).
  destruct (find_object s a) as [o|] eqn:Eo; [|by exists false, t].
  eexists true, _. split; [done|]. eapply updated_looked; [exact L|done|]. destruct (g_found _ Hg a o Eo) as [Ha _].
  eapply put_updated; [done|by apply suicide_does|done|exact (found_live _ _ _ Eo)].
Qed.

(** ** Steps *)
Lemma updated_balance a o1 s s' b :
  updated a o1 s s' -> balance_of s' b = if decide (a = b) then a_Balance (so_data o1) else balance_of s b.
Proof. intros U. unfold balance_of. rewrite (up_find _ _ _ _ U). by case_decide. Qed.

Lemma undone_trie s s' : undone s s' -> sdb_trie s' = sdb_trie s.
Proof.
  intros [Hg _ (es & s0 & Hes & Hr & He)]. rewrite <- (se_trie _ _ He). symmetry. eapply (kp_trie s' s0), revert_steps_kept; [|exact Hr].
  apply Forall_reverse. pose proof (g_live _ Hg) as Hl. rewrite Hes in Hl. by apply Forall_app in Hl as [_ Hl].
Qed.

Lemma updated_logs a o1 s s' : updated a o1 s s' -> tx_effect s s' /\ (logged s -> logged s').
Proof. intros [D _ _ T L S]. apply tx_effect_same; [done| |done|apply undone_trie, D]. intros h. unfold logs_of. by rewrite L. Qed.

Lemma updated_ok a o1 s s' : state_ok s -> updated a o1 s s' -> obj_ok (sdb_db s) o1 -> state_ok s'.
Proof.
  intros [Hg Hr Ho Hf Hl] U H1. pose proof (proj2 (updated_logs _ _ _ _ U) Hl) as Hl'. revert U.
  intros [(Hu & Hrev & Hn) F R _ _ _]. split; [apply Hu|by eapply revisions_same| |by rewrite R|done].
  intros b o. rewrite F, (un_db _ _ Hu). case_decide; [by intros [= <-]|apply Ho].
Qed.

Lemma updated_quiet a o1 s s' :
  updated a o1 s s' ->
  match find_object s a with Some o => obj_equiv (sdb_db s) o1 o | None => blank o1 end -> quiet s s'.
Proof.
  intros [_ F R _ L Sz] H1. split; [| |done|by rewrite L|done].
  - intros b o Ho. rewrite F. case_decide; [|by exists o]. subst b. rewrite Ho in H1. by exists o1.
  - intros b o' Hn. rewrite F. case_decide; [|congruence]. subst b. rewrite Hn in H1. by intros [= <-].
Qed.

Lemma updated_worth a o1 s s' : updated a o1 s s' -> a_Balance (so_data o1) <= balance_of s a -> creates_nothing s s'.
Proof.
  intros U Hb. exists {[a]}. intros X HX. rewrite (total_one X a s s'); [|set_solver|].
  - rewrite (updated_balance _ _ _ _ a U), decide_True by done. lia.
  - intros b Hne. by rewrite (updated_balance _ _ _ _ b U), decide_False.
Qed.

Lemma does_effect ro s s' :
  does s s' -> creates_nothing s s' -> tx_effect s s' -> (ro = true -> quiet s s') -> effect ro s s'.
Proof. intros (Hu & Hr & Hn) W L Q. split; try done; [exists []; by rewrite app_nil_r|lia]. Qed.

Lemma updated_steps ro a o1 s s' :
  state_ok s -> updated a o1 s s' -> obj_ok (sdb_db s) o1 -> a_Balance (so_data o1) <= balance_of s a ->
  (ro = true -> match find_object s a with Some o => obj_equiv (sdb_db s) o1 o | None => blank o1 end) -> steps ro s s'.
Proof.
  intros Hs U Ho Hb Hq. split; [by eapply updated_ok|]. apply does_effect; [apply U|by eapply updated_worth|by eapply updated_logs|].
  intros Hr. eapply updated_quiet; [exact U|by apply Hq].
Qed.

Lemma fresh_code db opts a z : eff_code db (setBalance z (fresh_object opts a)) = None.
Proof. rewrite eff_code_eq. destruct opts as [[]|]; cbn; by rewrite bool_decide_eq_true_2. Qed.

Lemma fresh_ok db opts a z : 0 <= z -> obj_ok db (setBalance z (fresh_object opts a)).
Proof. intros Hz. split; [by destruct opts as [[? []]|]|by destruct opts as [[]|]|]. intros c. by rewrite fresh_code. Qed.

Lemma object_ok a s : state_ok s -> obj_ok (sdb_db s) (object_of s a) /\ a_Balance (so_data (object_of s a)) = balance_of s a.
Proof.
  intros Hs. unfold object_of, balance_of. destruct (find_object s a) as [o|] eqn:Eo; [|split; [|done]].
  - split; [by eapply ok_objects|done].
  - cbn [default]. rewrite <- fresh_balance. by apply fresh_ok.
Qed.

Lemma balance_positive a s : state_ok s -> 0 <= balance_of s a.
Proof. intros Hs. destruct (object_ok a s Hs) as [Ho <-]. apply Ho. Qed.

Lemma setBalance_ok db z o : 0 <= z -> obj_ok db o -> obj_ok db (setBalance z o).
Proof. intros Hz [Ha _ Hc]. split; [done..|]. rewrite (eff_code_ext db o (setBalance z o)) by done. exact Hc. Qed.

Lemma added_ok a z s : state_ok s -> 0 <= balance_of s a + z -> obj_ok (sdb_db s) (added s a z).
Proof.
  intros Hs Hz. destruct (object_ok a s Hs) as [Ho Hb]. unfold added. case_match; [done|].
  apply setBalance_ok; [lia|done].
Qed.

Lemma added_balance a z s : state_ok s -> a_Balance (so_data (added s a z)) = balance_of s a + z.
Proof.
  intros Hs. destruct (object_ok a s Hs) as [Ho Hb]. unfold added. destruct (Z.eqb_spec z 0); [lia|]. cbn. lia.
Qed.

(** Nothing is added: the account is at most created. *)
Lemma nothing_added ro a s s' : state_ok s -> updated a (added s a 0) s s' -> steps ro s s'.
Proof.
  intros Hs U. pose proof (balance_positive a s Hs). eapply updated_steps; [done|exact U|apply added_ok; [done|lia]| |].
  - rewrite added_balance by done. lia.
  - intros _. unfold added, object_of. cbn. by destruct (find_object s a).
Qed.

Lemma AddBalance_zero ro a s : state_ok s -> twp (AddBalance a 0) (fun _ s' => steps ro s s') s.
Proof.
  intros Hs. destruct (AddBalance_updated a 0 s (ok_good _ Hs)) as (s' & E & U). exists tt, s'. split; [done|].
  by eapply nothing_added.
Qed.

(** Value is moved from one account to another. *)
Lemma Transfer_steps ro a b z s :
  state_ok s -> 0 <= z <= balance_of s a -> (ro = true -> z = 0) ->
  twp (SubBalance a z;; AddBalance b z) (fun _ s' => steps ro s s') s.
Proof.
  intros Hs Hz Hro. destruct (SubBalance_updated a z s (ok_good _ Hs)) as (t & Et & Ut).
  assert (Ht : state_ok t) by (eapply updated_ok; [done|exact Ut|apply added_ok; [done|lia]]).
  destruct (AddBalance_updated b z t (ok_good _ Ht)) as (u & Eu & Uu).
  pose proof (balance_positive b t Ht) as Hbt.
  exists tt, u. rewrite (bind_run _ _ _ _ _ Et). split; [done|]. split.
  - eapply updated_ok; [done|exact Uu|apply added_ok; [done|lia]].
  - apply does_effect; [eapply does_trans; [apply Ut|apply Uu]|..].
    + exists {[a; b]}. intros X HX. rewrite (total_one X b t u), (total_one X a s t);
        [|set_solver| |set_solver|]; [|intros x Hx; erewrite updated_balance by eassumption; by rewrite decide_False..].
      rewrite (updated_balance _ _ _ _ b Uu), (updated_balance _ _ _ _ a Ut), !decide_True by done.
      rewrite !added_balance by done. lia.
    + eapply tx_effect_trans; by eapply updated_logs.
    + intros Hr. specialize (Hro Hr). subst z. apply (quiet_trans s t u); [apply Ut|..].
      * exact (ef_quiet _ _ _ (proj2 (nothing_added true _ _ _ Hs Ut)) eq_refl).
      * exact (ef_quiet _ _ _ (proj2 (nothing_added true _ _ _ Ht Uu)) eq_refl).
Qed.

(** A contract is destroyed: its balance goes to another account, or is lost. *)
Lemma suicide_steps a b s :
  state_ok s ->
  twp (AddBalance b (balance_of s a)) (fun _ t => twp (Suicide a) (fun _ s' => steps false s s') t) s.
Proof.
  intros Hs. pose proof (balance_positive a s Hs) as Ha. pose proof (balance_positive b s Hs) as Hb.
  destruct (AddBalance_updated b (balance_of s a) s (ok_good _ Hs)) as (t & Et & Ut).
  assert (Ht : state_ok t) by (eapply updated_ok; [done|exact Ut|apply added_ok; [done|lia]]).
  exists tt, t. split; [done|]. destruct (Suicide_updated a t (ok_good _ Ht)) as (r & u & Eu & Uu).
  exists r, u. split; [done|]. assert (Hbt : balance_of t b = balance_of s b + balance_of s a).
  { rewrite (updated_balance _ _ _ _ b Ut), decide_True, added_balance by done. done. }
  assert (Hot : forall x, x <> b -> balance_of t x = balance_of s x).
  { intros x Hx. by rewrite (updated_balance _ _ _ _ x Ut), decide_False. }
  destruct (find_object t a) as [o|] eqn:Eo.
  - assert (Hu : state_ok u).
    { eapply updated_ok; [done|exact Uu|]. apply setBalance_ok; [lia|]. destruct (ok_objects _ Ht a o Eo) as [? ? Hc].
      split; [done..|]. rewrite (eff_code_ext (sdb_db t) o (markSuicided o)) by done. exact Hc. }
    split; [done|]. apply does_effect; [eapply does_trans; [apply Ut|apply Uu]| |eapply tx_effect_trans; by eapply updated_logs|done].
    exists {[a; b]}. intros X HX. rewrite (total_one X a t u), (total_one X b s t); [|set_solver|done|set_solver|].
    + rewrite (updated_balance _ _ _ _ a Uu), decide_True by done. cbn [setBalance so_data a_Balance set_data].
      destruct (decide (a = b)) as [->|Hn]; [lia|]. rewrite (Hot a Hn). lia.
    + intros x Hx. rewrite (updated_balance _ _ _ _ x Uu). by rewrite decide_False.
  - assert (Hab : a <> b).
    { intros ->. rewrite (up_find _ _ _ _ Ut), decide_True in Eo by done. done. }
    assert (H0 : balance_of s a = 0) by (rewrite <- (Hot a Hab); unfold balance_of; by rewrite Eo).
    rewrite H0 in Ut. eapply steps_trans; [by eapply nothing_added|]. by apply looked_steps.
Qed.

(** Steps that leave the balances alone. *)
Definition steps_even (ro : bool) (s s' : StateDB) : Prop := steps ro s s' /\ forall a, balance_of s' a = balance_of s a.

Lemma updated_even ro a o1 s s' :
  state_ok s -> updated a o1 s s' -> obj_ok (sdb_db s) o1 -> a_Balance (so_data o1) = balance_of s a ->
  (ro = true -> match find_object s a with Some o => obj_equiv (sdb_db s) o1 o | None => blank o1 end) -> steps_even ro s s'.
Proof.
  intros Hs U Ho Hb Hq. split; [eapply updated_steps; try done; by rewrite Hb|].
  intros b. rewrite (updated_balance _ _ _ _ b U). case_decide; by subst.
Qed.

Lemma CreateAccount_steps ro a opts s :
  state_ok s -> (ro = true -> exists_in s a = false /\ opts = None) -> twp (CreateAccount a opts) (fun _ => steps_even ro s) s.
Proof.
  intros Hs Hro. destruct (CreateAccount_updated a opts s (ok_good _ Hs)) as (s' & E & U). exists tt, s'. split; [done|].
  eapply updated_even; [done|exact U|by apply fresh_ok, balance_positive|done|].
  intros Hr. destruct (Hro Hr) as [Hn ->]. unfold exists_in in Hn. unfold balance_of. by destruct (find_object s a).
Qed.

Lemma SetNonce_steps a n s : state_ok s -> is_uint64 n -> twp (SetNonce a n) (fun _ => steps_even false s) s.
Proof.
  intros Hs Hn. destruct (SetNonce_updated a n s (ok_good _ Hs)) as (s' & E & U). exists tt, s'. split; [done|].
  destruct (object_ok a s Hs) as [[Ha ? Hc] Hb]. eapply updated_even; [done|exact U| |done|done].
  split; [split; [done|apply Ha]|done|]. rewrite (eff_code_ext (sdb_db s) (object_of s a) (setNonce n (object_of s a))) by done. exact Hc.
Qed.

Lemma SetCode_steps a code s :
  state_ok s -> Z.of_nat (length (default [] code)) < 2 ^ 63 -> twp (SetCode a code) (fun _ => steps_even false s) s.
Proof.
  intros Hs Hl. destruct (SetCode_updated a code s (ok_good _ Hs)) as (s' & o' & E & Hca & U). exists tt, s'. split; [done|].
  destruct (object_ok a s Hs) as [[Ha ? _] Hb]. eapply updated_even; [done|exact U| | |done].
  - split; [by change (account_ok (so_data o')); rewrite (ca_data _ _ _ Hca)|by change (0 <= a_Balance (so_data o')); rewrite (ca_data _ _ _ Hca)|].
    intros c. rewrite eff_code_eq. cbn [setCode set_dirtyCode set_so_code set_data so_code so_data a_CodeHash].
    destruct code as [c'|]; [|by rewrite bool_decide_eq_true_2]. intros [= ->]. split; [done|]. symmetry. apply mk_bytesN_of.
  - change (a_Balance (so_data o') = balance_of s a). by rewrite (ca_data _ _ _ Hca).
Qed.

Lemma SetState_steps a k v s : state_ok s -> twp (SetState a k v) (fun _ => steps_even false s) s.
Proof.
  intros Hs. destruct (SetState_updated a k v s (ok_good _ Hs)) as (s' & o1 & E & U & Hd & Hc). exists tt, s'. split; [done|].
  destruct (object_ok a s Hs) as [[Ha Hb Hco] Hbe]. eapply updated_even; [done|exact U| |by rewrite Hd|done].
  split; rewrite Hd; [done..|]. rewrite Hc. exact Hco.
Qed.

(** Steps that leave the accounts alone. *)
Lemma plain_steps ro s s' :
  state_ok s -> does s s' -> sdb_objects s' = sdb_objects s -> sdb_trie s' = sdb_trie s -> 0 <= sdb_refund s' ->
  tx_effect s s' /\ logged s' -> (ro = true -> quiet s s') -> steps_even ro s s'.
Proof.
  intros [Hg Hr Ho Hrf _] D Hob Ht Hrf' [Hle Hl] Hq. assert (Hf : forall a, find_object s' a = find_object s a)
    by (intros a; unfold find_object; by rewrite Hob, Ht).
  assert (Hb : forall a, balance_of s' a = balance_of s a) by (intros a; unfold balance_of; by rewrite Hf).
  split; [|done]. pose proof D as (U & R & N). split.
  - split; [apply U|by eapply revisions_same| |done|done]. intros a o. rewrite Hf, (un_db _ _ U). apply Ho.
  - apply does_effect; [done| |done|done]. exists ∅. intros X _. rewrite (total_same X s s'); auto with lia.
Qed.

Lemma AddRefund_steps gas s : state_ok s -> twp (AddRefund gas) (fun _ => steps_even false s) s.
Proof.
  intros Hs. eexists tt, _. split; [done|]. apply plain_steps; try done; [by apply refund_does, Hs| |by split; [|apply Hs]]. cbn. apply Z.mod_pos_bound. lia.
Qed.

Lemma uint64_shift a b j : uint64 a = uint64 b -> uint64 (a + j) = uint64 (b + j).
Proof. unfold uint64. intros H. by rewrite <- Zplus_mod_idemp_l, H, Zplus_mod_idemp_l. Qed.

Lemma added_log log s e :
  logged s -> l_BlockNumber log = block_number -> l_Removed log = false ->
  let log' := MkLog (l_Address log) (l_Topics log) (l_Data log) (l_BlockNumber log) (sdb_thash s) (uint64 (sdb_txIndex s))
                (sdb_bhash s) (sdb_logSize s) (l_Removed log) in
  let s' := set_logs (<[sdb_thash s := tx_logs s ++ [log']]> (sdb_logs s)) (uint64 (sdb_logSize s + 1)) (appended e s) in
  is_uint64 (sdb_logSize s) -> tx_effect s s' /\ logged s'.
Proof.
  intros Hl Hb Hr log' s' Hsz. assert (Htx : tx_logs s' = tx_logs s ++ [log']) by (unfold tx_logs, logs_of, s'; cbn; by rewrite lookup_insert_eq).
  assert (Hbase : uint64 (sdb_logSize s' - Z.of_nat (length (tx_logs s'))) = uint64 (sdb_logSize s - Z.of_nat (length (tx_logs s)))).
  { rewrite Htx, length_app. cbn. unfold uint64. rewrite Zminus_mod_idemp_l. f_equal. lia. }
  split; [split; [done| |done|done]|].
  - intros h Hh. unfold logs_of, s'. cbn. by rewrite lookup_insert_ne.
  - intros j l Hj. rewrite Htx in Hj. apply lookup_snoc_Some in Hj as [[Hj Hlk]|[-> <-]].
    + by rewrite (Hl j l Hlk), (uint64_shift _ _ _ Hbase).
    + unfold log'. cbn [l_BlockNumber l_TxHash l_TxIndex l_BlockHash l_Index l_Removed]. rewrite Hb, Hr, (uint64_shift _ _ _ Hbase).
      by rewrite Z.sub_add, (uint64_small (sdb_logSize s)).
Qed.

Lemma AddLog_steps log s :
  state_ok s -> l_BlockNumber log = block_number -> l_Removed log = false -> twp (AddLog log) (fun _ => steps_even false s) s.
Proof.
  intros Hs Hbn Hrm. destruct (AddLog log s) as [[[] s']| |] eqn:E; [|done..]. exists tt, s'. split; [done|].
  pose proof (AddLog_does _ _ _ (ok_good _ Hs) E) as D. revert E. unfold AddLog. run. intros [= <-].
  apply plain_steps; try done; [apply Hs|]. exact (added_log log s _ (ok_logs _ Hs) Hbn Hrm (g_logSize _ (ok_good _ Hs))).
Qed.

Lemma AddPreimage_steps ro h p s : state_ok s -> twp (AddPreimage h p) (fun _ => steps_even ro s) s.
Proof.
  intros Hs. destruct (AddPreimage h p s) as [[[] s']| |] eqn:E; [|by revert E; unfold AddPreimage; run; case_match..].
  exists tt, s'. split; [done|]. pose proof (AddPreimage_does _ _ _ _ (ok_good _ Hs) E) as D. revert E. unfold AddPreimage. run.
  destruct (sdb_preimages s !! h); intros [= <-]; apply plain_steps; try done; try apply Hs; try (split; [done|apply Hs]); intros _; (split; try done);
    try (intros a o Ho; exists o; done); intros a o' H1 H2; unfold find_object in *; cbn in *; congruence.
Qed.

(** ** Snapshots *)
Lemma Snapshot_steps ro s :
  state_ok s -> twp Snapshot (fun id s' => Snapshot s = Ok (id, s') /\ steps ro s s' /\ st_equiv s' s) s.
Proof.
  intros Hs. destruct (Snapshot s) as [[id s']| |] eqn:E; [|done..]. exists id, s'. split; [done|]. split; [done|].
  destruct (snapshot_pushed _ _ _ (ok_good _ Hs) (ok_revisions _ Hs) E) as (Hg & Hr & Hu & -> & Hrev).
  assert (He : st_equiv s' s) by (revert E; unfold Snapshot; run; intros [= <-]; by split).
  assert (Hn : sdb_nextRevisionId s <= sdb_nextRevisionId s') by (revert E; unfold Snapshot; run; intros [= <-]; cbn; lia).
  split; [|done]. split; [split; [done..|by eapply equiv_objects; [|apply Hs]|by rewrite (se_refund _ _ He); apply Hs|by apply (tx_effect_equiv _ _ He), Hs]|].
  apply equiv_effect; [done|by eexists|done|done].
Qed.

(** Back to a snapshot, whatever has happened since. *)
Record restored (s s' : StateDB) : Prop := {
  rs_equiv : st_equiv s' s;
  rs_entries : sdb_entries s' = sdb_entries s;
  rs_revisions : sdb_validRevisions s' = sdb_validRevisions s
}.

Lemma Revert_steps ro s id s1 s2 :
  state_ok s -> Snapshot s = Ok (id, s1) -> steps ro s1 s2 ->
  twp (RevertToSnapshot id) (fun _ s3 => steps ro s s3 /\ restored s s3) s2.
Proof.
  intros Hs Esn [K2 [U2 (rest & R2) N2 _ _ _]].
  destruct (snapshot_pushed _ _ _ (ok_good _ Hs) (ok_revisions _ Hs) Esn) as (Hg & Hr & Hu & Hid & Hrev).
  assert (Hn : sdb_nextRevisionId s <= sdb_nextRevisionId s1) by (revert Esn; unfold Snapshot; run; intros [= _ <-]; cbn; lia).
  rewrite Hrev, <- app_assoc in R2.
  destruct (revert_undone s s2 _ id rest (ok_good _ Hs) (undone_trans _ _ _ Hu U2) R2 (proj1 (ok_revisions _ K2)))
    as (s3 & E & He & Hen & Hrev3 & Hnext & Hu3).
  exists tt, s3. split; [done|]. split; [|by split]. split.
  - split; [apply Hu3| |by eapply equiv_objects; [|apply Hs]|by rewrite (se_refund _ _ He); apply Hs|by apply (tx_effect_equiv _ _ He), Hs].
    eapply revisions_prefix; [apply K2|exact R2|done|done].
  - apply equiv_effect; [done|exists []; by rewrite app_nil_r|lia|done].
Qed.
End effect.
