(* ===== verification/StateFinal.v ===== *)
(** * The end of a transaction

    [Finalise] writes the accounts a transaction has changed into the trie of accounts.
    With a trie that behaves as a map, it never panics, drops the accounts that were
    destroyed or are empty, and leaves a state that is in order for the next transaction. *)

From S2P Require Import Prelude Bytes RlpEncode RlpDecode RlpCanonical RlpRaw Types StateDB StateRevert StateEffect.

(** ** A trie of accounts that can be read

    What [Trie] documents of [TryGet], [TryUpdate] and [TryDelete] when no node is missing,
    for keys that are addresses. *)
Class TrieLaws {DB : StateDatabase} : Type := {
  t_ok : trie -> Prop;
  t_update_ok : forall (a : Address) v t, t_ok t -> v <> [] ->
    exists t', t_TryUpdate (bytes_of a) v t = (t', None) /\ t_ok t' /\
      forall b : Address, t_TryGet t' (bytes_of b) = if decide (a = b) then (v, None) else t_TryGet t (bytes_of b);
  t_delete_ok : forall (a : Address) t, t_ok t ->
    exists t', t_TryDelete (bytes_of a) t = (t', None) /\ t_ok t' /\
      forall b : Address, t_TryGet t' (bytes_of b) = if decide (a = b) then ([], None) else t_TryGet t (bytes_of b)
}.

(** ** The encoding of accounts *)
Lemma account_has_ty a : is_uint64 (a_Nonce a) -> 0 <= a_Balance a -> has_ty account_ty (account_gval a) = true.
Proof.
  intros [Hn1 Hn2] Hb. unfold account_ty, account_gval. rewrite has_ty_TStruct. cbn [fields_ty].
  rewrite array_ty, optaddr_has_ty by done. pose proof (addresses_has_ty (a_ProviderAddresses a)) as Ha.
  change (has_ty (TSlice (TPtr (TByteArray 20))) (addresses_gval (a_ProviderAddresses a)))
    with (has_ty (TSlice (TByteArray 20)) (addresses_gval (a_ProviderAddresses a))). rewrite Ha.
  cbn [has_ty]. rewrite !andb_true_iff, !Z.leb_le, Z.ltb_lt. split_and!; done || lia.
Qed.

Lemma account_of_account_gval a : account_of_gval (account_gval a) = Some a.
Proof.
  unfold account_gval, account_of_gval. destruct a as [n b r c [o|] p]; cbn [optaddr_gval optaddr_of_gval a_OwnerAddress];
    cbn -[addresses_gval addresses_of_gval]; rewrite ?mk_bytesN_of, addresses_of_gval_gval; done.
Qed.

Lemma length_optaddr o : (length (ref_encode (optaddr_gval o)) <= 29)%nat.
Proof.
  destruct o as [a|]; [|vm_compute; repeat constructor]. change (ref_encode _) with (ref_string (bytes_of a)).
  pose proof (length_ref_string_le (bytes_of a)) as H. rewrite bytes_of_length in H. change AddressLength with 20%nat in H. specialize (H ltac:(lia)). exact H.
Qed.

Lemma account_fits a :
  is_uint64 (a_Nonce a) -> 0 <= a_Balance a < 2 ^ 256 -> length (a_CodeHash a) = 32%nat ->
  Z.of_nat (length (a_ProviderAddresses a)) < 2 ^ 32 -> fits (account_gval a).
Proof.
  intros [Hn1 Hn2] Hb Hc Hp. unfold account_gval.
  pose proof (length_ref_string_le (BigBytes (a_Nonce a))) as L1. pose proof (BigBytes_length_bound (a_Nonce a) 8 ltac:(lia)).
  pose proof (length_ref_string_le (BigBytes (a_Balance a))) as L2. pose proof (BigBytes_length_bound (a_Balance a) 32 ltac:(lia)).
  pose proof (length_ref_string_le (bytes_of (a_Root a))) as L3. rewrite bytes_of_length in L3.
  assert (HL : HashLength = 32%nat) by done.
  pose proof (length_ref_string_le (a_CodeHash a)) as L4. pose proof (length_optaddr (a_OwnerAddress a)) as L5.
  pose proof (length_addresses_le _ Hp) as L6.
  specialize (L1 ltac:(lia)). specialize (L2 ltac:(lia)). specialize (L3 ltac:(lia)). specialize (L4 ltac:(lia)).
  set (p := ref_string (BigBytes (a_Nonce a)) ++ ref_string (BigBytes (a_Balance a)) ++ ref_string (bytes_of (a_Root a)) ++
    ref_string (a_CodeHash a) ++ ref_encode (optaddr_gval (a_OwnerAddress a)) ++ ref_encode (addresses_gval (a_ProviderAddresses a)) ++ []).
  assert (Hl : (length p <= 200 + length (a_ProviderAddresses a) * 29)%nat) by (unfold p; rewrite !length_app; cbn [length]; lia).
  pose proof (length_ref_list_le p ltac:(lia)). change (Z.of_nat (length (ref_list p)) < 2 ^ 64). lia.
Qed.

(** ** Accounts that keep what they hold *)
Section final.
Context `{C : Crypto} {DB : StateDatabase} {BC : BlockContext} {TL : TrieLaws}.

Record same_account (o o' : stateObject) : Prop := {
  sa_address : so_address o' = so_address o;
  sa_data : exists root, so_data o' = MkAccount (a_Nonce (so_data o)) (a_Balance (so_data o)) root (a_CodeHash (so_data o))
              (a_OwnerAddress (so_data o)) (a_ProviderAddresses (so_data o));
  sa_code : so_code o' = so_code o;
  sa_suicided : so_suicided o' = so_suicided o;
  sa_deleted : so_deleted o' = so_deleted o
}.

Lemma same_account_refl o : same_account o o.
Proof. split; try done. exists (a_Root (so_data o)). by destruct (so_data o). Qed.

Lemma same_account_trans o1 o2 o3 : same_account o1 o2 -> same_account o2 o3 -> same_account o1 o3.
Proof. intros [A1 (r1 & D1) C1 S1 L1] [A2 (r2 & D2) C2 S2 L2]. split; [congruence| |congruence..]. exists r2. by rewrite D2, D1. Qed.

Lemma same_account_fields o o' :
  so_address o' = so_address o -> so_data o' = so_data o -> so_code o' = so_code o -> so_suicided o' = so_suicided o ->
  so_deleted o' = so_deleted o -> same_account o o'.
Proof. intros. split; try done. exists (a_Root (so_data o)). rewrite H0. by destruct (so_data o). Qed.

Lemma setError_same e o : same_account o (so_setError e o).
Proof. unfold so_setError. destruct (so_dbErr o); [apply same_account_refl|by apply same_account_fields]. Qed.

Lemma update_slot_same o t slot : same_account o (update_slot o t slot).1.
Proof.
  destruct slot as [key value]. unfold update_slot. case_bool_decide; [by apply same_account_fields|].
  case_bool_decide; [destruct (t_TryDelete _ _)|destruct (t_TryUpdate _ _ _)];
    (eapply same_account_trans; [|apply setError_same]; by apply same_account_fields).
Qed.

Lemma update_slots_same l o t : same_account o (foldl (fun '(o, t) slot => update_slot o t slot) (o, t) l).1.
Proof.
  revert o t. induction l as [|slot l IH]; intros o t; [apply same_account_refl|]. cbn [foldl].
  pose proof (update_slot_same o t slot) as Hs. destruct (update_slot o t slot) as [o1 t1].
  eapply same_account_trans; [exact Hs|apply IH].
Qed.

Lemma updateRoot_same order db o : same_account o (updateRoot order db o).
Proof.
  assert (H : same_account o (updateTrie order db o)).
  { unfold updateTrie. pose proof (getTrie_fields db o) as Hg. destruct (getTrie db o) as [t o1].
    destruct Hg as (A & D & S & L & _ & Cd & _). pose proof (update_slots_same (order (so_dirtyStorage o1)) o1 t) as Hf.
    destruct (foldl _ _ _) as [o2 t2]. eapply same_account_trans; [by apply (same_account_fields o o1)|].
    eapply same_account_trans; [exact Hf|by apply same_account_fields]. }
  unfold updateRoot. destruct (so_trie _) as [t|]; [|done]. eapply same_account_trans; [exact H|].
  split; try done. by exists (t_Hash t).
Qed.

Lemma same_account_ok db o o' : same_account o o' -> obj_ok db o -> obj_ok db o'.
Proof.
  intros [A (r & D) Cd S L] [[Hn Hp] Hb Hc]. split; [split|..]; rewrite ?D; try done.
  rewrite (eff_code_ext db o o'); [by rewrite ?D|done|done|by rewrite D].
Qed.

(** ** States on the way *)
Context (slot_order : gmap Hash Hash -> list (Hash * Hash)) (dirty_order : gmap Address Z -> list (Address * Z)).

(** The balances have a bound that fits the encoding. *)
Definition supply_bound (s : StateDB) : Prop := forall a, balance_of s a < 2 ^ 256.

(** Dropped are accounts that were destroyed or are empty. *)
Definition ended (o : stateObject) : bool := so_suicided o || so_empty o.

Definition kept_account (s s' : StateDB) (a : Address) : Prop :=
  match find_object s a, find_object s' a with
  | Some o, Some o' => same_account o o'
  | Some o, None => ended o = true
  | None, None => True
  | None, Some _ => False
  end.

Record finalising (s s' : StateDB) : Prop := {
  fi_rest : exists t m d e, s' = set_sdb_dbErr e (set_objectsDirty d (set_objects m (set_tries (sdb_db s) t s)));
  fi_trie : t_ok (sdb_trie s');
  fi_absent : absent s';
  fi_found : forall a, kept_account s s' a
}.

(** The trie holds what the state answers. *)
Definition written (s : StateDB) (a : Address) : Prop := (load_account (sdb_trie s) a).1 = so_data <$> find_object s a.

Lemma load_other t t' a b r :
  (forall b : Address, t_TryGet t' (bytes_of b) = if decide (a = b) then r else t_TryGet t (bytes_of b)) ->
  a <> b -> load_account t' b = load_account t b.
Proof. intros H Hab. unfold load_account. by rewrite H, decide_False. Qed.

(** The state after one account: its object and its entry in the trie. *)
Definition settle (o : stateObject) (t : trie) (s : StateDB) : StateDB :=
  set_objectsDirty ({[so_address o]} ∪ sdb_objectsDirty s) (sdb_setError None (set_tries (sdb_db s) t (put o s))).

Lemma settle_rest o t s : exists m d e, settle o t s = set_sdb_dbErr e (set_objectsDirty d (set_objects m (set_tries (sdb_db s) t s))).
Proof.
  unfold settle, sdb_setError. cbn. destruct (sdb_dbErr s); do 3 eexists; unfold set_sdb_dbErr, set_objectsDirty, set_objects, set_tries, put; cbn;
    reflexivity.
Qed.

Lemma settle_fields o t s :
  sdb_objects (settle o t s) = <[so_address o := o]> (sdb_objects s) /\ sdb_trie (settle o t s) = t /\ sdb_db (settle o t s) = sdb_db s.
Proof. unfold settle, sdb_setError. cbn. by destruct (sdb_dbErr s). Qed.

Section settling.
Context (s s1 : StateDB) (a : Address) (o : stateObject) (t : trie) (r : bytes * option error).
Context (Hfin : finalising s s1) (Ha : so_address o = a) (Ht : t_ok t).
Context (Hget : forall b : Address, t_TryGet t (bytes_of b) = if decide (a = b) then r else t_TryGet (sdb_trie s1) (bytes_of b)).
Context (Hload : (load_account t a).1 = if so_deleted o then None else Some (so_data o)).
Context (Hgone : so_deleted o = true -> ended o = true).

Lemma find_settle b :
  find_object (settle o t s1) b = if decide (a = b) then if so_deleted o then None else Some o else find_object s1 b.
Proof.
  unfold find_object. destruct (settle_fields o t s1) as (-> & -> & _). rewrite Ha. case_decide as Hb.
  - subst b. by rewrite lookup_insert_eq.
  - rewrite lookup_insert_ne by done. by rewrite (load_other _ _ _ _ _ Hget Hb).
Qed.

Lemma settle_finalising :
  match find_object s a with
  | Some o0 => if so_deleted o then ended o0 = true else same_account o0 o
  | None => so_deleted o = true
  end -> finalising s (settle o t s1).
Proof.
  intros Hk. destruct Hfin as [(t0 & m0 & d0 & e0 & Er) _ Hab Hf]. destruct (settle_fields o t s1) as (Eo & Et & Ed). split.
  - destruct (settle_rest o t s1) as (m & d & e & ->). exists t, m, d, e. by rewrite Er.
  - by rewrite Et.
  - intros b ob. rewrite Eo, Et, Ha. intros [[<- <-]|[Hb Hob]]%lookup_insert_Some Hd.
    + split_and!; [by rewrite Hload, Hd|done|by apply Hgone].
    + destruct (Hab b ob Hob Hd) as (H1 & H2 & H3). by rewrite (load_other _ _ _ _ _ Hget Hb).
  - intros b. unfold kept_account. rewrite find_settle. case_decide as Hb; [|apply Hf]. subst b.
    destruct (find_object s a), (so_deleted o); done.
Qed.

Lemma settle_written : written (settle o t s1) a /\ forall b, b <> a -> written s1 b -> written (settle o t s1) b.
Proof.
  destruct (settle_fields o t s1) as (_ & Et & _). split.
  - unfold written. rewrite Et, Hload, find_settle, decide_True by done. by destruct (so_deleted o).
  - intros b Hb. unfold written. rewrite Et, find_settle, decide_False by done. by rewrite (load_other _ _ _ _ _ Hget).
Qed.
End settling.

(** *** One account *)
Lemma encode_account o :
  account_ok (so_data o) -> 0 <= a_Balance (so_data o) < 2 ^ 256 -> length (a_CodeHash (so_data o)) = 32%nat ->
  exists data, EncodeToBytes (account_gval (so_data o)) = inr (Ok data) /\ data <> [] /\ decode_account data = Some (so_data o).
Proof.
  intros [Hn Hp] Hb Hc. assert (Hty : has_ty account_ty (account_gval (so_data o)) = true) by (apply account_has_ty; [done|lia]).
  assert (Hf : fits (account_gval (so_data o))) by (by apply account_fits).
  exists (ref_encode (account_gval (so_data o))). split; [by eapply EncodeToBytes_ty|]. split.
  - intros E. pose proof (ref_encode_pos _ _ Hty) as Hpos. rewrite E in Hpos. cbn in Hpos. lia.
  - unfold decode_account. rewrite (DecodeBytes_ty _ _ Hty Hf). apply account_of_account_gval.
Qed.

Lemma finalise_deleted s s1 a o :
  finalising s s1 -> so_address o = a -> ended o = true ->
  match find_object s a with Some o0 => ended o0 = true | None => True end ->
  exists t, (deleteStateObject o;; add_objectDirty a) s1 = Ok (tt, settle (set_deleted true o) t s1) /\
    finalising s (settle (set_deleted true o) t s1) /\ written (settle (set_deleted true o) t s1) a /\
    forall b, b <> a -> written s1 b -> written (settle (set_deleted true o) t s1) b.
Proof.
  intros Hf Ha He Hk. destruct (t_delete_ok a (sdb_trie s1) (fi_trie _ _ Hf)) as (t & Hd & Ht & Hget). exists t.
  assert (Hl : (load_account t a).1 = None) by (unfold load_account; by rewrite Hget, decide_True).
  split; [|split].
  - unfold deleteStateObject, add_objectDirty, settle, setStateObject. run. cbn [sdb_trie put set_objects]. rewrite Ha.
    rewrite Hd. unfold put, sdb_setError. cbn. rewrite Ha. by destruct (sdb_dbErr s1).
  - eapply settle_finalising; try done. by destruct (find_object s a).
  - eapply settle_written; done.
Qed.

Lemma finalise_updated s s1 a o :
  finalising s s1 -> so_address o = a -> so_deleted o = false ->
  account_ok (so_data o) -> 0 <= a_Balance (so_data o) < 2 ^ 256 -> length (a_CodeHash (so_data o)) = 32%nat ->
  match find_object s a with Some o0 => same_account o0 o | None => False end ->
  exists t, ((setStateObject o;; updateStateObject o);; add_objectDirty a) s1 = Ok (tt, settle o t s1) /\
    finalising s (settle o t s1) /\ written (settle o t s1) a /\ forall b, b <> a -> written s1 b -> written (settle o t s1) b.
Proof.
  intros Hf Ha Hdel Hacc Hb Hc Hk. destruct (encode_account o Hacc Hb Hc) as (data & He & Hne & Hdec).
  destruct (t_update_ok a data (sdb_trie s1) (fi_trie _ _ Hf) Hne) as (t & Hu & Ht & Hget). exists t.
  assert (Hl : (load_account t a).1 = if so_deleted o then None else Some (so_data o)).
  { unfold load_account. rewrite Hget, decide_True, Hdel by done. by destruct data. }
  split; [|split].
  - unfold updateStateObject. rewrite He. unfold add_objectDirty, settle, setStateObject. run. cbn [sdb_trie put set_objects]. rewrite Ha.
    rewrite Hu. unfold put, sdb_setError. cbn. rewrite Ha. by destruct (sdb_dbErr s1).
  - eapply settle_finalising; try done; [by rewrite Hdel|]. rewrite Hdel. by destruct (find_object s a).
  - eapply settle_written; try done. by rewrite Hdel.
Qed.

(** What is known of the state before. *)
Context (s : StateDB) (Hs : state_ok s) (Hsupply : supply_bound s).

Lemma finalise_one_run s1 a :
  finalising s s1 ->
  exists s2, finalise_one slot_order true a s1 = Ok (tt, s2) /\ finalising s s2 /\ written s2 a /\ forall b, b <> a -> written s1 b -> written s2 b.
Proof.
  intros Hf. unfold finalise_one. run. destruct (sdb_objects s1 !! a) as [o|] eqn:Eo.
  2: { exists s1. split_and!; try done. unfold written, find_object. rewrite Eo. by destruct (load_account _ a) as [[?|] ?]. }
  pose proof (fi_found _ _ Hf a) as Hk. unfold kept_account in Hk. destruct (so_deleted o) eqn:Ed.
  - destruct (fi_absent _ _ Hf a o Eo Ed) as (_ & Ha & He). change (so_suicided o || so_empty o = true) in He.
    assert (Hfo : find_object s1 a = None) by (unfold find_object; by rewrite Eo, Ed). rewrite Hfo in Hk.
    cbn [andb]. rewrite He. destruct (finalise_deleted s s1 a o) as (t & E & H); try done.
    by exists (settle (set_deleted true o) t s1).
  - assert (Hfo : find_object s1 a = Some o) by (unfold find_object; by rewrite Eo, Ed). rewrite Hfo in Hk.
    destruct (find_object s a) as [o0|] eqn:E0; [|done]. destruct (g_found _ (ok_good _ Hs) a o0 E0) as [Ha0 Hc0].
    pose proof Hk as [Ha (r & Hd) _ Hsu _]. assert (Ha' : so_address o = a) by congruence. cbn [andb]. destruct (so_suicided o || so_empty o) eqn:Ee.
    + destruct (finalise_deleted s s1 a o) as (t & E & H); try done; [|by exists (settle (set_deleted true o) t s1)].
      rewrite E0. unfold ended. rewrite <- Ee, Hsu. unfold so_empty. by rewrite Hd.
    + set (o1 := updateRoot _ _ _). assert (H1 : same_account o0 o1) by (eapply same_account_trans; [exact Hk|apply updateRoot_same]).
      pose proof H1 as [Ha1 (r1 & Hd1) _ _ Hdel]. pose proof (ok_objects _ Hs a o0 E0) as [[Hn Hp] Hb _].
      specialize (Hsupply a). unfold balance_of in Hsupply. rewrite E0 in Hsupply.
      destruct (finalise_updated s s1 a o1) as (t & E & H); try done;
        [congruence|rewrite Hdel; by eapply found_live|by rewrite Hd1|by rewrite Hd1|by rewrite Hd1|by rewrite E0|].
      by exists (settle o1 t s1).
Qed.

Lemma finalise_all_run l s1 :
  finalising s s1 -> exists s2, each (fun x : Address * Z => finalise_one slot_order true x.1) l s1 = Ok (tt, s2) /\ finalising s s2 /\
    Forall (written s2) l.*1 /\ forall b, b ∉ l.*1 -> written s1 b -> written s2 b.
Proof.
  revert s1. induction l as [|[a z] l IH]; intros s1 Hf; [by exists s1|]. cbn [each].
  destruct (finalise_one_run s1 a Hf) as (s2 & E2 & F2 & W2 & O2). rewrite (bind_run _ _ _ _ _ E2).
  destruct (IH s2 F2) as (s3 & E3 & F3 & W3 & O3). exists s3. split; [done|]. split; [done|]. csimpl. split.
  - constructor; [|done]. destruct (decide (a ∈ l.*1)) as [Hin|Hn]; [by eapply Forall_forall in W3|by apply O3].
  - intros b Hb%not_elem_of_cons Hw. destruct Hb as [Hne Hb]. apply O3; [done|]. by apply O2.
Qed.

Lemma finalising_refl : t_ok (sdb_trie s) -> finalising s s.
Proof.
  intros Ht. split; [|done|apply Hs|].
  - exists (sdb_trie s), (sdb_objects s), (sdb_objectsDirty s), (sdb_dbErr s). by destruct s.
  - intros a. unfold kept_account. destruct (find_object s a); [apply same_account_refl|done].
Qed.

(** ** The state of the next transaction *)
Record finalised (s' : StateDB) : Prop := {
  fd_ok : state_ok s';
  fd_trie : t_ok (sdb_trie s');
  fd_kept : forall a, kept_account s s' a;
  fd_written : Forall (written s') (dirty_order (sdb_dirties s)).*1;
  fd_logs : (sdb_logs s', sdb_logSize s') = (sdb_logs s, sdb_logSize s);
  fd_tx : (sdb_thash s', sdb_bhash s', sdb_txIndex s') = (sdb_thash s, sdb_bhash s, sdb_txIndex s);
  fd_journal : (sdb_entries s', sdb_dirties s', sdb_validRevisions s', sdb_refund s') = ([], ∅, [], 0)
}.

Definition cleared (s : StateDB) : StateDB := set_refund 0 (set_revisions [] (sdb_nextRevisionId s) (set_journal [] ∅ s)).

Lemma finalising_cleared s1 :
  finalising s s1 -> Forall (written s1) (dirty_order (sdb_dirties s)).*1 -> finalised (cleared s1).
Proof.
  intros [(t & m & d & e & ->) Ht Hab Hk] Hw. destruct Hs as [[Hf _ _ Hsz] _ Ho _ Hl]. split; try done. split; try done.
  - split; try done. intros a o' Ho'. specialize (Hk a). unfold kept_account in Hk.
    change (find_object (cleared ?x) a) with (find_object x a) in Ho'. rewrite Ho' in Hk.
    destruct (find_object s a) as [o|] eqn:E; [|done]. destruct Hk as [A (r & D) _ _ _]. rewrite A, D. by apply Hf.
  - by split; constructor.
  - intros a o' Ho'. specialize (Hk a). unfold kept_account in Hk.
    change (find_object (cleared ?x) a) with (find_object x a) in Ho'. rewrite Ho' in Hk.
    destruct (find_object s a) as [o|] eqn:E; [|done]. eapply same_account_ok; [exact Hk|by eapply Ho].
Qed.

Lemma Finalise_run : t_ok (sdb_trie s) -> twp (Finalise slot_order dirty_order true) (fun _ => finalised) s.
Proof.
  intros Ht. destruct (finalise_all_run (dirty_order (sdb_dirties s)) s (finalising_refl Ht)) as (s1 & E1 & F1 & W1 & _).
  apply twp_bind, twp_get, twp_bind. exists tt, s1. split; [exact E1|]. apply twp_modify. by apply finalising_cleared.
Qed.

Lemma finalised_balance s' a : finalised s' -> balance_of s' a <= balance_of s a.
Proof.
  intros F. pose proof (fd_kept _ F a) as Hk. unfold kept_account in Hk. pose proof (balance_positive a s Hs). unfold balance_of in *.
  destruct (find_object s a) as [o|], (find_object s' a) as [o'|]; try done. destruct Hk as [_ (r & ->) _ _ _]. done.
Qed.

Lemma finalised_worth s' : finalised s' -> creates_nothing s s'.
Proof.
  intros F. exists ∅. intros X _. unfold total. induction (elements X) as [|a l IH]; [done|]. csimpl.
  pose proof (finalised_balance s' a F). lia.
Qed.
End final.

