(* ===== verification/StateDemo.v ===== *)
(** * A state database to evaluate

    Tries are finite maps and a database keeps the tries and codes committed to it. The
    theorems on the state are applied to a state of three accounts. *)

From S2P Require Import Prelude Bytes RlpEncode RlpDecode RlpCanonical RlpRaw Types StateDB StateRevert.

(** ** Tries as maps *)
Definition map_trie : Type := gmap bytes bytes.

Definition map_root (t : map_trie) : Hash :=
  if bool_decide (t = ∅) then zeroHash
  else demo_hash (concat ((fun kv => kv.1 ++ byte_of_Z 255 :: kv.2) <$> map_to_list t)).

Record map_database : Type := MkMapDatabase {
  md_tries : gmap Hash map_trie;
  md_codes : gmap Hash bytes
}.

Definition open_map (db : map_database) (root : Hash) : error + map_trie :=
  if bool_decide (root = zeroHash) then inr ∅
  else match md_tries db !! root with Some t => inr t | None => inl ErrUnknownAncestor end.

#[export] Instance demo_database : StateDatabase := {|
  database := map_database;
  trie := map_trie;
  db_OpenTrie := open_map;
  db_OpenStorageTrie := fun db _ root => open_map db root;
  db_EmptyTrie := ∅;
  db_ContractCode := fun db _ h => (md_codes db !! h, None);
  db_ContractCodeSize := fun db _ h => (Z.of_nat (length (default [] (md_codes db !! h))), None);
  db_InsertBlob := fun h c db => MkMapDatabase (md_tries db) (<[h := c]> (md_codes db));
  t_TryGet := fun t k => (default [] (t !! k), None);
  t_TryUpdate := fun k v t => (<[k := v]> t, None);
  t_TryDelete := fun k t => (delete k t, None);
  t_Hash := map_root;
  t_Commit := fun t db =>
    (inr (map_root t), t, MkMapDatabase (<[map_root t := t]> (md_tries db)) (md_codes db))
|}.

#[local] Existing Instance demo_crypto.

(** ** A state of two stored accounts, one of them loaded *)
Definition acct (k : Z) : Address := BigToAddress k.

Definition stored_account (nonce balance : Z) : bytes :=
  match EncodeToBytes (account_gval (MkAccount nonce balance zeroHash emptyCodeHash None [])) with
  | inr (Ok b) => b
  | _ => []
  end.

Definition demo_trie : gmap bytes bytes := <[bytes_of (acct 1) := stored_account 5 100]> {[bytes_of (acct 2) := stored_account 0 7]}.

Definition demo_objects : gmap Address stateObject :=
  {[ acct 1 := newObject (acct 1) (MkAccount 5 100 zeroHash emptyCodeHash None []) ]}.

Definition demo_state : StateDB :=
  MkStateDB (MkMapDatabase ∅ ∅) demo_trie demo_objects ∅ None 0 zeroHash zeroHash 0 ∅ 0 ∅ [] ∅ [] 0.

Example demo_state_balances :
  value (GetBalance (acct 1)) demo_state = Some 100 /\ value (GetBalance (acct 2)) demo_state = Some 7 /\
  value (GetBalance (acct 3)) demo_state = Some 0 /\ value (GetNonce (acct 1)) demo_state = Some 5.
Proof. vm_compute. done. Qed.

Lemma demo_trie_lookup a :
  demo_trie !! bytes_of a =
  if decide (a = acct 1) then Some (stored_account 5 100) else if decide (a = acct 2) then Some (stored_account 0 7) else None.
Proof.
  unfold demo_trie. destruct (decide (a = acct 1)) as [->|H1]; [by rewrite lookup_insert_eq|].
  rewrite lookup_insert_ne by (intros E%(inj bytes_of); congruence).
  destruct (decide (a = acct 2)) as [->|H2]; [by rewrite lookup_singleton_eq|].
  by rewrite lookup_singleton_ne by (intros E%(inj bytes_of); congruence).
Qed.

Lemma demo_load a :
  (load_account (sdb_trie demo_state) a).1 =
  if decide (a = acct 1) then Some (MkAccount 5 100 zeroHash emptyCodeHash None [])
  else if decide (a = acct 2) then Some (MkAccount 0 7 zeroHash emptyCodeHash None []) else None.
Proof.
  unfold load_account. cbn [demo_state sdb_trie t_TryGet demo_database]. rewrite demo_trie_lookup.
  repeat case_decide; try done; vm_compute; reflexivity.
Qed.

Lemma demo_state_good : good demo_state.
Proof.
  split.
  - intros a o. unfold find_object. cbn [demo_state sdb_objects sdb_trie]. unfold demo_objects. destruct (decide (a = acct 1)) as [->|H1].
    + rewrite lookup_singleton_eq. intros [= <-]. split; [done|apply bytes_of_length].
    + rewrite lookup_singleton_ne by done. rewrite (demo_load a : (load_account (demo_trie : @trie demo_database) a).1 = _), decide_False by done.
      destruct (decide (a = acct 2)) as [->|]; [|done]. intros [= <-]. split; [done|apply bytes_of_length].
  - intros a o. cbn [demo_state sdb_objects]. unfold demo_objects. rewrite lookup_singleton_Some. by intros [_ <-].
  - constructor.
  - done.
Qed.

(** A transfer, a contract created and called, and an inner call undone. *)
Definition demo_ops : list op :=
  [OSubBalance (acct 1) 30; OAddBalance (acct 2) 30; OSetNonce (acct 1) 6; OCreateAccount (acct 3) None;
   OSetCode (acct 3) (Some (fit 3 [])); OSetState (acct 3) zeroHash (BigToHash 9); OSnapshot; OSuicide (acct 2);
   OAddLog (MkLog (acct 3) [] [] 7 zeroHash 0 zeroHash 0 false); ORevertToSnapshot 1; OGetState (acct 3) zeroHash;
   OAddRefund 15000; OAddBalance (acct 4) 0; OCreateAccount (acct 1) None; OSnapshot; OAddPreimage zeroHash []].

Definition after {A} (m : M StateDB A) (s : StateDB) : StateDB := match m s with Ok (_, s') => s' | _ => s end.

Lemma value_after {A} (m : M StateDB A) s v : value m s = Some v -> m s = Ok (v, after m s).
Proof. unfold value, after. destruct (m s) as [[? ?]| |]; [by intros [= ->]|done..]. Qed.

Definition demo_snap : StateDB := after Snapshot demo_state.
Definition demo_after : StateDB := after (each run_op demo_ops) demo_snap.

Lemma snapshot_revert_witness :
  value (GetBalance (acct 1)) demo_after = Some 70 /\ value (GetBalance (acct 2)) demo_after = Some 37 /\
  value (StateDB_GetState (acct 3) zeroHash) demo_after = Some (BigToHash 9) /\
  exists s, RevertToSnapshot 0 demo_after = Ok (tt, s) /\ (forall a key, view s a key = view demo_state a key).
Proof.
  split_and!; [vm_compute; reflexivity..|].
  destruct (snapshot_revert demo_state 0 demo_snap demo_ops demo_after) as (s & E & Hv & _).
  - exact demo_state_good.
  - split; constructor.
  - refine (value_after Snapshot demo_state 0 _). vm_compute. reflexivity.
  - refine (value_after (each run_op demo_ops) demo_snap tt _). vm_compute. reflexivity.
  - intros i Hi. unfold demo_ops in Hi. assert (i = 1); [|lia].
    repeat (apply elem_of_cons in Hi as [Hi|Hi]; [congruence|]). by apply elem_of_nil in Hi.
  - exists s. exact (conj E Hv).
Defined.
