(* ===== verification/EvmCore.v ===== *)
(** * State of the virtual machine

    Models the data of [src/core/vm]: errors ([errors.go]), contracts ([contract.go]),
    what [evm.go] and [interpreter.go] keep while a transaction runs, and the state of one
    run of the interpreter. The pool of integers ([intpool.go]) reuses numbers nothing
    refers to any more, so numbers are values here; tracers and [Cancel] are not modelled. *)

From S2P Require Import Prelude Bytes RlpEncode RlpDecode RlpCanonical RlpRaw Types Params EvmData StateDB.

(** ** Errors *)
Inductive vm_error : Type :=
  | ErrOutOfGas | ErrCodeStoreOutOfGas | ErrDepth | ErrInsufficientBalance | ErrContractAddressCollision
  | ErrNoCompatibleInterpreter
  | errWriteProtection | errReturnDataOutOfBounds | errExecutionReverted | errMaxCodeSizeExceeded | errInvalidJump
  | errGasUintOverflow
  | errInvalidOpcode (op : Z) | errStackUnderflow (len min : Z) | errStackLimit (len max : Z)
  | errBadPairingInput | errCurvePoint.

#[export] Instance vm_error_eq_dec : EqDecision vm_error.
Proof. solve_decision. Defined.

(** ** Contracts

    Of [self] and [caller] only addresses are asked, and of the caller of a delegate call
    its own caller and value. *)
Record Contract : Type := MkContract {
  c_CallerAddress : Address;
  c_self : Address;
  c_analysis : option bytes;
  c_Code : bytes;
  c_CodeHash : Hash;
  c_CodeAddr : option Address;
  c_Input : bytes;
  c_Gas : Z;
  c_value : option Z
}.

Inductive ContractRef : Type :=
  | AccountRef (a : Address)
  | Contract_ref (c : Contract).

Definition ref_Address (r : ContractRef) : Address :=
  match r with AccountRef a => a | Contract_ref c => c_self c end.

Definition set_c_Gas (gas : Z) (c : Contract) : Contract :=
  MkContract (c_CallerAddress c) (c_self c) (c_analysis c) (c_Code c) (c_CodeHash c) (c_CodeAddr c) (c_Input c) gas (c_value c).
Definition set_c_Input (input : bytes) (c : Contract) : Contract :=
  MkContract (c_CallerAddress c) (c_self c) (c_analysis c) (c_Code c) (c_CodeHash c) (c_CodeAddr c) input (c_Gas c) (c_value c).
Definition set_c_analysis (a : bytes) (c : Contract) : Contract :=
  MkContract (c_CallerAddress c) (c_self c) (Some a) (c_Code c) (c_CodeHash c) (c_CodeAddr c) (c_Input c) (c_Gas c) (c_value c).

Definition SetCallCode (addr : Address) (hash : Hash) (code : bytes) (c : Contract) : Contract :=
  MkContract (c_CallerAddress c) (c_self c) (c_analysis c) code hash (Some addr) (c_Input c) (c_Gas c) (c_value c).

(** [SetCodeOptionalHash]: the hash is zero when it has not been computed. *)
Definition SetCodeOptionalHash (addr : Address) (codeAndHash : bytes * Hash) (c : Contract) : Contract :=
  SetCallCode addr codeAndHash.2 codeAndHash.1 c.

(** The caller must be a contract: the conversion panics otherwise. *)
Definition AsDelegate (caller : ContractRef) (c : Contract) : option Contract :=
  match caller with
  | AccountRef _ => None
  | Contract_ref parent =>
      Some (MkContract (c_CallerAddress parent) (c_self c) (c_analysis c) (c_Code c) (c_CodeHash c) (c_CodeAddr c)
              (c_Input c) (c_Gas c) (c_value parent))
  end.

Definition GetByte (n : Z) (c : Contract) : Z :=
  if n <? Z.of_nat (length (c_Code c)) then
    match c_Code c !! Z.to_nat n with Some b => Z_of_byte b | None => 0 end
  else 0.

Definition GetOp (n : Z) (c : Contract) : Z := GetByte n c.

Definition contract_UseGas (gas : Z) (c : Contract) : bool * Contract :=
  if c_Gas c <? gas then (false, c) else (true, set_c_Gas (c_Gas c - gas) c).

(** ** What a run is given

    The context of [evm.go], the configuration of the chain, and of the interpreter's
    configuration what is not about tracing. *)
Class Environment : Type := {
  ctx_GetHash : Z -> Hash;
  ctx_Origin : Address;
  ctx_GasPrice : Z;
  ctx_Coinbase : Address;
  ctx_GasLimit : Z;
  ctx_BlockNumber : Z;
  ctx_Time : Z;
  ctx_Difficulty : Z;
  chainConfig : ChainConfig;
  cfg_NoRecursion : bool;
  cfg_EnablePreimageRecording : bool
}.

(** The functions of [src/crypto] and of Go's libraries the precompiled contracts call. *)
Class NativeCrypto : Type := {
  crypto_Ecrecover : bytes -> bytes -> option (bytesN 65);
  sha256_Sum256 : bytes -> bytesN 32;
  ripemd160_Sum : bytes -> bytesN 20;
  G1 : Type;
  G2 : Type;
  G1_Unmarshal : bytes -> option G1;
  G2_Unmarshal : bytes -> option G2;
  G1_Add : G1 -> G1 -> G1;
  G1_ScalarMult : G1 -> Z -> G1;
  G1_Marshal : G1 -> bytesN 64;
  PairingCheck : list G1 -> list G2 -> bool
}.

Section machine.
Context `{C : Crypto} {DB : StateDatabase}.

(** ** The machine

    [evm_jumpdests] is the map of analyses the contracts of one call tree share: a
    contract takes over the map of its caller, and makes a new one when the caller is an
    account. *)
Record Evm : Type := MkEvm {
  evm_StateDB : StateDB;
  evm_depth : Z;
  evm_callGasTemp : Z;
  evm_readOnly : bool;
  evm_returnData : bytes;
  evm_jumpdests : gmap Hash bytes
}.

Definition set_StateDB (s : StateDB) (e : Evm) : Evm :=
  MkEvm s (evm_depth e) (evm_callGasTemp e) (evm_readOnly e) (evm_returnData e) (evm_jumpdests e).
Definition set_depth (d : Z) (e : Evm) : Evm :=
  MkEvm (evm_StateDB e) d (evm_callGasTemp e) (evm_readOnly e) (evm_returnData e) (evm_jumpdests e).
Definition set_callGasTemp (g : Z) (e : Evm) : Evm :=
  MkEvm (evm_StateDB e) (evm_depth e) g (evm_readOnly e) (evm_returnData e) (evm_jumpdests e).
Definition set_readOnly (b : bool) (e : Evm) : Evm :=
  MkEvm (evm_StateDB e) (evm_depth e) (evm_callGasTemp e) b (evm_returnData e) (evm_jumpdests e).
Definition set_returnData (d : bytes) (e : Evm) : Evm :=
  MkEvm (evm_StateDB e) (evm_depth e) (evm_callGasTemp e) (evm_readOnly e) d (evm_jumpdests e).
Definition set_jumpdests (m : gmap Hash bytes) (e : Evm) : Evm :=
  MkEvm (evm_StateDB e) (evm_depth e) (evm_callGasTemp e) (evm_readOnly e) (evm_returnData e) m.

(** One run of the interpreter. The top of the stack is the head of the list. *)
Record frame : Type := MkFrame {
  f_pc : Z;
  f_stack : list Z;
  f_mem : Memory;
  f_contract : Contract;
  f_evm : Evm
}.

Definition set_pc (pc : Z) (f : frame) : frame := MkFrame pc (f_stack f) (f_mem f) (f_contract f) (f_evm f).
Definition set_stack (st : list Z) (f : frame) : frame := MkFrame (f_pc f) st (f_mem f) (f_contract f) (f_evm f).
Definition set_mem (m : Memory) (f : frame) : frame := MkFrame (f_pc f) (f_stack f) m (f_contract f) (f_evm f).
Definition set_contract (c : Contract) (f : frame) : frame := MkFrame (f_pc f) (f_stack f) (f_mem f) c (f_evm f).
Definition set_evm (e : Evm) (f : frame) : frame := MkFrame (f_pc f) (f_stack f) (f_mem f) (f_contract f) e.

(** Code on a part of the state. *)
Definition zoom {S T A} (part : S -> T) (put_part : T -> S -> S) (m : M T A) : M S A := fun s =>
  match m (part s) with
  | Ok (a, t) => Ok (a, put_part t s)
  | Panic => Panic
  | OutOfFuel => OutOfFuel
  end.

Definition on_db {A} (m : M StateDB A) : M Evm A := zoom evm_StateDB set_StateDB m.
Definition on_evm {A} (m : M Evm A) : M frame A := zoom f_evm set_evm m.
Definition db {A} (m : M StateDB A) : M frame A := on_evm (on_db m).

(** ** [stack.go] *)
Definition pop : M frame Z :=
  f ← get;
  match f_stack f with
  | x :: st => modify (set_stack st);; mret x
  | [] => panic
  end.

Definition push (x : Z) : M frame unit := modify (fun f => set_stack (x :: f_stack f) f).

Definition Back (n : nat) : M frame Z :=
  f ← get;
  deref (f_stack f !! n).

Definition peek : M frame Z := Back 0.

(** The number at the top is changed in place. *)
Definition set_top (x : Z) : M frame unit := pop;; push x.

Definition stack_dup (n : nat) : M frame unit :=
  x ← Back (n - 1);
  push x.

Definition stack_swap (n : nat) : M frame unit :=
  x ← Back (n - 1);
  y ← Back 0;
  modify (fun f => set_stack (<[0%nat := x]> (<[(n - 1)%nat := y]> (f_stack f))) f).

(** ** The contract of the run *)
Definition contract : M frame Contract := gets f_contract.

Definition UseGas (gas : Z) : M frame bool :=
  c ← contract;
  let '(ok, c) := contract_UseGas gas c in
  modify (set_contract c);;
  mret ok.

(** [validJumpdest]: with the hash of the code, the analysis is looked up in the shared
    map and kept there; without one, it is kept in the contract. *)
Definition analyse (code : bytes) : M frame bytes := deref (codeBitmap code).

Definition jump_analysis : M frame bytes :=
  c ← contract;
  if bool_decide (c_CodeHash c <> zeroHash) then
    m ← gets (fun f => evm_jumpdests (f_evm f));
    match m !! c_CodeHash c with
    | Some a => mret a
    | None =>
        a ← analyse (c_Code c);
        modify (fun f => set_evm (set_jumpdests (<[c_CodeHash c := a]> m) (f_evm f)) f);;
        mret a
    end
  else
    match c_analysis c with
    | Some a => mret a
    | None =>
        a ← analyse (c_Code c);
        modify (set_contract (set_c_analysis a c));;
        mret a
    end.

Definition validJumpdest (dest : Z) : M frame bool :=
  c ← contract;
  let udest := big_Uint64 dest in
  if (63 <=? big_BitLen dest) || (Z.of_nat (length (c_Code c)) <=? udest) then mret false
  else
    b ← deref (c_Code c !! Z.to_nat udest);
    if negb (Z_of_byte b =? JUMPDEST) then mret false
    else
      a ← jump_analysis;
      deref (codeSegment a udest).

(** [NewContract]; the analyses are those of the caller's call tree. *)
Definition NewContract (caller : ContractRef) (object : Address) (value : option Z) (gas : Z) : M Evm Contract :=
  match caller with
  | AccountRef _ => modify (set_jumpdests ∅)
  | Contract_ref _ => mret tt
  end;;
  mret (MkContract (ref_Address caller) object None [] zeroHash None [] gas value).

(** ** Calls

    The functions of the machine by which contracts run each other: what they return, the
    gas left over, and an error. *)
Definition call_result : Type := option bytes * Z * option vm_error.
Definition create_result : Type := option bytes * Address * Z * option vm_error.

Record Calls : Type := MkCalls {
  call_Call : ContractRef -> Address -> option bytes -> Z -> Z -> M Evm call_result;
  call_CallCode : ContractRef -> Address -> option bytes -> Z -> Z -> M Evm call_result;
  call_DelegateCall : ContractRef -> Address -> option bytes -> Z -> M Evm call_result;
  call_StaticCall : ContractRef -> Address -> option bytes -> Z -> M Evm call_result;
  call_Create : ContractRef -> option bytes -> Z -> Z -> M Evm create_result;
  call_Create2 : ContractRef -> option bytes -> Z -> Z -> Z -> M Evm create_result
}.
End machine.
