(* ===== verification/EvmGas.v ===== *)
(** * Gas

    Models [src/core/vm/memory_table.go], [gas_table.go] and [gas.go]: the memory an
    instruction needs, and the part of its cost that is not constant. *)

From S2P Require Import Prelude Bytes RlpEncode RlpDecode RlpCanonical RlpRaw Types Params EvmData StateDB EvmCore.

Definition GasQuickStep : Z := 2.
Definition GasFastestStep : Z := 3.
Definition GasFastStep : Z := 5.
Definition GasMidStep : Z := 8.
Definition GasSlowStep : Z := 10.
Definition GasExtStep : Z := 20.

Section gas.
Context `{C : Crypto} {DB : StateDatabase} {E : Environment}.

(** ** [memory_table.go] *)
Definition memorySizeFunc : Type := M frame (Z * bool).

Definition region (off len : nat) : memorySizeFunc :=
  o ← Back off;
  l ← Back len;
  mret (calcMemSize64 o l).

Definition memorySha3 : memorySizeFunc := region 0 1.
Definition memoryCallDataCopy : memorySizeFunc := region 0 2.
Definition memoryReturnDataCopy : memorySizeFunc := region 0 2.
Definition memoryCodeCopy : memorySizeFunc := region 0 2.
Definition memoryExtCodeCopy : memorySizeFunc := region 1 3.
Definition memoryMLoad : memorySizeFunc := o ← Back 0; mret (calcMemSize64WithUint o 32).
Definition memoryMStore8 : memorySizeFunc := o ← Back 0; mret (calcMemSize64WithUint o 1).
Definition memoryMStore : memorySizeFunc := o ← Back 0; mret (calcMemSize64WithUint o 32).
Definition memoryCreate : memorySizeFunc := region 1 2.
Definition memoryCreate2 : memorySizeFunc := region 1 2.

Definition larger_region (off1 len1 off2 len2 : nat) : memorySizeFunc :=
  '(x, overflow) ← region off1 len1;
  if overflow : bool then mret (0, true)
  else
    '(y, overflow) ← region off2 len2;
    if overflow : bool then mret (0, true)
    else if y <? x then mret (x, false)
    else mret (y, false).

Definition memoryCall : memorySizeFunc := larger_region 5 6 3 4.
Definition memoryDelegateCall : memorySizeFunc := larger_region 4 5 2 3.
Definition memoryStaticCall : memorySizeFunc := larger_region 4 5 2 3.
Definition memoryReturn : memorySizeFunc := region 0 1.
Definition memoryRevert : memorySizeFunc := region 0 1.
Definition memoryLog : memorySizeFunc := region 0 1.

(** ** Costs that can fail *)
Definition costs (A : Type) : Type := M frame (vm_error + A).

Definition costs_bind {A B} (m : costs A) (k : A -> costs B) : costs B :=
  r ← m;
  match r with
  | inl e => mret (inl e)
  | inr a => k a
  end.

Notation "x ⇐ m ; k" := (costs_bind m (fun x => k)) (at level 20, m at level 100, k at level 200, right associativity) : go_scope.

Definition cost {A} (a : A) : costs A := mret (inr a).
Definition cost_error {A} (e : vm_error) : costs A := mret (inl e).
Definition lift_cost {A} (m : M frame A) : costs A := a ← m; mret (inr a).

(** A result with its overflow flag. *)
Definition checked (r : Z * bool) : costs Z := if r.2 then cost_error errGasUintOverflow else cost r.1.

(** ** [memoryGasCost] *)
Definition memoryGasCost (newMemSize : Z) : costs Z :=
  if newMemSize =? 0 then cost 0
  else if 0x1FFFFFFFE0 <? newMemSize then cost_error errGasUintOverflow
  else
    let newMemSizeWords := toWordSize newMemSize in
    let newMemSize := uint64 (newMemSizeWords * 32) in
    mem ⇐ lift_cost (gets f_mem);
    if mem_Len mem <? newMemSize then
      let square := uint64 (newMemSizeWords * newMemSizeWords) in
      let linCoef := uint64 (newMemSizeWords * MemoryGas) in
      let quadCoef := square / QuadCoeffDiv in
      let newTotalFee := uint64 (linCoef + quadCoef) in
      let fee := uint64 (newTotalFee - m_lastGasCost mem) in
      _ ⇐ lift_cost (modify (set_mem (MkMemory (m_store mem) newTotalFee)));
      cost fee
    else cost 0.

(** [callGas] *)
Definition callGas (gt : GasTable) (availableGas base callCost : Z) : vm_error + Z :=
  let rest := if negb (big_IsUint64 callCost) then inl errGasUintOverflow else inr (big_Uint64 callCost) in
  if 0 <? gt_CreateBySuicide gt then
    let availableGas := uint64 (availableGas - base) in
    let gas := uint64 (availableGas - availableGas / 64) in
    if negb (big_IsUint64 callCost) || (gas <? big_Uint64 callCost) then inr gas else rest
  else rest.

(** ** [gas_table.go] *)
Definition gasFunc : Type := GasTable -> Z -> costs Z.

(** Memory, a fixed cost, and one by the word of an operand, as the copying instructions
    and [gasSha3] have it. *)
Definition memory_and (memorySize step : Z) : costs Z :=
  gas ⇐ memoryGasCost memorySize;
  checked (SafeAdd gas step).

Definition per_word (n : nat) (wordGas gas : Z) : costs Z :=
  size ⇐ lift_cost (Back n);
  words ⇐ checked (bigUint64 size);
  words ⇐ checked (SafeMul (toWordSize words) wordGas);
  checked (SafeAdd gas words).

Definition gasCallDataCopy : gasFunc := fun gt memorySize =>
  gas ⇐ memory_and memorySize GasFastestStep; per_word 2 CopyGas gas.
Definition gasReturnDataCopy : gasFunc := fun gt memorySize =>
  gas ⇐ memory_and memorySize GasFastestStep; per_word 2 CopyGas gas.
Definition gasSha3 : gasFunc := fun gt memorySize =>
  gas ⇐ memory_and memorySize Sha3Gas; per_word 1 Sha3WordGas gas.
Definition gasCodeCopy : gasFunc := fun gt memorySize =>
  gas ⇐ memory_and memorySize GasFastestStep; per_word 2 CopyGas gas.
Definition gasExtCodeCopy : gasFunc := fun gt memorySize =>
  gas ⇐ memory_and memorySize (gt_ExtcodeCopy gt); per_word 3 CopyGas gas.

Definition gasSStore : gasFunc := fun gt memorySize =>
  y ⇐ lift_cost (Back 1);
  x ⇐ lift_cost (Back 0);
  c ⇐ lift_cost contract;
  current ⇐ lift_cost (db (StateDB_GetState (c_self c) (BigToHash x)));
  let rules := Rules_of chainConfig ctx_BlockNumber in
  if r_IsPetersburg rules || negb (r_IsConstantinople rules) then
    if bool_decide (current = zeroHash) && negb (y =? 0) then cost SstoreSetGas
    else if bool_decide (current <> zeroHash) && (y =? 0) then
      _ ⇐ lift_cost (db (AddRefund SstoreRefundGas));
      cost SstoreClearGas
    else cost SstoreResetGas
  else
    let value := BigToHash y in
    if bool_decide (current = value) then cost NetSstoreNoopGas
    else
      original ⇐ lift_cost (db (StateDB_GetCommittedState (c_self c) (BigToHash x)));
      if bool_decide (original = current) then
        if bool_decide (original = zeroHash) then cost NetSstoreInitGas
        else
          _ ⇐ lift_cost (when (bool_decide (value = zeroHash)) (db (AddRefund NetSstoreClearRefund)));
          cost NetSstoreCleanGas
      else
        _ ⇐ lift_cost (when (bool_decide (original <> zeroHash))
                         (if bool_decide (current = zeroHash) then db (SubRefund NetSstoreClearRefund)
                          else when (bool_decide (value = zeroHash)) (db (AddRefund NetSstoreClearRefund))));
        _ ⇐ lift_cost (when (bool_decide (original = value))
                         (if bool_decide (original = zeroHash) then db (AddRefund NetSstoreResetClearRefund)
                          else db (AddRefund NetSstoreResetRefund)));
        cost NetSstoreDirtyGas.

Definition makeGasLog (n : Z) : gasFunc := fun gt memorySize =>
  requested ⇐ lift_cost (Back 1);
  requestedSize ⇐ checked (bigUint64 requested);
  gas ⇐ memoryGasCost memorySize;
  gas ⇐ checked (SafeAdd gas LogGas);
  gas ⇐ checked (SafeAdd gas (uint64 (n * LogTopicGas)));
  memorySizeGas ⇐ checked (SafeMul requestedSize LogDataGas);
  checked (SafeAdd gas memorySizeGas).

Definition gasExtCodeHash : gasFunc := fun gt _ => cost (gt_ExtcodeHash gt).

(** An error of the memory is replaced by the same error. *)
Definition gasMLoad : gasFunc := fun gt memorySize => memory_and memorySize GasFastestStep.
Definition gasMStore8 : gasFunc := fun gt memorySize => memory_and memorySize GasFastestStep.
Definition gasMStore : gasFunc := fun gt memorySize => memory_and memorySize GasFastestStep.

Definition gasCreate : gasFunc := fun gt memorySize => memory_and memorySize CreateGas.
Definition gasCreate2 : gasFunc := fun gt memorySize =>
  gas ⇐ memory_and memorySize Create2Gas; per_word 2 Sha3WordGas gas.

Definition gasBalance : gasFunc := fun gt _ => cost (gt_Balance gt).
Definition gasExtCodeSize : gasFunc := fun gt _ => cost (gt_ExtcodeSize gt).
Definition gasSLoad : gasFunc := fun gt _ => cost (gt_SLoad gt).

Definition gasExp : gasFunc := fun gt _ =>
  e ⇐ lift_cost (Back 1);
  let expByteLen := (big_BitLen e + 7) / 8 in
  checked (SafeAdd (uint64 (expByteLen * gt_ExpByte gt)) ExpGas).

(** The end of the functions for calls: the gas of the call is set aside. *)
Definition with_call_gas (gt : GasTable) (gas : Z) : costs Z :=
  c ⇐ lift_cost contract;
  requested ⇐ lift_cost (Back 0);
  match callGas gt (c_Gas c) gas requested with
  | inl e =>
      _ ⇐ lift_cost (on_evm (modify (set_callGasTemp 0)));
      cost_error e
  | inr temp =>
      _ ⇐ lift_cost (on_evm (modify (set_callGasTemp temp)));
      checked (SafeAdd gas temp)
  end.

Definition gasCall : gasFunc := fun gt memorySize =>
  value ⇐ lift_cost (Back 2);
  a ⇐ lift_cost (Back 1);
  let transfersValue := negb (value =? 0) in
  let address := BigToAddress a in
  newAccount ⇐
    (if IsEIP158 chainConfig ctx_BlockNumber then
       if transfersValue then lift_cost (db (Empty_account address)) else cost false
     else
       exists_ ⇐ lift_cost (db (Exist address));
       cost (negb exists_));
  let gas := gt_Calls gt in
  let gas := if newAccount : bool then uint64 (gas + CallNewAccountGas) else gas in
  let gas := if transfersValue then uint64 (gas + CallValueTransferGas) else gas in
  memoryGas ⇐ memoryGasCost memorySize;
  gas ⇐ checked (SafeAdd gas memoryGas);
  with_call_gas gt gas.

Definition gasCallCode : gasFunc := fun gt memorySize =>
  value ⇐ lift_cost (Back 2);
  let gas := gt_Calls gt in
  let gas := if negb (value =? 0) then uint64 (gas + CallValueTransferGas) else gas in
  memoryGas ⇐ memoryGasCost memorySize;
  gas ⇐ checked (SafeAdd gas memoryGas);
  with_call_gas gt gas.

Definition gasReturn : gasFunc := fun gt memorySize => memoryGasCost memorySize.
Definition gasRevert : gasFunc := fun gt memorySize => memoryGasCost memorySize.

Definition gasSuicide : gasFunc := fun gt _ =>
  c ⇐ lift_cost contract;
  gas ⇐
    (if IsEIP150 chainConfig ctx_BlockNumber then
       a ⇐ lift_cost (Back 0);
       let address := BigToAddress a in
       newAccount ⇐
         (if IsEIP158 chainConfig ctx_BlockNumber then
            empty ⇐ lift_cost (db (Empty_account address));
            if empty : bool then
              balance ⇐ lift_cost (db (GetBalance (c_self c)));
              cost (negb (balance =? 0))
            else cost false
          else
            exists_ ⇐ lift_cost (db (Exist address));
            cost (negb exists_));
       cost (if newAccount : bool then uint64 (gt_Suicide gt + gt_CreateBySuicide gt) else gt_Suicide gt)
     else cost 0);
  suicided ⇐ lift_cost (db (HasSuicided (c_self c)));
  _ ⇐ lift_cost (when (negb suicided) (db (AddRefund SuicideRefundGas)));
  cost gas.

Definition gasDelegateCall : gasFunc := fun gt memorySize =>
  gas ⇐ memory_and memorySize (gt_Calls gt);
  with_call_gas gt gas.

Definition gasStaticCall : gasFunc := fun gt memorySize =>
  gas ⇐ memory_and memorySize (gt_Calls gt);
  with_call_gas gt gas.
End gas.

Notation "x ⇐ m ; k" := (costs_bind m (fun x => k)) (at level 20, m at level 100, k at level 200, right associativity) : go_scope.
