(* ===== verification/EvmOps.v ===== *)
(** * Instructions

    Models [src/core/vm/instructions.go]: what each instruction does to the stack, the
    memory, the contract and the state. *)

From S2P Require Import Prelude Bytes RlpEncode RlpDecode RlpCanonical RlpRaw Types Params EvmData StateDB EvmCore.

Section instructions.
Context `{C : Crypto} {DB : StateDatabase} {E : Environment}.
Context (calls : Calls).

(** The bytes an instruction returns, and its error. *)
Definition executionFunc : Type := M frame (option bytes * option vm_error).
Definition no_result : executionFunc := mret (None, None).
Definition fails (e : vm_error) : executionFunc := mret (None, Some e).

(** ** Arithmetic *)
Definition opAdd : executionFunc := x ← pop; y ← peek; set_top (U256 (x + y));; no_result.
Definition opSub : executionFunc := x ← pop; y ← peek; set_top (U256 (x - y));; no_result.
Definition opMul : executionFunc := x ← pop; y ← pop; push (U256 (x * y));; no_result.

Definition opDiv : executionFunc :=
  x ← pop;
  y ← peek;
  set_top (if negb (y =? 0) then U256 (x / y) else 0);;
  no_result.

Definition opSdiv : executionFunc :=
  x ← pop;
  y ← pop;
  let x := S256 x in
  let y := S256 y in
  push (if (y =? 0) || (x =? 0) then 0
        else if negb (Z.sgn x =? Z.sgn y) then U256 (- (Z.abs x / Z.abs y))
        else U256 (Z.abs x / Z.abs y));;
  no_result.

Definition opMod : executionFunc :=
  x ← pop;
  y ← pop;
  push (if y =? 0 then 0 else U256 (x mod y));;
  no_result.

Definition opSmod : executionFunc :=
  x ← pop;
  y ← pop;
  let x := S256 x in
  let y := S256 y in
  push (if y =? 0 then 0
        else if x <? 0 then U256 (- (Z.abs x mod Z.abs y))
        else U256 (Z.abs x mod Z.abs y));;
  no_result.

Definition opExp : executionFunc :=
  base ← pop;
  exponent ← pop;
  push (if exponent <? 1 then 1
        else if base =? 0 then 0
        else if exponent =? 1 then base
        else Exp base exponent);;
  no_result.

Definition opSignExtend : executionFunc :=
  back ← pop;
  when (back <? 31)
    (let bit := big_Uint64 back * 8 + 7 in
     num ← pop;
     let mask := Z.shiftl 1 bit - 1 in
     push (U256 (if Z.testbit num bit then Z.lor num (Z.lnot mask) else Z.land num mask)));;
  no_result.

(** ** Comparisons and bits *)
Definition opNot : executionFunc := x ← peek; set_top (U256 (Z.lnot x));; no_result.

Definition of_bool (b : bool) : Z := if b then 1 else 0.

Definition opLt : executionFunc := x ← pop; y ← peek; set_top (of_bool (x <? y));; no_result.
Definition opGt : executionFunc := x ← pop; y ← peek; set_top (of_bool (y <? x));; no_result.

Definition opSlt : executionFunc :=
  x ← pop;
  y ← peek;
  set_top (if (tt255 <=? x) && (y <? tt255) then 1
           else if (x <? tt255) && (tt255 <=? y) then 0
           else of_bool (x <? y));;
  no_result.

Definition opSgt : executionFunc :=
  x ← pop;
  y ← peek;
  set_top (if (tt255 <=? x) && (y <? tt255) then 0
           else if (x <? tt255) && (tt255 <=? y) then 1
           else of_bool (y <? x));;
  no_result.

Definition opEq : executionFunc := x ← pop; y ← peek; set_top (of_bool (x =? y));; no_result.
Definition opIszero : executionFunc := x ← peek; set_top (if 0 <? x then 0 else 1);; no_result.
Definition opAnd : executionFunc := x ← pop; y ← pop; push (Z.land x y);; no_result.
Definition opOr : executionFunc := x ← pop; y ← peek; set_top (Z.lor x y);; no_result.
Definition opXor : executionFunc := x ← pop; y ← peek; set_top (Z.lxor x y);; no_result.

Definition opByte : executionFunc :=
  th ← pop;
  val ← peek;
  set_top (if th <? 32 then Byte val 32 (big_Int64 th) else 0);;
  no_result.

Definition opAddmod : executionFunc :=
  x ← pop; y ← pop; z ← pop;
  push (if 0 <? z then U256 ((x + y) mod z) else 0);;
  no_result.

Definition opMulmod : executionFunc :=
  x ← pop; y ← pop; z ← pop;
  push (if 0 <? z then U256 ((x * y) mod z) else 0);;
  no_result.

Definition opSHL : executionFunc :=
  shift ← pop;
  value ← peek;
  let shift := U256 shift in
  let value := U256 value in
  set_top (if 256 <=? shift then 0 else U256 (Z.shiftl value (big_Uint64 shift)));;
  no_result.

Definition opSHR : executionFunc :=
  shift ← pop;
  value ← peek;
  let shift := U256 shift in
  let value := U256 value in
  set_top (if 256 <=? shift then 0 else U256 (Z.shiftr value (big_Uint64 shift)));;
  no_result.

Definition opSAR : executionFunc :=
  shift ← pop;
  value ← pop;
  let shift := U256 shift in
  let value := S256 value in
  push (U256 (if 256 <=? shift then if 0 <=? value then 0 else -1
              else Z.shiftr value (big_Uint64 shift)));;
  no_result.

(** ** Memory *)
Definition memory_Get (offset size : Z) : M frame (option bytes) :=
  m ← gets f_mem;
  deref (mem_Get offset size m).

Definition memory_Set (offset size : Z) (value : bytes) : M frame unit :=
  m ← gets f_mem;
  m ← deref (mem_Set offset size value m);
  modify (set_mem m).

Definition opSha3 : executionFunc :=
  offset ← pop;
  size ← pop;
  data ← memory_Get (big_Int64 offset) (big_Int64 size);
  let hash := keccak256 (default [] data) in
  when cfg_EnablePreimageRecording (db (AddPreimage hash (default [] data)));;
  push (SetBytes (bytes_of hash));;
  no_result.

(** ** The environment *)
Definition opAddress : executionFunc := c ← contract; push (SetBytes (bytes_of (c_self c)));; no_result.

Definition opBalance : executionFunc :=
  slot ← peek;
  balance ← db (GetBalance (BigToAddress slot));
  set_top balance;;
  no_result.

Definition opOrigin : executionFunc := push (SetBytes (bytes_of ctx_Origin));; no_result.
Definition opCaller : executionFunc := c ← contract; push (SetBytes (bytes_of (c_CallerAddress c)));; no_result.
Definition opCallValue : executionFunc := c ← contract; v ← deref (c_value c); push v;; no_result.

Definition opCallDataLoad : executionFunc :=
  c ← contract;
  start ← pop;
  data ← deref (getDataBig (c_Input c) start 32);
  push (SetBytes data);;
  no_result.

Definition opCallDataSize : executionFunc := c ← contract; push (Z.of_nat (length (c_Input c)));; no_result.

Definition opCallDataCopy : executionFunc :=
  memOffset ← pop; dataOffset ← pop; length ← pop;
  c ← contract;
  data ← deref (getDataBig (c_Input c) dataOffset length);
  memory_Set (big_Uint64 memOffset) (big_Uint64 length) data;;
  no_result.

Definition return_data : M frame bytes := gets (fun f => evm_returnData (f_evm f)).

Definition opReturnDataSize : executionFunc :=
  d ← return_data;
  push (Z.of_nat (length d));;
  no_result.

Definition opReturnDataCopy : executionFunc :=
  memOffset ← pop; dataOffset ← pop; length ← pop;
  d ← return_data;
  let end_ := dataOffset + length in
  if negb (big_IsUint64 end_) || (Z.of_nat (List.length d) <? big_Uint64 end_) then fails errReturnDataOutOfBounds
  else
    data ← deref (slice_of d (big_Uint64 dataOffset) (big_Uint64 end_));
    memory_Set (big_Uint64 memOffset) (big_Uint64 length) data;;
    no_result.

Definition opExtCodeSize : executionFunc :=
  slot ← peek;
  size ← db (GetCodeSize (BigToAddress slot));
  set_top (uint64 size);;
  no_result.

Definition opCodeSize : executionFunc := c ← contract; push (Z.of_nat (length (c_Code c)));; no_result.

Definition opCodeCopy : executionFunc :=
  memOffset ← pop; codeOffset ← pop; length ← pop;
  c ← contract;
  codeCopy ← deref (getDataBig (c_Code c) codeOffset length);
  memory_Set (big_Uint64 memOffset) (big_Uint64 length) codeCopy;;
  no_result.

Definition opExtCodeCopy : executionFunc :=
  addr ← pop; memOffset ← pop; codeOffset ← pop; length ← pop;
  code ← db (GetCode (BigToAddress addr));
  codeCopy ← deref (getDataBig (default [] code) codeOffset length);
  memory_Set (big_Uint64 memOffset) (big_Uint64 length) codeCopy;;
  no_result.

Definition opExtCodeHash : executionFunc :=
  slot ← peek;
  let address := BigToAddress slot in
  empty ← db (Empty_account address);
  if empty : bool then set_top 0;; no_result
  else
    h ← db (GetCodeHash address);
    set_top (SetBytes (bytes_of h));;
    no_result.

Definition opGasprice : executionFunc := push ctx_GasPrice;; no_result.

Definition opBlockhash : executionFunc :=
  num ← pop;
  let n := ctx_BlockNumber - 257 in
  push (if (n <? num) && (num <? ctx_BlockNumber) then Hash_Big (ctx_GetHash (big_Uint64 num)) else 0);;
  no_result.

Definition opCoinbase : executionFunc := push (SetBytes (bytes_of ctx_Coinbase));; no_result.
Definition opTimestamp : executionFunc := push (U256 ctx_Time);; no_result.
Definition opNumber : executionFunc := push (U256 ctx_BlockNumber);; no_result.
Definition opDifficulty : executionFunc := push (U256 ctx_Difficulty);; no_result.
Definition opGasLimit : executionFunc := push (U256 ctx_GasLimit);; no_result.

(** ** Stack, memory, storage and jumps *)
Definition opPop : executionFunc := pop;; no_result.

Definition opMload : executionFunc :=
  offset ← pop;
  d ← memory_Get (big_Int64 offset) 32;
  push (SetBytes (default [] d));;
  no_result.

Definition opMstore : executionFunc :=
  mStart ← pop;
  val ← pop;
  m ← gets f_mem;
  m ← deref (mem_Set32 (big_Uint64 mStart) val m);
  modify (set_mem m);;
  no_result.

Definition opMstore8 : executionFunc :=
  off ← pop;
  val ← pop;
  m ← gets f_mem;
  let off := big_Int64 off in
  if (0 <=? off) && (off <? mem_Len m) then
    modify (set_mem (MkMemory (<[Z.to_nat off := byte_of_Z (Z.land (big_Int64 val) 0xff)]> (m_store m)) (m_lastGasCost m)));;
    no_result
  else panic.

Definition opSload : executionFunc :=
  loc ← peek;
  c ← contract;
  val ← db (StateDB_GetState (c_self c) (BigToHash loc));
  set_top (SetBytes (bytes_of val));;
  no_result.

Definition opSstore : executionFunc :=
  loc ← pop;
  val ← pop;
  c ← contract;
  db (SetState (c_self c) (BigToHash loc) (BigToHash val));;
  no_result.

Definition opJump : executionFunc :=
  pos ← pop;
  ok ← validJumpdest pos;
  if negb ok then fails errInvalidJump
  else modify (set_pc (big_Uint64 pos));; no_result.

Definition opJumpi : executionFunc :=
  pos ← pop;
  cond ← pop;
  if negb (cond =? 0) then
    ok ← validJumpdest pos;
    if negb ok then fails errInvalidJump
    else modify (set_pc (big_Uint64 pos));; no_result
  else modify (fun f => set_pc (uint64 (f_pc f + 1)) f);; no_result.

Definition opJumpdest : executionFunc := no_result.
Definition opPc : executionFunc := pc ← gets f_pc; push pc;; no_result.
Definition opMsize : executionFunc := m ← gets f_mem; push (mem_Len m);; no_result.
Definition opGas : executionFunc := c ← contract; push (c_Gas c);; no_result.

(** ** Creating and calling contracts *)
Definition return_gas (returnGas : Z) : M frame unit :=
  modify (fun f => set_contract (set_c_Gas (uint64 (c_Gas (f_contract f) + returnGas)) (f_contract f)) f).

Definition opCreate : executionFunc :=
  value ← pop; offset ← pop; size ← pop;
  input ← memory_Get (big_Int64 offset) (big_Int64 size);
  c ← contract;
  let gas := c_Gas c in
  let gas := if IsEIP150 chainConfig ctx_BlockNumber then uint64 (gas - gas / 64) else gas in
  UseGas gas;;
  c ← contract;
  '(res, addr, returnGas, suberr) ← on_evm (call_Create calls (Contract_ref c) input gas value);
  push (if IsHomestead chainConfig ctx_BlockNumber && bool_decide (suberr = Some ErrCodeStoreOutOfGas) then 0
        else if bool_decide (suberr <> None) && bool_decide (suberr <> Some ErrCodeStoreOutOfGas) then 0
        else SetBytes (bytes_of addr));;
  return_gas returnGas;;
  if bool_decide (suberr = Some errExecutionReverted) then mret (res, None) else no_result.

Definition opCreate2 : executionFunc :=
  endowment ← pop; offset ← pop; size ← pop; salt ← pop;
  input ← memory_Get (big_Int64 offset) (big_Int64 size);
  c ← contract;
  let gas := c_Gas c in
  let gas := uint64 (gas - gas / 64) in
  UseGas gas;;
  c ← contract;
  '(res, addr, returnGas, suberr) ← on_evm (call_Create2 calls (Contract_ref c) input gas endowment salt);
  push (if bool_decide (suberr <> None) then 0 else SetBytes (bytes_of addr));;
  return_gas returnGas;;
  if bool_decide (suberr = Some errExecutionReverted) then mret (res, None) else no_result.

(** What follows a call: the result on the stack, the returned bytes in memory, and the
    gas that is left given back. *)
Definition after_call (retOffset retSize : Z) (r : call_result) : executionFunc :=
  let '(ret, returnGas, err) := r in
  push (if bool_decide (err <> None) then 0 else 1);;
  when (bool_decide (err = None) || bool_decide (err = Some errExecutionReverted))
    (memory_Set (big_Uint64 retOffset) (big_Uint64 retSize) (default [] ret));;
  return_gas returnGas;;
  mret (ret, None).

Definition call_gas : M frame Z := gets (fun f => evm_callGasTemp (f_evm f)).

Definition with_stipend (value gas : Z) : Z := if negb (value =? 0) then uint64 (gas + CallStipend) else gas.

Definition opCall : executionFunc :=
  pop;;
  gas ← call_gas;
  addr ← pop; value ← pop; inOffset ← pop; inSize ← pop; retOffset ← pop; retSize ← pop;
  let toAddr := BigToAddress addr in
  let value := U256 value in
  args ← memory_Get (big_Int64 inOffset) (big_Int64 inSize);
  c ← contract;
  r ← on_evm (call_Call calls (Contract_ref c) toAddr args (with_stipend value gas) value);
  after_call retOffset retSize r.

Definition opCallCode : executionFunc :=
  pop;;
  gas ← call_gas;
  addr ← pop; value ← pop; inOffset ← pop; inSize ← pop; retOffset ← pop; retSize ← pop;
  let toAddr := BigToAddress addr in
  let value := U256 value in
  args ← memory_Get (big_Int64 inOffset) (big_Int64 inSize);
  c ← contract;
  r ← on_evm (call_CallCode calls (Contract_ref c) toAddr args (with_stipend value gas) value);
  after_call retOffset retSize r.

Definition opDelegateCall : executionFunc :=
  pop;;
  gas ← call_gas;
  addr ← pop; inOffset ← pop; inSize ← pop; retOffset ← pop; retSize ← pop;
  let toAddr := BigToAddress addr in
  args ← memory_Get (big_Int64 inOffset) (big_Int64 inSize);
  c ← contract;
  r ← on_evm (call_DelegateCall calls (Contract_ref c) toAddr args gas);
  after_call retOffset retSize r.

Definition opStaticCall : executionFunc :=
  pop;;
  gas ← call_gas;
  addr ← pop; inOffset ← pop; inSize ← pop; retOffset ← pop; retSize ← pop;
  let toAddr := BigToAddress addr in
  args ← memory_Get (big_Int64 inOffset) (big_Int64 inSize);
  c ← contract;
  r ← on_evm (call_StaticCall calls (Contract_ref c) toAddr args gas);
  after_call retOffset retSize r.

(** ** Ending a run *)
Definition memory_GetPtr (offset size : Z) : M frame (option bytes) :=
  m ← gets f_mem;
  deref (mem_GetPtr offset size m).

Definition opReturn : executionFunc :=
  offset ← pop;
  size ← pop;
  ret ← memory_GetPtr (big_Int64 offset) (big_Int64 size);
  mret (ret, None).

Definition opRevert : executionFunc :=
  offset ← pop;
  size ← pop;
  ret ← memory_GetPtr (big_Int64 offset) (big_Int64 size);
  mret (ret, None).

Definition opStop : executionFunc := no_result.

Definition opSuicide : executionFunc :=
  c ← contract;
  balance ← db (GetBalance (c_self c));
  beneficiary ← pop;
  db (AddBalance (BigToAddress beneficiary) balance);;
  db (Suicide (c_self c));;
  no_result.

(** ** Families of instructions *)
Fixpoint pop_topics (n : nat) : M frame (list Hash) :=
  match n with
  | O => mret []
  | S n => t ← pop; ts ← pop_topics n; mret (BigToHash t :: ts)
  end.

Definition makeLog (size : nat) : executionFunc :=
  mStart ← pop;
  mSize ← pop;
  topics ← pop_topics size;
  d ← memory_Get (big_Int64 mStart) (big_Int64 mSize);
  c ← contract;
  db (AddLog (MkLog (c_self c) topics (default [] d) (big_Uint64 ctx_BlockNumber) zeroHash 0 zeroHash 0 false));;
  no_result.

Definition opPush1 : executionFunc :=
  c ← contract;
  modify (fun f => set_pc (uint64 (f_pc f + 1)) f);;
  pc ← gets f_pc;
  push (if pc <? Z.of_nat (length (c_Code c)) then
          match c_Code c !! Z.to_nat pc with Some b => Z_of_byte b | None => 0 end
        else 0);;
  no_result.

Definition makePush (size : Z) (pushByteSize : Z) : executionFunc :=
  c ← contract;
  pc ← gets f_pc;
  let codeLen := Z.of_nat (length (c_Code c)) in
  let next := int64 (uint64 (pc + 1)) in
  let startMin := if next <? codeLen then next else codeLen in
  let endMin := if startMin + pushByteSize <? codeLen then startMin + pushByteSize else codeLen in
  data ← deref (slice_of (c_Code c) startMin endMin);
  push (SetBytes (RightPadBytes data pushByteSize));;
  modify (fun f => set_pc (uint64 (f_pc f + size)) f);;
  no_result.

Definition makeDup (size : nat) : executionFunc := stack_dup size;; no_result.

(** [makeSwap]: the top with the element [size] below it. *)
Definition makeSwap (size : nat) : executionFunc := stack_swap (size + 1);; no_result.
End instructions.
