(* ===== verification/JumpTable.v ===== *)
(** * The jump table

    Models [src/core/vm/jump_table.go] and [stack_table.go]: for each opcode what it does,
    what it costs, and what it needs of the stack and the memory. A table is a list of
    entries, an earlier one hiding later ones of the same opcode; an opcode without an
    entry is not valid. *)

From S2P Require Import Prelude Bytes RlpEncode RlpDecode RlpCanonical RlpRaw Types Params EvmData StateDB EvmCore EvmGas EvmOps.

(** ** [stack_table.go] *)
Definition maxStack (pops push : Z) : Z := StackLimit + pops - push.
Definition minStack (pops push : Z) : Z := pops.

Section table.
Context `{C : Crypto} {DB : StateDatabase} {E : Environment}.
Context (calls : Calls).

(** ** Operations *)
Record operation : Type := MkOperation {
  o_execute : executionFunc;
  o_constantGas : Z;
  o_dynamicGas : option gasFunc;
  o_minStack : Z;
  o_maxStack : Z;
  o_memorySize : option memorySizeFunc;
  o_halts : bool;
  o_jumps : bool;
  o_writes : bool;
  o_reverts : bool;
  o_returns : bool
}.

Inductive flag : Type := halts | jumps | writes | reverts | returns.

#[global] Instance flag_eq_dec : EqDecision flag.
Proof. solve_decision. Defined.

(** A valid operation that pops and pushes so many elements; the instructions that
    duplicate an element below the top, or swap with it, count those above it as well. *)
Definition operation_of (execute : executionFunc) (constantGas : Z) (dynamicGas : option gasFunc) (pops pushes : Z)
    (memorySize : option memorySizeFunc) (flags : list flag) : operation :=
  MkOperation execute constantGas dynamicGas (minStack pops pushes) (maxStack pops pushes) memorySize
    (bool_decide (halts ∈ flags)) (bool_decide (jumps ∈ flags)) (bool_decide (writes ∈ flags))
    (bool_decide (reverts ∈ flags)) (bool_decide (returns ∈ flags)).

Definition instruction_set : Type := list (Z * operation).

Fixpoint lookup_operation (op : Z) (t : instruction_set) : option operation :=
  match t with
  | [] => None
  | (o, x) :: t => if op =? o then Some x else lookup_operation op t
  end.

(** ** The instruction sets *)
Definition newFrontierInstructionSet : instruction_set :=
  [(STOP, operation_of opStop 0 None 0 0 None [halts]);
   (ADD, operation_of opAdd GasFastestStep None 2 1 None []);
   (MUL, operation_of opMul GasFastStep None 2 1 None []);
   (SUB, operation_of opSub GasFastestStep None 2 1 None []);
   (DIV, operation_of opDiv GasFastStep None 2 1 None []);
   (SDIV, operation_of opSdiv GasFastStep None 2 1 None []);
   (MOD, operation_of opMod GasFastStep None 2 1 None []);
   (SMOD, operation_of opSmod GasFastStep None 2 1 None []);
   (ADDMOD, operation_of opAddmod GasMidStep None 3 1 None []);
   (MULMOD, operation_of opMulmod GasMidStep None 3 1 None []);
   (EXP, operation_of opExp 0 (Some gasExp) 2 1 None []);
   (SIGNEXTEND, operation_of opSignExtend GasFastStep None 2 1 None []);
   (LT, operation_of opLt GasFastestStep None 2 1 None []);
   (GT, operation_of opGt GasFastestStep None 2 1 None []);
   (SLT, operation_of opSlt GasFastestStep None 2 1 None []);
   (SGT, operation_of opSgt GasFastestStep None 2 1 None []);
   (EQ, operation_of opEq GasFastestStep None 2 1 None []);
   (ISZERO, operation_of opIszero GasFastestStep None 1 1 None []);
   (AND, operation_of opAnd GasFastestStep None 2 1 None []);
   (XOR, operation_of opXor GasFastestStep None 2 1 None []);
   (OR, operation_of opOr GasFastestStep None 2 1 None []);
   (NOT, operation_of opNot GasFastestStep None 1 1 None []);
   (BYTE, operation_of opByte GasFastestStep None 2 1 None []);
   (SHA3, operation_of opSha3 0 (Some gasSha3) 2 1 (Some memorySha3) []);
   (ADDRESS, operation_of opAddress GasQuickStep None 0 1 None []);
   (BALANCE, operation_of opBalance 0 (Some gasBalance) 1 1 None []);
   (ORIGIN, operation_of opOrigin GasQuickStep None 0 1 None []);
   (CALLER, operation_of opCaller GasQuickStep None 0 1 None []);
   (CALLVALUE, operation_of opCallValue GasQuickStep None 0 1 None []);
   (CALLDATALOAD, operation_of opCallDataLoad GasFastestStep None 1 1 None []);
   (CALLDATASIZE, operation_of opCallDataSize GasQuickStep None 0 1 None []);
   (CALLDATACOPY, operation_of opCallDataCopy 0 (Some gasCallDataCopy) 3 0 (Some memoryCallDataCopy) []);
   (CODESIZE, operation_of opCodeSize GasQuickStep None 0 1 None []);
   (CODECOPY, operation_of opCodeCopy 0 (Some gasCodeCopy) 3 0 (Some memoryCodeCopy) []);
   (GASPRICE, operation_of opGasprice GasQuickStep None 0 1 None []);
   (EXTCODESIZE, operation_of opExtCodeSize 0 (Some gasExtCodeSize) 1 1 None []);
   (EXTCODECOPY, operation_of opExtCodeCopy 0 (Some gasExtCodeCopy) 4 0 (Some memoryExtCodeCopy) []);
   (BLOCKHASH, operation_of opBlockhash GasExtStep None 1 1 None []);
   (COINBASE, operation_of opCoinbase GasQuickStep None 0 1 None []);
   (TIMESTAMP, operation_of opTimestamp GasQuickStep None 0 1 None []);
   (NUMBER, operation_of opNumber GasQuickStep None 0 1 None []);
   (DIFFICULTY, operation_of opDifficulty GasQuickStep None 0 1 None []);
   (GASLIMIT, operation_of opGasLimit GasQuickStep None 0 1 None []);
   (POP, operation_of opPop GasQuickStep None 1 0 None []);
   (MLOAD, operation_of opMload 0 (Some gasMLoad) 1 1 (Some memoryMLoad) []);
   (MSTORE, operation_of opMstore 0 (Some gasMStore) 2 0 (Some memoryMStore) []);
   (MSTORE8, operation_of opMstore8 0 (Some gasMStore8) 2 0 (Some memoryMStore8) []);
   (SLOAD, operation_of opSload 0 (Some gasSLoad) 1 1 None []);
   (SSTORE, operation_of opSstore 0 (Some gasSStore) 2 0 None [writes]);
   (JUMP, operation_of opJump GasMidStep None 1 0 None [jumps]);
   (JUMPI, operation_of opJumpi GasSlowStep None 2 0 None [jumps]);
   (PC, operation_of opPc GasQuickStep None 0 1 None []);
   (MSIZE, operation_of opMsize GasQuickStep None 0 1 None []);
   (GAS, operation_of opGas GasQuickStep None 0 1 None []);
   (JUMPDEST, operation_of opJumpdest JumpdestGas None 0 0 None []);
   (PUSH1, operation_of opPush1 GasFastestStep None 0 1 None []);
   (PUSH2, operation_of (makePush 2 2) GasFastestStep None 0 1 None []);
   (PUSH3, operation_of (makePush 3 3) GasFastestStep None 0 1 None []);
   (PUSH4, operation_of (makePush 4 4) GasFastestStep None 0 1 None []);
   (PUSH5, operation_of (makePush 5 5) GasFastestStep None 0 1 None []);
   (PUSH6, operation_of (makePush 6 6) GasFastestStep None 0 1 None []);
   (PUSH7, operation_of (makePush 7 7) GasFastestStep None 0 1 None []);
   (PUSH8, operation_of (makePush 8 8) GasFastestStep None 0 1 None []);
   (PUSH9, operation_of (makePush 9 9) GasFastestStep None 0 1 None []);
   (PUSH10, operation_of (makePush 10 10) GasFastestStep None 0 1 None []);
   (PUSH11, operation_of (makePush 11 11) GasFastestStep None 0 1 None []);
   (PUSH12, operation_of (makePush 12 12) GasFastestStep None 0 1 None []);
   (PUSH13, operation_of (makePush 13 13) GasFastestStep None 0 1 None []);
   (PUSH14, operation_of (makePush 14 14) GasFastestStep None 0 1 None []);
   (PUSH15, operation_of (makePush 15 15) GasFastestStep None 0 1 None []);
   (PUSH16, operation_of (makePush 16 16) GasFastestStep None 0 1 None []);
   (PUSH17, operation_of (makePush 17 17) GasFastestStep None 0 1 None []);
   (PUSH18, operation_of (makePush 18 18) GasFastestStep None 0 1 None []);
   (PUSH19, operation_of (makePush 19 19) GasFastestStep None 0 1 None []);
   (PUSH20, operation_of (makePush 20 20) GasFastestStep None 0 1 None []);
   (PUSH21, operation_of (makePush 21 21) GasFastestStep None 0 1 None []);
   (PUSH22, operation_of (makePush 22 22) GasFastestStep None 0 1 None []);
   (PUSH23, operation_of (makePush 23 23) GasFastestStep None 0 1 None []);
   (PUSH24, operation_of (makePush 24 24) GasFastestStep None 0 1 None []);
   (PUSH25, operation_of (makePush 25 25) GasFastestStep None 0 1 None []);
   (PUSH26, operation_of (makePush 26 26) GasFastestStep None 0 1 None []);
   (PUSH27, operation_of (makePush 27 27) GasFastestStep None 0 1 None []);
   (PUSH28, operation_of (makePush 28 28) GasFastestStep None 0 1 None []);
   (PUSH29, operation_of (makePush 29 29) GasFastestStep None 0 1 None []);
   (PUSH30, operation_of (makePush 30 30) GasFastestStep None 0 1 None []);
   (PUSH31, operation_of (makePush 31 31) GasFastestStep None 0 1 None []);
   (PUSH32, operation_of (makePush 32 32) GasFastestStep None 0 1 None []);
   (DUP1, operation_of (makeDup 1) GasFastestStep None 1 2 None []);
   (DUP2, operation_of (makeDup 2) GasFastestStep None 2 3 None []);
   (DUP3, operation_of (makeDup 3) GasFastestStep None 3 4 None []);
   (DUP4, operation_of (makeDup 4) GasFastestStep None 4 5 None []);
   (DUP5, operation_of (makeDup 5) GasFastestStep None 5 6 None []);
   (DUP6, operation_of (makeDup 6) GasFastestStep None 6 7 None []);
   (DUP7, operation_of (makeDup 7) GasFastestStep None 7 8 None []);
   (DUP8, operation_of (makeDup 8) GasFastestStep None 8 9 None []);
   (DUP9, operation_of (makeDup 9) GasFastestStep None 9 10 None []);
   (DUP10, operation_of (makeDup 10) GasFastestStep None 10 11 None []);
   (DUP11, operation_of (makeDup 11) GasFastestStep None 11 12 None []);
   (DUP12, operation_of (makeDup 12) GasFastestStep None 12 13 None []);
   (DUP13, operation_of (makeDup 13) GasFastestStep None 13 14 None []);
   (DUP14, operation_of (makeDup 14) GasFastestStep None 14 15 None []);
   (DUP15, operation_of (makeDup 15) GasFastestStep None 15 16 None []);
   (DUP16, operation_of (makeDup 16) GasFastestStep None 16 17 None []);
   (SWAP1, operation_of (makeSwap 1) GasFastestStep None 2 2 None []);
   (SWAP2, operation_of (makeSwap 2) GasFastestStep None 3 3 None []);
   (SWAP3, operation_of (makeSwap 3) GasFastestStep None 4 4 None []);
   (SWAP4, operation_of (makeSwap 4) GasFastestStep None 5 5 None []);
   (SWAP5, operation_of (makeSwap 5) GasFastestStep None 6 6 None []);
   (SWAP6, operation_of (makeSwap 6) GasFastestStep None 7 7 None []);
   (SWAP7, operation_of (makeSwap 7) GasFastestStep None 8 8 None []);
   (SWAP8, operation_of (makeSwap 8) GasFastestStep None 9 9 None []);
   (SWAP9, operation_of (makeSwap 9) GasFastestStep None 10 10 None []);
   (SWAP10, operation_of (makeSwap 10) GasFastestStep None 11 11 None []);
   (SWAP11, operation_of (makeSwap 11) GasFastestStep None 12 12 None []);
   (SWAP12, operation_of (makeSwap 12) GasFastestStep None 13 13 None []);
   (SWAP13, operation_of (makeSwap 13) GasFastestStep None 14 14 None []);
   (SWAP14, operation_of (makeSwap 14) GasFastestStep None 15 15 None []);
   (SWAP15, operation_of (makeSwap 15) GasFastestStep None 16 16 None []);
   (SWAP16, operation_of (makeSwap 16) GasFastestStep None 17 17 None []);
   (LOG0, operation_of (makeLog 0) 0 (Some (makeGasLog 0)) 2 0 (Some memoryLog) [writes]);
   (LOG1, operation_of (makeLog 1) 0 (Some (makeGasLog 1)) 3 0 (Some memoryLog) [writes]);
   (LOG2, operation_of (makeLog 2) 0 (Some (makeGasLog 2)) 4 0 (Some memoryLog) [writes]);
   (LOG3, operation_of (makeLog 3) 0 (Some (makeGasLog 3)) 5 0 (Some memoryLog) [writes]);
   (LOG4, operation_of (makeLog 4) 0 (Some (makeGasLog 4)) 6 0 (Some memoryLog) [writes]);
   (CREATE, operation_of (opCreate calls) 0 (Some gasCreate) 3 1 (Some memoryCreate) [writes; returns]);
   (CALL, operation_of (opCall calls) 0 (Some gasCall) 7 1 (Some memoryCall) [returns]);
   (CALLCODE, operation_of (opCallCode calls) 0 (Some gasCallCode) 7 1 (Some memoryCall) [returns]);
   (RETURN, operation_of opReturn 0 (Some gasReturn) 2 0 (Some memoryReturn) [halts]);
   (SELFDESTRUCT, operation_of opSuicide 0 (Some gasSuicide) 1 0 None [halts; writes])].

Definition newHomesteadInstructionSet : instruction_set :=
  [(DELEGATECALL, operation_of (opDelegateCall calls) 0 (Some gasDelegateCall) 6 1 (Some memoryDelegateCall) [returns])] ++
  newFrontierInstructionSet.

Definition newByzantiumInstructionSet : instruction_set :=
  [(STATICCALL, operation_of (opStaticCall calls) 0 (Some gasStaticCall) 6 1 (Some memoryStaticCall) [returns]);
   (RETURNDATASIZE, operation_of opReturnDataSize GasQuickStep None 0 1 None []);
   (RETURNDATACOPY, operation_of opReturnDataCopy 0 (Some gasReturnDataCopy) 3 0 (Some memoryReturnDataCopy) []);
   (REVERT, operation_of opRevert 0 (Some gasRevert) 2 0 (Some memoryRevert) [reverts; returns])] ++
  newHomesteadInstructionSet.

Definition newConstantinopleInstructionSet : instruction_set :=
  [(SHL, operation_of opSHL GasFastestStep None 2 1 None []);
   (SHR, operation_of opSHR GasFastestStep None 2 1 None []);
   (SAR, operation_of opSAR GasFastestStep None 2 1 None []);
   (EXTCODEHASH, operation_of opExtCodeHash 0 (Some gasExtCodeHash) 1 1 None []);
   (CREATE2, operation_of (opCreate2 calls) 0 (Some gasCreate2) 4 1 (Some memoryCreate2) [writes; returns])] ++
  newByzantiumInstructionSet.

End table.
