(* ===== verification/Precompiled.v ===== *)
(** * Precompiled contracts

    Models [src/core/vm/contracts.go] and [ValidateSignatureValues] of
    [src/crypto/crypto.go]; the curves and the hash functions are those of the class
    [NativeCrypto]. *)

From Stdlib Require Import Zpow_facts.
From S2P Require Import Prelude Bytes RlpEncode RlpDecode RlpCanonical RlpRaw Types Params EvmData StateDB EvmCore.

Definition secp256k1N : Z := 0xfffffffffffffffffffffffffffffffebaaedce6af48a03bbfd25e8cd0364141.
Definition secp256k1halfN : Z := secp256k1N / 2.

Definition ValidateSignatureValues (v r s : Z) (homestead : bool) : bool :=
  if (r <? 1) || (s <? 1) then false
  else if homestead && (secp256k1halfN <? s) then false
  else (r <? secp256k1N) && (s <? secp256k1N) && ((v =? 0) || (v =? 1)).

Section precompiled.
Context `{C : Crypto} {N : NativeCrypto}.

Inductive PrecompiledContract : Type :=
  | ecrecover | sha256hash | ripemd160hash | dataCopy | bigModExp | bn256Add | bn256ScalarMul | bn256Pairing.

Definition PrecompiledContractsHomestead : list (Address * PrecompiledContract) :=
  [(BytesToAddress [byte_of_Z 1], ecrecover); (BytesToAddress [byte_of_Z 2], sha256hash);
   (BytesToAddress [byte_of_Z 3], ripemd160hash); (BytesToAddress [byte_of_Z 4], dataCopy)].

Definition PrecompiledContractsByzantium : list (Address * PrecompiledContract) :=
  [(BytesToAddress [byte_of_Z 1], ecrecover); (BytesToAddress [byte_of_Z 2], sha256hash);
   (BytesToAddress [byte_of_Z 3], ripemd160hash); (BytesToAddress [byte_of_Z 4], dataCopy);
   (BytesToAddress [byte_of_Z 5], bigModExp); (BytesToAddress [byte_of_Z 6], bn256Add);
   (BytesToAddress [byte_of_Z 7], bn256ScalarMul); (BytesToAddress [byte_of_Z 8], bn256Pairing)].

Fixpoint lookup_precompile (a : Address) (l : list (Address * PrecompiledContract)) : option PrecompiledContract :=
  match l with
  | [] => None
  | (b, p) :: l => if bool_decide (a = b) then Some p else lookup_precompile a l
  end.

(** ** Gas *)
Definition words_gas (input : bytes) (perWord base : Z) : Z :=
  uint64 (uint64 (uint64 (Z.of_nat (length input) + 31) / 32 * perWord) + base).

(** The three lengths at the head of the input of [bigModExp]. *)
Definition modexp_lengths (input : bytes) : option (Z * Z * Z) :=
  b ← getData input 0 32;
  e ← getData input 32 32;
  m ← getData input 64 32;
  Some (SetBytes b, SetBytes e, SetBytes m).

Definition modexp_rest (input : bytes) : bytes := if (96 <? length input)%nat then drop 96 input else [].

Definition bigModExp_RequiredGas (input : bytes) : option Z :=
  '(baseLen, expLen, modLen) ← modexp_lengths input;
  let input := modexp_rest input in
  expHead ←
    (if Z.of_nat (length input) <=? baseLen then Some 0
     else if 32 <? expLen then d ← getData input (big_Uint64 baseLen) 32; Some (SetBytes d)
     else d ← getData input (big_Uint64 baseLen) (big_Uint64 expLen); Some (SetBytes d));
  let bitlen := big_BitLen expHead in
  let msb := if 0 <? bitlen then bitlen - 1 else 0 in
  let adjExpLen := (if 32 <? expLen then 8 * (expLen - 32) else 0) + msb in
  let gas := BigMax modLen baseLen in
  let gas :=
    if gas <=? 64 then gas * gas
    else if gas <=? 1024 then gas * gas / 4 + (96 * gas - 3072)
    else gas * gas / 16 + (480 * gas - 199680) in
  let gas := gas * BigMax adjExpLen 1 / ModExpQuadCoeffDiv in
  Some (if 64 <? big_BitLen gas then MaxUint64 else big_Uint64 gas).

Definition RequiredGas (p : PrecompiledContract) (input : bytes) : option Z :=
  match p with
  | ecrecover => Some EcrecoverGas
  | sha256hash => Some (words_gas input Sha256PerWordGas Sha256BaseGas)
  | ripemd160hash => Some (words_gas input Ripemd160PerWordGas Ripemd160BaseGas)
  | dataCopy => Some (words_gas input IdentityPerWordGas IdentityBaseGas)
  | bigModExp => bigModExp_RequiredGas input
  | bn256Add => Some Bn256AddGas
  | bn256ScalarMul => Some Bn256ScalarMulGas
  | bn256Pairing =>
      Some (uint64 (Bn256PairingBaseGas + uint64 (Z.of_nat (length input) / 192 * Bn256PairingPerPointGas)))
  end.

(** ** Running *)
Definition precompile_result : Type := option bytes * option vm_error.

Definition ecrecover_Run (input : bytes) : option precompile_result :=
  let input := RightPadBytes input 128 in
  rb ← slice_of input 64 96;
  sb ← slice_of input 96 128;
  let r := SetBytes rb in
  let s := SetBytes sb in
  vb ← input !! 63%nat;
  let v := uint8 (Z_of_byte vb - 27) in
  z ← slice_of input 32 63;
  if negb (allZero z) || negb (ValidateSignatureValues v r s false) then Some (None, None)
  else
    h ← slice_of input 0 32;
    rs ← slice_of input 64 128;
    match crypto_Ecrecover h (rs ++ [byte_of_Z v]) with
    | None => Some (None, None)
    | Some pubKey => Some (Some (LeftPadBytes (drop 12 (bytes_of (keccak256 (drop 1 (bytes_of pubKey))))) 32), None)
    end.

Definition bigModExp_Run (input : bytes) : option precompile_result :=
  '(b, e, m) ← modexp_lengths input;
  let baseLen := big_Uint64 b in
  let expLen := big_Uint64 e in
  let modLen := big_Uint64 m in
  let input := modexp_rest input in
  if (baseLen =? 0) && (modLen =? 0) then Some (Some [], None)
  else
    base ← getData input 0 baseLen;
    exp ← getData input baseLen expLen;
    mod_ ← getData input (uint64 (baseLen + expLen)) modLen;
    let base := SetBytes base in
    let exp := SetBytes exp in
    let mod_ := SetBytes mod_ in
    if big_BitLen mod_ =? 0 then Some (Some (LeftPadBytes [] (int64 modLen)), None)
    else Some (Some (LeftPadBytes (BigBytes (Zpow_mod base exp mod_)) (int64 modLen)), None).

Definition newCurvePoint (blob : bytes) : vm_error + G1 :=
  match G1_Unmarshal blob with Some p => inr p | None => inl errCurvePoint end.
Definition newTwistPoint (blob : bytes) : vm_error + G2 :=
  match G2_Unmarshal blob with Some p => inr p | None => inl errCurvePoint end.

Definition bn256Add_Run (input : bytes) : option precompile_result :=
  a ← getData input 0 64;
  match newCurvePoint a with
  | inl e => Some (None, Some e)
  | inr x =>
      b ← getData input 64 64;
      match newCurvePoint b with
      | inl e => Some (None, Some e)
      | inr y => Some (Some (bytes_of (G1_Marshal (G1_Add x y))), None)
      end
  end.

Definition bn256ScalarMul_Run (input : bytes) : option precompile_result :=
  a ← getData input 0 64;
  match newCurvePoint a with
  | inl e => Some (None, Some e)
  | inr p =>
      k ← getData input 64 32;
      Some (Some (bytes_of (G1_Marshal (G1_ScalarMult p (SetBytes k)))), None)
  end.

Definition true32Byte : bytes := replicate 31 (byte_of_Z 0) ++ [byte_of_Z 1].
Definition false32Byte : bytes := replicate 32 (byte_of_Z 0).

(** The loop of the pairing, by pieces of 192 bytes. *)
Fixpoint pairing_points (n : nat) (input : bytes) (cs : list G1) (ts : list G2) : vm_error + list G1 * list G2 :=
  match n with
  | O => inr (cs, ts)
  | S n =>
      match newCurvePoint (take 64 input) with
      | inl e => inl e
      | inr c =>
          match newTwistPoint (take 128 (drop 64 input)) with
          | inl e => inl e
          | inr t => pairing_points n (drop 192 input) (cs ++ [c]) (ts ++ [t])
          end
      end
  end.

Definition bn256Pairing_Run (input : bytes) : option precompile_result :=
  if (0 <? length input mod 192)%nat then Some (None, Some errBadPairingInput)
  else
    match pairing_points (length input / 192) input [] [] with
    | inl e => Some (None, Some e)
    | inr (cs, ts) => Some (Some (if PairingCheck cs ts then true32Byte else false32Byte), None)
    end.

Definition precompile_Run (p : PrecompiledContract) (input : option bytes) : option precompile_result :=
  let i := default [] input in
  match p with
  | ecrecover => ecrecover_Run i
  | sha256hash => Some (Some (bytes_of (sha256_Sum256 i)), None)
  | ripemd160hash => Some (Some (LeftPadBytes (bytes_of (ripemd160_Sum i)) 32), None)
  | dataCopy => Some (input, None)
  | bigModExp => bigModExp_Run i
  | bn256Add => bn256Add_Run i
  | bn256ScalarMul => bn256ScalarMul_Run i
  | bn256Pairing => bn256Pairing_Run i
  end.

(** The gas of the contract is used before running. *)
Definition RunPrecompiledContract (p : PrecompiledContract) (input : option bytes) (contract : Contract)
    : option (precompile_result * Contract) :=
  gas ← RequiredGas p (default [] input);
  let '(ok, contract) := contract_UseGas gas contract in
  if ok : bool then r ← precompile_Run p input; Some (r, contract)
  else Some ((None, Some ErrOutOfGas), contract).
End precompiled.
