(* ===== verification/Evm.v ===== *)
(** * The interpreter and calls

    Models [src/core/vm/interpreter.go] and [evm.go]: the loop that runs a contract, and
    the calls and creations of contracts around it. Runs are nested as contracts call each
    other: a level of nesting is defined from the calls of the level below, and
    [calls_at] ties the knot with as many levels as the limit on the depth admits. *)

From S2P Require Import Prelude Bytes RlpEncode RlpDecode RlpCanonical RlpRaw Types Params EvmData StateDB EvmCore EvmGas EvmOps JumpTable Precompiled.

(** [CreateAddress] and [CreateAddress2] of [src/crypto/crypto.go] *)
Section addresses.
Context `{C : Crypto}.

(** The encoding of an address and a nonce cannot fail. *)
Definition CreateAddress (b : Address) (nonce : Z) : Address :=
  let data := match EncodeToBytes (GList [GByteArray (bytes_of b); GUint nonce]) with inr (Ok d) => d | _ => [] end in
  BytesToAddress (drop 12 (bytes_of (keccak256 data))).

Definition CreateAddress2 (b : Address) (salt : Hash) (inithash : bytes) : Address :=
  BytesToAddress (drop 12 (bytes_of (keccak256 (byte_of_Z 0xff :: bytes_of b ++ bytes_of salt ++ inithash)))).
End addresses.

Section evm.
Context `{C : Crypto} {DB : StateDatabase} {N : NativeCrypto} {E : Environment}.

Definition emptyCodeHash_vm : Hash := keccak256 [].

(** [CanTransfer] and [Transfer] of [src/core/evm.go] *)
Definition CanTransfer (addr : Address) (amount : Z) : M StateDB bool :=
  b ← GetBalance addr;
  mret (amount <=? b).

Definition Transfer (sender recipient : Address) (amount : Z) : M StateDB unit :=
  SubBalance sender amount;;
  AddBalance recipient amount.

Definition precompiles : list (Address * PrecompiledContract) :=
  if IsByzantium chainConfig ctx_BlockNumber then PrecompiledContractsByzantium else PrecompiledContractsHomestead.

Section level.
Context (calls : Calls).

(** ** [NewEVMInterpreter]: the table of the rules in force *)
Definition jump_table : instruction_set :=
  if IsConstantinople chainConfig ctx_BlockNumber then newConstantinopleInstructionSet calls
  else if IsByzantium chainConfig ctx_BlockNumber then newByzantiumInstructionSet calls
  else if IsHomestead chainConfig ctx_BlockNumber then newHomesteadInstructionSet calls
  else newFrontierInstructionSet calls.

Definition interpreter_gasTable : GasTable := GasTable_of chainConfig (Some ctx_BlockNumber).

(** ** The loop of [Run]

    A round goes on ([None]) or ends the run. *)
Definition run_result : Type := option bytes * option vm_error.
Definition stop (r : option bytes) (e : option vm_error) : M frame (option run_result) := mret (Some (r, e)).
Definition go_on : M frame (option run_result) := mret None.

(** Executing the operation, once it has been paid for. *)
Definition execute_operation (operation : operation) : M frame (option run_result) :=
  '(res, err) ← o_execute operation;
  when (o_returns operation) (on_evm (modify (set_returnData (default [] res))));;
  match err with
  | Some e => stop None (Some e)
  | None =>
      if o_reverts operation then stop res (Some errExecutionReverted)
      else if o_halts operation then stop res None
      else if negb (o_jumps operation) then modify (fun f => set_pc (uint64 (f_pc f + 1)) f);; go_on
      else go_on
  end.

(** The memory the operation needs, rounded up to words. *)
Definition required_memory (operation : operation) : costs Z :=
  match o_memorySize operation with
  | None => cost 0
  | Some memorySize =>
      r ⇐ lift_cost memorySize;
      let '(memSize, overflow) := r in
      if overflow : bool then cost_error errGasUintOverflow
      else checked (SafeMul (toWordSize memSize) 32)
  end.

(** The dynamic portion of gas: [false] when it cannot be computed or paid. *)
Definition pay_dynamic (operation : operation) (memorySize : Z) : M frame bool :=
  match o_dynamicGas operation with
  | None => mret true
  | Some dynamicGas =>
      r ← dynamicGas interpreter_gasTable memorySize;
      match r with
      | inl _ => mret false
      | inr cost => UseGas cost
      end
  end.

(** Stateful operations, and calls that send value, are not allowed in a static call. *)
Definition write_protected (op : Z) (operation : operation) : M frame bool :=
  readOnly ← gets (fun f => evm_readOnly (f_evm f));
  if readOnly && r_IsByzantium (Rules_of chainConfig ctx_BlockNumber) then
    if o_writes operation then mret true
    else if op =? CALL then v ← Back 2; mret (negb (v =? 0))
    else mret false
  else mret false.

Definition interpret_step : M frame (option run_result) :=
  f ← get;
  let op := GetOp (f_pc f) (f_contract f) in
  match lookup_operation op jump_table with
  | None => stop None (Some (errInvalidOpcode op))
  | Some operation =>
      let sLen := Z.of_nat (length (f_stack f)) in
      if sLen <? o_minStack operation then stop None (Some (errStackUnderflow sLen (o_minStack operation)))
      else if o_maxStack operation <? sLen then stop None (Some (errStackLimit sLen (o_maxStack operation)))
      else
        protected ← write_protected op operation;
        if protected : bool then stop None (Some errWriteProtection)
        else
          ok ← UseGas (o_constantGas operation);
          if negb ok then stop None (Some ErrOutOfGas)
          else
            r ← required_memory operation;
            match r with
            | inl e => stop None (Some e)
            | inr memorySize =>
                paid ← pay_dynamic operation memorySize;
                if negb paid then stop None (Some ErrOutOfGas)
                else
                  when (0 <? memorySize) (modify (fun f => set_mem (mem_Resize memorySize (f_mem f)) f));;
                  execute_operation operation
            end
  end.

Fixpoint interpret (fuel : nat) : M frame run_result :=
  match fuel with
  | O => diverge
  | S n =>
      r ← interpret_step;
      match r with
      | Some r => mret r
      | None => interpret n
      end
  end.

(** A run of the interpreter on the machine: what it returns, and the contract it has
    changed. Every round costs a unit of gas at least. *)
Definition run_frame (contract : Contract) : M Evm (run_result * Contract) := fun e =>
  match interpret (S (Z.to_nat (c_Gas contract))) (MkFrame 0 [] NewMemory contract e) with
  | Ok (r, f) => Ok ((r, f_contract f), f_evm f)
  | Panic => Panic
  | OutOfFuel => OutOfFuel
  end.

Definition Run (contract : Contract) (input : option bytes) (readOnly : bool) : M Evm (run_result * Contract) :=
  modify (fun e => set_depth (evm_depth e + 1) e);;
  wasReadOnly ← gets evm_readOnly;
  let setReadOnly := readOnly && negb wasReadOnly in
  when setReadOnly (modify (set_readOnly true));;
  modify (set_returnData []);;
  r ← (if (length (c_Code contract) =? 0)%nat then mret ((None, None), contract)
       else run_frame (set_c_Input (default [] input) contract));
  when setReadOnly (modify (set_readOnly false));;
  modify (fun e => set_depth (evm_depth e - 1) e);;
  mret r.

(** ** [run]: precompiled contracts, or the interpreter *)
Definition run_contract (contract : Contract) (input : option bytes) (readOnly : bool) : M Evm (run_result * Contract) :=
  match c_CodeAddr contract ≫= fun a => lookup_precompile a precompiles with
  | Some p => deref (RunPrecompiledContract p input contract)
  | None => Run contract input readOnly
  end.

(** The end of a call: an error reverts the state and, unless the contract reverted,
    takes the gas. *)
Definition finish_call (snapshot : Z) (r : run_result * Contract) : M Evm call_result :=
  let '((ret, err), contract) := r in
  match err with
  | None => mret (ret, c_Gas contract, None)
  | Some e =>
      on_db (RevertToSnapshot snapshot);;
      let contract := if bool_decide (e <> errExecutionReverted) then (contract_UseGas (c_Gas contract) contract).2 else contract in
      mret (ret, c_Gas contract, Some e)
  end.

(** [SetCallCode] with the code at an address *)
Definition with_code_of (addr : Address) (contract : Contract) : M Evm Contract :=
  hash ← on_db (GetCodeHash addr);
  code ← on_db (GetCode addr);
  mret (SetCallCode addr hash (default [] code) contract).

Definition no_recursion : M Evm bool := gets (fun e => cfg_NoRecursion && (0 <? evm_depth e)).
Definition too_deep : M Evm bool := gets (fun e => CallCreateDepth <? evm_depth e).

Definition Call (caller : ContractRef) (addr : Address) (input : option bytes) (gas value : Z) : M Evm call_result :=
  stop ← no_recursion;
  if stop : bool then mret (None, gas, None)
  else
    deep ← too_deep;
    if deep : bool then mret (None, gas, Some ErrDepth)
    else
      can ← on_db (CanTransfer (ref_Address caller) value);
      if negb can then mret (None, gas, Some ErrInsufficientBalance)
      else
        snapshot ← on_db Snapshot;
        existed ← on_db (Exist addr);
        if negb existed && bool_decide (lookup_precompile addr precompiles = None) &&
           IsEIP158 chainConfig ctx_BlockNumber && (value =? 0) then mret (None, gas, None)
        else
          when (negb existed) (on_db (CreateAccount addr None));;
          on_db (Transfer (ref_Address caller) addr value);;
          contract ← NewContract caller addr (Some value) gas;
          contract ← with_code_of addr contract;
          r ← run_contract contract input false;
          finish_call snapshot r.

Definition CallCode (caller : ContractRef) (addr : Address) (input : option bytes) (gas value : Z) : M Evm call_result :=
  stop ← no_recursion;
  if stop : bool then mret (None, gas, None)
  else
    deep ← too_deep;
    if deep : bool then mret (None, gas, Some ErrDepth)
    else
      can ← on_db (CanTransfer (ref_Address caller) value);
      if negb can then mret (None, gas, Some ErrInsufficientBalance)
      else
        snapshot ← on_db Snapshot;
        contract ← NewContract caller (ref_Address caller) (Some value) gas;
        contract ← with_code_of addr contract;
        r ← run_contract contract input false;
        finish_call snapshot r.

Definition DelegateCall (caller : ContractRef) (addr : Address) (input : option bytes) (gas : Z) : M Evm call_result :=
  stop ← no_recursion;
  if stop : bool then mret (None, gas, None)
  else
    deep ← too_deep;
    if deep : bool then mret (None, gas, Some ErrDepth)
    else
      snapshot ← on_db Snapshot;
      contract ← NewContract caller (ref_Address caller) None gas;
      contract ← deref (AsDelegate caller contract);
      contract ← with_code_of addr contract;
      r ← run_contract contract input false;
      finish_call snapshot r.

Definition StaticCall (caller : ContractRef) (addr : Address) (input : option bytes) (gas : Z) : M Evm call_result :=
  stop ← no_recursion;
  if stop : bool then mret (None, gas, None)
  else
    deep ← too_deep;
    if deep : bool then mret (None, gas, Some ErrDepth)
    else
      snapshot ← on_db Snapshot;
      contract ← NewContract caller addr (Some 0) gas;
      contract ← with_code_of addr contract;
      on_db (AddBalance addr 0);;
      r ← run_contract contract input true;
      finish_call snapshot r.

(** The end of [create]: the code is stored when it can be paid, and what went wrong is
    undone. *)
Definition finish_create (snapshot : Z) (address : Address) (r : run_result * Contract) : M Evm create_result :=
  let '((ret, err), contract) := r in
  let maxCodeSizeExceeded :=
    IsEIP158 chainConfig ctx_BlockNumber && (MaxCodeSize <? Z.of_nat (length (default [] ret))) in
  '(err, contract) ←
    (if bool_decide (err = None) && negb maxCodeSizeExceeded then
       let createDataGas := uint64 (Z.of_nat (length (default [] ret)) * CreateDataGas) in
       let '(ok, contract) := contract_UseGas createDataGas contract in
       if ok : bool then on_db (SetCode address ret);; mret (err, contract)
       else mret (Some ErrCodeStoreOutOfGas, contract)
     else mret (err, contract));
  contract ←
    (if maxCodeSizeExceeded ||
        (bool_decide (err <> None) &&
         (IsHomestead chainConfig ctx_BlockNumber || bool_decide (err <> Some ErrCodeStoreOutOfGas))) then
       on_db (RevertToSnapshot snapshot);;
       mret (if bool_decide (err <> Some errExecutionReverted)
             then (contract_UseGas (c_Gas contract) contract).2 else contract)
     else mret contract);
  let err := if maxCodeSizeExceeded && bool_decide (err = None) then Some errMaxCodeSizeExceeded else err in
  mret (ret, address, c_Gas contract, err).

Definition create (caller : ContractRef) (codeAndHash : bytes * Hash) (gas value : Z) (address : Address)
    (opts : option (option Address * option Address)) : M Evm create_result :=
  deep ← too_deep;
  if deep : bool then mret (None, zeroAddress, gas, Some ErrDepth)
  else
    can ← on_db (CanTransfer (ref_Address caller) value);
    if negb can then mret (None, zeroAddress, gas, Some ErrInsufficientBalance)
    else
      nonce ← on_db (GetNonce (ref_Address caller));
      on_db (SetNonce (ref_Address caller) (uint64 (nonce + 1)));;
      contractHash ← on_db (GetCodeHash address);
      nonce ← on_db (GetNonce address);
      if negb (nonce =? 0) || (bool_decide (contractHash <> zeroHash) && bool_decide (contractHash <> emptyCodeHash_vm))
      then mret (None, zeroAddress, 0, Some ErrContractAddressCollision)
      else
        snapshot ← on_db Snapshot;
        on_db (CreateAccount address opts);;
        when (IsEIP158 chainConfig ctx_BlockNumber) (on_db (SetNonce address 1));;
        on_db (Transfer (ref_Address caller) address value);;
        contract ← NewContract caller address (Some value) gas;
        let contract := SetCodeOptionalHash address codeAndHash contract in
        stop ← no_recursion;
        if stop : bool then mret (None, address, gas, None)
        else
          r ← run_contract contract None false;
          finish_create snapshot address r.

(** [Create] does not hash the code; [Create2] does. *)
Definition Create (caller : ContractRef) (code : option bytes) (gas value : Z)
    (opts : option (option Address * option Address)) : M Evm create_result :=
  nonce ← on_db (GetNonce (ref_Address caller));
  create caller (default [] code, zeroHash) gas value (CreateAddress (ref_Address caller) nonce) opts.

Definition Create2 (caller : ContractRef) (code : option bytes) (gas endowment salt : Z)
    (opts : option (option Address * option Address)) : M Evm create_result :=
  let hash := keccak256 (default [] code) in
  create caller (default [] code, hash) gas endowment
    (CreateAddress2 (ref_Address caller) (BigToHash salt) (bytes_of hash)) opts.

(** The instructions create contracts without options. *)
Definition level_calls : Calls :=
  MkCalls Call CallCode DelegateCall StaticCall
    (fun caller code gas value => Create caller code gas value None)
    (fun caller code gas endowment salt => Create2 caller code gas endowment salt None).
End level.

(** ** Nesting *)
Definition no_calls : Calls :=
  MkCalls (fun _ _ _ _ _ => diverge) (fun _ _ _ _ _ => diverge) (fun _ _ _ _ => diverge) (fun _ _ _ _ => diverge)
    (fun _ _ _ _ => diverge) (fun _ _ _ _ _ => diverge).

Fixpoint calls_at (levels : nat) : Calls :=
  match levels with
  | O => no_calls
  | S n => level_calls (calls_at n)
  end.

(** A call at depth 1025 fails before it runs anything. *)
Definition max_levels : nat := 1025.

Definition evm_Call := Call (calls_at max_levels).
Definition evm_CallCode := CallCode (calls_at max_levels).
Definition evm_DelegateCall := DelegateCall (calls_at max_levels).
Definition evm_StaticCall := StaticCall (calls_at max_levels).
Definition evm_Create := Create (calls_at max_levels).
Definition evm_Create2 := Create2 (calls_at max_levels).

(** [NewEVM]; an EWASM fork panics. *)
Definition NewEVM (s : StateDB) : res Evm :=
  if IsEWASM chainConfig ctx_BlockNumber then Panic else Ok (MkEvm s 0 0 false [] ∅).
End evm.
