(* ===== verification/EvmSafe.v ===== *)
(** * Instructions are safe

    Each entry of the jump table: with the stack and the memory the interpreter has made
    sure of, the instruction returns, keeps the machine in order, and gives back no more
    gas than was set aside for it. *)

From S2P Require Import Prelude Bytes RlpEncode RlpDecode RlpCanonical RlpRaw Types Params EvmData EvmBitmap StateDB StateRevert StateEffect EvmCore EvmGas EvmOps JumpTable Precompiled Evm.

(** Go's slices have a length that is an [int]. *)
Definition bounded (b : bytes) : Prop := Z.of_nat (length b) < 2 ^ 63.

Definition max_memory : Z := 0x1FFFFFFFE0.

(** With less gas than this, the lengths the input of [bigModExp] may give do not overflow. *)
Abbreviation max_gas := (2 ^ 62).

(** ** Memory *)
Definition covered (off len : Z) (m : Memory) : Prop := len = 0 \/ off + len <= mem_Len m.

Lemma big_Uint64_small x : 0 <= x < 2 ^ 64 -> big_Uint64 x = x.
Proof. intros Hx. unfold big_Uint64. rewrite Z.abs_eq, Z.mod_small; lia. Qed.

Lemma big_Uint64_range x : 0 <= big_Uint64 x < 2 ^ 64.
Proof. unfold big_Uint64. apply Z.mod_pos_bound. lia. Qed.

Lemma big_Int64_small x : 0 <= x < 2 ^ 63 -> big_Int64 x = x.
Proof.
  intros Hx. unfold big_Int64. cbv zeta. destruct (Z.ltb_spec x 0); [lia|]. rewrite Z.abs_eq, Z.mod_small by lia.
  apply int64_small. unfold is_int64. lia.
Qed.

Lemma slice_of_Some {A} (l : list A) lo hi :
  0 <= lo <= hi -> hi <= Z.of_nat (length l) ->
  exists d, slice_of l lo hi = Some d /\ Z.of_nat (length d) = hi - lo.
Proof.
  intros Hlo Hhi. unfold slice_of. rewrite !(proj2 (Z.leb_le _ _)) by lia. eexists. split; [done|].
  rewrite length_take, length_drop. lia.
Qed.

Lemma bounded_nil : bounded [].
Proof. done. Qed.

Lemma mem_Get_covered off len m :
  0 <= off -> 0 <= len -> covered off len m -> mem_Len m <= max_memory ->
  exists d, mem_Get (big_Int64 off) (big_Int64 len) m = Some d /\ bounded (default [] d).
Proof.
  unfold max_memory, mem_Get. intros Ho Hl Hc Hm. destruct (decide (len = 0)) as [->|Hn].
  { exists None. split; [done|apply bounded_nil]. }
  destruct Hc as [?|Hc]; [done|]. rewrite !big_Int64_small by lia. rewrite (proj2 (Z.eqb_neq len 0)) by done.
  rewrite (proj2 (Z.ltb_lt off (mem_Len m))) by lia. rewrite int64_small by (unfold is_int64; lia).
  destruct (slice_of_Some (m_store m) off (off + len)) as (d & -> & Hd); [lia|done|].
  exists (Some d). split; [done|]. unfold bounded. cbn. lia.
Qed.

Lemma mem_GetPtr_covered off len m :
  0 <= off -> 0 <= len -> covered off len m -> mem_Len m <= max_memory ->
  exists d, mem_GetPtr (big_Int64 off) (big_Int64 len) m = Some d /\ bounded (default [] d).
Proof. exact (mem_Get_covered off len m). Qed.

Lemma length_copy_at dst offset src : (offset <= length dst)%nat -> length (copy_at dst offset src) = length dst.
Proof.
  intros Ho. unfold copy_at. rewrite !length_app, length_drop, !length_take. lia.
Qed.

Lemma mem_Set_covered off len v m :
  0 <= off -> 0 <= len -> covered off len m -> mem_Len m <= max_memory ->
  exists m', mem_Set (big_Uint64 off) (big_Uint64 len) v m = Some m' /\ mem_Len m' = mem_Len m.
Proof.
  unfold max_memory, mem_Set. intros Ho Hl Hc Hm. destruct (decide (len = 0)) as [->|Hn]; [by exists m|].
  destruct Hc as [?|Hc]; [done|]. rewrite !big_Uint64_small by lia. rewrite (proj2 (Z.ltb_lt 0 len)) by lia.
  rewrite uint64_small by (unfold is_uint64; lia). rewrite !(proj2 (Z.ltb_ge _ _)) by lia.
  eexists. split; [done|]. unfold mem_Len in *. cbn. rewrite length_copy_at; lia.
Qed.

Lemma mem_Set32_covered off v m :
  0 <= off -> covered off 32 m -> mem_Len m <= max_memory ->
  exists m', mem_Set32 (big_Uint64 off) v m = Some m' /\ mem_Len m' = mem_Len m.
Proof.
  unfold max_memory, mem_Set32. intros Ho Hc Hm. destruct Hc as [?|Hc]; [done|]. rewrite !big_Uint64_small by lia.
  rewrite uint64_small by (unfold is_uint64; lia). rewrite !(proj2 (Z.ltb_ge _ _)) by lia.
  eexists. split; [done|]. unfold mem_Len in *. cbn. rewrite length_copy_at; lia.
Qed.

(** The sizes of regions of memory do not overflow. *)
Lemma calcMemSize64WithUint_covered off l sz m :
  0 <= off -> 0 <= l < 2 ^ 64 -> calcMemSize64WithUint off l = (sz, false) -> sz <= mem_Len m -> covered off l m.
Proof.
  unfold calcMemSize64WithUint, covered, big_IsUint64. intros Ho Hl. destruct (Z.eqb_spec l 0); [by left|].
  destruct (Z.leb_spec 0 off); [|lia]. destruct (Z.ltb_spec off (2 ^ 64)); [|done]. cbn [andb negb].
  rewrite (big_Uint64_small off) by lia. intros [= <- Hv] Hs. right. unfold uint64 in *. apply Z.ltb_ge in Hv.
  destruct (decide (off + l < 2 ^ 64)) as [Hlt|Hge]; [rewrite Z.mod_small in Hs; lia|].
  replace ((off + l) mod 2 ^ 64) with (off + l - 2 ^ 64) in Hv; [lia|].
  apply (Z.mod_unique_pos _ _ 1); lia.
Qed.

Lemma calcMemSize64_covered off l sz m :
  0 <= off -> 0 <= l -> calcMemSize64 off l = (sz, false) -> sz <= mem_Len m -> covered off l m.
Proof.
  unfold calcMemSize64. intros Ho Hl. destruct (big_IsUint64 l) eqn:E; [|done]. unfold big_IsUint64 in E. cbn [negb].
  apply andb_true_iff in E as [_ E%Z.ltb_lt]. rewrite (big_Uint64_small l) by lia.
  apply calcMemSize64WithUint_covered; lia.
Qed.

(** ** Reading data *)
Lemma getDataBig_Some data start size :
  bounded data -> 0 <= start -> 0 <= size -> exists d, getDataBig data start size = Some d.
Proof.
  unfold bounded, getDataBig, BigMin. intros Hb Hs Hz.
  set (s := if _ <? start then _ else _). assert (Hs' : 0 <= s <= Z.of_nat (length data))
    by (unfold s; destruct (Z.ltb_spec (Z.of_nat (length data)) start); lia).
  set (e := if _ <? s + size then _ else _). assert (He : s <= e <= Z.of_nat (length data))
    by (unfold e; destruct (Z.ltb_spec (Z.of_nat (length data)) (s + size)); lia).
  rewrite (big_Uint64_small s), (big_Uint64_small e) by lia. destruct (slice_of_Some data s e) as (d & -> & _); [lia..|]. by eexists.
Qed.

(** ** Numbers that are pushed *)
Lemma U256_range x : 0 <= U256 x < 2 ^ 256.
Proof.
  unfold U256, tt256. change (2 ^ 256 - 1) with (Z.ones 256). rewrite Z.land_ones by lia. apply Z.mod_pos_bound. lia.
Qed.

Lemma SetBytes_nonneg b : 0 <= SetBytes b.
Proof. apply SetBytes_bound. Qed.

Lemma exp_word_nonneg n w r b : 0 <= r -> 0 <= (exp_word n w r b).1.
Proof.
  revert w r b. induction n as [|n IH]; intros w r b Hr; [done|]. cbn [exp_word]. apply IH.
  case_match; [apply U256_range|done].
Qed.

Lemma Exp_nonneg b e : 0 <= Exp b e.
Proof.
  unfold Exp. assert (Hr : 0 <= 1) by lia. revert Hr. generalize 1 as r. revert b. induction (big_Bits e) as [|w ws IH]; intros b r Hr; [done|].
  cbn [exp_words]. pose proof (exp_word_nonneg 64 w r b Hr). destruct (exp_word 64 w r b) as [r' b']. by apply IH.
Qed.

Lemma Byte_nonneg x p n : 0 <= Byte x p n.
Proof.
  unfold Byte, bigEndianByteAt. repeat case_match; try lia. apply Z.mod_pos_bound. lia.
Qed.

Create HintDb nonneg.
#[export] Hint Resolve SetBytes_nonneg Exp_nonneg Byte_nonneg Nat2Z.is_nonneg : nonneg.
#[export] Hint Extern 1 (0 <= U256 _) => apply U256_range : nonneg.
#[export] Hint Extern 1 (0 <= uint64 _) => apply uint64_range : nonneg.
#[export] Hint Extern 1 (0 <= Z.lor _ _) => apply Z.lor_nonneg; split : nonneg.
#[export] Hint Extern 1 (0 <= Z.lxor _ _) => apply Z.lxor_nonneg; split : nonneg.
#[export] Hint Extern 1 (0 <= Z.land _ _) => apply Z.land_nonneg; left : nonneg.
#[export] Hint Extern 2 (0 <= _) => lia : nonneg.

(** Logs are given the number of the block of the context. *)
#[export] Instance env_block {E : Environment} : BlockContext := big_Uint64 ctx_BlockNumber.

Section safe.
Context `{C : Crypto} {DB : StateDatabase} {N : NativeCrypto} {E : Environment}.

(** ** Machines in order *)
Record contract_ok (c : Contract) : Prop := {
  ck_gas : 0 <= c_Gas c < max_gas;
  ck_code : bounded (c_Code c);
  ck_input : bounded (c_Input c);
  ck_value : exists v, c_value c = Some v /\ 0 <= v;
  ck_hash : c_CodeHash c = zeroHash \/ c_Code c = [] \/ keccak256 (c_Code c) = c_CodeHash c;
  ck_analysis : forall a, c_analysis c = Some a -> codeBitmap (c_Code c) = Some a
}.

(** Each analysis that is kept is one of a code with the hash it is kept under. *)
Definition analyses_ok (m : gmap Hash bytes) : Prop :=
  forall h a, m !! h = Some a -> exists code, bounded code /\ keccak256 code = h /\ codeBitmap code = Some a.

Record evm_ok (e : Evm) : Prop := {
  ek_state : state_ok (evm_StateDB e);
  ek_analyses : analyses_ok (evm_jumpdests e);
  ek_depth : 0 <= evm_depth e;
  ek_temp : 0 <= evm_callGasTemp e < 2 ^ 64
}.

Definition in_static_call (e : Evm) : bool := evm_readOnly e && r_IsByzantium (Rules_of chainConfig ctx_BlockNumber).

Record evm_steps (e e' : Evm) : Prop := {
  es_ok : evm_ok e';
  es_effect : effect (in_static_call e) (evm_StateDB e) (evm_StateDB e');
  es_depth : evm_depth e' = evm_depth e;
  es_readOnly : evm_readOnly e' = evm_readOnly e
}.

Record frame_ok (f : frame) : Prop := {
  fk_evm : evm_ok (f_evm f);
  fk_contract : contract_ok (f_contract f);
  fk_stack : Forall (fun x => 0 <= x) (f_stack f);
  fk_height : Z.of_nat (length (f_stack f)) <= StackLimit;
  fk_mem : mem_Len (f_mem f) <= max_memory;
  fk_pc : 0 <= f_pc f
}.

Lemma evm_steps_trans e1 e2 e3 : evm_steps e1 e2 -> evm_steps e2 e3 -> evm_steps e1 e3.
Proof.
  intros [_ F1 D1 R1] [K2 F2 D2 R2]. split; [done| |congruence..]. eapply effect_trans; [exact F1|].
  unfold in_static_call in *. by rewrite R1 in F2.
Qed.

Lemma evm_steps_refl e : evm_ok e -> evm_steps e e.
Proof. intros H. split; try done. by apply steps_refl, H. Qed.

(** A step of the state alone. *)
Lemma db_evm_steps e s' : evm_ok e -> steps (in_static_call e) (evm_StateDB e) s' -> evm_steps e (set_StateDB s' e).
Proof. intros [Hs Ha Hd Ht] [Hk Hf]. by split. Qed.

Lemma on_db_twp {A} (m : M StateDB A) (Q : A -> StateDB -> Prop) e :
  twp m Q (evm_StateDB e) -> twp (on_db m) (fun a e' => exists s', e' = set_StateDB s' e /\ Q a s') e.
Proof. intros (a & s' & Em & H). exists a, (set_StateDB s' e). unfold on_db, zoom. rewrite Em. eauto. Qed.

Lemma on_evm_twp {A} (m : M Evm A) (Q : A -> Evm -> Prop) f :
  twp m Q (f_evm f) -> twp (on_evm m) (fun a f' => exists e', f' = set_evm e' f /\ Q a e') f.
Proof. intros (a & e' & Em & H). exists a, (set_evm e' f). unfold on_evm, zoom. rewrite Em. eauto. Qed.

Lemma db_twp {A} (m : M StateDB A) (Q : A -> StateDB -> Prop) f :
  twp m Q (evm_StateDB (f_evm f)) ->
  twp (db m) (fun a f' => exists s', f' = set_evm (set_StateDB s' (f_evm f)) f /\ Q a s') f.
Proof.
  intros H. eapply twp_mono; [apply on_evm_twp, on_db_twp, H|]. intros a f' (e' & -> & s' & -> & HQ). eauto.
Qed.

(** ** What the interpreter makes sure of *)
Record exec_pre (pops pushes : nat) (op : Z) (o : operation) (f : frame) : Prop := {
  xp_ok : frame_ok f;
  xp_low : (pops <= length (f_stack f))%nat;
  xp_high : Z.of_nat (length (f_stack f)) + Z.of_nat pushes - Z.of_nat pops <= StackLimit;
  xp_pc : op <> STOP -> f_pc f < Z.of_nat (length (c_Code (f_contract f)));
  xp_static : in_static_call (f_evm f) = true -> o_writes o = false /\ (op = CALL -> f_stack f !! 2%nat = Some 0);
  xp_mem : match o_memorySize o with
           | Some ms => exists sz, ms f = Ok ((sz, false), f) /\ sz <= mem_Len (f_mem f)
           | None => True
           end
}.

Record exec_post (f : frame) (allowance : Z) (r : option bytes * option vm_error) (f' : frame) : Prop := {
  xq_ok : frame_ok f';
  xq_steps : evm_steps (f_evm f) (f_evm f');
  xq_gas : c_Gas (f_contract f') <= c_Gas (f_contract f) + allowance;
  xq_code : c_Code (f_contract f') = c_Code (f_contract f);
  xq_result : bounded (default [] r.1)
}.

(** Computing the cost changes the state, the gas set aside for a call, and what memory has
    cost so far. *)
Record gas_post (f f' : frame) : Prop := {
  gp_pc : f_pc f' = f_pc f;
  gp_stack : f_stack f' = f_stack f;
  gp_contract : f_contract f' = f_contract f;
  gp_store : m_store (f_mem f') = m_store (f_mem f);
  gp_steps : evm_steps (f_evm f) (f_evm f')
}.

Lemma gas_post_trans f1 f2 f3 : gas_post f1 f2 -> gas_post f2 f3 -> gas_post f1 f3.
Proof. intros [] []. split; try congruence. by eapply evm_steps_trans. Qed.

Lemma gas_post_refl f : frame_ok f -> gas_post f f.
Proof. intros H. split; try done. by apply evm_steps_refl, H. Qed.

(** Costs: an error leaves the machine as [gas_post] says. *)
Definition cwp {A} (f0 : frame) (m : costs A) (Q : A -> frame -> Prop) (f : frame) : Prop :=
  twp m (fun r f' => match r with inl _ => gas_post f0 f' | inr a => Q a f' end) f.

(** The dynamic part of a cost is [least] at least, beside what the instruction may give
    back; no more memory is paid for than there can be. *)
Definition gas_ok (pops : nat) (may_write has_memory : bool) (least : Z) (allowance : list Z -> Z -> Z) (g : gasFunc) : Prop :=
  forall f ms, frame_ok f -> (pops <= length (f_stack f))%nat -> 0 <= ms -> (has_memory = false -> ms = 0) ->
    (in_static_call (f_evm f) = true -> may_write = false) ->
    cwp f (g interpreter_gasTable ms) (fun cost f' =>
      gas_post f f' /\ 0 <= cost /\ ms <= max_memory /\
      allowance (f_stack f') (evm_callGasTemp (f_evm f')) + least <= cost) f.

Definition exec_ok (D : Z) (op : Z) (o : operation) (pops pushes : nat) (allowance : list Z -> Z -> Z) : Prop :=
  forall f, exec_pre pops pushes op o f -> D <= evm_depth (f_evm f) ->
    c_Gas (f_contract f) + allowance (f_stack f) (evm_callGasTemp (f_evm f)) < max_gas ->
    twp (o_execute o) (exec_post f (allowance (f_stack f) (evm_callGasTemp (f_evm f)))) f.

(** The memory an instruction needs depends on the stack. *)
Definition size_ok (pops : nat) (ms : memorySizeFunc) : Prop :=
  exists size : list Z -> Z * bool, forall f, (pops <= length (f_stack f))%nat ->
    ms f = Ok (size (f_stack f), f) /\ 0 <= (size (f_stack f)).1 < 2 ^ 64.

(** The instruction with its cost: every round that goes on costs something, beside what
    the instruction may give back. *)
Definition ends (o : operation) : bool := o_halts o || o_reverts o.

Record op_ok (D : Z) (op : Z) (o : operation) (pops pushes : nat) (allowance : list Z -> Z -> Z) (least : Z) : Prop := {
  oo_min : o_minStack o = Z.of_nat pops;
  oo_max : o_maxStack o = StackLimit + Z.of_nat pops - Z.of_nat pushes;
  oo_constant : 0 <= o_constantGas o;
  oo_least : ends o = true \/ 1 <= least + o_constantGas o;
  oo_least_nonneg : 0 <= least;
  oo_memory : match o_memorySize o with Some ms => size_ok pops ms | None => True end;
  oo_execute : exec_ok D op o pops pushes allowance;
  oo_gas : match o_dynamicGas o with
           | None => o_memorySize o = None /\ least = 0 /\ forall st g, allowance st g = 0
           | Some g => gas_ok pops (o_writes o) (bool_decide (o_memorySize o <> None)) least allowance g
           end
}.

Definition entry_ok (D : Z) (op : Z) (o : operation) : Prop :=
  exists pops pushes allowance least, op_ok D op o pops pushes allowance least.

(** A property of the entries of a table. *)
Definition table_all (Q : Z -> operation -> Prop) (t : instruction_set) : Prop :=
  forall op o, lookup_operation op t = Some o -> Q op o.

Definition table_ok (D : Z) : instruction_set -> Prop := table_all (entry_ok D).

Lemma table_nil Q : table_all Q [].
Proof. done. Qed.

Lemma table_cons (Q : Z -> operation -> Prop) op o t : Q op o -> table_all Q t -> table_all Q ((op, o) :: t).
Proof. intros Ho Ht op' o'. cbn. destruct (Z.eqb_spec op' op) as [->|]; [by intros [= <-]|apply Ht]. Qed.

(** ** What is relied on

    The gas price is not negative; storage is not metered by EIP-1283, whose refunds are
    taken back; and codes of different lengths have different hashes. *)
Class EnvironmentOk : Prop := {
  env_price : 0 <= ctx_GasPrice;
  env_metering : r_IsPetersburg (Rules_of chainConfig ctx_BlockNumber) ||
                 negb (r_IsConstantinople (Rules_of chainConfig ctx_BlockNumber)) = true;
  env_hashes : forall c1 c2, bounded c1 -> bounded c2 -> keccak256 c1 = keccak256 c2 -> length c1 = length c2
}.
End safe.
