(* ===== verification/EvmArith.v ===== *)
(** * Arithmetic of the virtual machine

    The instructions with two operands compute, on words of 256 bits, what a reference on
    integers says: modular arithmetic, division that truncates on signed readings, shifts,
    and the square-and-multiply loop of the exponentiation. *)

From S2P Require Import Prelude Bytes RlpEncode RlpDecode RlpCanonical RlpRaw Types Params EvmData StateDB EvmCore EvmGas EvmOps JumpTable Precompiled Evm EvmSafe.

Abbreviation modulus := (2 ^ 256).

Definition word (x : Z) : Prop := 0 <= x < modulus.

(** Two's complement. *)
Definition signed (x : Z) : Z := if x <? 2 ^ 255 then x else x - modulus.

Definition sign_extended (k y : Z) : Z :=
  let n := 8 * (k + 1) in y mod 2 ^ n - (if Z.testbit y (n - 1) then 2 ^ n else 0).

(** ** The reference *)
Definition alu : list (Z * (Z -> Z -> Z)) :=
  [(ADD, fun x y => (x + y) mod modulus);
   (MUL, fun x y => (x * y) mod modulus);
   (SUB, fun x y => (x - y) mod modulus);
   (DIV, fun x y => if y =? 0 then 0 else x / y);
   (SDIV, fun x y => if y =? 0 then 0 else Z.quot (signed x) (signed y) mod modulus);
   (MOD, fun x y => if y =? 0 then 0 else x mod y);
   (SMOD, fun x y => if y =? 0 then 0 else Z.rem (signed x) (signed y) mod modulus);
   (EXP, fun x y => x ^ y mod modulus);
   (SIGNEXTEND, fun x y => if x <? 31 then sign_extended x y mod modulus else y);
   (LT, fun x y => of_bool (x <? y));
   (GT, fun x y => of_bool (y <? x));
   (SLT, fun x y => of_bool (signed x <? signed y));
   (SGT, fun x y => of_bool (signed y <? signed x));
   (EQ, fun x y => of_bool (x =? y));
   (AND, Z.land);
   (OR, Z.lor);
   (XOR, Z.lxor);
   (BYTE, fun x y => if x <? 32 then y / 256 ^ (31 - x) mod 256 else 0);
   (SHL, fun x y => y * 2 ^ x mod modulus);
   (SHR, fun x y => y / 2 ^ x);
   (SAR, fun x y => signed y / 2 ^ x mod modulus)].

Fixpoint alu_lookup (op : Z) (l : list (Z * (Z -> Z -> Z))) : option (Z -> Z -> Z) :=
  match l with
  | [] => None
  | (o, f) :: l => if op =? o then Some f else alu_lookup op l
  end.

(** ** Words *)
Lemma U256_mod x : U256 x = x mod modulus.
Proof. unfold U256, tt256. change (2 ^ 256 - 1) with (Z.ones 256). by rewrite Z.land_ones. Qed.

Lemma U256_word x : word x -> U256 x = x.
Proof. intros H. rewrite U256_mod. by apply Z.mod_small. Qed.

Lemma S256_signed x : S256 x = signed x.
Proof. done. Qed.

Lemma signed_range x : word x -> - 2 ^ 255 <= signed x < 2 ^ 255.
Proof. unfold word, signed. intros H. destruct (Z.ltb_spec x (2 ^ 255)); lia. Qed.

Lemma signed_zero x : word x -> signed x = 0 <-> x = 0.
Proof. unfold word, signed. intros H. destruct (Z.ltb_spec x (2 ^ 255)); lia. Qed.

(** ** Signed arithmetic *)
Lemma sdiv_quot x y : word x -> word y ->
  (if (signed y =? 0) || (signed x =? 0) then 0
   else if negb (Z.sgn (signed x) =? Z.sgn (signed y)) then U256 (- (Z.abs (signed x) / Z.abs (signed y)))
   else U256 (Z.abs (signed x) / Z.abs (signed y))) =
  if y =? 0 then 0 else Z.quot (signed x) (signed y) mod modulus.
Proof.
  intros Hx Hy. destruct (Z.eqb_spec (signed y) 0) as [E|Hn].
  { apply (signed_zero y Hy) in E as ->. done. }
  destruct (Z.eqb_spec y 0) as [->|_]; [done|]. cbn [orb].
  destruct (Z.eqb_spec (signed x) 0) as [->|Hnx]; [by rewrite Z.quot_0_l|]. rewrite !U256_mod, Z.quot_div by done.
  destruct (Z.eqb_spec (Z.sgn (signed x)) (Z.sgn (signed y))) as [E|E]; cbn [negb]; f_equal.
  - rewrite E. assert (Z.sgn (signed y) * Z.sgn (signed y) = 1) by (destruct (Z.sgn_spec (signed y)); lia). nia.
  - assert (Z.sgn (signed x) * Z.sgn (signed y) = -1) by (destruct (Z.sgn_spec (signed y)), (Z.sgn_spec (signed x)); lia). nia.
Qed.

Lemma smod_rem x y : word x -> word y ->
  (if signed y =? 0 then 0
   else if signed x <? 0 then U256 (- (Z.abs (signed x) mod Z.abs (signed y)))
   else U256 (Z.abs (signed x) mod Z.abs (signed y))) =
  if y =? 0 then 0 else Z.rem (signed x) (signed y) mod modulus.
Proof.
  intros Hx Hy. destruct (Z.eqb_spec (signed y) 0) as [E|Hn].
  { apply (signed_zero y Hy) in E as ->. done. }
  destruct (Z.eqb_spec y 0) as [->|_]; [done|]. rewrite !U256_mod, Z.rem_mod by done.
  destruct (Z.ltb_spec (signed x) 0) as [Hl|Hl]; f_equal.
  - replace (Z.sgn (signed x)) with (-1) by (destruct (Z.sgn_spec (signed x)); lia). lia.
  - destruct (Z.eq_dec (signed x) 0) as [->|]; [by rewrite Z.mod_0_l by lia|].
    replace (Z.sgn (signed x)) with 1 by (destruct (Z.sgn_spec (signed x)); lia). lia.
Qed.

Lemma slt_signed x y : word x -> word y ->
  (if (tt255 <=? x) && (y <? tt255) then 1 else if (x <? tt255) && (tt255 <=? y) then 0 else of_bool (x <? y)) =
  of_bool (signed x <? signed y).
Proof.
  unfold word, signed, of_bool. change tt255 with (2 ^ 255). intros Hx Hy.
  destruct (Z.leb_spec (2 ^ 255) x), (Z.ltb_spec y (2 ^ 255)), (Z.ltb_spec x (2 ^ 255)), (Z.leb_spec (2 ^ 255) y), (Z.ltb_spec x y);
    cbn [andb]; try lia; repeat match goal with |- context [?a <? ?b] => destruct (Z.ltb_spec a b) end; lia.
Qed.

Lemma sgt_signed x y : word x -> word y ->
  (if (tt255 <=? x) && (y <? tt255) then 0 else if (x <? tt255) && (tt255 <=? y) then 1 else of_bool (y <? x)) =
  of_bool (signed y <? signed x).
Proof.
  unfold word, signed, of_bool. change tt255 with (2 ^ 255). intros Hx Hy.
  destruct (Z.leb_spec (2 ^ 255) x), (Z.ltb_spec y (2 ^ 255)), (Z.ltb_spec x (2 ^ 255)), (Z.leb_spec (2 ^ 255) y), (Z.ltb_spec y x);
    cbn [andb]; try lia; repeat match goal with |- context [?a <? ?b] => destruct (Z.ltb_spec a b) end; lia.
Qed.

(** ** Shifts *)
Lemma shl_mul x y : word x -> word y ->
  (if 256 <=? U256 x then 0 else U256 (Z.shiftl (U256 y) (big_Uint64 (U256 x)))) = y * 2 ^ x mod modulus.
Proof.
  intros Hx Hy. rewrite !(U256_word x), (U256_word y) by done. unfold word in *. destruct (Z.leb_spec 256 x).
  - replace x with (256 + (x - 256)) by lia. rewrite Z.pow_add_r by lia.
    replace (y * (2 ^ 256 * 2 ^ (x - 256))) with (y * 2 ^ (x - 256) * modulus) by ring. by rewrite Z.mod_mul.
  - rewrite big_Uint64_small by lia. by rewrite U256_mod, Z.shiftl_mul_pow2 by lia.
Qed.

Lemma shr_div x y : word x -> word y ->
  (if 256 <=? U256 x then 0 else U256 (Z.shiftr (U256 y) (big_Uint64 (U256 x)))) = y / 2 ^ x.
Proof.
  intros Hx Hy. rewrite !(U256_word x), (U256_word y) by done. unfold word in *. destruct (Z.leb_spec 256 x).
  - assert (modulus <= 2 ^ x) by (apply Z.pow_le_mono_r; lia). rewrite Z.div_small; lia.
  - rewrite big_Uint64_small, Z.shiftr_div_pow2 by lia. apply U256_word. pose proof (Z.pow_pos_nonneg 2 x ltac:(lia) ltac:(lia)).
    split; [apply Z.div_pos; lia|]. apply Z.le_lt_trans with y; [|lia]. apply Z.div_le_upper_bound; nia.
Qed.

Lemma sar_div x y : word x -> word y ->
  U256 (if 256 <=? U256 x then if 0 <=? signed y then 0 else -1 else Z.shiftr (signed y) (big_Uint64 (U256 x))) =
  signed y / 2 ^ x mod modulus.
Proof.
  intros Hx Hy. rewrite !(U256_word x) by done. pose proof (signed_range y Hy) as Hs. unfold word in Hx. rewrite U256_mod. f_equal.
  destruct (Z.leb_spec 256 x).
  - assert (modulus <= 2 ^ x) by (apply Z.pow_le_mono_r; lia). destruct (Z.leb_spec 0 (signed y)); [rewrite Z.div_small; lia|].
    apply (Z.div_unique _ _ _ (signed y + 2 ^ x)); lia.
  - rewrite big_Uint64_small by lia. apply Z.shiftr_div_pow2. lia.
Qed.

(** ** Parts of words *)
Lemma land_low y n : 0 <= n -> Z.land y (Z.shiftl 1 n - 1) = y mod 2 ^ n.
Proof.
  intros Hn. rewrite Z.shiftl_1_l. replace (2 ^ n - 1) with (Z.ones n) by (rewrite Z.ones_equiv; lia). by apply Z.land_ones.
Qed.

Lemma lor_high y n : 0 <= n -> Z.lor y (Z.lnot (Z.shiftl 1 n - 1)) = y mod 2 ^ n - 2 ^ n.
Proof.
  intros Hn. rewrite Z.shiftl_1_l. replace (2 ^ n - 1) with (Z.ones n) by (rewrite Z.ones_equiv; lia).
  assert (E : Z.lor y (Z.lnot (Z.ones n)) = Z.lnot (Z.land (Z.lnot y) (Z.ones n))).
  { apply Z.bits_inj'. intros i Hi. rewrite Z.lor_spec, !Z.lnot_spec, Z.land_spec, Z.lnot_spec by lia.
    by destruct (Z.testbit y i), (Z.testbit (Z.ones n) i). }
  rewrite E, Z.land_ones by lia. unfold Z.lnot. pose proof (Z.pow_pos_nonneg 2 n ltac:(lia) Hn) as Hp.
  replace (Z.pred (- y)) with (- y - 1) by lia.
  assert (Em : (- y - 1) mod 2 ^ n = 2 ^ n - 1 - y mod 2 ^ n); [|lia].
  symmetry. apply (Z.mod_unique_pos _ _ (- (y / 2 ^ n) - 1)); [pose proof (Z.mod_pos_bound y (2 ^ n) Hp); lia|].
  pose proof (Z.div_mod y (2 ^ n) ltac:(lia)). nia.
Qed.

Lemma mod_succ y n : 0 <= n -> y mod 2 ^ (n + 1) = y mod 2 ^ n + (if Z.testbit y n then 2 ^ n else 0).
Proof.
  intros Hn. rewrite Z.testbit_eqb, Z.pow_add_r, Z.pow_1_r by lia. pose proof (Z.pow_pos_nonneg 2 n ltac:(lia) Hn) as Hp.
  rewrite (Z.rem_mul_r y (2 ^ n) 2) by lia. pose proof (Z.mod_pos_bound (y / 2 ^ n) 2 ltac:(lia)).
  destruct (Z.eqb_spec (y / 2 ^ n mod 2) 1); [lia|]. replace (y / 2 ^ n mod 2) with 0 by lia. lia.
Qed.

Lemma signextend_spec x y : 0 <= x < 31 ->
  (let bit := big_Uint64 x * 8 + 7 in let mask := Z.shiftl 1 bit - 1 in
   if Z.testbit y bit then Z.lor y (Z.lnot mask) else Z.land y mask) = sign_extended x y.
Proof.
  intros Hx. cbv zeta. rewrite big_Uint64_small by lia. unfold sign_extended. set (bit := x * 8 + 7).
  replace (8 * (x + 1) - 1) with bit by lia. replace (8 * (x + 1)) with (bit + 1) by lia. assert (Hb : 0 <= bit) by lia.
  rewrite mod_succ, lor_high, land_low by done. replace (2 ^ (bit + 1)) with (2 * 2 ^ bit) by (rewrite Z.pow_add_r; lia).
  destruct (Z.testbit y bit); lia.
Qed.

Lemma words_of_lookup n x i :
  0 <= x -> (i < n)%nat -> words_of n x !! i = Some (x / 2 ^ (64 * Z.of_nat i) mod 2 ^ 64).
Proof.
  revert x i. induction n as [|n IH]; intros x i Hx Hi; [lia|]. cbn [words_of]. destruct i as [|i].
  - cbn. by rewrite Z.div_1_r.
  - cbn [lookup list_lookup]. rewrite IH by (lia || (apply Z.div_pos; lia)). f_equal. f_equal.
    rewrite Z.div_div by lia. f_equal. rewrite <- Z.pow_add_r by lia. f_equal. lia.
Qed.

Lemma words_of_length n x : length (words_of n x) = n.
Proof. revert x. induction n as [|n IH]; intros x; cbn; [done|by rewrite IH]. Qed.

(** The words of a number cover its bits. *)
Lemma big_Bits_lookup x i :
  0 <= x -> default 0 (big_Bits x !! i) = x / 2 ^ (64 * Z.of_nat i) mod 2 ^ 64.
Proof.
  intros Hx. unfold big_Bits. rewrite (Z.abs_eq x) by done. set (n := Z.to_nat ((big_BitLen x + 63) / 64)).
  destruct (decide (i < n)%nat) as [Hi|Hi]; [by rewrite words_of_lookup|].
  rewrite lookup_ge_None_2 by (rewrite words_of_length; lia). cbn. symmetry. rewrite Z.div_small; [done|]. split; [done|].
  destruct (Z.eq_dec x 0) as [->|Hn]; [apply Z.pow_pos_nonneg; lia|]. apply Z.log2_lt_pow2; [lia|].
  unfold n, big_BitLen in Hi. destruct (Z.eqb_spec x 0); [lia|]. rewrite Z.abs_eq in Hi by done. pose proof (Z.log2_nonneg x).
  pose proof (Z.mul_succ_div_gt (Z.log2 x + 1 + 63) 64 ltac:(lia)).
  assert ((Z.log2 x + 1 + 63) / 64 <= Z.of_nat i) by (assert (0 <= (Z.log2 x + 1 + 63) / 64) by (apply Z.div_pos; lia); lia). lia.
Qed.

Lemma byte_spec x y : word x -> word y ->
  (if x <? 32 then Byte y 32 (big_Int64 x) else 0) = if x <? 32 then y / 256 ^ (31 - x) mod 256 else 0.
Proof.
  unfold word. intros Hx Hy. destruct (Z.ltb_spec x 32) as [Hl|]; [|done]. rewrite big_Int64_small by lia. unfold Byte.
  destruct (Z.leb_spec 32 x); [lia|]. unfold bigEndianByteAt. replace (32 - 1 - x) with (31 - x) by lia. set (n := 31 - x).
  assert (Hn : 0 <= n < 32) by lia. pose proof (Z.div_mod n 8 ltac:(lia)) as Hd. pose proof (Z.mod_pos_bound n 8 ltac:(lia)) as Hm.
  assert (Hd0 : 0 <= n / 8) by (apply Z.div_pos; lia). pose proof (big_Bits_lookup y (Z.to_nat (n / 8)) ltac:(lia)) as Hw.
  rewrite Z2Nat.id in Hw by done. set (w := y / 2 ^ (64 * (n / 8)) mod 2 ^ 64) in *.
  transitivity (Z.shiftr w (8 * (n mod 8)) mod 256); [destruct (big_Bits y !! _); cbn in Hw; subst; [done|by rewrite <- Hw, Z.shiftr_0_l]|].
  unfold w. change 256 with (2 ^ 8). rewrite <- Z.pow_mul_r by lia. apply Z.bits_inj'. intros i Hi.
  destruct (Z.lt_ge_cases i 8) as [Hi8|Hi8]; [|by rewrite !Z.mod_pow2_bits_high by lia].
  rewrite !Z.mod_pow2_bits_low, Z.shiftr_spec, Z.mod_pow2_bits_low, !Z.div_pow2_bits by lia. f_equal. lia.
Qed.

(** ** Exponentiation *)
Lemma pow_mod_base b e : 0 <= e -> (b mod modulus) ^ e mod modulus = b ^ e mod modulus.
Proof.
  intros He. revert e He. apply natlike_ind; [done|]. intros e He IH. rewrite !Z.pow_succ_r by done.
  rewrite Z.mul_mod_idemp_l by done. by rewrite <- Z.mul_mod_idemp_r, IH, Z.mul_mod_idemp_r by done.
Qed.

Lemma pow_mod_cong b b' e : 0 <= e -> b mod modulus = b' mod modulus -> b ^ e mod modulus = b' ^ e mod modulus.
Proof. intros He H. by rewrite <- (pow_mod_base b), H, pow_mod_base. Qed.

(** The loop over the lowest [n] bits of a word. *)
Lemma exp_word_spec n w r b :
  0 <= w -> word r ->
  word (exp_word n w r b).1 /\ (exp_word n w r b).1 = r * b ^ (w mod 2 ^ Z.of_nat n) mod modulus /\
  (exp_word n w r b).2 mod modulus = b ^ (2 ^ Z.of_nat n) mod modulus.
Proof.
  revert w r b. induction n as [|n IH]; intros w r b Hw Hr.
  { cbn. change (2 ^ 0) with 1. rewrite Z.mod_1_r, Z.pow_0_r, Z.mul_1_r, Z.mod_small by done. by rewrite Z.pow_1_r. }
  cbn [exp_word]. rewrite Nat2Z.inj_succ, Z.pow_succ_r by lia.
  pose proof (Z.pow_pos_nonneg 2 (Z.of_nat n) ltac:(lia) ltac:(lia)) as Hp. set (P := 2 ^ Z.of_nat n) in *.
  assert (Hodd : Z.land w 1 = w mod 2) by apply (Z.land_ones w 1 ltac:(lia)). rewrite Hodd.
  set (r1 := if _ =? 1 then U256 (r * b) else r). assert (Hw2 : Z.shiftr w 1 = w / 2) by (by rewrite Z.shiftr_div_pow2). rewrite Hw2.
  pose proof (Z.mod_pos_bound w 2 ltac:(lia)) as Hm2. pose proof (Z.mod_pos_bound (w / 2) P Hp) as HmP.
  assert (Hr1 : word r1 /\ r1 = r * b ^ (w mod 2) mod modulus).
  { unfold r1. destruct (Z.eqb_spec (w mod 2) 1) as [->|Hne]; [rewrite Z.pow_1_r, <- U256_mod; split; [apply U256_range|done]|].
    replace (w mod 2) with 0 by lia. by rewrite Z.pow_0_r, Z.mul_1_r, Z.mod_small. }
  destruct Hr1 as [Hr1 Er1]. destruct (IH (w / 2) r1 (U256 (b * b))) as (I1 & I2 & I3); [apply Z.div_pos; lia|done|].
  assert (Hsq : forall e, 0 <= e -> U256 (b * b) ^ e mod modulus = b ^ (2 * e) mod modulus).
  { intros e He. rewrite U256_mod, pow_mod_base by done. f_equal. by rewrite <- Z.pow_2_r, <- Z.pow_mul_r by lia. }
  split; [done|]. rewrite I2, I3, Hsq by lia. split; [|done]. fold P.
  rewrite <- Z.mul_mod_idemp_r, Hsq, Z.mul_mod_idemp_r, Er1, Z.mul_mod_idemp_l by lia. f_equal.
  rewrite (Z.rem_mul_r w 2 P) by lia. rewrite Z.pow_add_r by lia. ring.
Qed.

Fixpoint words_value (ws : list Z) : Z :=
  match ws with [] => 0 | w :: ws => w + 2 ^ 64 * words_value ws end.

Lemma exp_words_spec ws r b :
  Forall (fun w => 0 <= w < 2 ^ 64) ws -> word r -> exp_words ws r b = r * b ^ words_value ws mod modulus.
Proof.
  intros Hws. revert r b. induction Hws as [|w ws Hw Hws IH]; intros r b Hr.
  { cbn. by rewrite Z.mul_1_r, Z.mod_small. }
  cbn [exp_words words_value]. destruct (exp_word_spec 64 w r b) as (H1 & H2 & H3); [lia|done|].
  destruct (exp_word 64 w r b) as [r' b']. cbn [fst snd] in H1, H2, H3. rewrite IH by done. change (2 ^ Z.of_nat 64) with (2 ^ 64) in *.
  assert (Hv : 0 <= words_value ws) by (clear -Hws; induction Hws; cbn [words_value]; lia).
  rewrite (Z.mod_small w (2 ^ 64) Hw) in H2. assert (HB : 0 <= 2 ^ 64) by done. destruct Hw as [Hw _]. revert HB H2 H3. clear -Hv Hw.
  generalize (2 ^ 64). intros B HB H2 H3.
  rewrite <- Z.mul_mod_idemp_r, (pow_mod_cong b' (b ^ B)), Z.mul_mod_idemp_r, H2, Z.mul_mod_idemp_l by done. f_equal.
  rewrite <- Z.pow_mul_r, Z.pow_add_r, Z.mul_assoc by nia. done.
Qed.

Lemma words_of_range n x : Forall (fun w => 0 <= w < 2 ^ 64) (words_of n x).
Proof.
  revert x. induction n as [|n IH]; intros x; cbn [words_of]; [constructor|]. constructor; [by apply Z.mod_pos_bound|apply IH].
Qed.

Lemma words_of_value n x : 0 <= x < 2 ^ (64 * Z.of_nat n) -> words_value (words_of n x) = x.
Proof.
  revert x. induction n as [|n IH]; intros x Hx; [cbn in *; lia|]. cbn [words_of words_value].
  rewrite IH; [pose proof (Z.div_mod x (2 ^ 64)); lia|]. split; [apply Z.div_pos; lia|].
  apply Z.div_lt_upper_bound; [lia|]. rewrite <- Z.pow_add_r by lia.
  replace (64 + 64 * Z.of_nat n) with (64 * Z.of_nat (S n)) by lia. lia.
Qed.

Lemma Exp_spec b e : 0 <= e -> Exp b e = b ^ e mod modulus.
Proof.
  intros He. unfold Exp, big_Bits. rewrite (Z.abs_eq e) by done. rewrite exp_words_spec; [|apply words_of_range|done].
  rewrite Z.mul_1_l, words_of_value; [done|]. split; [done|]. rewrite Z2Nat.id; unfold big_BitLen.
  - destruct (Z.eqb_spec e 0) as [->|Hn]; [done|]. rewrite (Z.abs_eq e) by done. apply Z.log2_lt_pow2; [lia|].
    pose proof (Z.mul_succ_div_gt (Z.log2 e + 1 + 63) 64 ltac:(lia)). lia.
  - destruct (Z.eqb_spec e 0) as [->|Hn]; [done|]. pose proof (Z.log2_nonneg (Z.abs e)). apply Z.div_pos; lia.
Qed.

Lemma exp_branches b e : word b -> word e ->
  (if e <? 1 then 1 else if b =? 0 then 0 else if e =? 1 then b else Exp b e) = b ^ e mod modulus.
Proof.
  intros Hb He. unfold word in *. destruct (Z.ltb_spec e 1); [by replace e with 0 by lia|].
  destruct (Z.eqb_spec b 0) as [->|]; [by rewrite Z.pow_0_l by lia|].
  destruct (Z.eqb_spec e 1) as [->|]; [by rewrite Z.pow_1_r, Z.mod_small|]. apply Exp_spec. lia.
Qed.

(** ** The instructions *)
Section instructions.
Context `{C : Crypto} {DB : StateDatabase} {N : NativeCrypto} {E : Environment}.
Context (calls : Calls).

(** The two operands are replaced by the result; the rest of the machine stays. *)
Definition computes (op : Z) (o : operation) : Prop :=
  forall f pc x y st mem c e, alu_lookup op alu = Some f -> word x -> word y ->
    o_execute o (MkFrame pc (x :: y :: st) mem c e) = Ok ((None, None), MkFrame pc (f x y :: st) mem c e).

Lemma computes_other op o : alu_lookup op alu = None -> computes op o.
Proof. intros H f pc x y st mem c e. by rewrite H. Qed.

Ltac head_name t := match t with ?f _ => head_name f | _ => t end.

(** Runs an instruction, and compares the number it leaves with the reference. *)
Ltac computes_by tac :=
  intros f pc x y st mem c e [= <-] Hx Hy; cbn [o_execute operation_of];
  match goal with |- ?op _ = _ => let h := head_name op in unfold h end; cbv zeta;
  refine (@eq_trans _ _ (Ok ((None, None), MkFrame pc (_ :: st) mem c e)) _ _ _); [reflexivity|]; do 4 f_equal; tac.

Lemma div_small x y : word x -> word y -> (if negb (y =? 0) then U256 (x / y) else 0) = if y =? 0 then 0 else x / y.
Proof.
  unfold word. intros Hx Hy. destruct (Z.eqb_spec y 0); cbn [negb]; [done|]. apply U256_word.
  split; [apply Z.div_pos; lia|]. apply Z.le_lt_trans with x; [apply Z.div_le_upper_bound; nia|lia].
Qed.

Lemma mod_word x y : word x -> word y -> (if y =? 0 then 0 else U256 (x mod y)) = if y =? 0 then 0 else x mod y.
Proof.
  unfold word. intros Hx Hy. destruct (Z.eqb_spec y 0); [done|]. apply U256_word. pose proof (Z.mod_pos_bound x y). unfold word. lia.
Qed.

Lemma opSignExtend_computes : computes SIGNEXTEND (operation_of opSignExtend GasFastStep None 2 1 None []).
Proof.
  intros f pc x y st mem c e [= <-] Hx Hy. unfold word in Hx.
  lazy delta [o_execute operation_of opSignExtend when mbind M_bind mret M_ret get modify pop push no_result f_stack set_stack f_pc f_mem
    f_contract f_evm] beta iota zeta.
  destruct (Z.ltb_spec x 31) as [Hl|Hl]; [|done]. do 4 f_equal. rewrite <- (signextend_spec x y) by lia. apply U256_mod.
Qed.

Create HintDb computing discriminated.
#[local] Hint Resolve opSignExtend_computes : computing.
#[local] Hint Extern 5 (computes _ _) => apply computes_other; reflexivity : computing.
#[local] Hint Extern 1 (computes ADD _) => computes_by ltac:(apply U256_mod) : computing.
#[local] Hint Extern 1 (computes MUL _) => computes_by ltac:(apply U256_mod) : computing.
#[local] Hint Extern 1 (computes SUB _) => computes_by ltac:(apply U256_mod) : computing.
#[local] Hint Extern 1 (computes DIV _) => computes_by ltac:(by apply div_small) : computing.
#[local] Hint Extern 1 (computes SDIV _) => computes_by ltac:(by apply sdiv_quot) : computing.
#[local] Hint Extern 1 (computes MOD _) => computes_by ltac:(by apply mod_word) : computing.
#[local] Hint Extern 1 (computes SMOD _) => computes_by ltac:(by apply smod_rem) : computing.
#[local] Hint Extern 1 (computes EXP _) => computes_by ltac:(by apply exp_branches) : computing.
#[local] Hint Extern 1 (computes SLT _) => computes_by ltac:(by apply slt_signed) : computing.
#[local] Hint Extern 1 (computes SGT _) => computes_by ltac:(by apply sgt_signed) : computing.
#[local] Hint Extern 1 (computes BYTE _) => computes_by ltac:(by apply byte_spec) : computing.
#[local] Hint Extern 1 (computes SHL _) => computes_by ltac:(by apply shl_mul) : computing.
#[local] Hint Extern 1 (computes SHR _) => computes_by ltac:(by apply shr_div) : computing.
#[local] Hint Extern 1 (computes SAR _) => computes_by ltac:(by apply sar_div) : computing.
#[local] Hint Extern 2 (computes _ _) => computes_by ltac:(reflexivity) : computing.

Lemma jump_table_computes : table_all computes (jump_table calls).
Proof.
  assert (F : table_all computes (newFrontierInstructionSet calls)).
  { unfold newFrontierInstructionSet. repeat (apply table_cons; [eauto 1 with computing nocore|]). apply table_nil. }
  assert (H : table_all computes (newHomesteadInstructionSet calls)) by (apply table_cons; [eauto 1 with computing nocore|exact F]).
  assert (B : table_all computes (newByzantiumInstructionSet calls)) by (do 4 (apply table_cons; [eauto 1 with computing nocore|]); exact H).
  unfold jump_table. destruct (IsConstantinople _ _); [do 5 (apply table_cons; [eauto 1 with computing nocore|]); exact B|].
  destruct (IsByzantium _ _); [exact B|]. destruct (IsHomestead _ _); [exact H|exact F].
Qed.

(** C23: every instruction with two operands, in every version of the instruction set,
    replaces the two words on top of the stack by what the reference [alu] computes of
    them: arithmetic modulo 2^256, division and remainder that truncate on two's
    complement readings and give 0 for a divisor of 0, signed and unsigned comparisons,
    shifts by any amount, the byte and the sign extension of a word, and exponentiation by
    repeated squaring. Nothing else of the machine changes. *)
Theorem binary_instructions op o f pc x y st mem c e :
  lookup_operation op (jump_table calls) = Some o -> alu_lookup op alu = Some f -> word x -> word y ->
  o_execute o (MkFrame pc (x :: y :: st) mem c e) = Ok ((None, None), MkFrame pc (f x y :: st) mem c e).
Proof. intros Ho Hf Hx Hy. by apply (jump_table_computes op o Ho). Qed.
End instructions.
