(* ===== verification/EvmSafeGas.v ===== *)
(** * Costs are safe

    The functions of the gas table return; the memory they admit has a bound; and each
    instruction costs something. What a call sets aside for the contract it runs has been
    paid for. *)

From S2P Require Import Prelude Bytes RlpEncode RlpDecode RlpCanonical RlpRaw Types Params EvmData EvmBitmap StateDB StateRevert StateEffect EvmCore EvmGas EvmOps JumpTable Precompiled Evm EvmSafe.

Section safe.
Context `{C : Crypto} {DB : StateDatabase} {N : NativeCrypto} {E : Environment}.

(** ** Rules for costs *)
Section rules.
Context (f0 : frame).
Implicit Types (f : frame).

Lemma cwp_mono {A} (m : costs A) (P Q : A -> frame -> Prop) f :
  cwp f0 m P f -> (forall a f', P a f' -> Q a f') -> cwp f0 m Q f.
Proof. intros H HQ. eapply twp_mono; [exact H|]. intros [e|a] f' Hr; [done|by apply HQ]. Qed.

Lemma cwp_bind {A B} (m : costs A) (k : A -> costs B) Q f :
  cwp f0 m (fun a f' => cwp f0 (k a) Q f') f -> cwp f0 (costs_bind m k) Q f.
Proof.
  intros H. apply twp_bind. eapply twp_mono; [exact H|]. intros [e|a] f' Hr; [by apply twp_ret|done].
Qed.

Lemma cwp_cost {A} (a : A) (Q : A -> frame -> Prop) f : Q a f -> cwp f0 (cost a) Q f.
Proof. intros H. by apply twp_ret. Qed.

Lemma cwp_error {A} e (Q : A -> frame -> Prop) f : gas_post f0 f -> cwp f0 (cost_error e) Q f.
Proof. intros H. by apply twp_ret. Qed.

Lemma cwp_lift {A} (m : M frame A) (Q : A -> frame -> Prop) f : twp m Q f -> cwp f0 (lift_cost m) Q f.
Proof. intros H. apply twp_bind. eapply twp_mono; [exact H|]. intros a f' Ha. by apply twp_ret. Qed.

Lemma cwp_checked (r : Z * bool) (Q : Z -> frame -> Prop) f :
  gas_post f0 f -> (r.2 = false -> Q r.1 f) -> cwp f0 (checked r) Q f.
Proof. intros Hf H. unfold checked. destruct r as [x []]; [by apply cwp_error|by apply cwp_cost, H]. Qed.

Lemma cwp_SafeAdd x y (Q : Z -> frame -> Prop) f :
  gas_post f0 f -> 0 <= x -> 0 <= y -> (x + y < 2 ^ 64 -> Q (x + y) f) -> cwp f0 (checked (SafeAdd x y)) Q f.
Proof.
  intros Hf Hx Hy H. apply cwp_checked; [done|]. unfold SafeAdd, MaxUint64. cbn. intros Hs%Z.ltb_ge.
  rewrite uint64_small by (unfold is_uint64; lia). apply H. lia.
Qed.

Lemma cwp_SafeMul x y (Q : Z -> frame -> Prop) f :
  gas_post f0 f -> (forall z, 0 <= z -> Q z f) -> cwp f0 (checked (SafeMul x y)) Q f.
Proof.
  intros Hf H. apply cwp_checked; [done|]. intros _. unfold SafeMul. case_match; apply H; [done|apply uint64_range].
Qed.

Lemma cwp_bigUint64 x (Q : Z -> frame -> Prop) f :
  gas_post f0 f -> (forall z, 0 <= z < 2 ^ 64 -> Q z f) -> cwp f0 (checked (bigUint64 x)) Q f.
Proof. intros Hf H. apply cwp_checked; [done|]. intros _. apply H, big_Uint64_range. Qed.

Lemma twp_Back n (Q : Z -> frame -> Prop) f :
  (n < length (f_stack f))%nat -> Forall (fun x => 0 <= x) (f_stack f) ->
  (forall x, f_stack f !! n = Some x -> 0 <= x -> Q x f) -> twp (Back n) Q f.
Proof.
  intros Hn Hs H. destruct (lookup_lt_is_Some_2 _ _ Hn) as [x Hx]. apply twp_bind, twp_get. rewrite Hx.
  apply twp_deref, H; [done|]. by eapply Forall_lookup_1 in Hs.
Qed.

Lemma cwp_Back n (Q : Z -> frame -> Prop) f :
  frame_ok f0 -> (n < length (f_stack f0))%nat -> gas_post f0 f ->
  (forall x, f_stack f0 !! n = Some x -> 0 <= x -> Q x f) -> cwp f0 (lift_cost (Back n)) Q f.
Proof.
  intros H0 Hn Hf H. apply cwp_lift, twp_Back; rewrite (gp_stack _ _ Hf); [done|apply H0|done].
Qed.

(** A step of the state while the cost is computed. *)
Lemma gas_post_db f s' :
  gas_post f0 f -> steps (in_static_call (f_evm f0)) (evm_StateDB (f_evm f)) s' ->
  gas_post f0 (set_evm (set_StateDB s' (f_evm f)) f).
Proof.
  intros Hf Hs. eapply gas_post_trans; [exact Hf|]. pose proof (gp_steps _ _ Hf) as He. split; try done.
  apply db_evm_steps; [apply He|]. unfold in_static_call in *. by rewrite (es_readOnly _ _ He).
Qed.

Lemma cwp_db {A} (m : M StateDB A) (Q : A -> frame -> Prop) f :
  gas_post f0 f ->
  (state_ok (evm_StateDB (f_evm f)) ->
     twp m (fun _ s' => steps (in_static_call (f_evm f0)) (evm_StateDB (f_evm f)) s') (evm_StateDB (f_evm f))) ->
  (forall a f', gas_post f0 f' -> Q a f') -> cwp f0 (lift_cost (db m)) Q f.
Proof.
  intros Hf Hm H. apply cwp_lift. eapply twp_mono; [apply db_twp, Hm, (gp_steps _ _ Hf)|].
  intros a f' (s' & -> & Hs). apply H. by apply gas_post_db.
Qed.

Lemma cwp_looks {A} (m : M StateDB A) P (Q : A -> frame -> Prop) f :
  gas_post f0 f ->
  (forall ro s, state_ok s -> twp m (looks ro (P s) s) s) ->
  (forall a f', gas_post f0 f' -> Q a f') -> cwp f0 (lift_cost (db m)) Q f.
Proof.
  intros Hf Hm H. apply cwp_db; [done| |done]. intros Hs. eapply twp_mono; [by apply Hm|]. by intros a s' (_ & ? & _).
Qed.

Lemma toWordSize_nonneg x : 0 <= x -> 0 <= toWordSize x.
Proof. intros Hx. unfold toWordSize, MaxUint64. case_match; [done|]. apply Z.div_pos; lia. Qed.

(** ** Memory *)
Lemma cwp_memoryGasCost ms (Q : Z -> frame -> Prop) f :
  gas_post f0 f ->
  (forall cost f', 0 <= cost < 2 ^ 64 -> ms <= max_memory -> gas_post f0 f' -> Q cost f') ->
  0 <= ms -> cwp f0 (memoryGasCost ms) Q f.
Proof.
  intros Hf H Hms. unfold memoryGasCost. destruct (Z.eqb_spec ms 0); [apply cwp_cost, H; unfold max_memory; [lia..|done]|].
  destruct (Z.ltb_spec 0x1FFFFFFFE0 ms); [by apply cwp_error|]. cbv zeta. apply cwp_bind, cwp_lift, twp_gets.
  case_match; [|apply cwp_cost, H; unfold max_memory; [lia..|done]].
  apply cwp_bind, cwp_lift, twp_modify, cwp_cost, H; [apply uint64_range|done|].
  eapply gas_post_trans; [exact Hf|]. split; try done. apply evm_steps_refl, (gp_steps _ _ Hf).
Qed.

Lemma cwp_memory_and ms step (Q : Z -> frame -> Prop) f :
  gas_post f0 f -> 0 <= ms -> 0 <= step ->
  (forall cost f', step <= cost < 2 ^ 64 -> ms <= max_memory -> gas_post f0 f' -> Q cost f') -> cwp f0 (memory_and ms step) Q f.
Proof.
  intros Hf Hms Hst H. apply cwp_bind, cwp_memoryGasCost; [done| |done]. intros cost f' Hc Hm Hf'.
  apply cwp_SafeAdd; [done|lia..|]. intros Hlt. apply H; [lia|done..].
Qed.

Lemma cwp_per_word n w gas (Q : Z -> frame -> Prop) f :
  frame_ok f0 -> (n < length (f_stack f0))%nat -> gas_post f0 f -> 0 <= gas ->
  (forall cost, gas <= cost -> Q cost f) -> cwp f0 (per_word n w gas) Q f.
Proof.
  intros H0 Hn Hf Hg H. apply cwp_bind, cwp_Back; [done..|]. intros x _ _.
  apply cwp_bind, cwp_bigUint64; [done|]. intros y _. apply cwp_bind, cwp_SafeMul; [done|]. intros z Hz.
  apply cwp_SafeAdd; [done|lia..|]. intros _. apply H. lia.
Qed.

(** The gas for a call is set aside. *)
Lemma callGas_range gt available base requested temp :
  callGas gt available base requested = inr temp -> 0 <= temp < 2 ^ 64.
Proof.
  unfold callGas. repeat case_match; intros [= <-]; try apply uint64_range; apply big_Uint64_range.
Qed.

Lemma gas_post_temp f temp : gas_post f0 f -> 0 <= temp < 2 ^ 64 -> gas_post f0 (set_evm (set_callGasTemp temp (f_evm f)) f).
Proof.
  intros Hf Ht. eapply gas_post_trans; [exact Hf|]. split; try done. destruct (es_ok _ _ (gp_steps _ _ Hf)).
  split; [by split|by apply steps_refl|done..].
Qed.

Lemma cwp_with_call_gas gt gas (Q : Z -> frame -> Prop) f :
  frame_ok f0 -> (0 < length (f_stack f0))%nat -> gas_post f0 f -> 0 <= gas ->
  (forall temp f', gas_post f0 f' -> evm_callGasTemp (f_evm f') = temp -> 0 <= temp -> Q (gas + temp) f') ->
  cwp f0 (with_call_gas gt gas) Q f.
Proof.
  intros H0 Hn Hf Hg H. apply cwp_bind, cwp_lift, twp_gets, cwp_bind, cwp_Back; [done..|]. intros x _ _.
  destruct (callGas _ _ _ _) as [e|temp] eqn:Et.
  - apply cwp_bind, cwp_lift. eexists tt, _. split; [reflexivity|]. apply cwp_error. by apply gas_post_temp.
  - apply callGas_range in Et. apply cwp_bind, cwp_lift. eexists tt, _. split; [reflexivity|].
    apply cwp_SafeAdd; [by apply gas_post_temp|lia..|]. intros _. apply H; [by apply gas_post_temp|done|lia].
Qed.
End rules.

(** ** The gas table *)
Record table_positive (gt : GasTable) : Prop := {
  tp_ExtcodeSize : 20 <= gt_ExtcodeSize gt;
  tp_ExtcodeCopy : 20 <= gt_ExtcodeCopy gt;
  tp_Balance : 20 <= gt_Balance gt;
  tp_SLoad : 50 <= gt_SLoad gt;
  tp_Calls : 40 <= gt_Calls gt <= 700;
  tp_Suicide : 0 <= gt_Suicide gt
}.

Lemma gasTable_positive : table_positive interpreter_gasTable.
Proof. unfold interpreter_gasTable, GasTable_of. repeat case_match; by split. Qed.

Definition nothing (st : list Z) (g : Z) : Z := 0.

Ltac gas_start :=
  intros f ms Hf Hn Hms Hnomem Hst; pose proof (gas_post_refl f Hf) as Hp; pose proof gasTable_positive as [].

Ltac gas_end := split_and!; [done|unfold nothing, max_memory, SstoreSetGas, SstoreClearGas, SstoreResetGas in *; lia..].

Lemma memory_and_ok n w m step : 0 <= step -> gas_ok n w m step nothing (fun _ ms => memory_and ms step).
Proof. intros H. gas_start. apply cwp_memory_and; [done..|]. intros cost f' Hc Hm Hf'. gas_end. Qed.

Lemma memory_words_ok n k w m (step : GasTable -> Z) least word :
  (k < n)%nat -> 0 <= least <= step interpreter_gasTable ->
  gas_ok n w m least nothing (fun gt ms => gas ⇐ memory_and ms (step gt); per_word k word gas).
Proof.
  intros Hk Hl. gas_start. apply cwp_bind, cwp_memory_and; [done|done|lia|]. intros gas f' Hg Hm Hf'.
  apply cwp_per_word; [done|lia|done|lia|]. intros cost Hc. gas_end.
Qed.

Lemma gasReturn_ok n w m : gas_ok n w m 0 nothing gasReturn.
Proof. gas_start. apply cwp_memoryGasCost; [done| |done]. intros cost f' Hc Hm Hf'. gas_end. Qed.

(** A cost that depends on the table alone. *)
Lemma fixed_gas_ok n w (g : GasTable -> Z) least :
  0 <= least <= g interpreter_gasTable -> gas_ok n w false least nothing (fun gt _ => cost (g gt)).
Proof. intros Hg. gas_start. apply cwp_cost. specialize (Hnomem eq_refl). gas_end. Qed.

Lemma gasExp_ok w : gas_ok 2 w false 10 nothing gasExp.
Proof.
  gas_start. specialize (Hnomem eq_refl). apply cwp_bind, cwp_Back; [done|lia|done|]. intros e _ _. cbv zeta.
  apply cwp_SafeAdd; [done|apply uint64_range|done|]. intros _. change ExpGas with 10.
  match goal with |- context [uint64 ?x] => pose proof (proj1 (uint64_range x)) end. gas_end.
Qed.

Lemma makeGasLog_ok n k w m : (2 <= n)%nat -> gas_ok n w m 375 nothing (makeGasLog k).
Proof.
  intros Hn2. gas_start. apply cwp_bind, cwp_Back; [done|lia|done|]. intros r _ _.
  apply cwp_bind, cwp_bigUint64; [done|]. intros size _. apply cwp_bind, cwp_memoryGasCost; [done| |done].
  intros gas f' Hg Hm Hf'. apply cwp_bind, cwp_SafeAdd; [done|lia|done|]. intros _.
  pose proof (proj1 (uint64_range (k * LogTopicGas))). change LogGas with 375.
  apply cwp_bind, cwp_SafeAdd; [done|lia|lia|]. intros _. apply cwp_bind, cwp_SafeMul; [done|]. intros z Hz.
  apply cwp_SafeAdd; [done|lia|done|]. intros _. gas_end.
Qed.

(** ** Storage and the end of a contract *)
Context {K : EnvironmentOk}.

Lemma gasSStore_ok : gas_ok 2 true false 5000 nothing gasSStore.
Proof.
  gas_start. specialize (Hnomem eq_refl).
  assert (Hro : in_static_call (f_evm f) = false) by (destruct (in_static_call _); auto).
  apply cwp_bind, cwp_Back; [done|lia|done|]. intros y _ _. apply cwp_bind, cwp_Back; [done|lia|done|]. intros x _ _.
  apply cwp_bind, cwp_lift, twp_gets, cwp_bind. eapply cwp_looks; [done|intros; by apply GetState_looks|].
  intros current f1 H1. cbv zeta. rewrite env_metering. case_match; [apply cwp_cost; gas_end|].
  case_match; [|apply cwp_cost; gas_end]. apply cwp_bind, cwp_db; [done| |].
  - intros Hs. eapply twp_mono; [by apply AddRefund_steps|]. intros _ s' [H' _]. by rewrite Hro.
  - intros _ f2 H2. apply cwp_cost. gas_end.
Qed.

Lemma gasSuicide_ok : gas_ok 1 true false 0 nothing gasSuicide.
Proof.
  gas_start. specialize (Hnomem eq_refl).
  assert (Hro : in_static_call (f_evm f) = false) by (destruct (in_static_call _); auto).
  apply cwp_bind, cwp_lift, twp_gets, cwp_bind.
  apply cwp_mono with (fun gas f' => gas_post f f' /\ 0 <= gas).
  - case_match; [|by apply cwp_cost]. apply cwp_bind, cwp_Back; [done|lia|done|]. intros a _ _.
    apply cwp_bind. apply cwp_mono with (fun _ f' => gas_post f f').
    + case_match; apply cwp_bind.
      * eapply cwp_looks; [done|intros; by apply Empty_looks|]. intros [] f1 H1; [|by apply cwp_cost].
        apply cwp_bind. eapply cwp_looks; [done|intros; by apply GetBalance_looks|]. intros b f2 H2. by apply cwp_cost.
      * eapply cwp_looks; [done|intros; by apply Exist_looks|]. intros b f1 H1. by apply cwp_cost.
    + intros b f1 H1. apply cwp_cost. split; [done|]. case_match; [apply uint64_range|done].
  - intros gas f1 [H1 Hg]. apply cwp_bind. eapply cwp_looks; [done|intros; by apply HasSuicided_looks|].
    intros sd f2 H2. apply cwp_bind, cwp_mono with (fun _ f' => gas_post f f'); [|intros _ f3 H3; apply cwp_cost; gas_end].
    unfold when. destruct (negb sd); [|by apply cwp_lift, twp_ret]. apply cwp_db; [done| |done].
    intros Hs. eapply twp_mono; [by apply AddRefund_steps|]. intros _ s' [H' _]. by rewrite Hro.
Qed.

(** ** Calls *)
Definition allowance_call (st : list Z) (g : Z) : Z :=
  g + match st !! 2%nat with Some v => if U256 v =? 0 then 0 else CallStipend | None => 0 end.
Definition allowance_plain (st : list Z) (g : Z) : Z := g.

Lemma gasDelegateCall_ok n w m : (0 < n)%nat -> gas_ok n w m 40 allowance_plain gasDelegateCall.
Proof.
  intros Hn0. gas_start. apply cwp_bind, cwp_memory_and; [done|done|lia|]. intros gas f1 Hg Hm H1.
  apply cwp_with_call_gas; [done|lia|done|lia|]. intros temp f2 H2 <- Ht. unfold allowance_plain. gas_end.
Qed.

(** The base cost covers the stipend. *)
Lemma cwp_call_rest f f1 v base ms :
  frame_ok f -> (2 < length (f_stack f))%nat -> gas_post f f1 -> f_stack f !! 2%nat = Some v -> 0 <= ms -> 0 <= base ->
  (if negb (v =? 0) then 9040 else 40) <= base ->
  cwp f (memoryGas ⇐ memoryGasCost ms; gas ⇐ checked (SafeAdd base memoryGas); with_call_gas interpreter_gasTable gas)
    (fun cost f' => gas_post f f' /\ 0 <= cost /\ ms <= max_memory /\
       allowance_call (f_stack f') (evm_callGasTemp (f_evm f')) + 40 <= cost) f1.
Proof.
  intros Hf Hn H1 Hv Hms Hb Hbase. apply cwp_bind, cwp_memoryGasCost; [done| |done]. intros mg f2 Hmg Hm H2.
  apply cwp_bind, cwp_SafeAdd; [done|lia|lia|]. intros _. apply cwp_with_call_gas; [done|lia|done|lia|].
  intros temp f3 H3 <- Ht. unfold allowance_call. rewrite (gp_stack _ _ H3), Hv. change CallStipend with 2300.
  destruct (Z.eqb_spec v 0) as [->|]; cbn [negb] in Hbase; [change (U256 0) with 0; cbn; gas_end|]. case_match; gas_end.
Qed.

Lemma gasCallCode_ok n w m : (2 < n)%nat -> gas_ok n w m 40 allowance_call gasCallCode.
Proof.
  intros Hn2. gas_start. apply cwp_bind, cwp_Back; [done|lia|done|]. intros v Hv _. cbv zeta.
  apply cwp_call_rest with v; [done|lia|done|done|done| |]; change CallValueTransferGas with 9000;
    case_match; rewrite ?uint64_small by (unfold is_uint64; lia); lia.
Qed.

Lemma gasCall_ok n w m : (2 < n)%nat -> gas_ok n w m 40 allowance_call gasCall.
Proof.
  intros Hn2. gas_start. apply cwp_bind, cwp_Back; [done|lia|done|]. intros v Hv _.
  apply cwp_bind, cwp_Back; [done|lia|done|]. intros a _ _. cbv zeta. apply cwp_bind.
  apply cwp_mono with (fun _ f' => gas_post f f').
  - case_match; [case_match; [eapply cwp_looks; [done|intros; by apply Empty_looks|done]|by apply cwp_cost]|].
    apply cwp_bind. eapply cwp_looks; [done|intros; by apply Exist_looks|]. intros b f1 H1. by apply cwp_cost.
  - intros new f1 H1. apply cwp_call_rest with v; [done|lia|done|done|done| |]; change CallValueTransferGas with 9000;
      change CallNewAccountGas with 25000;
      repeat case_match; rewrite ?(uint64_small (gt_Calls _ + _)), ?uint64_small by (unfold is_uint64; rewrite ?uint64_small by (unfold is_uint64; lia); lia); lia.
Qed.
End safe.
