(* ===== verification/EvmSafeOps.v ===== *)
(** * Instructions without calls

    The entries of the jump table for arithmetic, the stack, the memory, storage, jumps and
    logs are in order. *)

From S2P Require Import Prelude Bytes RlpEncode RlpDecode RlpCanonical RlpRaw Types Params EvmData EvmBitmap StateDB StateRevert StateEffect EvmCore EvmGas EvmOps JumpTable Precompiled Evm EvmSafe EvmSafeGas.

Section safe.
Context `{C : Crypto} {DB : StateDatabase} {N : NativeCrypto} {E : Environment} {K : EnvironmentOk}.

Abbreviation nonneg := (fun x => 0 <= x).

(** ** Instructions by what they pop and push *)
Record local_post (pushes : nat) (extra : Z) (mem : Memory) (c : Contract) (e : Evm) (r : option bytes * option vm_error)
    (ys : list Z) (pc' : Z) (mem' : Memory) (c' : Contract) (e' : Evm) : Prop := {
  lp_pushes : (length ys <= pushes)%nat;
  lp_nonneg : Forall nonneg ys;
  lp_pc : 0 <= pc';
  lp_mem : mem_Len mem' = mem_Len mem;
  lp_contract : contract_ok c';
  lp_gas : c_Gas c' <= c_Gas c + extra;
  lp_code : c_Code c' = c_Code c;
  lp_steps : evm_steps e e';
  lp_result : bounded (default [] r.1)
}.

(** Regions given by two elements of the stack. *)
Lemma calcMemSize64WithUint_range o w : 0 <= (calcMemSize64WithUint o w).1 < 2 ^ 64.
Proof. unfold calcMemSize64WithUint. repeat case_match; [done..|]. apply uint64_range. Qed.

Lemma calcMemSize64_range o l : 0 <= (calcMemSize64 o l).1 < 2 ^ 64.
Proof. unfold calcMemSize64. case_match; [done|]. apply calcMemSize64WithUint_range. Qed.

Lemma Back_run n (f : frame) x : f_stack f !! n = Some x -> Back n f = Ok (x, f).
Proof. intros Hx. unfold Back. run. by rewrite Hx. Qed.

Lemma Back_default n (f : frame) : (n < length (f_stack f))%nat -> Back n f = Ok (default 0 (f_stack f !! n), f).
Proof. intros Hn. destruct (lookup_lt_is_Some_2 _ _ Hn) as [x Hx]. rewrite Hx. by apply Back_run. Qed.

Abbreviation calc_region i j st := (calcMemSize64 (default 0 (st !! i%nat)) (default 0 (st !! j%nat))).

Lemma region_run i j (f : frame) :
  (i < length (f_stack f))%nat -> (j < length (f_stack f))%nat -> region i j f = Ok (calc_region i j (f_stack f), f).
Proof.
  intros Hi Hj. unfold region. by rewrite (bind_run _ _ _ _ _ (Back_default _ _ Hi)), (bind_run _ _ _ _ _ (Back_default _ _ Hj)).
Qed.

Lemma region_size i j n : (i < n)%nat -> (j < n)%nat -> size_ok n (region i j).
Proof.
  intros Hi Hj. exists (fun st => calc_region i j st). intros f Hn. split; [apply region_run; lia|apply calcMemSize64_range].
Qed.

Lemma word_size w n : (0 < n)%nat -> size_ok n (o ← Back 0; mret (calcMemSize64WithUint o w)).
Proof.
  intros Hn. exists (fun st => calcMemSize64WithUint (default 0 (st !! 0%nat)) w). intros f Hf.
  rewrite (bind_run _ _ _ _ _ (Back_default 0 f ltac:(lia))). split; [done|apply calcMemSize64WithUint_range].
Qed.

Lemma larger_region_size i j i' j' n : (i < n)%nat -> (j < n)%nat -> (i' < n)%nat -> (j' < n)%nat -> size_ok n (larger_region i j i' j').
Proof.
  intros Hi Hj Hi' Hj'. exists (fun st =>
    let x := calc_region i j st in let y := calc_region i' j' st in
    if x.2 then (0, true) else if y.2 then (0, true) else if y.1 <? x.1 then (x.1, false) else (y.1, false)).
  intros f Hf. unfold larger_region. rewrite (bind_run _ _ _ _ _ (region_run i j f ltac:(lia) ltac:(lia))).
  pose proof (calcMemSize64_range (default 0 (f_stack f !! i)) (default 0 (f_stack f !! j))).
  pose proof (calcMemSize64_range (default 0 (f_stack f !! i')) (default 0 (f_stack f !! j'))). cbv zeta.
  destruct (calcMemSize64 (default 0 (f_stack f !! i)) _) as [x []]; [done|].
  rewrite (bind_run _ _ _ _ _ (region_run i' j' f ltac:(lia) ltac:(lia))).
  destruct (calcMemSize64 (default 0 (f_stack f !! i')) _) as [y []]; [done|]. cbn. by case_match.
Qed.

Definition local_ok (D op : Z) (exec : executionFunc) (may_write : bool) (ms : option memorySizeFunc) (pops pushes : nat)
    (allowance : list Z -> Z -> Z) : Prop :=
  forall pc xs st mem c e (f := MkFrame pc (xs ++ st) mem c e),
    length xs = pops -> Forall nonneg xs -> frame_ok f ->
    (op <> STOP -> pc < Z.of_nat (length (c_Code c))) ->
    (in_static_call e = true -> may_write = false /\ (op = CALL -> (xs ++ st) !! 2%nat = Some 0)) ->
    match ms with Some ms => exists sz, ms f = Ok ((sz, false), f) /\ sz <= mem_Len mem | None => True end ->
    D <= evm_depth e -> c_Gas c + allowance (xs ++ st) (evm_callGasTemp e) < max_gas ->
    twp exec (fun r f' => exists ys pc' mem' c' e',
      f' = MkFrame pc' (ys ++ st) mem' c' e' /\
      local_post pushes (allowance (xs ++ st) (evm_callGasTemp e)) mem c e r ys pc' mem' c' e') f.

Lemma local_entry D op exec constant dyn (pops pushes : nat) zpops zpushes ms flags allowance least :
  zpops = Z.of_nat pops -> zpushes = Z.of_nat pushes -> 0 <= constant -> 0 <= least ->
  bool_decide (halts ∈ flags) || bool_decide (reverts ∈ flags) || (1 <=? least + constant) = true ->
  match ms with Some m => size_ok pops m | None => True end ->
  local_ok D op exec (bool_decide (writes ∈ flags)) ms pops pushes allowance ->
  match dyn with
  | None => ms = None /\ least = 0 /\ forall st g, allowance st g = 0
  | Some g => gas_ok pops (bool_decide (writes ∈ flags)) (bool_decide (ms <> None)) least allowance g
  end ->
  entry_ok D op (operation_of exec constant dyn zpops zpushes ms flags).
Proof.
  intros -> -> Hc Hl Hend Hms Hx Hg. exists pops, pushes, allowance, least. split; [done..| |done|done| |].
  - unfold ends. cbn. apply orb_true_iff in Hend as [->|H]; [by left|right; by apply Z.leb_le].
  - intros [pc st mem c e] [Kf Hlow Hhigh Hpc Hst Hm] HD Hall. pose proof Kf as [Kev Kc Kst Kh Km Kpc]. cbn in *.
    rewrite <- (take_drop pops st) in Kst. apply Forall_app in Kst as [Kx Kd].
    pose proof (Hx pc (take pops st) (drop pops st) mem c e) as H. rewrite take_drop in H.
    eapply twp_mono; [apply H; try done; by rewrite length_take_le|].
    intros r f' (ys & pc' & mem' & c' & e' & -> & []). split; cbn; [|done..].
    split; cbn; [by apply lp_steps0|done|by apply Forall_app|rewrite length_app, length_drop; lia|lia|done].
  - cbn. by destruct dyn.
Qed.

(** Instructions on the stack alone *)
Definition pure_exec (op : Z) (exec : executionFunc) (pops pushes : nat) : Prop :=
  forall pc xs st mem c e, length xs = pops -> Forall nonneg xs -> contract_ok c -> 0 <= pc ->
    (op <> STOP -> pc < Z.of_nat (length (c_Code c))) ->
    exists ys pc', exec (MkFrame pc (xs ++ st) mem c e) = Ok ((None, None), MkFrame pc' (ys ++ st) mem c e) /\
                   length ys = pushes /\ Forall nonneg ys /\ 0 <= pc'.

Lemma pure_op D op exec constant (pops pushes : nat) zpops zpushes flags :
  zpops = Z.of_nat pops -> zpushes = Z.of_nat pushes ->
  bool_decide (halts ∈ flags) || (1 <=? constant) = true -> 0 <= constant -> pure_exec op exec pops pushes ->
  entry_ok D op (operation_of exec constant None zpops zpushes None flags).
Proof.
  intros Hp Hq Hc H0 Hx. eapply local_entry with (least := 0) (allowance := nothing); [exact Hp|exact Hq|done|done| |done| |done]; rewrite ?Z.add_0_l.
  - apply orb_true_iff in Hc as [->| ->]; [done|]. by rewrite orb_true_r.
  - intros pc xs st mem c e f Hl Hnn Hf Hpc _ _ _ _. destruct (Hx pc xs st mem c e) as (ys & pc' & Ex & Hy & Hn & Hp'); [done..|apply Hf|apply Hf|done|].
    eexists _, _. split; [exact Ex|]. exists ys, pc', mem, c, e. split; [done|].
    split; try done; [lia|apply Hf|unfold nothing; lia|apply evm_steps_refl, Hf].
Qed.
End safe.

Ltac take_args xs :=
  repeat match goal with
  | H : length xs = 0%nat |- _ => apply nil_length_inv in H; subst xs
  | H : length xs = S _ |- _ => destruct xs as [|? xs]; [discriminate H|]; cbn in H; injection H as H
  | H : Forall _ (_ :: _) |- _ => apply Forall_cons in H as [? H]
  end.

Ltac pure_start pops pushes :=
  eapply (pure_op _ _ _ _ pops pushes); [reflexivity|reflexivity|reflexivity|done|];
  intros pc xs st mem c e Hl Hx Hc Hp Hpc; take_args xs;
  pose proof (proj1 (ck_gas _ Hc)); pose proof env_price.

Ltac head_of t := match t with ?f _ => head_of f | _ => t end.

Ltac pure_run :=
  match goal with |- ?exec _ = _ => let h := head_of exec in unfold h end; cbv zeta; reflexivity.

(** Computes an instruction up to what it does with numbers and data. *)
Ltac flat :=
  match goal with |- ?exec _ = _ => let h := head_of exec in unfold h end;
  lazy delta [when mbind M_bind mret M_ret get gets modify pop push contract no_result f_stack set_stack app f_pc f_mem f_contract f_evm]
    beta iota zeta.

Ltac pure_end :=
  split; [pure_run|];
  split; [reflexivity|split; [apply Forall_singleton || apply Forall_nil; unfold of_bool, mem_Len, Hash_Big; cbv zeta; repeat case_match; auto with nonneg|auto with nonneg]].

Ltac pure :=
  match goal with
  | |- entry_ok _ _ (operation_of _ _ None ?p 1 None _) =>
      let p := eval compute in (Z.to_nat p) in pure_start p 1%nat; eexists [_], _; pure_end
  | |- entry_ok _ _ (operation_of _ _ None ?p 0 None _) =>
      let p := eval compute in (Z.to_nat p) in pure_start p 0%nat; eexists [], _; pure_end
  end.

Section families.
Context `{C : Crypto} {DB : StateDatabase} {N : NativeCrypto} {E : Environment} {K : EnvironmentOk}.

(** ** Families *)
Lemma makePush_ok D op n flags :
  1 <= n <= 32 -> op <> STOP -> entry_ok D op (operation_of (makePush n n) GasFastestStep None 0 1 None flags).
Proof.
  intros Hn Hop. eapply (pure_op _ _ _ _ 0 1); [done|done|by rewrite orb_true_r|done|]. intros pc xs st mem c e Hl Hx Hc Hp Hpc.
  take_args xs. specialize (Hpc Hop). pose proof (ck_code _ Hc) as Hb. unfold bounded in Hb.
  set (next := int64 (uint64 (pc + 1))).
  assert (Hnext : next = pc + 1) by (unfold next; rewrite uint64_small, int64_small; unfold is_uint64, is_int64; lia).
  set (lo := if next <? Z.of_nat (length (c_Code c)) then next else Z.of_nat (length (c_Code c))).
  set (hi := if lo + n <? Z.of_nat (length (c_Code c)) then lo + n else Z.of_nat (length (c_Code c))).
  assert (Hlo : 0 <= lo <= Z.of_nat (length (c_Code c))) by (unfold lo; case_match; lia).
  assert (Hhi : lo <= hi <= Z.of_nat (length (c_Code c))) by (unfold hi; case_match; lia).
  destruct (slice_of_Some (c_Code c) lo hi) as (d & Ed & _); [lia..|].
  exists [SetBytes (RightPadBytes d n)], (uint64 (pc + n)).
  split; [|by split_and!; [|apply Forall_singleton, SetBytes_nonneg|apply uint64_range]].
  unfold makePush, contract. run. cbn [f_pc f_contract f_stack app]. fold next lo hi. by rewrite Ed.
Qed.

Lemma opPush1_ok D op flags : entry_ok D op (operation_of opPush1 GasFastestStep None 0 1 None flags).
Proof.
  eapply (pure_op _ _ _ _ 0 1); [done|done|by rewrite orb_true_r|done|]. intros pc xs st mem c e Hl Hx Hc Hp Hpc. take_args xs.
  eexists [_], _. split; [pure_run|]. split_and!; [done| |apply uint64_range]. apply Forall_singleton.
  case_match; [|done]. case_match; [|done]. apply Z_of_byte_range.
Qed.

Lemma makeDup_ok D op n zp zq flags :
  (1 <= n)%nat -> zp = Z.of_nat n -> zq = Z.of_nat (S n) ->
  entry_ok D op (operation_of (makeDup n) GasFastestStep None zp zq None flags).
Proof.
  intros Hn Hp Hq. eapply (pure_op _ _ _ _ n (S n)); [done|done|by rewrite orb_true_r|done|].
  intros pc xs st mem c e Hl Hx Hc Hpc _. destruct (lookup_lt_is_Some_2 xs (n - 1)) as [x Ex]; [lia|].
  exists (x :: xs), pc. split; [|by split_and!; [cbn; lia|apply Forall_cons; split; [by eapply Forall_lookup_1 in Hx|]|]].
  unfold makeDup, stack_dup, Back. run. cbn [f_stack]. rewrite lookup_app_l by lia. by rewrite Ex.
Qed.

Lemma makeSwap_ok D op n zp flags :
  (1 <= n)%nat -> zp = Z.of_nat (S n) -> entry_ok D op (operation_of (makeSwap n) GasFastestStep None zp zp None flags).
Proof.
  intros Hn Hp. eapply (pure_op _ _ _ _ (S n) (S n)); [done|done|by rewrite orb_true_r|done|].
  intros pc xs st mem c e Hl Hx Hc Hpc _. destruct (lookup_lt_is_Some_2 xs n) as [x Ex]; [lia|].
  destruct (lookup_lt_is_Some_2 xs 0) as [y Ey]; [lia|].
  exists (<[0%nat := x]> (<[n := y]> xs)), pc.
  split; [|split_and!; [by rewrite !length_insert| |done]; pose proof (Forall_lookup_1 _ _ _ _ Hx Ex); pose proof (Forall_lookup_1 _ _ _ _ Hx Ey);
    by repeat apply Forall_insert].
  unfold makeSwap, stack_swap. replace (n + 1 - 1)%nat with n by lia.
  set (f := MkFrame pc (xs ++ st) mem c e).
  assert (E1 : Back n f = Ok (x, f)) by (apply Back_run; cbn; by rewrite lookup_app_l by lia).
  assert (E2 : Back 0 f = Ok (y, f)) by (apply Back_run; cbn; by rewrite lookup_app_l by lia).
  run. rewrite E1. cbv beta iota. rewrite E2. unfold set_stack. cbn [f f_stack f_pc f_mem f_contract f_evm].
  rewrite insert_app_l by lia. by rewrite insert_app_l by (rewrite length_insert; lia).
Qed.

(** ** Other instructions on the stack *)
Lemma opSignExtend_ok D op flags : entry_ok D op (operation_of opSignExtend GasFastStep None 2 1 None flags).
Proof.
  eapply (pure_op _ _ _ _ 2 1); [done|done|by rewrite orb_true_r|done|]. intros pc xs st mem c e Hl Hx Hc Hp Hpc. take_args xs.
  destruct (z <? 31) eqn:Ez; [eexists [_], _|exists [z0], pc]; (split; [flat; rewrite Ez; reflexivity|]).
  - split_and!; [done|apply Forall_singleton, U256_range|done].
  - split_and!; [done|by apply Forall_singleton|done].
Qed.

Lemma opCallValue_ok D op flags : entry_ok D op (operation_of opCallValue GasQuickStep None 0 1 None flags).
Proof.
  eapply (pure_op _ _ _ _ 0 1); [done|done|by rewrite orb_true_r|done|]. intros pc xs st mem c e Hl Hx Hc Hp Hpc. take_args xs.
  destruct (ck_value _ Hc) as (v & Ev & Hv). exists [v], pc. split; [|split_and!; [done|by apply Forall_singleton|done]].
  flat. by rewrite Ev.
Qed.

Lemma opCallDataLoad_ok D op flags : entry_ok D op (operation_of opCallDataLoad GasFastestStep None 1 1 None flags).
Proof.
  eapply (pure_op _ _ _ _ 1 1); [done|done|by rewrite orb_true_r|done|]. intros pc xs st mem c e Hl Hx Hc Hp Hpc. take_args xs.
  destruct (getDataBig_Some (c_Input c) z 32) as [d Ed]; [apply Hc|done|done|].
  exists [SetBytes d], pc. split; [|split_and!; [done|apply Forall_singleton, SetBytes_nonneg|done]].
  flat. by rewrite Ed.
Qed.
End families.
