(* ===== verification/EvmSafeMem.v ===== *)
(** * Instructions on memory and state

    The entries of the jump table for memory, data, storage, accounts, jumps, logs and the
    ends of runs are in order. *)

From S2P Require Import Prelude Bytes RlpEncode RlpDecode RlpCanonical RlpRaw Types Params EvmData EvmBitmap StateDB StateRevert StateEffect EvmCore EvmGas EvmOps JumpTable Precompiled Evm EvmSafe EvmSafeGas EvmSafeOps.

Section rules.
Context `{C : Crypto} {DB : StateDatabase} {N : NativeCrypto} {E : Environment} {K : EnvironmentOk}.

(** ** Rules for frames *)
Section frames.
Context (pc : Z) (st : list Z) (mem : Memory) (c : Contract) (e : Evm).

Lemma twp_pop (Q : Z -> frame -> Prop) x : Q x (MkFrame pc st mem c e) -> twp pop Q (MkFrame pc (x :: st) mem c e).
Proof. intros H. by eexists _, _. Qed.

Lemma twp_push x (Q : unit -> frame -> Prop) : Q tt (MkFrame pc (x :: st) mem c e) -> twp (push x) Q (MkFrame pc st mem c e).
Proof. intros H. by eexists _, _. Qed.

Lemma twp_peek (Q : Z -> frame -> Prop) x : Q x (MkFrame pc (x :: st) mem c e) -> twp peek Q (MkFrame pc (x :: st) mem c e).
Proof. intros H. by eexists _, _. Qed.

Lemma twp_set_top x y (Q : unit -> frame -> Prop) :
  Q tt (MkFrame pc (y :: st) mem c e) -> twp (set_top y) Q (MkFrame pc (x :: st) mem c e).
Proof. intros H. by eexists _, _. Qed.

Lemma twp_contract (Q : Contract -> frame -> Prop) : Q c (MkFrame pc st mem c e) -> twp contract Q (MkFrame pc st mem c e).
Proof. intros H. by eexists _, _. Qed.

Lemma twp_no_result (Q : option bytes * option vm_error -> frame -> Prop) f : Q (None, None) f -> twp no_result Q f.
Proof. apply twp_ret. Qed.

Lemma twp_fails (Q : option bytes * option vm_error -> frame -> Prop) err f : Q (None, Some err) f -> twp (fails err) Q f.
Proof. apply twp_ret. Qed.

Lemma twp_memory_Get off len (Q : option bytes -> frame -> Prop) :
  0 <= off -> 0 <= len -> covered off len mem -> mem_Len mem <= max_memory ->
  (forall d, bounded (default [] d) -> Q d (MkFrame pc st mem c e)) ->
  twp (memory_Get (big_Int64 off) (big_Int64 len)) Q (MkFrame pc st mem c e).
Proof.
  intros Ho Hl Hc Hm H. destruct (mem_Get_covered off len mem Ho Hl Hc Hm) as (d & Ed & Hd).
  apply twp_bind, twp_gets. cbn [f_mem]. rewrite Ed. by apply twp_deref, H.
Qed.

Lemma twp_memory_Set off len v (Q : unit -> frame -> Prop) :
  0 <= off -> 0 <= len -> covered off len mem -> mem_Len mem <= max_memory ->
  (forall mem', mem_Len mem' = mem_Len mem -> Q tt (MkFrame pc st mem' c e)) ->
  twp (memory_Set (big_Uint64 off) (big_Uint64 len) v) Q (MkFrame pc st mem c e).
Proof.
  intros Ho Hl Hc Hm H. destruct (mem_Set_covered off len v mem Ho Hl Hc Hm) as (mem' & Em & Hlen).
  apply twp_bind, twp_gets, twp_bind. cbn [f_mem]. rewrite Em. by apply twp_deref, twp_modify, H.
Qed.

Lemma twp_db {A} (m : M StateDB A) (P : A -> StateDB -> Prop) (Q : A -> frame -> Prop) :
  twp m P (evm_StateDB e) ->
  (forall a s', P a s' -> Q a (MkFrame pc st mem c (set_StateDB s' e))) -> twp (db m) Q (MkFrame pc st mem c e).
Proof. intros Hm H. eapply twp_mono; [apply db_twp, Hm|]. intros a f' (s' & -> & HP). by apply H. Qed.

(** Looking at the state. *)
Lemma twp_db_looks {A} (m : M StateDB A) P (Q : A -> frame -> Prop) :
  evm_ok e -> (forall ro s, state_ok s -> twp m (looks ro (P s) s) s) ->
  (forall a e', P (evm_StateDB e) a -> evm_steps e e' -> st_equiv (evm_StateDB e') (evm_StateDB e) -> Q a (MkFrame pc st mem c e')) ->
  twp (db m) Q (MkFrame pc st mem c e).
Proof.
  intros He Hm H. eapply twp_db; [apply Hm, He|]. intros a s' (HP & Hs & Hq). apply H; [done|by apply db_evm_steps|done].
Qed.

(** Changing it, outside a static call. *)
Lemma twp_db_steps {A} (m : M StateDB A) (Q : A -> frame -> Prop) :
  evm_ok e -> in_static_call e = false -> (forall s, state_ok s -> twp m (fun _ => steps_even false s) s) ->
  (forall a e', evm_steps e e' -> Q a (MkFrame pc st mem c e')) ->
  twp (db m) Q (MkFrame pc st mem c e).
Proof.
  intros He Hro Hm H. eapply twp_db; [apply Hm, He|]. intros a s' [Hs _]. apply H, db_evm_steps; [done|]. by rewrite Hro.
Qed.
End frames.

(** ** Regions of memory *)
Lemma region_covered i j o l (f : frame) sz :
  f_stack f !! i = Some o -> f_stack f !! j = Some l -> 0 <= o -> 0 <= l ->
  region i j f = Ok ((sz, false), f) -> sz <= mem_Len (f_mem f) -> covered o l (f_mem f).
Proof.
  intros Hi Hj Ho Hl. unfold region. rewrite (bind_run _ _ _ _ _ (Back_run _ _ _ Hi)), (bind_run _ _ _ _ _ (Back_run _ _ _ Hj)).
  intros [= Hr] Hs. by eapply calcMemSize64_covered.
Qed.

Lemma word_covered o w (f : frame) sz :
  f_stack f !! 0%nat = Some o -> 0 <= o -> 0 <= w < 2 ^ 64 ->
  (x ← Back 0; mret (calcMemSize64WithUint x w)) f = Ok ((sz, false), f) -> sz <= mem_Len (f_mem f) -> covered o w (f_mem f).
Proof.
  intros Hi Ho Hw. rewrite (bind_run _ _ _ _ _ (Back_run _ _ _ Hi)). intros [= Hr] Hs. by eapply calcMemSize64WithUint_covered.
Qed.

Lemma larger_region_covered i j i' j' o l o' l' (f : frame) sz :
  f_stack f !! i = Some o -> f_stack f !! j = Some l -> 0 <= o -> 0 <= l ->
  f_stack f !! i' = Some o' -> f_stack f !! j' = Some l' -> 0 <= o' -> 0 <= l' ->
  larger_region i j i' j' f = Ok ((sz, false), f) -> sz <= mem_Len (f_mem f) ->
  covered o l (f_mem f) /\ covered o' l' (f_mem f).
Proof.
  intros Hi Hj Ho Hl Hi' Hj' Ho' Hl'. unfold larger_region.
  rewrite (bind_run _ _ _ _ _ (region_run i j f (lookup_lt_Some _ _ _ Hi) (lookup_lt_Some _ _ _ Hj))).
  rewrite Hi, Hj. cbn [default from_option id]. destruct (calcMemSize64 o l) as [x []] eqn:E1; [done|].
  rewrite (bind_run _ _ _ _ _ (region_run i' j' f (lookup_lt_Some _ _ _ Hi') (lookup_lt_Some _ _ _ Hj'))).
  rewrite Hi', Hj'. cbn [default from_option id]. destruct (calcMemSize64 o' l') as [y []] eqn:E2; [done|].
  intros Hr Hs. assert (x <= sz /\ y <= sz) as [? ?] by (destruct (Z.ltb_spec y x); injection Hr as <-; lia).
  split; [eapply (calcMemSize64_covered o l)|eapply (calcMemSize64_covered o' l')]; [done|done|eassumption|lia|done|done|eassumption|lia].
Qed.

(** ** What is left behind *)
Lemma local_done pc ys st mem c e mem' e' pushes r :
  contract_ok c -> 0 <= pc -> (length ys <= pushes)%nat -> Forall (fun x => 0 <= x) ys -> mem_Len mem' = mem_Len mem ->
  evm_steps e e' -> bounded (default [] r.1) ->
  exists ys0 pc0 mem0 c0 e0, MkFrame pc (ys ++ st) mem' c e' = MkFrame pc0 (ys0 ++ st) mem0 c0 e0 /\
    local_post pushes 0 mem c e r ys0 pc0 mem0 c0 e0.
Proof. intros. exists ys, pc, mem', c, e'. split; [done|]. split; try done; lia. Qed.
End rules.

Ltac size :=
  first [exact I|apply region_size; lia|apply word_size; lia|apply larger_region_size; lia].

Ltac local_start pops pushes least :=
  eapply (local_entry _ _ _ _ _ pops pushes _ _ _ _ nothing least); [reflexivity|reflexivity|done|done|by rewrite ?orb_true_r|size| |];
  [intros pc xs st mem c e f Hl Hx Hf Hpc Hst Hmem _ _; pose proof Hf as [Kev Kc _ _ Km Kpc]; cbn in Kev, Kc, Km, Kpc; subst f; take_args xs; cbn [app] in *|].

Ltac evm_step :=
  lazymatch goal with
  | |- twp (_ ≫= _) _ _ => apply twp_bind
  | |- twp pop _ _ => apply twp_pop
  | |- twp (push _) _ _ => apply twp_push
  | |- twp peek _ _ => apply twp_peek
  | |- twp (set_top _) _ _ => apply twp_set_top
  | |- twp contract _ _ => apply twp_contract
  | |- twp no_result _ _ => apply twp_no_result
  | |- twp (fails _) _ _ => apply twp_fails
  | |- twp (mret _) _ _ => apply twp_ret
  end.

Ltac evm_steps_through := cbv zeta; repeat evm_step.

Ltac local_rest :=
  [> done|done|cbn; lia|repeat (apply Forall_cons; split); try apply Forall_nil; repeat case_match; auto with nonneg|done|
     by first [apply evm_steps_refl|idtac]|done].

(** No result on the stack, or one. *)
Ltac local_end0 := eapply (local_done _ []); local_rest.
Ltac local_end1 := eapply (local_done _ [_]); local_rest.

Section entries.
Context `{C : Crypto} {DB : StateDatabase} {N : NativeCrypto} {E : Environment} {K : EnvironmentOk}.

Lemma opExp_ok D op : entry_ok D op (operation_of opExp 0 (Some gasExp) 2 1 None []).
Proof.
  local_start 2%nat 1%nat 10; [|apply gasExp_ok]. unfold opExp. evm_steps_through. local_end1.
Qed.

(** Memory *)
Lemma opSha3_ok D op : entry_ok D op (operation_of opSha3 0 (Some gasSha3) 2 1 (Some memorySha3) []).
Proof.
  local_start 2%nat 1%nat 30; [|by apply (memory_words_ok 2 1 _ _ (fun _ => Sha3Gas)); [lia|]].
  destruct Hmem as (sz & Hr & Hsz). eapply (region_covered 0 1) in Hr; [|done..].
  unfold opSha3. evm_steps_through. apply twp_memory_Get; [done..|]. intros d Hd. evm_steps_through.
  apply twp_when; intros _; evm_steps_through; [|local_end1].
  eapply twp_db; [apply (AddPreimage_steps (in_static_call e)), Kev|]. intros _ s' [Hs _]. evm_steps_through.
  pose proof (db_evm_steps _ _ Kev Hs). local_end1.
Qed.

Lemma opMload_ok D op : entry_ok D op (operation_of opMload 0 (Some gasMLoad) 1 1 (Some memoryMLoad) []).
Proof.
  local_start 1%nat 1%nat 3; [|by apply (memory_and_ok 1 _ _ 3)].
  destruct Hmem as (sz & Hr & Hsz). eapply (word_covered _ 32) in Hr; [|done..].
  unfold opMload. evm_steps_through. change 32 with (big_Int64 32) at 1. apply twp_memory_Get; [done..|]. intros d Hd.
  evm_steps_through. local_end1.
Qed.

Lemma opMstore_ok D op : entry_ok D op (operation_of opMstore 0 (Some gasMStore) 2 0 (Some memoryMStore) []).
Proof.
  local_start 2%nat 0%nat 3; [|by apply (memory_and_ok 2 _ _ 3)].
  destruct Hmem as (sz & Hr & Hsz). eapply (word_covered _ 32) in Hr; [|done..].
  destruct (mem_Set32_covered z z0 mem) as (mem' & Em & Hlen); [done..|].
  unfold opMstore. evm_steps_through. apply twp_gets. evm_steps_through. cbn [f_mem]. rewrite Em.
  apply twp_deref. evm_steps_through. apply twp_modify, twp_no_result. local_end0.
Qed.

Lemma opMstore8_ok D op : entry_ok D op (operation_of opMstore8 0 (Some gasMStore8) 2 0 (Some memoryMStore8) []).
Proof.
  local_start 2%nat 0%nat 3; [|by apply (memory_and_ok 2 _ _ 3)].
  destruct Hmem as (sz & Hr & Hsz). eapply (word_covered _ 1) in Hr; [|done..]. destruct Hr as [?|Hr]; [done|]. cbn in Hr.
  unfold opMstore8. evm_steps_through. apply twp_gets. unfold max_memory in Km. rewrite (big_Int64_small z) by lia.
  cbn [f_mem]. rewrite (proj2 (Z.leb_le 0 z)), (proj2 (Z.ltb_lt z (mem_Len mem))) by lia. cbn [andb].
  apply twp_bind, twp_modify, twp_no_result. 
  eapply (local_done _ []); [done..|unfold mem_Len; cbn; by rewrite length_insert|by apply evm_steps_refl|done].
Qed.

(** Copying *)
Lemma twp_copy data off len memOff pc st mem c e (Q : option bytes * option vm_error -> frame -> Prop) :
  bounded data -> 0 <= off -> 0 <= len -> 0 <= memOff -> covered memOff len mem -> mem_Len mem <= max_memory ->
  (forall mem', mem_Len mem' = mem_Len mem -> Q (None, None) (MkFrame pc st mem' c e)) ->
  twp (deref (getDataBig data off len))
    (fun d => twp (memory_Set (big_Uint64 memOff) (big_Uint64 len) d;; no_result) Q) (MkFrame pc st mem c e).
Proof.
  intros Hb Ho Hl Hmo Hc Hm H. destruct (getDataBig_Some data off len Hb Ho Hl) as [d ->].
  apply twp_deref, twp_bind, twp_memory_Set; [done..|]. intros mem' Hlen. by apply twp_no_result, H.
Qed.

Lemma opCallDataCopy_ok D op : entry_ok D op (operation_of opCallDataCopy 0 (Some gasCallDataCopy) 3 0 (Some memoryCallDataCopy) []).
Proof.
  local_start 3%nat 0%nat 3; [|by apply (memory_words_ok 3 2 _ _ (fun _ => GasFastestStep)); [lia|]].
  destruct Hmem as (sz & Hr & Hsz). eapply (region_covered 0 2) in Hr; [|done..].
  unfold opCallDataCopy. evm_steps_through. apply twp_copy; [apply Kc|done..|]. intros mem' Hlen. local_end0.
Qed.

Lemma opCodeCopy_ok D op : entry_ok D op (operation_of opCodeCopy 0 (Some gasCodeCopy) 3 0 (Some memoryCodeCopy) []).
Proof.
  local_start 3%nat 0%nat 3; [|by apply (memory_words_ok 3 2 _ _ (fun _ => GasFastestStep)); [lia|]].
  destruct Hmem as (sz & Hr & Hsz). eapply (region_covered 0 2) in Hr; [|done..].
  unfold opCodeCopy. evm_steps_through. apply twp_copy; [apply Kc|done..|]. intros mem' Hlen. local_end0.
Qed.

Lemma opReturnDataCopy_ok D op :
  entry_ok D op (operation_of opReturnDataCopy 0 (Some gasReturnDataCopy) 3 0 (Some memoryReturnDataCopy) []).
Proof.
  local_start 3%nat 0%nat 3; [|by apply (memory_words_ok 3 2 _ _ (fun _ => GasFastestStep)); [lia|]].
  destruct Hmem as (sz & Hr & Hsz). eapply (region_covered 0 2) in Hr; [|done..].
  unfold opReturnDataCopy. evm_steps_through. apply twp_gets. cbn [f_evm].
  destruct (negb _ || _) eqn:Eb; [evm_steps_through; local_end0|].
  apply orb_false_iff in Eb as [Eu Elen%Z.ltb_ge]. apply negb_false_iff, andb_true_iff in Eu as [_ Eu%Z.ltb_lt].
  rewrite (big_Uint64_small (z0 + z1)), (big_Uint64_small z0) in * by lia.
  destruct (slice_of_Some (evm_returnData e) z0 (z0 + z1)) as (d & -> & _); [lia|done|].
  evm_steps_through. apply twp_deref, twp_bind, twp_memory_Set; [done..|]. intros mem' Hlen. evm_steps_through. local_end0.
Qed.

Lemma code_bounded s a : state_ok s -> bounded (default [] (code_of s a)).
Proof.
  intros Hs. unfold code_of. destruct (find_object s a) as [o|] eqn:Eo; [|apply bounded_nil].
  destruct (eff_code (sdb_db s) o) as [code|] eqn:Ec; [|apply bounded_nil]. by eapply (ok_objects _ Hs).
Qed.

Lemma opExtCodeCopy_ok D op :
  entry_ok D op (operation_of opExtCodeCopy 0 (Some gasExtCodeCopy) 4 0 (Some memoryExtCodeCopy) []).
Proof.
  local_start 4%nat 0%nat 20; [|by apply (memory_words_ok 4 3 _ _ gt_ExtcodeCopy); [lia|split; [done|apply gasTable_positive]]].
  destruct Hmem as (sz & Hr & Hsz). eapply (region_covered 1 3) in Hr; [|done..].
  unfold opExtCodeCopy. evm_steps_through. eapply twp_db_looks; [done|intros; by apply GetCode_looks|].
  intros code e' -> Hs _. evm_steps_through. apply twp_copy; [apply code_bounded, Kev|done..|]. intros mem' Hlen. local_end0.
Qed.

(** Accounts *)
Lemma opBalance_ok D op : entry_ok D op (operation_of opBalance 0 (Some gasBalance) 1 1 None []).
Proof.
  local_start 1%nat 1%nat 20; [|apply (fixed_gas_ok 1 _ gt_Balance); split; [done|apply gasTable_positive]].
  unfold opBalance. evm_steps_through. eapply twp_db_looks; [done|intros; by apply GetBalance_looks|].
  intros b e' -> Hs _. pose proof (balance_positive (BigToAddress z) _ (ek_state _ Kev)). evm_steps_through. local_end1.
Qed.

Lemma opExtCodeSize_ok D op : entry_ok D op (operation_of opExtCodeSize 0 (Some gasExtCodeSize) 1 1 None []).
Proof.
  local_start 1%nat 1%nat 20; [|apply (fixed_gas_ok 1 _ gt_ExtcodeSize); split; [done|apply gasTable_positive]].
  unfold opExtCodeSize. evm_steps_through. eapply twp_db_looks; [done|intros; by apply GetCodeSize_looks|].
  intros size e' _ Hs _. evm_steps_through. local_end1.
Qed.

Lemma opExtCodeHash_ok D op :
  IsConstantinople chainConfig ctx_BlockNumber = true ->
  entry_ok D op (operation_of opExtCodeHash 0 (Some gasExtCodeHash) 1 1 None []).
Proof.
  intros Hcon. assert (Hgt : 0 <= 1 <= gt_ExtcodeHash interpreter_gasTable)
    by (unfold interpreter_gasTable, GasTable_of; by rewrite Hcon).
  local_start 1%nat 1%nat 1; [|by apply (fixed_gas_ok 1 _ gt_ExtcodeHash)].
  unfold opExtCodeHash. evm_steps_through. eapply twp_db_looks; [done|intros; by apply Empty_looks|].
  intros [] e1 _ H1 _; [evm_steps_through; local_end1|]. evm_steps_through.
  eapply twp_db_looks; [apply H1|intros; by apply GetCodeHash_looks|]. intros h e2 _ H2 _. evm_steps_through.
  pose proof (evm_steps_trans _ _ _ H1 H2). local_end1.
Qed.

Lemma opSload_ok D op : entry_ok D op (operation_of opSload 0 (Some gasSLoad) 1 1 None []).
Proof.
  local_start 1%nat 1%nat 50; [|apply (fixed_gas_ok 1 _ gt_SLoad); split; [done|apply gasTable_positive]].
  unfold opSload. evm_steps_through. eapply twp_db_looks; [done|intros; by apply GetState_looks|].
  intros v e' _ Hs _. evm_steps_through. local_end1.
Qed.

Lemma not_static {e : Evm} {P : Prop} : (in_static_call e = true -> true = false /\ P) -> in_static_call e = false.
Proof. destruct (in_static_call e); [|done]. intros H. by destruct (H eq_refl). Qed.

Lemma opSstore_ok D op : entry_ok D op (operation_of opSstore 0 (Some gasSStore) 2 0 None [writes]).
Proof.
  local_start 2%nat 0%nat 5000; [|apply gasSStore_ok]. unfold opSstore. evm_steps_through.
  apply twp_db_steps; [done|exact (not_static Hst)|intros; by apply SetState_steps|]. intros _ e' Hs. evm_steps_through. local_end0.
Qed.

Lemma opSuicide_ok D op : entry_ok D op (operation_of opSuicide 0 (Some gasSuicide) 1 0 None [halts; writes]).
Proof.
  local_start 1%nat 0%nat 0; [|apply gasSuicide_ok]. apply (not_static (e := e)) in Hst. unfold opSuicide. evm_steps_through.
  eapply twp_db_looks; [done|intros; by apply GetBalance_looks|]. intros b e1 -> H1 Hq. evm_steps_through.
  rewrite <- (equiv_balance _ _ (c_self c) Hq). eapply twp_db; [apply suicide_steps, H1|]. cbn beta. intros _ t Ht. evm_steps_through.
  eapply twp_db; [exact Ht|]. intros ? s' Hs. cbn beta in Hs. evm_steps_through.
  assert (evm_steps e (set_StateDB s' (set_StateDB t e1))).
  { eapply evm_steps_trans; [exact H1|]. apply (db_evm_steps e1 s'); [apply H1|].
    unfold in_static_call in *. by rewrite (es_readOnly _ _ H1), Hst. }
  local_end0.
Qed.

(** Ends *)
Lemma opReturn_ok D op : entry_ok D op (operation_of opReturn 0 (Some gasReturn) 2 0 (Some memoryReturn) [halts]).
Proof.
  local_start 2%nat 0%nat 0; [|apply gasReturn_ok]. destruct Hmem as (sz & Hr & Hsz). eapply (region_covered 0 1) in Hr; [|done..].
  unfold opReturn. evm_steps_through. apply twp_memory_Get; [done..|]. intros d Hd. evm_steps_through. local_end0.
Qed.

Lemma opRevert_ok D op : entry_ok D op (operation_of opRevert 0 (Some gasRevert) 2 0 (Some memoryRevert) [reverts; returns]).
Proof.
  local_start 2%nat 0%nat 0; [|apply gasReturn_ok]. destruct Hmem as (sz & Hr & Hsz). eapply (region_covered 0 1) in Hr; [|done..].
  unfold opRevert. evm_steps_through. apply twp_memory_Get; [done..|]. intros d Hd. evm_steps_through. local_end0.
Qed.

(** Logs *)
Lemma twp_pop_topics n (Q : list Hash -> frame -> Prop) pc xs st mem c e :
  length xs = n -> (forall ts, Q ts (MkFrame pc st mem c e)) -> twp (pop_topics n) Q (MkFrame pc (xs ++ st) mem c e).
Proof.
  revert xs Q. induction n as [|n IH]; intros xs Q Hl H; take_args xs; [by apply twp_ret|]. cbn [pop_topics app].
  evm_steps_through. apply IH; [done|]. intros ts. apply twp_ret, H.
Qed.

Lemma makeLog_ok D op (n : nat) zp :
  zp = Z.of_nat (2 + n) -> entry_ok D op (operation_of (makeLog n) 0 (Some (makeGasLog (Z.of_nat n))) zp 0 (Some memoryLog) [writes]).
Proof.
  intros ->. local_start (2 + n)%nat 0%nat 375; [|apply makeGasLog_ok; lia].
  change (length xs = S (S n)) in Hl. take_args xs. destruct Hmem as (sz & Hr & Hsz).
  eapply (region_covered 0 1) in Hr; [|done..]. unfold makeLog. cbn [app]. evm_steps_through.
  apply twp_pop_topics; [done|]. intros ts. evm_steps_through. apply twp_memory_Get; [done..|]. intros d Hd. evm_steps_through.
  apply twp_db_steps; [done|exact (not_static Hst)|intros; by apply AddLog_steps|]. intros _ e' Hs. evm_steps_through. local_end0.
Qed.

(** ** Jumps *)
Lemma length_codeBitmap code a : codeBitmap code = Some a -> length a = (length code / 8 + 1 + 4)%nat.
Proof. destruct (codeBitmap_bits code) as (bits & -> & Hl & _). by intros [= <-]. Qed.

Lemma twp_jump_analysis pc st mem c e (Q : bytes -> frame -> Prop) :
  contract_ok c -> evm_ok e -> c_Code c <> [] ->
  (forall a c' e', length a = (length (c_Code c) / 8 + 1 + 4)%nat -> contract_ok c' -> c_Gas c' = c_Gas c -> c_Code c' = c_Code c ->
     evm_steps e e' -> Q a (MkFrame pc st mem c' e')) ->
  twp jump_analysis Q (MkFrame pc st mem c e).
Proof.
  intros Kc Ke Hne H. pose proof (evm_steps_refl e Ke) as Hrefl. destruct (codeBitmap_bits (c_Code c)) as (bits & Eb & Lb & _).
  unfold jump_analysis. evm_steps_through. case_bool_decide as Hz.
  - assert (Hh : keccak256 (c_Code c) = c_CodeHash c) by (destruct (ck_hash _ Kc) as [?|[?|?]]; done).
    apply twp_bind, twp_gets. cbn [f_evm]. destruct (evm_jumpdests e !! c_CodeHash c) as [a|] eqn:Ea.
    + apply twp_ret, H; try done. destruct (ek_analyses _ Ke _ _ Ea) as (code & Hb & Hk & Hc).
      rewrite (length_codeBitmap _ _ Hc), (env_hashes code (c_Code c)); [done|done|apply Kc|congruence].
    + unfold analyse. rewrite Eb. apply twp_bind, twp_deref, twp_bind, twp_modify, twp_ret, H; try done.
      destruct Ke as [Ks Ka Kd Kt]. split; [split; try done|by apply steps_refl|done..]. cbn. intros h a.
      destruct (decide (h = c_CodeHash c)) as [->|Hn]; [rewrite lookup_insert_eq; intros [= <-]; exists (c_Code c); by split; [apply Kc|]|].
      rewrite lookup_insert_ne by done. apply Ka.
  - destruct (c_analysis c) as [a|] eqn:Ea; [apply twp_ret, H; try done; by apply length_codeBitmap, (ck_analysis _ Kc)|].
    unfold analyse. rewrite Eb. apply twp_bind, twp_deref, twp_bind, twp_modify, twp_ret, H; try done.
    destruct Kc. split; try done. cbn. by intros a [= <-].
Qed.

Lemma twp_validJumpdest dest pc st mem c e (Q : bool -> frame -> Prop) :
  contract_ok c -> evm_ok e -> 0 <= dest ->
  (forall b c' e', contract_ok c' -> c_Gas c' = c_Gas c -> c_Code c' = c_Code c -> evm_steps e e' ->
     Q b (MkFrame pc st mem c' e')) ->
  twp (validJumpdest dest) Q (MkFrame pc st mem c e).
Proof.
  intros Kc Ke Hd H. pose proof (evm_steps_refl e Ke) as Hrefl. unfold validJumpdest. evm_steps_through.
  destruct (_ || _) eqn:Eb; [by apply twp_ret, H|]. apply orb_false_iff in Eb as [_ Eb%Z.leb_gt].
  pose proof (big_Uint64_range dest). set (u := big_Uint64 dest) in *.
  destruct (lookup_lt_is_Some_2 (c_Code c) (Z.to_nat u)) as [b ->]; [lia|]. evm_steps_through. apply twp_deref.
  case_match; [by apply twp_ret, H|]. apply twp_bind, twp_jump_analysis; [done|done|intros Hn; rewrite Hn in Eb; cbn in Eb; lia|].
  intros a c' e' Ha Kc' Hg Hc He. rewrite codeSegment_bit; [by apply twp_deref, H|lia|].
  rewrite Ha. assert (Z.to_nat u / 8 <= length (c_Code c) / 8)%nat; [apply Nat.Div0.div_le_mono; lia|lia].
Qed.

Lemma jump_done pc st mem c e c' e' (r : option bytes * option vm_error) :
  contract_ok c' -> c_Gas c' = c_Gas c -> c_Code c' = c_Code c -> evm_steps e e' -> 0 <= pc -> r.1 = None ->
  exists ys0 pc0 mem0 c0 e0, MkFrame pc ([] ++ st) mem c' e' = MkFrame pc0 (ys0 ++ st) mem0 c0 e0 /\
    local_post 0 0 mem c e r ys0 pc0 mem0 c0 e0.
Proof. intros ????? Hr. exists [], pc, mem, c', e'. split; [done|]. split; try done; [lia|by rewrite Hr]. Qed.

Lemma opJump_ok D op : entry_ok D op (operation_of opJump GasMidStep None 1 0 None [jumps]).
Proof.
  local_start 1%nat 0%nat 0; [|done]. unfold opJump. evm_steps_through. apply twp_validJumpdest; [done..|].
  intros [] c' e' Kc' Hg Hc He; cbn [negb]; [|evm_steps_through; by apply jump_done].
  apply twp_bind, twp_modify, twp_no_result. apply jump_done; try done. apply big_Uint64_range.
Qed.

Lemma opJumpi_ok D op : entry_ok D op (operation_of opJumpi GasSlowStep None 2 0 None [jumps]).
Proof.
  local_start 2%nat 0%nat 0; [|done]. unfold opJumpi. evm_steps_through. case_match.
  - apply twp_bind, twp_validJumpdest; [done..|]. intros [] c' e' Kc' Hg Hc He; cbn [negb]; [|evm_steps_through; by apply jump_done].
    apply twp_bind, twp_modify, twp_no_result. apply jump_done; try done. apply big_Uint64_range.
  - apply twp_bind, twp_modify, twp_no_result. apply jump_done; try done; [by apply evm_steps_refl|apply uint64_range].
Qed.
End entries.
