(* ===== verification/EvmSafeCalls.v ===== *)
(** * Instructions that call contracts

    What the calls of a level promise to the instructions of the level above, and the
    entries of the jump table for calls and creations on that promise. *)

From S2P Require Import Prelude Bytes RlpEncode RlpDecode RlpCanonical RlpRaw Types Params EvmData EvmBitmap StateDB StateRevert StateEffect EvmCore EvmGas EvmOps JumpTable Precompiled Evm EvmSafe EvmSafeGas EvmSafeOps EvmSafeMem.

Section promise.
Context `{C : Crypto} {DB : StateDatabase} {N : NativeCrypto} {E : Environment} {K : EnvironmentOk}.

(** ** The promise *)
Record call_post (gas : Z) (e : Evm) (ret : option bytes) (left_over : Z) (e' : Evm) : Prop := {
  cp_steps : evm_steps e e';
  cp_gas : 0 <= left_over <= gas;
  cp_ret : bounded (default [] ret)
}.

Definition caller_ok (r : ContractRef) : Prop :=
  match r with AccountRef _ => True | Contract_ref c => exists v, c_value c = Some v /\ 0 <= v end.

Record call_pre (D : Z) (caller : ContractRef) (input : option bytes) (gas : Z) (e : Evm) : Prop := {
  cq_evm : evm_ok e;
  cq_depth : D <= evm_depth e;
  cq_caller : caller_ok caller;
  cq_input : bounded (default [] input);
  cq_gas : 0 <= gas < max_gas
}.

Definition returns_call (gas : Z) (e : Evm) (r : call_result) (e' : Evm) : Prop := call_post gas e r.1.1 r.1.2 e'.
Definition returns_create (gas : Z) (e : Evm) (r : create_result) (e' : Evm) : Prop := call_post gas e r.1.1.1 r.1.2 e'.

(** Called at a depth of [D] or more. *)
Class CallsOk (D : Z) (calls : Calls) : Prop := {
  co_Call : forall caller addr input gas value e,
    call_pre D caller input gas e -> 0 <= value -> (in_static_call e = true -> value = 0) ->
    twp (call_Call calls caller addr input gas value) (returns_call gas e) e;
  co_CallCode : forall caller addr input gas value e,
    call_pre D caller input gas e -> 0 <= value ->
    twp (call_CallCode calls caller addr input gas value) (returns_call gas e) e;
  co_DelegateCall : forall parent addr input gas e,
    call_pre D (Contract_ref parent) input gas e ->
    twp (call_DelegateCall calls (Contract_ref parent) addr input gas) (returns_call gas e) e;
  co_StaticCall : forall caller addr input gas e,
    call_pre D caller input gas e ->
    twp (call_StaticCall calls caller addr input gas) (returns_call gas e) e;
  co_Create : forall caller code gas value e,
    call_pre D caller code gas e -> 0 <= value -> in_static_call e = false ->
    twp (call_Create calls caller code gas value) (returns_create gas e) e;
  co_Create2 : forall caller code gas value salt e,
    call_pre D caller code gas e -> 0 <= value -> in_static_call e = false ->
    twp (call_Create2 calls caller code gas value salt) (returns_create gas e) e
}.

(** ** After a call *)
Lemma set_c_Gas_ok gas c : 0 <= gas < max_gas -> contract_ok c -> contract_ok (set_c_Gas gas c).
Proof. intros Hg []. by split. Qed.

Lemma twp_on_evm {A} (m : M Evm A) P (Q : A -> frame -> Prop) pc st mem c e :
  twp m P e -> (forall a e', P a e' -> Q a (MkFrame pc st mem c e')) -> twp (on_evm m) Q (MkFrame pc st mem c e).
Proof. intros Hm H. eapply twp_mono; [apply on_evm_twp, Hm|]. intros a f' (e' & -> & Ha). by apply H. Qed.

Lemma twp_return_gas pc st mem c e g (Q : unit -> frame -> Prop) :
  0 <= c_Gas c + g < max_gas -> Q tt (MkFrame pc st mem (set_c_Gas (c_Gas c + g) c) e) ->
  twp (return_gas g) Q (MkFrame pc st mem c e).
Proof.
  intros Hg H. apply twp_modify. cbn [f_contract]. rewrite uint64_small by (unfold is_uint64; lia). exact H.
Qed.

Lemma twp_after_call pc st mem c e (r : call_result) retOff retSize extra (Q : option bytes * option vm_error -> frame -> Prop) :
  contract_ok c -> 0 <= retOff -> 0 <= retSize -> covered retOff retSize mem -> mem_Len mem <= max_memory ->
  0 <= r.1.2 <= extra -> bounded (default [] r.1.1) -> c_Gas c + extra < max_gas ->
  (forall y mem' c', 0 <= y -> mem_Len mem' = mem_Len mem -> contract_ok c' -> c_Gas c' <= c_Gas c + extra -> c_Code c' = c_Code c ->
     Q (r.1.1, None) (MkFrame pc (y :: st) mem' c' e)) ->
  twp (after_call retOff retSize r) Q (MkFrame pc st mem c e).
Proof.
  intros Kc Ho Hs Hc Hm Hr Hb Hg H. destruct r as [[ret g] err]. cbn in Hr, Hb. unfold after_call. pose proof (ck_gas _ Kc) as Hgas.
  apply twp_bind, twp_push, twp_bind. set (y := if bool_decide (err <> None) then 0 else 1). assert (Hy : 0 <= y) by (unfold y; by case_match).
  assert (Hrest : forall mem', mem_Len mem' = mem_Len mem ->
    twp (return_gas g;; mret (ret, None)) Q (MkFrame pc (y :: st) mem' c e)).
  { intros mem' Hl. apply twp_bind, twp_return_gas; [lia|]. apply twp_ret, H; [done|done| |cbn; lia|done].
    apply set_c_Gas_ok; [lia|done]. }
  apply twp_when; intros _; [|by apply Hrest]. by apply twp_memory_Set.
Qed.

Lemma caller_of_contract c : contract_ok c -> caller_ok (Contract_ref c).
Proof. intros H. apply H. Qed.

Lemma call_done pc y st mem c e extra mem' c' e' (r : option bytes * option vm_error) :
  0 <= pc -> 0 <= y -> mem_Len mem' = mem_Len mem -> contract_ok c' -> c_Gas c' <= c_Gas c + extra -> c_Code c' = c_Code c ->
  evm_steps e e' -> bounded (default [] r.1) ->
  exists ys0 pc0 mem0 c0 e0, MkFrame pc ([y] ++ st) mem' c' e' = MkFrame pc0 (ys0 ++ st) mem0 c0 e0 /\
    local_post 1 extra mem c e r ys0 pc0 mem0 c0 e0.
Proof. intros. exists [y], pc, mem', c', e'. split; [done|]. split; try done. by apply Forall_singleton. Qed.

(** A call that returns, and what follows. *)
Lemma twp_call_then pc st mem c e (m : M Evm call_result) gas retOff retSize :
  contract_ok c -> evm_ok e -> 0 <= pc -> 0 <= retOff -> 0 <= retSize -> covered retOff retSize mem -> mem_Len mem <= max_memory ->
  c_Gas c + gas < max_gas -> twp m (returns_call gas e) e ->
  twp (on_evm m) (fun r => twp (after_call retOff retSize r) (fun r f' => exists ys pc' mem' c' e',
      f' = MkFrame pc' (ys ++ st) mem' c' e' /\ local_post 1 gas mem c e r ys pc' mem' c' e')) (MkFrame pc st mem c e).
Proof.
  intros Kc Ke Hpc Ho Hs Hc Hm Hg Hcall. eapply twp_on_evm; [exact Hcall|]. cbn beta. intros r e' [Hst Hgas Hret].
  eapply twp_after_call; [done|done|done|done|done|exact Hgas|done|done|].
  intros y mem' c' Hy Hl Kc' Hgc Hcc. by apply call_done.
Qed.
End promise.

Ltac call_start pops allowance least :=
  eapply (local_entry _ _ _ _ _ pops 1 _ _ _ _ allowance least); [reflexivity|reflexivity|done|done|by rewrite ?orb_true_r|size| |];
  [intros pc xs st mem c e f Hl Hx Hf Hpc Hst Hmem HD Hall; pose proof Hf as [Kev Kc _ _ Km Kpc]; cbn in Kev, Kc, Km, Kpc; subst f;
   take_args xs; cbn [app] in *; pose proof (ck_gas _ Kc) as Hgas; pose proof (ek_temp _ Kev) as Htemp|].

Section entries.
Context `{C : Crypto} {DB : StateDatabase} {N : NativeCrypto} {E : Environment} {K : EnvironmentOk}.
Context (D : Z) (calls : Calls) {P : CallsOk D calls}.

Lemma call_pre_intro c args gas e :
  evm_ok e -> D <= evm_depth e -> contract_ok c -> bounded (default [] args) -> 0 <= gas < max_gas ->
  call_pre D (Contract_ref c) args gas e.
Proof. intros. split; try done. by apply caller_of_contract. Qed.

Lemma with_stipend_allowance v temp st :
  st !! 2%nat = Some v -> 0 <= temp -> allowance_call st temp < max_gas -> with_stipend (U256 v) temp = allowance_call st temp.
Proof.
  intros Hv Ht. unfold with_stipend, allowance_call. rewrite Hv. destruct (U256 v =? 0); cbn [negb]; [lia|].
  change CallStipend with 2300. intros Hlt. by rewrite uint64_small by (unfold is_uint64; lia).
Qed.

Lemma allowance_call_nonneg st temp : 0 <= temp -> 0 <= allowance_call st temp.
Proof. intros. unfold allowance_call. change CallStipend with 2300. repeat case_match; lia. Qed.

Lemma opCall_ok : entry_ok D CALL (operation_of (opCall calls) 0 (Some gasCall) 7 1 (Some memoryCall) [returns]).
Proof.
  call_start 7%nat allowance_call 40; [|by apply gasCall_ok; lia].
  destruct Hmem as (sz & Hr & Hsz). eapply (larger_region_covered 5 6 3 4) in Hr as [Hret Harg]; [|done..].
  pose proof (allowance_call_nonneg (z :: z0 :: z1 :: z2 :: z3 :: z4 :: z5 :: st) _ (proj1 Htemp)) as Hnn.
  unfold opCall. evm_steps_through. apply twp_gets. evm_steps_through. apply twp_memory_Get; [done..|]. intros d Hd. evm_steps_through.
  cbn [f_evm]. rewrite (with_stipend_allowance z1 _ (z :: z0 :: z1 :: z2 :: z3 :: z4 :: z5 :: st)) by (done || lia).
  apply twp_call_then; try done. apply co_Call; [apply call_pre_intro; try done; lia|apply U256_range|].
  intros Hro. destruct (Hst Hro) as [_ Hz]. specialize (Hz eq_refl). cbn in Hz. by injection Hz as ->.
Qed.

Lemma opCallCode_ok op : entry_ok D op (operation_of (opCallCode calls) 0 (Some gasCallCode) 7 1 (Some memoryCall) [returns]).
Proof.
  call_start 7%nat allowance_call 40; [|by apply gasCallCode_ok; lia].
  destruct Hmem as (sz & Hr & Hsz). eapply (larger_region_covered 5 6 3 4) in Hr as [Hret Harg]; [|done..].
  pose proof (allowance_call_nonneg (z :: z0 :: z1 :: z2 :: z3 :: z4 :: z5 :: st) _ (proj1 Htemp)) as Hnn.
  unfold opCallCode. evm_steps_through. apply twp_gets. evm_steps_through. apply twp_memory_Get; [done..|]. intros d Hd. evm_steps_through.
  cbn [f_evm]. rewrite (with_stipend_allowance z1 _ (z :: z0 :: z1 :: z2 :: z3 :: z4 :: z5 :: st)) by (done || lia).
  apply twp_call_then; try done. apply co_CallCode; [apply call_pre_intro; try done; lia|apply U256_range].
Qed.

Lemma opDelegateCall_ok op :
  entry_ok D op (operation_of (opDelegateCall calls) 0 (Some gasDelegateCall) 6 1 (Some memoryDelegateCall) [returns]).
Proof.
  call_start 6%nat allowance_plain 40; [|by apply gasDelegateCall_ok; lia]. unfold allowance_plain in Hall |- *.
  destruct Hmem as (sz & Hr & Hsz). eapply (larger_region_covered 4 5 2 3) in Hr as [Hret Harg]; [|done..].
  unfold opDelegateCall. evm_steps_through. apply twp_gets. evm_steps_through. apply twp_memory_Get; [done..|]. intros d Hd. evm_steps_through.
  apply twp_call_then; try done. apply co_DelegateCall, call_pre_intro; try done; cbn; lia.
Qed.

Lemma opStaticCall_ok op :
  entry_ok D op (operation_of (opStaticCall calls) 0 (Some gasStaticCall) 6 1 (Some memoryStaticCall) [returns]).
Proof.
  call_start 6%nat allowance_plain 40; [|by apply gasDelegateCall_ok; lia]. unfold allowance_plain in Hall |- *.
  destruct Hmem as (sz & Hr & Hsz). eapply (larger_region_covered 4 5 2 3) in Hr as [Hret Harg]; [|done..].
  unfold opStaticCall. evm_steps_through. apply twp_gets. evm_steps_through. apply twp_memory_Get; [done..|]. intros d Hd. evm_steps_through.
  apply twp_call_then; try done. apply co_StaticCall, call_pre_intro; try done; cbn; lia.
Qed.

(** ** Creations *)
Lemma twp_UseGas pc st mem c e gas (Q : bool -> frame -> Prop) :
  gas <= c_Gas c -> Q true (MkFrame pc st mem (set_c_Gas (c_Gas c - gas) c) e) -> twp (UseGas gas) Q (MkFrame pc st mem c e).
Proof.
  intros Hg H. unfold UseGas. evm_steps_through. unfold contract_UseGas. rewrite (proj2 (Z.ltb_ge _ _)) by done.
  by apply twp_bind, twp_modify, twp_ret.
Qed.

Lemma most_gas gas : 0 <= gas < max_gas -> 0 <= uint64 (gas - gas / 64) <= gas.
Proof.
  intros Hg. assert (0 <= gas / 64 <= gas) by (split; [apply Z.div_pos; lia|apply Z.div_le_upper_bound; lia]).
  rewrite uint64_small by (unfold is_uint64; lia). lia.
Qed.

(** The gas for a creation is taken, and what is left over of it given back. *)
Lemma twp_create_then pc st mem c e gas (m : Contract -> M Evm create_result) (result : option vm_error -> Address -> Z) :
  contract_ok c -> evm_ok e -> 0 <= pc -> 0 <= gas <= c_Gas c -> (forall err a, 0 <= result err a) ->
  (forall c', contract_ok c' -> twp (m c') (returns_create gas e) e) ->
  twp (UseGas gas) (fun _ => twp (c ← contract; '(res, addr, returnGas, suberr) ← on_evm (m c);
      push (result suberr addr);;
      return_gas returnGas;;
      if bool_decide (suberr = Some errExecutionReverted) then mret (res, None) else no_result)
    (fun r f' => exists ys pc' mem' c' e', f' = MkFrame pc' (ys ++ st) mem' c' e' /\ local_post 1 0 mem c e r ys pc' mem' c' e'))
    (MkFrame pc st mem c e).
Proof.
  intros Kc Ke Hpc Hg Hres Hm. pose proof (ck_gas _ Kc) as Hgas. apply twp_UseGas; [lia|].
  assert (Kc' : contract_ok (set_c_Gas (c_Gas c - gas) c)) by (apply set_c_Gas_ok; [lia|done]).
  evm_steps_through. eapply twp_on_evm; [by apply Hm|]. intros [[[res addr] g] err] e' [Hst Hgl Hret]. cbn in Hgl, Hret.
  evm_steps_through. apply twp_return_gas; [cbn; lia|].
  assert (Hdone : forall r : option bytes * option vm_error, bounded (default [] r.1) -> exists ys pc' mem' c' e'0,
    MkFrame pc (result err addr :: st) mem (set_c_Gas (c_Gas c - gas + g) (set_c_Gas (c_Gas c - gas) c)) e' =
      MkFrame pc' (ys ++ st) mem' c' e'0 /\ local_post 1 0 mem c e r ys pc' mem' c' e'0).
  { intros r Hr. apply call_done; try done; [|cbn; lia]. apply set_c_Gas_ok; [lia|done]. }
  case_bool_decide; evm_steps_through; apply Hdone; [done|apply bounded_nil].
Qed.

Lemma opCreate_ok op : entry_ok D op (operation_of (opCreate calls) 0 (Some gasCreate) 3 1 (Some memoryCreate) [writes; returns]).
Proof.
  call_start 3%nat nothing 32000; [|by apply (memory_and_ok 3 _ _ 32000)].
  destruct Hmem as (sz & Hr & Hsz). eapply (region_covered 1 2) in Hr; [|done..]. pose proof (not_static Hst) as Hro.
  unfold opCreate. evm_steps_through. apply twp_memory_Get; [done..|]. intros d Hd. evm_steps_through.
  set (gas := if IsEIP150 _ _ then _ else _). assert (Hg : 0 <= gas <= c_Gas c) by (unfold gas; case_match; [by apply most_gas|lia]).
  apply (twp_create_then _ _ _ _ _ gas (fun c => call_Create calls (Contract_ref c) d gas z) (fun suberr addr =>
    if IsHomestead chainConfig ctx_BlockNumber && bool_decide (suberr = Some ErrCodeStoreOutOfGas) then 0
    else if bool_decide (suberr <> None) && bool_decide (suberr <> Some ErrCodeStoreOutOfGas) then 0
    else SetBytes (bytes_of addr))); try done.
  - intros err a. repeat case_match; auto with nonneg.
  - intros c' Kc'. apply co_Create; [apply call_pre_intro; try done; lia|done|done].
Qed.

Lemma opCreate2_ok op : entry_ok D op (operation_of (opCreate2 calls) 0 (Some gasCreate2) 4 1 (Some memoryCreate2) [writes; returns]).
Proof.
  call_start 4%nat nothing 32000; [|by apply (memory_words_ok 4 2 _ _ (fun _ => Create2Gas)); [lia|]].
  destruct Hmem as (sz & Hr & Hsz). eapply (region_covered 1 2) in Hr; [|done..]. pose proof (not_static Hst) as Hro.
  unfold opCreate2. evm_steps_through. apply twp_memory_Get; [done..|]. intros d Hd. evm_steps_through.
  set (gas := uint64 _). pose proof (most_gas _ Hgas) as Hg. fold gas in Hg.
  apply (twp_create_then _ _ _ _ _ gas (fun c => call_Create2 calls (Contract_ref c) d gas z z2) (fun suberr addr =>
    if bool_decide (suberr <> None) then 0 else SetBytes (bytes_of addr))); try done.
  - intros err a. repeat case_match; auto with nonneg.
  - intros c' Kc'. apply co_Create2; [apply call_pre_intro; try done; lia|done|done].
Qed.

End entries.

(** ** The tables *)
Create HintDb entries discriminated.
#[export] Hint Resolve opPush1_ok opSignExtend_ok opCallValue_ok opCallDataLoad_ok opExp_ok opSha3_ok opMload_ok opMstore_ok
  opMstore8_ok opCallDataCopy_ok opCodeCopy_ok opReturnDataCopy_ok opExtCodeCopy_ok opBalance_ok opExtCodeSize_ok opSload_ok
  opSstore_ok opSuicide_ok opReturn_ok opRevert_ok opJump_ok opJumpi_ok opCall_ok opCallCode_ok opDelegateCall_ok opStaticCall_ok
  opCreate_ok opCreate2_ok : entries.
#[export] Hint Extern 1 (entry_ok _ _ (operation_of (makePush _ _) _ _ _ _ _ _)) => apply makePush_ok; [lia|done] : entries.
#[export] Hint Extern 1 (entry_ok _ _ (operation_of (makeDup _) _ _ _ _ _ _)) => apply makeDup_ok; [lia|done|done] : entries.
#[export] Hint Extern 1 (entry_ok _ _ (operation_of (makeSwap _) _ _ _ _ _ _)) => apply makeSwap_ok; [lia|done] : entries.
#[export] Hint Extern 1 (entry_ok _ _ (operation_of (makeLog ?n) _ _ _ _ _ _)) => by apply (makeLog_ok _ _ n) : entries.

Ltac entry := first [solve [eauto 2 with entries nocore]|pure].

Section tables.
Context `{C : Crypto} {DB : StateDatabase} {N : NativeCrypto} {E : Environment} {K : EnvironmentOk}.
Context (D : Z) (calls : Calls) {P : CallsOk D calls}.

Lemma frontier_ok : table_ok D (newFrontierInstructionSet calls).
Proof. unfold newFrontierInstructionSet. repeat (apply table_cons; [entry|]). apply table_nil. Qed.

Lemma homestead_ok : table_ok D (newHomesteadInstructionSet calls).
Proof. apply table_cons; [entry|apply frontier_ok]. Qed.

Lemma byzantium_ok : table_ok D (newByzantiumInstructionSet calls).
Proof. do 4 (apply table_cons; [entry|]). apply homestead_ok. Qed.

Lemma constantinople_ok :
  IsConstantinople chainConfig ctx_BlockNumber = true -> table_ok D (newConstantinopleInstructionSet calls).
Proof.
  intros Hcon. do 3 (apply table_cons; [entry|]). apply table_cons; [by apply opExtCodeHash_ok|].
  apply table_cons; [entry|apply byzantium_ok].
Qed.

Lemma jump_table_ok : table_ok D (jump_table calls).
Proof.
  unfold jump_table. repeat case_match; [by apply constantinople_ok|apply byzantium_ok|apply homestead_ok|apply frontier_ok].
Qed.
End tables.
