(* ===== verification/EvmSafePre.v ===== *)
(** * Precompiled contracts are safe

    With the gas a contract may have, the precompiled contracts return, whatever their
    input: the lengths in the input of [bigModExp] are paid for, and do not overflow. *)

From Stdlib Require Import Zpow_facts.
From S2P Require Import Prelude Bytes RlpEncode RlpDecode RlpCanonical RlpRaw Types Params EvmData EvmBitmap StateDB StateRevert StateEffect EvmCore EvmGas EvmOps JumpTable Precompiled Evm EvmSafe.

Lemma length_RightPadBytes s l : Z.of_nat (length (RightPadBytes s l)) = Z.max (Z.of_nat (length s)) l.
Proof.
  unfold RightPadBytes. destruct (Z.leb_spec l (Z.of_nat (length s))); [lia|]. rewrite length_app, length_replicate. lia.
Qed.

Lemma length_LeftPadBytes s l : Z.of_nat (length (LeftPadBytes s l)) = Z.max (Z.of_nat (length s)) l.
Proof.
  unfold LeftPadBytes. destruct (Z.leb_spec l (Z.of_nat (length s))); [lia|]. rewrite length_app, length_replicate. lia.
Qed.

(** [getData] returns when the end does not overflow. *)
Lemma getData_Some data start size :
  bounded data -> 0 <= start -> 0 <= size -> Z.min start (Z.of_nat (length data)) + size < 2 ^ 64 ->
  exists d, getData data start size = Some d /\ (size < 2 ^ 63 -> Z.of_nat (length d) = size).
Proof.
  unfold bounded, getData. intros Hb Hs Hz Hlt. cbv zeta. set (n := Z.of_nat (length data)) in *.
  set (s := if n <? start then n else start). assert (Es : s = Z.min start n) by (unfold s; destruct (Z.ltb_spec n start); lia).
  rewrite uint64_small by (unfold is_uint64; lia). set (e := if n <? s + size then n else s + size).
  assert (He : s <= e <= n /\ e <= s + size) by (unfold e; destruct (Z.ltb_spec n (s + size)); lia).
  destruct (slice_of_Some data s e) as (d & -> & Hd); [lia..|]. eexists. split; [reflexivity|]. intros H63.
  rewrite length_RightPadBytes, int64_small by (unfold is_int64; lia). lia.
Qed.

(** ** The cost of [bigModExp] *)
Definition modexp_gas (x : Z) : Z :=
  if x <=? 64 then x * x else if x <=? 1024 then x * x / 4 + (96 * x - 3072) else x * x / 16 + (480 * x - 199680).

Lemma modexp_gas_least x : 1 <= x -> 1 <= modexp_gas x /\ (2 ^ 36 <= x -> 2 ^ 67 <= modexp_gas x).
Proof.
  intros Hx. unfold modexp_gas. destruct (Z.leb_spec x 64); [split; [nia|lia]|].
  destruct (Z.leb_spec x 1024); [split; [|lia]|split; [|intros Hb]].
  - assert (0 <= x * x / 4) by (apply Z.div_pos; nia). lia.
  - assert (0 <= x * x / 16) by (apply Z.div_pos; nia). lia.
  - assert (2 ^ 67 <= x * x / 16) by (apply Z.div_le_lower_bound; nia). lia.
Qed.

Lemma BigMax_max x y : BigMax x y = Z.max x y.
Proof. unfold BigMax. destruct (Z.ltb_spec x y); lia. Qed.

Lemma modexp_bounds x adj gas :
  1 <= x -> 0 <= adj -> gas < max_gas ->
  (let cost := modexp_gas x * BigMax adj 1 / 20 in if 64 <? big_BitLen cost then MaxUint64 else big_Uint64 cost) <= gas ->
  x < 2 ^ 36 /\ adj < 20 * max_gas.
Proof.
  intros Hx Ha Hg. cbv zeta. rewrite BigMax_max. destruct (modexp_gas_least x Hx) as [H1 H2].
  set (cost := modexp_gas x * Z.max adj 1 / 20). assert (Hc0 : 0 <= cost) by (apply Z.div_pos; nia).
  assert (Hm : modexp_gas x * Z.max adj 1 < 20 * (cost + 1)).
  { pose proof (Z.mul_succ_div_gt (modexp_gas x * Z.max adj 1) 20 ltac:(lia)). fold cost in H. lia. }
  destruct (Z.ltb_spec 64 (big_BitLen cost)) as [Hb|Hb]; [unfold MaxUint64; lia|]. intros Hle.
  assert (Hc : cost < 2 ^ 64).
  { unfold big_BitLen in Hb. destruct (Z.eqb_spec cost 0); [lia|]. rewrite Z.abs_eq in Hb by done. apply Z.log2_lt_pow2; lia. }
  rewrite big_Uint64_small in Hle by lia. split; [|nia].
  destruct (Z.lt_ge_cases x (2 ^ 36)) as [|Hge]; [done|]. specialize (H2 Hge). nia.
Qed.

Section precompiled.
Context `{C : Crypto} {N : NativeCrypto}.

Lemma modexp_lengths_Some input :
  bounded input -> exists b e m, modexp_lengths input = Some (b, e, m) /\ 0 <= b /\ 0 <= e /\ 0 <= m.
Proof.
  intros Hb. unfold bounded in Hb. unfold modexp_lengths.
  destruct (getData_Some input 0 32) as (d1 & -> & _); [done|lia..|].
  destruct (getData_Some input 32 32) as (d2 & -> & _); [done|lia..|].
  destruct (getData_Some input 64 32) as (d3 & -> & _); [done|lia..|].
  eexists _, _, _. split; [reflexivity|]. split_and!; apply SetBytes_nonneg.
Qed.

Lemma modexp_rest_bounded input : bounded input -> bounded (modexp_rest input).
Proof. unfold bounded, modexp_rest. intros Hb. case_match; [rewrite length_drop; lia|done]. Qed.

Lemma big_BitLen_nonneg x : 0 <= big_BitLen x.
Proof. unfold big_BitLen. pose proof (Z.log2_nonneg (Z.abs x)). case_match; lia. Qed.

(** What is charged for the three lengths. *)
Lemma bigModExp_gas_Some input b e m :
  bounded input -> modexp_lengths input = Some (b, e, m) -> 0 <= b -> 0 <= e -> 0 <= m ->
  exists adj gas, bigModExp_RequiredGas input = Some gas /\ 0 <= gas /\
    (32 < e -> 8 * (e - 32) <= adj) /\ 0 <= adj /\
    gas = (let cost := modexp_gas (Z.max m b) * BigMax adj 1 / 20 in if 64 <? big_BitLen cost then MaxUint64 else big_Uint64 cost).
Proof.
  intros Hb El H1 H2 H3. unfold bigModExp_RequiredGas. rewrite El. cbn [mbind option_bind].
  set (rest := modexp_rest input). pose proof (modexp_rest_bounded input Hb) as Hr. fold rest in Hr. unfold bounded in Hr.
  pose proof (big_Uint64_range b) as Hub.
  assert (Hhead : exists h, (if Z.of_nat (length rest) <=? b then Some 0
     else if 32 <? e then d ← getData rest (big_Uint64 b) 32; Some (SetBytes d)
     else d ← getData rest (big_Uint64 b) (big_Uint64 e); Some (SetBytes d)) = Some h).
  { case_match; [by eexists|]. destruct (Z.ltb_spec 32 e).
    - destruct (getData_Some rest (big_Uint64 b) 32) as (d & -> & _); [done|lia..|]. by eexists.
    - rewrite (big_Uint64_small e) by lia. destruct (getData_Some rest (big_Uint64 b) e) as (d & -> & _); [done|lia..|]. by eexists. }
  destruct Hhead as [h ->]. cbn [mbind option_bind]. cbv zeta.
  pose proof (big_BitLen_nonneg h). set (msb := if 0 <? big_BitLen h then _ else _).
  assert (0 <= msb) by (unfold msb; destruct (Z.ltb_spec 0 (big_BitLen h)); lia).
  rewrite (BigMax_max m b). fold (modexp_gas (Z.max m b)). change ModExpQuadCoeffDiv with 20.
  exists ((if 32 <? e then 8 * (e - 32) else 0) + msb). eexists. split; [reflexivity|].
  split_and!; [case_match; [done|apply big_Uint64_range]| | |done]; destruct (Z.ltb_spec 32 e); lia.
Qed.

Lemma bigModExp_ok input :
  bounded input -> exists gas, bigModExp_RequiredGas input = Some gas /\ 0 <= gas /\
    (gas < max_gas -> exists r, bigModExp_Run input = Some r /\ bounded (default [] r.1)).
Proof.
  intros Hb. destruct (modexp_lengths_Some input Hb) as (b & e & m & El & H1 & H2 & H3).
  destruct (bigModExp_gas_Some input b e m Hb El H1 H2 H3) as (adj & gas & Eg & Hg & Hadj & Ha0 & Egas).
  exists gas. split_and!; [done|done|]. intros Hlt. unfold bigModExp_Run. rewrite El. cbn [mbind option_bind].
  destruct (_ && _) eqn:Ez; [eexists; by split|]. cbv zeta.
  assert (Hx : 1 <= Z.max m b).
  { destruct (Z.eq_dec (Z.max m b) 0); [|lia]. assert (m = 0) as -> by lia. assert (b = 0) as -> by lia. done. }
  destruct (modexp_bounds (Z.max m b) adj gas) as [Hmb Hadj2]; [done..|by rewrite Egas|].
  assert (He : e < 2 ^ 64 - 2 ^ 40) by (destruct (Z.lt_ge_cases 32 e); [specialize (Hadj ltac:(done)); lia|lia]).
  rewrite !big_Uint64_small by lia. set (rest := modexp_rest input). pose proof (modexp_rest_bounded input Hb) as Hr. fold rest in Hr.
  destruct (getData_Some rest 0 b) as (d1 & -> & _); [done|lia..|].
  destruct (getData_Some rest b e) as (d2 & -> & _); [done|lia..|].
  rewrite uint64_small by (unfold is_uint64; lia).
  destruct (getData_Some rest (b + e) m) as (d3 & -> & Hl3); [done|lia..|unfold bounded in Hr; lia|]. cbn [mbind option_bind].
  rewrite int64_small by (unfold is_int64; lia).
  destruct (big_BitLen (SetBytes d3) =? 0) eqn:Em; eexists; (split; [reflexivity|]); unfold bounded; cbn [default from_option fst id];
    rewrite length_LeftPadBytes; [cbn; lia|].
  assert (Hn : SetBytes d3 <> 0) by (intros H0; by rewrite H0 in Em).
  pose proof (SetBytes_bound d3) as [Hd3 Hd3']. rewrite Zpow_mod_correct by done.
  pose proof (Z.mod_pos_bound (SetBytes d1 ^ SetBytes d2) (SetBytes d3) ltac:(lia)) as Hmod.
  pose proof (BigBytes_length_bound ((SetBytes d1 ^ SetBytes d2) mod SetBytes d3) (length d3) ltac:(lia)). lia.
Qed.

(** ** All of them *)
Lemma ecrecover_ok input : exists r, ecrecover_Run input = Some r /\ bounded (default [] r.1).
Proof.
  unfold ecrecover_Run. pose proof (length_RightPadBytes input 128) as Hl. cbv zeta. set (i := RightPadBytes input 128) in *.
  destruct (slice_of_Some i 64 96) as (d1 & -> & _); [lia..|]. destruct (slice_of_Some i 96 128) as (d2 & -> & _); [lia..|].
  destruct (lookup_lt_is_Some_2 i 63) as [v ->]; [lia|]. destruct (slice_of_Some i 32 63) as (d3 & -> & _); [lia..|].
  cbn [mbind option_bind]. case_match; [by eexists|].
  destruct (slice_of_Some i 0 32) as (d4 & -> & _); [lia..|]. destruct (slice_of_Some i 64 128) as (d5 & -> & _); [lia..|].
  cbn [mbind option_bind]. case_match; eexists; (split; [reflexivity|]); [|done].
  unfold bounded. cbn [default from_option fst id]. rewrite length_LeftPadBytes, length_drop, bytes_of_length. done.
Qed.

Lemma getData_64 data start size : bounded data -> 0 <= start -> 0 <= size <= 64 -> exists d, getData data start size = Some d.
Proof. intros Hb Hs Hz. unfold bounded in Hb. destruct (getData_Some data start size) as (d & -> & _); [done|lia..|]. by exists d. Qed.

Lemma bn256Add_ok input : bounded input -> exists r, bn256Add_Run input = Some r /\ bounded (default [] r.1).
Proof.
  intros Hb. unfold bn256Add_Run. destruct (getData_64 input 0 64) as [d1 ->]; [done|lia..|]. cbn [mbind option_bind].
  case_match; [by eexists|]. destruct (getData_64 input 64 64) as [d2 ->]; [done|lia..|]. cbn [mbind option_bind].
  case_match; eexists; (split; [reflexivity|done || unfold bounded; cbn; by rewrite bytes_of_length]).
Qed.

Lemma bn256ScalarMul_ok input : bounded input -> exists r, bn256ScalarMul_Run input = Some r /\ bounded (default [] r.1).
Proof.
  intros Hb. unfold bn256ScalarMul_Run. destruct (getData_64 input 0 64) as [d1 ->]; [done|lia..|]. cbn [mbind option_bind].
  case_match; [by eexists|]. destruct (getData_64 input 64 32) as [d2 ->]; [done|lia..|]. cbn [mbind option_bind].
  eexists; (split; [reflexivity|]). unfold bounded. cbn. by rewrite bytes_of_length.
Qed.

Lemma bn256Pairing_ok input : exists r, bn256Pairing_Run input = Some r /\ bounded (default [] r.1).
Proof. unfold bn256Pairing_Run. repeat case_match; eexists; (split; [reflexivity|done]). Qed.

Lemma precompile_ok p input :
  bounded (default [] input) -> exists gas, RequiredGas p (default [] input) = Some gas /\ 0 <= gas /\
    (gas < max_gas -> exists r, precompile_Run p input = Some r /\ bounded (default [] r.1)).
Proof.
  intros Hb. destruct p; cbn [RequiredGas precompile_Run]; [..|by apply bigModExp_ok| | |];
    (eexists; split; [reflexivity|]; split; [done || apply uint64_range|]; intros _).
  - apply ecrecover_ok.
  - eexists. split; [reflexivity|]. unfold bounded. cbn. by rewrite bytes_of_length.
  - eexists. split; [reflexivity|]. unfold bounded. cbn. rewrite length_LeftPadBytes, bytes_of_length. done.
  - by eexists.
  - by apply bn256Add_ok.
  - by apply bn256ScalarMul_ok.
  - apply bn256Pairing_ok.
Qed.

Lemma RunPrecompiledContract_ok p input c :
  bounded (default [] input) -> 0 <= c_Gas c < max_gas ->
  exists r c', RunPrecompiledContract p input c = Some (r, c') /\ 0 <= c_Gas c' <= c_Gas c /\ bounded (default [] r.1).
Proof.
  intros Hb Hg. destruct (precompile_ok p input Hb) as (gas & Eg & Hg0 & Hr). unfold RunPrecompiledContract, contract_UseGas. rewrite Eg.
  cbn [mbind option_bind]. destruct (Z.ltb_spec (c_Gas c) gas); [eexists _, _; split; [reflexivity|]; split; [lia|done]|].
  destruct (Hr ltac:(lia)) as (r & -> & Hb'). eexists _, _. split; [reflexivity|]. split; [cbn; lia|done].
Qed.
End precompiled.
