(* ===== verification/EvmSafeRun.v ===== *)
(** * Runs are safe

    A round of the interpreter returns, and uses gas unless it ends the run; so a run
    returns within as many rounds as there is gas. *)

From S2P Require Import Prelude Bytes RlpEncode RlpDecode RlpCanonical RlpRaw Types Params EvmData EvmBitmap StateDB StateRevert StateEffect EvmCore EvmGas EvmOps JumpTable Precompiled Evm EvmSafe EvmSafeGas EvmSafeOps EvmSafeMem EvmSafeCalls EvmSafePre.

Section run.
Context `{C : Crypto} {DB : StateDatabase} {N : NativeCrypto} {E : Environment} {K : EnvironmentOk}.
Context (D : Z) (calls : Calls) {P : CallsOk D calls}.

(** ** From frame to frame *)
Record frame_steps (f f' : frame) : Prop := {
  fs_ok : frame_ok f';
  fs_evm : evm_steps (f_evm f) (f_evm f');
  fs_gas : c_Gas (f_contract f') <= c_Gas (f_contract f);
  fs_code : c_Code (f_contract f') = c_Code (f_contract f)
}.

Lemma frame_steps_refl f : frame_ok f -> frame_steps f f.
Proof. intros H. split; try done. apply evm_steps_refl, H. Qed.

Lemma frame_steps_trans f1 f2 f3 : frame_steps f1 f2 -> frame_steps f2 f3 -> frame_steps f1 f3.
Proof. intros [] []. split; [done|by eapply evm_steps_trans|lia|congruence]. Qed.

Definition pay (cost : Z) (f : frame) : frame := set_contract (set_c_Gas (c_Gas (f_contract f) - cost) (f_contract f)) f.

Lemma pay_steps cost f : frame_ok f -> 0 <= cost <= c_Gas (f_contract f) -> frame_steps f (pay cost f).
Proof.
  intros [Ke Kc Ks Kh Km Kp] Hc. pose proof (ck_gas _ Kc). split; cbn; [|by apply evm_steps_refl|lia|done].
  split; cbn; try done. apply set_c_Gas_ok; [lia|done].
Qed.

Lemma twp_UseGas_or cost (Q : bool -> frame -> Prop) f :
  frame_ok f -> 0 <= cost -> (c_Gas (f_contract f) < cost -> Q false f) ->
  (cost <= c_Gas (f_contract f) -> Q true (pay cost f)) -> twp (UseGas cost) Q f.
Proof.
  intros Hf Hc Hno Hyes. unfold UseGas. destruct f as [pc st mem c e]. evm_steps_through. unfold contract_UseGas.
  destruct (Z.ltb_spec (c_Gas c) cost); apply twp_bind, twp_modify, twp_ret; [by apply Hno|by apply Hyes].
Qed.

Lemma gas_post_frame f f' : frame_ok f -> gas_post f f' -> frame_steps f f'.
Proof.
  intros [Ke Kc Ks Kh Km Kp] [Hpc Hst Hc Hm He]. split; [|done|by rewrite Hc|by rewrite Hc].
  split; [apply He|by rewrite Hc|by rewrite Hst|by rewrite Hst|unfold mem_Len in *; by rewrite Hm|by rewrite Hpc].
Qed.

(** ** The checks before an operation *)
Definition unprotected (op : Z) (o : operation) (f : frame) : Prop :=
  in_static_call (f_evm f) = true -> o_writes o = false /\ (op = CALL -> f_stack f !! 2%nat = Some 0).

Lemma twp_write_protected op o (Q : bool -> frame -> Prop) f :
  (op = CALL -> (2 < length (f_stack f))%nat) -> Q true f -> (unprotected op o f -> Q false f) -> twp (write_protected op o) Q f.
Proof.
  intros Hl Ht Hf. unfold write_protected. apply twp_bind, twp_gets. change (_ && _) with (in_static_call (f_evm f)).
  unfold unprotected in Hf. destruct (in_static_call (f_evm f)); [|by apply twp_ret, Hf].
  destruct (o_writes o); [by apply twp_ret|]. destruct (Z.eqb_spec op CALL) as [->|Hne]; [|apply twp_ret, Hf; done].
  destruct (lookup_lt_is_Some_2 _ _ (Hl eq_refl)) as [v Hv]. apply twp_bind. exists v, f. split; [by apply Back_run|].
  apply twp_ret. destruct (Z.eqb_spec v 0) as [->|]; [by apply Hf|done].
Qed.

Lemma call_minStack o : lookup_operation CALL (jump_table calls) = Some o -> o_minStack o = 7.
Proof. unfold jump_table. repeat case_match; cbn; by intros [= <-]. Qed.

(** The memory that is needed, rounded up. *)
Definition sizes (o : operation) (ms : Z) (st : list Z) : Prop :=
  0 <= ms /\ match o_memorySize o with
             | None => ms = 0
             | Some f => exists sz, sz <= ms /\ forall fr, f_stack fr = st -> f fr = Ok ((sz, false), fr)
             end.

Lemma words_cover sz : 0 <= sz < 2 ^ 64 -> (SafeMul (toWordSize sz) 32).2 = false -> sz <= (SafeMul (toWordSize sz) 32).1.
Proof.
  unfold toWordSize, SafeMul. intros Hsz. destruct (Z.ltb_spec (MaxUint64 - 31) sz) as [Hb|Hb]; [intros Hv; by vm_compute in Hv|].
  change MaxUint64 with (2 ^ 64 - 1) in Hb.
  destruct (Z.eqb_spec ((sz + 31) / 32) 0) as [H0|]; cbn [orb fst snd].
  - intros _. destruct (Z.eq_dec sz 0); [lia|]. assert (1 <= (sz + 31) / 32) by (apply Z.div_le_lower_bound; lia). lia.
  - cbn [Z.eqb orb fst snd]. intros _. pose proof (Z.mul_div_le (sz + 31) 32 ltac:(lia)).
    pose proof (Z.mul_succ_div_gt (sz + 31) 32 ltac:(lia)). rewrite uint64_small by (unfold is_uint64; lia). lia.
Qed.

Lemma twp_required_memory o pops (Q : vm_error + Z -> frame -> Prop) f :
  (pops <= length (f_stack f))%nat -> match o_memorySize o with Some ms => size_ok pops ms | None => True end ->
  (forall e, Q (inl e) f) -> (forall ms, sizes o ms (f_stack f) -> Q (inr ms) f) -> twp (required_memory o) Q f.
Proof.
  intros Hn Hms Herr H. unfold required_memory, sizes in *. destruct (o_memorySize o) as [g|]; [|by apply twp_ret, H].
  destruct Hms as [size Hsize]. destruct (Hsize f Hn) as [Eg Hr].
  unfold costs_bind, lift_cost. apply twp_bind, twp_bind. exists (size (f_stack f)), f. split; [done|]. apply twp_ret.
  destruct (size (f_stack f)) as [sz []] eqn:Es; [by apply twp_ret|]. unfold checked.
  destruct (SafeMul _ 32).2 eqn:Eo; [by apply twp_ret|]. apply twp_ret, H. cbn in Hr. pose proof (words_cover sz Hr Eo).
  split; [lia|]. exists sz. split; [done|]. intros fr Hst. destruct (Hsize fr) as [Efr _]; [by rewrite Hst|].
  by rewrite Efr, Hst, Es.
Qed.

(** ** An operation *)
Record round_post (o : operation) (extra : Z) (f : frame) (r : option run_result) (f' : frame) : Prop := {
  rp_ok : frame_ok f';
  rp_evm : evm_steps (f_evm f) (f_evm f');
  rp_gas : c_Gas (f_contract f') <= c_Gas (f_contract f) + extra;
  rp_code : c_Code (f_contract f') = c_Code (f_contract f);
  rp_result : match r with None => ends o = false | Some (ret, _) => bounded (default [] ret) end
}.

Lemma set_returnData_steps e e' d : evm_steps e e' -> evm_steps e (set_returnData d e').
Proof. intros [[Ks Ka Kd Kt] He Hd Hr]. by split. Qed.

Lemma frame_ok_evm f e' : frame_ok f -> evm_ok e' -> frame_ok (set_evm e' f).
Proof. intros [] He. by split. Qed.

Lemma frame_ok_pc f pc : frame_ok f -> 0 <= pc -> frame_ok (set_pc pc f).
Proof. intros [] Hp. by split. Qed.

Lemma twp_execute_operation op o pops pushes allowance least f (extra := allowance (f_stack f) (evm_callGasTemp (f_evm f))) :
  op_ok D op o pops pushes allowance least -> exec_pre pops pushes op o f -> D <= evm_depth (f_evm f) ->
  c_Gas (f_contract f) + extra < max_gas -> twp (execute_operation o) (round_post o extra f) f.
Proof.
  intros Ho Hpre HD Hg. unfold execute_operation. apply twp_bind. eapply twp_mono; [by apply (oo_execute _ _ _ _ _ _ _ Ho)|].
  intros [res err] f1 [Kf He Hgas Hcode Hres]. cbn in Hres. apply twp_bind.
  set (f2 := if o_returns o then set_evm (set_returnData (default [] res) (f_evm f1)) f1 else f1).
  assert (H2 : frame_ok f2 /\ evm_steps (f_evm f) (f_evm f2) /\ f_contract f2 = f_contract f1).
  { unfold f2. destruct (o_returns o); [|done]. pose proof (set_returnData_steps _ _ (default [] res) He) as He2.
    split; [apply frame_ok_evm; [done|apply He2]|done]. }
  destruct H2 as (K2 & E2 & C2). exists tt, f2. split; [unfold f2; by destruct (o_returns o)|].
  assert (Hstop : forall ret e, bounded (default [] ret) -> round_post o extra f (Some (ret, e)) f2)
    by (intros; by split; rewrite ?C2).
  destruct err as [e|]; [apply twp_ret, Hstop, bounded_nil|].
  assert (Hgo : o_reverts o = false -> o_halts o = false -> forall pc, 0 <= pc -> round_post o extra f None (set_pc pc f2)).
  { intros Hr Hh pc Hp. split; cbn; rewrite ?C2; try done; [by apply frame_ok_pc|]. unfold ends. by rewrite Hr, Hh. }
  destruct (o_reverts o); [by apply twp_ret, Hstop|]. destruct (o_halts o); [by apply twp_ret, Hstop|].
  destruct (o_jumps o); cbn [negb].
  - apply twp_ret. destruct f2 as [pc2 st2 mem2 c2 e2]. apply (Hgo eq_refl eq_refl pc2), (fk_pc _ K2).
  - apply twp_bind, twp_modify, twp_ret, Hgo; [done..|apply uint64_range].
Qed.

(** Paying the dynamic part of the cost. *)
Lemma twp_pay_dynamic op o pops pushes allowance least ms (Q : bool -> frame -> Prop) f :
  op_ok D op o pops pushes allowance least -> frame_ok f -> (pops <= length (f_stack f))%nat -> sizes o ms (f_stack f) ->
  (in_static_call (f_evm f) = true -> o_writes o = false) ->
  (forall f', frame_steps f f' -> Q false f') ->
  (forall f', frame_steps f f' -> f_stack f' = f_stack f -> f_pc f' = f_pc f -> mem_Len (f_mem f') = mem_Len (f_mem f) -> ms <= max_memory ->
     c_Gas (f_contract f') + allowance (f_stack f') (evm_callGasTemp (f_evm f')) + least <= c_Gas (f_contract f) ->
     Q true f') ->
  twp (pay_dynamic o ms) Q f.
Proof.
  intros Ho Hf Hn [Hms Hsz] Hst Hno Hyes. pose proof (oo_gas _ _ _ _ _ _ _ Ho) as Hgas. unfold pay_dynamic.
  destruct (o_dynamicGas o) as [g|].
  - apply twp_bind. eapply twp_mono; [apply (Hgas f ms Hf Hn Hms)|].
    + intros Hb. apply bool_decide_eq_false, dec_stable in Hb. by rewrite Hb in Hsz.
    + done.
    + intros [e|cost] f1; [intros Hp; by apply twp_ret, Hno, gas_post_frame|]. intros (Hp & Hc & Hmx & Hall).
      pose proof (gas_post_frame _ _ Hf Hp) as H1. pose proof (fs_ok _ _ H1) as K1.
      apply twp_UseGas_or; [done|done|by intros _; apply Hno|]. intros Hle.
      assert (H2 : frame_steps f (pay cost f1)) by (eapply frame_steps_trans; [exact H1|by apply pay_steps]).
      destruct Hp as [Ppc Pst Pc Pm _]. apply Hyes; cbn; [done|done|done|unfold mem_Len; by rewrite Pm|done|].
      pose proof (fs_gas _ _ H1). lia.
  - destruct Hgas as (Hnone & -> & Hz). rewrite Hnone in Hsz. apply twp_ret, Hyes; try done; [by apply frame_steps_refl|unfold max_memory; lia|].
    rewrite Hz. lia.
Qed.

(** ** A round *)
Lemma mem_Resize_len ms m : 0 <= ms -> mem_Len (mem_Resize ms m) = Z.max ms (mem_Len m).
Proof.
  intros H. unfold mem_Resize. destruct (Z.ltb_spec (mem_Len m) ms) as [Hl|Hl]; [|lia]. unfold mem_Len in *. cbn.
  rewrite length_app, length_replicate. lia.
Qed.

Lemma resize_steps ms f : frame_ok f -> 0 <= ms <= max_memory -> frame_steps f (set_mem (mem_Resize ms (f_mem f)) f).
Proof.
  intros [Ke Kc Ks Kh Km Kp] Hms. split; cbn; [|by apply evm_steps_refl|done|done]. split; cbn; try done.
  rewrite mem_Resize_len; lia.
Qed.

Record step_post (f : frame) (r : option run_result) (f' : frame) : Prop := {
  sp_steps : frame_steps f f';
  sp_result : match r with
              | None => c_Gas (f_contract f') < c_Gas (f_contract f)
              | Some (ret, _) => bounded (default [] ret)
              end
}.

Lemma twp_stop f f' e : frame_steps f f' -> twp (stop None (Some e)) (step_post f) f'.
Proof. intros H. apply twp_ret. by split. Qed.

Lemma GetOp_pc f : frame_ok f -> GetOp (f_pc f) (f_contract f) <> STOP -> f_pc f < Z.of_nat (length (c_Code (f_contract f))).
Proof. intros Hf. unfold GetOp, GetByte. by destruct (Z.ltb_spec (f_pc f) (Z.of_nat (length (c_Code (f_contract f))))). Qed.

(** From the frame [f0] of the round, once the constant cost is paid and the memory known. *)
Lemma twp_paid op o pops pushes allowance least ms f0 f :
  op_ok D op o pops pushes allowance least -> frame_steps f0 f -> D <= evm_depth (f_evm f) ->
  f_stack f = f_stack f0 -> (pops <= length (f_stack f))%nat ->
  Z.of_nat (length (f_stack f)) + Z.of_nat pushes - Z.of_nat pops <= StackLimit ->
  (op <> STOP -> f_pc f < Z.of_nat (length (c_Code (f_contract f)))) -> sizes o ms (f_stack f) -> unprotected op o f ->
  c_Gas (f_contract f) + o_constantGas o = c_Gas (f_contract f0) ->
  twp (paid ← pay_dynamic o ms;
       if negb paid then stop None (Some ErrOutOfGas)
       else when (0 <? ms) (modify (fun f => set_mem (mem_Resize ms (f_mem f)) f));; execute_operation o) (step_post f0) f.
Proof.
  intros Ho H0 HD Hst Hlow Hhigh Hpc Hsz Hun Hconst. pose proof (fs_ok _ _ H0) as Kf.
  apply twp_bind, (twp_pay_dynamic op o pops pushes allowance least); [done|done|done|done|intros Hro; by apply Hun| |].
  { intros f' Hf'. apply twp_stop. by eapply frame_steps_trans. }
  intros f1 H1 Hst1 Hpc1 Hml1 Hmax Hgas. cbn [negb].
  set (f2 := if 0 <? ms then set_mem (mem_Resize ms (f_mem f1)) f1 else f1). apply twp_bind. exists tt, f2.
  split; [unfold f2, when; by case_match|]. destruct Hsz as [Hms Hsz].
  assert (H2 : frame_steps f1 f2 /\ f_stack f2 = f_stack f1 /\ f_pc f2 = f_pc f1 /\ f_contract f2 = f_contract f1 /\
               f_evm f2 = f_evm f1 /\ ms <= mem_Len (f_mem f2)).
  { unfold f2. destruct (Z.ltb_spec 0 ms); split_and!; try done; [apply resize_steps; [apply H1|lia]|cbn; rewrite mem_Resize_len; lia| |].
    - apply frame_steps_refl, H1.
    - unfold mem_Len. lia. }
  destruct H2 as (H2 & Est & Epc & Ec & Ee & Hlen).
  assert (Hpre : exec_pre pops pushes op o f2).
  { split; rewrite ?Est, ?Epc, ?Ec, ?Ee, ?Hst1, ?Hpc1, ?(fs_code _ _ H1); try done; [apply H2| |].
    - unfold unprotected, in_static_call in *. by rewrite (es_readOnly _ _ (fs_evm _ _ H1)).
    - destruct (o_memorySize o); [|done]. destruct Hsz as (sz & Hle & Hfr). exists sz. split; [apply Hfr; congruence|lia]. }
  pose proof (ck_gas _ (fk_contract _ Kf)) as Hg. pose proof (oo_least_nonneg _ _ _ _ _ _ _ Ho) as Hl0.
  rewrite <- Est, <- Ee, <- Ec in Hgas.
  eapply twp_mono; [eapply twp_execute_operation; [exact Ho|exact Hpre| |lia]|].
  { by rewrite Ee, (es_depth _ _ (fs_evm _ _ H1)). }
  intros r f3 [K3 E3 G3 C3 R3]. assert (H03 : frame_steps f0 f2) by (eapply frame_steps_trans; [exact H0|by eapply frame_steps_trans]).
  pose proof (oo_constant _ _ _ _ _ _ _ Ho) as Hc0. split.
  - split; [done|by eapply evm_steps_trans; [apply H03|]|lia|rewrite C3; apply H03].
  - destruct r as [[ret err]|]; [done|]. destruct (oo_least _ _ _ _ _ _ _ Ho) as [He|He]; [congruence|lia].
Qed.

Lemma twp_interpret_step f : frame_ok f -> D <= evm_depth (f_evm f) -> twp (interpret_step calls) (step_post f) f.
Proof.
  intros Kf HD. unfold interpret_step. apply twp_bind, twp_get. set (op := GetOp (f_pc f) (f_contract f)).
  destruct (lookup_operation op (jump_table calls)) as [o|] eqn:Eo; [|by apply twp_stop, frame_steps_refl].
  pose proof (frame_steps_refl f Kf) as Hrefl.
  destruct (jump_table_ok D calls op o Eo) as (pops & pushes & allowance & least & Ho).
  rewrite (oo_min _ _ _ _ _ _ _ Ho), (oo_max _ _ _ _ _ _ _ Ho). cbv zeta.
  destruct (Z.ltb_spec (Z.of_nat (length (f_stack f))) (Z.of_nat pops)) as [|Hlow]; [by apply twp_stop|].
  destruct (Z.ltb_spec (StackLimit + Z.of_nat pops - Z.of_nat pushes) (Z.of_nat (length (f_stack f)))) as [|Hhigh]; [by apply twp_stop|].
  apply twp_bind, twp_write_protected; [|by apply twp_stop|].
  { intros Hop. rewrite Hop in Eo. apply call_minStack in Eo. rewrite (oo_min _ _ _ _ _ _ _ Ho) in Eo. lia. }
  intros Hun. apply twp_bind, twp_UseGas_or; [done|apply Ho|by intros _; apply twp_stop|]. intros Hle. cbn [negb].
  pose proof (pay_steps (o_constantGas o) f Kf (conj (oo_constant _ _ _ _ _ _ _ Ho) Hle)) as H1.
  apply twp_bind, (twp_required_memory o pops); [cbn; lia|apply Ho|by intros e; apply twp_stop|]. intros ms Hms.
  eapply twp_paid; try done; cbn; [lia|lia|by apply GetOp_pc|lia].
Qed.

(** ** Runs *)
Record run_post (f : frame) (r : run_result) (f' : frame) : Prop := {
  ru_steps : frame_steps f f';
  ru_result : bounded (default [] r.1)
}.

Lemma twp_interpret n f :
  frame_ok f -> D <= evm_depth (f_evm f) -> c_Gas (f_contract f) < Z.of_nat n -> twp (interpret calls n) (run_post f) f.
Proof.
  revert f. induction n as [|n IH]; intros f Kf HD Hg; [pose proof (ck_gas _ (fk_contract _ Kf)); lia|].
  cbn [interpret]. apply twp_bind. eapply twp_mono; [by apply twp_interpret_step|].
  intros [[ret err]|] f1 [H1 Hr]; [apply twp_ret; by split|].
  eapply twp_mono; [apply IH; [apply H1|by rewrite (es_depth _ _ (fs_evm _ _ H1))|lia]|].
  intros r f2 [H2 Hb]. split; [by eapply frame_steps_trans|done].
Qed.
End run.
