(* ===== verification/EvmSafeLevel.v ===== *)
(** * Calls are safe

    The calls of a level keep the promise the instructions rely on, if those of the level
    below do: they return, give back no more gas than they were given, restore the state
    when they fail, and change nothing when they are static. As a call below the depth
    limit runs no contract, the levels of [calls_at] are enough. The theorems at the end are
    on calls from outside: transactions and queries start a call or a creation on a machine
    in order, and whatever the code they run, it returns. *)

From S2P Require Import Prelude Bytes RlpEncode RlpDecode RlpCanonical RlpRaw Types Params EvmData EvmBitmap StateDB StateRevert StateEffect EvmCore EvmGas EvmOps JumpTable Precompiled Evm EvmSafe EvmSafeGas EvmSafeOps EvmSafeMem EvmSafeCalls EvmSafePre EvmSafeRun.


Section level.
Context `{C : Crypto} {DB : StateDatabase} {N : NativeCrypto} {E : Environment} {K : EnvironmentOk}.

Abbreviation sdb := evm_StateDB.

Lemma effect_weaken ro ro' s s' : (ro' = true -> ro = true) -> effect ro s s' -> effect ro' s s'.
Proof. intros H []. split; auto. Qed.

(** ** Runs on the machine *)
Record ran (ro : bool) (c : Contract) (e : Evm) (r : run_result * Contract) (e' : Evm) : Prop := {
  ra_steps : evm_steps e e';
  ra_effect : effect ro (sdb e) (sdb e');
  ra_gas : 0 <= c_Gas r.2 <= c_Gas c;
  ra_result : bounded (default [] r.1.1)
}.

Section calls.
Context (D : Z) (calls : Calls) {P : CallsOk D calls}.

Lemma twp_run_frame c e :
  contract_ok c -> evm_ok e -> D <= evm_depth e -> twp (run_frame calls c) (ran (in_static_call e) c e) e.
Proof.
  intros Kc Ke HD. pose proof (ck_gas _ Kc) as Hg. set (f := MkFrame 0 [] NewMemory c e).
  assert (Kf : frame_ok f) by (split; cbn; try done; apply Forall_nil).
  destruct (twp_interpret D calls (S (Z.to_nat (c_Gas c))) f Kf HD) as (r & f' & Er & [[K' He Hgas _] Hb]); [cbn; lia|].
  exists (r, f_contract f'), (f_evm f'). unfold run_frame. fold f. rewrite Er. split; [done|].
  pose proof (ck_gas _ (fk_contract _ K')). split; [done|apply He|cbn in *; lia|done].
Qed.

Definition static_in (readOnly : bool) (e : Evm) : bool :=
  in_static_call e || readOnly && r_IsByzantium (Rules_of chainConfig ctx_BlockNumber).

Lemma twp_Run c input readOnly e :
  contract_ok c -> bounded (default [] input) -> evm_ok e -> D <= evm_depth e + 1 ->
  twp (Run calls c input readOnly) (ran (static_in readOnly e) c e) e.
Proof.
  intros Kc Hi Ke HD. unfold Run. apply twp_bind, twp_modify, twp_bind, twp_gets. cbn [evm_readOnly set_depth].
  set (was := evm_readOnly e). set (setRO := readOnly && negb was).
  set (e1 := MkEvm (sdb e) (evm_depth e + 1) (evm_callGasTemp e) (was || readOnly) [] (evm_jumpdests e)).
  apply twp_bind. exists tt, (set_depth (evm_depth e + 1) (if setRO then set_readOnly true e else e)).
  split; [by destruct setRO|]. apply twp_bind, twp_modify, twp_bind.
  match goal with |- twp _ _ ?x => replace x with e1 by (unfold e1, setRO, was, set_readOnly, set_depth, set_returnData;
    destruct readOnly, (evm_readOnly e) eqn:Ew; cbn; by rewrite ?Ew) end.
  assert (K1 : evm_ok e1) by (destruct Ke; split; try done; cbn; lia).
  assert (Hro : in_static_call e1 = static_in readOnly e).
  { unfold in_static_call, static_in, in_static_call, e1. cbn. fold was. by destruct was, readOnly, (IsByzantium _ _). }
  apply twp_mono with (ran (in_static_call e1) c e1).
  { case_match; [apply twp_ret; split; cbn; [by apply evm_steps_refl|by apply steps_refl, K1|pose proof (ck_gas _ Kc); lia|done]|].
    assert (Kc' : contract_ok (set_c_Input (default [] input) c)) by (destruct Kc; by split).
    eapply twp_mono; [by apply twp_run_frame|]. intros r e2 []. by split. }
  intros [r c'] e2 [[K2 He Hd Hr] Hef Hg Hb]. cbn in Hd, Hr, Hg, Hb.
  apply twp_bind. exists tt, (if setRO then set_readOnly false e2 else e2). split; [by destruct setRO|].
  apply twp_bind, twp_modify, twp_ret. split; [|by destruct setRO; rewrite <- Hro|done|done].
  pose proof (ek_depth _ Ke). destruct K2. split; cbn; [by destruct setRO; split; cbn; try done; lia| |by destruct setRO; cbn; lia|].
  - eapply effect_weaken; [|by destruct setRO; exact Hef]. rewrite Hro. unfold static_in. by intros ->.
  - unfold setRO, was in *. destruct readOnly, (evm_readOnly e); cbn in *; by rewrite ?Hr.
Qed.

Lemma twp_run_contract c input readOnly e :
  contract_ok c -> bounded (default [] input) -> evm_ok e -> D <= evm_depth e + 1 ->
  twp (run_contract calls c input readOnly) (ran (static_in readOnly e) c e) e.
Proof.
  intros Kc Hi Ke HD. unfold run_contract. case_match; [|by apply twp_Run].
  match goal with |- context [RunPrecompiledContract ?p _ _] =>
    destruct (RunPrecompiledContract_ok p input c Hi (ck_gas _ Kc)) as (r & c' & -> & Hg & Hb) end.
  apply twp_deref. split; [by apply evm_steps_refl|by apply steps_refl, Ke|done|done].
Qed.
End calls.

(** ** Within a call

    A snapshot was taken on the machine [e]; [ro] says that nothing may change. *)
Record in_call (ro : bool) (e : Evm) (id : Z) (e2 : Evm) : Prop := {
  ic_ok : evm_ok e;
  ic_ro : in_static_call e = true -> ro = true;
  ic_snapshot : exists s1, Snapshot (sdb e) = Ok (id, s1) /\ evm_steps (set_StateDB s1 e) e2 /\ effect ro s1 (sdb e2)
}.

Lemma in_call_next ro e id e2 e3 :
  in_call ro e id e2 -> evm_steps e2 e3 -> effect ro (sdb e2) (sdb e3) -> in_call ro e id e3.
Proof.
  intros [Ke Hro (s1 & Es & H1 & F1)] H2 F2. split; [done|done|]. exists s1. split; [done|].
  split; [by eapply evm_steps_trans|by eapply effect_trans].
Qed.

Lemma in_call_evm ro e id e2 : in_call ro e id e2 -> evm_ok e2 /\ evm_depth e2 = evm_depth e /\ evm_readOnly e2 = evm_readOnly e.
Proof. intros [_ _ (s1 & _ & H & _)]. split; [apply H|]. by split; [apply (es_depth _ _ H)|apply (es_readOnly _ _ H)]. Qed.

Lemma in_call_db ro e id e2 s' : in_call ro e id e2 -> steps ro (sdb e2) s' -> in_call ro e id (set_StateDB s' e2).
Proof.
  intros H [Ks Hs]. pose proof (in_call_evm _ _ _ _ H) as (K2 & Hd & Hr). eapply in_call_next; [exact H| |exact Hs].
  apply db_evm_steps; [done|]. split; [done|]. eapply effect_weaken; [|exact Hs]. unfold in_static_call. rewrite Hr. apply H.
Qed.

(** All that has happened since the call began. *)
Lemma in_call_all ro e id e2 : in_call ro e id e2 -> evm_steps e e2 /\ effect ro (sdb e) (sdb e2).
Proof.
  intros [Ke Hro (s1 & Es & H1 & F1)].
  destruct (Snapshot_steps ro _ (ek_state _ Ke)) as (id' & s1' & Es' & _ & Hs & _). rewrite Es in Es'. injection Es' as <- <-.
  split; [|by eapply effect_trans; [apply Hs|]]. eapply evm_steps_trans; [apply db_evm_steps; [done|]|exact H1].
  split; [apply Hs|]. eapply effect_weaken; [|apply Hs]. done.
Qed.

Lemma twp_on_db {A} (m : M StateDB A) P (Q : A -> Evm -> Prop) e :
  twp m P (sdb e) -> (forall a s', P a s' -> Q a (set_StateDB s' e)) -> twp (on_db m) Q e.
Proof. intros Hm H. eapply twp_mono; [apply on_db_twp, Hm|]. intros a e' (s' & -> & Ha). by apply H. Qed.

Lemma twp_Snapshot ro e (Q : Z -> Evm -> Prop) :
  evm_ok e -> (in_static_call e = true -> ro = true) ->
  (forall id e2, in_call ro e id e2 -> st_equiv (sdb e2) (sdb e) -> Q id e2) -> twp (on_db Snapshot) Q e.
Proof.
  intros Ke Hro H. eapply twp_on_db; [apply (Snapshot_steps ro), Ke|]. cbn beta. intros id s1 (Es & Hs & Hq).
  assert (K1 : evm_ok (set_StateDB s1 e)) by (destruct Ke, Hs; by split).
  apply H; [|done]. split; [done|done|]. exists s1. split; [done|]. split; [by apply evm_steps_refl|]. by apply steps_refl, K1.
Qed.

(** ** The end of a call *)
Record call_full (ro : bool) (gas : Z) (e : Evm) (r : call_result) (e' : Evm) : Prop := {
  cf_post : call_post gas e r.1.1 r.1.2 e';
  cf_failed : r.2 <> None -> st_equiv (sdb e') (sdb e);
  cf_effect : effect ro (sdb e) (sdb e')
}.

Lemma call_full_after ro gas e1 e2 r e3 :
  evm_steps e1 e2 -> effect ro (sdb e1) (sdb e2) -> st_equiv (sdb e2) (sdb e1) -> call_full ro gas e2 r e3 -> call_full ro gas e1 r e3.
Proof.
  intros H1 F1 Q1 [[Hs Hg Hb] Hf Hef]. split; [split; [by eapply evm_steps_trans|done|done]| |by eapply effect_trans].
  intros Hr. etransitivity; [by apply Hf|done].
Qed.

(** Nothing was run. *)
Lemma call_full_nothing ro gas e err : evm_ok e -> 0 <= gas -> call_full ro gas e (None, gas, err) e.
Proof.
  intros Ke Hg. split; [split; cbn; [by apply evm_steps_refl|lia|done]|done|by apply steps_refl, Ke].
Qed.

Lemma twp_finish_call ro e id c e2 r e3 :
  in_call ro e id e2 -> ran ro c e2 r e3 -> twp (finish_call id r) (call_full ro (c_Gas c) e) e3.
Proof.
  intros Hin [Hst Hef Hg Hb]. pose proof (in_call_next _ _ _ _ _ Hin Hst Hef) as H3. destruct r as [[ret err] c']. cbn in Hg, Hb.
  pose proof (in_call_all _ _ _ _ H3) as [A1 A2]. unfold finish_call. destruct err as [err|]; [|apply twp_ret; by split].
  destruct H3 as [Ke Hro (s1 & Es & H1 & F1)]. apply twp_bind. eapply twp_on_db.
  { eapply (Revert_steps ro); [apply Ke|exact Es|]. split; [apply H1|exact F1]. }
  cbn beta. intros _ s4 [[K4 F4] R4]. apply twp_ret.
  assert (H4 : evm_steps e (set_StateDB s4 e3)).
  { destruct A1 as [[? ? ? ?] _ Hd Hr]. split; [by split|by eapply effect_weaken|done|done]. }
  split; [split; [done| |done]|intros _; apply R4|done]. cbn. unfold contract_UseGas.
  rewrite Z.ltb_irrefl. case_bool_decide; cbn; lia.
Qed.

(** ** The contract that is run *)
Lemma in_call_jumpdests ro e id e2 m : in_call ro e id e2 -> analyses_ok m -> in_call ro e id (set_jumpdests m e2).
Proof.
  intros H Hm. pose proof (in_call_evm _ _ _ _ H) as ([Ks Ka Kd Kt] & _). eapply in_call_next; [exact H| |by apply steps_refl].
  split; [by split|by apply steps_refl|done..].
Qed.

Definition new_contract (caller : ContractRef) (object : Address) (value : option Z) (gas : Z) : Contract :=
  MkContract (ref_Address caller) object None [] zeroHash None [] gas value.

Lemma twp_NewContract ro e id e2 caller object value gas (Q : Contract -> Evm -> Prop) :
  in_call ro e id e2 -> (forall e3, in_call ro e id e3 -> sdb e3 = sdb e2 -> Q (new_contract caller object value gas) e3) ->
  twp (NewContract caller object value gas) Q e2.
Proof.
  intros Hin H. unfold NewContract. apply twp_bind. destruct caller as [a|c].
  - apply twp_modify, twp_ret, H; [|done]. apply in_call_jumpdests; [done|]. intros h a'. by rewrite lookup_empty.
  - by apply twp_ret, twp_ret, H.
Qed.

Lemma twp_looks ro e id e2 {A} (m : M StateDB A) P (Q : A -> Evm -> Prop) :
  in_call ro e id e2 -> (forall ro s, state_ok s -> twp m (looks ro (P s) s) s) ->
  (forall a e3, P (sdb e2) a -> in_call ro e id e3 -> st_equiv (sdb e3) (sdb e2) -> Q a e3) -> twp (on_db m) Q e2.
Proof.
  intros Hin Hm H. pose proof (in_call_evm _ _ _ _ Hin) as (K2 & _). eapply twp_on_db; [apply (Hm ro), K2|].
  intros a s' (HP & Hs & Hq). apply H; [done|by apply in_call_db|done].
Qed.

Lemma code_hash_ok s a : state_ok s -> default [] (code_of s a) = [] \/ keccak256 (default [] (code_of s a)) = code_hash_of s a.
Proof.
  intros Hs. unfold code_of, code_hash_of. destruct (find_object s a) as [o|] eqn:Eo; [|by left].
  destruct (eff_code (sdb_db s) o) as [code|] eqn:Ec; [|by left]. right. by apply (ok_code _ _ (ok_objects _ Hs _ _ Eo)).
Qed.

Lemma twp_with_code_of ro e id e2 addr c v (Q : Contract -> Evm -> Prop) :
  in_call ro e id e2 -> 0 <= c_Gas c < max_gas -> c_Input c = [] -> c_value c = Some v -> 0 <= v -> c_analysis c = None ->
  (forall c' e3, contract_ok c' -> c_Gas c' = c_Gas c -> in_call ro e id e3 -> st_equiv (sdb e3) (sdb e2) -> Q c' e3) ->
  twp (with_code_of addr c) Q e2.
Proof.
  intros Hin Hg Hi Hv Hv0 Ha H. unfold with_code_of. apply twp_bind.
  eapply twp_looks; [exact Hin|intros; by apply GetCodeHash_looks|]. intros h e3 -> H3 Q3. apply twp_bind.
  eapply twp_looks; [exact H3|intros; by apply GetCode_looks|]. intros code e4 -> H4 Q4. apply twp_ret, H; [|done|done|by transitivity (sdb e3)].
  pose proof (in_call_evm _ _ _ _ Hin) as ([Ks _ _ _] & _). rewrite (equiv_code _ _ _ Q3).
  split; cbn; [done|by apply code_bounded|by rewrite Hi|eauto| |by rewrite Ha].
  right. by apply code_hash_ok.
Qed.

(** ** The calls of a level *)
Section calls.
Context (calls : Calls).

(** Contracts are run one level deeper. *)
Definition below (e : Evm) : Prop := evm_depth e <= CallCreateDepth -> CallsOk (evm_depth e + 1) calls.

Lemma twp_run_finish ro e id e2 c input readOnly :
  CallsOk (evm_depth e + 1) calls -> in_call ro e id e2 -> ro = static_in readOnly e -> contract_ok c -> bounded (default [] input) ->
  twp (run_contract calls c input readOnly) (fun r => twp (finish_call id r) (call_full ro (c_Gas c) e)) e2.
Proof.
  intros P Hin Hro Kc Hi. pose proof (in_call_evm _ _ _ _ Hin) as (K2 & Hd & Hr).
  eapply twp_mono; [apply (twp_run_contract (evm_depth e + 1) calls); [done|done|done|by rewrite Hd]|]. intros r e3 Hran.
  replace (static_in readOnly e2) with ro in Hran by (rewrite Hro; unfold static_in, in_static_call; by rewrite Hr).
  by eapply twp_finish_call.
Qed.

(** The checks at the beginning. *)
Lemma twp_checks ro gas e (rest : M Evm call_result) :
  evm_ok e -> 0 <= gas -> (evm_depth e <= CallCreateDepth -> twp rest (call_full ro gas e) e) ->
  twp (stop ← no_recursion; if stop : bool then mret (None, gas, None) else
       deep ← too_deep; if deep : bool then mret (None, gas, Some ErrDepth) else rest) (call_full ro gas e) e.
Proof.
  intros Ke Hg H. apply twp_bind, twp_gets. case_match; [by apply twp_ret, call_full_nothing|].
  apply twp_bind, twp_gets. destruct (Z.ltb_spec CallCreateDepth (evm_depth e)); [by apply twp_ret, call_full_nothing|by apply H].
Qed.

Lemma twp_CanTransfer ro gas e addr value (rest : M Evm call_result) :
  evm_ok e -> 0 <= gas -> (forall e1, evm_steps e e1 -> st_equiv (sdb e1) (sdb e) -> value <= balance_of (sdb e1) addr ->
    twp rest (call_full ro gas e1) e1) ->
  twp (can ← on_db (CanTransfer addr value); if negb can then mret (None, gas, Some ErrInsufficientBalance) else rest)
    (call_full ro gas e) e.
Proof.
  intros Ke Hg H. apply twp_bind.
  apply twp_on_db with (fun can s' => can = (value <=? balance_of (sdb e) addr) /\ steps true (sdb e) s' /\ st_equiv s' (sdb e)).
  { unfold CanTransfer. apply twp_bind. eapply twp_mono; [apply (GetBalance_looks true), Ke|]. cbn beta.
    by intros b s' (-> & Hs & Hq); apply twp_ret. }
  intros can s' (-> & Hs & Hq). set (e1 := set_StateDB s' e).
  assert (H1 : evm_steps e e1) by (apply db_evm_steps; [done|by apply steps_weaken]).
  assert (F1 : effect ro (sdb e) (sdb e1)) by apply (steps_weaken ro _ _ Hs).
  eapply twp_mono; [|intros r e' Hr; eapply call_full_after; [exact H1|exact F1|exact Hq|exact Hr]].
  destruct (Z.leb_spec value (balance_of (sdb e) addr)) as [Hle|Hlt]; cbn [negb]; [|apply twp_ret, call_full_nothing; [apply H1|done]].
  apply H; [done|done|]. cbn. by rewrite (equiv_balance _ _ addr Hq).
Qed.

Lemma twp_CallCode caller addr input gas value e :
  below e -> evm_ok e -> bounded (default [] input) -> 0 <= gas < max_gas -> 0 <= value ->
  twp (CallCode calls caller addr input gas value) (call_full (in_static_call e) gas e) e.
Proof.
  intros P Ke Hi Hg Hv. unfold CallCode. apply twp_checks; [done|lia|]. intros Hd. specialize (P Hd).
  apply twp_CanTransfer; [done|lia|]. intros e1 H1 _ _. apply twp_bind.
  assert (Hro : in_static_call e = in_static_call e1) by (unfold in_static_call; by rewrite (es_readOnly _ _ H1)). rewrite Hro.
  apply (twp_Snapshot (in_static_call e1)); [apply H1|done|]. intros id e2 Hin _. apply twp_bind.
  eapply twp_NewContract; [exact Hin|]. intros e3 H3 _. apply twp_bind.
  eapply twp_with_code_of; [exact H3|done|done|done|done|done|]. intros c e4 Kc Hgc H4 _. apply twp_bind. change gas with (c_Gas (new_contract caller (ref_Address caller) (Some value) gas)). rewrite <- Hgc.
  apply twp_run_finish; [by rewrite (es_depth _ _ H1)|done| |done|done]. unfold static_in. by rewrite orb_false_r.
Qed.

Lemma twp_DelegateCall parent addr input gas e :
  below e -> evm_ok e -> caller_ok (Contract_ref parent) -> bounded (default [] input) -> 0 <= gas < max_gas ->
  twp (DelegateCall calls (Contract_ref parent) addr input gas) (call_full (in_static_call e) gas e) e.
Proof.
  intros P Ke (v & Ev & Hv) Hi Hg. unfold DelegateCall. apply twp_checks; [done|lia|]. intros Hd. specialize (P Hd).
  apply twp_bind, (twp_Snapshot (in_static_call e)); [done|done|]. intros id e2 Hin _. apply twp_bind.
  eapply twp_NewContract; [exact Hin|]. intros e3 H3 _. apply twp_bind, twp_deref, twp_bind.
  eapply (twp_with_code_of _ _ _ _ _ _ v); [exact H3|done|done|done|done|done|]. intros c e4 Kc Hgc H4 _. apply twp_bind.
  cbn in Hgc. rewrite <- Hgc. apply twp_run_finish; [done|done| |done|done]. unfold static_in. by rewrite orb_false_r.
Qed.

Lemma twp_StaticCall caller addr input gas e :
  below e -> evm_ok e -> bounded (default [] input) -> 0 <= gas < max_gas ->
  twp (StaticCall calls caller addr input gas) (call_full (static_in true e) gas e) e.
Proof.
  intros P Ke Hi Hg. unfold StaticCall. apply twp_checks; [done|lia|]. intros Hd. specialize (P Hd).
  apply twp_bind, (twp_Snapshot (static_in true e)); [done|unfold static_in; by intros ->|]. intros id e2 Hin _. apply twp_bind.
  eapply twp_NewContract; [exact Hin|]. intros e3 H3 _. apply twp_bind.
  eapply twp_with_code_of; [exact H3|done|done|done|done|done|]. intros c e4 Kc Hgc H4 _. apply twp_bind.
  pose proof (in_call_evm _ _ _ _ H4) as (K4 & _). eapply twp_on_db; [apply (AddBalance_zero (static_in true e)), K4|].
  cbn beta. intros _ s5 Hs5. apply twp_bind. cbn in Hgc. rewrite <- Hgc. apply twp_run_finish; [done|by apply in_call_db|done|done|done].
Qed.

(** Value is moved once the recipient exists. *)
Lemma twp_recipient ro e id e2 addr caller value existed :
  in_call ro e id e2 -> existed = exists_in (sdb e2) addr -> 0 <= value <= balance_of (sdb e2) caller -> (ro = true -> value = 0) ->
  twp (when (negb existed) (on_db (CreateAccount addr None))) (fun _ => twp (on_db (Transfer caller addr value)) (fun _ e3 => in_call ro e id e3)) e2.
Proof.
  intros Hin -> Hv Hro. pose proof (in_call_evm _ _ _ _ Hin) as ([Ks _ _ _] & _).
  apply twp_mono with (fun _ e3 => in_call ro e id e3 /\ forall a, balance_of (sdb e3) a = balance_of (sdb e2) a).
  - apply twp_when; [|done]. intros Hn%negb_true_iff. eapply twp_on_db; [by apply (CreateAccount_steps ro)|].
    intros _ s' [Hs Hb]. split; [by apply in_call_db|done].
  - intros _ e3 [H3 Hb]. pose proof (in_call_evm _ _ _ _ H3) as ([Ks3 _ _ _] & _).
    eapply twp_on_db; [apply (Transfer_steps ro caller addr value); [done|by rewrite Hb|done]|].
    intros ? s' Hs. by apply in_call_db.
Qed.

Lemma twp_Call caller addr input gas value e :
  below e -> evm_ok e -> bounded (default [] input) -> 0 <= gas < max_gas -> 0 <= value ->
  (in_static_call e = true -> value = 0) ->
  twp (Call calls caller addr input gas value) (call_full (in_static_call e) gas e) e.
Proof.
  intros P Ke Hi Hg Hv Hst. unfold Call. apply twp_checks; [done|lia|]. intros Hd. specialize (P Hd).
  apply twp_CanTransfer; [done|lia|]. intros e1 H1 _ Hbal. apply twp_bind.
  assert (Hro : in_static_call e = in_static_call e1) by (unfold in_static_call; by rewrite (es_readOnly _ _ H1)). rewrite Hro in *.
  apply (twp_Snapshot (in_static_call e1)); [apply H1|done|]. intros id e2 H2 Q2. apply twp_bind.
  eapply twp_looks; [exact H2|intros; by apply Exist_looks|]. intros existed e3 -> H3 Q3.
  destruct (_ && _) eqn:Eb.
  { apply twp_ret. pose proof (in_call_all _ _ _ _ H3) as [A1 A2]. split; [split; cbn; [done|lia|done]|done|done]. }
  apply twp_bind. eapply twp_mono; [eapply (twp_recipient _ _ _ _ _ (ref_Address caller) value); [exact H3|by rewrite (equiv_exists _ _ _ Q3)| |done]|].
  { by rewrite (equiv_balance _ _ _ Q3), (equiv_balance _ _ _ Q2). }
  intros ? e4' Ht. apply twp_bind. eapply twp_mono; [exact Ht|]. cbn beta. intros _ e4 H4. apply twp_bind. eapply twp_NewContract; [exact H4|]. intros e5 H5 _. apply twp_bind.
  eapply twp_with_code_of; [exact H5|done|done|done|done|done|]. intros c e6 Kc Hgc H6 _. apply twp_bind.
  cbn in Hgc. rewrite <- Hgc. apply twp_run_finish; [by rewrite (es_depth _ _ H1)|done| |done|done]. unfold static_in. by rewrite orb_false_r.
Qed.

(** ** Creating contracts *)
Lemma UseGas_range gas c : 0 <= c_Gas c -> 0 <= gas -> 0 <= c_Gas (contract_UseGas gas c).2 <= c_Gas c.
Proof. intros Hc Hg. unfold contract_UseGas. destruct (Z.ltb_spec (c_Gas c) gas); cbn; lia. Qed.

(** Back to the snapshot. *)
Lemma twp_revert ro e id e2 (Q : unit -> Evm -> Prop) :
  in_call ro e id e2 -> (forall e3, evm_steps e e3 -> Q tt e3) -> twp (on_db (RevertToSnapshot id)) Q e2.
Proof.
  intros H HQ. pose proof (in_call_all _ _ _ _ H) as [[[? ? ? ?] _ Hd Hr] _]. destruct H as [Ke Hro (s1 & Es & H1 & F1)].
  eapply twp_on_db; [eapply (Revert_steps ro); [apply Ke|exact Es|split; [apply H1|exact F1]]|].
  intros [] s4 [[K4 F4] _]. apply HQ. split; [by split|by eapply effect_weaken|done|done].
Qed.

Lemma twp_finish_create e id addr c e2 r e3 :
  in_call false e id e2 -> ran false c e2 r e3 -> twp (finish_create id addr r) (returns_create (c_Gas c) e) e3.
Proof.
  intros Hin [Hst Hef Hg Hb]. pose proof (in_call_next _ _ _ _ _ Hin Hst Hef) as H3. destruct r as [[ret err] c']. cbn in Hg, Hb.
  unfold finish_create. set (big := _ && (MaxCodeSize <? _)). apply twp_bind.
  apply twp_mono with (fun (r : option vm_error * Contract) e4 => in_call false e id e4 /\ 0 <= c_Gas r.2 <= c_Gas c).
  - case_match; [|by apply twp_ret]. cbv zeta.
    pose proof (UseGas_range (uint64 (Z.of_nat (length (default [] ret)) * CreateDataGas)) c' ltac:(lia) (proj1 (uint64_range _))) as Hu.
    destruct (contract_UseGas _ c') as [[] c2]; cbn in Hu; [|apply twp_ret; split; [done|cbn; lia]].
    apply twp_bind. pose proof (in_call_evm _ _ _ _ H3) as ([Ks _ _ _] & _).
    eapply twp_on_db; [by apply (SetCode_steps addr ret)|]. intros _ s' [Hs _]. apply twp_ret. split; [by apply in_call_db|cbn; lia].
  - intros [err' c2] e4 [H4 Hg4]. cbn in Hg4. apply twp_bind. pose proof (in_call_all _ _ _ _ H4) as [A4 _].
    apply twp_mono with (fun (c3 : Contract) e5 => evm_steps e e5 /\ 0 <= c_Gas c3 <= c_Gas c).
    + case_match; [|by apply twp_ret]. apply twp_bind. eapply twp_revert; [exact H4|]. intros e5 H5. apply twp_ret.
      split; [done|]. destruct (bool_decide (err' <> Some errExecutionReverted)); [|done]. pose proof (UseGas_range (c_Gas c2) c2 ltac:(lia) ltac:(lia)). lia.
    + intros c3 e5 [H5 Hg5]. apply twp_ret. by split.
Qed.

(** A change of the state that leaves balances alone, on the machine. *)
Lemma twp_even {A} e (m : M StateDB A) (Q : A -> Evm -> Prop) :
  evm_ok e -> in_static_call e = false -> twp m (fun _ => steps_even false (sdb e)) (sdb e) ->
  (forall a e1, evm_steps e e1 -> (forall b, balance_of (sdb e1) b = balance_of (sdb e) b) -> Q a e1) -> twp (on_db m) Q e.
Proof.
  intros Ke Hro Hm H. eapply twp_on_db; [exact Hm|]. intros a s' [Hs Hb]. apply H; [|done]. apply db_evm_steps; [done|]. by rewrite Hro.
Qed.

Lemma looks_even {A} (m : M StateDB A) P s : twp m (looks false P s) s -> twp m (fun _ => steps_even false s) s.
Proof.
  intros H. eapply twp_mono; [exact H|]. intros a s' (_ & Hs & Hq). split; [done|]. intros b. by apply equiv_balance.
Qed.

Definition code_ok (codeAndHash : bytes * Hash) : Prop :=
  bounded codeAndHash.1 /\ (codeAndHash.2 = zeroHash \/ keccak256 codeAndHash.1 = codeAndHash.2).

(** After the snapshot. *)
Lemma twp_create_run caller ch gas value address opts e :
  CallsOk (evm_depth e + 1) calls -> evm_ok e -> in_static_call e = false -> code_ok ch -> 0 <= gas < max_gas ->
  0 <= value <= balance_of (sdb e) (ref_Address caller) ->
  twp (snapshot ← on_db Snapshot;
       on_db (CreateAccount address opts);;
       when (IsEIP158 chainConfig ctx_BlockNumber) (on_db (SetNonce address 1));;
       on_db (Transfer (ref_Address caller) address value);;
       contract ← NewContract caller address (Some value) gas;
       let contract := SetCodeOptionalHash address ch contract in
       stop ← no_recursion;
       if stop : bool then mret (None, address, gas, None)
       else r ← run_contract calls contract None false; finish_create snapshot address r) (returns_create gas e) e.
Proof.
  intros P Ke Hro [Hcb Hch] Hg Hv. apply twp_bind, (twp_Snapshot false); [done|by rewrite Hro|]. intros id e2 H2 Q2. apply twp_bind.
  pose proof (in_call_evm _ _ _ _ H2) as ([Ks2 _ _ _] & _). eapply twp_on_db; [by apply (CreateAccount_steps false)|].
  intros _ s3 [S3 B3]. apply (in_call_db _ _ _ _ _ H2) in S3. apply twp_bind.
  apply twp_mono with (fun _ e4 => in_call false e id e4 /\ forall b, balance_of (sdb e4) b = balance_of (sdb e2) b).
  { apply twp_when; [intros _|done]. pose proof (in_call_evm _ _ _ _ S3) as ([Ks3 _ _ _] & _).
    eapply twp_on_db; [by apply SetNonce_steps|]. intros _ s4 [S4 B4]. split; [by apply in_call_db|].
    intros b. cbn in *. by rewrite B4, B3. }
  intros _ e4 [H4 B4]. apply twp_bind. pose proof (in_call_evm _ _ _ _ H4) as ([Ks4 _ _ _] & _).
  eapply twp_on_db; [apply (Transfer_steps false); [done| |done]|]. { by rewrite B4, (equiv_balance _ _ _ Q2). }
  cbn beta. intros _ s5 S5. apply (in_call_db _ _ _ _ _ H4) in S5. apply twp_bind. eapply twp_NewContract; [exact S5|]. intros e6 H6 _.
  cbv zeta. apply twp_bind, twp_gets. case_match.
  { apply twp_ret. pose proof (in_call_all _ _ _ _ H6) as [A6 _]. split; cbn; [done|lia|done]. }
  set (c := SetCodeOptionalHash _ _ _). assert (Kc : contract_ok c) by (split; cbn; [done|done|done|exists value; split; [done|lia]|destruct Hch; auto|done]).
  pose proof (in_call_evm _ _ _ _ H6) as (K6 & Hd & Hr). apply twp_bind.
  eapply twp_mono; [apply (twp_run_contract (evm_depth e + 1) calls c None false); [done|done|done|by rewrite Hd]|].
  intros r e7 Hran. change gas with (c_Gas c). eapply twp_finish_create; [exact H6|].
  replace (static_in false e6) with false in Hran; [exact Hran|]. unfold static_in, in_static_call in *. by rewrite Hr, Hro.
Qed.

Lemma returns_create_after gas e1 e2 r e3 : evm_steps e1 e2 -> returns_create gas e2 r e3 -> returns_create gas e1 r e3.
Proof. intros H1 [Hs Hg Hb]. split; [by eapply evm_steps_trans|done|done]. Qed.

Lemma create_nothing e gas g addr err : evm_ok e -> 0 <= g <= gas -> returns_create gas e (None, addr, g, err) e.
Proof. intros Ke Hg. split; cbn; [by apply evm_steps_refl|done|done]. Qed.

Lemma evm_steps_static {e e'} : evm_steps e e' -> in_static_call e = false -> in_static_call e' = false.
Proof. intros H. unfold in_static_call. by rewrite (es_readOnly _ _ H). Qed.

(** One more change before the snapshot. *)
Lemma twp_before {A} e (m : M StateDB A) (k : A -> M Evm create_result) gas :
  evm_ok e -> in_static_call e = false -> twp m (fun _ => steps_even false (sdb e)) (sdb e) ->
  (forall a e1, evm_steps e e1 -> in_static_call e1 = false -> (forall b, balance_of (sdb e1) b = balance_of (sdb e) b) ->
     twp (k a) (returns_create gas e1) e1) ->
  twp (on_db m ≫= k) (returns_create gas e) e.
Proof.
  intros Ke Hro Hm H. apply twp_bind. apply twp_even; [done|done|done|]. intros a e1 H1 B1.
  eapply twp_mono; [apply H; [done|by apply (evm_steps_static H1)|done]|]. intros r e2. by apply returns_create_after.
Qed.

Lemma twp_create caller ch gas value address opts e :
  below e -> evm_ok e -> in_static_call e = false -> code_ok ch -> 0 <= gas < max_gas -> 0 <= value ->
  twp (create calls caller ch gas value address opts) (returns_create gas e) e.
Proof.
  intros P Ke Hro Hch Hg Hv. unfold create. apply twp_bind, twp_gets.
  destruct (Z.ltb_spec CallCreateDepth (evm_depth e)) as [|Hd]; [apply twp_ret, create_nothing; [done|lia]|]. specialize (P Hd).
  apply twp_bind. apply twp_on_db with (fun can s' => can = (value <=? balance_of (sdb e) (ref_Address caller)) /\ steps_even false (sdb e) s').
  { unfold CanTransfer. apply twp_bind. eapply twp_mono; [apply (GetBalance_looks false), Ke|]. cbn beta.
    intros b s' (-> & Hs & Hq). apply twp_ret. split; [done|]. split; [done|]. intros a. by apply equiv_balance. }
  intros can s1 (-> & S1 & B1). assert (H1 : evm_steps e (set_StateDB s1 e)) by (apply db_evm_steps; [done|by rewrite Hro]).
  eapply twp_mono; [|intros r e'; apply (returns_create_after _ _ _ _ _ H1)]. pose proof (evm_steps_static H1 Hro) as Hro1.
  destruct (Z.leb_spec value (balance_of (sdb e) (ref_Address caller))) as [Hle|]; cbn [negb];
    [|apply twp_ret, create_nothing; [apply H1|lia]].
  apply twp_before; [apply H1|done|eapply looks_even, GetNonce_looks, H1|]. intros nonce e2 H2 Hro2 B2.
  apply twp_before; [apply H2|done|apply SetNonce_steps; [apply H2|apply uint64_range]|]. intros _ e3 H3 Hro3 B3.
  apply twp_before; [apply H3|done|eapply looks_even, GetCodeHash_looks, H3|]. intros h e4 H4 Hro4 B4.
  apply twp_before; [apply H4|done|eapply looks_even, GetNonce_looks, H4|]. intros n e5 H5 Hro5 B5.
  case_match; [apply twp_ret, create_nothing; [apply H5|lia]|].
  apply twp_create_run; [|apply H5|done|done|done|by rewrite B5, B4, B3, B2; cbn; rewrite B1].
  by rewrite (es_depth _ _ H5), (es_depth _ _ H4), (es_depth _ _ H3), (es_depth _ _ H2), (es_depth _ _ H1).
Qed.

Lemma below_steps {e e'} : evm_steps e e' -> below e -> below e'.
Proof. intros H. unfold below. by rewrite (es_depth _ _ H). Qed.

Lemma twp_Create caller code gas value opts e :
  below e -> evm_ok e -> in_static_call e = false -> bounded (default [] code) -> 0 <= gas < max_gas -> 0 <= value ->
  twp (Create calls caller code gas value opts) (returns_create gas e) e.
Proof.
  intros P Ke Hro Hc Hg Hv. unfold Create. apply twp_before; [done|done|eapply looks_even, GetNonce_looks, Ke|].
  intros nonce e1 H1 Hro1 _. apply twp_create; [by apply (below_steps H1)|apply H1|done| |done|done]. split; [done|by left].
Qed.

Lemma twp_Create2 caller code gas value salt opts e :
  below e -> evm_ok e -> in_static_call e = false -> bounded (default [] code) -> 0 <= gas < max_gas -> 0 <= value ->
  twp (Create2 calls caller code gas value salt opts) (returns_create gas e) e.
Proof. intros P Ke Hro Hc Hg Hv. apply twp_create; try done. split; [done|by right]. Qed.
End calls.

(** ** Levels *)
Lemma CallsOk_deeper D D' calls : D <= D' -> CallsOk D calls -> CallsOk D' calls.
Proof.
  intros HD [H1 H2 H3 H4 H5 H6].
  assert (Hp : forall caller input gas e, call_pre D' caller input gas e -> call_pre D caller input gas e)
    by (intros caller input gas e []; split; try done; lia).
  split; intros; eauto.
Qed.

Lemma level_ok D calls : (D <= CallCreateDepth -> CallsOk (D + 1) calls) -> CallsOk D (level_calls calls).
Proof.
  intros H. assert (Hb : forall e, D <= evm_depth e -> below calls e).
  { intros e Hd Hmax. eapply CallsOk_deeper; [|apply H; lia]. lia. }
  split; cbn; intros until e; intros [Ke Hd Hca Hi Hg]; intros.
  - eapply twp_mono; [apply twp_Call; auto|]. by intros r e' [].
  - eapply twp_mono; [apply twp_CallCode; auto|]. by intros r e' [].
  - eapply twp_mono; [apply twp_DelegateCall; auto|]. by intros r e' [].
  - eapply twp_mono; [apply twp_StaticCall; auto|]. by intros r e' [].
  - apply twp_Create; auto.
  - apply twp_Create2; auto.
Qed.

Lemma calls_at_ok n : CallsOk (CallCreateDepth + 1 - Z.of_nat n) (calls_at (S n)).
Proof.
  induction n as [|n IH]; cbn [calls_at]; apply level_ok.
  - change (Z.of_nat 0) with 0. lia.
  - intros _. replace (CallCreateDepth + 1 - Z.of_nat (S n) + 1) with (CallCreateDepth + 1 - Z.of_nat n) by lia. exact IH.
Qed.

Lemma below_all e : evm_ok e -> below (calls_at max_levels) e.
Proof.
  intros Ke _. eapply (CallsOk_deeper (CallCreateDepth + 1 - Z.of_nat 1024)); [|apply calls_at_ok].
  change (CallCreateDepth + 1 - Z.of_nat 1024) with 1. pose proof (ek_depth _ Ke). lia.
Qed.
End level.

Section spec.
Context `{C : Crypto} {DB : StateDatabase} {N : NativeCrypto} {E : Environment} {K : EnvironmentOk}.

Abbreviation sdb := evm_StateDB.

(** The machine after a call is the one before but for its state, its cache of jump
    destinations and the data it keeps for the next instruction. *)
Definition same_machine (e e' : Evm) : Prop := evm_ok e' /\ evm_depth e' = evm_depth e /\ evm_readOnly e' = evm_readOnly e.

Lemma steps_same_machine e e' : evm_steps e e' -> same_machine e e'.
Proof. by intros [? _ ? ?]. Qed.



End spec.

(** ** The lengths of [bigModExp]

    A base and a modulus of one byte, and an exponent of 2^64 - 1. *)
Definition long_exponent : bytes :=
  replicate 31 (byte_of_Z 0) ++ [byte_of_Z 1] ++ replicate 24 (byte_of_Z 0) ++ replicate 8 (byte_of_Z 255) ++
  replicate 31 (byte_of_Z 0) ++ [byte_of_Z 1] ++ [byte_of_Z 2].

