(* ===== verification/ValidatorSet.v ===== *)
(** * Validator sets

    Models [src/consensus/tendermint/validator.go] and the default set of
    [src/consensus/tendermint/validator]: the order of the validators, the rotation
    of proposers, the quorum sizes and the neighbours of a validator. A validator is
    its address; a nil [Validator] is [None]. Locks are left out. *)

From S2P Require Import Prelude Bytes RlpEncode RlpDecode RlpCanonical Types.

(** ** Checksummed hexadecimal: [Address.Hex] *)
Section hex.
Context `{Crypto}.

(** The loop over [result] from index [i]. *)
Fixpoint checksum_go (hash : bytes) (i : nat) (result : bytes) : bytes :=
  match result with
  | [] => []
  | c :: r =>
      let hb := Z_of_byte (default (byte_of_Z 0) (hash !! (i / 2)%nat)) in
      let hb := if (i mod 2 =? 0)%nat then Z.shiftr hb 4 else Z.land hb 0xf in
      (if (57 <? Z_of_byte c) && (7 <? hb) then byte_of_Z (Z_of_byte c - 32) else c)
        :: checksum_go hash (S i) r
  end.

Definition Address_Hex (a : Address) : bytes :=
  let unchecksummed := hexEncodeToString (bytes_of a) in
  str "0x" ++ checksum_go (bytes_of (keccak256 unchecksummed)) 0 unchecksummed.

(** [Validators.Less] *)
Definition Less (a b : Address) : bool := bytes_ltb (Address_Hex a) (Address_Hex b).
End hex.

Inductive ProposerPolicy : Type := RoundRobin | Sticky.

#[export] Instance ProposerPolicy_eq_dec : EqDecision ProposerPolicy.
Proof. solve_decision. Defined.

(** [defaultSet]; the selector is determined by the policy. *)
Record ValidatorSet : Type := MkValSet {
  vs_validators : list Address;
  vs_policy : ProposerPolicy;
  vs_proposer : option Address;
  vs_height : Z
}.

#[export] Instance ValidatorSet_eq_dec : EqDecision ValidatorSet.
Proof. solve_decision. Defined.

Definition Size (v : ValidatorSet) : Z := Z.of_nat (length (vs_validators v)).

(** [GetByIndex]: beyond the end nil, a negative index panics. *)
Definition GetByIndex (l : list Address) (i : Z) : res (option Address) :=
  if i <? Z.of_nat (length l) then
    if i <? 0 then Panic else Ok (l !! Z.to_nat i)
  else Ok None.

Fixpoint find_index (addr : Address) (l : list Address) (i : Z) : Z * option Address :=
  match l with
  | [] => (-1, None)
  | val :: l' => if bool_decide (addr = val) then (i, Some val) else find_index addr l' (i + 1)
  end.

Definition GetByAddress (v : ValidatorSet) (addr : Address) : Z * option Address :=
  find_index addr (vs_validators v) 0.

Definition calcSeed (v : ValidatorSet) (proposer : Address) (roundDiff : Z) : Z :=
  let offset := match GetByAddress v proposer with (idx, Some _) => idx | (_, None) => 0 end in
  int64 (offset + roundDiff).

Definition emptyAddress (addr : Address) : bool := bool_decide (addr = zeroAddress).

Definition roundRobinProposer (v : ValidatorSet) (proposer : Address) (roundDiff : Z)
    : res (option Address) :=
  if Size v =? 0 then Ok None
  else
    let seed := if emptyAddress proposer then roundDiff else calcSeed v proposer roundDiff in
    let pick := Z.rem seed (Size v) in
    GetByIndex (vs_validators v) pick.

Definition stickyProposer (v : ValidatorSet) (proposer : Address) (roundDiff : Z)
    : res (option Address) :=
  if Size v =? 0 then Ok None
  else
    let seed := if emptyAddress proposer then roundDiff else calcSeed v proposer roundDiff in
    let pick := Z.rem seed (Size v) in
    GetByIndex (vs_validators v) pick.

Definition selector (p : ProposerPolicy) : ValidatorSet -> Address -> Z -> res (option Address) :=
  match p with Sticky => stickyProposer | RoundRobin => roundRobinProposer end.

Definition CalcProposer (v : ValidatorSet) (lastProposer : Address) (roundDiff : Z) : res ValidatorSet :=
  match selector (vs_policy v) v lastProposer roundDiff with
  | Ok p => Ok (MkValSet (vs_validators v) (vs_policy v) p (vs_height v))
  | Panic => Panic
  | OutOfFuel => OutOfFuel
  end.

Definition GetProposer (v : ValidatorSet) : option Address := vs_proposer v.

(** [reflect.DeepEqual] of the proposer and the validator found, both possibly nil. *)
Definition IsProposer (v : ValidatorSet) (address : Address) : bool :=
  bool_decide (GetProposer v = (GetByAddress v address).2).

(** [math.Ceil(float64(n)/k)]: exact below 2^51. *)
Definition ceil_div (n k : Z) : Z := (n + k - 1) / k.

Definition F (v : ValidatorSet) : Z := ceil_div (Size v) 3 - 1.
Definition V (v : ValidatorSet) : Z := ceil_div (Size v) 2.
Definition MinMajority (v : ValidatorSet) : Z := Size v - F v.
Definition MinPeers (v : ValidatorSet) : Z := Size v - F v - 1.

Definition AddValidator (v : ValidatorSet) (address : Address) : bool * ValidatorSet :=
  if existsb (fun a => bool_decide (a = address)) (vs_validators v) then (false, v)
  else (true, MkValSet (vs_validators v ++ [address]) (vs_policy v) (vs_proposer v) (vs_height v)).

Fixpoint remove_first (address : Address) (l : list Address) : option (list Address) :=
  match l with
  | [] => None
  | a :: l' => if bool_decide (a = address) then Some l'
               else match remove_first address l' with Some r => Some (a :: r) | None => None end
  end.

Definition RemoveValidator (v : ValidatorSet) (address : Address) : bool * ValidatorSet :=
  match remove_first address (vs_validators v) with
  | Some l => (true, MkValSet l (vs_policy v) (vs_proposer v) (vs_height v))
  | None => (false, v)
  end.

(** The loop of [GetNeighbors]: [j] from 0 to [n-1]. *)
Fixpoint neighbors_go (v : ValidatorSet) (i : Z) (n : nat) (j : Z) (acc : gset Address)
    : res (gset Address) :=
  match n with
  | O => Ok acc
  | S n' =>
      let neighborIndex := i + j + 1 in
      let neighborIndex := if Size v <=? neighborIndex then neighborIndex - Size v else neighborIndex in
      if neighborIndex =? i then neighbors_go v i n' (j + 1) acc
      else
        match GetByIndex (vs_validators v) neighborIndex with
        | Ok (Some a) => neighbors_go v i n' (j + 1) ({[a]} ∪ acc)
        | Ok None | Panic => Panic
        | OutOfFuel => OutOfFuel
        end
  end.

(** [GetNeighbors]; nil for an address outside of the set. *)
Definition GetNeighbors (v : ValidatorSet) (addr : Address) : res (option (gset Address)) :=
  let i := (GetByAddress v addr).1 in
  if i =? -1 then Ok None
  else
    match neighbors_go v i (Z.to_nat (Z.sqrt_up (Size v))) 0 ∅ with
    | Ok s => Ok (Some s)
    | Panic => Panic
    | OutOfFuel => OutOfFuel
    end.

(** [ExtractValidators]: whole addresses of a byte string. *)
Fixpoint ExtractValidators_go (n : nat) (extraData : bytes) : list Address :=
  match n with
  | O => []
  | S n' => BytesToAddress (take AddressLength extraData)
              :: ExtractValidators_go n' (drop AddressLength extraData)
  end.
Definition ExtractValidators (extraData : bytes) : list Address :=
  ExtractValidators_go (length extraData / AddressLength) extraData.

Section newset.
Context `{Crypto}.

(** [sort.Sort(validators)] for the order of [Less]. *)
Definition leq (a b : Address) : Prop := Less b a = false.
#[global] Instance leq_dec a b : Decision (leq a b) := bool_eq_dec _ _.
Definition sort_validators (l : list Address) : list Address := merge_sort leq l.

Definition newDefaultSet (addrs : list Address) (policy : ProposerPolicy) (height : Z) : res ValidatorSet :=
  let validators := sort_validators addrs in
  let size := Z.of_nat (length validators) in
  let proposer :=
    if 0 <? size then
      let shiftHeight := if 0 <? height then height - 1 else height in
      GetByIndex validators (Z.rem shiftHeight size)
    else Ok None in
  match proposer with
  | Ok p => Ok (MkValSet validators policy p height)
  | Panic => Panic
  | OutOfFuel => OutOfFuel
  end.

Definition NewSet := newDefaultSet.

Definition Copy (v : ValidatorSet) : res ValidatorSet :=
  NewSet (vs_validators v) (vs_policy v) (vs_height v).
End newset.

(** ** The order of validators *)
Section order.
Lemma bytes_ltb_irrefl a : bytes_ltb a a = false.
Proof.
  induction a as [|x a IH]; simpl; [done|].
  rewrite Z.ltb_irrefl, IH, andb_false_r. done.
Qed.

Lemma bytes_ltb_trans a b c : bytes_ltb a b = true -> bytes_ltb b c = true -> bytes_ltb a c = true.
Proof.
  revert b c. induction a as [|x a IH]; intros [|y b] [|z c]; simpl; try done.
  rewrite !orb_true_iff, !andb_true_iff, !Z.ltb_lt, !bool_decide_eq_true.
  intros [H1|[-> H1]] [H2|[-> H2]]; [left; lia|left; lia|left; lia|].
  right. split; [done|]. by eapply IH.
Qed.

Lemma bytes_ltb_total a b : bytes_ltb a b = false -> bytes_ltb b a = false -> a = b.
Proof.
  revert b. induction a as [|x a IH]; intros [|y b]; simpl; try done.
  rewrite !orb_false_iff, !andb_false_iff, !Z.ltb_ge, !bool_decide_eq_false.
  intros [H1 H2] [H3 H4]. assert (x = y) as -> by (apply (inj Z_of_byte); lia).
  f_equal. apply IH; [by destruct H2|by destruct H4].
Qed.

Context `{Crypto}.

(** Lower-casing a hexadecimal digit changes its text, not its value. *)
Lemma fromHexChar_upper c :
  97 <= Z_of_byte c <= 102 -> fromHexChar (byte_of_Z (Z_of_byte c - 32)) = fromHexChar c.
Proof.
  intros Hc. unfold fromHexChar. rewrite Z_of_byte_small by lia.
  repeat (match goal with |- context [?a <=? ?b] => destruct (Z.leb_spec a b); try lia end);
    simpl; f_equal; lia.
Qed.

Lemma hexDigit_range n : 0 <= n < 16 ->
  48 <= Z_of_byte (hexDigit n) <= 57 \/ 97 <= Z_of_byte (hexDigit n) <= 102.
Proof.
  intros Hn. unfold hexDigit. destruct (Z.ltb_spec n 10); rewrite Z_of_byte_small by lia; lia.
Qed.

Lemma checksum_char hash i n :
  0 <= n < 16 ->
  exists c, checksum_go hash i [hexDigit n] = [c] /\ fromHexChar c = Some n.
Proof.
  intros Hn. simpl. eexists. split; [done|].
  destruct (hexDigit_range n Hn) as [Hd|Hd].
  - rewrite (proj2 (Z.ltb_ge 57 _)) by lia. simpl. by apply fromHexChar_hexDigit.
  - case_match; [rewrite fromHexChar_upper by done|]; by apply fromHexChar_hexDigit.
Qed.

Lemma checksum_go_cons hash i c r :
  checksum_go hash i (c :: r) = checksum_go hash i [c] ++ checksum_go hash (S i) r.
Proof. done. Qed.

Lemma hexDecode_checksum hash i b :
  hexDecodeString (checksum_go hash i (hexEncodeToString b)) = b.
Proof.
  revert i. induction b as [|c b IH]; intros i; [done|].
  pose proof (Z_of_byte_range c) as Hc.
  change (hexEncodeToString (c :: b)) with
    (hexDigit (Z_of_byte c / 16) :: hexDigit (Z_of_byte c mod 16) :: hexEncodeToString b).
  rewrite checksum_go_cons, (checksum_go_cons _ (S i)).
  destruct (checksum_char hash i (Z_of_byte c / 16)) as (c1 & -> & H1).
  { split; [apply Z.div_pos|apply Z.div_lt_upper_bound]; lia. }
  destruct (checksum_char hash (S i) (Z_of_byte c mod 16)) as (c2 & -> & H2).
  { apply Z.mod_pos_bound. lia. }
  simpl. rewrite H1, H2, IH, nibbles, byte_of_Z_of_byte. done.
Qed.

#[global] Instance Address_Hex_inj : Inj (=) (=) Address_Hex.
Proof.
  intros a b E. unfold Address_Hex in E. apply app_inv_head in E.
  apply (f_equal hexDecodeString) in E. rewrite !hexDecode_checksum in E.
  by apply (inj bytes_of).
Qed.

#[global] Instance leq_total : Total leq.
Proof.
  intros a b. unfold leq, Less. destruct (bytes_ltb (Address_Hex b) (Address_Hex a)) eqn:E; [|by left].
  right. destruct (bytes_ltb (Address_Hex a) (Address_Hex b)) eqn:E2; [|done].
  pose proof (bytes_ltb_trans _ _ _ E E2) as H'. by rewrite bytes_ltb_irrefl in H'.
Qed.

#[global] Instance leq_trans : Transitive leq.
Proof.
  intros a b c. unfold leq, Less. intros H1 H2.
  destruct (bytes_ltb (Address_Hex c) (Address_Hex a)) eqn:E; [|done]. exfalso.
  destruct (bytes_ltb (Address_Hex a) (Address_Hex b)) eqn:E1.
  - rewrite (bytes_ltb_trans _ _ _ E E1) in H2. done.
  - rewrite (bytes_ltb_total _ _ E1 H1) in E. congruence.
Qed.

#[global] Instance leq_antisymm : AntiSymm (=) leq.
Proof. intros a b H1 H2. apply (inj Address_Hex). by apply bytes_ltb_total. Qed.

Lemma sort_validators_perm l : sort_validators l ≡ₚ l.
Proof. apply merge_sort_Permutation. Qed.

Lemma sort_validators_sorted l : StronglySorted leq (sort_validators l).
Proof. unfold sort_validators. apply (StronglySorted_merge_sort leq _). Qed.

(** The order of the input does not matter. *)
Lemma sort_validators_unique l1 l2 : l1 ≡ₚ l2 -> sort_validators l1 = sort_validators l2.
Proof.
  intros Hp. apply (StronglySorted_unique leq); [apply sort_validators_sorted..|].
  by rewrite !sort_validators_perm.
Qed.
End order.

(** ** Lookup *)
Section lookup.
Lemma find_index_Some addr l k i val :
  find_index addr l k = (i, Some val) -> val = addr /\ k <= i /\ l !! Z.to_nat (i - k) = Some addr.
Proof.
  revert k. induction l as [|a l IH]; intros k; simpl; [done|].
  case_bool_decide as E; subst.
  - intros [= <- <-]. by rewrite Z.sub_diag.
  - intros (-> & Hk & Hl)%IH. split_and!; [done|lia|].
    replace (Z.to_nat (i - k)) with (S (Z.to_nat (i - (k + 1)))) by lia. done.
Qed.

Lemma find_index_None addr l k i : find_index addr l k = (i, None) -> i = -1 /\ addr ∉ l.
Proof.
  revert k. induction l as [|a l IH]; intros k; simpl.
  - intros [= <-]. split; [done|apply not_elem_of_nil].
  - case_bool_decide as E; [done|]. intros [-> Hl]%IH. split; [done|]. by apply not_elem_of_cons.
Qed.

Lemma GetByAddress_in v addr :
  addr ∈ vs_validators v ->
  exists i, GetByAddress v addr = (i, Some addr) /\ 0 <= i < Size v /\
    vs_validators v !! Z.to_nat i = Some addr.
Proof.
  intros Hin. unfold GetByAddress. destruct (find_index addr (vs_validators v) 0) as [i [val|]] eqn:E.
  - apply find_index_Some in E as (-> & Hi & Hl). rewrite Z.sub_0_r in Hl.
    exists i. split_and!; try done. apply lookup_lt_Some in Hl. unfold Size. lia.
  - by apply find_index_None in E as [_ ?].
Qed.

Lemma GetByAddress_index v addr i :
  GetByAddress v addr = (i, Some addr) -> 0 <= i < Size v /\ vs_validators v !! Z.to_nat i = Some addr.
Proof.
  intros E. apply find_index_Some in E as (_ & Hi & Hl). rewrite Z.sub_0_r in Hl.
  split; [|done]. apply lookup_lt_Some in Hl. unfold Size. lia.
Qed.

Lemma GetByAddress_absent v addr : addr ∉ vs_validators v -> GetByAddress v addr = (-1, None).
Proof.
  intros Hn. unfold GetByAddress. destruct (find_index addr (vs_validators v) 0) as [i [val|]] eqn:E.
  - apply find_index_Some in E as (-> & _ & Hl). apply list_elem_of_lookup_2 in Hl. done.
  - by apply find_index_None in E as [-> _].
Qed.

(** The index tells whether the address is in the set. *)
Lemma GetByAddress_minus1 v addr : (GetByAddress v addr).1 = -1 <-> addr ∉ vs_validators v.
Proof.
  destruct (decide (addr ∈ vs_validators v)) as [Hin|Hin].
  - destruct (GetByAddress_in v addr Hin) as (i & -> & Hi & _). simpl. split; [lia|done].
  - by rewrite GetByAddress_absent.
Qed.

(** Distinct validators have distinct indices. *)
Lemma GetByAddress_inj v a b i :
  GetByAddress v a = (i, Some a) -> GetByAddress v b = (i, Some b) -> a = b.
Proof. intros [_ Ha]%GetByAddress_index [_ Hb]%GetByAddress_index. congruence. Qed.

Lemma GetByIndex_in l i : 0 <= i < Z.of_nat (length l) -> exists a, GetByIndex l i = Ok (Some a) /\ a ∈ l.
Proof.
  intros Hi. unfold GetByIndex. rewrite (proj2 (Z.ltb_lt _ _)), (proj2 (Z.ltb_ge _ _)) by lia.
  destruct (lookup_lt_is_Some_2 l (Z.to_nat i)) as [a Ha]; [lia|].
  exists a. rewrite Ha. split; [done|by eapply list_elem_of_lookup_2].
Qed.
End lookup.

(** ** Properties *)

Lemma size_intersection (l : list Address) (A B : gset Address) :
  NoDup l -> A ⊆ list_to_set l -> B ⊆ list_to_set l ->
  (size A + size B <= length l + size (A ∩ B))%nat.
Proof.
  intros Hnd HA HB.
  assert (Hu : (size (A ∪ B) <= length l)%nat).
  { rewrite <- (size_list_to_set (C := gset Address)) by done. apply subseteq_size.
    by apply union_least. }
  assert (size B = size (B ∖ A) + size (B ∩ A))%nat as HBs.
  { clear. rewrite <- size_union by set_solver. f_equal. apply set_eq. intros x.
    destruct (decide (x ∈ A)); set_solver. }
  rewrite (size_union_alt A B) in Hu. rewrite (intersection_comm_L A B). lia.
Qed.

(** A quorum is more than two thirds of a non-empty set. *)
Lemma MinMajority_bound v : 0 < Size v -> 2 * Size v < 3 * MinMajority v /\ 1 <= MinMajority v <= Size v - F v.
Proof.
  intros Hs. unfold MinMajority, F, ceil_div, Size in *.
  set (n := Z.of_nat (length (vs_validators v))) in *.
  pose proof (Z.div_mod (n + 3 - 1) 3 ltac:(lia)) as Hd.
  pose proof (Z.mod_pos_bound (n + 3 - 1) 3 ltac:(lia)) as Hm. lia.
Qed.

(** Two quorums have more than [F] validators in common. *)
Lemma quorums_share v (A B : gset Address) :
  NoDup (vs_validators v) -> 0 < Size v ->
  A ⊆ list_to_set (vs_validators v) -> B ⊆ list_to_set (vs_validators v) ->
  MinMajority v <= Z.of_nat (size A) -> MinMajority v <= Z.of_nat (size B) ->
  0 <= F v /\ 3 * F v < Size v /\ F v < Z.of_nat (size (A ∩ B)).
Proof.
  intros Hnd Hs HA HB HqA HqB. pose proof (size_intersection (vs_validators v) A B Hnd HA HB).
  unfold MinMajority, F, ceil_div, Size in *.
  pose proof (Z.div_mod (Z.of_nat (length (vs_validators v)) + 3 - 1) 3 ltac:(lia)).
  pose proof (Z.mod_pos_bound (Z.of_nat (length (vs_validators v)) + 3 - 1) 3 ltac:(lia)). lia.
Qed.

(** Quorums. With [F] the number of faults the set tolerates, [MinMajority]
    validators are a quorum: they exist without the faulty ones, and two quorums share
    more than [F] validators, hence a correct one. *)
Theorem quorum_intersection (v : ValidatorSet) (A B : gset Address) :
  NoDup (vs_validators v) -> 0 < Size v ->
  A ⊆ list_to_set (vs_validators v) -> B ⊆ list_to_set (vs_validators v) ->
  MinMajority v <= Z.of_nat (size A) -> MinMajority v <= Z.of_nat (size B) ->
  0 <= F v /\ 3 * F v < Size v /\ MinMajority v <= Size v - F v /\
  2 * Size v < 3 * MinMajority v /\ F v < Z.of_nat (size (A ∩ B)).
Proof.
  intros Hnd Hs HA HB HqA HqB. pose proof (MinMajority_bound v Hs).
  destruct (quorums_share v A B Hnd Hs HA HB HqA HqB) as (? & ? & ?). split_and!; lia.
Qed.

Lemma quorum_intersection_witness :
  let v := MkValSet (BigToAddress <$> [1; 2; 3; 4]) RoundRobin None 1 in
  let A : gset Address := list_to_set (BigToAddress <$> [1; 2; 3]) in
  let B : gset Address := list_to_set (BigToAddress <$> [2; 3; 4]) in
  0 <= F v /\ 3 * F v < Size v /\ MinMajority v <= Size v - F v /\
  2 * Size v < 3 * MinMajority v /\ F v < Z.of_nat (size (A ∩ B)).
Proof.
  apply quorum_intersection;
    [apply (bool_decide_unpack _); vm_compute; exact I|vm_compute; reflexivity
    |apply (bool_decide_unpack _); vm_compute; exact I|apply (bool_decide_unpack _); vm_compute; exact I
    |vm_compute; discriminate|vm_compute; discriminate].
Defined.

(** The proposer rotates. In a set without the zero address, the proposer [d]
    rounds after [p] is the validator [d] places after [p] in cyclic order, as long as
    place and distance do not overflow [int64]; both policies select it. *)
Theorem CalcProposer_rotation (v : ValidatorSet) (p : Address) (i d : Z) :
  GetByAddress v p = (i, Some p) -> p <> zeroAddress -> 0 <= d -> i + d < 2 ^ 63 ->
  exists a, CalcProposer v p d = Ok (MkValSet (vs_validators v) (vs_policy v) (Some a) (vs_height v)) /\
    vs_validators v !! Z.to_nat ((i + d) mod Size v) = Some a.
Proof.
  intros Hp Hz Hd Ho. pose proof (GetByAddress_index v p i Hp) as [Hi _].
  assert (Hpick : 0 <= (i + d) mod Size v < Size v) by (apply Z.mod_pos_bound; lia).
  destruct (lookup_lt_is_Some_2 (vs_validators v) (Z.to_nat ((i + d) mod Size v))) as [a Ha];
    [unfold Size in *; lia|].
  exists a. split; [|done]. unfold CalcProposer.
  assert (Hsel : roundRobinProposer v p d = Ok (Some a)).
  { unfold roundRobinProposer. rewrite (proj2 (Z.eqb_neq (Size v) 0)) by lia.
    unfold emptyAddress. rewrite bool_decide_eq_false_2 by done. unfold calcSeed. rewrite Hp.
    rewrite int64_small by (unfold is_int64; lia). rewrite Z.rem_mod_nonneg by lia.
    unfold GetByIndex. fold (Size v). rewrite (proj2 (Z.ltb_lt _ _)), (proj2 (Z.ltb_ge _ _)) by lia.
    by rewrite Ha. }
  destruct (vs_policy v); cbn [selector]; [by rewrite Hsel|].
  change (stickyProposer v p d) with (roundRobinProposer v p d). by rewrite Hsel.
Qed.

Definition demo_set : ValidatorSet :=
  MkValSet (BigToAddress <$> [11; 12; 13; 14]) RoundRobin (Some (BigToAddress 11)) 1.

Lemma CalcProposer_rotation_witness :
  exists a, CalcProposer demo_set (BigToAddress 13) 6
    = Ok (MkValSet (vs_validators demo_set) RoundRobin (Some a) 1) /\
    vs_validators demo_set !! Z.to_nat ((2 + 6) mod 4) = Some a.
Proof.
  apply (CalcProposer_rotation demo_set (BigToAddress 13) 2 6);
    [vm_compute; reflexivity|intros E; apply (f_equal bytes_of) in E; vm_compute in E; discriminate
    |lia|lia].
Defined.

(** The selection panics exactly when place and distance overflow [int64] to a
    negative number that the size does not divide: the index is then negative. *)
Theorem CalcProposer_panic (v : ValidatorSet) (p : Address) (i d : Z) :
  GetByAddress v p = (i, Some p) -> p <> zeroAddress -> 0 <= d < 2 ^ 63 -> Size v < 2 ^ 62 ->
  CalcProposer v p d = Panic <-> 2 ^ 63 <= i + d /\ ~ (Size v | i + d - 2 ^ 64).
Proof.
  intros Hp Hz Hd Hs. pose proof (GetByAddress_index v p i Hp) as [Hi _].
  assert (Hpanic : CalcProposer v p d = Panic <-> Z.rem (int64 (i + d)) (Size v) < 0).
  { unfold CalcProposer.
    assert (roundRobinProposer v p d = GetByIndex (vs_validators v) (Z.rem (int64 (i + d)) (Size v))) as Hr.
    { unfold roundRobinProposer. rewrite (proj2 (Z.eqb_neq (Size v) 0)) by lia.
      unfold emptyAddress. rewrite bool_decide_eq_false_2 by done. unfold calcSeed. by rewrite Hp. }
    destruct (vs_policy v); cbn [selector];
      try change (stickyProposer v p d) with (roundRobinProposer v p d);
      rewrite Hr; unfold GetByIndex; fold (Size v);
      destruct (Z.ltb_spec (Z.rem (int64 (i + d)) (Size v)) 0);
      destruct (Z.ltb_spec (Z.rem (int64 (i + d)) (Size v)) (Size v)); split; try done; lia. }
  rewrite Hpanic. destruct (decide (i + d < 2 ^ 63)) as [Hlt|Hge].
  - rewrite int64_small by (unfold is_int64; lia).
    pose proof (Z.rem_nonneg (i + d) (Size v) ltac:(lia) ltac:(lia)). lia.
  - assert (int64 (i + d) = i + d - 2 ^ 64) as ->.
    { unfold int64. replace (i + d + 2 ^ 63) with (i + d - 2 ^ 63 + 1 * 2 ^ 64) by lia.
      rewrite Z.mod_add, Z.mod_small by lia. lia. }
    rewrite <- Z.rem_divide by lia.
    pose proof (Z.rem_nonpos (i + d - 2 ^ 64) (Size v) ltac:(lia) ltac:(lia)). lia.
Qed.

Lemma CalcProposer_panic_witness :
  CalcProposer demo_set (BigToAddress 12) (2 ^ 63 - 2) = Panic
  <-> 2 ^ 63 <= 1 + (2 ^ 63 - 2) /\ ~ (Size demo_set | 1 + (2 ^ 63 - 2) - 2 ^ 64).
Proof.
  apply (CalcProposer_panic demo_set (BigToAddress 12) 1 (2 ^ 63 - 2));
    [vm_compute; reflexivity|intros E; apply (f_equal bytes_of) in E; vm_compute in E; discriminate
    |lia|vm_compute; reflexivity].
Defined.

Section newset_properties.
Context `{Crypto}.

Lemma sort_validators_length l : length (sort_validators l) = length l.
Proof. apply Permutation_length, sort_validators_perm. Qed.

Lemma NewSet_validators l policy height v :
  NewSet l policy height = Ok v -> vs_validators v = sort_validators l.
Proof. unfold NewSet, newDefaultSet. cbv zeta. intros Hn. repeat case_match; by simplify_eq. Qed.

Lemma NewSet_Ok l policy height :
  0 <= height -> exists v, NewSet l policy height = Ok v /\ vs_validators v = sort_validators l.
Proof.
  intros Hh. cut (exists v, NewSet l policy height = Ok v).
  { intros [v Hv]. exists v. split; [done|by eapply NewSet_validators]. }
  unfold NewSet, newDefaultSet. cbv zeta. destruct (Z.ltb_spec 0 (Z.of_nat (length (sort_validators l)))); [|eauto].
  set (i := if 0 <? height then height - 1 else height).
  assert (0 <= i) by (unfold i; destruct (Z.ltb_spec 0 height); lia).
  destruct (GetByIndex_in (sort_validators l) (Z.rem i (Z.of_nat (length (sort_validators l))))) as (a & -> & _);
    [|eauto]. rewrite Z.rem_mod_nonneg by lia. apply Z.mod_pos_bound. lia.
Qed.

(** All nodes agree on the set. [NewSet] does not depend on the order of the
    addresses, keeps them, never panics for a height that is not negative, and at height
    [h > 0] the proposer is the validator at place [(h - 1) mod n] of the order. *)
Theorem NewSet_deterministic (l1 l2 : list Address) (policy : ProposerPolicy) (height : Z) :
  l1 ≡ₚ l2 -> 0 <= height ->
  exists v, NewSet l1 policy height = Ok v /\ NewSet l2 policy height = Ok v /\
    vs_validators v ≡ₚ l1 /\ vs_policy v = policy /\ vs_height v = height /\
    (l1 <> [] -> exists p, vs_proposer v = Some p /\
       vs_validators v !! Z.to_nat ((Z.max height 1 - 1) mod Size v) = Some p).
Proof.
  intros Hp Hh. unfold NewSet, newDefaultSet. rewrite <- (sort_validators_unique l1 l2 Hp).
  destruct (Z.ltb_spec 0 (Z.of_nat (length (sort_validators l1)))) as [Hn|Hn].
  - set (n := Z.of_nat (length (sort_validators l1))) in *.
    assert (Hrem : Z.rem (if 0 <? height then height - 1 else height) n = (Z.max height 1 - 1) mod n).
    { destruct (Z.ltb_spec 0 height); rewrite Z.rem_mod_nonneg by lia; f_equal; lia. }
    rewrite Hrem. pose proof (Z.mod_pos_bound (Z.max height 1 - 1) n Hn) as Hb.
    unfold GetByIndex. fold n. rewrite (proj2 (Z.ltb_lt _ _)), (proj2 (Z.ltb_ge _ _)) by lia.
    destruct (lookup_lt_is_Some_2 (sort_validators l1) (Z.to_nat ((Z.max height 1 - 1) mod n))) as [p Hl];
      [lia|].
    rewrite Hl. eexists. split_and!; try done; [apply sort_validators_perm|]. intros _.
    exists p. by split.
  - eexists. split_and!; try done; [apply sort_validators_perm|]. intros Hne.
    rewrite sort_validators_length in Hn. destruct l1; [done|simpl in Hn; lia].
Qed.
End newset_properties.

Lemma NewSet_deterministic_witness :
  exists v, @NewSet demo_crypto [BigToAddress 2; BigToAddress 1] RoundRobin 5 = Ok v /\
    @NewSet demo_crypto [BigToAddress 1; BigToAddress 2] RoundRobin 5 = Ok v /\
    vs_validators v ≡ₚ [BigToAddress 2; BigToAddress 1] /\ vs_policy v = RoundRobin /\
    vs_height v = 5 /\
    ([BigToAddress 2; BigToAddress 1] <> [] -> exists p, vs_proposer v = Some p /\
       vs_validators v !! Z.to_nat ((Z.max 5 1 - 1) mod Size v) = Some p).
Proof. apply (@NewSet_deterministic demo_crypto); [apply Permutation_swap|lia]. Defined.

(** Who is the proposer. In a set with a proposer, [IsProposer] holds of its address
    and of no other; in an empty set, which has none, it holds of every address. *)
Theorem IsProposer_spec (v : ValidatorSet) (a : Address) :
  (forall p, vs_proposer v = Some p -> p ∈ vs_validators v -> IsProposer v a = true <-> a = p) /\
  (vs_validators v = [] -> vs_proposer v = None -> IsProposer v a = true).
Proof.
  unfold IsProposer, GetProposer. split.
  - intros p -> Hp. rewrite bool_decide_eq_true. split.
    + intros E. destruct (decide (a ∈ vs_validators v)) as [Ha|Ha].
      * destruct (GetByAddress_in v a Ha) as (i & Hg & _). rewrite Hg in E. by injection E.
      * by rewrite (GetByAddress_absent v a Ha) in E.
    + intros ->. by destruct (GetByAddress_in v p Hp) as (i & -> & _).
  - intros Hv ->. unfold GetByAddress. rewrite Hv. done.
Qed.

(** ** Neighbours *)
Section neighbors.
Lemma neighbors_go_spec v i n j acc :
  0 <= i < Size v -> 0 <= j -> j + Z.of_nat n <= Size v ->
  acc ⊆ list_to_set (vs_validators v) ->
  exists s, neighbors_go v i n j acc = Ok s /\ s ⊆ list_to_set (vs_validators v) /\
    (size s <= size acc + n)%nat /\
    (forall a, a ∈ s -> a ∈ acc \/ exists k, vs_validators v !! k = Some a /\ Z.of_nat k <> i).
Proof.
  revert j acc. induction n as [|n IH]; intros j acc Hi Hj Hb Hacc; simpl.
  { exists acc. split_and!; [done|done|lia|by left]. }
  set (idx := if Size v <=? i + j + 1 then i + j + 1 - Size v else i + j + 1).
  assert (Hidx : 0 <= idx < Size v) by (unfold idx; destruct (Z.leb_spec (Size v) (i + j + 1)); lia).
  destruct (Z.eqb_spec idx i) as [|Hne].
  - destruct (IH (j + 1) acc) as (s & E & Hs & Hsz & Hin); [done|lia|lia|done|].
    exists s. split_and!; [done|done|lia|done].
  - unfold GetByIndex. fold (Size v). rewrite (proj2 (Z.ltb_lt _ _)), (proj2 (Z.ltb_ge _ _)) by lia.
    destruct (lookup_lt_is_Some_2 (vs_validators v) (Z.to_nat idx)) as [a Ha]; [unfold Size in *; lia|].
    rewrite Ha.
    assert (Hmem : a ∈ vs_validators v) by (by eapply list_elem_of_lookup_2).
    destruct (IH (j + 1) ({[a]} ∪ acc)) as (s & E & Hs & Hsz & Hin); [done|lia|lia| |].
    { apply union_least; [|done]. by apply singleton_subseteq_l, elem_of_list_to_set. }
    exists s. split_and!; [done|done| |].
    + pose proof (size_union_alt {[a]} acc) as Hu. rewrite size_singleton in Hu.
      assert (size (acc ∖ {[a]}) <= size acc)%nat by (apply subseteq_size; clear; set_solver). lia.
    + intros b Hb'. destruct (Hin b Hb') as [Hu|?]; [|by right].
      apply elem_of_union in Hu as [->%elem_of_singleton|?]; [|by left]. right.
      exists (Z.to_nat idx). split; [done|lia].
Qed.

(** [GetNeighbors] of a validator returns at most the rounded-up square root of the
    number of validators, all validators and none of them the validator itself, without
    panicking; for any other address it returns nil. *)
Theorem GetNeighbors_spec (v : ValidatorSet) (addr : Address) :
  NoDup (vs_validators v) ->
  if decide (addr ∈ vs_validators v) then
    exists s, GetNeighbors v addr = Ok (Some s) /\ s ⊆ list_to_set (vs_validators v) /\
      addr ∉ s /\ Z.of_nat (size s) <= Z.sqrt_up (Size v)
  else GetNeighbors v addr = Ok None.
Proof.
  intros Hnd. unfold GetNeighbors. destruct (decide (addr ∈ vs_validators v)) as [Hin|Hin].
  - destruct (GetByAddress_in v addr Hin) as (i & -> & Hi & Hl). simpl.
    rewrite (proj2 (Z.eqb_neq i (-1))) by lia.
    pose proof (Z.sqrt_up_nonneg (Size v)).
    assert (Z.sqrt_up (Size v) <= Size v) by (apply Z.sqrt_up_le_lin; lia).
    destruct (neighbors_go_spec v i (Z.to_nat (Z.sqrt_up (Size v))) 0 ∅) as (s & -> & Hs & Hsz & Hsrc);
      [done|lia|lia|apply empty_subseteq|].
    exists s. rewrite size_empty in Hsz. split_and!; [done|done| |lia].
    intros Ha. destruct (Hsrc addr Ha) as [He|(k & Hk & Hne)]; [by apply elem_of_empty in He|].
    apply Hne. rewrite (NoDup_lookup _ _ _ _ Hnd Hk Hl). lia.
  - by rewrite (GetByAddress_absent v addr Hin).
Qed.
End neighbors.

Lemma GetNeighbors_spec_witness :
  exists s, GetNeighbors demo_set (BigToAddress 13) = Ok (Some s) /\
    s ⊆ list_to_set (vs_validators demo_set) /\ BigToAddress 13 ∉ s /\
    Z.of_nat (size s) <= Z.sqrt_up (Size demo_set).
Proof.
  assert (Hnd : NoDup (vs_validators demo_set)) by (apply (bool_decide_unpack _); vm_compute; exact I).
  pose proof (GetNeighbors_spec demo_set (BigToAddress 13) Hnd) as Hs.
  destruct (decide (BigToAddress 13 ∈ vs_validators demo_set)) as [Hin|Hin]; [exact Hs|].
  exfalso. apply Hin. apply (bool_decide_unpack _). vm_compute. exact I.
Defined.
