(* ===== verification/Messages.v ===== *)
(** * Consensus messages

    Models [src/consensus/tendermint/core/types.go] and the message type of
    [src/consensus/tendermint/core/messages.go]: proposals, votes, catch-up requests
    and replies, and the signed envelope, with their RLP forms. Pointers the code never
    leaves nil ([Vote.BlockHash], the block numbers, [Proposal.Block]) are values. *)

From S2P Require Import Prelude Bytes RlpEncode RlpDecode RlpCanonical Types.

(** [RoundStepType] is a [uint8]; its constants. *)
Definition RoundStepNewHeight : Z := 0x01.
Definition RoundStepNewRound : Z := 0x02.
Definition RoundStepPropose : Z := 0x03.
Definition RoundStepPrevote : Z := 0x04.
Definition RoundStepPrevoteWait : Z := 0x05.
Definition RoundStepPrecommit : Z := 0x06.
Definition RoundStepPrecommitWait : Z := 0x07.
Definition RoundStepCommit : Z := 0x08.

Definition IsValid (rs : Z) : bool := (0x01 <=? rs) && (rs <=? 0x08).

Definition msgPropose : Z := 0.
Definition msgPrevote : Z := 1.
Definition msgPrecommit : Z := 2.
Definition msgCatchUpRequest : Z := 3.
Definition msgCatchUpReply : Z := 4.

Record Proposal : Type := MkProposal {
  p_Block : Block;
  p_Round : Z;
  p_POLRound : Z
}.

Record Vote : Type := MkVote {
  v_BlockHash : Hash;
  v_BlockNumber : Z;
  v_Round : Z;
  v_Seal : bytes
}.

Record CatchUpRequestMsg : Type := MkCatchUpRequest {
  cr_BlockNumber : Z;
  cr_Round : Z;
  cr_Step : Z
}.

Record CatchUpReplyMsg : Type := MkCatchUpReply {
  cp_BlockNumber : Z;
  cp_Payloads : list bytes
}.

Record message : Type := MkMessage {
  m_Code : Z;
  m_Msg : bytes;
  m_Address : Address;
  m_Signature : bytes
}.

#[export] Instance Proposal_eq_dec : EqDecision Proposal.
Proof. solve_decision. Defined.
#[export] Instance Vote_eq_dec : EqDecision Vote.
Proof. solve_decision. Defined.
#[export] Instance message_eq_dec : EqDecision message.
Proof. solve_decision. Defined.

(** ** RLP forms *)
Definition proposal_ty : ty := TStruct [TPtr block_ty; TString; TString].
Definition vote_ty : ty := TStruct [TPtr (TByteArray 32); TBigInt; TString; TBytes].
Definition catchUpRequest_ty : ty := TStruct [TBigInt; TUint 64; TUint 8].
Definition catchUpReply_ty : ty := TStruct [TBigInt; TSlice TBytes].
Definition message_ty : ty := TStruct [TUint 64; TBytes; TByteArray 20; TBytes].

(** [Proposal.EncodeRLP]: the rounds in decimal, they may be negative. *)
Definition proposal_gval (p : Proposal) : gval :=
  GList [block_gval (p_Block p); GString (FormatInt (p_Round p)); GString (FormatInt (p_POLRound p))].

(** [Vote.EncodeRLP] *)
Definition vote_gval (v : Vote) : gval :=
  GList [GByteArray (bytes_of (v_BlockHash v)); GBigInt (Some (v_BlockNumber v));
         GString (FormatInt (v_Round v)); GBytes (v_Seal v)].

(** [CatchUpRequestMsg.EncodeRLP] *)
Definition catchUpRequest_gval (m : CatchUpRequestMsg) : gval :=
  GList [GBigInt (Some (cr_BlockNumber m)); GUint (uint64 (cr_Round m)); GUint (cr_Step m)].

Definition catchUpReply_gval (m : CatchUpReplyMsg) : gval :=
  GList [GBigInt (Some (cp_BlockNumber m)); GList (GBytes <$> cp_Payloads m)].

(** [message.EncodeRLP] *)
Definition message_gval (m : message) : gval :=
  GList [GUint (m_Code m); GBytes (m_Msg m); GByteArray (bytes_of (m_Address m)); GBytes (m_Signature m)].

(** ** Decoding: [rlp.DecodeBytes] into each type *)
Definition shape_error : error := ErrRlp (decodeError TooFewElements).

(** [Proposal.DecodeRLP] *)
Definition decode_proposal (b : bytes) : error + Proposal :=
  match DecodeBytes proposal_ty b with
  | inl e => inl (ErrRlp e)
  | inr (GList [blk; GString rstr; GString polstr]) =>
      match ParseInt rstr with
      | None => inl ErrParseInt
      | Some round =>
          match ParseInt polstr with
          | None => inl ErrParseInt
          | Some polcr =>
              match block_of_gval blk with
              | Some block => inr (MkProposal block round polcr)
              | None => inl shape_error
              end
          end
      end
  | inr _ => inl shape_error
  end.

(** [Vote.DecodeRLP] *)
Definition decode_vote (b : bytes) : error + Vote :=
  match DecodeBytes vote_ty b with
  | inl e => inl (ErrRlp e)
  | inr (GList [GByteArray h; GBigInt (Some n); GString rstr; GBytes seal]) =>
      match ParseInt rstr with
      | None => inl ErrParseInt
      | Some round => inr (MkVote (BytesToHash h) n round seal)
      end
  | inr _ => inl shape_error
  end.

(** [CatchUpRequestMsg.DecodeRLP] *)
Definition decode_catchUpRequest (b : bytes) : error + CatchUpRequestMsg :=
  match DecodeBytes catchUpRequest_ty b with
  | inl e => inl (ErrRlp e)
  | inr (GList [GBigInt (Some n); GUint r; GUint st]) => inr (MkCatchUpRequest n (int64 r) st)
  | inr _ => inl shape_error
  end.

Definition decode_catchUpReply (b : bytes) : error + CatchUpReplyMsg :=
  match DecodeBytes catchUpReply_ty b with
  | inl e => inl (ErrRlp e)
  | inr (GList [GBigInt (Some n); GList l]) =>
      match mapM bytes_of_gval l with
      | Some ps => inr (MkCatchUpReply n ps)
      | None => inl shape_error
      end
  | inr _ => inl shape_error
  end.

(** [message.DecodeRLP] *)
Definition decode_message (b : bytes) : error + message :=
  match DecodeBytes message_ty b with
  | inl e => inl (ErrRlp e)
  | inr (GList [GUint code; GBytes msg; GByteArray addr; GBytes sig]) =>
      inr (MkMessage code msg (BytesToAddress addr) sig)
  | inr _ => inl shape_error
  end.

(** [rlp.EncodeToBytes] as the callers see it. *)
Definition encode (v : gval) : error + bytes :=
  match EncodeToBytes v with
  | inr (Ok b) => inr b
  | inr _ => inl (ErrRlp nontermination)
  | inl e => inl (ErrRlp e)
  end.

Definition PayLoadWithoutSignature (m : message) : error + bytes :=
  encode (message_gval (MkMessage (m_Code m) (m_Msg m) (m_Address m) [])).

Definition GetAddressFromSignature `{Crypto} (m : message) : error + Address :=
  match PayLoadWithoutSignature m with
  | inl e => inl e
  | inr payLoad =>
      match SigToAddress (keccak256 payLoad) (m_Signature m) with
      | None => inl ErrSigToPub
      | Some a => inr a
      end
  end.

(** ** Values in their Go ranges *)
Definition is_int64b (z : Z) : bool := (- 2 ^ 63 <=? z) && (z <? 2 ^ 63).

Definition proposal_ok (p : Proposal) : bool :=
  block_ok (p_Block p) && is_int64b (p_Round p) && is_int64b (p_POLRound p).
Definition vote_ok (v : Vote) : bool := (0 <=? v_BlockNumber v) && is_int64b (v_Round v).
Definition message_ok (m : message) : bool := (0 <=? m_Code m) && (m_Code m <? 2 ^ 64).
Definition catchUpRequest_ok (m : CatchUpRequestMsg) : bool :=
  (0 <=? cr_BlockNumber m) && is_int64b (cr_Round m) && (0 <=? cr_Step m) && (cr_Step m <? 2 ^ 8).

Section forms.
Lemma is_int64b_spec z : is_int64b z = true -> is_int64 z.
Proof. unfold is_int64b, is_int64. lia. Qed.

Lemma ParseInt_Format z : is_int64b z = true -> ParseInt (FormatInt z) = Some z.
Proof. intros. by apply ParseInt_FormatInt, is_int64b_spec. Qed.

Lemma proposal_has_ty p : proposal_ok p = true -> has_ty proposal_ty (proposal_gval p) = true.
Proof.
  unfold proposal_ok. rewrite !andb_true_iff. intros [[Hb _] _].
  unfold proposal_ty, proposal_gval. rewrite has_ty_TStruct. cbn [fields_ty].
  change (has_ty (TPtr block_ty) (block_gval (p_Block p))) with (has_ty block_ty (block_gval (p_Block p))).
  by rewrite (block_has_ty _ Hb).
Qed.

Lemma vote_has_ty v : vote_ok v = true -> has_ty vote_ty (vote_gval v) = true.
Proof.
  unfold vote_ok. rewrite andb_true_iff. intros [Hn _].
  unfold vote_ty, vote_gval. rewrite has_ty_TStruct. cbn [fields_ty].
  change (has_ty (TPtr (TByteArray 32)) ?x) with (has_ty (TByteArray 32) x).
  rewrite (array_ty HashLength) by done. cbn [has_ty]. by rewrite Hn.
Qed.

Lemma message_has_ty m : message_ok m = true -> has_ty message_ty (message_gval m) = true.
Proof.
  unfold message_ok. rewrite andb_true_iff. intros [H1 H2].
  unfold message_ty, message_gval. rewrite has_ty_TStruct. cbn [fields_ty].
  rewrite (array_ty AddressLength) by done. cbn [has_ty]. by rewrite H1, H2.
Qed.

Lemma catchUpRequest_has_ty m :
  catchUpRequest_ok m = true -> has_ty catchUpRequest_ty (catchUpRequest_gval m) = true.
Proof.
  unfold catchUpRequest_ok. rewrite !andb_true_iff. intros [[[Hn _] H1] H2].
  unfold catchUpRequest_ty, catchUpRequest_gval. rewrite has_ty_TStruct. cbn [fields_ty has_ty].
  pose proof (uint64_range (cr_Round m)) as [Hr1 Hr2].
  rewrite Hn, H1, H2, (proj2 (Z.leb_le _ _) Hr1), (proj2 (Z.ltb_lt _ _) Hr2). done.
Qed.

Lemma catchUpReply_has_ty m :
  0 <= cp_BlockNumber m -> has_ty catchUpReply_ty (catchUpReply_gval m) = true.
Proof.
  intros Hn. unfold catchUpReply_ty, catchUpReply_gval. rewrite has_ty_TStruct. cbn [fields_ty has_ty].
  rewrite (proj2 (Z.leb_le _ _) Hn), andb_true_r. simpl.
  apply forallb_forall. intros v Hv%list_elem_of_In. apply list_elem_of_fmap in Hv as (b & -> & _). done.
Qed.

Lemma encode_ty t v : has_ty t v = true -> fits v -> encode v = inr (ref_encode v).
Proof. intros Ht Hf. unfold encode. by rewrite (EncodeToBytes_ty t v Ht Hf). Qed.

Lemma decode_proposal_encode p :
  proposal_ok p = true -> fits (proposal_gval p) -> decode_proposal (ref_encode (proposal_gval p)) = inr p.
Proof.
  intros Hok Hf. unfold decode_proposal. rewrite (DecodeBytes_ty _ _ (proposal_has_ty p Hok) Hf).
  unfold proposal_gval. unfold proposal_ok in Hok. rewrite !andb_true_iff in Hok. destruct Hok as [[_ Hr] Hp].
  rewrite (ParseInt_Format _ Hr), (ParseInt_Format _ Hp), block_of_gval_gval. by destruct p.
Qed.

Lemma decode_vote_encode v :
  vote_ok v = true -> fits (vote_gval v) -> decode_vote (ref_encode (vote_gval v)) = inr v.
Proof.
  intros Hok Hf. unfold decode_vote. rewrite (DecodeBytes_ty _ _ (vote_has_ty v Hok) Hf).
  unfold vote_gval. unfold vote_ok in Hok. rewrite andb_true_iff in Hok. destruct Hok as [_ Hr].
  rewrite (ParseInt_Format _ Hr). unfold BytesToHash. rewrite mk_bytesN_of. by destruct v.
Qed.

Lemma decode_message_encode m :
  message_ok m = true -> fits (message_gval m) -> decode_message (ref_encode (message_gval m)) = inr m.
Proof.
  intros Hok Hf. unfold decode_message. rewrite (DecodeBytes_ty _ _ (message_has_ty m Hok) Hf).
  unfold message_gval, BytesToAddress. rewrite mk_bytesN_of. by destruct m.
Qed.

Lemma decode_vote_round b v : decode_vote b = inr v -> is_int64 (v_Round v).
Proof.
  unfold decode_vote. destruct (DecodeBytes vote_ty b) as [e|g]; [done|]. repeat (case_match; try done).
  intros Hv. apply (inj inr) in Hv as <-. by eapply ParseInt_int64.
Qed.

(** What a message carries is shorter than its encoding. *)
Lemma length_part l v : v ∈ l -> (length (ref_encode v) < length (ref_encode (GList l)))%nat.
Proof.
  intros Hv. cbn [ref_encode]. unfold ref_list. rewrite length_app.
  pose proof (length_hd_pos KList (Z.of_nat (length (concat (ref_encode <$> l))))) as Hh.
  cbn [tags fst snd] in Hh.
  assert (length (ref_encode v) <= length (concat (ref_encode <$> l)))%nat; [|lia].
  clear Hh. induction l as [|w l IH]; [by apply not_elem_of_nil in Hv|]. csimpl. rewrite length_app.
  apply elem_of_cons in Hv as [->|Hv]; [lia|]. specialize (IH Hv). lia.
Qed.

Lemma decode_message_shorter b m : decode_message b = inr m -> (length (m_Msg m) < length b)%nat.
Proof.
  unfold decode_message. destruct (DecodeBytes message_ty b) as [e|v] eqn:E; [done|].
  apply DecodeBytesWith_exact in E; [|by apply decode_exact]. subst b.
  intros Hm. repeat case_match; try done. injection Hm as <-. cbn [m_Msg].
  match goal with |- (length ?x < length (ref_encode (GList ?l)))%nat =>
    pose proof (length_part l (GBytes x)) as Hp; pose proof (length_ref_string x) end.
  cbn [ref_encode] in Hp. specialize (Hp ltac:(rewrite !elem_of_cons; auto)). cbn [ref_encode]. lia.
Qed.

Lemma decode_catchUpReply_shorter b m p :
  decode_catchUpReply b = inr m -> p ∈ cp_Payloads m -> (length p < length b)%nat.
Proof.
  unfold decode_catchUpReply. destruct (DecodeBytes catchUpReply_ty b) as [e|v] eqn:E; [done|].
  apply DecodeBytesWith_exact in E; [|by apply decode_exact]. subst b.
  intros Hm Hp. repeat case_match; try done. simplify_eq. cbn [cp_Payloads] in Hp.
  match goal with H : mapM bytes_of_gval ?l = Some ?ps |- (_ < length (ref_encode (GList ?top)))%nat =>
    apply (mapM_gval_inv GBytes) in H as Hl; [|intros [] ?; by intros [= ->]]; subst l;
    pose proof (length_part (GBytes <$> ps) (GBytes p)
                  ltac:(by apply list_elem_of_fmap_2)) as H1
  end.
  match goal with |- (_ < length (ref_encode (GList [?a; ?b])))%nat =>
    pose proof (length_part [a; b] b ltac:(rewrite !elem_of_cons; auto)) as H2 end.
  pose proof (length_ref_string p). cbn [ref_encode] in *. lia.
Qed.
End forms.

(** ** Properties *)

(** Consensus messages survive the wire. Proposals, votes and message envelopes in
    their Go ranges are encoded without error and decode to themselves, negative rounds
    included. *)
Theorem messages_roundtrip (p : Proposal) (v : Vote) (m : message) :
  proposal_ok p = true -> vote_ok v = true -> message_ok m = true ->
  Z.of_nat (length (ref_encode (proposal_gval p))) < 2 ^ 64 ->
  Z.of_nat (length (ref_encode (vote_gval v))) < 2 ^ 64 ->
  Z.of_nat (length (ref_encode (message_gval m))) < 2 ^ 64 ->
  (exists b, encode (proposal_gval p) = inr b /\ decode_proposal b = inr p) /\
  (exists b, encode (vote_gval v) = inr b /\ decode_vote b = inr v) /\
  (exists b, encode (message_gval m) = inr b /\ decode_message b = inr m).
Proof.
  intros Hp Hv Hm Fp Fv Fm. split_and!.
  - eexists. split; [exact (encode_ty _ _ (proposal_has_ty p Hp) Fp)|by apply decode_proposal_encode].
  - eexists. split; [exact (encode_ty _ _ (vote_has_ty v Hv) Fv)|by apply decode_vote_encode].
  - eexists. split; [exact (encode_ty _ _ (message_has_ty m Hm) Fm)|by apply decode_message_encode].
Qed.

Lemma messages_roundtrip_witness :
  let p := MkProposal (MkBlock demo_header [] []) 3 (-1) in
  let v := MkVote zeroHash 7 3 [] in
  let m := MkMessage msgPrevote [] (BigToAddress 5) [] in
  (exists b, encode (proposal_gval p) = inr b /\ decode_proposal b = inr p) /\
  (exists b, encode (vote_gval v) = inr b /\ decode_vote b = inr v) /\
  (exists b, encode (message_gval m) = inr b /\ decode_message b = inr m).
Proof. apply messages_roundtrip; vm_compute; reflexivity. Defined.
