(* ===== verification/MessageSet.v ===== *)
(** * Message sets

    Models the vote accumulator of [src/consensus/tendermint/core/messages.go]: one set
    per height, round and kind of vote. The set is proved to count every validator
    once, to record a two-thirds majority exactly when a quorum voted for a block, and
    never to change it. Locks are left out. *)

From S2P Require Import Prelude Bytes RlpEncode RlpDecode RlpCanonical Types ValidatorSet Messages.

Record View : Type := MkView { vw_Round : Z; vw_BlockNumber : Z }.

Record blockVotes : Type := MkBlockVotes {
  bv_votes : list (option Vote);   (* validatorIndex -> *Vote *)
  bv_totalReceived : Z
}.

Record messageSet : Type := MkMessageSet {
  ms_view : View;
  ms_valSet : ValidatorSet;
  ms_msgCode : Z;
  ms_messages : gmap Address message;
  ms_voteByAddress : gmap Address Vote;
  ms_voteByBlock : gmap Hash blockVotes;
  ms_maj23 : option Hash;
  ms_totalReceived : Z
}.

Definition newMessageSet (valSet : ValidatorSet) (code : Z) (view : View) : messageSet :=
  MkMessageSet view valSet code ∅ ∅ ∅ None 0.

Definition VotesByAddress (ms : messageSet) : gmap Address Vote := ms_voteByAddress ms.

(** [addVoteToBlockVote]; indexing the slots out of range panics. *)
Definition addVoteToBlockVote (vote : Vote) (index : Z) : M messageSet (option error) :=
  ms ← get;
  let bvotes := default (MkBlockVotes (replicate (Z.to_nat (Size (ms_valSet ms))) None) 0)
                  (ms_voteByBlock ms !! v_BlockHash vote) in
  slot ← deref (bv_votes bvotes !! Z.to_nat index);
  match slot with
  | Some v =>
      if negb (bool_decide (Hash_Hex (v_BlockHash v) = Hash_Hex (v_BlockHash vote)))
      then mret (Some ErrConflictingVotes)
      else
        modify (fun ms => MkMessageSet (ms_view ms) (ms_valSet ms) (ms_msgCode ms) (ms_messages ms)
          (ms_voteByAddress ms)
          (<[v_BlockHash vote := MkBlockVotes (<[Z.to_nat index := Some vote]> (bv_votes bvotes))
                                   (bv_totalReceived bvotes + 1)]> (ms_voteByBlock ms))
          (ms_maj23 ms) (ms_totalReceived ms));;
        mret None
  | None =>
      modify (fun ms => MkMessageSet (ms_view ms) (ms_valSet ms) (ms_msgCode ms) (ms_messages ms)
        (ms_voteByAddress ms)
        (<[v_BlockHash vote := MkBlockVotes (<[Z.to_nat index := Some vote]> (bv_votes bvotes))
                                 (bv_totalReceived bvotes + 1)]> (ms_voteByBlock ms))
        (ms_maj23 ms) (ms_totalReceived ms));;
      mret None
  end.

(** Recording a vote and counting it: the state-changing part of [AddVote]. *)
Definition record_vote (msg : message) (vote : Vote) (ms : messageSet) : messageSet :=
  MkMessageSet (ms_view ms) (ms_valSet ms) (ms_msgCode ms)
    (<[m_Address msg := msg]> (ms_messages ms))
    (<[m_Address msg := vote]> (ms_voteByAddress ms))
    (ms_voteByBlock ms) (ms_maj23 ms) (ms_totalReceived ms + 1).

Definition set_maj23 (h : Hash) (ms : messageSet) : messageSet :=
  MkMessageSet (ms_view ms) (ms_valSet ms) (ms_msgCode ms) (ms_messages ms)
    (ms_voteByAddress ms) (ms_voteByBlock ms) (Some h) (ms_totalReceived ms).

(** The result of [AddVote]: an error, or whether the vote was added. *)
Definition AddVote (msg : message) (vote : Vote) : M messageSet (error + bool) :=
  ms ← get;
  let copyHash := HexToHash (Hash_Hex (v_BlockHash vote)) in
  if negb (ms_msgCode ms =? m_Code msg) then mret (inl ErrDifferentMsgType)
  else
    let index := (GetByAddress (ms_valSet ms) (m_Address msg)).1 in
    if index =? -1 then mret (inl ErrVoteInvalidValidatorAddress)
    else if negb (vw_BlockNumber (ms_view ms) =? v_BlockNumber vote) then mret (inl ErrVoteHeightMismatch)
    else if negb (vw_Round (ms_view ms) =? v_Round vote) then mret (inl ErrInvalidVoteForMessageSet)
    else
      match ms_messages ms !! m_Address msg with
      | Some current =>
          match decode_vote (m_Msg current) with
          | inl e => mret (inl e)
          | inr currentVote =>
              if negb (bool_decide (Hash_Hex (v_BlockHash currentVote) = Hash_Hex (v_BlockHash vote)))
              then mret (inl ErrConflictingVotes)
              else mret (inr false)
          end
      | None =>
          modify (record_vote msg vote);;
          err ← addVoteToBlockVote vote index;
          match err with
          | Some e => mret (inl e)
          | None =>
              ms ← get;
              bv ← deref (ms_voteByBlock ms !! copyHash);
              when (MinMajority (ms_valSet ms) <=? bv_totalReceived bv)
                (when (negb (bool_decide (is_Some (ms_maj23 ms)))) (modify (set_maj23 copyHash)));;
              mret (inr true)
          end
      end.

(** A nil set, as an absent map entry, has no majority. *)
Definition HasMajority (ms : option messageSet) : bool :=
  match ms with None => false | Some ms => bool_decide (is_Some (ms_maj23 ms)) end.

Definition HasTwoThirdAny (ms : option messageSet) : bool :=
  match ms with None => false | Some ms => MinMajority (ms_valSet ms) <=? ms_totalReceived ms end.

Definition TwoThirdMajority (ms : option messageSet) : option Hash :=
  match ms with
  | None => None
  | Some ms => match ms_maj23 ms with Some h => Some (HexToHash (Hash_Hex h)) | None => None end
  end.

Definition MissingVotes (ms : messageSet) : gset Address :=
  list_to_set (filter (fun val => ms_voteByAddress ms !! val = None) (vs_validators (ms_valSet ms))).

(** ** The invariant *)
Section invariant.
(** The validators that voted for [h]. *)
Definition voters (votes : gmap Address Vote) (h : Hash) : gset Address :=
  dom (filter (fun p : Address * Vote => v_BlockHash p.2 = h) votes).

Lemma elem_of_voters votes h a :
  a ∈ voters votes h <-> exists v, votes !! a = Some v /\ v_BlockHash v = h.
Proof.
  unfold voters. rewrite elem_of_dom. unfold is_Some. setoid_rewrite map_lookup_filter_Some. done.
Qed.

Lemma voters_insert votes a v h :
  votes !! a = None ->
  voters (<[a := v]> votes) h = if decide (v_BlockHash v = h) then {[a]} ∪ voters votes h else voters votes h.
Proof.
  intros Ha. unfold voters. destruct (decide (v_BlockHash v = h)) as [E|E].
  - rewrite map_filter_insert_True by done. by rewrite dom_insert_L.
  - rewrite map_filter_insert_not' by (intros; simplify_eq/=; congruence). done.
Qed.

Lemma size_voters_insert votes a v h :
  votes !! a = None ->
  Z.of_nat (size (voters (<[a := v]> votes) h))
  = Z.of_nat (size (voters votes h)) + (if decide (v_BlockHash v = h) then 1 else 0).
Proof.
  intros Ha. rewrite voters_insert by done. case_decide; [|lia].
  rewrite size_union, size_singleton; [lia|].
  apply disjoint_singleton_l. rewrite elem_of_voters. intros (v' & Hv' & _). congruence.
Qed.

(** The slots of a block: the votes for it, at the indices of their senders. *)
Definition slots_ok (vs : ValidatorSet) (votes : gmap Address Vote) (h : Hash) (sl : list (option Vote)) : Prop :=
  length sl = length (vs_validators vs) /\
  forall i v, sl !! i = Some (Some v) <->
    exists a, GetByAddress vs a = (Z.of_nat i, Some a) /\ votes !! a = Some v /\ v_BlockHash v = h.

(** Projections of updated sets. *)
Ltac ms_cbn :=
  unfold record_vote, set_maj23, newMessageSet;
  cbn [ms_view ms_valSet ms_msgCode ms_messages ms_voteByAddress ms_voteByBlock ms_maj23 ms_totalReceived
       bv_votes bv_totalReceived].

Record ms_inv (ms : messageSet) : Prop := {
  inv_vote : forall a v, ms_voteByAddress ms !! a = Some v ->
    a ∈ vs_validators (ms_valSet ms) /\
    v_Round v = vw_Round (ms_view ms) /\ v_BlockNumber v = vw_BlockNumber (ms_view ms) /\
    exists m, ms_messages ms !! a = Some m /\ m_Code m = ms_msgCode ms /\ decode_vote (m_Msg m) = inr v;
  inv_dom : forall a, ms_messages ms !! a = None <-> ms_voteByAddress ms !! a = None;
  inv_total : ms_totalReceived ms = Z.of_nat (size (ms_voteByAddress ms));
  inv_block : forall h bv, ms_voteByBlock ms !! h = Some bv ->
    slots_ok (ms_valSet ms) (ms_voteByAddress ms) h (bv_votes bv) /\
    bv_totalReceived bv = Z.of_nat (size (voters (ms_voteByAddress ms) h));
  inv_noblock : forall h, ms_voteByBlock ms !! h = None -> voters (ms_voteByAddress ms) h = ∅;
  inv_maj : forall h, ms_maj23 ms = Some h ->
    MinMajority (ms_valSet ms) <= Z.of_nat (size (voters (ms_voteByAddress ms) h));
  inv_nomaj : ms_maj23 ms = None -> 1 <= MinMajority (ms_valSet ms) -> forall h,
    Z.of_nat (size (voters (ms_voteByAddress ms) h)) < MinMajority (ms_valSet ms)
}.

Lemma voters_empty h : voters ∅ h = ∅.
Proof. unfold voters. by rewrite map_filter_empty, dom_empty_L. Qed.

Lemma newMessageSet_inv vs code view : ms_inv (newMessageSet vs code view).
Proof.
  constructor; ms_cbn.
  - intros a v Hv. by rewrite lookup_empty in Hv.
  - intros a. by rewrite !lookup_empty.
  - by rewrite map_size_empty.
  - intros h bv Hv. by rewrite lookup_empty in Hv.
  - intros h _. apply voters_empty.
  - done.
  - intros _ Hm h. rewrite voters_empty, size_empty. lia.
Qed.

Lemma slots_ok_empty vs votes h :
  voters votes h = ∅ -> slots_ok vs votes h (replicate (length (vs_validators vs)) None).
Proof.
  intros Hv. split; [by rewrite length_replicate|]. intros i v. split.
  - intros [Hs _]%lookup_replicate. done.
  - intros (a & _ & Ha & Hh). assert (a ∈ voters votes h) as Hin by (apply elem_of_voters; eauto).
    rewrite Hv in Hin. by apply elem_of_empty in Hin.
Qed.

Lemma slots_ok_insert vs votes h sl a v i :
  slots_ok vs votes h sl -> votes !! a = None -> GetByAddress vs a = (Z.of_nat i, Some a) ->
  v_BlockHash v = h -> slots_ok vs (<[a := v]> votes) h (<[i := Some v]> sl).
Proof.
  intros [Hl Hs] Ha Hi Hh.
  pose proof (GetByAddress_index _ _ _ Hi) as [Hb _]. unfold Size in Hb.
  split; [by rewrite length_insert|]. intros j w. destruct (decide (j = i)) as [->|Hne].
  - rewrite list_lookup_insert_eq by lia. split.
    + intros [= <-]. exists a. rewrite lookup_insert_eq. done.
    + intros (b & Hb' & Hvb & Hwb). assert (b = a) as -> by (by eapply GetByAddress_inj).
      rewrite lookup_insert_eq in Hvb. congruence.
  - rewrite list_lookup_insert_ne by done. rewrite Hs. split; intros (b & Hb' & Hvb & Hwb);
      exists b; (destruct (decide (b = a)) as [->|Hba]; [exfalso|]).
    + congruence.
    + by rewrite lookup_insert_ne.
    + rewrite Hi in Hb'. injection Hb' as Hb'. lia.
    + by rewrite lookup_insert_ne in Hvb.
Qed.

(** A vote for another block leaves the slots as they are. *)
Lemma slots_ok_other vs votes h sl a v :
  slots_ok vs votes h sl -> votes !! a = None -> v_BlockHash v <> h ->
  slots_ok vs (<[a := v]> votes) h sl.
Proof.
  intros [Hl Hs] Ha Hh. split; [done|]. intros j w. rewrite Hs. split; intros (b & Hb & Hvb & Hwb);
    exists b; (destruct (decide (b = a)) as [->|Hba]; [exfalso|]).
  - congruence.
  - by rewrite lookup_insert_ne.
  - rewrite lookup_insert_eq in Hvb. congruence.
  - by rewrite lookup_insert_ne in Hvb.
Qed.

Lemma slot_free vs votes h sl a i :
  slots_ok vs votes h sl -> votes !! a = None -> GetByAddress vs a = (Z.of_nat i, Some a) ->
  sl !! i = Some None.
Proof.
  intros [Hl Hs] Ha Hi. pose proof (GetByAddress_index _ _ _ Hi) as [Hb _]. unfold Size in Hb.
  destruct (lookup_lt_is_Some_2 sl i) as [[v|] Hv]; [lia| |done].
  apply Hs in Hv as (b & Hb' & Hvb & _). assert (b = a) as -> by (by eapply GetByAddress_inj). congruence.
Qed.

Definition block_of (ms : messageSet) (h : Hash) : blockVotes :=
  default (MkBlockVotes (replicate (Z.to_nat (Size (ms_valSet ms))) None) 0) (ms_voteByBlock ms !! h).

Lemma block_of_ok ms h :
  ms_inv ms ->
  slots_ok (ms_valSet ms) (ms_voteByAddress ms) h (bv_votes (block_of ms h)) /\
  bv_totalReceived (block_of ms h) = Z.of_nat (size (voters (ms_voteByAddress ms) h)).
Proof.
  intros Hinv. unfold block_of. destruct (ms_voteByBlock ms !! h) as [bv|] eqn:E; simpl.
  - by apply (inv_block ms Hinv).
  - rewrite (inv_noblock ms Hinv h E), size_empty. split; [|done].
    unfold Size. rewrite Nat2Z.id. by apply slots_ok_empty, (inv_noblock ms Hinv).
Qed.

(** The state after a new vote. *)
Definition added (msg : message) (vote : Vote) (i : nat) (ms : messageSet) : messageSet :=
  let h := v_BlockHash vote in
  let bv := block_of ms h in
  MkMessageSet (ms_view ms) (ms_valSet ms) (ms_msgCode ms)
    (<[m_Address msg := msg]> (ms_messages ms)) (<[m_Address msg := vote]> (ms_voteByAddress ms))
    (<[h := MkBlockVotes (<[i := Some vote]> (bv_votes bv)) (bv_totalReceived bv + 1)]> (ms_voteByBlock ms))
    (match ms_maj23 ms with
     | Some h' => Some h'
     | None => if MinMajority (ms_valSet ms) <=? bv_totalReceived bv + 1 then Some h else None
     end)
    (ms_totalReceived ms + 1).

(** A vote is acceptable when its kind, height and round are the set's and its sender
    is a validator. *)
Definition acceptable (ms : messageSet) (msg : message) (vote : Vote) : Prop :=
  m_Code msg = ms_msgCode ms /\ m_Address msg ∈ vs_validators (ms_valSet ms) /\
  v_BlockNumber vote = vw_BlockNumber (ms_view ms) /\ v_Round vote = vw_Round (ms_view ms).

Lemma AddVote_new ms msg vote :
  ms_inv ms -> acceptable ms msg vote -> ms_voteByAddress ms !! m_Address msg = None ->
  exists i, GetByAddress (ms_valSet ms) (m_Address msg) = (Z.of_nat i, Some (m_Address msg)) /\
    AddVote msg vote ms = Ok (inr true, added msg vote i ms).
Proof.
  intros Hinv (Hc & Hin & Hn & Hr) Hfresh.
  destruct (GetByAddress_in _ _ Hin) as (iz & Hi & Hb & _). exists (Z.to_nat iz).
  rewrite Z2Nat.id by lia. split; [done|].
  destruct (block_of_ok ms (v_BlockHash vote) Hinv) as [Hslots Htot].
  assert (Hslot : bv_votes (block_of ms (v_BlockHash vote)) !! Z.to_nat iz = Some None).
  { eapply slot_free; [done|done|]. by rewrite Z2Nat.id by lia. }
  unfold AddVote. run. rewrite Hi, Hc, Hn, Hr, !Z.eqb_refl. cbn [negb fst].
  rewrite (proj2 (Z.eqb_neq iz (-1))) by lia. rewrite (proj2 (inv_dom ms Hinv _) Hfresh).
  unfold addVoteToBlockVote. run.
  ms_cbn.
  fold (block_of ms (v_BlockHash vote)). rewrite Hslot. cbn [deref]. run.
  ms_cbn.
  rewrite HexToHash_Hex, lookup_insert_eq. cbn [deref bv_totalReceived]. run. ms_cbn. unfold added.
  destruct (MinMajority (ms_valSet ms) <=? _); [|by destruct (ms_maj23 ms)].
  by destruct (ms_maj23 ms).
Qed.

Lemma AddVote_duplicate ms msg vote cur :
  ms_inv ms -> acceptable ms msg vote -> ms_voteByAddress ms !! m_Address msg = Some cur ->
  AddVote msg vote ms
  = Ok (if bool_decide (v_BlockHash cur = v_BlockHash vote) then inr false else inl ErrConflictingVotes, ms).
Proof.
  intros Hinv (Hc & Hin & Hn & Hr) Hcur.
  destruct (GetByAddress_in _ _ Hin) as (iz & Hi & Hb & _).
  destruct (inv_vote ms Hinv _ _ Hcur) as (_ & _ & _ & m & Hm & _ & Hd).
  unfold AddVote. run. rewrite Hi, Hc, Hn, Hr, !Z.eqb_refl. cbn [negb fst].
  rewrite (proj2 (Z.eqb_neq iz (-1))) by lia. rewrite Hm, Hd.
  rewrite (bool_decide_ext (Hash_Hex (v_BlockHash cur) = _) (v_BlockHash cur = v_BlockHash vote))
    by (split; [apply (inj Hash_Hex)|by intros ->]).
  by case_bool_decide.
Qed.

Lemma AddVote_rejected ms msg vote :
  ~ acceptable ms msg vote -> exists e, AddVote msg vote ms = Ok (inl e, ms).
Proof.
  intros Hna. unfold AddVote. run.
  destruct (ms_msgCode ms =? m_Code msg) eqn:Hc; cbn; [|eauto].
  destruct ((GetByAddress (ms_valSet ms) (m_Address msg)).1 =? -1) eqn:Hi; [by eauto|].
  destruct (vw_BlockNumber (ms_view ms) =? v_BlockNumber vote) eqn:Hn; cbn; [|eauto].
  destruct (vw_Round (ms_view ms) =? v_Round vote) eqn:Hr; cbn; [|eauto].
  exfalso. apply Hna. apply Z.eqb_neq in Hi. rewrite GetByAddress_minus1 in Hi.
  apply Z.eqb_eq in Hc, Hn, Hr. split_and!; [done| |done|done].
  destruct (decide (m_Address msg ∈ vs_validators (ms_valSet ms))); tauto.
Qed.

Lemma added_inv ms msg vote i :
  ms_inv ms -> acceptable ms msg vote -> decode_vote (m_Msg msg) = inr vote ->
  ms_voteByAddress ms !! m_Address msg = None ->
  GetByAddress (ms_valSet ms) (m_Address msg) = (Z.of_nat i, Some (m_Address msg)) ->
  ms_inv (added msg vote i ms).
Proof.
  intros Hinv (Hc & Hin & Hn & Hr) Hd Hfresh Hi.
  destruct (block_of_ok ms (v_BlockHash vote) Hinv) as [Hslots Htot].
  constructor; unfold added; ms_cbn.
  - intros a v. rewrite lookup_insert_Some. intros [[<- <-]|[Hne Hv]].
    + split_and!; [done..|]. exists msg. by rewrite lookup_insert_eq.
    + destruct (inv_vote ms Hinv a v Hv) as (? & ? & ? & m & ? & ? & ?). split_and!; [done..|].
      exists m. by rewrite lookup_insert_ne.
  - intros a. rewrite !lookup_insert_None, (inv_dom ms Hinv). done.
  - rewrite map_size_insert_None, (inv_total ms Hinv) by done. lia.
  - intros h bv. rewrite lookup_insert_Some. intros [[<- <-]|[Hne Hbv]]; cbn [bv_votes bv_totalReceived].
    + split; [by apply slots_ok_insert|]. rewrite size_voters_insert, Htot by done.
      by rewrite decide_True by done.
    + destruct (inv_block ms Hinv h bv Hbv) as [Hs Ht]. split; [by apply slots_ok_other|].
      rewrite size_voters_insert, decide_False by done. lia.
  - intros h. rewrite lookup_insert_None. intros [Hb Hne].
    rewrite voters_insert, decide_False by done. by apply (inv_noblock ms Hinv).
  - intros h. destruct (ms_maj23 ms) as [h'|] eqn:Em.
    + intros [= <-]. pose proof (inv_maj ms Hinv h' Em). rewrite size_voters_insert by done. case_decide; lia.
    + destruct (MinMajority (ms_valSet ms) <=? _) eqn:El; [|done]. intros [= <-].
      apply Z.leb_le in El. rewrite size_voters_insert, decide_True by done. lia.
  - destruct (ms_maj23 ms) as [h'|] eqn:Em; [done|].
    destruct (MinMajority (ms_valSet ms) <=? _) eqn:El; [done|]. intros _ Hm h.
    apply Z.leb_gt in El. pose proof (inv_nomaj ms Hinv Em Hm h).
    rewrite size_voters_insert by done. case_decide; subst; lia.
Qed.

(** One call of [AddVote], by cases. *)
Lemma AddVote_cases ms msg vote :
  ms_inv ms -> decode_vote (m_Msg msg) = inr vote ->
  exists r ms', AddVote msg vote ms = Ok (r, ms') /\ ms_inv ms' /\
    ((acceptable ms msg vote /\ r = inr true /\ ms_voteByAddress ms !! m_Address msg = None /\
      exists i, ms' = added msg vote i ms)
     \/ (acceptable ms msg vote /\ ms' = ms /\ exists cur, ms_voteByAddress ms !! m_Address msg = Some cur /\
      r = if bool_decide (v_BlockHash cur = v_BlockHash vote) then inr false else inl ErrConflictingVotes)
     \/ (~ acceptable ms msg vote /\ ms' = ms /\ exists e, r = inl e)).
Proof.
  intros Hinv Hd.
  assert (Hdec : acceptable ms msg vote \/ ~ acceptable ms msg vote).
  { destruct (decide (acceptable ms msg vote)); tauto. }
  destruct Hdec as [Hacc|Hna].
  - destruct (ms_voteByAddress ms !! m_Address msg) as [cur|] eqn:E.
    + eexists _, ms. split; [by apply AddVote_duplicate|]. split; [done|]. right. left. eauto.
    + destruct (AddVote_new ms msg vote Hinv Hacc E) as (i & Hi & Hadd).
      eexists _, _. split; [exact Hadd|]. split; [by apply added_inv|]. left. eauto.
  - destruct (AddVote_rejected ms msg vote Hna) as [e He].
    eexists _, ms. split; [exact He|]. split; [done|]. right. right. eauto.
Qed.

(** How a set evolves: votes are only added and a majority stays. *)
Record ms_grows (ms ms' : messageSet) : Prop := {
  grow_view : ms_view ms' = ms_view ms;
  grow_valSet : ms_valSet ms' = ms_valSet ms;
  grow_code : ms_msgCode ms' = ms_msgCode ms;
  grow_votes : ms_voteByAddress ms ⊆ ms_voteByAddress ms';
  grow_messages : ms_messages ms ⊆ ms_messages ms';
  grow_maj : forall h, ms_maj23 ms = Some h -> ms_maj23 ms' = Some h
}.

#[export] Instance ms_grows_preorder : PreOrder ms_grows.
Proof.
  split.
  - intros ms. by constructor.
  - intros a b c [] []. constructor; try congruence; [by etrans|by etrans|eauto].
Qed.

Lemma added_grows ms msg vote i :
  ms_inv ms -> ms_voteByAddress ms !! m_Address msg = None -> ms_grows ms (added msg vote i ms).
Proof.
  intros Hinv Hf. unfold added. constructor; ms_cbn; try done.
  - by apply insert_subseteq.
  - by apply insert_subseteq, (inv_dom ms Hinv).
  - by intros h ->.
Qed.

Lemma AddVote_grows ms msg vote r ms' :
  ms_inv ms -> decode_vote (m_Msg msg) = inr vote -> AddVote msg vote ms = Ok (r, ms') ->
  ms_inv ms' /\ ms_grows ms ms'.
Proof.
  intros Hinv Hd Ha.
  destruct (AddVote_cases ms msg vote Hinv Hd) as (r0 & ms0 & E & Hinv' & Hcases).
  rewrite E in Ha. apply Ok_pair in Ha as [<- <-]. split; [done|].
  destruct Hcases as [(_ & _ & Hf & i & ->)|[(_ & -> & _)|(_ & -> & _)]]; [by apply added_grows|done|done].
Qed.

(** Two quorums of one set share a voter, who voted once. *)
Lemma majority_unique ms h h' :
  ms_inv ms -> NoDup (vs_validators (ms_valSet ms)) -> 0 < Size (ms_valSet ms) ->
  MinMajority (ms_valSet ms) <= Z.of_nat (size (voters (ms_voteByAddress ms) h)) ->
  MinMajority (ms_valSet ms) <= Z.of_nat (size (voters (ms_voteByAddress ms) h')) -> h = h'.
Proof.
  intros Hinv Hnd Hs Hh Hh'.
  assert (Hsub : forall x, voters (ms_voteByAddress ms) x ⊆ list_to_set (vs_validators (ms_valSet ms))).
  { intros x a (v & Hv & _)%elem_of_voters. apply elem_of_list_to_set. by apply (inv_vote ms Hinv a v). }
  pose proof (size_intersection _ _ _ Hnd (Hsub h) (Hsub h')) as Hi.
  pose proof (MinMajority_bound (ms_valSet ms) Hs) as Hq. unfold Size in Hq.
  destruct (decide (voters (ms_voteByAddress ms) h ∩ voters (ms_voteByAddress ms) h' = ∅)) as [E|E].
  { rewrite E, size_empty in Hi. lia. }
  apply set_choose_L in E as [a [(v & Hv & <-)%elem_of_voters (v' & Hv' & <-)%elem_of_voters]%elem_of_intersection].
  congruence.
Qed.

Lemma maj23_iff ms h :
  ms_inv ms -> NoDup (vs_validators (ms_valSet ms)) -> 0 < Size (ms_valSet ms) ->
  ms_maj23 ms = Some h <->
  MinMajority (ms_valSet ms) <= Z.of_nat (size (voters (ms_voteByAddress ms) h)).
Proof.
  intros Hinv Hnd Hs. split; [apply (inv_maj ms Hinv)|]. intros Hh.
  pose proof (MinMajority_bound (ms_valSet ms) Hs) as Hq.
  destruct (ms_maj23 ms) as [h'|] eqn:E.
  - f_equal. eapply majority_unique; [done..| |done]. by apply (inv_maj ms Hinv).
  - pose proof (inv_nomaj ms Hinv E ltac:(lia) h). lia.
Qed.

(** A run of [AddVote] over a list of messages. *)
Fixpoint AddVotes (l : list (message * Vote)) : M messageSet (list (error + bool)) :=
  match l with
  | [] => mret []
  | (msg, vote) :: r => b ← AddVote msg vote; bs ← AddVotes r; mret (b :: bs)
  end.

Definition decoded (p : message * Vote) : Prop := decode_vote (m_Msg p.1) = inr p.2.

Lemma AddVotes_total l : forall ms, ms_inv ms -> Forall decoded l ->
  exists rs ms', AddVotes l ms = Ok (rs, ms') /\ ms_inv ms' /\ ms_grows ms ms' /\ length rs = length l.
Proof.
  induction l as [|[msg vote] l IH]; intros ms Hinv Hl; [by exists [], ms|].
  inversion Hl as [|? ? Hd Hl']; subst.
  destruct (AddVote_cases ms msg vote Hinv Hd) as (r & ms1 & E & Hinv1 & _).
  destruct (AddVote_grows ms msg vote r ms1 Hinv Hd E) as [_ Hg].
  destruct (IH ms1 Hinv1 Hl') as (rs & ms2 & E2 & Hinv2 & Hg2 & Hlen).
  exists (r :: rs), ms2. cbn [AddVotes]. run. rewrite E, E2. split_and!; [done|done|by etrans|simpl; lia].
Qed.
End invariant.

(** Counting votes is sound. On a well-formed set, a vote that matches the set's
    kind, height and round and comes from a validator without an earlier vote is
    recorded; a second vote of the same validator is ignored when it is for the same
    block and reported as conflicting otherwise; every other vote is refused. Only the
    first case changes the set, no case panics, and the set stays well-formed. *)
Theorem AddVote_spec (ms : messageSet) (msg : message) (vote : Vote) :
  ms_inv ms -> decode_vote (m_Msg msg) = inr vote ->
  exists r ms', AddVote msg vote ms = Ok (r, ms') /\ ms_inv ms' /\
    match r with
    | inr true => acceptable ms msg vote /\ ms_voteByAddress ms !! m_Address msg = None /\
        ms_voteByAddress ms' = <[m_Address msg := vote]> (ms_voteByAddress ms)
    | inr false => acceptable ms msg vote /\ ms' = ms /\
        exists cur, ms_voteByAddress ms !! m_Address msg = Some cur /\ v_BlockHash cur = v_BlockHash vote
    | inl e => ms' = ms /\ (acceptable ms msg vote -> e = ErrConflictingVotes /\
        exists cur, ms_voteByAddress ms !! m_Address msg = Some cur /\ v_BlockHash cur <> v_BlockHash vote)
    end.
Proof.
  intros Hinv Hd. destruct (AddVote_cases ms msg vote Hinv Hd) as (r & ms' & E & Hinv' & Hc).
  exists r, ms'. split; [done|]. split; [done|].
  destruct Hc as [(Ha & -> & Hf & i & ->)|[(Ha & -> & cur & Hcur & ->)|(Hna & -> & e & ->)]];
    [done| |by split].
  case_bool_decide; [by eauto|]. split; [done|]. eauto.
Qed.

(** A message set counts quorums. Whatever votes are added to a new set over a
    validator set without repetitions, no addition panics; a two-thirds majority is
    reported for a block exactly when a quorum of distinct validators voted for it, so
    for at most one block, and it is kept as more votes come; [HasTwoThirdAny] tells
    whether a quorum voted at all and [MissingVotes] who did not. *)
Theorem AddVotes_majority (vs : ValidatorSet) (code : Z) (view : View) (l l' : list (message * Vote)) :
  NoDup (vs_validators vs) -> 0 < Size vs -> Forall decoded (l ++ l') ->
  exists rs ms rs' ms', AddVotes l (newMessageSet vs code view) = Ok (rs, ms) /\ AddVotes l' ms = Ok (rs', ms') /\
    (forall h, TwoThirdMajority (Some ms) = Some h <->
       MinMajority vs <= Z.of_nat (size (voters (VotesByAddress ms) h))) /\
    (forall h, TwoThirdMajority (Some ms) = Some h -> TwoThirdMajority (Some ms') = Some h) /\
    HasMajority (Some ms) = bool_decide (is_Some (TwoThirdMajority (Some ms))) /\
    HasTwoThirdAny (Some ms) = (MinMajority vs <=? Z.of_nat (size (VotesByAddress ms))) /\
    MissingVotes ms = list_to_set (vs_validators vs) ∖ dom (VotesByAddress ms).
Proof.
  intros Hnd Hs [Hl Hl']%Forall_app.
  destruct (AddVotes_total l _ (newMessageSet_inv vs code view) Hl) as (rs & ms & E & Hinv & Hg & _).
  destruct (AddVotes_total l' ms Hinv Hl') as (rs' & ms' & E' & Hinv' & Hg' & _).
  exists rs, ms, rs', ms'. pose proof (grow_valSet _ _ Hg) as Hvs. cbn in Hvs.
  assert (Hmaj : forall m, TwoThirdMajority (Some m) = ms_maj23 m).
  { intros m. unfold TwoThirdMajority. destruct (ms_maj23 m); [by rewrite HexToHash_Hex|done]. }
  split_and!; [done|done| | | | |].
  - intros h. rewrite Hmaj, <- Hvs. apply maj23_iff; by rewrite ?Hvs.
  - intros h. rewrite !Hmaj. apply (grow_maj _ _ Hg').
  - by rewrite Hmaj.
  - unfold HasTwoThirdAny, VotesByAddress. by rewrite (inv_total ms Hinv), Hvs.
  - unfold MissingVotes, VotesByAddress. rewrite Hvs. apply set_eq. intros a.
    rewrite elem_of_list_to_set, list_elem_of_filter, elem_of_difference, elem_of_list_to_set, not_elem_of_dom. tauto.
Qed.

(** ** Witnesses *)
Definition demo_prevote (a h : Z) : message * Vote :=
  let v := MkVote (BytesToHash (BigBytes h)) 7 3 [] in
  (MkMessage msgPrevote (ref_encode (vote_gval v)) (BigToAddress a) [], v).

Definition demo_votes : list (message * Vote) :=
  [demo_prevote 11 9; demo_prevote 12 8; demo_prevote 13 9; demo_prevote 12 9; demo_prevote 14 9].

Lemma AddVote_spec_witness :
  exists r ms', AddVote (demo_prevote 11 9).1 (demo_prevote 11 9).2 (newMessageSet demo_set msgPrevote (MkView 3 7))
    = Ok (r, ms') /\ ms_inv ms' /\ r = inr true.
Proof.
  destruct (AddVote_spec (newMessageSet demo_set msgPrevote (MkView 3 7)) (demo_prevote 11 9).1 (demo_prevote 11 9).2
              (newMessageSet_inv _ _ _) ltac:(vm_compute; reflexivity)) as (r & ms' & E & Hinv & _).
  exists r, ms'. split; [exact E|]. split; [exact Hinv|].
  apply (f_equal (fun x => match x with Ok (r, _) => r | _ => inr true end)) in E. rewrite <- E. vm_compute. reflexivity.
Defined.

Lemma AddVotes_majority_witness :
  exists rs ms, AddVotes demo_votes (newMessageSet demo_set msgPrevote (MkView 3 7)) = Ok (rs, ms) /\
    rs = [inr true; inr true; inr true; inl ErrConflictingVotes; inr true] /\
    MinMajority demo_set <= Z.of_nat (size (voters (VotesByAddress ms) (BytesToHash (BigBytes 9)))).
Proof.
  destruct (AddVotes_majority demo_set msgPrevote (MkView 3 7) demo_votes [])
    as (rs & ms & rs' & ms' & E & _ & Hiff & _).
  - apply (bool_decide_unpack _). vm_compute. exact I.
  - vm_compute. reflexivity.
  - repeat constructor; vm_compute; reflexivity.
  - exists rs, ms. split; [exact E|].
    assert (H : match AddVotes demo_votes (newMessageSet demo_set msgPrevote (MkView 3 7)) with
      | Ok (rs, ms) => (rs, TwoThirdMajority (Some ms))
      | _ => ([], None) end =
      ([inr true; inr true; inr true; inl ErrConflictingVotes; inr true], Some (BytesToHash (BigBytes 9))))
      by (vm_compute; reflexivity).
    rewrite E in H. injection H as -> Hm. split; [reflexivity|]. apply Hiff. exact Hm.
Defined.
