(* ===== verification/MsgStorage.v ===== *)
(** * Stored messages

    Models [src/consensus/tendermint/core/sentMsgStorage.go]: the messages a node sent
    for the current height, kept so that a peer that fell behind can ask for them.
    The mutex is left out. *)

From S2P Require Import Prelude Bytes Messages.

Record MsgStorageData : Type := MkStored {
  md_Step : Z;
  md_Round : Z;
  md_Data : bytes
}.

Definition msgStorage : Type := list MsgStorageData.

Definition NewMsgStorage : msgStorage := [].

(** [storeSentMsg]; an empty payload panics. *)
Definition storeSentMsg (c : msgStorage) (step round : Z) (msgData : bytes) : res msgStorage :=
  if bool_decide (msgData = []) then Panic
  else
    match last c with
    | Some lastData =>
        if (round <? md_Round lastData) || ((md_Round lastData =? round) && (step <? md_Step lastData))
        then Ok c
        else Ok (c ++ [MkStored step round msgData])
    | None => Ok (c ++ [MkStored step round msgData])
    end.

Fixpoint lookup_from (c : msgStorage) (step round : Z) (i : Z) : Z :=
  match c with
  | [] => -1
  | element :: r =>
      if round <? md_Round element then i
      else if (md_Round element =? round) && (step <=? md_Step element) then i
      else lookup_from r step round (i + 1)
  end.

Definition lookup_msg (c : msgStorage) (step round : Z) : Z := lookup_from c step round 0.

(** [get]: [None] is [io.EOF]. *)
Definition get_msg (c : msgStorage) (index : Z) : option bytes :=
  if (Z.of_nat (length c) <=? index) || (index <? 0) then None
  else md_Data <$> c !! Z.to_nat index.

Definition truncateMsgStored (c : msgStorage) : msgStorage := [].

(** ** Order *)

(** A message is not before position [(round, step)]. *)
Definition not_before (round step : Z) (d : MsgStorageData) : Prop :=
  round < md_Round d \/ (md_Round d = round /\ step <= md_Step d).

#[export] Instance not_before_dec round step d : Decision (not_before round step d).
Proof. unfold not_before. apply _. Defined.

Definition stored_le (a b : MsgStorageData) : Prop := not_before (md_Round a) (md_Step a) b.

#[export] Instance stored_le_preorder : PreOrder stored_le.
Proof.
  split; unfold stored_le, not_before.
  - intros a. lia.
  - intros a b c. lia.
Qed.

(** Messages are stored in the order they were sent. *)
Definition storage_ok (c : msgStorage) : Prop := StronglySorted stored_le c.

Lemma StronglySorted_last {A} (R : A -> A -> Prop) `{!PreOrder R} l x :
  StronglySorted R l -> last l = Some x -> Forall (fun y => R y x) l.
Proof.
  induction l as [|y l IH]; intros Hs Hl; [done|]. inversion Hs as [|? ? Hs' Hf]; subst.
  destruct l as [|z l].
  - simpl in Hl. injection Hl as <-. by repeat constructor.
  - rewrite last_cons_cons in Hl. constructor; [|by apply IH].
    rewrite Forall_forall in Hf. apply Hf. apply last_Some in Hl as [l' ->]. set_solver.
Qed.

Lemma storeSentMsg_cases c step round data :
  storage_ok c -> data <> [] ->
  exists c', storeSentMsg c step round data = Ok c' /\ storage_ok c' /\
    (c' = c ++ [MkStored step round data] \/ c' = c).
Proof.
  intros Hok Hd. unfold storeSentMsg. rewrite bool_decide_eq_false_2 by done.
  destruct (last c) as [l|] eqn:El.
  - destruct (_ || _) eqn:E; [by eauto|]. eexists. split; [done|]. split; [|by left].
    apply StronglySorted_snoc; [done|]. pose proof (StronglySorted_last _ _ _ Hok El) as Hf.
    eapply Forall_impl; [exact Hf|]. intros y Hy. etrans; [exact Hy|].
    unfold stored_le, not_before. simpl. lia.
  - apply last_None in El as ->. eexists. split; [done|]. split; [|by left]. by repeat constructor.
Qed.

(** The linear search returns the least index of a message not before the position. *)
Lemma lookup_from_spec c step round i :
  (lookup_from c step round i = -1 /\ Forall (fun d => ~ not_before round step d) c) \/
  exists k d, lookup_from c step round i = i + Z.of_nat k /\ c !! k = Some d /\ not_before round step d /\
    Forall (fun d => ~ not_before round step d) (take k c).
Proof.
  revert i. induction c as [|e c IH]; intros i; cbn [lookup_from]; [by left|].
  destruct (round <? md_Round e) eqn:E1.
  { right. exists 0%nat, e. split_and!; [lia|done| |constructor]. left. lia. }
  destruct ((md_Round e =? round) && (step <=? md_Step e)) eqn:E2.
  { right. exists 0%nat, e. split_and!; [lia|done| |constructor]. right. lia. }
  assert (Hn : ~ not_before round step e) by (unfold not_before; lia).
  destruct (IH (i + 1)) as [[H1 H2]|(k & d & H1 & H2 & H3 & H4)].
  - left. split; [done|]. by constructor.
  - right. exists (S k), d. split_and!; [lia|done|done|]. by constructor.
Qed.

Lemma sorted_from {c k d} :
  storage_ok c -> c !! k = Some d -> Forall (stored_le d) (drop k c).
Proof.
  revert k. induction c as [|e c IH]; intros k Hs Hk; [done|].
  inversion Hs as [|? ? Hs' Hf]; subst. destruct k as [|k]; [|by apply (IH k)].
  injection Hk as <-. rewrite drop_0. by constructor.
Qed.

(** The stored messages can be replayed from any point. After storing any
    non-empty payloads the storage is sorted by round and step; looking a position up
    gives -1 when every stored message is before it, and otherwise the index from which
    on all messages are not before it and before which all are; [get] reads exactly the
    indices of the storage. *)
Theorem lookup_msg_spec (c : msgStorage) (ops : list (Z * Z * bytes)) (step round : Z) :
  storage_ok c -> Forall (fun op => op.2 <> []) ops ->
  exists c', foldl (fun acc op => match acc with Ok c => storeSentMsg c op.1.1 op.1.2 op.2 | e => e end) (Ok c) ops = Ok c' /\
    storage_ok c' /\
    let i := lookup_msg c' step round in
    (forall k d, c' !! k = Some d -> get_msg c' (Z.of_nat k) = Some (md_Data d)) /\
    (get_msg c' i = None -> i = -1 /\ Forall (fun d => ~ not_before round step d) c') /\
    (get_msg c' i <> None -> 0 <= i /\
       forall k d, c' !! k = Some d -> not_before round step d <-> i <= Z.of_nat k).
Proof.
  revert c. induction ops as [|[[s r] data] ops IH]; intros c Hok Hops.
  - exists c. split; [done|]. split; [done|]. cbv zeta.
    assert (Hget : forall k d, c !! k = Some d -> get_msg c (Z.of_nat k) = Some (md_Data d)).
    { intros k d Hk. unfold get_msg. apply lookup_lt_Some in Hk as Hl.
      destruct (_ || _) eqn:E; [lia|]. by rewrite Nat2Z.id, Hk. }
    split; [done|]. unfold lookup_msg.
    destruct (lookup_from_spec c step round 0) as [[-> Hall]|(k & d & -> & Hk & Hnb & Hbefore)].
    + split; [done|]. unfold get_msg. rewrite orb_true_r. done.
    + rewrite Z.add_0_l, (Hget k d Hk). split; [done|]. intros _. split; [lia|]. intros j e Hj. split.
      * intros Hn. apply Nat2Z.inj_le. destruct (decide (k <= j)%nat); [done|]. exfalso.
        rewrite Forall_forall in Hbefore. apply (Hbefore e); [|done].
        apply list_elem_of_lookup_2 with j. rewrite lookup_take_lt by lia. done.
      * intros Hle. pose proof (sorted_from Hok Hk) as Hf. rewrite Forall_forall in Hf.
        assert (Hde : stored_le d e).
        { apply Hf. apply list_elem_of_lookup_2 with (j - k)%nat. rewrite lookup_drop. rewrite <- Hj. f_equal. lia. }
        unfold stored_le, not_before in *. lia.
  - inversion Hops as [|? ? Hd Hops']; subst. simpl in Hd.
    destruct (storeSentMsg_cases c s r data Hok Hd) as (c1 & E & Hok1 & _).
    cbn [foldl fst snd]. rewrite E. by apply IH.
Qed.

Lemma lookup_msg_spec_witness :
  let c := [MkStored RoundStepPropose 0 [byte_of_Z 1]; MkStored RoundStepPrevote 0 [byte_of_Z 2];
            MkStored RoundStepPrecommit 0 [byte_of_Z 3]; MkStored RoundStepPrevote 1 [byte_of_Z 4]] in
  lookup_msg c RoundStepPrecommit 0 = 2 /\
  (forall k d, c !! k = Some d -> not_before 0 RoundStepPrecommit d <-> 2 <= Z.of_nat k).
Proof.
  intros c.
  destruct (lookup_msg_spec [] [(RoundStepPropose, 0, [byte_of_Z 1]); (RoundStepPrevote, 0, [byte_of_Z 2]);
    (RoundStepPrecommit, 0, [byte_of_Z 3]); (RoundStepPrevote, 1, [byte_of_Z 4])] RoundStepPrecommit 0)
    as (c' & E & _ & _ & _ & H).
  - constructor.
  - repeat constructor; discriminate.
  - assert (E' : Ok c' = Ok c) by (rewrite <- E; vm_compute; reflexivity).
    apply (inj Ok) in E'. subst c'. split; [vm_compute; reflexivity|].
    apply H. vm_compute. discriminate.
Defined.
