(* ===== verification/Timeout.v ===== *)
(** * Timeouts

    Models [src/consensus/tendermint/core/timeout.go] and the durations of
    [src/consensus/tendermint/config.go]: the timeouts of the consensus steps and the
    ticker that runs at most one of them at a time. A duration is an [int64] number of
    nanoseconds; an instant is the number of nanoseconds since Go's zero time. Of the
    configuration, [IndexStateVariables] belongs to [Staking]. *)

From S2P Require Import Prelude Bytes Types ValidatorSet Messages.

(** ** Configuration *)
Record Config : Type := MkConfig {
  cfg_ProposerPolicy : ProposerPolicy;
  cfg_Epoch : Z;
  cfg_StakingSCAddress : option Address;
  cfg_BlockPeriod : Z;
  cfg_TimeoutPropose : Z;
  cfg_TimeoutProposeDelta : Z;
  cfg_TimeoutPrevote : Z;
  cfg_TimeoutPrevoteDelta : Z;
  cfg_TimeoutPrecommit : Z;
  cfg_TimeoutPrecommitDelta : Z;
  cfg_TimeoutCommit : Z;
  cfg_FixedValidators : option (list Address);   (* None is the nil slice *)
  cfg_BlockReward : option Z;
  cfg_FaultyMode : Z;
  cfg_UseEVMCaller : bool
}.

Definition Millisecond : Z := 1000000.

Definition DefaultConfig : Config :=
  MkConfig RoundRobin 30000 (Some zeroAddress) 1 (3000 * Millisecond) (500 * Millisecond) (1000 * Millisecond) (500 * Millisecond)
    (1000 * Millisecond) (500 * Millisecond) (1000 * Millisecond) None None 0 false.

(** [base + delta * round] in [int64]. *)
Definition linear_timeout (base delta round : Z) : Z := int64 (base + int64 (delta * round)).

Definition ProposeTimeout (cfg : Config) (round : Z) : Z :=
  linear_timeout (cfg_TimeoutPropose cfg) (cfg_TimeoutProposeDelta cfg) round.

Definition PrevoteTimeout (cfg : Config) (round : Z) : Z :=
  linear_timeout (cfg_TimeoutPrevote cfg) (cfg_TimeoutPrevoteDelta cfg) round.

Definition PrevoteCatchupTimeout (cfg : Config) (round : Z) : Z := int64 (ProposeTimeout cfg round * 2).

Definition PrecommitTimeout (cfg : Config) (round : Z) : Z :=
  linear_timeout (cfg_TimeoutPrecommit cfg) (cfg_TimeoutPrecommitDelta cfg) round.

Definition PrecommitCatchupTimeout (cfg : Config) (round : Z) : Z := int64 (PrevoteTimeout cfg round * 2).

Definition Commit_time (cfg : Config) (t : Z) : Z := t + cfg_TimeoutCommit cfg.

(** [time.Until]: the difference, saturated to a duration. *)
Definition time_Until (t now : Z) : Z := Z.min (Z.max (t - now) (- 2 ^ 63)) (2 ^ 63 - 1).

(** ** Timeouts *)
Record timeoutInfo : Type := MkTimeout {
  ti_Duration : Z;
  ti_BlockNumber : Z;
  ti_Round : Z;
  ti_Step : Z;
  ti_Retry : Z
}.

Definition earlierOrEqual (A B : timeoutInfo) : bool :=
  if ti_BlockNumber A <? ti_BlockNumber B then true
  else if ti_BlockNumber A =? ti_BlockNumber B then
    if ti_Round A <? ti_Round B then true
    else if ti_Round A =? ti_Round B then
      if (0 <? ti_Step A) && (ti_Step A <? ti_Step B) then true
      else if (ti_Step A =? ti_Step B) && (ti_Retry A <=? ti_Retry B) then true
      else false
    else false
  else false.

(** The ticker: the timeout its timer runs for, whether the timer is armed, and the
    timeouts sent to [tockChan]. *)
Record timeoutTicker : Type := MkTicker {
  tt_running : bool;
  tt_ti : timeoutInfo;
  tt_armed : bool;
  tt_tock : list timeoutInfo
}.

(** [NewTimeoutTicker]: the timer is created with the longest duration, 292 years; it
    is taken as not armed. *)
Definition NewTimeoutTicker : timeoutTicker := MkTicker false (MkTimeout 0 0 0 0 0) false [].

(** [timeoutTicker.Start], which starts [timeoutRoutine] with a fresh timeout. *)
Definition tt_Start (tt : timeoutTicker) : option timeoutTicker :=
  if tt_running tt then None else Some (MkTicker true (MkTimeout 0 0 0 0 0) (tt_armed tt) []).

Definition tt_Stop (tt : timeoutTicker) : option timeoutTicker :=
  if tt_running tt then Some (MkTicker false (tt_ti tt) false (tt_tock tt)) else None.

(** The two cases of [timeoutRoutine]: a tick from [ScheduleTimeout], and the timer. *)
Definition tick (newti : timeoutInfo) (tt : timeoutTicker) : timeoutTicker :=
  if earlierOrEqual newti (tt_ti tt) then tt
  else MkTicker (tt_running tt) newti true (tt_tock tt).

Definition fire (tt : timeoutTicker) : timeoutTicker :=
  if tt_armed tt then MkTicker (tt_running tt) (tt_ti tt) false (tt_tock tt ++ [tt_ti tt]) else tt.

Inductive ticker_event : Type := Tick (ti : timeoutInfo) | Fire.

Definition ticker_step (tt : timeoutTicker) (e : ticker_event) : timeoutTicker :=
  match e with Tick ti => tick ti tt | Fire => fire tt end.

(** ** The order of timeouts *)
Definition ti_lt (A B : timeoutInfo) : Prop :=
  ti_BlockNumber A < ti_BlockNumber B \/
  (ti_BlockNumber A = ti_BlockNumber B /\
   (ti_Round A < ti_Round B \/
    (ti_Round A = ti_Round B /\
     (ti_Step A < ti_Step B \/ (ti_Step A = ti_Step B /\ ti_Retry A < ti_Retry B))))).

#[export] Instance ti_lt_trans : Transitive ti_lt.
Proof. intros a b c. unfold ti_lt. lia. Qed.

Lemma earlierOrEqual_spec A B :
  0 < ti_Step A -> earlierOrEqual A B = false <-> ti_lt B A.
Proof.
  intros HA. unfold earlierOrEqual, ti_lt.
  repeat case_match; rewrite ?andb_true_iff, ?andb_false_iff in *; lia.
Qed.

(** Invariant of the ticker: the fired timeouts are strictly increasing, and later than
    none of what the timer runs for. *)
Definition ticker_inv (tt : timeoutTicker) : Prop :=
  StronglySorted ti_lt (tt_tock tt) /\
  Forall (fun t => if tt_armed tt then ti_lt t (tt_ti tt) else ti_lt t (tt_ti tt) \/ t = tt_ti tt) (tt_tock tt).

Definition tick_ok (e : ticker_event) : Prop :=
  match e with Tick ti => 0 < ti_Step ti | Fire => True end.

Lemma ticker_step_inv tt e : tick_ok e -> ticker_inv tt -> ticker_inv (ticker_step tt e).
Proof.
  intros He [Hs Hf]. destruct e as [ti|]; cbn [ticker_step].
  - unfold tick. destruct (earlierOrEqual ti (tt_ti tt)) eqn:E; [done|].
    apply earlierOrEqual_spec in E; [|done]. split; [done|]. simpl.
    eapply Forall_impl; [exact Hf|]. intros t Ht. cbv beta.
    destruct (tt_armed tt); [by etrans|]. destruct Ht as [Ht| ->]; [by etrans|done].
  - unfold fire. destruct (tt_armed tt) eqn:E; [|by split; [|rewrite E]]. split; simpl.
    + by apply StronglySorted_snoc.
    + apply Forall_app. split; [|by constructor; [right|]].
      eapply Forall_impl; [exact Hf|]. intros t Ht. by left.
Qed.

Lemma ticker_steps_inv es : forall tt, Forall tick_ok es -> ticker_inv tt -> ticker_inv (foldl ticker_step tt es).
Proof.
  induction es as [|e es IH]; intros tt He Hi; [done|]. inversion He; subst.
  apply IH; [done|]. by apply ticker_step_inv.
Qed.

(** What fires was scheduled. *)
Lemma ticker_origin es : forall tt t,
  t ∈ tt_tock (foldl ticker_step tt es) \/ (tt_armed (foldl ticker_step tt es) = true /\ t = tt_ti (foldl ticker_step tt es)) ->
  Tick t ∈ es \/ t ∈ tt_tock tt \/ (tt_armed tt = true /\ t = tt_ti tt).
Proof.
  induction es as [|e es IH]; intros tt t Ht; [by right|].
  destruct (IH _ _ Ht) as [Hin|Hstep]; [left; by right|]. clear IH Ht.
  destruct e as [ti|]; cbn [ticker_step] in Hstep.
  - unfold tick in Hstep. destruct (earlierOrEqual ti (tt_ti tt)); [by right|]. simpl in Hstep.
    destruct Hstep as [Ho|[_ ->]]; [by right; left|left; by left].
  - unfold fire in Hstep. destruct (tt_armed tt) eqn:E; [|rewrite E in Hstep; by right].
    simpl in Hstep. rewrite elem_of_app, list_elem_of_singleton in Hstep. naive_solver.
Qed.



(** The waits grow with the round and do not overflow. With non-negative base and
    increment, as long as the largest of them stays below 2^62 ns, every timeout of a
    round is what the formula says, non-negative and monotone in the round, and the
    catch-up waits are twice the propose and prevote waits. *)
Theorem timeouts_grow (cfg : Config) (r1 r2 : Z) :
  0 <= cfg_TimeoutPropose cfg -> 0 <= cfg_TimeoutProposeDelta cfg ->
  0 <= cfg_TimeoutPrevote cfg -> 0 <= cfg_TimeoutPrevoteDelta cfg ->
  0 <= cfg_TimeoutPrecommit cfg -> 0 <= cfg_TimeoutPrecommitDelta cfg -> 0 <= r1 <= r2 ->
  cfg_TimeoutPropose cfg + cfg_TimeoutProposeDelta cfg * r2 < 2 ^ 62 ->
  cfg_TimeoutPrevote cfg + cfg_TimeoutPrevoteDelta cfg * r2 < 2 ^ 62 ->
  cfg_TimeoutPrecommit cfg + cfg_TimeoutPrecommitDelta cfg * r2 < 2 ^ 62 ->
  ProposeTimeout cfg r2 = cfg_TimeoutPropose cfg + cfg_TimeoutProposeDelta cfg * r2 /\
  0 <= ProposeTimeout cfg r1 <= ProposeTimeout cfg r2 /\
  0 <= PrevoteTimeout cfg r1 <= PrevoteTimeout cfg r2 /\
  0 <= PrecommitTimeout cfg r1 <= PrecommitTimeout cfg r2 /\
  PrevoteCatchupTimeout cfg r2 = 2 * ProposeTimeout cfg r2 /\
  PrecommitCatchupTimeout cfg r2 = 2 * PrevoteTimeout cfg r2.
Proof.
  intros H1 H2 H3 H4 H5 H6 Hr B1 B2 B3.
  assert (Hlin : forall base delta r, 0 <= base -> 0 <= delta -> 0 <= r <= r2 -> base + delta * r2 < 2 ^ 62 ->
    linear_timeout base delta r = base + delta * r /\ 0 <= base + delta * r <= base + delta * r2).
  { intros base delta r Hb Hd Hrr Hlt. assert (0 <= delta * r <= delta * r2) by nia.
    unfold linear_timeout. rewrite (int64_small (delta * r)) by (unfold is_int64; lia).
    rewrite int64_small by (unfold is_int64; lia). lia. }
  unfold PrevoteCatchupTimeout, PrecommitCatchupTimeout, ProposeTimeout, PrevoteTimeout, PrecommitTimeout.
  destruct (Hlin _ _ r1 H1 H2 Hr B1), (Hlin _ _ r2 H1 H2 ltac:(lia) B1),
    (Hlin _ _ r1 H3 H4 Hr B2), (Hlin _ _ r2 H3 H4 ltac:(lia) B2),
    (Hlin _ _ r1 H5 H6 Hr B3), (Hlin _ _ r2 H5 H6 ltac:(lia) B3).
  rewrite !int64_small by (unfold is_int64; lia). lia.
Qed.

Lemma timeouts_grow_witness :
  ProposeTimeout DefaultConfig (2 ^ 32) = 3000 * Millisecond + 500 * Millisecond * 2 ^ 32 /\
  0 <= ProposeTimeout DefaultConfig 3 <= ProposeTimeout DefaultConfig (2 ^ 32) /\
  0 <= PrevoteTimeout DefaultConfig 3 <= PrevoteTimeout DefaultConfig (2 ^ 32) /\
  0 <= PrecommitTimeout DefaultConfig 3 <= PrecommitTimeout DefaultConfig (2 ^ 32) /\
  PrevoteCatchupTimeout DefaultConfig (2 ^ 32) = 2 * ProposeTimeout DefaultConfig (2 ^ 32) /\
  PrecommitCatchupTimeout DefaultConfig (2 ^ 32) = 2 * PrevoteTimeout DefaultConfig (2 ^ 32).
Proof.
  apply (timeouts_grow DefaultConfig 3 (2 ^ 32)); vm_compute; try reflexivity; try discriminate; split; discriminate.
Defined.
