(* ===== verification/Engine.v ===== *)
(** * Header verification

    Models [src/consensus/tendermint/backend/engine.go] and the validator set providers
    [backend/staking/staking_validators.go] and
    [backend/fixed_valset_info/fixed.go]: which headers a node accepts, how it finds the
    validators of a height, how a proposer prepares and seals a header. The chain is an
    interface, as in [src/consensus/consensus.go]. Waiting, channels and the start and
    stop of the core are not modelled. *)

From S2P Require Import Prelude Bytes RlpEncode RlpDecode RlpCanonical Types Fallible ValidatorSet Messages Timeout.

(** [big.Int.Uint64] and [big.Int.Int64]: the low 64 bits of the magnitude. *)
Definition Big_Uint64 (z : Z) : Z := uint64 (Z.abs z).
Definition Big_Int64 (z : Z) : Z :=
  if z <? 0 then int64 (- int64 (Big_Uint64 z)) else int64 (Big_Uint64 z).

(** ** What the engine relies on *)

(** [consensus.ChainReader]; [None] is a nil header. *)
Class ChainReader : Type := {
  ch_CurrentHeader : Header;
  ch_GetHeader : Hash -> Z -> option Header;
  ch_GetHeaderByNumber : Z -> option Header
}.

Section engine.
Context `{C : Crypto} {Ch : ChainReader}.

(** ** Validator sets of a height *)

(** [StakingValidator.GetValSet]: the set and the error it returns. *)
Definition Staking_GetValSet (epoch : Z) (policy : ProposerPolicy) (number : Z)
    : res (ValidatorSet * option error) :=
  let blockNumber := Big_Int64 number in
  match GetCheckpointNumber epoch (Big_Uint64 number), NewSet [] policy blockNumber with
  | Ok checkPoint, Ok valSet =>
      match ch_GetHeaderByNumber checkPoint with
      | None => Ok (valSet, Some ErrUnknownBlock)
      | Some header =>
          if bool_decide (Header_Hash header = zeroHash) then Ok (valSet, Some ErrUnknownBlock)
          else
            match GetValSetAddresses header with
            | inl e => Ok (valSet, Some e)
            | inr validatorAdds =>
                match NewSet validatorAdds policy blockNumber with
                | Ok v => Ok (v, None)
                | Panic => Panic
                | OutOfFuel => OutOfFuel
                end
            end
      end
  | OutOfFuel, _ | Ok _, OutOfFuel => OutOfFuel
  | Panic, _ | Ok _, Panic => Panic
  end.

(** [FixedValidatorSetInfo.GetValSet] *)
Definition Fixed_GetValSet (addresses : list Address) (blockNumber : Z) : res (ValidatorSet * option error) :=
  match NewSet addresses RoundRobin (Big_Int64 blockNumber) with
  | Ok v => Ok (v, None)
  | Panic => Panic
  | OutOfFuel => OutOfFuel
  end.

Definition fixed_validators (cfg : Config) : list Address := default [] (cfg_FixedValidators cfg).

(** The provider [New] of [backend.go] chooses. *)
Definition GetValSet (cfg : Config) (number : Z) : res (ValidatorSet * option error) :=
  if (0 <? Z.of_nat (length (fixed_validators cfg)))
  then Fixed_GetValSet (fixed_validators cfg) number
  else Staking_GetValSet (cfg_Epoch cfg) (cfg_ProposerPolicy cfg) number.

(** Its use where an error is returned, and [Validators], which only logs it. *)
Definition checked_GetValSet (cfg : Config) (number : Z) : fallible ValidatorSet :=
  match GetValSet cfg number with
  | Ok (v, None) => mret v
  | Ok (_, Some e) => fail e
  | Panic => Panic
  | OutOfFuel => OutOfFuel
  end.

Definition Validators (cfg : Config) (blockNumber : Z) : res ValidatorSet :=
  match GetValSet cfg blockNumber with
  | Ok (v, _) => Ok v
  | Panic => Panic
  | OutOfFuel => OutOfFuel
  end.

(** The loop of [getValSetFromChain]: back from the parent to the last header of an
    epoch; [parents] is kept with its last element first. *)
Fixpoint valset_walk (fuel : nat) (cfg : Config) (blockNumber : Z) (parents : list Header) (hash : Hash) (number : Z)
    : fallible ValidatorSet :=
  match fuel with
  | O => OutOfFuel
  | S n =>
      '(currentHeader, parents) ←
        match parents with
        | p :: rest =>
            if negb (bool_decide (Header_Hash p = hash)) then fail ErrUnknownAncestor
            else
              m ← raise (h_Number p);
              if negb (Big_Uint64 m =? number) then fail ErrUnknownAncestor else mret (p, rest)
        | [] =>
            match ch_GetHeader hash number with
            | None => fail ErrUnknownAncestor
            | Some h => mret (h, [])
            end
        end;
      if cfg_Epoch cfg =? 0 then Panic
      else if number mod cfg_Epoch cfg =? 0 then
        validators ← check (GetValSetAddresses currentHeader);
        returns (NewSet validators (cfg_ProposerPolicy cfg) (int64 blockNumber))
      else valset_walk n cfg blockNumber parents (h_ParentHash currentHeader) (uint64 (number - 1))
  end.

Definition getValSetFromChain (cfg : Config) (header : Header) (parents : list Header) : fallible ValidatorSet :=
  number ← raise (h_Number header);
  let blockNumber := Big_Uint64 number in
  checkpoint ← returns (GetCheckpointNumber (cfg_Epoch cfg) blockNumber);
  if 0 <? Z.of_nat (length (fixed_validators cfg)) then checked_GetValSet cfg (int64 blockNumber)
  else
    current ← raise (h_Number ch_CurrentHeader);
    if checkpoint <=? Big_Uint64 current then checked_GetValSet cfg (int64 blockNumber)
    else
      let number := uint64 (blockNumber - 1) in
      valset_walk (S (Z.to_nat number)) cfg blockNumber (reverse parents) (h_ParentHash header) number.

(** ** Seals *)

(** [blockProposer]: who signed the header. *)
Definition blockProposer (header : Header) : error + Address :=
  match ExtractTendermintExtra header with
  | inl e => inl e
  | inr extra => GetSignatureAddress (bytes_of (SigHash header)) (te_Seal extra)
  end.

Definition Author := blockProposer.

Definition verifyProposalSeal (header : Header) (valSet : ValidatorSet) : fallible unit :=
  signer ← check (blockProposer header);
  if negb (bool_decide (signer = h_Coinbase header)) then fail ErrCoinBaseInvalid
  else
    match (GetByAddress valSet signer).2 with
    | None => fail ErrUnauthorized
    | Some _ => mret tt
    end.

(** The loop of [verifyCommittedSeals]: every seal takes a validator out of the set. *)
Fixpoint count_seals (proposalSeal : bytes) (seals : list bytes) (vals : ValidatorSet) (validSeal : Z) : error + Z :=
  match seals with
  | [] => inr validSeal
  | seal :: r =>
      match GetSignatureAddress proposalSeal seal with
      | inl _ => inl ErrInvalidSignature
      | inr addr =>
          match RemoveValidator vals addr with
          | (true, vals') => count_seals proposalSeal r vals' (validSeal + 1)
          | (false, _) => inl ErrInvalidCommittedSeals
          end
      end
  end.

Definition verifyCommittedSeals (header : Header) (valSet : ValidatorSet) : fallible unit :=
  extra ← check (ExtractTendermintExtra header);
  if (length (te_CommittedSeal extra) =? 0)%nat then fail ErrEmptyCommittedSeals
  else
    vals ← returns (Copy valSet);
    validSeal ← check (count_seals (PrepareCommittedSeal (Header_Hash header)) (te_CommittedSeal extra) vals 0);
    if validSeal <? MinMajority valSet then fail ErrInvalidCommittedSeals else mret tt.

(** ** Headers *)
Definition last_parent (header : Header) (blockNumber : Z) (parents : list Header) : option Header :=
  match last parents with
  | Some p => Some p
  | None => ch_GetHeader (h_ParentHash header) (uint64 (blockNumber - 1))
  end.

Definition verifyCascadingFields (cfg : Config) (header : Header) (parents : list Header) : fallible unit :=
  number ← raise (h_Number header);
  let blockNumber := Big_Uint64 number in
  if blockNumber =? 0 then mret tt
  else
    match last_parent header blockNumber parents with
    | None => fail ErrUnknownAncestor
    | Some parent =>
        m ← raise (h_Number parent);
        if negb (Big_Uint64 m =? uint64 (blockNumber - 1))
           || negb (bool_decide (Header_Hash parent = h_ParentHash header))
        then fail ErrUnknownAncestor
        else
          valSet ← getValSetFromChain cfg header parents;
          verifyProposalSeal header valSet;;
          verifyCommittedSeals header valSet
    end.

Definition defaultDifficulty : Z := 1.

(** [verifyHeader] at the time [now], in seconds. *)
Definition verifyHeader (cfg : Config) (now : Z) (header : Header) (parents : list Header) : fallible unit :=
  match h_Number header with
  | None => fail ErrUnknownBlock
  | Some _ =>
      if Big_Uint64 now <? h_Time header then fail ErrFutureBlock
      else
        match ExtractTendermintExtra header with
        | inl _ => fail ErrInvalidExtraDataFormat
        | inr _ =>
            if negb (bool_decide (h_MixDigest header = TendermintDigest)) then fail ErrInvalidMixDigest
            else
              match h_Difficulty header with
              | None => fail ErrInvalidDifficulty
              | Some d =>
                  if negb (d =? defaultDifficulty) then fail ErrInvalidDifficulty
                  else verifyCascadingFields cfg header parents
              end
        end
  end.

(** [VerifyHeader] and [VerifyHeaders]: the headers before one in the batch are its
    parents. *)
Definition VerifyHeader (cfg : Config) (now : Z) (header : Header) : fallible unit :=
  verifyHeader cfg now header [].

Definition VerifyHeaders (cfg : Config) (now : Z) (headers : list Header) : list (fallible unit) :=
  imap (fun i header => verifyHeader cfg now header (take i headers)) headers.

Definition VerifyUncles (block : Block) : option error :=
  if (0 <? length (b_uncles block))%nat then Some ErrInvalidUncleHash else None.

Definition VerifySeal (cfg : Config) (header : Header) : fallible unit :=
  number ← raise (h_Number header);
  let blockNumber := Big_Uint64 number in
  if blockNumber =? 0 then fail ErrUnknownBlock
  else
    valset ← checked_GetValSet cfg (int64 blockNumber);
    verifyProposalSeal header valset.
End engine.

(** ** Committed seals *)
Section seals.
Context `{C : Crypto}.

Lemma remove_first_Some a l l' : remove_first a l = Some l' -> l ≡ₚ a :: l'.
Proof.
  revert l'. induction l as [|b l IH]; intros l'; cbn [remove_first]; [done|].
  case_bool_decide as E; [intros [= <-]; by subst|].
  destruct (remove_first a l) as [r|]; [|done]. intros [= <-]. rewrite (IH r eq_refl). apply Permutation_swap.
Qed.

Lemma remove_first_None a l : remove_first a l = None -> a ∉ l.
Proof.
  induction l as [|b l IH]; cbn [remove_first]; [intros _ Hin; by apply elem_of_nil in Hin|].
  case_bool_decide as E; [done|]. destruct (remove_first a l); [done|]. intros _ [->|Hin]%elem_of_cons; [done|].
  by apply IH.
Qed.

(** Who made a seal. *)
Definition seal_of (data seal : bytes) (a : Address) : Prop := GetSignatureAddress data seal = inr a.

(** The loop accepts exactly seals of different members of the set. *)
Lemma count_seals_spec data seals vals k n :
  count_seals data seals vals k = inr n <->
  n = k + Z.of_nat (length seals) /\
  exists addrs, Forall2 (seal_of data) seals addrs /\ addrs ⊆+ vs_validators vals.
Proof.
  revert vals k. induction seals as [|seal seals IH]; intros vals k; cbn [count_seals length].
  - split; [intros [= ->]; split; [lia|]; exists []; split; [constructor|apply submseteq_nil_l]|].
    intros [-> _]. f_equal. lia.
  - destruct (GetSignatureAddress data seal) as [e|a] eqn:Ea.
    { split; [done|]. intros (_ & addrs & Hf & _). apply Forall2_cons_inv_l in Hf as (b & l & Hb & _).
      unfold seal_of in Hb. congruence. }
    unfold RemoveValidator. destruct (remove_first a (vs_validators vals)) as [l|] eqn:Er.
    + rewrite IH. cbn [vs_validators]. apply remove_first_Some in Er. split.
      * intros (-> & addrs & Hf & Hs). split; [lia|]. exists (a :: addrs).
        split; [by constructor|]. rewrite Er. by apply submseteq_skip.
      * intros (-> & addrs & Hf & Hs). split; [lia|].
        apply Forall2_cons_inv_l in Hf as (b & l' & Hb & Hf & ->). unfold seal_of in Hb.
        assert (b = a) as -> by congruence. exists l'. split; [done|].
        rewrite Er in Hs. exact (submseteq_app_inv_l l' l [a] Hs).
    + split; [done|]. intros (_ & addrs & Hf & Hs). apply Forall2_cons_inv_l in Hf as (b & l' & Hb & _ & ->).
      unfold seal_of in Hb. assert (b = a) as -> by congruence. apply remove_first_None in Er. exfalso. apply Er.
      eapply elem_of_submseteq; [|exact Hs]. by left.
Qed.

Lemma count_seals_error data seals vals k e :
  count_seals data seals vals k = inl e -> e = ErrInvalidSignature \/ e = ErrInvalidCommittedSeals.
Proof.
  revert vals k. induction seals as [|seal seals IH]; intros vals k; cbn [count_seals]; [done|].
  destruct (GetSignatureAddress data seal); [intros [= <-]; by left|].
  unfold RemoveValidator. destruct (remove_first _ _); [apply IH|]. intros [= <-]. by right.
Qed.

Lemma MinMajority_pos v : 1 <= MinMajority v.
Proof.
  destruct (Z.ltb_spec 0 (Size v)); [by apply MinMajority_bound|].
  unfold MinMajority, F, ceil_div, Size in *. replace (Z.of_nat (length (vs_validators v))) with 0 by lia. done.
Qed.

Lemma Copy_Ok v : 0 <= vs_height v -> exists v', Copy v = Ok v' /\ vs_validators v' ≡ₚ vs_validators v.
Proof.
  intros Hh. unfold Copy. destruct (NewSet_Ok (vs_validators v) (vs_policy v) (vs_height v) Hh) as (v' & -> & Hv).
  exists v'. split; [done|]. rewrite Hv. apply sort_validators_perm.
Qed.

Lemma NoDup_submseteq_iff (l k : list Address) :
  NoDup k -> (l ⊆+ k <-> NoDup l /\ forall a, a ∈ l -> a ∈ k).
Proof.
  intros Hk. split; [|intros []; by apply NoDup_submseteq]. intros Hs. split.
  - apply submseteq_Permutation in Hs as [m Hm]. rewrite Hm in Hk. by apply NoDup_app in Hk as [? _].
  - intros a Ha. by eapply elem_of_submseteq.
Qed.

(** Different validators of the set sealed the hash of the header, at least a quorum. *)
Definition sealed_by_quorum (header : Header) (v : ValidatorSet) : Prop :=
  exists te addrs, ExtractTendermintExtra header = inr te /\
    Forall2 (seal_of (PrepareCommittedSeal (Header_Hash header))) (te_CommittedSeal te) addrs /\
    NoDup addrs /\ (forall a, a ∈ addrs -> a ∈ vs_validators v) /\ MinMajority v <= Z.of_nat (length addrs).

Lemma verifyCommittedSeals_iff header v :
  NoDup (vs_validators v) -> 0 <= vs_height v ->
  verifyCommittedSeals header v = Ok (inr tt) <-> sealed_by_quorum header v.
Proof.
  intros Hnd Hh. unfold sealed_by_quorum, verifyCommittedSeals, check. destruct (ExtractTendermintExtra header) as [e|te]; cbn.
  { split; [done|]. by intros (te & addrs & [=] & _). }
  pose proof (MinMajority_pos v) as Hpos. destruct (Copy_Ok v Hh) as (v' & -> & Hv').
  destruct (Nat.eqb_spec (length (te_CommittedSeal te)) 0) as [Hl|Hl]; cbn.
  { split; [done|]. intros (te' & addrs & [= <-] & Hf%Forall2_length & _ & _ & Hm). lia. }
  set (data := PrepareCommittedSeal (Header_Hash header)).
  destruct (count_seals data (te_CommittedSeal te) v' 0) as [e|n] eqn:En; cbn.
  - split; [done|]. intros (te' & addrs & [= <-] & Hf & Hnda & Hin & _).
    assert (Hok : count_seals data (te_CommittedSeal te) v' 0 = inr (0 + Z.of_nat (length (te_CommittedSeal te)))).
    { apply count_seals_spec. split; [done|]. exists addrs. split; [done|]. rewrite Hv'. by apply NoDup_submseteq_iff. }
    congruence.
  - apply count_seals_spec in En as (-> & addrs & Hf & Hs). rewrite Hv' in Hs. apply NoDup_submseteq_iff in Hs as [H1 H2]; [|done].
    pose proof (Forall2_length _ _ _ Hf) as Hlen. destruct (Z.ltb_spec (0 + Z.of_nat (length (te_CommittedSeal te))) (MinMajority v)).
    + split; [done|]. intros (te' & addrs' & [= <-] & Hf'%Forall2_length & _ & _ & Hm). lia.
    + split; [|done]. intros _. exists te, addrs. split_and!; [done|done|done|done|lia].
Qed.

(** C31: a header is final exactly when a quorum sealed it. [verifyCommittedSeals] always
    returns; it accepts a header when its committed seals are, one by one, signatures
    over its hash by different validators of the set, and at least [MinMajority] of
    them; and it reports an empty list of seals as such, which is how the core tells a
    proposal from a bad header. *)
Theorem verifyCommittedSeals_spec (header : Header) (v : ValidatorSet) :
  NoDup (vs_validators v) -> 0 <= vs_height v ->
  exists r, verifyCommittedSeals header v = Ok r /\
    (r = inr tt <-> sealed_by_quorum header v) /\
    (r = inl ErrEmptyCommittedSeals <->
     exists te, ExtractTendermintExtra header = inr te /\ te_CommittedSeal te = []).
Proof.
  intros Hnd Hh. pose proof (verifyCommittedSeals_iff header v Hnd Hh) as Hiff.
  assert (Hr : exists r, verifyCommittedSeals header v = Ok r /\ (r = inl ErrEmptyCommittedSeals <->
     exists te, ExtractTendermintExtra header = inr te /\ te_CommittedSeal te = [])).
  { unfold verifyCommittedSeals, check. destruct (ExtractTendermintExtra header) as [e|te] eqn:Ee; cbn.
    - eexists. split; [done|]. split; [|by intros (? & [=] & _)].
      intros [= ->]. unfold ExtractTendermintExtra in Ee. by repeat case_match.
    - destruct (Copy_Ok v Hh) as (v' & -> & _). destruct (te_CommittedSeal te) as [|s l] eqn:El; cbn.
      { eexists. split; [done|]. split; [by exists te|done]. }
      assert (Hno : ~ exists te', inr te = inr te' :> error + TendermintExtra /\ te_CommittedSeal te' = []) by (intros (? & [= <-] & ?); congruence).
      match goal with |- context [match ?x with inl _ => _ | inr _ => _ end] => destruct x as [e|n] eqn:Ec end; cbn.
      + eexists. split; [done|]. split; [|done]. intros [= ->]. by apply (count_seals_error _ (s :: l) v' 0) in Ec as [].
      + destruct (n <? MinMajority v); eexists; (split; [done|]); by split. }
  destruct Hr as (r & Hr & He). exists r. split; [done|]. split; [|done]. rewrite <- Hiff, Hr.
  split; [by intros ->|by intros [= ->]].
Qed.

(** C32: finality. Two headers that pass the check with the same validators have been
    sealed, each over its own hash, by more than [F] common validators: were their
    hashes different, more than the tolerated number of validators would have sealed
    both. *)
Theorem sealed_headers_overlap (h1 h2 : Header) (v : ValidatorSet) :
  NoDup (vs_validators v) -> 0 <= vs_height v ->
  verifyCommittedSeals h1 v = Ok (inr tt) -> verifyCommittedSeals h2 v = Ok (inr tt) ->
  exists S : gset Address, F v < Z.of_nat (size S) /\ forall a, a ∈ S ->
    a ∈ vs_validators v /\
    (exists te1 s1, ExtractTendermintExtra h1 = inr te1 /\ s1 ∈ te_CommittedSeal te1 /\
       seal_of (PrepareCommittedSeal (Header_Hash h1)) s1 a) /\
    (exists te2 s2, ExtractTendermintExtra h2 = inr te2 /\ s2 ∈ te_CommittedSeal te2 /\
       seal_of (PrepareCommittedSeal (Header_Hash h2)) s2 a).
Proof.
  intros Hnd Hh H1 H2.
  apply verifyCommittedSeals_iff in H1 as (te1 & l1 & He1 & Hf1 & Hn1 & Hi1 & Hm1); [|done..].
  apply verifyCommittedSeals_iff in H2 as (te2 & l2 & He2 & Hf2 & Hn2 & Hi2 & Hm2); [|done..].
  assert (Hsz : forall l : list Address, NoDup l -> size (list_to_set l : gset Address) = length l)
    by (intros; by apply size_list_to_set).
  assert (Hpos : 0 < Size v).
  { unfold Size. pose proof (MinMajority_pos v). destruct l1 as [|a l1]; [cbn in Hm1; lia|].
    specialize (Hi1 a ltac:(by left)). destruct (vs_validators v); [by apply elem_of_nil in Hi1|cbn; lia]. }
  destruct (quorums_share v (list_to_set l1) (list_to_set l2) Hnd Hpos) as (_ & _ & Hlt);
    [set_solver|set_solver|rewrite Hsz by done; lia..|].
  exists (list_to_set l1 ∩ list_to_set l2). split; [done|].
  intros a [Ha1%elem_of_list_to_set Ha2%elem_of_list_to_set]%elem_of_intersection. split; [by apply Hi1|]. split.
  - apply list_elem_of_lookup in Ha1 as [i Hi]. destruct (Forall2_lookup_r _ _ _ _ _ Hf1 Hi) as (s & Hs & ?).
    exists te1, s. split_and!; [done|by eapply list_elem_of_lookup_2|done].
  - apply list_elem_of_lookup in Ha2 as [i Hi]. destruct (Forall2_lookup_r _ _ _ _ _ Hf2 Hi) as (s & Hs & ?).
    exists te2, s. split_and!; [done|by eapply list_elem_of_lookup_2|done].
Qed.
End seals.

(** ** Validators of a height *)
Section checkpoints.
Context `{C : Crypto} {Ch : ChainReader}.

(** The headers before a block, newest first, up to the last header of an epoch: each is
    the parent of the one before it, found among the given parents as long as there are
    any and in the chain after that. *)
Fixpoint ancestors (parents : list Header) (hash : Hash) (number : Z) (hs : list Header) : Prop :=
  match hs with
  | [] => True
  | h :: rest =>
      Header_Hash h = hash /\ h_Number h = Some number /\
      match parents with p :: _ => p = h | [] => ch_GetHeader hash number = Some h end /\
      ancestors (tail parents) (h_ParentHash h) (number - 1) rest
  end.

Lemma valset_walk_found fuel cfg bn hs last parents hash number :
  0 < cfg_Epoch cfg -> 0 <= number < 2 ^ 64 -> ancestors parents hash number (hs ++ [last]) ->
  Z.of_nat (length hs) = number mod cfg_Epoch cfg -> (length hs < fuel)%nat ->
  valset_walk fuel cfg bn parents hash number
  = (validators ← check (GetValSetAddresses last); returns (NewSet validators (cfg_ProposerPolicy cfg) (int64 bn))).
Proof.
  intros He. revert fuel parents hash number.
  induction hs as [|h hs IH]; intros fuel parents hash number Hn Ha Hl Hf;
    (destruct fuel as [|fuel]; [cbn in Hf; lia|]); cbn [valset_walk]; cbn [app ancestors] in Ha;
    destruct Ha as (Hh & Hnum & Hsrc & Hrest);
    rewrite (proj2 (Z.eqb_neq (cfg_Epoch cfg) 0)) by lia;
    assert (Hb : Big_Uint64 number = number)
      by (unfold Big_Uint64; rewrite Z.abs_eq, uint64_small by (unfold is_uint64; lia); done).
  - cbn in Hl. rewrite <- Hl. destruct parents as [|p ps]; [rewrite Hsrc; done|]. subst p.
    by rewrite bool_decide_eq_true_2, Hnum; fal; rewrite ?Hb, ?Z.eqb_refl.
  - assert (Hpos : 0 < number mod cfg_Epoch cfg) by (rewrite <- Hl; cbn; lia).
    assert (Hn1 : 1 <= number).
    { destruct (decide (number = 0)) as [->|]; [rewrite Z.mod_0_l in Hpos; lia|lia]. }
    assert (Hmod : (number - 1) mod cfg_Epoch cfg = number mod cfg_Epoch cfg - 1).
    { pose proof (Z.div_mod number (cfg_Epoch cfg) ltac:(lia)). pose proof (Z.mod_pos_bound number (cfg_Epoch cfg) He).
      symmetry. apply (Z.mod_unique_pos _ _ (number / cfg_Epoch cfg)); lia. }
    assert (Hu : uint64 (number - 1) = number - 1) by (apply uint64_small; unfold is_uint64; lia).
    pose proof (IH fuel (tail parents) (h_ParentHash h) (number - 1) ltac:(lia) Hrest
      ltac:(rewrite Hmod, <- Hl; cbn; lia) ltac:(cbn in Hf; lia)) as IH'.
    rewrite <- Hu in IH'. rewrite (proj2 (Z.eqb_neq (number mod cfg_Epoch cfg) 0)) by lia.
    destruct parents as [|p ps]; [rewrite Hsrc; exact IH'|]. subst p.
    rewrite bool_decide_eq_true_2, Hnum by done. fal. rewrite Hb, Z.eqb_refl. exact IH'.
Qed.

Lemma NewSet_total l p h : NewSet l p h <> OutOfFuel.
Proof. unfold NewSet, newDefaultSet. cbv zeta. destruct (0 <? _); [|done]. unfold GetByIndex. by repeat case_match. Qed.

Lemma GetCheckpointNumber_total e n : GetCheckpointNumber e n <> OutOfFuel.
Proof. unfold GetCheckpointNumber. destruct (_ || _); [done|]. by destruct (_ =? 0). Qed.

Lemma checked_GetValSet_total cfg n : checked_GetValSet cfg n <> OutOfFuel.
Proof.
  unfold checked_GetValSet, GetValSet. destruct (0 <? _).
  - unfold Fixed_GetValSet. destruct (NewSet _ _ _) eqn:E; [done|done|]. by apply NewSet_total in E.
  - unfold Staking_GetValSet. cbv zeta.
    destruct (GetCheckpointNumber _ _) eqn:E; [|done|by apply GetCheckpointNumber_total in E].
    destruct (NewSet [] _ _) eqn:E'; [|done|by apply NewSet_total in E'].
    destruct (ch_GetHeaderByNumber _) as [h|]; [|done]. destruct (bool_decide _); [done|].
    destruct (GetValSetAddresses h); [done|].
    destruct (NewSet l _ _) eqn:E''; [done|done|by apply NewSet_total in E''].
Qed.

Lemma valset_walk_total fuel cfg bn parents hash number :
  0 <= number < 2 ^ 64 -> number < Z.of_nat fuel -> valset_walk fuel cfg bn parents hash number <> OutOfFuel.
Proof.
  revert parents hash number. induction fuel as [|fuel IH]; intros parents hash number Hn Hf; [lia|].
  assert (Hnew : forall l p h, returns (NewSet l p h) <> OutOfFuel :> fallible ValidatorSet).
  { intros l p h. unfold returns. destruct (NewSet l p h) eqn:E; [done|done|by apply NewSet_total in E]. }
  assert (Hrest : forall h ps, (if cfg_Epoch cfg =? 0 then Panic
      else if number mod cfg_Epoch cfg =? 0 then
        validators ← check (GetValSetAddresses h); returns (NewSet validators (cfg_ProposerPolicy cfg) (int64 bn))
      else valset_walk fuel cfg bn ps (h_ParentHash h) (uint64 (number - 1))) <> OutOfFuel).
  { intros h ps. destruct (Z.eqb_spec (cfg_Epoch cfg) 0); [done|]. destruct (Z.eqb_spec (number mod cfg_Epoch cfg) 0) as [|Hm].
    - unfold check. destruct (GetValSetAddresses h); [done|]. apply Hnew.
    - assert (number <> 0) by (intros ->; apply Hm, Z.mod_0_l; done).
      rewrite uint64_small by (unfold is_uint64; lia). apply IH; lia. }
  cbn [valset_walk]. destruct parents as [|p ps].
  - destruct (ch_GetHeader hash number); [apply Hrest|done].
  - destruct (negb _); [done|]. destruct (h_Number p); [|done]. cbn. destruct (negb _); [done|apply Hrest].
Qed.

(** The validators of a block are those of its epoch. When the checkpoint of a block
    is not in the chain yet, [getValSetFromChain] goes back through the given headers,
    and then the chain, and takes the validators from the header at the checkpoint,
    which is the last one of the previous epoch. The loop ends for every input. *)
Theorem getValSetFromChain_checkpoint (cfg : Config) (header : Header) (n m : Z) (parents hs : list Header) (last : Header) :
  0 < cfg_Epoch cfg < 2 ^ 64 -> h_Number header = Some n -> 0 < n < 2 ^ 64 -> fixed_validators cfg = [] ->
  h_Number ch_CurrentHeader = Some m -> 0 <= m < n - 1 - (n - 1) mod cfg_Epoch cfg ->
  ancestors (reverse parents) (h_ParentHash header) (n - 1) (hs ++ [last]) ->
  Z.of_nat (length hs) = (n - 1) mod cfg_Epoch cfg ->
  GetCheckpointNumber (cfg_Epoch cfg) n = Ok (n - 1 - Z.of_nat (length hs)) /\
  h_Number last = Some (n - 1 - Z.of_nat (length hs)) /\
  getValSetFromChain cfg header parents
  = (validators ← check (GetValSetAddresses last); returns (NewSet validators (cfg_ProposerPolicy cfg) (int64 n))) /\
  forall header' parents', getValSetFromChain cfg header' parents' <> OutOfFuel.
Proof.
  intros He Hn Hr Hfix Hcur Hm Ha Hl.
  assert (Hnum : forall k, 0 <= k < 2 ^ 64 -> Big_Uint64 k = k)
    by (intros k Hk; unfold Big_Uint64; rewrite Z.abs_eq, uint64_small by (unfold is_uint64; lia); done).
  split; [rewrite Hl; by apply GetCheckpointNumber_eq|]. split.
  { clear -Ha. revert Ha. generalize (reverse parents) (h_ParentHash header) (n - 1).
    induction hs as [|h hs IH]; intros ps hash k; cbn [app ancestors length].
    - intros (_ & Hk & _). rewrite Hk. f_equal. lia.
    - intros (_ & _ & _ & Hrest). rewrite (IH _ _ _ Hrest). f_equal. lia. }
  split.
  - unfold getValSetFromChain. rewrite Hn, raise_Some. cbv beta zeta.
    rewrite Hnum, (GetCheckpointNumber_eq _ _ He Hr), returns_Ok, Hfix by lia. cbn [length Z.of_nat Z.ltb Z.compare].
    rewrite Hcur, raise_Some, (Hnum m), (proj2 (Z.leb_gt _ _)) by lia.
    rewrite uint64_small by (unfold is_uint64; lia).
    apply (valset_walk_found _ cfg n hs last); [lia|lia|done|done|].
    pose proof (Z.mod_le (n - 1) (cfg_Epoch cfg) ltac:(lia) ltac:(lia)). lia.
  - intros header' parents'. unfold getValSetFromChain. destruct (h_Number header') as [k|]; [|done]. rewrite raise_Some. cbv beta zeta.
    destruct (GetCheckpointNumber _ _) as [cp| |] eqn:Ecp; [|done|by apply GetCheckpointNumber_total in Ecp].
    rewrite returns_Ok, Hfix. cbn [length Z.of_nat Z.ltb Z.compare]. rewrite Hcur, raise_Some.
    destruct (cp <=? Big_Uint64 m).
    + apply checked_GetValSet_total.
    + pose proof (uint64_range (Big_Uint64 k - 1)) as Hk. unfold is_uint64 in Hk.
      apply valset_walk_total; lia.
Qed.
End checkpoints.
