(* ===== verification/Staking.v ===== *)
(** * The staking contract read from the state

    Models [src/core/state/staking/statedb_caller.go], its configuration and the result
    types of [staking.go]: the storage slots of the staking contract, and the validators
    and stakes read from them. The state database is an interface with the two lookups
    the caller makes. *)

From S2P Require Import Prelude Bytes RlpEncode RlpDecode RlpCanonical Types Fallible ValidatorSet Engine.

(** [GetState] and [GetCode] of the state database. *)
Class StateReader : Type := {
  st_GetState : Address -> Hash -> Hash;
  st_GetCode : Address -> bytes
}.

(** ** Layout *)
Record LayOut : Type := NewLayOut { lo_Slot : Z; lo_Offset : Z }.

Definition slotHash (l : LayOut) : Hash := BigToHash (lo_Slot l).

Record CandidateDataStructIndex : Type := MkStructIndex {
  si_Owner : LayOut;
  si_TotalStake : LayOut;
  si_VotersStakes : LayOut
}.

Record IndexConfigs : Type := MkIndexConfigs {
  WithdrawsStateLayout : LayOut;
  CandidateVotersLayout : LayOut;
  CandidateDataLayout : LayOut;
  CandidatesLayout : LayOut;
  StartBlockLayout : LayOut;
  EpochPeriodLayout : LayOut;
  MaxValidatorSizeLayout : LayOut;
  MinValidatorStakeLayout : LayOut;
  MinVoterCapLayout : LayOut;
  AdminLayout : LayOut;
  CandidateDataStruct : CandidateDataStructIndex
}.

Definition DefaultIndexConfigs : IndexConfigs :=
  MkIndexConfigs (NewLayOut 1 0) (NewLayOut 2 0) (NewLayOut 3 0) (NewLayOut 4 0) (NewLayOut 5 0) (NewLayOut 6 0)
    (NewLayOut 7 0) (NewLayOut 8 0) (NewLayOut 9 0) (NewLayOut 10 0)
    (MkStructIndex (NewLayOut 2 0) (NewLayOut 1 0) (NewLayOut 3 0)).

Record CandidateData : Type := MkCandidate {
  cd_Owner : Address;
  cd_VoterStakes : gmap Address Z;
  cd_TotalStake : Z
}.

Section caller.
Context `{C : Crypto} {S : StateReader} (cfg : IndexConfigs).

(** ** Storage locations *)
Definition defaultElementSize : Z := 1.

Definition getElementArrayLoc (slot : Hash) (index elementSize : Z) : Hash :=
  BigToHash (Hash_Big (keccak256 (bytes_of slot)) + uint64 (index * elementSize)).

Definition getMappingElementLoc (slot key : Hash) : Hash := keccak256 (bytes_of key ++ bytes_of slot).

Definition addOffsetToLoc (slot : Hash) (offset : Z) : Hash := BigToHash (Hash_Big slot + offset).

Definition getAddress (contract : Address) (loc : Hash) : Address := HexToAddress (Hash_Hex (st_GetState contract loc)).
Definition getBigInt (contract : Address) (loc : Hash) : Z := Hash_Big (st_GetState contract loc).

(** ** Candidates *)
Definition GetCandidates (contract : Address) : error + list Address :=
  let slot := slotHash (CandidatesLayout cfg) in
  let arrLength := getBigInt contract slot in
  if arrLength =? 0 then inl ErrEmptyValidatorSet
  else inr ((fun i => getAddress contract (getElementArrayLoc slot i defaultElementSize))
            <$> seqZ 0 (Big_Uint64 arrLength)).

Definition candidateLoc (candidate : Address) : Hash :=
  getMappingElementLoc (slotHash (CandidateDataLayout cfg)) (Address_Hash candidate).

Definition GetCandidateStake (contract candidate : Address) : Z :=
  getBigInt contract (addOffsetToLoc (candidateLoc candidate) (lo_Slot (si_TotalStake (CandidateDataStruct cfg)))).

Definition GetCandidateOwner (contract candidate : Address) : Address :=
  getAddress contract (addOffsetToLoc (candidateLoc candidate) (lo_Slot (si_Owner (CandidateDataStruct cfg)))).

Definition GetVoters (contract candidate : Address) : list Address :=
  let votersSlot := getMappingElementLoc (slotHash (CandidateVotersLayout cfg)) (Address_Hash candidate) in
  (fun i => getAddress contract (getElementArrayLoc votersSlot i defaultElementSize))
    <$> seqZ 0 (Big_Uint64 (getBigInt contract votersSlot)).

Definition GetCandidateData (contract candidate : Address) : CandidateData :=
  let stakesSlot := addOffsetToLoc (candidateLoc candidate) (lo_Slot (si_VotersStakes (CandidateDataStruct cfg))) in
  MkCandidate (GetCandidateOwner contract candidate)
    (foldl (fun stakes voter =>
       <[voter := getBigInt contract (getMappingElementLoc stakesSlot (Address_Hash voter))]> stakes)
       ∅ (GetVoters contract candidate))
    (GetCandidateStake contract candidate).

Definition GetValidatorsData (contract : Address) (candidates : list Address) : gmap Address CandidateData :=
  foldl (fun all candidate => <[candidate := GetCandidateData contract candidate]> all) ∅ candidates.

Definition GetStartBlock (contract : Address) : Z := getBigInt contract (slotHash (StartBlockLayout cfg)).
Definition GetEpochPeriod (contract : Address) : Z := getBigInt contract (slotHash (EpochPeriodLayout cfg)).
Definition GetMaxValidatorSize (contract : Address) : Z := getBigInt contract (slotHash (MaxValidatorSizeLayout cfg)).
Definition GetMinValidatorStake (contract : Address) : Z := getBigInt contract (slotHash (MinValidatorStakeLayout cfg)).
Definition GetMinVoterCap (contract : Address) : Z := getBigInt contract (slotHash (MinVoterCapLayout cfg)).
Definition GetAdmin (contract : Address) : Address := getAddress contract (slotHash (AdminLayout cfg)).

(** ** Validators *)

(** The order [sort.Slice] sorts by: greater stakes first, then greater addresses. *)
Definition before (stakes : gmap Address Z) (a b : Address) : Prop :=
  stakes !!! b < stakes !!! a \/ (stakes !!! a = stakes !!! b /\ bytes_ltb (Address_Hex a) (Address_Hex b) = false).

#[global] Instance before_dec stakes a b : Decision (before stakes a b).
Proof. unfold before. apply _. Defined.

(** The candidates with the least stake of a validator. *)
Definition eligible (contract : Address) (candidates : list Address) : list Address :=
  filter (fun c => GetMinValidatorStake contract <= GetCandidateStake contract c) candidates.

Definition stakes_of (contract : Address) (l : list Address) : gmap Address Z :=
  foldl (fun stakes c => <[c := GetCandidateStake contract c]> stakes) ∅ l.

(** [s[:n]] of a slice whose capacity is its length. *)
Definition slice_to (l : list Address) (n : Z) : res (list Address) :=
  if (n <? 0) || (Z.of_nat (length l) <? n) then Panic else Ok (take (Z.to_nat n) l).

(** A slice made by appending to a nil one; [None] is nil. *)
Definition appended (l : list Address) : option (list Address) := if bool_decide (l = []) then None else Some l.

Definition GetValidators (contract : Address) : fallible (option (list Address)) :=
  if (length (st_GetCode contract) =? 0)%nat then fail ErrNoCode
  else
    candidates ← check (GetCandidates contract);
    let validators := eligible contract candidates in
    let stakes := stakes_of contract validators in
    let maxValSize := int64 (Big_Uint64 (GetMaxValidatorSize contract)) in
    if Z.of_nat (length validators) <=? maxValSize then mret (appended validators)
    else
      let validators := merge_sort (before stakes) validators in
      top ← returns (slice_to candidates maxValSize);
      mret (Some top).
End caller.

(** ** What the storage stands for *)

(** A value of the staking contract, as Solidity has it: the candidates in the order of
    the array, and of each one its owner, its stake and its voters with their stakes. *)
Record Candidate : Type := MkCandidateState {
  cs_owner : Address;
  cs_total : Z;
  cs_voters : list (Address * Z)
}.

Record Contract : Type := MkContract {
  ct_candidates : list (Address * Candidate);
  ct_start : Z;
  ct_period : Z;
  ct_max : Z;
  ct_min : Z;
  ct_cap : Z;
  ct_admin : Address
}.

(** Where Solidity keeps things: a variable at its slot, the elements of a dynamic array
    from the hash of its slot on, the values of a mapping at the hash of key and slot, the
    fields of a struct one after the other. *)
Section solidity.
Context `{C : Crypto}.

Definition sol_variable (slot : Z) : Hash := BigToHash slot.
Definition sol_element (slot : Hash) (i : nat) : Hash := BigToHash (Hash_Big (keccak256 (bytes_of slot)) + Z.of_nat i).
Definition sol_value (slot : Hash) (key : Address) : Hash := keccak256 (bytes_of (Address_Hash key) ++ bytes_of slot).
Definition sol_field (base : Hash) (k : Z) : Hash := BigToHash (Hash_Big base + k).
End solidity.

Section represents.
Context `{C : Crypto} {S : StateReader} (cfg : IndexConfigs) (contract : Address).

Definition holds_Z (loc : Hash) (z : Z) : Prop := 0 <= z < 2 ^ 256 /\ st_GetState contract loc = BigToHash z.
Definition holds_address (loc : Hash) (a : Address) : Prop := st_GetState contract loc = Address_Hash a.

(** A dynamic array of addresses: its length is at the slot. *)
Definition holds_array (slot : Hash) (l : list Address) : Prop :=
  Z.of_nat (length l) < 2 ^ 64 /\ holds_Z slot (Z.of_nat (length l)) /\
  forall i a, l !! i = Some a -> holds_address (sol_element slot i) a.

Definition holds_candidate (a : Address) (c : Candidate) : Prop :=
  let field l := sol_field (sol_value (sol_variable (lo_Slot (CandidateDataLayout cfg))) a) (lo_Slot l) in
  holds_address (field (si_Owner (CandidateDataStruct cfg))) (cs_owner c) /\
  holds_Z (field (si_TotalStake (CandidateDataStruct cfg))) (cs_total c) /\
  holds_array (sol_value (sol_variable (lo_Slot (CandidateVotersLayout cfg))) a) (cs_voters c).*1 /\
  forall v s, (v, s) ∈ cs_voters c -> holds_Z (sol_value (field (si_VotersStakes (CandidateDataStruct cfg))) v) s.

(** The storage of the contract holds the value. *)
Definition represents (ct : Contract) : Prop :=
  holds_array (sol_variable (lo_Slot (CandidatesLayout cfg))) (ct_candidates ct).*1 /\
  (forall a c, (a, c) ∈ ct_candidates ct -> holds_candidate a c) /\
  holds_Z (sol_variable (lo_Slot (MaxValidatorSizeLayout cfg))) (ct_max ct) /\
  holds_Z (sol_variable (lo_Slot (MinValidatorStakeLayout cfg))) (ct_min ct) /\
  holds_Z (sol_variable (lo_Slot (StartBlockLayout cfg))) (ct_start ct) /\
  holds_Z (sol_variable (lo_Slot (EpochPeriodLayout cfg))) (ct_period ct) /\
  holds_Z (sol_variable (lo_Slot (MinVoterCapLayout cfg))) (ct_cap ct) /\
  holds_address (sol_variable (lo_Slot (AdminLayout cfg))) (ct_admin ct).

(** The validators the code selects from a value of the contract. *)
Definition qualified (ct : Contract) : list Address :=
  (filter (fun x => ct_min ct <= cs_total x.2) (ct_candidates ct)).*1.

Definition selected (ct : Contract) : option (list Address) :=
  if Z.of_nat (length (qualified ct)) <=? ct_max ct then appended (qualified ct)
  else Some (take (Z.to_nat (ct_max ct)) (ct_candidates ct).*1).

Definition data_of (c : Candidate) : CandidateData :=
  MkCandidate (cs_owner c) (list_to_map (cs_voters c)) (cs_total c).

Lemma Hash_Big_BigToHash z : 0 <= z < 2 ^ 256 -> Hash_Big (BigToHash z) = z.
Proof.
  intros Hz. unfold Hash_Big, BigToHash, BytesToHash. rewrite bytes_of_mk, SetBytes_fit, SetBytes_BigBytes; [done|lia|].
  apply BigBytes_length_bound. change (256 ^ Z.of_nat HashLength) with (2 ^ 256). lia.
Qed.

Lemma getBigInt_holds loc z : holds_Z loc z -> getBigInt contract loc = z.
Proof. intros [Hz He]. unfold getBigInt. rewrite He. by apply Hash_Big_BigToHash. Qed.

Lemma getAddress_holds loc a : holds_address loc a -> getAddress contract loc = a.
Proof.
  unfold holds_address, getAddress. intros ->. unfold HexToAddress, Hash_Hex. rewrite FromHex_Encode.
  unfold Address_Hash, BytesToHash, BytesToAddress. rewrite bytes_of_mk, fit_short.
  - apply (inj bytes_of). rewrite bytes_of_mk. apply fit_app, bytes_of_length.
  - rewrite bytes_of_length. unfold AddressLength, HashLength. lia.
Qed.

(** The locations the code computes. *)
Lemma getElementArrayLoc_sol slot i :
  Z.of_nat i < 2 ^ 64 -> getElementArrayLoc slot (Z.of_nat i) defaultElementSize = sol_element slot i.
Proof.
  intros Hi. unfold getElementArrayLoc, sol_element, defaultElementSize.
  by rewrite Z.mul_1_r, uint64_small by (unfold is_uint64; lia).
Qed.

Lemma array_holds slot l :
  holds_array slot l ->
  (fun i => getAddress contract (getElementArrayLoc slot i defaultElementSize))
    <$> seqZ 0 (Big_Uint64 (getBigInt contract slot)) = l.
Proof.
  intros (Hl & Hz & Ha). rewrite (getBigInt_holds _ _ Hz). unfold Big_Uint64.
  rewrite Z.abs_eq, uint64_small by (unfold is_uint64; lia). apply list_eq. intros i.
  rewrite list_lookup_fmap. destruct (l !! i) as [a|] eqn:Ei.
  - apply lookup_lt_Some in Ei as Hlt. rewrite (lookup_seqZ_lt 0 _ i) by lia. cbn [fmap option_fmap option_map].
    f_equal. rewrite Z.add_0_l, getElementArrayLoc_sol by lia. apply getAddress_holds, Ha, Ei.
  - rewrite (lookup_seqZ_ge 0 _ i) by (apply lookup_ge_None in Ei; lia). done.
Qed.

Lemma foldl_insert_lookup {A} (f : Address -> A) l (m : gmap Address A) a :
  foldl (fun m a => <[a := f a]> m) m l !! a = if decide (a ∈ l) then Some (f a) else m !! a.
Proof.
  revert m. induction l as [|b l IH]; intros m; cbn [foldl].
  { case_decide as E; [by apply elem_of_nil in E|done]. }
  rewrite IH. destruct (decide (a ∈ l)) as [Hl|Hl]; [by rewrite decide_True by by right|].
  destruct (decide (a = b)) as [->|Hne].
  { rewrite decide_True by by left. apply lookup_insert_eq. }
  rewrite decide_False by (by intros [?|?]%elem_of_cons). by rewrite lookup_insert_ne.
Qed.

(** Reading every key of an association list whose values are what the keys read. *)
Lemma foldl_insert_list {A} (f : Address -> A) (l : list (Address * A)) :
  (forall a x, (a, x) ∈ l -> f a = x) -> foldl (fun m a => <[a := f a]> m) ∅ l.*1 = list_to_map l :> gmap Address A.
Proof.
  intros Hf. apply map_eq. intros a. rewrite foldl_insert_lookup, lookup_empty. case_decide as Ha.
  - destruct ((list_to_map l : gmap Address A) !! a) as [x|] eqn:E.
    + apply elem_of_list_to_map_2 in E. f_equal. by apply Hf.
    + apply not_elem_of_list_to_map_2 in E. done.
  - symmetry. by apply not_elem_of_list_to_map_1.
Qed.

Lemma GetCandidateData_holds a c : holds_candidate a c -> GetCandidateData cfg contract a = data_of c.
Proof.
  intros (Ho & Ht & Hv & Hs). unfold GetCandidateData, data_of. f_equal; [exact (getAddress_holds _ _ Ho)| |exact (getBigInt_holds _ _ Ht)].
  assert (GetVoters cfg contract a = (cs_voters c).*1) as -> by exact (array_holds _ _ Hv).
  apply foldl_insert_list. intros v s Hin. exact (getBigInt_holds _ _ (Hs v s Hin)).
Qed.

Lemma eligible_holds ct : represents ct -> eligible cfg contract (ct_candidates ct).*1 = qualified ct.
Proof.
  intros (_ & Hc & _ & Hmin & _). unfold eligible, qualified.
  assert (GetMinValidatorStake cfg contract = ct_min ct) as -> by exact (getBigInt_holds _ _ Hmin).
  revert Hc. generalize (ct_candidates ct). intros l Hc. induction l as [|[a c] l IH]; [done|].
  rewrite fmap_cons, !filter_cons. cbn [fst snd].
  assert (GetCandidateStake cfg contract a = cs_total c) as ->.
  { destruct (Hc a c ltac:(by left)) as (_ & Ht & _). exact (getBigInt_holds _ _ Ht). }
  case_decide; rewrite ?fmap_cons, IH; try done; intros; apply Hc; by right.
Qed.
End represents.

(** C38: the storage reader implements the contract. When the storage of the staking
    contract holds a value of it, laid out by Solidity's rules, [GetCandidates] returns
    its candidates, [GetValidatorsData] owners, stakes and voters of all of them, and
    [GetValidators] the candidates with the least stake as long as they are not too
    many; when they are, it returns the first candidates of the array, whatever their
    stakes. Without candidates it returns an error. The other settings of the contract
    are read as they are stored. *)
Theorem staking_refines `{C : Crypto} {S : StateReader} (cfg : IndexConfigs) (contract : Address) (ct : Contract) :
  represents cfg contract ct -> ct_max ct < 2 ^ 63 -> st_GetCode contract <> [] ->
  GetCandidates cfg contract
    = (if bool_decide (ct_candidates ct = []) then inl ErrEmptyValidatorSet else inr (ct_candidates ct).*1) /\
  GetValidatorsData cfg contract (ct_candidates ct).*1
    = list_to_map (prod_map id data_of <$> ct_candidates ct) /\
  GetValidators cfg contract
    = (if bool_decide (ct_candidates ct = []) then fail ErrEmptyValidatorSet else mret (selected ct)) /\
  (GetStartBlock cfg contract, GetEpochPeriod cfg contract, GetMaxValidatorSize cfg contract,
   GetMinValidatorStake cfg contract, GetMinVoterCap cfg contract, GetAdmin cfg contract)
    = (ct_start ct, ct_period ct, ct_max ct, ct_min ct, ct_cap ct, ct_admin ct).
Proof.
  intros Hr Hmax Hcode. pose proof (eligible_holds _ _ _ Hr) as Hel.
  destruct Hr as (Harr & Hc & Hm & Hmin & Hst & Hpe & Hca & Had).
  assert (Hcands : GetCandidates cfg contract
    = if bool_decide (ct_candidates ct = []) then inl ErrEmptyValidatorSet else inr (ct_candidates ct).*1).
  { unfold GetCandidates. change (slotHash (CandidatesLayout cfg)) with (sol_variable (lo_Slot (CandidatesLayout cfg))).
    rewrite (array_holds _ _ _ Harr). destruct Harr as (_ & Hz & _). rewrite (getBigInt_holds _ _ _ Hz), length_fmap. destruct (ct_candidates ct) as [|x l]; [done|]. cbn [length].
    by rewrite (proj2 (Z.eqb_neq _ _)) by lia. }
  split; [done|]. split_and!.
  - unfold GetValidatorsData.
    assert (Hfst : (prod_map id data_of <$> ct_candidates ct).*1 = (ct_candidates ct).*1)
      by (rewrite <- list_fmap_compose; by apply list_fmap_ext).
    rewrite <- Hfst. apply foldl_insert_list. intros a d ([a' c] & [= -> ->] & Hin)%list_elem_of_fmap.
    by apply GetCandidateData_holds, Hc.
  - unfold GetValidators. destruct (st_GetCode contract) as [|b0 code] eqn:Eb; [done|]. rewrite Hcands. cbn [length Nat.eqb].
    destruct (bool_decide_reflect (ct_candidates ct = [])) as [|Hne]; [done|]. fal. cbv zeta.
    rewrite Hel.
    assert (GetMaxValidatorSize cfg contract = ct_max ct) as -> by exact (getBigInt_holds _ _ _ Hm). destruct Hm as [Hm _].
    unfold Big_Uint64. rewrite Z.abs_eq, uint64_small, int64_small by (unfold is_uint64, is_int64; lia).
    unfold selected. destruct (Z.leb_spec (Z.of_nat (length (qualified ct))) (ct_max ct)) as [|Hgt]; [done|].
    unfold slice_to. assert (length (qualified ct) <= length (ct_candidates ct))%nat.
    { unfold qualified. rewrite length_fmap. apply length_filter. }
    rewrite (proj2 (Z.ltb_ge _ _)), (proj2 (Z.ltb_ge _ _)) by (rewrite ?length_fmap; lia). done.
  - f_equal; [repeat f_equal; by eapply getBigInt_holds|exact (getAddress_holds _ _ _ Had)].
Qed.
