(* ===== verification/Proposer.v ===== *)
(** * Making a proposal

    The other half of [src/consensus/tendermint/backend/engine.go]: the header fields a
    proposer fills in ([Prepare]), the validators of the next epoch it writes into the
    last header of an epoch, its seal, and [VerifyProposalHeader], with which the other
    validators check them. The state database and the cache of computed validator sets
    are interfaces; the caller that runs the staking contract in the EVM is a function
    the engine is given. *)

From S2P Require Import Prelude Bytes RlpEncode RlpDecode RlpCanonical Types Fallible ValidatorSet Messages Timeout Engine Staking.

(** [consensus.FullChainReader]: [StateAt] opens the state of a root. *)
Class FullChainReader : Type := {
  fc_ChainReader :: ChainReader;
  fc_StateAt : Hash -> error + StateReader
}.

(** The ARC cache of [github.com/hashicorp/golang-lru], holding slices; [None] is a nil
    slice. *)
Class ValSetCache : Type := {
  vcache : Type;
  vc_Get : Z -> vcache -> option (option (list Address)) * vcache;
  vc_Add : Z -> option (list Address) -> vcache -> vcache
}.

Section proposer.
Context `{C : Crypto} {Ch : FullChainReader} {V : ValSetCache}.
Context (cfg : Config) (index : IndexConfigs) (key : PrivateKey).
Context (evm_GetValidators : StateReader -> Header -> Address -> fallible (option (list Address))).

(** The contract [New] keeps: the zero address with fixed validators. *)
Definition stakingContractAddr : Address :=
  if 0 <? Z.of_nat (length (fixed_validators cfg)) then zeroAddress else default zeroAddress (cfg_StakingSCAddress cfg).

(** [getStakingCaller(...).GetValidators(sb.stakingContractAddr)] *)
Definition caller_GetValidators (state : StateReader) (header : Header) : fallible (option (list Address)) :=
  if cfg_UseEVMCaller cfg then evm_GetValidators state header stakingContractAddr
  else GetValidators (S := state) index stakingContractAddr.

(** The validators computed from the state of a header, kept by the number of it. *)
Definition getNextValidatorSet (header : Header) : M vcache (error + option (list Address)) :=
  n ← deref (h_Number header);
  let number := Big_Uint64 n in
  cached ← (fun c => Ok (vc_Get number c));
  match cached with
  | Some addresses => mret (inr addresses)
  | None =>
      match fc_StateAt (h_Root header) with
      | inl e => mret (inl e)
      | inr state =>
          match caller_GetValidators state header with
          | Ok (inl e) => mret (inl e)
          | Ok (inr validators) => modify (vc_Add number validators);; mret (inr validators)
          | Panic => panic
          | OutOfFuel => diverge
          end
      end
  end.

(** ** Preparing a header *)
Definition with_consensus (h : Header) (coinbase : Address) (difficulty time : Z) (extra : bytes) : Header :=
  MkHeader (h_ParentHash h) (h_UncleHash h) coinbase (h_Root h) (h_TxHash h) (h_ReceiptHash h) (h_Bloom h)
    (Some difficulty) (h_Number h) (h_GasLimit h) (h_GasUsed h) time extra TendermintDigest (h_Nonce h).

(** [prepareExtra]: the vanity, padded with zeros, and empty Tendermint data. *)
Definition prepareExtra (header : Header) : bytes :=
  let extra := h_Extra header in
  let extra := if (length extra <? TendermintExtraVanity)%nat
               then extra ++ replicate (TendermintExtraVanity - length extra) (byte_of_Z 0) else extra in
  take TendermintExtraVanity extra
  ++ match EncodeToBytes (extra_gval (MkExtra [] [] [])) with inr (Ok payload) => payload | _ => [] end.

(** [addValSetToHeader]: the header, changed unless there is an error. *)
Definition addValSetToHeader (header parent : Header) : M vcache (error + Header) :=
  n ← deref (h_Number header);
  if cfg_Epoch cfg =? 0 then panic
  else if negb (Big_Uint64 n mod cfg_Epoch cfg =? 0) then mret (inr header)
  else
    validators ← getNextValidatorSet parent;
    match validators with
    | inl e => mret (inl e)
    | inr validators => mret (WriteValSet header (default [] validators))
    end.

(** [Prepare] at the time [now], in seconds: an error of [addValSetToHeader] is logged. *)
Definition Prepare (now : Z) (header : Header) : M vcache (error + Header) :=
  n ← deref (h_Number header);
  match ch_GetHeader (h_ParentHash header) (uint64 (Big_Uint64 n - 1)) with
  | None => mret (inl ErrUnknownAncestor)
  | Some parent =>
      let headerTime := h_Time parent + cfg_BlockPeriod cfg in
      let time := if Big_Int64 headerTime <? now then uint64 now else Big_Uint64 headerTime in
      let header := with_consensus header (PubkeyAddress key) defaultDifficulty time (prepareExtra header) in
      r ← addValSetToHeader header parent;
      match r with
      | inl _ => mret (inr header)
      | inr header => mret (inr header)
      end
  end.

(** ** Sealing *)
Definition addProposalSeal (h : Header) : error + Header :=
  match Sign (keccak256 (bytes_of (SigHash h))) key with
  | None => inl ErrSign
  | Some seal => WriteSeal h seal
  end.

(** [Seal] up to the posting of the block to the core: the block that is posted. *)
Definition Seal_block (block : Block) : fallible Block :=
  let header := Block_Header block in
  n ← raise (h_Number header);
  let blockNumber := Big_Uint64 n in
  if blockNumber =? 0 then fail (ErrOther 0)
  else
    valSet ← checked_GetValSet cfg (int64 blockNumber);
    header ← check (addProposalSeal header);
    let block := WithSeal block header in
    match (GetByAddress valSet (PubkeyAddress key)).2 with
    | None => fail ErrUnauthorized
    | Some _ =>
        match ch_GetHeader (h_ParentHash header) (uint64 (blockNumber - 1)) with
        | None => fail ErrUnknownAncestor
        | Some _ => mret block
        end
    end.

(** ** Checking a proposal *)
Definition VerifyProposalHeader (now : Z) (header : Header) : M vcache (error + unit) :=
  n ← deref (h_Number header);
  let number := Big_Uint64 n in
  let rest : M vcache (error + unit) :=
    match verifyHeader cfg now header [] with
    | Ok r => mret r
    | Panic => panic
    | OutOfFuel => diverge
    end in
  if cfg_Epoch cfg =? 0 then panic
  else if number mod cfg_Epoch cfg =? 0 then
    match ch_GetHeader (h_ParentHash header) (uint64 (number - 1)) with
    | None => mret (inl ErrUnknownParent)
    | Some parent =>
        validators ← getNextValidatorSet parent;
        match validators with
        | inl e => mret (inl e)
        | inr validators =>
            match GetValSetAddresses header with
            | inl e => mret (inl e)
            | inr valSetInHeader =>
                if negb (bool_decide (validators = Some valSetInHeader)) then mret (inl ErrMismatchValSet) else rest
            end
        end
    end
  else rest.
End proposer.

(** ** The cache of validator sets

    What the code relies on: a hit returns a value added for the number before. *)
Class ValSetCacheLaws (V : ValSetCache) : Type := {
  vc_holds : vcache -> Z -> option (list Address) -> Prop;
  vc_Get_holds : forall k c x c', vc_Get k c = (Some x, c') -> vc_holds c k x;
  vc_Get_keeps : forall k c r c' k' y, vc_Get k c = (r, c') -> vc_holds c' k' y -> vc_holds c k' y;
  vc_Add_holds : forall k x c k' y, vc_holds (vc_Add k x c) k' y -> (k' = k /\ y = x) \/ vc_holds c k' y
}.

Section cached.
Context `{C : Crypto} {Ch : FullChainReader} {V : ValSetCache} {VL : ValSetCacheLaws V}.
Context (cfg : Config) (index : IndexConfigs).
Context (evm_GetValidators : StateReader -> Header -> Address -> fallible (option (list Address))).

(** The validators computed from the state of a header, without the cache. *)
Definition computed_validators (header : Header) : fallible (option (list Address)) :=
  match fc_StateAt (h_Root header) with
  | inl e => fail e
  | inr state => caller_GetValidators cfg index evm_GetValidators state header
  end.

(** The entries of the cache are those of one chain of headers. *)
Definition valid_cache (chain : Z -> option Header) (c : vcache) : Prop :=
  forall k x, vc_holds c k x -> exists h, chain k = Some h /\ computed_validators h = Ok (inr x).

Lemma getNextValidatorSet_computed chain h n c :
  valid_cache chain c -> h_Number h = Some n -> chain (Big_Uint64 n) = Some h ->
  match computed_validators h with
  | Ok r => exists c', getNextValidatorSet cfg index evm_GetValidators h c = Ok (r, c') /\ valid_cache chain c'
  | Panic => getNextValidatorSet cfg index evm_GetValidators h c = Panic
  | OutOfFuel => getNextValidatorSet cfg index evm_GetValidators h c = OutOfFuel
  end.
Proof.
  intros Hv Hn Hc. unfold getNextValidatorSet. rewrite Hn. cbn [deref]. run.
  destruct (vc_Get (Big_Uint64 n) c) as [[x|] c1] eqn:Eg.
  - destruct (Hv _ _ (vc_Get_holds _ _ _ _ Eg)) as (h' & Hh & Hx). rewrite Hc in Hh. injection Hh as <-.
    rewrite Hx. exists c1. split; [done|]. intros k y Hy. by eapply Hv, vc_Get_keeps.
  - assert (Hv1 : valid_cache chain c1) by (intros k y Hy; by eapply Hv, vc_Get_keeps).
    unfold computed_validators. destruct (fc_StateAt (h_Root h)) as [e|st] eqn:Es; [by exists c1|].
    destruct (caller_GetValidators _ _ _ st h) as [[e|x]| |] eqn:Ec; [by exists c1| |done|done].
    eexists. split; [done|]. intros k y [[-> ->]|Hy]%vc_Add_holds; [|by apply Hv1].
    exists h. split; [done|]. unfold computed_validators. by rewrite Es.
Qed.

(** Caching the validators does not change them. For the headers of one chain,
    [getNextValidatorSet] returns what it would compute from the state, the same error
    or failure included, whatever was asked before. *)
Theorem getNextValidatorSet_cached (chain : Z -> option Header) (c : vcache) (hs : list Header) :
  valid_cache chain c ->
  Forall (fun h => exists n r, h_Number h = Some n /\ chain (Big_Uint64 n) = Some h /\ computed_validators h = Ok r) hs ->
  exists rs c', mapM (getNextValidatorSet cfg index evm_GetValidators) hs c = Ok (rs, c') /\
    Ok <$> rs = computed_validators <$> hs.
Proof.
  intros Hv Hf. revert c Hv. induction Hf as [|h hs (n & r & Hn & Hc & Hr) Hf IH]; intros c Hv; [by exists [], c|].
  pose proof (getNextValidatorSet_computed _ _ _ _ Hv Hn Hc) as Hg. rewrite Hr in Hg.
  destruct Hg as (c1 & Hg & Hv1). destruct (IH c1 Hv1) as (rs & c2 & Hm & He).
  exists (r :: rs), c2. split; [|by rewrite !fmap_cons, Hr, He].
  cbn [mapM]. apply bind_Ok. exists r, c1. split; [done|]. apply bind_Ok. by exists rs, c2.
Qed.
End cached.

(** ** Proposals verify *)

(** Between [Prepare] and [Seal] the worker fills in the other fields of the header. *)
Definition assembled (prepared header : Header) : Prop :=
  h_ParentHash header = h_ParentHash prepared /\ h_Coinbase header = h_Coinbase prepared /\
  h_Difficulty header = h_Difficulty prepared /\ h_Number header = h_Number prepared /\
  h_Time header = h_Time prepared /\ h_Extra header = h_Extra prepared /\ h_MixDigest header = h_MixDigest prepared.

Lemma length_prepared_vanity (header : Header) :
  let extra := h_Extra header in
  length (take TendermintExtraVanity
    (if (length extra <? TendermintExtraVanity)%nat
     then extra ++ replicate (TendermintExtraVanity - length extra) (byte_of_Z 0) else extra)) = TendermintExtraVanity.
Proof.
  cbv zeta. rewrite length_take. destruct (Nat.ltb_spec (length (h_Extra header)) TendermintExtraVanity);
    rewrite ?length_app, ?length_replicate; lia.
Qed.

(** The extra data [prepareExtra] makes: the vanity, and nothing else. *)
Lemma prepareExtra_eq (header : Header) :
  exists vanity, length vanity = TendermintExtraVanity /\
    prepareExtra header = vanity ++ ref_encode (extra_gval (MkExtra [] [] [])).
Proof.
  eexists. split; [apply length_prepared_vanity|]. unfold prepareExtra.
  rewrite (EncodeToBytes_ty _ _ (extra_has_ty (MkExtra [] [] []))); [done|]. by vm_compute.
Qed.

(** Headers whose extra data holds the given fields, and is small. *)
Definition holds_extra (h : Header) (te : TendermintExtra) : Prop :=
  ExtractTendermintExtra h = inr te /\ Z.of_nat (length (h_Extra h)) < 2 ^ 62.

Lemma holds_extra_same h h' te : h_Extra h' = h_Extra h -> holds_extra h te -> holds_extra h' te.
Proof. intros He [Hx Hl]. split; [|by rewrite He]. unfold ExtractTendermintExtra in *. by rewrite He. Qed.

Lemma holds_prepareExtra h header : h_Extra h = prepareExtra header -> holds_extra h (MkExtra [] [] []).
Proof.
  intros He. destruct (prepareExtra_eq header) as (v & Hv & Hp). rewrite Hp in He.
  assert (Hf : fits (extra_gval (MkExtra [] [] []))) by by vm_compute.
  assert (Ht : take TendermintExtraVanity (h_Extra h) = v) by (rewrite He, <- Hv; apply take_app_length).
  split.
  - pose proof (Extract_put h (MkExtra [] [] []) Hf) as Hx. rewrite Ht, <- He in Hx.
    rewrite <- (with_Extra_id h). apply Hx. rewrite He, length_app. lia.
  - rewrite He, length_app, Hv. by vm_compute.
Qed.

Lemma holds_put h te te' n :
  holds_extra h te -> fits (extra_gval te') ->
  (length (te_Seal te') + length (te_ValidatorAdds te') + length (seals_enc (te_CommittedSeal te')) <= n)%nat ->
  Z.of_nat n < 2 ^ 61 ->
  exists h', put_extra h te' = inr h' /\ holds_extra h' te' /\ h' = with_Extra h (h_Extra h').
Proof.
  intros [He Hl] Hf Hle Hn. eexists. split; [by apply put_extra_eq|]. split; [|done]. split.
  - apply Extract_put; [done|]. by eapply Extract_length.
  - cbn [with_Extra h_Extra]. rewrite length_app, length_take, extra_enc.
    pose proof (length_ref_string_le (te_Seal te') ltac:(lia)). pose proof (length_ref_string_le (te_ValidatorAdds te') ltac:(lia)).
    assert (TendermintExtraVanity = 32%nat) by done.
    match goal with |- context [ref_list ?p] =>
      assert (length p <= n + 18)%nat by (rewrite !length_app; lia); pose proof (length_ref_list_le p ltac:(lia)) end.
    lia.
Qed.

Section proposal.
Context `{C : Crypto} {CL : CryptoLaws C} {Ch : FullChainReader} {V : ValSetCache} {VL : ValSetCacheLaws V}.
Context (cfg : Config) (index : IndexConfigs) (key : PrivateKey).
Context (evm_GetValidators : StateReader -> Header -> Address -> fallible (option (list Address))).
Context (chain : Z -> option Header) (n : Z) (parent : Header) (vals : list Address).

(** Making a block of number [n] on the given parent; [vals] are the validators of the
    next epoch when the block ends one. *)
Record next_block : Prop := {
  nb_epoch : 0 < cfg_Epoch cfg < 2 ^ 64;
  nb_number : 0 < n < 2 ^ 63;
  nb_get : ch_GetHeader (Header_Hash parent) (n - 1) = Some parent;
  nb_parent : h_Number parent = Some (n - 1);
  nb_chain : chain (n - 1) = Some parent;
  nb_time : 0 <= h_Time parent + cfg_BlockPeriod cfg < 2 ^ 63;
  nb_vals : Z.of_nat (length vals) < 2 ^ 32;
  nb_computed : n mod cfg_Epoch cfg = 0 ->
    computed_validators cfg index evm_GetValidators parent = Ok (inr (Some vals))
}.

(** A header as [Prepare] leaves it. *)
Record prepared (now : Z) (h : Header) (te : TendermintExtra) : Prop := {
  pr_parent : h_ParentHash h = Header_Hash parent;
  pr_number : h_Number h = Some n;
  pr_coinbase : h_Coinbase h = PubkeyAddress key;
  pr_difficulty : h_Difficulty h = Some defaultDifficulty;
  pr_mix : h_MixDigest h = TendermintDigest;
  pr_time : h_Time h = Z.max now (h_Time parent + cfg_BlockPeriod cfg);
  pr_extra : holds_extra h te;
  pr_seals : te_CommittedSeal te = [];
  pr_size : (length (te_ValidatorAdds te) <= length vals * 29 + 9)%nat;
  pr_vals : n mod cfg_Epoch cfg = 0 -> te_ValidatorAdds te = ref_encode (addresses_gval vals)
}.

Lemma Big_Uint64_id z : 0 <= z < 2 ^ 64 -> Big_Uint64 z = z.
Proof. intros Hz. unfold Big_Uint64. rewrite Z.abs_eq, uint64_small by (unfold is_uint64; lia). done. Qed.

Lemma Big_Int64_id z : 0 <= z < 2 ^ 63 -> Big_Int64 z = z.
Proof.
  intros Hz. unfold Big_Int64. rewrite (proj2 (Z.ltb_ge _ _)), Big_Uint64_id, int64_small by (unfold is_int64; lia). done.
Qed.

Lemma next_validators_of (nb : next_block) c :
  valid_cache cfg index evm_GetValidators chain c -> n mod cfg_Epoch cfg = 0 ->
  exists c', getNextValidatorSet cfg index evm_GetValidators parent c = Ok (inr (Some vals), c') /\
    valid_cache cfg index evm_GetValidators chain c'.
Proof.
  intros Hv Hm. destruct nb as [He Hn _ Hp Hc _ _ Hcv].
  pose proof (getNextValidatorSet_computed cfg index evm_GetValidators chain parent (n - 1) c Hv Hp) as Hg.
  rewrite Big_Uint64_id in Hg by lia. specialize (Hg Hc). rewrite (Hcv Hm) in Hg. exact Hg.
Qed.

Lemma Prepare_prepared (nb : next_block) now header c :
  h_ParentHash header = Header_Hash parent -> h_Number header = Some n -> 0 <= now < 2 ^ 63 ->
  valid_cache cfg index evm_GetValidators chain c ->
  exists h te c', Prepare cfg index key evm_GetValidators now header c = Ok (inr h, c') /\ prepared now h te /\
    valid_cache cfg index evm_GetValidators chain c'.
Proof.
  intros Hpar Hnum Hnow Hv. pose proof nb as [He Hn Hget Hp Hc Ht Hl _]. unfold Prepare. rewrite Hnum, deref_Some.
  cbv beta zeta.
  rewrite Big_Uint64_id, uint64_small, Hpar, Hget, Big_Int64_id, (Big_Uint64_id (_ + _)), (uint64_small now)
    by (unfold is_uint64; lia).
  set (time := if _ <? now then now else _).
  assert (Htime : time = Z.max now (h_Time parent + cfg_BlockPeriod cfg)) by (unfold time; destruct (Z.ltb_spec (h_Time parent + cfg_BlockPeriod cfg) now); lia).
  set (h0 := with_consensus header _ _ _ _).
  assert (Hx : holds_extra h0 (MkExtra [] [] [])) by (apply (holds_prepareExtra h0 header); done).
  unfold addValSetToHeader. replace (h_Number h0) with (Some n) by done. run. cbn [deref]. run.
  rewrite Big_Uint64_id, (proj2 (Z.eqb_neq (cfg_Epoch cfg) 0)) by lia.
  destruct (Z.eqb_spec (n mod cfg_Epoch cfg) 0) as [Hm|Hm]; cbn [negb].
  - destruct (next_validators_of nb c Hv Hm) as (c' & Hg & Hv'). rewrite Hg. cbn [default id].
    destruct (WriteValSet_eq h0 _ vals (proj1 Hx) (proj2 Hx) Hl) as [Hf ->]. pose proof (length_addresses_le vals Hl) as Hlen.
    destruct (holds_put h0 _ _ (length vals * 29 + 10) Hx Hf) as (h & -> & Hh & Heq);
      [cbn [te_Seal te_ValidatorAdds te_CommittedSeal length]; change (length (seals_enc [])) with 1%nat; lia|lia|].
    eexists h, _, c'. split; [done|]. split; [|done]. rewrite Heq. by split.
  - eexists h0, _, c. split; [done|]. split; [|done]. split; try done; try lia. cbn. lia.
Qed.

Lemma prepared_assembled now h h' te : prepared now h te -> assembled h h' -> prepared now h' te.
Proof.
  intros [? ? ? ? ? ? Hx ? ? ?] (H1 & H2 & H3 & H4 & H5 & H6 & H7). split; [congruence..|by apply (holds_extra_same h)|done|done|done].
Qed.

(** What sealing a block gives: a block that differs in the seal of its extra data. *)
Lemma Seal_block_sealed (nb : next_block) now b te v :
  prepared now (b_header b) te -> checked_GetValSet cfg n = mret v -> PubkeyAddress key ∈ vs_validators v ->
  (forall d, is_Some (Sign d key)) ->
  exists b' te', Seal_block cfg key b = mret b' /\ prepared now (b_header b') te' /\
    blockProposer (b_header b') = inr (PubkeyAddress key) /\
    b_transactions b' = b_transactions b /\ b_uncles b' = b_uncles b.
Proof.
  intros Hpr Hv Hin Hsign. pose proof nb as [He Hn Hget _ _ _ Hl _]. unfold Seal_block, Block_Header.
  assert (CopyHeader (b_header b) = b_header b) as ->.
  { pose proof (pr_number _ _ _ Hpr) as Ha. pose proof (pr_difficulty _ _ _ Hpr) as Hb.
    destruct (b_header b); cbn in *. by rewrite Ha, Hb. }
  set (h := b_header b) in *. rewrite (pr_number _ _ _ Hpr), raise_Some. cbv zeta.
  rewrite Big_Uint64_id, (proj2 (Z.eqb_neq n 0)), int64_small, Hv by (unfold is_int64; lia). fal.
  unfold addProposalSeal. destruct (Hsign (keccak256 (bytes_of (SigHash h)))) as [seal Hs]. rewrite Hs.
  pose proof (sign_length _ _ _ Hs) as Hlen.
  pose proof (pr_extra _ _ _ Hpr) as Hx. destruct (WriteSeal_eq h te seal (proj1 Hx) (proj2 Hx) Hlen) as [Hf ->].
  destruct (holds_put h te _ (length vals * 29 + 9 + 66) Hx Hf) as (h' & Hput & Hh & Heq).
  { cbn [te_Seal te_ValidatorAdds te_CommittedSeal]. rewrite Hlen, (pr_seals _ _ _ Hpr).
    change (length (seals_enc [])) with 1%nat. pose proof (pr_size _ _ _ Hpr). lia. }
  { lia. }
  rewrite Hput. destruct (GetByAddress_in v _ Hin) as (i & -> & _). cbn [snd].
  assert (Hp' : prepared now h' (MkExtra seal (te_CommittedSeal te) (te_ValidatorAdds te))).
  { destruct Hpr. rewrite Heq. by split. }
  rewrite (pr_parent _ _ _ Hp'), uint64_small, Hget by (unfold is_uint64; lia).
  eexists _, _. split; [done|]. split_and!; [exact Hp'| |done|done].
  unfold blockProposer. cbn [WithSeal b_header]. rewrite (proj1 Hh). cbn [te_Seal].
  unfold GetSignatureAddress, SigHash.
  rewrite (Filtered_rewritten h te _ h' false (proj1 Hx) (Extract_fits h te (proj1 Hx) (proj2 Hx)) Hf Hput I).
  unfold SigHash in Hs. by rewrite (sign_recovers _ _ _ Hs).
Qed.

Lemma prepared_verifies (nb : next_block) now now' h te v c m :
  prepared now h te -> blockProposer h = inr (PubkeyAddress key) ->
  checked_GetValSet cfg n = mret v -> PubkeyAddress key ∈ vs_validators v ->
  h_Number ch_CurrentHeader = Some m -> n - 1 <= m < 2 ^ 64 -> h_Time h <= now' < 2 ^ 64 -> 0 <= now' ->
  valid_cache cfg index evm_GetValidators chain c ->
  exists c', VerifyProposalHeader cfg index evm_GetValidators now' h c = Ok (inl ErrEmptyCommittedSeals, c') /\
    valid_cache cfg index evm_GetValidators chain c'.
Proof.
  intros Hpr Hb Hv Hin Hm Hmr Hnow Hnow0 Hc. pose proof nb as [He Hn Hget Hp _ _ Hl _].
  destruct (pr_extra _ _ _ Hpr) as [Hx _].
  assert (Hhdr : verifyHeader cfg now' h [] = fail ErrEmptyCommittedSeals).
  { unfold verifyHeader. rewrite (pr_number _ _ _ Hpr), Big_Uint64_id, (proj2 (Z.ltb_ge _ _)), Hx by lia.
    rewrite bool_decide_eq_true_2, (pr_difficulty _ _ _ Hpr) by apply (pr_mix _ _ _ Hpr).
    unfold verifyCascadingFields, last_parent. cbn [negb Z.eqb defaultDifficulty Pos.eqb last].
    rewrite (pr_number _ _ _ Hpr), raise_Some. cbv zeta.
    rewrite (Big_Uint64_id n), (proj2 (Z.eqb_neq n 0)), uint64_small, (pr_parent _ _ _ Hpr), Hget, Hp, raise_Some
      by (unfold is_uint64; lia).
    rewrite Big_Uint64_id, Z.eqb_refl, bool_decide_eq_true_2 by (done || lia). cbn [negb orb].
    assert (getValSetFromChain cfg h [] = mret v) as ->.
    { unfold getValSetFromChain. rewrite (pr_number _ _ _ Hpr), raise_Some. cbv zeta.
      rewrite Big_Uint64_id, (GetCheckpointNumber_eq _ n), returns_Ok, int64_small by (unfold is_int64; lia).
      destruct (0 <? _); [done|]. rewrite Hm, raise_Some, Big_Uint64_id by lia.
      pose proof (Z.mod_pos_bound (n - 1) (cfg_Epoch cfg) ltac:(lia)).
      by rewrite (proj2 (Z.leb_le _ _)) by lia. }
    fal. unfold verifyProposalSeal. fal. rewrite Hb, bool_decide_eq_true_2 by (symmetry; apply (pr_coinbase _ _ _ Hpr)).
    cbn [negb]. destruct (GetByAddress_in v _ Hin) as (i & -> & _). cbn [snd].
    unfold verifyCommittedSeals. fal. rewrite Hx. by rewrite (pr_seals _ _ _ Hpr). }
  unfold VerifyProposalHeader. rewrite (pr_number _ _ _ Hpr), deref_Some. cbv zeta.
  rewrite Big_Uint64_id, (proj2 (Z.eqb_neq (cfg_Epoch cfg) 0)), Hhdr by lia.
  destruct (Z.eqb_spec (n mod cfg_Epoch cfg) 0) as [Hmod|Hmod]; [|by exists c].
  rewrite (pr_parent _ _ _ Hpr), uint64_small, Hget by (unfold is_uint64; lia).
  destruct (next_validators_of nb c Hc Hmod) as (c' & Hg & Hv'). run. rewrite Hg.
  rewrite (GetValSetAddresses_enc h te vals Hx (pr_vals _ _ _ Hpr Hmod) Hl). rewrite bool_decide_eq_true_2 by done.
  by exists c'.
Qed.

End proposal.
