(* ===== verification/Reward.v ===== *)
(** * Block rewards

    Models [src/consensus/tendermint/backend/reward.go]: at the end of an epoch the
    rewards of its blocks are divided between the owners and the voters of the
    validators. Go iterates over a map in no particular order; the loops here run over
    lists, and do not depend on their order. *)

From S2P Require Import Prelude Bytes RlpEncode RlpDecode RlpCanonical Types Fallible ValidatorSet Messages Timeout.
From S2P Require Import Engine Staking Proposer.

(** ** Amounts of a map *)
Definition map_sum (m : gmap Address Z) : Z := map_fold (fun _ v acc => v + acc) 0 m.

(** The closure [addReward], and [AddBalance]. *)
Definition add_amount (a : Address) (v : Z) (m : gmap Address Z) : gmap Address Z :=
  match m !! a with
  | Some current => <[a := current + v]> m
  | None => <[a := v]> m
  end.

Lemma map_sum_empty : map_sum ∅ = 0.
Proof. apply map_fold_empty. Qed.

Lemma map_sum_insert a v m : m !! a = None -> map_sum (<[a := v]> m) = v + map_sum m.
Proof. intros Hm. unfold map_sum. apply map_fold_insert_L; [intros; lia|done]. Qed.

Lemma map_sum_delete a v m : m !! a = Some v -> map_sum m = v + map_sum (delete a m).
Proof. intros Hm. unfold map_sum. rewrite (map_fold_delete_L _ 0 a v m); [done|intros; lia|done]. Qed.

Lemma map_sum_add a v m : map_sum (add_amount a v m) = map_sum m + v.
Proof.
  unfold add_amount. destruct (m !! a) as [c|] eqn:E.
  - rewrite <- insert_delete_eq, map_sum_insert by apply lookup_delete_eq. rewrite (map_sum_delete a c m E). lia.
  - rewrite map_sum_insert by done. lia.
Qed.

Lemma add_amount_lookup a b v m :
  default 0 (add_amount a v m !! b) = default 0 (m !! b) + (if decide (a = b) then v else 0).
Proof.
  unfold add_amount. destruct (decide (a = b)) as [->|Hne].
  - destruct (m !! b) as [c|]; rewrite lookup_insert_eq; cbn; lia.
  - destruct (m !! a) as [c|]; rewrite lookup_insert_ne by done; lia.
Qed.

(** Whether an address is in the map does not depend on the amounts. *)
Lemma add_amount_is_Some a b v m : is_Some (add_amount a v m !! b) <-> a = b \/ is_Some (m !! b).
Proof.
  unfold add_amount. destruct (m !! a) as [c|] eqn:E; rewrite lookup_insert_is_Some';
    (destruct (decide (a = b)) as [->|]; [rewrite ?E|]; tauto).
Qed.

Lemma add_amount_comm a b v w m :
  add_amount a v (add_amount b w m) = add_amount b w (add_amount a v m).
Proof.
  apply map_eq. intros c.
  pose proof (add_amount_lookup a c v (add_amount b w m)) as H1. pose proof (add_amount_lookup b c w m) as H2.
  pose proof (add_amount_lookup b c w (add_amount a v m)) as H3. pose proof (add_amount_lookup a c v m) as H4.
  pose proof (add_amount_is_Some a c v (add_amount b w m)) as S1. pose proof (add_amount_is_Some b c w m) as S2.
  pose proof (add_amount_is_Some b c w (add_amount a v m)) as S3. pose proof (add_amount_is_Some a c v m) as S4.
  rewrite S2 in S1. rewrite S4 in S3.
  destruct (add_amount a v (add_amount b w m) !! c) as [x|], (add_amount b w (add_amount a v m) !! c) as [y|].
  - f_equal. cbn in *. lia.
  - exfalso. destruct S3 as [_ S3]. destruct S1 as [S1 _]. destruct S3 as [? ?]; [|done].
    specialize (S1 ltac:(eauto)). tauto.
  - exfalso. destruct S1 as [_ S1]. destruct S3 as [S3 _]. destruct S1 as [? ?]; [|done].
    specialize (S3 ltac:(eauto)). tauto.
  - done.
Qed.

Definition add_all (l : list (Address * Z)) (m : gmap Address Z) : gmap Address Z :=
  foldl (fun m x => add_amount x.1 x.2 m) m l.

Lemma add_all_app l1 l2 m : add_all (l1 ++ l2) m = add_all l2 (add_all l1 m).
Proof. apply foldl_app. Qed.

Lemma add_all_comm a v l m : add_all l (add_amount a v m) = add_amount a v (add_all l m).
Proof.
  revert m. induction l as [|[b w] l IH]; intros m; [done|]. unfold add_all in *. cbn [foldl fst snd].
  rewrite add_amount_comm. apply IH.
Qed.

Lemma add_all_perm l1 l2 m : l1 ≡ₚ l2 -> add_all l1 m = add_all l2 m.
Proof.
  intros Hp. revert m. induction Hp as [|x l1 l2 _ IH|x y l|l1 l2 l3 _ IH1 _ IH2]; intros m; [done|apply IH| |by rewrite IH1].
  unfold add_all. cbn [foldl]. by rewrite add_amount_comm.
Qed.

Lemma map_sum_add_all l m : map_sum (add_all l m) = map_sum m + foldr Z.add 0 (l.*2).
Proof.
  revert m. induction l as [|[a v] l IH]; intros m; unfold add_all in *; cbn [foldl fst snd]; [cbn; lia|].
  rewrite IH, map_sum_add. csimpl. lia.
Qed.

(** ** Rewards of an epoch *)
Definition validatorRewardPercentage : Z := 50.
Definition voterRewardPercentage : Z := 50.

(** The loop over the voters of a validator: what they get, and what remains. *)
Fixpoint pay_voters (totalVoterReward totalStake : Z) (voters : list (Address * Z)) (finalReward : gmap Address Z)
    (remainingReward : Z) : res (gmap Address Z * Z) :=
  match voters with
  | [] => Ok (finalReward, remainingReward)
  | (voter, voterStake) :: r =>
      if totalStake =? 0 then Panic
      else
        let voterReward := totalVoterReward * voterStake / totalStake in
        pay_voters totalVoterReward totalStake r (add_amount voter voterReward finalReward)
          (remainingReward - voterReward)
  end.

Section rewards.
(** The order Go iterates over the voters of a validator in. *)
Context (voter_order : gmap Address Z -> list (Address * Z)).

Fixpoint pay_validators (validatorsData : list (Address * CandidateData)) (validatorsReward : gmap Address Z)
    (finalReward : gmap Address Z) : res (gmap Address Z) :=
  match validatorsData with
  | [] => Ok finalReward
  | (addr, validatorData) :: r =>
      match validatorsReward !! addr with
      | None => pay_validators r validatorsReward finalReward
      | Some totalReward =>
          let totalVoterReward := totalReward * voterRewardPercentage / 100 in
          match pay_voters totalVoterReward (cd_TotalStake validatorData) (voter_order (cd_VoterStakes validatorData))
                  finalReward totalReward with
          | Ok (finalReward, remainingReward) =>
              pay_validators r validatorsReward (add_amount (cd_Owner validatorData) remainingReward finalReward)
          | Panic => Panic
          | OutOfFuel => OutOfFuel
          end
      end
  end.

(** [calculateReward], iterating over the validators in the given order. *)
Definition calculateReward (validatorsData : list (Address * CandidateData)) (validatorsReward : gmap Address Z)
    : res (gmap Address Z) :=
  pay_validators validatorsData validatorsReward ∅.
End rewards.

Section total.
Context {Ch : ChainReader}.

(** What the proposer of a block earns: the block reward and the fees. *)
Definition block_earning (blockReward gasPrice : Z) (h : Header) : Z :=
  blockReward + int64 (h_GasUsed h) * gasPrice.

Fixpoint rewards_of (blockReward gasPrice : Z) (header : Header) (currentBlock : Z) (numbers : list Z)
    (validatorsRewards : gmap Address Z) : res (gmap Address Z) :=
  match numbers with
  | [] => Ok validatorsRewards
  | i :: r =>
      match (if i =? currentBlock then Some header else ch_GetHeaderByNumber i) with
      | None => Panic
      | Some h =>
          rewards_of blockReward gasPrice header currentBlock r
            (add_amount (h_Coinbase h) (block_earning blockReward gasPrice h) validatorsRewards)
      end
  end.

(** [calculateTotalValidatorsRewards]: the blocks of the epoch that ends with the
    header, whose number is [currentBlock]. *)
Definition calculateTotalValidatorsRewards (blockReward gasPrice epoch : Z) (header : Header) (currentBlock : Z)
    : res (gmap Address Z) :=
  rewards_of blockReward gasPrice header currentBlock (seqZ (currentBlock - epoch + 1) epoch) ∅.
End total.

Section accumulate.
Context `{C : Crypto} {Ch : FullChainReader}.
Context (cfg : Config) (gasPrice : Z) (index : IndexConfigs).
Context (voter_order : gmap Address Z -> list (Address * Z)).
Context (validator_order : gmap Address CandidateData -> list (Address * CandidateData)).
Context (evm_GetValidatorsData :
  StateReader -> Header -> Address -> list Address -> error + gmap Address CandidateData).

(** [getStakingCaller(...).GetValidatorsData] on the configured contract: a nil
    address is dereferenced. *)
Definition caller_GetValidatorsData (state : StateReader) (header : Header) (adds : list Address)
    : fallible (gmap Address CandidateData) :=
  contract ← raise (cfg_StakingSCAddress cfg);
  if cfg_UseEVMCaller cfg then check (evm_GetValidatorsData state header contract adds)
  else mret (GetValidatorsData (S := state) index contract adds).

(** [accumulateRewards] on the balances of the state. *)
Definition accumulateRewards (header : Header) (balances : gmap Address Z) : fallible (gmap Address Z) :=
  match cfg_FixedValidators cfg with
  | Some _ =>
      reward ← raise (cfg_BlockReward cfg);
      mret (add_amount (h_Coinbase header) reward balances)
  | None =>
      n ← raise (h_Number header);
      let currentBlock := Big_Uint64 n in
      let epoch := cfg_Epoch cfg in
      if currentBlock =? 0 then fail ErrFinalizeZeroBlock
      else if epoch =? 0 then Panic
      else if negb (currentBlock mod epoch =? 0) then mret balances
      else
        blockReward ← raise (cfg_BlockReward cfg);
        validatorsRewards ← returns (calculateTotalValidatorsRewards blockReward gasPrice epoch header currentBlock);
        transitionHeader ← raise (ch_GetHeaderByNumber (currentBlock - epoch));
        validatorAdds ← check (GetValSetAddresses transitionHeader);
        state ← check (fc_StateAt (h_Root transitionHeader));
        validatorsData ← caller_GetValidatorsData state header validatorAdds;
        finalReward ← returns (calculateReward voter_order (validator_order validatorsData) validatorsRewards);
        mret (add_all (map_to_list finalReward) balances)
  end.
End accumulate.

(** ** Properties *)
Section properties.
Context (voter_order : gmap Address Z -> list (Address * Z)).

(** What a validator's reward pays: the shares of the voters, the rest to the owner. *)
Definition shares (total : Z) (d : CandidateData) : list (Address * Z) :=
  (fun x => (x.1, total * voterRewardPercentage / 100 * x.2 / cd_TotalStake d)) <$> voter_order (cd_VoterStakes d).

Definition payments (rewards : gmap Address Z) (x : Address * CandidateData) : list (Address * Z) :=
  match rewards !! x.1 with
  | None => []
  | Some total => shares total x.2 ++ [(cd_Owner x.2, total - foldr Z.add 0 ((shares total x.2).*2))]
  end.

(** A validator with voters and a reward has a stake. *)
Definition staked (rewards : gmap Address Z) (x : Address * CandidateData) : Prop :=
  is_Some (rewards !! x.1) -> voter_order (cd_VoterStakes x.2) <> [] -> cd_TotalStake x.2 <> 0.

#[local] Instance staked_dec rewards x : Decision (staked rewards x).
Proof. unfold staked. apply _. Defined.

Lemma payments_None rewards a d : rewards !! a = None -> payments rewards (a, d) = [].
Proof. intros Ha. unfold payments. cbn. by rewrite Ha. Qed.

Lemma payments_Some rewards a d total :
  rewards !! a = Some total ->
  payments rewards (a, d) = shares total d ++ [(cd_Owner d, total - foldr Z.add 0 ((shares total d).*2))].
Proof. intros Ha. unfold payments. cbn. by rewrite Ha. Qed.

Lemma pay_voters_eq t stake voters final rem :
  (voters <> [] -> stake <> 0) ->
  pay_voters t stake voters final rem =
  Ok (add_all ((fun x => (x.1, t * x.2 / stake)) <$> voters) final,
      rem - foldr Z.add 0 ((fun x => t * x.2 / stake) <$> voters)).
Proof.
  revert final rem. induction voters as [|[a s] voters IH]; intros final rem Hs; cbn [pay_voters].
  - cbn. do 2 f_equal. lia.
  - specialize (Hs ltac:(done)). rewrite (proj2 (Z.eqb_neq stake 0)) by done. rewrite IH by done.
    csimpl. unfold add_all at 2. cbn [foldl fst snd]. do 2 f_equal. lia.
Qed.

Lemma pay_voters_panic t stake voters final rem :
  voters <> [] -> stake = 0 -> pay_voters t stake voters final rem = Panic.
Proof. destruct voters as [|[a s] voters]; [done|]. intros _ ->. done. Qed.

Lemma pay_validators_eq l rewards final :
  Forall (staked rewards) l ->
  pay_validators voter_order l rewards final = Ok (add_all (l ≫= payments rewards) final).
Proof.
  intros Hs. revert final. induction Hs as [|[a d] l Hx Hl IH]; intros final; cbn [pay_validators]; [done|].
  rewrite bind_cons, add_all_app. unfold staked in Hx. cbn [fst snd] in Hx.
  destruct (rewards !! a) as [total|] eqn:Ea; [|by rewrite (payments_None _ _ _ Ea)].
  rewrite (payments_Some _ _ _ _ Ea).
  rewrite pay_voters_eq by (intros Hv; apply Hx; eauto). rewrite IH, add_all_app. unfold shares.
  rewrite <- list_fmap_compose. do 2 f_equal.
Qed.

Lemma pay_validators_panic l rewards final :
  ~ Forall (staked rewards) l -> pay_validators voter_order l rewards final = Panic.
Proof.
  revert final. induction l as [|[a d] l IH]; intros final Hn; [by destruct Hn|]. cbn [pay_validators].
  destruct (decide (staked rewards (a, d))) as [Hs|Hs].
  - assert (Hl : ~ Forall (staked rewards) l) by (intros Hl; apply Hn; by constructor).
    destruct (rewards !! a) as [total|] eqn:Ea; [|by apply IH]. unfold staked in Hs. cbn [fst snd] in Hs.
    rewrite pay_voters_eq by (intros Hv; apply Hs; rewrite ?Ea; eauto). by apply IH.
  - destruct (rewards !! a) as [total|] eqn:Ea.
    + rewrite pay_voters_panic; [done|intros Hv; apply Hs; intros _ Hne; cbn in Hne; by rewrite Hv in Hne|].
      destruct (decide (cd_TotalStake d = 0)) as [|Hz]; [done|]. destruct Hs. by intros _ _.
    + destruct Hs. intros [? Hc]. cbn in Hc. congruence.
Qed.

Lemma payments_sum rewards l :
  foldr Z.add 0 ((l ≫= payments rewards).*2) = foldr Z.add 0 (omap (fun x => rewards !! x.1) l).
Proof.
  assert (Hadd : forall l1 l2 : list Z, foldr Z.add 0 (l1 ++ l2) = foldr Z.add 0 l1 + foldr Z.add 0 l2).
  { intros l1 l2. induction l1 as [|x l1 IH]; cbn; lia. }
  induction l as [|[a d] l IH]; [done|]. rewrite bind_cons, fmap_app, Hadd, IH.
  destruct (rewards !! a) as [total|] eqn:Ea.
  - rewrite (payments_Some _ _ _ _ Ea), (omap_cons_Some (fun x => rewards !! x.1) (a, d) l total Ea), fmap_app, Hadd. cbn. lia.
  - by rewrite (payments_None _ _ _ Ea), (omap_cons_None (fun x => rewards !! x.1) (a, d) l Ea).
Qed.
End properties.

(** Sums and signs of shares. *)
Lemma sum_perm (l1 l2 : list Z) : l1 ≡ₚ l2 -> foldr Z.add 0 l1 = foldr Z.add 0 l2.
Proof. induction 1; cbn; lia. Qed.

Lemma sum_voters (voter_order : gmap Address Z -> list (Address * Z)) m :
  (forall m, voter_order m ≡ₚ map_to_list m) -> foldr Z.add 0 ((voter_order m).*2) = map_sum m.
Proof.
  intros Hvo. transitivity (foldr Z.add 0 ((map_to_list m).*2)).
  { apply sum_perm. by rewrite Hvo. }
  unfold map_sum. rewrite map_fold_foldr. induction (map_to_list m) as [|[a s] l IH]; [done|]. csimpl. by rewrite IH.
Qed.

Lemma shares_bound t stake (l : list (Address * Z)) :
  0 < stake -> 0 <= t -> Forall (fun x => 0 <= x.2) l ->
  0 <= foldr Z.add 0 ((fun x => t * x.2 / stake) <$> l) <= t * foldr Z.add 0 (l.*2) / stake.
Proof.
  intros Hs Ht. induction 1 as [|[a s] l Hx Hl IH]; [cbn; rewrite Z.mul_0_r, Z.div_0_l; lia|]. csimpl. cbn in Hx.
  assert (0 <= t * s / stake) by (apply Z.div_pos; nia).
  assert (t * s / stake + t * foldr Z.add 0 (l.*2) / stake <= t * (s + foldr Z.add 0 (l.*2)) / stake).
  { rewrite Z.mul_add_distr_l. apply Z.div_le_lower_bound; [done|].
    pose proof (Z.mul_div_le (t * s) stake Hs). pose proof (Z.mul_div_le (t * foldr Z.add 0 (l.*2)) stake Hs). lia. }
  lia.
Qed.

Lemma add_all_nonneg l m :
  Forall (fun x => 0 <= x.2) l -> map_Forall (fun _ s => 0 <= s) m -> map_Forall (fun _ s => 0 <= s) (add_all l m).
Proof.
  intros Hl. revert m. induction Hl as [|[a s] l Hx Hl IH]; intros m Hm; [done|]. cbn in Hx.
  apply IH. unfold add_amount. cbn. destruct (m !! a) as [c|] eqn:E; apply map_Forall_insert_2; try done.
  specialize (Hm a c E). cbn in *. lia.
Qed.

(** C36: rewards are conserved. What [calculateReward] pays out, to owners and voters
    together, is exactly the sum of the rewards of the validators it is given, whatever
    the stakes and rounding; it fails exactly when a rewarded validator has voters but
    no stake. *)
Theorem calculateReward_conserves (voter_order : gmap Address Z -> list (Address * Z))
    (data : list (Address * CandidateData)) (rewards : gmap Address Z) :
  (Forall (staked voter_order rewards) data /\
   exists final, calculateReward voter_order data rewards = Ok final /\
     map_sum final = foldr Z.add 0 (omap (fun x => rewards !! x.1) data)) \/
  (~ Forall (staked voter_order rewards) data /\ calculateReward voter_order data rewards = Panic).
Proof.
  unfold calculateReward. destruct (decide (Forall (staked voter_order rewards) data)) as [Hs|Hs].
  - left. split; [done|]. rewrite (pay_validators_eq _ _ _ _ Hs). eexists. split; [done|].
    by rewrite map_sum_add_all, map_sum_empty, payments_sum.
  - right. split; [done|]. by apply pay_validators_panic.
Qed.

(** All nodes compute the same rewards. The result of [calculateReward] does not
    depend on the order in which Go iterates over the two maps. *)
Theorem calculateReward_order (vo1 vo2 : gmap Address Z -> list (Address * Z))
    (data1 data2 : list (Address * CandidateData)) (rewards : gmap Address Z) :
  (forall m, vo1 m ≡ₚ vo2 m) -> data1 ≡ₚ data2 ->
  calculateReward vo1 data1 rewards = calculateReward vo2 data2 rewards.
Proof.
  intros Hvo Hd. unfold calculateReward.
  assert (Hst : forall x, staked vo1 rewards x <-> staked vo2 rewards x).
  { intros x. unfold staked. split; intros Hx H1 H2; apply Hx; try done; intros He; apply H2.
    - apply Permutation_nil_r. by rewrite <- He, Hvo.
    - apply Permutation_nil_r. by rewrite <- He, Hvo. }
  assert (Hiff : Forall (staked vo1 rewards) data1 <-> Forall (staked vo2 rewards) data2).
  { rewrite Hd, !Forall_forall. split; intros H x Hx; by apply Hst, H. }
  destruct (decide (Forall (staked vo1 rewards) data1)) as [H1|H1].
  - rewrite !pay_validators_eq by (try done; by apply Hiff). f_equal. apply add_all_perm.
    rewrite Hd. clear - Hvo. induction data2 as [|[a d] l IH]; [done|]. rewrite !bind_cons, IH. f_equiv.
    destruct (rewards !! a) as [total|] eqn:Ea;
      [rewrite !(payments_Some _ _ _ _ _ Ea)|by rewrite !(payments_None _ _ _ _ Ea)].
    assert (Hsh : shares vo1 total d ≡ₚ shares vo2 total d) by (unfold shares; by rewrite Hvo).
    assert (Hsum : foldr Z.add 0 ((shares vo1 total d).*2) = foldr Z.add 0 ((shares vo2 total d).*2)).
    { apply sum_perm. by rewrite Hsh. }
    rewrite Hsum. by f_equiv.
  - rewrite !pay_validators_panic by (try done; by rewrite <- Hiff). done.
Qed.

(** The owner keeps at least half. When the voters' stakes are not negative and sum
    up to at most the total stake, no share is negative and what is left to the owner is
    at least the reward minus the half meant for the voters. *)
Theorem owner_share (voter_order : gmap Address Z -> list (Address * Z)) (total : Z) (d : CandidateData) :
  (forall m, voter_order m ≡ₚ map_to_list m) -> 0 <= total -> 0 < cd_TotalStake d ->
  map_Forall (fun _ s => 0 <= s) (cd_VoterStakes d) -> map_sum (cd_VoterStakes d) <= cd_TotalStake d ->
  exists final remaining,
    pay_voters (total * voterRewardPercentage / 100) (cd_TotalStake d) (voter_order (cd_VoterStakes d)) ∅ total
      = Ok (final, remaining) /\
    total - total * voterRewardPercentage / 100 <= remaining <= total /\ map_Forall (fun _ s => 0 <= s) final.
Proof.
  intros Hvo Ht Hs Hpos Hsum. set (t := total * voterRewardPercentage / 100).
  assert (Ht0 : 0 <= t) by (apply Z.div_pos; unfold voterRewardPercentage; lia).
  rewrite pay_voters_eq by lia. do 2 eexists. split; [done|].
  assert (Hl : Forall (fun x => 0 <= x.2) (voter_order (cd_VoterStakes d))).
  { rewrite Hvo. apply Forall_forall. intros [a s] Hin%elem_of_map_to_list. by apply (Hpos a s). }
  assert (Hm : foldr Z.add 0 ((voter_order (cd_VoterStakes d)).*2) <= cd_TotalStake d).
  { rewrite (sum_voters voter_order _ Hvo). done. }
  split.
  - pose proof (shares_bound t (cd_TotalStake d) (voter_order (cd_VoterStakes d)) Hs Ht0 Hl) as [Hb1 Hb2].
    split; [|lia]. cut (foldr Z.add 0 ((fun x => t * x.2 / cd_TotalStake d) <$> voter_order (cd_VoterStakes d)) <= t); [lia|].
    eapply Z.le_trans; [exact Hb2|]. apply Z.div_le_upper_bound; nia.
  - apply add_all_nonneg; [|apply map_Forall_empty]. apply Forall_fmap, Forall_forall. intros [a s] Hin. cbn.
    rewrite Forall_forall in Hl. specialize (Hl _ Hin). cbn in Hl. apply Z.div_pos; nia.
Qed.

(** ** The supply *)
Section supply.
Context `{C : Crypto} {Ch : FullChainReader}.

Abbreviation nonneg_map := (map_Forall (fun (_ : Address) (s : Z) => 0 <= s)).

Lemma map_sum_nonneg m : nonneg_map m -> 0 <= map_sum m.
Proof.
  revert m. apply (map_Forall_ind _ (fun m => 0 <= map_sum m)); [by rewrite map_sum_empty|]. intros m' i x Hi Hx _ IH. rewrite map_sum_insert by done. lia.
Qed.

Lemma omap_sum_le {A} (l : list (Address * A)) m :
  NoDup l.*1 -> nonneg_map m -> foldr Z.add 0 (omap (fun x => m !! x.1) l) <= map_sum m.
Proof.
  revert m. induction l as [|[a d] l IH]; intros m Hnd Hm; [by apply map_sum_nonneg|].
  apply NoDup_cons in Hnd as [Ha Hnd]. destruct (m !! a) as [v|] eqn:E.
  - rewrite (omap_cons_Some (fun x => m !! x.1) (a, d) l v E), (map_sum_delete a v m E). cbn.
    apply Z.add_le_mono_l. rewrite <- IH; [|done|by apply map_Forall_delete].
    apply Z.eq_le_incl. f_equal. apply list_omap_ext, Forall_Forall2_diag, Forall_forall. intros [b x] Hin. cbn.
    rewrite lookup_delete_ne; [done|]. intros ->. apply Ha. by apply (list_elem_of_fmap_2 fst) in Hin.
  - rewrite (omap_cons_None (fun x => m !! x.1) (a, d) l E). by apply IH.
Qed.

Lemma map_sum_list m : foldr Z.add 0 ((map_to_list m).*2) = map_sum m.
Proof. by apply (sum_voters map_to_list). Qed.

Lemma rewards_of_sum br gp header cb ns m rewards :
  rewards_of br gp header cb ns m = Ok rewards ->
  exists hs, Forall2 (fun i h => (if i =? cb then Some header else ch_GetHeaderByNumber i) = Some h) ns hs /\
    rewards = add_all ((fun h => (h_Coinbase h, block_earning br gp h)) <$> hs) m.
Proof.
  revert m. induction ns as [|i ns IH]; intros m; cbn [rewards_of]; [intros [= <-]; by exists []|].
  destruct (if i =? cb then Some header else ch_GetHeaderByNumber i) as [h|] eqn:E; [|done].
  intros (hs & Hf & ->)%IH. exists (h :: hs). split; [by constructor|done].
Qed.
End supply.

