(* ===== verification/Core.v ===== *)
(** * The consensus core: rounds and sending

    Models [src/consensus/tendermint/core/roundState.go] (the record [roundState] and the
    operations on it; the view is the pair of the fields [rs_Round] and [rs_BlockNumber]),
    the record [core] of [core/core.go], what the core relies on (its backend, the queue of
    future messages) and the operations that sign and send: proposals, votes, catch-up
    replies and requests, rebroadcasts. Message sets keep the validator set they were made
    with, of which they only read the list of validators, so sharing it with the core is
    not visible. What leaves the core is recorded, newest first, in its log. Logging,
    metrics and locks are left out; a panic of the logger is a panic. *)

From S2P Require Import Prelude Bytes RlpEncode RlpDecode RlpCanonical Types ValidatorSet Messages MessageSet MsgStorage Timeout.

Record roundState : Type := MkRoundState {
  rs_Round : Z;
  rs_BlockNumber : Z;
  rs_block : option Block;
  rs_lockedRound : Z;
  rs_lockedBlock : option Block;
  rs_validRound : Z;
  rs_validBlock : option Block;
  rs_commitRound : Z;
  rs_commitTime : Z;
  rs_startTime : Z;
  rs_proposalReceived : option Proposal;
  rs_PrevotesReceived : gmap Z messageSet;
  rs_PrecommitsReceived : gmap Z messageSet;
  rs_PrecommitWaited : bool;
  rs_step : Z
}.

Definition UpdateRoundStep (round step : Z) (s : roundState) : roundState :=
  MkRoundState round (rs_BlockNumber s) (rs_block s) (rs_lockedRound s) (rs_lockedBlock s)
    (rs_validRound s) (rs_validBlock s) (rs_commitRound s) (rs_commitTime s) (rs_startTime s)
    (rs_proposalReceived s) (rs_PrevotesReceived s) (rs_PrecommitsReceived s) (rs_PrecommitWaited s)
    step.

Definition SetProposalReceived (p : option Proposal) (s : roundState) : roundState :=
  MkRoundState (rs_Round s) (rs_BlockNumber s) (rs_block s) (rs_lockedRound s) (rs_lockedBlock s)
    (rs_validRound s) (rs_validBlock s) (rs_commitRound s) (rs_commitTime s) (rs_startTime s) p
    (rs_PrevotesReceived s) (rs_PrecommitsReceived s) (rs_PrecommitWaited s) (rs_step s).

Definition SetView (round blockNumber : Z) (s : roundState) : roundState :=
  MkRoundState round blockNumber (rs_block s) (rs_lockedRound s) (rs_lockedBlock s) (rs_validRound s)
    (rs_validBlock s) (rs_commitRound s) (rs_commitTime s) (rs_startTime s) (rs_proposalReceived s)
    (rs_PrevotesReceived s) (rs_PrecommitsReceived s) (rs_PrecommitWaited s) (rs_step s).

Definition SetBlock (bl : option Block) (s : roundState) : roundState :=
  MkRoundState (rs_Round s) (rs_BlockNumber s) bl (rs_lockedRound s) (rs_lockedBlock s) (rs_validRound s)
    (rs_validBlock s) (rs_commitRound s) (rs_commitTime s) (rs_startTime s) (rs_proposalReceived s)
    (rs_PrevotesReceived s) (rs_PrecommitsReceived s) (rs_PrecommitWaited s) (rs_step s).

Definition SetLockedRoundAndBlock (lockedR : Z) (lockedBl : option Block) (s : roundState) : roundState :=
  MkRoundState (rs_Round s) (rs_BlockNumber s) (rs_block s) lockedR lockedBl (rs_validRound s)
    (rs_validBlock s) (rs_commitRound s) (rs_commitTime s) (rs_startTime s) (rs_proposalReceived s)
    (rs_PrevotesReceived s) (rs_PrecommitsReceived s) (rs_PrecommitWaited s) (rs_step s).

Definition Unlock (s : roundState) : roundState := SetLockedRoundAndBlock (-1) None s.

Definition SetValidRoundAndBlock (validR : Z) (validBl : option Block) (s : roundState) : roundState :=
  MkRoundState (rs_Round s) (rs_BlockNumber s) (rs_block s) (rs_lockedRound s) (rs_lockedBlock s)
    validR validBl (rs_commitRound s) (rs_commitTime s) (rs_startTime s) (rs_proposalReceived s)
    (rs_PrevotesReceived s) (rs_PrecommitsReceived s) (rs_PrecommitWaited s) (rs_step s).

Definition setPrecommitWaited (waited : bool) (s : roundState) : roundState :=
  MkRoundState (rs_Round s) (rs_BlockNumber s) (rs_block s) (rs_lockedRound s) (rs_lockedBlock s)
    (rs_validRound s) (rs_validBlock s) (rs_commitRound s) (rs_commitTime s) (rs_startTime s)
    (rs_proposalReceived s) (rs_PrevotesReceived s) (rs_PrecommitsReceived s) waited (rs_step s).

(** The assignments to [commitRound] and [commitTime] of [enterCommit]. *)
Definition set_commit (commitRound commitTime : Z) (s : roundState) : roundState :=
  MkRoundState (rs_Round s) (rs_BlockNumber s) (rs_block s) (rs_lockedRound s) (rs_lockedBlock s)
    (rs_validRound s) (rs_validBlock s) commitRound commitTime (rs_startTime s) (rs_proposalReceived s)
    (rs_PrevotesReceived s) (rs_PrecommitsReceived s) (rs_PrecommitWaited s) (rs_step s).

Definition set_startTime (t : Z) (s : roundState) : roundState :=
  MkRoundState (rs_Round s) (rs_BlockNumber s) (rs_block s) (rs_lockedRound s) (rs_lockedBlock s)
    (rs_validRound s) (rs_validBlock s) (rs_commitRound s) (rs_commitTime s) t (rs_proposalReceived s)
    (rs_PrevotesReceived s) (rs_PrecommitsReceived s) (rs_PrecommitWaited s) (rs_step s).

Definition set_Prevotes (m : gmap Z messageSet) (s : roundState) : roundState :=
  MkRoundState (rs_Round s) (rs_BlockNumber s) (rs_block s) (rs_lockedRound s) (rs_lockedBlock s)
    (rs_validRound s) (rs_validBlock s) (rs_commitRound s) (rs_commitTime s) (rs_startTime s)
    (rs_proposalReceived s) m (rs_PrecommitsReceived s) (rs_PrecommitWaited s) (rs_step s).

Definition set_Precommits (m : gmap Z messageSet) (s : roundState) : roundState :=
  MkRoundState (rs_Round s) (rs_BlockNumber s) (rs_block s) (rs_lockedRound s) (rs_lockedBlock s)
    (rs_validRound s) (rs_validBlock s) (rs_commitRound s) (rs_commitTime s) (rs_startTime s)
    (rs_proposalReceived s) (rs_PrevotesReceived s) m (rs_PrecommitWaited s) (rs_step s).

(** [newRoundState] at the values of [getInitializedState]. *)
Definition newRoundState (blockNumber : Z) (block : option Block) : roundState :=
  MkRoundState 0 blockNumber block (-1) None (-1) None (-1) 0 0 None ∅ ∅ false RoundStepNewHeight.

Definition IsProposalComplete (s : roundState) : bool :=
  match rs_proposalReceived s with
  | None => false
  | Some p =>
      if p_POLRound p <? 0 then true
      else
        match rs_PrevotesReceived s !! p_POLRound p with
        | None => false
        | Some prevotes => HasMajority (Some prevotes)
        end
  end.

(** [POLInfo]: the loop from the current round [n] down to 0. *)
Fixpoint POLInfo_from (s : roundState) (n : nat) : Z * Hash :=
  match rs_PrevotesReceived s !! Z.of_nat n ≫= fun prevotes => TwoThirdMajority (Some prevotes) with
  | Some h => (Z.of_nat n, h)
  | None => match n with O => (-1, zeroHash) | S n' => POLInfo_from s n' end
  end.

Definition POLInfo (s : roundState) : Z * Hash :=
  if rs_Round s <? 0 then (-1, zeroHash) else POLInfo_from s (Z.to_nat (rs_Round s)).

(** [addPrevote] and [addPrecommit]: the set of the vote's round is created when it is
    missing, and kept also when the vote is then refused. *)
Definition addVote (code : Z) (sets : roundState -> gmap Z messageSet)
    (put : gmap Z messageSet -> roundState -> roundState)
    (msg : message) (vote : Vote) (valset : ValidatorSet) : M roundState (error + bool) :=
  s ← get;
  let view := MkView (v_Round vote) (v_BlockNumber vote) in
  let msgSet := default (newMessageSet valset code view) (sets s !! v_Round vote) in
  match AddVote msg vote msgSet with
  | Ok (r, msgSet') => modify (put (<[v_Round vote := msgSet']> (sets s)));; mret r
  | Panic => panic
  | OutOfFuel => diverge
  end.

Definition addPrevote (msg : message) (vote : Vote) (valset : ValidatorSet) : M roundState (error + bool) :=
  addVote msgPrevote rs_PrevotesReceived set_Prevotes msg vote valset.

Definition addPrecommit (msg : message) (vote : Vote) (valset : ValidatorSet) : M roundState (error + bool) :=
  addVote msgPrecommit rs_PrecommitsReceived set_Precommits msg vote valset.

(** [clearPreviousRoundData]: a block from the miner for a newer height is kept. *)
Definition clearPreviousRoundData : M roundState unit :=
  s ← get;
  match rs_block s with
  | Some b =>
      n ← deref (Block_Number b);
      when (n <? rs_BlockNumber s) (modify (SetBlock None))
  | None => mret tt
  end;;
  modify (UpdateRoundStep 0 RoundStepNewHeight);;
  modify (SetLockedRoundAndBlock (-1) None);;
  modify (SetValidRoundAndBlock (-1) None);;
  modify (SetProposalReceived None);;
  modify (fun s => set_commit (-1) (rs_commitTime s) s);;
  modify (set_Prevotes ∅);;
  modify (set_Precommits ∅);;
  modify (setPrecommitWaited false).


(** ** What the core relies on *)

(** An item of the queue of future messages: [msgItem]. *)
Record msgItem : Type := MkItem { mi_message : message; mi_height : Z }.

(** [Compare]: items are ordered by height. *)
Definition Compare (item other : msgItem) : Z :=
  if mi_height other <? mi_height item then 1
  else if mi_height item =? mi_height other then 0 else -1.

(** The priority queue of [github.com/Workiva/go-datastructures/queue]. *)
Class PriorityQueue : Type := {
  PQ : Type;
  pq_New : PQ;
  pq_Put : msgItem -> PQ -> PQ;
  pq_Peek : PQ -> option msgItem;
  pq_Get1 : PQ -> PQ;       (* Get(1), dropping the item *)
  pq_Len : PQ -> nat
}.

(** Its documented behaviour: [Put] adds an item, [Peek] shows a least one and [Get]
    removes it. *)
Class PriorityQueueLaws (Q : PriorityQueue) : Type := {
  pq_items : PQ -> list msgItem;
  pq_items_New : pq_items pq_New = [];
  pq_items_Put : forall x q, pq_items (pq_Put x q) ≡ₚ x :: pq_items q;
  pq_Len_items : forall q, pq_Len q = length (pq_items q);
  pq_Peek_Get1 : forall q x, pq_Peek q = Some x -> pq_items q ≡ₚ x :: pq_items (pq_Get1 q);
  pq_Peek_None : forall q, pq_Peek q = None -> pq_items q = [];
  pq_Peek_least : forall q x y, pq_Peek q = Some x -> y ∈ pq_items q -> Compare x y <= 0
}.

(** The backend. Its answers may change from call to call: they are indexed by the
    number of calls made so far. [be_fakeProposal] is what [checkAndFakeProposal] of a
    node in the faulty mode [SendFakeProposal] turns a proposal into. *)
Class Backend `{Crypto} : Type := {
  be_key : PrivateKey;
  be_config : Config;
  be_CurrentHeadBlock : nat -> Block;
  be_Validators : nat -> Z -> option ValidatorSet;
  be_VerifyProposalHeader : nat -> Header -> option error;
  be_VerifyProposalBlock : nat -> Block -> option error;
  be_Now : nat -> Z;
  be_fakeProposal : nat -> Proposal -> Proposal
}.

(** What leaves the core. *)
Inductive effect : Type :=
  | EBroadcast (blockNumber round code : Z) (payload : bytes)
  | EMulticast (targets : gset Address) (payload : bytes)
  | ECommit (b : Block)
  | ECancel (b : Block)
  | ESchedule (ti : timeoutInfo)
  | EGoReBroadcast (msg : message)      (* go c.reBroadcastMsg(msg, logger) *)
  | EGoRepost (step round : Z)          (* the goroutine of sendCatchUpRequest *)
  | EPost (payload : bytes).            (* a MessageEvent posted to its own mux *)

Section core.
Context `{C : Crypto} {B : Backend} {Q : PriorityQueue}.

(** ** The core *)
Record core : Type := MkCore {
  c_started : bool;                     (* currentState is not nil *)
  c_state : roundState;
  c_valSet : option ValidatorSet;
  c_sent : msgStorage;
  c_futureMessages : PQ;
  c_futureProposals : gmap Z message;
  c_rebroadcast : bool;
  c_calls : nat;
  c_log : list effect
}.

Definition New_core (rebroadcast : bool) : core :=
  MkCore false (newRoundState 0 None) None NewMsgStorage pq_New ∅ rebroadcast 0 [].

Definition set_state (s : roundState) (c : core) : core :=
  MkCore (c_started c) s (c_valSet c) (c_sent c) (c_futureMessages c) (c_futureProposals c)
    (c_rebroadcast c) (c_calls c) (c_log c).
Definition set_valSet (v : option ValidatorSet) (c : core) : core :=
  MkCore (c_started c) (c_state c) v (c_sent c) (c_futureMessages c) (c_futureProposals c)
    (c_rebroadcast c) (c_calls c) (c_log c).
Definition set_sent (m : msgStorage) (c : core) : core :=
  MkCore (c_started c) (c_state c) (c_valSet c) m (c_futureMessages c) (c_futureProposals c)
    (c_rebroadcast c) (c_calls c) (c_log c).
Definition set_futureMessages (q : PQ) (c : core) : core :=
  MkCore (c_started c) (c_state c) (c_valSet c) (c_sent c) q (c_futureProposals c)
    (c_rebroadcast c) (c_calls c) (c_log c).
Definition set_futureProposals (m : gmap Z message) (c : core) : core :=
  MkCore (c_started c) (c_state c) (c_valSet c) (c_sent c) (c_futureMessages c) m
    (c_rebroadcast c) (c_calls c) (c_log c).
Definition set_started (c : core) : core :=
  MkCore true (c_state c) (c_valSet c) (c_sent c) (c_futureMessages c) (c_futureProposals c)
    (c_rebroadcast c) (c_calls c) (c_log c).
Definition next_call (c : core) : core :=
  MkCore (c_started c) (c_state c) (c_valSet c) (c_sent c) (c_futureMessages c) (c_futureProposals c)
    (c_rebroadcast c) (S (c_calls c)) (c_log c).
Definition add_effect (e : effect) (c : core) : core :=
  MkCore (c_started c) (c_state c) (c_valSet c) (c_sent c) (c_futureMessages c) (c_futureProposals c)
    (c_rebroadcast c) (c_calls c) (e :: c_log c).

Definition emit (e : effect) : M core unit := modify (add_effect e).
Definition upd (f : roundState -> roundState) : M core unit :=
  modify (fun c => set_state (f (c_state c)) c).

(** An operation of the round state run on the core's. *)
Definition on_state {A} (m : M roundState A) : M core A := fun c =>
  match m (c_state c) with
  | Ok (a, s) => Ok (a, set_state s c)
  | Panic => Panic
  | OutOfFuel => OutOfFuel
  end.

(** A call of the backend. *)
Definition ask {A} (f : nat -> A) : M core A :=
  n ← gets c_calls;
  modify next_call;;
  mret (f n).

(** The validator set; calling a method of a nil one panics. *)
Definition valSet : M core ValidatorSet := v ← gets c_valSet; deref v.

(** ** The backend's keys *)
Definition be_Address : Address := PubkeyAddress be_key.
Definition be_Sign (data : bytes) : option bytes := Sign (keccak256 data) be_key.

(** ** Sending *)

(** [FinalizeMsg] of a message with the given code and contents. *)
Definition FinalizeMsg (code : Z) (msgData : bytes) : error + bytes :=
  let msg := MkMessage code msgData be_Address [] in
  match PayLoadWithoutSignature msg with
  | inl e => inl e
  | inr payload =>
      match be_Sign payload with
      | None => inl ErrSign
      | Some signature => encode (message_gval (MkMessage code msgData be_Address signature))
      end
  end.

Definition storeSent (step round : Z) (payload : bytes) : M core unit :=
  sent ← gets c_sent;
  match storeSentMsg sent step round payload with
  | Ok sent' => modify (set_sent sent')
  | Panic => panic
  | OutOfFuel => diverge
  end.

Definition SendPropose (propose : Proposal) : M core unit :=
  _ ← deref (Block_Number (p_Block propose));
  match encode (proposal_gval propose) with
  | inl _ => mret tt
  | inr msgData =>
      match FinalizeMsg msgPropose msgData with
      | inl _ => mret tt
      | inr payload =>
          storeSent RoundStepPropose (p_Round propose) payload;;
          s ← gets c_state;
          emit (EBroadcast (rs_BlockNumber s) (p_Round propose) msgPropose payload)
      end
  end.

Definition emptyBlockHash : Hash := zeroHash.

(** The payload [SendVote] builds, when every step of it succeeds. *)
Definition vote_payload (voteType : Z) (block : option Block) (blockNumber round : Z) : option bytes :=
  let made :=
    match block with
    | None => Some (emptyBlockHash, [])
    | Some b =>
        match be_Sign (PrepareCommittedSeal (Header_Hash (Block_Header b))) with
        | None => None
        | Some seal => Some (Block_Hash b, seal)
        end
    end in
  match made with
  | None => None
  | Some (blockHash, seal) =>
      match encode (vote_gval (MkVote blockHash blockNumber round seal)) with
      | inl _ => None
      | inr msgData =>
          match FinalizeMsg voteType msgData with
          | inl _ => None
          | inr payload => Some payload
          end
      end
  end.

Definition SendVote (voteType : Z) (block : option Block) (round : Z) : M core unit :=
  if negb (voteType =? msgPrevote) && negb (voteType =? msgPrecommit) then mret tt
  else
    s ← gets c_state;
    match vote_payload voteType block (rs_BlockNumber s) round with
    | None => mret tt
    | Some payload =>
        (if voteType =? msgPrevote then storeSent RoundStepPrevote round payload
         else if voteType =? msgPrecommit then storeSent RoundStepPrecommit round payload
         else mret tt);;
        emit (EBroadcast (rs_BlockNumber s) round voteType payload)
    end.

Definition SendCatchupReply (target : Address) (payloads : list bytes) : M core unit :=
  s ← gets c_state;
  match encode (catchUpReply_gval (MkCatchUpReply (rs_BlockNumber s) payloads)) with
  | inl _ => mret tt
  | inr msgData =>
      match FinalizeMsg msgCatchUpReply msgData with
      | inl _ => mret tt
      | inr payload => emit (EMulticast {[target]} payload)
      end
  end.

(** The body of the goroutine [reBroadcastMsg]. *)
Definition reBroadcastMsg (msg : message) : M core unit :=
  c ← get;
  if negb (c_rebroadcast c) then mret tt
  else if bool_decide (Address_Hex (m_Address msg) = Address_Hex be_Address) then mret tt
  else
    match encode (message_gval msg) with
    | inl _ => mret tt
    | inr payload =>
        v ← valSet;
        match GetNeighbors v be_Address with
        | Ok targets => emit (EMulticast (default ∅ targets) payload)
        | Panic => panic
        | OutOfFuel => diverge
        end
    end.

(** The body of the goroutine that re-posts the node's own vote. *)
Definition repostSelf (step round : Z) : M core unit :=
  c ← get;
  match get_msg (c_sent c) (lookup_msg (c_sent c) step round) with
  | None => mret tt
  | Some payload => emit (EPost payload)
  end.

Definition sendCatchUpRequest (tiBlock tiRound tiStep : Z) : M core unit :=
  match encode (catchUpRequest_gval (MkCatchUpRequest tiBlock tiRound tiStep)) with
  | inl _ => mret tt
  | inr msgData =>
      match FinalizeMsg msgCatchUpRequest msgData with
      | inl _ => mret tt
      | inr payload =>
          s ← gets c_state;
          let sets := if tiStep =? RoundStepPrevote then Some (rs_PrevotesReceived s)
                      else if tiStep =? RoundStepPrecommit then Some (rs_PrecommitsReceived s)
                      else None in
          match sets with
          | None => mret tt
          | Some sets =>
              missing ← (match sets !! tiRound with
                         | None => v ← valSet; mret (list_to_set (vs_validators v) : gset Address)
                         | Some msgSet => mret (MissingVotes msgSet)
                         end);
              when (bool_decide (be_Address ∈ missing)) (emit (EGoRepost tiStep tiRound));;
              emit (EMulticast (missing ∖ {[be_Address]}) payload)
          end
      end
  end.

Definition enterCatchup (tiBlock tiRound tiStep tiRetry : Z) : M core unit :=
  s ← gets c_state;
  if negb (rs_BlockNumber s =? tiBlock) || negb (tiRound =? rs_Round s) || negb (rs_step s =? tiStep)
  then mret tt
  else
    let duration := if tiStep =? RoundStepPrevote then Some (PrevoteCatchupTimeout be_config (rs_Round s))
                    else if tiStep =? RoundStepPrecommit then Some (PrecommitCatchupTimeout be_config (rs_Round s))
                    else None in
    match duration with
    | None => mret tt
    | Some d =>
        emit (ESchedule (MkTimeout d (rs_BlockNumber s) (rs_Round s) tiStep (uint64 (tiRetry + 1))));;
        sendCatchUpRequest tiBlock tiRound tiStep
    end.
End core.
