(* ===== verification/Consensus.v ===== *)
(** * The consensus core: steps

    Models [src/consensus/tendermint/core/consensus.go] and [state_modification.go]: the
    functions that move the core from step to step. Each is a computation on the record
    [core]; the deferred assignments of the source run where the function returns. The
    handler of messages is an argument of [enterNewRound], which calls it for a proposal
    that came before its round; [Handler] closes the recursion. *)

From S2P Require Import Prelude Bytes RlpEncode RlpDecode RlpCanonical Types ValidatorSet Messages MessageSet.
From S2P Require Import MsgStorage Timeout Core.

Section consensus.
Context `{C : Crypto} {B : Backend} {Q : PriorityQueue}.

(** ** Prevote *)

Definition defaultDoPrevote (round : Z) : M core unit :=
  s ← gets c_state;
  if negb (rs_lockedRound s =? -1) then SendVote msgPrevote (rs_lockedBlock s) round
  else
    match rs_proposalReceived s with
    | None => SendVote msgPrevote None round
    | Some p => SendVote msgPrevote (Some (p_Block p)) round
    end.

Definition enterPrevote (blockNumber round : Z) : M core unit :=
  s ← gets c_state;
  if negb (rs_BlockNumber s =? blockNumber) || (round <? rs_Round s)
     || ((rs_Round s =? round) && (RoundStepPrevote <=? rs_step s))
  then mret tt
  else
    emit (ESchedule (MkTimeout (PrevoteCatchupTimeout be_config (rs_Round s)) (rs_BlockNumber s)
                       (rs_Round s) RoundStepPrevote 0));;
    defaultDoPrevote round;;
    upd (UpdateRoundStep round RoundStepPrevote).

(** ** Propose *)

(** [defaultDecideProposal]; sending a proposal without block panics. *)
Definition defaultDecideProposal (round : Z) : M core (option Proposal) :=
  s ← gets c_state;
  if negb (rs_validRound s =? -1) then
    b ← deref (rs_validBlock s);
    mret (Some (MkProposal b round (rs_validRound s)))
  else
    match rs_block s with
    | None => mret None
    | Some b =>
        if bool_decide (Hash_Hex (Block_Hash b) = Hash_Hex emptyBlockHash) then mret None
        else mret (Some (MkProposal b round (-1)))
    end.

Definition SendFakeProposal : Z := 1.

Definition getDefaultProposal (round : Z) : M core (option Proposal) :=
  proposal ← defaultDecideProposal round;
  match proposal with
  | None => mret None
  | Some p =>
      if cfg_FaultyMode be_config =? SendFakeProposal
      then p' ← ask (fun n => be_fakeProposal n p); mret (Some p')
      else mret (Some p)
  end.

Definition propose_if_proposer (round : Z) : M core unit :=
  v ← valSet;
  when (IsProposer v be_Address)
    (proposal ← getDefaultProposal round;
     match proposal with Some p => SendPropose p | None => mret tt end).

Definition enterPropose (blockNumber round : Z) : M core unit :=
  s ← gets c_state;
  let sRound := rs_Round s in
  if negb (rs_BlockNumber s =? blockNumber) || (round <? sRound)
     || ((sRound =? round) && (RoundStepPropose <=? rs_step s))
  then mret tt
  else
    emit (ESchedule (MkTimeout (ProposeTimeout be_config round) blockNumber round RoundStepPropose 0));;
    propose_if_proposer round;;
    upd (UpdateRoundStep round RoundStepPropose);;
    s ← gets c_state;
    when (IsProposalComplete s) (enterPrevote blockNumber sRound).

(** ** New round *)

(** [c.valSet.CalcProposer(c.valSet.GetProposer().Address(), diff)] *)
Definition calcProposer (roundDiff : Z) : M core unit :=
  v ← valSet;
  p ← deref (GetProposer v);
  match CalcProposer v p roundDiff with
  | Ok v' => modify (set_valSet (Some v'))
  | Panic => panic
  | OutOfFuel => diverge
  end.

Definition enterNewRound (handle : message -> M core (option error)) (blockNumber round : Z) : M core unit :=
  s ← gets c_state;
  let sRound := rs_Round s in
  if negb (rs_BlockNumber s =? blockNumber) || (round <? sRound)
     || ((sRound =? round) && negb (rs_step s =? RoundStepNewHeight))
  then mret tt
  else
    when (sRound <? round) (calcProposer (int64 (round - sRound)));;
    when (0 <? round) (upd (SetProposalReceived None));;
    upd (UpdateRoundStep round RoundStepNewRound);;
    upd (setPrecommitWaited false);;
    enterPropose blockNumber round;;
    fp ← gets c_futureProposals;
    match fp !! round with
    | Some msg => handle msg;; mret tt
    | None => mret tt
    end.

(** ** Waiting for votes *)

(** [enterPrevoteWait]: its checks on the prevotes only log. *)
Definition enterPrevoteWait (blockNumber round : Z) : M core unit :=
  s ← gets c_state;
  if negb (rs_BlockNumber s =? blockNumber) || (round <? rs_Round s)
     || ((rs_Round s =? round) && (RoundStepPrevoteWait <=? rs_step s))
  then mret tt
  else
    emit (ESchedule (MkTimeout (PrevoteTimeout be_config round) blockNumber round RoundStepPrevoteWait 0));;
    upd (UpdateRoundStep round RoundStepPrevoteWait).

Definition enterPrecommitWait (blockNumber round : Z) : M core unit :=
  s ← gets c_state;
  if negb (rs_BlockNumber s =? blockNumber) || (round <? rs_Round s)
     || ((rs_Round s =? round) && rs_PrecommitWaited s)
  then mret tt
  else
    precommits ← deref (rs_PrecommitsReceived s !! round);
    if negb (HasTwoThirdAny (Some precommits)) then panic
    else
      emit (ESchedule (MkTimeout (PrecommitTimeout be_config round) blockNumber round RoundStepPrecommitWait 0));;
      upd (UpdateRoundStep round RoundStepPrecommitWait);;
      upd (setPrecommitWaited true).

(** ** Precommit *)

(** The block votes and locks [enterPrecommit] decides on, given the polka of the
    round. *)
Definition doPrecommit (round : Z) : M core unit :=
  s ← gets c_state;
  match rs_PrevotesReceived s !! round ≫= fun prevotes => TwoThirdMajority (Some prevotes) with
  | None => SendVote msgPrecommit None round
  | Some blockHash =>
      if (POLInfo s).1 <? round then panic
      else if bool_decide (Hash_Hex blockHash = Hash_Hex emptyBlockHash) then
        match rs_lockedBlock s with
        | None => mret tt
        | Some _ => upd Unlock
        end;;
        SendVote msgPrecommit None round
      else
        let locked_is := match rs_lockedBlock s with
                         | Some b => bool_decide (Hash_Hex (Block_Hash b) = Hash_Hex blockHash)
                         | None => false
                         end in
        if locked_is then
          upd (SetLockedRoundAndBlock round (rs_lockedBlock s));;
          SendVote msgPrecommit (rs_lockedBlock s) round
        else
          match rs_proposalReceived s with
          | Some p =>
              if bool_decide (Hash_Hex (Block_Hash (p_Block p)) = Hash_Hex blockHash) then
                upd (SetLockedRoundAndBlock round (Some (p_Block p)));;
                SendVote msgPrecommit (Some (p_Block p)) round
              else
                upd Unlock;;
                SendVote msgPrecommit None round
          | None =>
              upd Unlock;;
              SendVote msgPrecommit None round
          end
  end.

Definition enterPrecommit (blockNumber round : Z) : M core unit :=
  s ← gets c_state;
  if negb (rs_BlockNumber s =? blockNumber) || (round <? rs_Round s)
     || ((rs_Round s =? round) && (RoundStepPrecommit <=? rs_step s))
  then mret tt
  else
    emit (ESchedule (MkTimeout (PrecommitCatchupTimeout be_config (rs_Round s)) (rs_BlockNumber s)
                       (rs_Round s) RoundStepPrecommit 0));;
    doPrecommit round;;
    upd (UpdateRoundStep round RoundStepPrecommit).

(** ** Commit *)

(** The first [minMajority] seals of the votes for the block. *)
Fixpoint collect_seals (minMajority : Z) (votes : list (option Vote)) (seals : list bytes) (total : Z)
    : list bytes * Z :=
  match votes with
  | [] => (seals, total)
  | None :: r => collect_seals minMajority r seals total
  | Some vote :: r =>
      let seals := seals ++ [v_Seal vote] in
      let total := total + 1 in
      if minMajority <=? total then (seals, total) else collect_seals minMajority r seals total
  end.

(** [FinalizeBlock]; the errors it returns make its caller panic. *)
Definition FinalizeBlock (proposal : Proposal) : M core (error + Block) :=
  s ← gets c_state;
  let header := Block_Header (p_Block proposal) in
  v ← valSet;
  let minMajority := MinMajority v in
  precommits ← deref (rs_PrecommitsReceived s !! rs_commitRound s);
  votes ← deref (ms_voteByBlock precommits !! Header_Hash header);
  if bv_totalReceived votes <? minMajority then mret (inl (ErrOther 1))
  else
    let '(commitSeals, totalPrecommits) := collect_seals minMajority (bv_votes votes) [] 0 in
    if totalPrecommits <? minMajority then mret (inl (ErrOther 1))
    else
      match WriteCommittedSeals header commitSeals with
      | inl e => mret (inl e)
      | inr header => mret (inr (WithSeal (p_Block proposal) header))
      end.

Definition finalizeCommit (blockNumber : Z) : M core unit :=
  s ← gets c_state;
  if negb (rs_BlockNumber s =? blockNumber) then panic
  else if negb (rs_step s =? RoundStepCommit) then mret tt
  else
    match rs_PrecommitsReceived s !! rs_commitRound s ≫= fun precommits => TwoThirdMajority (Some precommits) with
    | None => mret tt
    | Some blockHash =>
        if bool_decide (Hash_Hex blockHash = Hash_Hex emptyBlockHash) then mret tt
        else
          match rs_proposalReceived s with
          | None => mret tt
          | Some proposal =>
              if negb (bool_decide (Hash_Hex (Block_Hash (p_Block proposal)) = Hash_Hex blockHash)) then mret tt
              else
                block ← FinalizeBlock proposal;
                match block with
                | inl _ => panic
                | inr block => emit (ECommit block)
                end
          end
    end.

Definition enterCommit (blockNumber commitRound : Z) : M core unit :=
  s ← gets c_state;
  if negb (rs_BlockNumber s =? blockNumber) || (RoundStepCommit <=? rs_step s) then mret tt
  else
    precommits ← deref (rs_PrecommitsReceived s !! commitRound);
    blockHash ← deref (TwoThirdMajority (Some precommits));
    match rs_lockedBlock s with
    | Some lockedBlock =>
        when (bool_decide (Hash_Hex (Block_Hash lockedBlock) = Hash_Hex blockHash))
          (upd (SetProposalReceived (Some (MkProposal lockedBlock commitRound (rs_lockedRound s)))))
    | None => mret tt
    end;;
    s ← gets c_state;
    match rs_proposalReceived s with
    | Some p =>
        when (negb (bool_decide (Hash_Hex (Block_Hash (p_Block p)) = Hash_Hex blockHash)))
          (upd (SetProposalReceived None))
    | None => mret tt
    end;;
    upd (fun s => UpdateRoundStep (rs_Round s) RoundStepCommit s);;
    now ← ask be_Now;
    upd (set_commit commitRound now);;
    finalizeCommit blockNumber.

(** ** New height *)

(** The early returns of [updateStateForNewblock]: a commit round without majority. *)
Definition commit_round_ok (s : roundState) : bool :=
  negb (-1 <? rs_commitRound s)
  || match rs_PrecommitsReceived s !! rs_commitRound s with
     | None => false
     | Some precommits => bool_decide (is_Some (TwoThirdMajority (Some precommits)))
     end.

Definition updateStateForNewblock : M core unit :=
  s ← gets c_state;
  if negb (commit_round_ok s) then mret tt
  else
    upd (SetView 0 (rs_BlockNumber s + 1));;
    (if rs_commitTime s =? 0
     then now ← ask be_Now; upd (set_startTime (Commit_time be_config now))
     else upd (set_startTime (Commit_time be_config (rs_commitTime s))));;
    on_state clearPreviousRoundData;;
    s ← gets c_state;
    v ← ask (fun n => be_Validators n (rs_BlockNumber s));
    modify (set_valSet v);;
    modify (set_futureProposals ∅).

(** The duration of the timeout of the step a core is restarted in. *)
Definition restart_duration (s : roundState) (now : Z) : option Z :=
  let round := rs_Round s in
  if rs_step s =? RoundStepNewHeight then Some (time_Until (rs_startTime s) now)
  else if rs_step s =? RoundStepPropose then Some (ProposeTimeout be_config round)
  else if rs_step s =? RoundStepPrevote then Some (PrevoteCatchupTimeout be_config round)
  else if rs_step s =? RoundStepPrevoteWait then Some (PrevoteTimeout be_config round)
  else if rs_step s =? RoundStepPrecommit then Some (PrecommitCatchupTimeout be_config round)
  else if rs_step s =? RoundStepPrecommitWait then Some (PrecommitTimeout be_config round)
  else None.

Definition startNewRound : M core unit :=
  head ← ask be_CurrentHeadBlock;
  lastBlockNumber ← deref (Block_Number head);
  s ← gets c_state;
  (if rs_BlockNumber s =? lastBlockNumber + 1 then mret tt
   else
     upd (SetView 0 (lastBlockNumber + 1));;
     on_state clearPreviousRoundData;;
     modify (fun c => set_sent (truncateMsgStored (c_sent c)) c);;
     s ← gets c_state;
     v ← ask (fun n => be_Validators n (rs_BlockNumber s));
     modify (set_valSet v));;
  s ← gets c_state;
  now ← ask be_Now;
  v ← valSet;
  match restart_duration s now with
  | Some duration =>
      when (negb ((GetByAddress v be_Address).1 =? -1))
        (emit (ESchedule (MkTimeout duration (rs_BlockNumber s) (rs_Round s) (rs_step s) 0)))
  | None => mret tt
  end.

(** [getInitializedState] and [Start]. *)
Definition emptyHeader : Header :=
  MkHeader zeroHash zeroHash zeroAddress zeroHash zeroHash zeroHash (mk_bytesN _ []) None None
    0 0 0 [] zeroHash (mk_bytesN _ []).

Definition getInitializedState : M core roundState :=
  head ← ask be_CurrentHeadBlock;
  lastKnownHeight ← deref (Block_Number head);
  mret (newRoundState (lastKnownHeight + 1) (Some (NewBlockWithHeader emptyHeader))).

Definition Start : M core unit :=
  started ← gets c_started;
  when (negb started)
    (s ← getInitializedState;
     modify (set_state s);;
     v ← ask (fun n => be_Validators n (rs_BlockNumber s));
     modify (set_valSet v);;
     modify set_started);;
  startNewRound.
End consensus.
