(* ===== verification/Finalize.v ===== *)
(** * From precommits to committed seals

    What [FinalizeBlock] of [src/consensus/tendermint/core/consensus.go] makes of the
    precommits of a round, against [verifyCommittedSeals] of
    [src/consensus/tendermint/backend/engine.go], which every node applies to the block
    when it is imported. *)

From S2P Require Import Prelude Bytes RlpEncode RlpDecode RlpCanonical Types Fallible ValidatorSet Messages MessageSet MsgStorage.
From S2P Require Import Timeout Engine Core Consensus.

Section seals.
Context `{C : Crypto} {B : Backend} {Q : PriorityQueue}.

(** The seals the loop takes: of the first votes, up to the quorum. *)
Definition first_seals (minMajority : Z) (votes : list (option Vote)) : list bytes :=
  v_Seal <$> take (Z.to_nat minMajority) (omap id votes).

Lemma collect_seals_eq m votes seals total :
  total < m ->
  collect_seals m votes seals total
  = (seals ++ first_seals (m - total) votes, Z.min m (total + Z.of_nat (length (omap id votes)))).
Proof.
  unfold first_seals. revert seals total. induction votes as [|[vote|] votes IH]; intros seals total Ht.
  - cbn. rewrite take_nil, app_nil_r. f_equal. lia.
  - rewrite (omap_cons_Some id (Some vote) votes vote eq_refl). cbn [collect_seals].
    replace (Z.to_nat (m - total)) with (S (Z.to_nat (m - (total + 1)))) by lia. cbn [firstn length]. csimpl.
    destruct (Z.leb_spec m (total + 1)).
    + replace (Z.to_nat (m - (total + 1))) with O by lia. rewrite take_0. cbn [fmap list_fmap]. f_equal. lia.
    + rewrite IH, <- app_assoc by done. cbn [app]. f_equal. lia.
  - rewrite (omap_cons_None id None votes eq_refl). cbn [collect_seals]. by apply IH.
Qed.

(** A node about to finalize a block: it has its header, the precommits of the round and
    a quorum of them for the block. *)
Record finalizing (c : core) (p : Proposal) (v : ValidatorSet) (ms : messageSet) (bv : blockVotes) (te : TendermintExtra) : Prop := {
  fin_valSet : c_valSet c = Some v;
  fin_round : rs_PrecommitsReceived (c_state c) !! rs_commitRound (c_state c) = Some ms;
  fin_votes : ms_voteByBlock ms !! Block_Hash (p_Block p) = Some bv;
  fin_total : bv_totalReceived bv = Z.of_nat (length (omap id (bv_votes bv)));
  fin_quorum : MinMajority v <= bv_totalReceived bv;
  fin_few : Z.of_nat (length (vs_validators v)) < 2 ^ 31;
  fin_header : header_ok (b_header (p_Block p)) = true;
  fin_mix : h_MixDigest (b_header (p_Block p)) = TendermintDigest;
  fin_extra : ExtractTendermintExtra (b_header (p_Block p)) = inr te;
  fin_size : Z.of_nat (length (h_Extra (b_header (p_Block p)))) < 2 ^ 62
}.

Lemma FinalizeBlock_eq c p v ms bv te :
  finalizing c p v ms bv te ->
  FinalizeBlock p c =
  match WriteCommittedSeals (b_header (p_Block p)) (first_seals (MinMajority v) (bv_votes bv)) with
  | inl e => Ok (inl e, c)
  | inr header => Ok (inr (WithSeal (p_Block p) header), c)
  end.
Proof.
  intros [Hv Hr Hb Ht Hq _ Hok _ _ _]. unfold FinalizeBlock, valSet, Block_Header. rewrite CopyHeader_ok by done.
  unfold Block_Hash in Hb. run. rewrite Hv. cbn [deref]. run. rewrite Hr. cbn [deref]. run. rewrite Hb. cbn [deref]. run.
  rewrite (proj2 (Z.ltb_ge _ _)) by done. pose proof (MinMajority_pos v).
  rewrite collect_seals_eq, Z.sub_0_r, Z.add_0_l by lia. cbn [app].
  rewrite (proj2 (Z.ltb_ge _ _)) by lia. by destruct (WriteCommittedSeals _ _).
Qed.

Lemma length_first_seals m votes :
  0 <= m <= Z.of_nat (length (omap id votes)) -> Z.of_nat (length (first_seals m votes)) = m.
Proof. intros Hm. unfold first_seals. rewrite length_fmap, length_take. lia. Qed.
End seals.

(** ** The committed block *)
Section committed.
Context `{C : Crypto} {B : Backend} {Q : PriorityQueue}.

Definition seal_sized (seal : bytes) : Prop := length seal = TendermintExtraSeal.

Lemma WriteCommittedSeals_eq h te seals :
  ExtractTendermintExtra h = inr te -> seals <> [] -> Forall seal_sized seals ->
  WriteCommittedSeals h seals = put_extra h (MkExtra (te_Seal te) seals (te_ValidatorAdds te)).
Proof.
  intros He Hne Hs. unfold WriteCommittedSeals. destruct seals as [|s l]; [done|].
  rewrite (proj2 (forallb_forall _ _)), He; [done|]. intros x Hx%list_elem_of_In. rewrite Forall_forall in Hs.
  by apply Nat.eqb_eq, Hs.
Qed.

Lemma WriteCommittedSeals_bad h seals :
  ~ Forall seal_sized seals -> WriteCommittedSeals h seals = inl ErrInvalidSealLength.
Proof.
  intros Hn. unfold WriteCommittedSeals. destruct seals as [|s l]; [by destruct Hn|].
  destruct (forallb _ (s :: l)) eqn:E; [|done]. destruct Hn. apply Forall_forall. intros x Hx%list_elem_of_In.
  rewrite forallb_forall in E. by apply Nat.eqb_eq, E.
Qed.

#[local] Instance seal_sized_dec seal : Decision (seal_sized seal).
Proof. unfold seal_sized. apply _. Defined.

(** C7: a committed block is sealed by the validators whose precommits it was made
    from. [FinalizeBlock] writes exactly [MinMajority] seals and keeps the hash and the
    transactions; [verifyCommittedSeals] accepts the block exactly when those seals are
    signatures of different validators over the hash. When one of the seals has not the
    length of a signature there is no block but an error. *)
Theorem FinalizeBlock_seals (c : core) (p : Proposal) (v : ValidatorSet) (ms : messageSet) (bv : blockVotes) (te : TendermintExtra) :
  NoDup (vs_validators v) -> 0 <= vs_height v -> finalizing c p v ms bv te ->
  let seals := first_seals (MinMajority v) (bv_votes bv) in
  Z.of_nat (length seals) = MinMajority v /\
  if decide (Forall seal_sized seals) then
    exists b, FinalizeBlock p c = Ok (inr b, c) /\ Block_Hash b = Block_Hash (p_Block p) /\
      b_transactions b = b_transactions (p_Block p) /\
      (verifyCommittedSeals (b_header b) v = Ok (inr tt) <->
       exists addrs, Forall2 (seal_of (PrepareCommittedSeal (Block_Hash (p_Block p)))) seals addrs /\
         NoDup addrs /\ forall a, a ∈ addrs -> a ∈ vs_validators v)
  else FinalizeBlock p c = Ok (inl ErrInvalidSealLength, c).
Proof.
  intros Hnd Hh Hfin seals. pose proof (FinalizeBlock_eq c p v ms bv te Hfin) as Heq. fold seals in Heq.
  destruct Hfin as [_ _ _ Ht Hq Hsm Hok Hmix He Hl]. pose proof (MinMajority_pos v) as Hpos.
  assert (Hlen : Z.of_nat (length seals) = MinMajority v) by (apply length_first_seals; lia). split; [done|].
  case_decide as Hs; [|by rewrite (WriteCommittedSeals_bad _ _ Hs) in Heq].
  assert (Hmin : MinMajority v < 2 ^ 32).
  { unfold MinMajority, F, ceil_div, Size in *.
    pose proof (Z.div_pos (Z.of_nat (length (vs_validators v)) + 3 - 1) 3 ltac:(lia) ltac:(lia)). lia. }
  assert (Hne : seals <> []) by (intros Hnil; rewrite Hnil in Hlen; cbn in Hlen; lia).
  pose proof (committed_fits _ te seals He Hl Hs ltac:(lia)) as Hf.
  rewrite (WriteCommittedSeals_eq _ te seals He Hne Hs) in Heq. pose proof (put_extra_eq (b_header (p_Block p)) _ Hf) as Hput.
  rewrite Hput in Heq. set (h' := with_Extra _ _) in *. exists (WithSeal (p_Block p) h').
  assert (Hhash : Header_Hash h' = Block_Hash (p_Block p))
    by exact (rewritten_Hash _ te _ _ Hmix He (Extract_fits _ te He Hl) Hf Hput eq_refl).
  split_and!; [done|exact Hhash|done|]. cbn [WithSeal b_header].
  rewrite (verifyCommittedSeals_iff h' v Hnd Hh). unfold sealed_by_quorum. rewrite Hhash.
  pose proof (Extract_put _ _ Hf (Extract_length _ te He)) as Hx. fold h' in Hx. rewrite Hx. split.
  - intros (te' & addrs & [= <-] & Hf2 & H2 & H3 & _). by exists addrs.
  - intros (addrs & Hf2 & H2 & H3). eexists _, addrs. split; [done|]. pose proof (Forall2_length _ _ _ Hf2).
    split_and!; [done..|]. rewrite <- Hlen. lia.
Qed.

(** One bad seal stops a node. The seals of precommits are not checked before they
    are needed: when one of those taken has not the length of a signature,
    [finalizeCommit] panics on every node that takes it, whatever the other
    validators sent. *)
Theorem bad_seal_panics (c : core) (p : Proposal) (v : ValidatorSet) (ms : messageSet) (bv : blockVotes) (te : TendermintExtra) (n : Z) :
  finalizing c p v ms bv te -> ~ Forall seal_sized (first_seals (MinMajority v) (bv_votes bv)) ->
  rs_BlockNumber (c_state c) = n -> rs_step (c_state c) = RoundStepCommit ->
  rs_proposalReceived (c_state c) = Some p -> TwoThirdMajority (Some ms) = Some (Block_Hash (p_Block p)) ->
  Block_Hash (p_Block p) <> emptyBlockHash ->
  finalizeCommit n c = Panic.
Proof.
  intros Hfin Hs Hn Hst Hp Htt Hne. pose proof (FinalizeBlock_eq c p v ms bv te Hfin) as Heq.
  rewrite (WriteCommittedSeals_bad _ _ Hs) in Heq. unfold finalizeCommit. run.
  rewrite Hn, Z.eqb_refl, Hst, Z.eqb_refl. cbn [negb].
  pose proof (fin_round _ _ _ _ _ _ Hfin) as Hr. rewrite Hr. cbn [option_bind]. rewrite Htt, Hp.
  rewrite (bool_decide_eq_false_2 (Hash_Hex _ = _)) by (intros Hx; by apply (inj Hash_Hex) in Hx).
  rewrite bool_decide_eq_true_2 by done. cbn [negb]. by rewrite Heq.
Qed.
End committed.
