(* ===== verification/Handler.v ===== *)
(** * The consensus core: events

    Models [src/consensus/tendermint/core/handler.go] and [processFutureMessages]: the
    handlers of messages, timeouts, new blocks and committed blocks, and the event loop,
    one event at a time. A message handler may handle further messages: a proposal kept
    for the round being entered, or the messages of a catch-up reply. The recursion runs
    on fuel, and [handle] gives it as much as the message can need. *)

From S2P Require Import Prelude Bytes RlpEncode RlpDecode RlpCanonical Types ValidatorSet Messages MessageSet.
From S2P Require Import MsgStorage Timeout Core Consensus.

Section handler.
Context `{C : Crypto} {B : Backend} {Q : PriorityQueue}.

(** ** Proposals *)

Definition VerifyProposal (proposal : Proposal) (msg : message) : M core (option error) :=
  if (p_POLRound proposal <? -1) || ((0 <=? p_POLRound proposal) && (p_Round proposal <=? p_POLRound proposal))
  then mret (Some ErrInvalidProposalPOLRound)
  else
    match GetAddressFromSignature msg with
    | inl e => mret (Some e)
    | inr signer =>
        v ← valSet;
        proposer ← deref (GetProposer v);
        if negb (bool_decide (proposer = signer)) then mret (Some ErrInvalidProposalSignature)
        else if bool_decide (Hash_Hex (Block_Hash (p_Block proposal)) = Hash_Hex emptyBlockHash)
        then mret (Some ErrEmptyBlockProposal)
        else
          err ← ask (fun n => be_VerifyProposalHeader n (Block_Header (p_Block proposal)));
          match err with
          | Some e => if bool_decide (e = ErrEmptyCommittedSeals)
                      then ask (fun n => be_VerifyProposalBlock n (p_Block proposal))
                      else mret (Some e)
          | None => ask (fun n => be_VerifyProposalBlock n (p_Block proposal))
          end
    end.

Definition store_future (msg : message) (height : Z) : M core unit :=
  modify (fun c => set_futureMessages (pq_Put (MkItem msg (uint64 height)) (c_futureMessages c)) c).

(** A proposal for a later round of the height, kept when its sender is that round's
    proposer. *)
Definition store_future_proposal (msg : message) (round : Z) : M core unit :=
  v ← valSet;
  match Copy v with
  | Ok v' =>
      p ← deref (GetProposer v);
      s ← gets c_state;
      match CalcProposer v' p (int64 (round - rs_Round s)) with
      | Ok v'' =>
          p' ← deref (GetProposer v'');
          when (bool_decide (p' = m_Address msg))
            (modify (fun c => set_futureProposals (<[round := msg]> (c_futureProposals c)) c))
      | Panic => panic
      | OutOfFuel => diverge
      end
  | Panic => panic
  | OutOfFuel => diverge
  end.

(** The end of [handlePropose]: the proposal is accepted. *)
Definition accept_proposal (proposal : Proposal) (number : Z) (msg : message) : M core unit :=
  emit (EGoReBroadcast msg);;
  upd (SetProposalReceived (Some proposal));;
  s ← gets c_state;
  if (rs_step s <=? RoundStepPropose) && IsProposalComplete s
  then enterPrevote (rs_BlockNumber s) (rs_Round s)
  else if rs_step s =? RoundStepCommit then finalizeCommit number
  else mret tt.

Definition handlePropose (msg : message) : M core (option error) :=
  match decode_proposal (m_Msg msg) with
  | inl e => mret (Some e)
  | inr proposal =>
      s ← gets c_state;
      number ← deref (Block_Number (p_Block proposal));
      if bool_decide (is_Some (rs_proposalReceived s)) then mret None
      else if negb (number =? rs_BlockNumber s) then
        when (rs_BlockNumber s <? number) (store_future msg number);;
        mret None
      else if negb (p_Round proposal =? rs_Round s) then
        when (rs_Round s <? p_Round proposal) (store_future_proposal msg (p_Round proposal));;
        mret None
      else
        err ← VerifyProposal proposal msg;
        match err with
        | Some e => if bool_decide (e = ErrKnownBlock) then mret None else mret (Some e)
        | None => accept_proposal proposal number msg;; mret None
        end
  end.

(** ** Prevotes *)

(** What a polka changes: a lock on another block is released, and the proposal of the
    round becomes the valid block. *)
Definition apply_polka (vote : Vote) (blockHash : Hash) : M core unit :=
  s ← gets c_state;
  (if negb (rs_lockedRound s =? -1) && (rs_lockedRound s <? v_Round vote) && (v_Round vote <=? rs_Round s)
   then
     lockedBlock ← deref (rs_lockedBlock s);
     when (negb (bool_decide (Hash_Hex (Block_Hash lockedBlock) = Hash_Hex blockHash))) (upd Unlock)
   else mret tt);;
  when (negb (bool_decide (Hash_Hex blockHash = Hash_Hex emptyBlockHash))
        && (rs_validRound s <? v_Round vote) && (v_Round vote =? rs_Round s))
    (match rs_proposalReceived s with
     | Some p =>
         if bool_decide (Hash_Hex (Block_Hash (p_Block p)) = Hash_Hex blockHash)
         then upd (SetValidRoundAndBlock (v_Round vote) (Some (p_Block p)))
         else upd (SetProposalReceived None)
     | None => upd (SetProposalReceived None)
     end).

(** The end of [handlePrevote]: which step the vote leads to. *)
Definition after_prevote (handle : message -> M core (option error)) (vote : Vote) (prevotes : messageSet)
    : M core unit :=
  s ← gets c_state;
  if (rs_Round s <? v_Round vote) && HasTwoThirdAny (Some prevotes)
  then enterNewRound handle (rs_BlockNumber s) (v_Round vote)
  else if (rs_Round s =? v_Round vote) && (RoundStepPrevote <=? rs_step s) then
    let maj := TwoThirdMajority (Some prevotes) in
    let ready := match maj with
                 | Some blockHash => IsProposalComplete s || bool_decide (Hash_Hex blockHash = Hash_Hex emptyBlockHash)
                 | None => false
                 end in
    if ready then enterPrecommit (rs_BlockNumber s) (v_Round vote)
    else if HasTwoThirdAny (Some prevotes) then enterPrevoteWait (rs_BlockNumber s) (v_Round vote)
    else mret tt
  else
    match rs_proposalReceived s with
    | Some p =>
        when ((0 <=? p_POLRound p) && (p_POLRound p =? v_Round vote) && IsProposalComplete s)
          (enterPrevote (rs_BlockNumber s) (v_Round vote))
    | None => mret tt
    end.

Definition handlePrevote (handle : message -> M core (option error)) (msg : message) : M core (option error) :=
  match decode_vote (m_Msg msg) with
  | inl e => mret (Some e)
  | inr vote =>
      s ← gets c_state;
      if negb (v_BlockNumber vote =? rs_BlockNumber s) then
        when (rs_BlockNumber s <? v_BlockNumber vote) (store_future msg (v_BlockNumber vote));;
        mret None
      else
        v ← valSet;
        added ← on_state (addPrevote msg vote v);
        match added with
        | inl e => mret (Some e)
        | inr false => mret None
        | inr true =>
            s ← gets c_state;
            prevotes ← deref (rs_PrevotesReceived s !! v_Round vote);
            match TwoThirdMajority (Some prevotes) with
            | Some blockHash => apply_polka vote blockHash
            | None => mret tt
            end;;
            emit (EGoReBroadcast msg);;
            after_prevote handle vote prevotes;;
            mret None
        end
  end.

(** ** Precommits *)

(** The end of [handlePrecommit]. *)
Definition after_precommit (handle : message -> M core (option error)) (vote : Vote) (precommits : messageSet)
    : M core unit :=
  s ← gets c_state;
  let number := rs_BlockNumber s in
  match TwoThirdMajority (Some precommits) with
  | Some blockHash =>
      enterNewRound handle number (v_Round vote);;
      enterPrecommit number (v_Round vote);;
      if negb (bool_decide (Hash_Hex blockHash = Hash_Hex emptyBlockHash))
      then enterCommit number (v_Round vote)
      else enterNewRound handle number (int64 (v_Round vote + 1))
  | None =>
      when ((rs_Round s <=? v_Round vote) && HasTwoThirdAny (Some precommits))
        (enterNewRound handle number (v_Round vote);;
         enterPrecommitWait number (v_Round vote))
  end.

Definition handlePrecommit (handle : message -> M core (option error)) (msg : message) : M core (option error) :=
  match decode_vote (m_Msg msg) with
  | inl e => mret (Some e)
  | inr vote =>
      s ← gets c_state;
      if negb (v_BlockNumber vote =? rs_BlockNumber s) then
        when (rs_BlockNumber s <? v_BlockNumber vote) (store_future msg (v_BlockNumber vote));;
        mret None
      else
        v ← valSet;
        added ← on_state (addPrecommit msg vote v);
        match added with
        | inl e => mret (Some e)
        | inr false => mret None
        | inr true =>
            emit (EGoReBroadcast msg);;
            s ← gets c_state;
            precommits ← deref (rs_PrecommitsReceived s !! v_Round vote);
            after_precommit handle vote precommits;;
            mret None
        end
  end.

(** ** Catch-up *)
Definition catchUpReplyBatchSize : nat := 3.

(** The loop that sends the stored messages from [index] on in batches. *)
Fixpoint reply_batches (fuel : nat) (target : Address) (i : Z) (payloads : list bytes) : M core unit :=
  match fuel with
  | O => diverge
  | S n =>
      sent ← gets c_sent;
      match get_msg sent i with
      | None => if bool_decide (payloads = []) then mret tt else SendCatchupReply target payloads
      | Some data =>
          let payloads := payloads ++ [data] in
          if (catchUpReplyBatchSize <=? length payloads)%nat
          then SendCatchupReply target payloads;; reply_batches n target (i + 1) []
          else reply_batches n target (i + 1) payloads
      end
  end.

Definition handleCatchupRequest (msg : message) : M core (option error) :=
  match decode_catchUpRequest (m_Msg msg) with
  | inl e => mret (Some e)
  | inr req =>
      s ← gets c_state;
      if negb (cr_BlockNumber req =? rs_BlockNumber s) || (rs_Round s <? cr_Round req)
         || ((cr_Round req =? rs_Round s) && (rs_step s <? cr_Step req))
      then mret None
      else
        sent ← gets c_sent;
        let index := lookup_msg sent (cr_Step req) (cr_Round req) in
        if index =? -1 then mret None
        else reply_batches (S (length sent)) (m_Address msg) index [];; mret None
  end.

(** The messages of a catch-up reply, each handled as if it had come alone. *)
Fixpoint replay (handle : message -> M core (option error)) (from : Address) (payloads : list bytes)
    : M core (option error) :=
  match payloads with
  | [] => mret None
  | payload :: r =>
      match decode_message payload with
      | inl e => mret (Some e)
      | inr subMsg =>
          if negb (bool_decide (m_Address subMsg = from)) then mret (Some ErrCatchUpReplyAddressMissMatch)
          else
            err ← handle subMsg;
            match err with
            | Some e => mret (Some e)
            | None => replay handle from r
            end
      end
  end.

Definition handleCatchUpReply (handle : message -> M core (option error)) (msg : message) : M core (option error) :=
  match decode_catchUpReply (m_Msg msg) with
  | inl e => mret (Some e)
  | inr reply =>
      s ← gets c_state;
      if negb (rs_BlockNumber s =? cp_BlockNumber reply) then mret None
      else replay handle (m_Address msg) (cp_Payloads reply)
  end.

(** ** Messages *)
Fixpoint handleMsgLocked (fuel : nat) (msg : message) : M core (option error) :=
  match fuel with
  | O => diverge
  | S n =>
      match GetAddressFromSignature msg with
      | inl e => mret (Some e)
      | inr signer =>
          if negb (bool_decide (signer = m_Address msg)) then mret (Some ErrSignerMessageMissMatch)
          else if m_Code msg =? msgPropose then handlePropose msg
          else if m_Code msg =? msgPrevote then handlePrevote (handleMsgLocked n) msg
          else if m_Code msg =? msgPrecommit then handlePrecommit (handleMsgLocked n) msg
          else if m_Code msg =? msgCatchUpRequest then handleCatchupRequest msg
          else if m_Code msg =? msgCatchUpReply then handleCatchUpReply (handleMsgLocked n) msg
          else mret (Some ErrUnknownMsgCode)
      end
  end.

(** [handleMsg]: messages nested in a catch-up reply are shorter than it. *)
Definition handle (msg : message) : M core (option error) :=
  handleMsgLocked (S (S (length (m_Msg msg)))) msg.

(** ** Future messages *)

(** The height of a queued message; [None] for one that does not decode. *)
Definition msg_height (msg : message) : option (option Z) :=
  if (m_Code msg =? msgPrecommit) || (m_Code msg =? msgPrevote) then
    match decode_vote (m_Msg msg) with inl _ => None | inr vote => Some (Some (v_BlockNumber vote)) end
  else if m_Code msg =? msgPropose then
    match decode_proposal (m_Msg msg) with inl _ => None | inr p => Some (Block_Number (p_Block p)) end
  else None.

Fixpoint processFuture (fuel : nat) : M core bool :=
  match fuel with
  | O => diverge
  | S n =>
      c ← get;
      if (pq_Len (c_futureMessages c) =? 0)%nat then mret true
      else
        item ← deref (pq_Peek (c_futureMessages c));
        let msg := mi_message item in
        match msg_height msg with
        | None => mret false
        | Some h =>
            height ← deref h;
            if height <? rs_BlockNumber (c_state c) then
              modify (fun c => set_futureMessages (pq_Get1 (c_futureMessages c)) c);;
              processFuture n
            else if rs_BlockNumber (c_state c) <? height then mret true
            else
              modify (fun c => set_futureMessages (pq_Get1 (c_futureMessages c)) c);;
              handle msg;;
              processFuture n
        end
  end.

Definition processFutureMessages : M core bool :=
  c ← get; processFuture (S (pq_Len (c_futureMessages c))).

(** ** Events *)
Definition handleFinalCommitted (newHeadNumber : Z) : M core unit :=
  s ← gets c_state;
  if newHeadNumber <? rs_BlockNumber s then mret tt
  else
    modify (fun c => set_sent (truncateMsgStored (c_sent c)) c);;
    updateStateForNewblock;;
    startNewRound;;
    processFutureMessages;;
    mret tt.

Definition handleNewBlock (block : Block) : M core unit :=
  s ← gets c_state;
  number ← deref (Block_Number block);
  if number <? rs_BlockNumber s then emit (ECancel block)
  else
    upd (SetBlock (Some block));;
    when (rs_step s =? RoundStepPropose)
      (v ← valSet;
       when (negb ((GetByAddress v be_Address).1 =? -1)) (propose_if_proposer (rs_Round s))).

Definition handleTimeout (ti : timeoutInfo) : M core unit :=
  s ← gets c_state;
  if negb (ti_BlockNumber ti =? rs_BlockNumber s) || (ti_Round ti <? rs_Round s)
     || ((ti_Round ti =? rs_Round s) && (ti_Step ti <? rs_step s))
  then mret tt
  else if ti_Step ti =? RoundStepNewHeight then enterNewRound handle (ti_BlockNumber ti) 0
  else if ti_Step ti =? RoundStepNewRound then enterPropose (ti_BlockNumber ti) 0
  else if ti_Step ti =? RoundStepPropose then enterPrevote (ti_BlockNumber ti) (ti_Round ti)
  else if (ti_Step ti =? RoundStepPrevote) || (ti_Step ti =? RoundStepPrecommit)
  then enterCatchup (ti_BlockNumber ti) (ti_Round ti) (ti_Step ti) (ti_Retry ti)
  else if ti_Step ti =? RoundStepPrevoteWait then enterPrecommit (ti_BlockNumber ti) (ti_Round ti)
  else if ti_Step ti =? RoundStepPrecommitWait then
    enterPrecommit (ti_BlockNumber ti) (ti_Round ti);;
    enterNewRound handle (ti_BlockNumber ti) (int64 (ti_Round ti + 1))
  else panic.

(** What [handleEvents] waits for, the goroutines it started, and a restart. *)
Inductive event : Type :=
  | NewBlockEvent (b : Block)
  | MessageEvent (payload : bytes)
  | TimeoutEvent (ti : timeoutInfo)
  | FinalCommittedEvent (blockNumber : Z)
  | ReBroadcast (msg : message)
  | Repost (step round : Z)
  | StartEvent.

Definition handleEvent (ev : event) : M core unit :=
  match ev with
  | NewBlockEvent b => handleNewBlock b
  | MessageEvent payload =>
      match decode_message payload with
      | inl _ => mret tt
      | inr msg => handle msg;; mret tt
      end
  | TimeoutEvent ti => handleTimeout ti
  | FinalCommittedEvent n => handleFinalCommitted n
  | ReBroadcast msg => reBroadcastMsg msg
  | Repost step round => repostSelf step round
  | StartEvent => Start
  end.

Fixpoint handleEvents (evs : list event) : M core unit :=
  match evs with
  | [] => mret tt
  | ev :: r => handleEvent ev;; handleEvents r
  end.
End handler.
