(* ===== verification/Termination.v ===== *)
(** * Every event is handled

    The message handlers of [src/consensus/tendermint/core/handler.go] call each other: a
    catch-up reply contains messages, entering a round handles the proposal kept for it,
    and the queue of future messages is drained by handling messages that may queue
    others. In the model these recursions run on fuel; here the fuel is shown to be
    enough, in every state whose kept proposals are proposals. *)

From S2P Require Import Prelude Bytes RlpEncode RlpDecode RlpCanonical Types ValidatorSet Messages MessageSet.
From S2P Require Import MsgStorage Timeout Core Consensus Handler.

(** ** Total specifications *)
Definition fwp {S A} (m : M S A) (Q : A -> S -> Prop) (s : S) : Prop :=
  match m s with Ok (a, s') => Q a s' | Panic => True | OutOfFuel => False end.

Lemma fwp_mono {S A} (m : M S A) (P Q : A -> S -> Prop) s :
  fwp m P s -> (forall a s', P a s' -> Q a s') -> fwp m Q s.
Proof. unfold fwp. destruct (m s) as [[a s']| |]; eauto. Qed.

Lemma fwp_bind {S A B} (m : M S A) (f : A -> M S B) Q s :
  fwp m (fun a s' => fwp (f a) Q s') s -> fwp (m ≫= f) Q s.
Proof. unfold fwp, mbind, M_bind. by destruct (m s) as [[a s']| |]. Qed.

Lemma fwp_ret {S A} (a : A) (Q : A -> S -> Prop) s : Q a s -> fwp (mret a) Q s.
Proof. done. Qed.

Lemma fwp_gets {S A} (f : S -> A) (Q : A -> S -> Prop) s : Q (f s) s -> fwp (gets f) Q s.
Proof. done. Qed.

Lemma fwp_get {S} (Q : S -> S -> Prop) s : Q s s -> fwp get Q s.
Proof. done. Qed.

Lemma fwp_modify {S} (f : S -> S) (Q : unit -> S -> Prop) s : Q tt (f s) -> fwp (modify f) Q s.
Proof. done. Qed.

Lemma fwp_total {S A} (m : M S A) (P : S -> Prop) Q : (forall s, P s -> fwp m Q s) -> total P m.
Proof. intros H s Hs E. specialize (H s Hs). unfold fwp in H. by rewrite E in H. Qed.

(** ** The pure parts never run out of fuel *)
Lemma GetByIndex_fuel l i : GetByIndex l i <> OutOfFuel.
Proof. unfold GetByIndex. by repeat case_match. Qed.

Lemma CalcProposer_fuel v p d : CalcProposer v p d <> OutOfFuel.
Proof.
  unfold CalcProposer, selector. destruct (vs_policy v); unfold roundRobinProposer, stickyProposer;
    (destruct (Size v =? 0); [done|]); cbv zeta;
    match goal with |- context [GetByIndex ?l ?i] => pose proof (GetByIndex_fuel l i); by destruct (GetByIndex l i) end.
Qed.

Lemma Copy_fuel `{Crypto} v : Copy v <> OutOfFuel.
Proof.
  unfold Copy, NewSet, newDefaultSet. cbv zeta. destruct (0 <? _); [|done].
  match goal with |- context [GetByIndex ?l ?i] => pose proof (GetByIndex_fuel l i); by destruct (GetByIndex l i) end.
Qed.

Lemma neighbors_go_fuel v i n : forall j acc, neighbors_go v i n j acc <> OutOfFuel.
Proof.
  induction n as [|n IH]; intros j acc; [done|]. cbn [neighbors_go]. cbv zeta.
  repeat case_match; try done; try apply IH;
    match goal with H : GetByIndex _ _ = OutOfFuel |- _ => by apply GetByIndex_fuel in H end.
Qed.

Lemma GetNeighbors_fuel v a : GetNeighbors v a <> OutOfFuel.
Proof.
  unfold GetNeighbors. cbv zeta. destruct (_ =? -1); [done|].
  pose proof (neighbors_go_fuel v (GetByAddress v a).1 (Z.to_nat (Z.sqrt_up (Size v))) 0 ∅).
  by destruct (neighbors_go _ _ _ _ _).
Qed.

Lemma storeSentMsg_fuel c step round d : storeSentMsg c step round d <> OutOfFuel.
Proof. unfold storeSentMsg. by repeat case_match. Qed.

Lemma AddVote_fuel `{Crypto} msg vote ms : AddVote msg vote ms <> OutOfFuel.
Proof.
  unfold AddVote, addVoteToBlockVote. run. unfold deref, mret, M_ret, panic. repeat case_match; simplify_eq; done.
Qed.

(** ** What handling keeps *)
Section keeps.
Context `{C : Crypto} {B : Backend} {Q : PriorityQueue} {QL : PriorityQueueLaws Q}.

(** Only proposals are kept for later rounds. *)
Definition proposals_only (c : core) : Prop :=
  forall r m, c_futureProposals c !! r = Some m -> m_Code m = msgPropose.

(** The queued messages that are not for a height above [n]. *)
Definition is_due (n : Z) (it : msgItem) : bool :=
  match msg_height (mi_message it) with Some (Some h) => h <=? n | _ => true end.

Definition due (n : Z) (q : PQ) : nat := length (filter (fun it => is_due n it = true) (pq_items q)).

Record quiet (c c' : core) : Prop := {
  q_number : rs_BlockNumber (c_state c') = rs_BlockNumber (c_state c);
  q_proposals : proposals_only c';
  q_due : (due (rs_BlockNumber (c_state c)) (c_futureMessages c')
           <= due (rs_BlockNumber (c_state c)) (c_futureMessages c))%nat
}.

Lemma quiet_refl c : proposals_only c -> quiet c c.
Proof. intros Hp. by constructor. Qed.

Lemma quiet_calls_trans c1 c2 c3 : quiet c1 c2 -> quiet c2 c3 -> quiet c1 c3.
Proof.
  intros [N1 P1 D1] [N2 P2 D2]. rewrite N1 in *. constructor; [congruence|done|lia].
Qed.

Definition keeps {A} (m : M core A) : Prop :=
  forall c, proposals_only c -> fwp m (fun _ c' => quiet c c') c.

Lemma keeps_ret {A} (a : A) : keeps (mret a).
Proof. intros c Hc. by apply quiet_refl. Qed.

Lemma keeps_bind {A D} (m : M core A) (f : A -> M core D) : keeps m -> (forall a, keeps (f a)) -> keeps (m ≫= f).
Proof.
  intros Hm Hf c Hc. apply fwp_bind. eapply fwp_mono; [by apply Hm|]. intros a c1 H1.
  eapply fwp_mono; [apply Hf, H1|]. intros b c2 H2. exact (quiet_calls_trans _ _ _ H1 H2).
Qed.

Lemma keeps_get : keeps get.
Proof. intros c Hc. by apply quiet_refl. Qed.

Lemma keeps_gets {A} (f : core -> A) : keeps (gets f).
Proof. intros c Hc. by apply quiet_refl. Qed.

Lemma keeps_panic {A} : keeps (panic : M core A).
Proof. by intros c Hc. Qed.

Lemma keeps_deref {A} (p : option A) : keeps (deref p : M core A).
Proof. destruct p; [apply keeps_ret|apply keeps_panic]. Qed.

Lemma keeps_when b (m : M core unit) : keeps m -> keeps (when b m).
Proof. intros Hm. destruct b; [exact Hm|apply keeps_ret]. Qed.

Lemma keeps_upd f : (forall s, rs_BlockNumber (f s) = rs_BlockNumber s) -> keeps (upd f).
Proof. intros Hf c Hc. by constructor; cbn. Qed.

Lemma keeps_modify f :
  (forall c, rs_BlockNumber (c_state (f c)) = rs_BlockNumber (c_state c)) ->
  (forall c, c_futureProposals (f c) = c_futureProposals c) ->
  (forall c, c_futureMessages (f c) = c_futureMessages c) -> keeps (modify f).
Proof.
  intros H1 H2 H3 c Hc. constructor; cbn; [done| |by rewrite H3]. intros r m. rewrite H2. apply Hc.
Qed.

Lemma keeps_emit e : keeps (emit e).
Proof. by apply keeps_modify. Qed.

Lemma keeps_ask {A} (f : nat -> A) : keeps (ask f).
Proof.
  unfold ask. apply keeps_bind; [apply keeps_gets|]. intros n.
  apply keeps_bind; [by apply keeps_modify|]. intros _. apply keeps_ret.
Qed.

Lemma keeps_valSet : keeps valSet.
Proof. apply keeps_bind; [apply keeps_gets|]. intros v. apply keeps_deref. Qed.

(** A call that returns in one of Go's two ways. *)
Lemma keeps_res {A D} (x : res A) (f : A -> M core D) :
  x <> OutOfFuel -> (forall a, keeps (f a)) ->
  keeps (match x with Ok a => f a | Panic => panic | OutOfFuel => diverge end).
Proof. intros Hx Hf. destruct x; [apply Hf|apply keeps_panic|done]. Qed.
End keeps.

Create HintDb keeps.
#[export] Hint Resolve keeps_ret keeps_get keeps_gets keeps_panic keeps_deref keeps_when keeps_emit keeps_ask
  keeps_valSet : keeps.

(** [keep_tac]: a computation made of operations that keep. *)
Ltac keep_tac :=
  repeat first
    [ progress intros
    | solve [eauto with keeps nocore]
    | apply keeps_upd; reflexivity
    | apply keeps_modify; reflexivity
    | apply keeps_bind
    | apply keeps_when
    | apply keeps_res; [solve [auto using CalcProposer_fuel, Copy_fuel, GetNeighbors_fuel, storeSentMsg_fuel]|]
    | match goal with
      | |- keeps (match ?x with _ => _ end) => destruct x
      | |- keeps (if ?x then _ else _) => destruct x
      end ].

Section operations.
Context `{C : Crypto} {B : Backend} {Q : PriorityQueue} {QL : PriorityQueueLaws Q}.

Lemma keeps_storeSent step round p : keeps (storeSent step round p).
Proof. unfold storeSent. keep_tac. Qed.
#[local] Hint Resolve keeps_storeSent : keeps.

Lemma keeps_SendPropose p : keeps (SendPropose p).
Proof. unfold SendPropose. keep_tac. Qed.
#[local] Hint Resolve keeps_SendPropose : keeps.

Lemma keeps_SendVote code b r : keeps (SendVote code b r).
Proof. unfold SendVote. keep_tac. Qed.
#[local] Hint Resolve keeps_SendVote : keeps.

Lemma keeps_SendCatchupReply t ps : keeps (SendCatchupReply t ps).
Proof. unfold SendCatchupReply. keep_tac. Qed.
#[local] Hint Resolve keeps_SendCatchupReply : keeps.

Lemma keeps_reBroadcastMsg m : keeps (reBroadcastMsg m).
Proof. unfold reBroadcastMsg. keep_tac. Qed.

Lemma keeps_repostSelf step round : keeps (repostSelf step round).
Proof. unfold repostSelf. keep_tac. Qed.

Lemma keeps_sendCatchUpRequest b r s : keeps (sendCatchUpRequest b r s).
Proof. unfold sendCatchUpRequest. keep_tac. Qed.
#[local] Hint Resolve keeps_sendCatchUpRequest : keeps.

Lemma keeps_enterCatchup b r s t : keeps (enterCatchup b r s t).
Proof. unfold enterCatchup. keep_tac. Qed.

Lemma keeps_defaultDoPrevote r : keeps (defaultDoPrevote r).
Proof. unfold defaultDoPrevote. keep_tac. Qed.
#[local] Hint Resolve keeps_defaultDoPrevote : keeps.

Lemma keeps_enterPrevote n r : keeps (enterPrevote n r).
Proof. unfold enterPrevote. keep_tac. Qed.
#[local] Hint Resolve keeps_enterPrevote : keeps.

Lemma keeps_propose_if_proposer r : keeps (propose_if_proposer r).
Proof. unfold propose_if_proposer, getDefaultProposal, defaultDecideProposal. keep_tac. Qed.
#[local] Hint Resolve keeps_propose_if_proposer : keeps.

Lemma keeps_enterPropose n r : keeps (enterPropose n r).
Proof. unfold enterPropose. keep_tac. Qed.
#[local] Hint Resolve keeps_enterPropose : keeps.

Lemma keeps_calcProposer d : keeps (calcProposer d).
Proof. unfold calcProposer. keep_tac. Qed.
#[local] Hint Resolve keeps_calcProposer : keeps.

Lemma keeps_enterPrevoteWait n r : keeps (enterPrevoteWait n r).
Proof. unfold enterPrevoteWait. keep_tac. Qed.
#[local] Hint Resolve keeps_enterPrevoteWait : keeps.

Lemma keeps_enterPrecommitWait n r : keeps (enterPrecommitWait n r).
Proof. unfold enterPrecommitWait. keep_tac. Qed.
#[local] Hint Resolve keeps_enterPrecommitWait : keeps.

Lemma keeps_enterPrecommit n r : keeps (enterPrecommit n r).
Proof. unfold enterPrecommit, doPrecommit. keep_tac. Qed.
#[local] Hint Resolve keeps_enterPrecommit : keeps.

Lemma keeps_finalizeCommit n : keeps (finalizeCommit n).
Proof. unfold finalizeCommit, FinalizeBlock. keep_tac. Qed.
#[local] Hint Resolve keeps_finalizeCommit : keeps.

Lemma keeps_enterCommit n r : keeps (enterCommit n r).
Proof. unfold enterCommit. keep_tac. Qed.
#[local] Hint Resolve keeps_enterCommit : keeps.

Lemma keeps_VerifyProposal p m : keeps (VerifyProposal p m).
Proof. unfold VerifyProposal. keep_tac. Qed.
#[local] Hint Resolve keeps_VerifyProposal : keeps.

Lemma keeps_accept_proposal p n m : keeps (accept_proposal p n m).
Proof. unfold accept_proposal. keep_tac. Qed.
#[local] Hint Resolve keeps_accept_proposal : keeps.

Lemma keeps_apply_polka vote h : keeps (apply_polka vote h).
Proof. unfold apply_polka. keep_tac. Qed.
#[local] Hint Resolve keeps_apply_polka : keeps.

Lemma keeps_handleNewBlock b : keeps (handleNewBlock b).
Proof. unfold handleNewBlock. keep_tac. Qed.

Lemma keeps_addVote code sets put msg vote v :
  (forall m s, rs_BlockNumber (put m s) = rs_BlockNumber s) ->
  keeps (on_state (addVote code sets put msg vote v)).
Proof.
  intros Hput c Hc. unfold fwp, on_state, addVote. run.
  match goal with |- context [AddVote ?m ?x ?s] => pose proof (AddVote_fuel m x s) as Hf;
    destruct (AddVote m x s) as [[r ms]| |] end; [|done..].
  constructor; cbn; [apply Hput|done|done].
Qed.
End operations.

#[export] Hint Resolve keeps_storeSent keeps_SendPropose keeps_SendVote keeps_SendCatchupReply keeps_reBroadcastMsg
  keeps_repostSelf keeps_sendCatchUpRequest keeps_enterCatchup keeps_enterPrevote keeps_propose_if_proposer
  keeps_enterPropose keeps_calcProposer keeps_enterPrevoteWait keeps_enterPrecommitWait keeps_enterPrecommit
  keeps_finalizeCommit keeps_enterCommit keeps_VerifyProposal keeps_accept_proposal keeps_apply_polka
  keeps_handleNewBlock : keeps.

(** ** The message handlers *)
Section handlers.
Context `{C : Crypto} {B : Backend} {Q : PriorityQueue} {QL : PriorityQueueLaws Q}.

(** A value read from the state. *)
Lemma keeps_bind_gets {A D} (f : core -> A) (k : A -> M core D) :
  (forall c, proposals_only c -> fwp (k (f c)) (fun _ c' => quiet c c') c) -> keeps (gets f ≫= k).
Proof. intros Hk c Hc. by apply fwp_bind, Hk. Qed.

Lemma due_Put n x q : is_due n x = false -> due n (pq_Put x q) = due n q.
Proof.
  intros Hx. unfold due. rewrite (Permutation_length (filter_Permutation _ _ _ (pq_items_Put x q))).
  by rewrite filter_cons_False by (rewrite Hx; done).
Qed.

(** A message for a later height is queued without becoming due. *)
Lemma store_future_quiet c msg h n :
  proposals_only c -> msg_height msg = Some (Some n) -> rs_BlockNumber (c_state c) < n ->
  fwp (store_future msg h) (fun _ c' => quiet c c') c.
Proof.
  intros Hc Hm Hn. constructor; cbn; [done|done|]. rewrite due_Put; [done|].
  unfold is_due. cbn [mi_message]. rewrite Hm. by apply Z.leb_gt.
Qed.

Lemma keeps_store_future_proposal m r : m_Code m = msgPropose -> keeps (store_future_proposal m r).
Proof.
  intros Hm. unfold store_future_proposal. keep_tac. intros c Hc. constructor; cbn; [done| |done].
  intros r' m'. cbn. rewrite lookup_insert_Some. intros [[_ <-]|[_ Hl]]; [done|by eapply Hc].
Qed.

Lemma keeps_handlePropose msg : m_Code msg = msgPropose -> keeps (handlePropose msg).
Proof.
  intros Hcode. unfold handlePropose. destruct (decode_proposal (m_Msg msg)) as [e|p] eqn:Ep; [keep_tac|].
  apply keeps_bind_gets. intros c Hc. apply fwp_bind.
  destruct (Block_Number (p_Block p)) as [n|] eqn:En; [|done]. cbn [deref].
  apply fwp_ret.
  case_match; [by apply quiet_refl|]. case_match.
  - apply fwp_bind, fwp_mono with (P := fun _ c' => quiet c c'); [|done].
    destruct (Z.ltb_spec (rs_BlockNumber (c_state c)) n); [|by apply quiet_refl].
    apply store_future_quiet with n; [done| |done]. unfold msg_height. rewrite Hcode, Ep. by rewrite <- En.
  - pose proof (keeps_store_future_proposal msg (p_Round p) Hcode) as Hst.
    match goal with |- fwp ?m _ _ => cut (keeps m); [intros Hk; by apply Hk|] end. keep_tac.
Qed.

(** What the handlers ask of the handler they are given. *)
Definition keeps_proposals (handle : message -> M core (option error)) : Prop :=
  forall m, m_Code m = msgPropose -> keeps (handle m).

Lemma keeps_enterNewRound handle n r : keeps_proposals handle -> keeps (enterNewRound handle n r).
Proof.
  intros Hh. unfold enterNewRound. apply keeps_bind; [keep_tac|]. intros s.
  case_match; [keep_tac|]. do 5 (apply keeps_bind; [keep_tac|intros []]).
  apply keeps_bind_gets. intros c Hc. destruct (c_futureProposals c !! r) as [m|] eqn:Em; [|by apply quiet_refl].
  assert (Hk : keeps (handle m;; mret tt)) by (apply keeps_bind; [by eapply Hh, Hc|intros; apply keeps_ret]).
  by apply Hk.
Qed.

(** The first lines of the vote handlers: a vote of a later height is queued. *)
Lemma keeps_vote msg vote (k : roundState -> M core (option error)) :
  m_Code msg = msgPrevote \/ m_Code msg = msgPrecommit -> decode_vote (m_Msg msg) = inr vote ->
  (forall s, keeps (k s)) ->
  keeps (s ← gets c_state;
    if negb (v_BlockNumber vote =? rs_BlockNumber s) then
      when (rs_BlockNumber s <? v_BlockNumber vote) (store_future msg (v_BlockNumber vote));; mret None
    else k s).
Proof.
  intros Hcode Hv Hk. apply keeps_bind_gets. intros c Hc. case_match; [|by apply Hk].
  apply fwp_bind, fwp_mono with (P := fun _ c' => quiet c c'); [|done].
  destruct (Z.ltb_spec (rs_BlockNumber (c_state c)) (v_BlockNumber vote)); [|by apply quiet_refl].
  apply store_future_quiet with (v_BlockNumber vote); [done| |done]. unfold msg_height. rewrite Hv.
  by destruct Hcode as [-> | ->].
Qed.

Lemma keeps_handlePrevote handle msg :
  keeps_proposals handle -> m_Code msg = msgPrevote -> keeps (handlePrevote handle msg).
Proof.
  intros Hh Hcode. unfold handlePrevote. destruct (decode_vote (m_Msg msg)) as [e|vote] eqn:Ev; [keep_tac|].
  apply keeps_vote; [by left|done|]. intros s. pose proof (keeps_enterNewRound handle) as Hn.
  apply keeps_bind; [apply keeps_valSet|]. intros v. apply keeps_bind; [by apply keeps_addVote|]. intros added.
  unfold after_prevote. keep_tac; by apply Hn.
Qed.

Lemma keeps_handlePrecommit handle msg :
  keeps_proposals handle -> m_Code msg = msgPrecommit -> keeps (handlePrecommit handle msg).
Proof.
  intros Hh Hcode. unfold handlePrecommit. destruct (decode_vote (m_Msg msg)) as [e|vote] eqn:Ev; [keep_tac|].
  apply keeps_vote; [by right|done|]. intros s. pose proof (keeps_enterNewRound handle) as Hn.
  apply keeps_bind; [apply keeps_valSet|]. intros v. apply keeps_bind; [by apply keeps_addVote|]. intros added.
  unfold after_precommit. keep_tac; by apply Hn.
Qed.

(** Sending a reply does not touch the stored messages. *)
Lemma SendCatchupReply_sent t ps c :
  proposals_only c -> fwp (SendCatchupReply t ps) (fun _ c' => quiet c c' /\ c_sent c' = c_sent c) c.
Proof.
  intros Hc. unfold fwp, SendCatchupReply, emit. run. repeat case_match; simplify_eq; (split; [|done]); by constructor.
Qed.

Lemma keeps_reply_batches fuel t i ps c :
  proposals_only c -> 0 <= i -> (1 <= fuel)%nat -> Z.of_nat (length (c_sent c)) < i + Z.of_nat fuel ->
  fwp (reply_batches fuel t i ps) (fun _ c' => quiet c c') c.
Proof.
  revert i ps c. induction fuel as [|fuel IH]; intros i ps c Hc Hi H1 Hf; cbn [reply_batches].
  { lia. }
  apply fwp_bind, fwp_gets.
  destruct (get_msg (c_sent c) i) as [data|] eqn:Eg.
  - assert (Hlt : i < Z.of_nat (length (c_sent c))).
    { unfold get_msg in Eg. case_match eqn:E; [done|]. lia. }
    destruct (_ <=? _)%nat; [|by apply IH; [|lia..]].
    apply fwp_bind. eapply fwp_mono; [by apply SendCatchupReply_sent|]. intros [] c1 [Hq Hs].
    eapply fwp_mono; [apply IH; [apply Hq|lia|lia|rewrite Hs; lia]|]. intros [] c2 H2. by eapply quiet_calls_trans.
  - case_match; [by apply quiet_refl|]. by apply keeps_SendCatchupReply.
Qed.

Lemma keeps_handleCatchupRequest msg : keeps (handleCatchupRequest msg).
Proof.
  unfold handleCatchupRequest. destruct (decode_catchUpRequest (m_Msg msg)) as [e|req]; [keep_tac|].
  apply keeps_bind; [keep_tac|]. intros s. case_match; [keep_tac|]. apply keeps_bind_gets. intros c Hc.
  destruct (_ =? -1) eqn:Ei; [by apply quiet_refl|]. apply fwp_bind, fwp_mono with (P := fun _ c' => quiet c c'); [|done].
  unfold lookup_msg in *.
  destruct (lookup_from_spec (c_sent c) (cr_Step req) (cr_Round req) 0) as [[H1 _]|(k & d & H1 & _)]; [lia|].
  apply keeps_reply_batches; [done|lia..].
Qed.

(** Messages inside a reply are shorter than the reply. *)
Lemma keeps_replay handle from n payloads :
  (forall p m, p ∈ payloads -> decode_message p = inr m -> (length (m_Msg m) < n)%nat) ->
  (forall m, (length (m_Msg m) < n)%nat -> keeps (handle m)) -> keeps (replay handle from payloads).
Proof.
  intros Hp Hh. induction payloads as [|p ps IH]; cbn [replay]; [keep_tac|].
  destruct (decode_message p) as [e|m] eqn:Em; [keep_tac|]. case_match; [keep_tac|].
  apply keeps_bind; [eapply Hh, Hp; [by left|done]|]. intros [e|]; [keep_tac|].
  apply IH. intros p' m' Hin. apply Hp. by right.
Qed.

Lemma keeps_handleMsgLocked fuel : forall m,
  (1 <= fuel)%nat -> m_Code m = msgPropose \/ (length (m_Msg m) + 2 <= fuel)%nat -> keeps (handleMsgLocked fuel m).
Proof.
  induction fuel as [|fuel IH]; intros m H1 Hm; [lia|]. cbn [handleMsgLocked].
  destruct (GetAddressFromSignature m) as [e|signer]; [keep_tac|]. case_match; [keep_tac|].
  destruct (Z.eqb_spec (m_Code m) msgPropose) as [Hc|Hc]; [by apply keeps_handlePropose|].
  destruct Hm as [Hm|Hm]; [done|].
  assert (Hprop : keeps_proposals (handleMsgLocked fuel)) by (intros m' Hm'; apply IH; [lia|by left]).
  destruct (Z.eqb_spec (m_Code m) msgPrevote); [by apply keeps_handlePrevote|].
  destruct (Z.eqb_spec (m_Code m) msgPrecommit); [by apply keeps_handlePrecommit|].
  case_match; [apply keeps_handleCatchupRequest|]. case_match; [|keep_tac].
  unfold handleCatchUpReply. destruct (decode_catchUpReply (m_Msg m)) as [e|reply] eqn:Er; [keep_tac|].
  apply keeps_bind; [keep_tac|]. intros s. case_match; [keep_tac|].
  apply (keeps_replay _ _ (length (m_Msg m))).
  - intros p m' Hin Hd. apply decode_message_shorter in Hd. pose proof (decode_catchUpReply_shorter _ _ _ Er Hin). lia.
  - intros m' Hlt. apply IH; [lia|]. right. lia.
Qed.

Lemma keeps_handle m : keeps (handle m).
Proof. unfold handle. apply keeps_handleMsgLocked; [lia|]. right. lia. Qed.
End handlers.

(** ** Events *)
Section events.
Context `{C : Crypto} {B : Backend} {Q : PriorityQueue} {QL : PriorityQueueLaws Q}.

(** The item taken from the queue is no longer due. *)
Lemma due_Get1 n q it : pq_Peek q = Some it -> is_due n it = true -> due n q = S (due n (pq_Get1 q)).
Proof.
  intros Hp Hd. unfold due. rewrite (Permutation_length (filter_Permutation _ _ _ (pq_Peek_Get1 q it Hp))).
  by rewrite filter_cons_True.
Qed.

Lemma due_le_Len n q : (due n q <= pq_Len q)%nat.
Proof. rewrite pq_Len_items. unfold due. apply length_filter. Qed.

Lemma due_drop n q it : pq_Peek q = Some it -> (due n (pq_Get1 q) <= due n q)%nat.
Proof.
  intros Hp. unfold due. rewrite (Permutation_length (filter_Permutation _ _ _ (pq_Peek_Get1 q it Hp))).
  rewrite filter_cons. case_decide; cbn [length]; lia.
Qed.

(** Taking a due item off the queue. *)
Lemma Get1_quiet c it :
  proposals_only c -> pq_Peek (c_futureMessages c) = Some it ->
  quiet c (set_futureMessages (pq_Get1 (c_futureMessages c)) c).
Proof. intros Hc Hp. constructor; cbn; [done|done|by eapply due_drop]. Qed.

Lemma keeps_processFuture fuel c :
  proposals_only c -> (due (rs_BlockNumber (c_state c)) (c_futureMessages c) < fuel)%nat ->
  fwp (processFuture fuel) (fun _ c' => quiet c c') c.
Proof.
  revert c. induction fuel as [|fuel IH]; intros c Hc Hf; [lia|]. cbn [processFuture].
  apply fwp_bind, fwp_get. case_match; [by apply quiet_refl|]. apply fwp_bind.
  destruct (pq_Peek (c_futureMessages c)) as [it|] eqn:Ep; [|done]. cbn [deref]. apply fwp_ret.
  destruct (msg_height (mi_message it)) as [[h|]|] eqn:Eh; [|done|by apply quiet_refl].
  apply fwp_bind. cbn [deref]. apply fwp_ret. set (n := rs_BlockNumber (c_state c)) in *.
  pose proof (Get1_quiet c it Hc Ep) as Hq. set (c1 := set_futureMessages _ c) in Hq.
  assert (Hdue : h <= n -> (due n (c_futureMessages c1) < fuel)%nat).
  { intros Hle. rewrite (due_Get1 n _ it Ep) in Hf by (unfold is_due; rewrite Eh; by apply Z.leb_le).
    cbn. lia. }
  assert (Hnext : forall c2, quiet c1 c2 -> h <= n -> fwp (processFuture fuel) (fun _ c' => quiet c c') c2).
  { intros c2 H2 Hle. specialize (Hdue Hle). pose proof (quiet_calls_trans _ _ _ Hq H2) as H2'. fold n in H2'.
    eapply fwp_mono; [apply IH; [apply H2'|]|intros b c3 H3; by eapply quiet_calls_trans].
    rewrite (q_number _ _ H2'). pose proof (q_due _ _ H2) as Hd. cbn in Hd. fold n in Hd |- *. cbn in Hdue. lia. }
  destruct (Z.ltb_spec h n); [|destruct (Z.ltb_spec n h); [by apply quiet_refl|]]; apply fwp_bind, fwp_modify.
  - apply (Hnext c1); [by apply quiet_refl|lia].
  - apply fwp_bind. eapply fwp_mono; [by apply keeps_handle|]. intros e c2 H2. by apply Hnext; [|lia].
Qed.

(** Computations after which only proposals are kept. *)
Definition calm {A} (m : M core A) : Prop := forall c, proposals_only c -> fwp m (fun _ c' => proposals_only c') c.

Lemma keeps_calm {A} (m : M core A) : keeps m -> calm m.
Proof. intros Hm c Hc. eapply fwp_mono; [by apply Hm|]. intros a c' H. apply H. Qed.

Lemma calm_bind {A D} (m : M core A) (f : A -> M core D) : calm m -> (forall a, calm (f a)) -> calm (m ≫= f).
Proof. intros Hm Hf c Hc. apply fwp_bind. eapply fwp_mono; [by apply Hm|]. intros a c1 H1. by apply Hf. Qed.

Lemma calm_modify f : (forall c, c_futureProposals (f c) ⊆ c_futureProposals c) -> calm (modify f).
Proof. intros Hf c Hc r m Hm. eapply Hc, lookup_weaken; [exact Hm|apply Hf]. Qed.

Lemma calm_clear : calm (on_state clearPreviousRoundData).
Proof.
  intros c Hc. unfold fwp, on_state, clearPreviousRoundData. run. unfold deref. repeat case_match; simplify_eq; done.
Qed.

(** [calm_tac]: as [keep_tac], for computations that change the height. *)
#[local] Ltac calm_tac :=
  repeat first
    [ progress intros
    | eassumption
    | solve [apply keeps_calm; keep_tac]
    | apply calm_clear
    | apply calm_modify; intros; (reflexivity || apply map_empty_subseteq)
    | apply calm_bind
    | match goal with
      | |- calm (match ?x with _ => _ end) => destruct x
      | |- calm (if ?x then _ else _) => destruct x
      end ].

Lemma calm_updateStateForNewblock : calm updateStateForNewblock.
Proof. unfold updateStateForNewblock. calm_tac. Qed.

Lemma calm_startNewRound : calm startNewRound.
Proof. unfold startNewRound. calm_tac. Qed.

Lemma calm_Start : calm Start.
Proof. unfold Start, getInitializedState, when. pose proof calm_startNewRound. calm_tac. Qed.

Lemma calm_processFutureMessages : calm processFutureMessages.
Proof.
  intros c Hc. unfold processFutureMessages. apply fwp_bind, fwp_get.
  eapply fwp_mono; [apply keeps_processFuture; [done|]|intros b c' H; apply H].
  pose proof (due_le_Len (rs_BlockNumber (c_state c)) (c_futureMessages c)). lia.
Qed.

Lemma calm_handleEvent ev : calm (handleEvent ev).
Proof.
  pose proof calm_startNewRound. pose proof calm_updateStateForNewblock. pose proof calm_processFutureMessages.
  pose proof keeps_handle as Hh. assert (Hn : forall n r, keeps (enterNewRound handle n r))
    by (intros; apply keeps_enterNewRound; intros m _; apply Hh).
  destruct ev as [b|p|ti|n|msg|step round|]; cbn [handleEvent]; [calm_tac| | | |calm_tac|calm_tac|apply calm_Start].
  - destruct (decode_message p); [calm_tac|]. apply keeps_calm, keeps_bind; [apply Hh|keep_tac].
  - apply keeps_calm. unfold handleTimeout. keep_tac; apply Hn.
  - unfold handleFinalCommitted. calm_tac.
Qed.

Lemma calm_handleEvents evs : calm (handleEvents evs).
Proof. induction evs as [|ev evs IH]; cbn [handleEvents]; [calm_tac|]. apply calm_bind; [apply calm_handleEvent|done]. Qed.

(** C3: every event is handled. A node that is started and then given any events comes
    to the end of each of them, or panics: the nested handling of kept proposals,
    catch-up replies and queued messages always ends. *)
Theorem events_terminate (rebroadcast : bool) (evs : list event) :
  (Start;; handleEvents evs) (New_core rebroadcast) <> OutOfFuel.
Proof.
  apply (fwp_total _ proposals_only (fun _ c => proposals_only c)).
  - apply calm_bind; [apply calm_Start|intros; apply calm_handleEvents].
  - intros r m Hm. cbn in Hm. by rewrite lookup_empty in Hm.
Qed.
End events.
