(* ===== verification/Spec.v ===== *)
(** * What a correct validator promises, and agreement

    An abstract specification of one validator and, from it, agreement. The
    specification keeps of the consensus state only what matters for safety: height,
    round, whether the node has prevoted and precommitted in the round, the lock, the
    polkas (two-thirds majorities of prevotes) it knows, and the votes and decisions it
    has made. [Refinement] proves that the model of [src/consensus/tendermint/core] takes
    only the steps of this machine.

    When more than two thirds of the validators of a height follow the specification, no
    two values gather a quorum of precommits at that height. The votes of the correct
    validators form one history, newest first; each is justified by what had been sent
    before it. *)

From S2P Require Import Prelude Bytes Types ValidatorSet Messages.


(** A vote: prevote or precommit, for the block of hash [av_hash] or, with the zero
    hash, for no block. *)
Record avote : Type := AVote { av_code : Z; av_height : Z; av_round : Z; av_hash : Hash }.

#[export] Instance avote_eq_dec : EqDecision avote.
Proof. solve_decision. Defined.

(** What is known of other validators' votes: [E a v] when the vote [v] of [a] has been
    received. *)
Definition evidence : Type := Address -> avote -> Prop.

Record node : Type := MkNode {
  n_height : Z;
  n_round : Z;
  n_stage : Z;                      (* 0: no vote in this round, 1: prevoted, 2: precommitted *)
  n_lock : option (Z * Hash);
  n_polka : gmap Z Hash;
  n_votes : list avote;             (* newest first *)
  n_decided : list (Z * Hash)
}.

Section spec.
Context (vals : Z -> ValidatorSet).

(** A quorum of the validators of a height cast the vote. *)
Definition quorum (E : evidence) (v : avote) : Prop :=
  exists S : gset Address, S ⊆ list_to_set (vs_validators (vals (av_height v))) /\
    MinMajority (vals (av_height v)) <= Z.of_nat (size S) /\ forall a, a ∈ S -> E a v.

Definition polka (E : evidence) (n r : Z) (h : Hash) : Prop := quorum E (AVote msgPrevote n r h).
Definition committed (E : evidence) (n r : Z) (h : Hash) : Prop := quorum E (AVote msgPrecommit n r h).

(** ** Steps *)
Inductive step (E : evidence) : node -> node -> Prop :=
  | step_move H R st lk pk vs ds R' st' :
      R < R' \/ (R = R' /\ st <= st') -> 0 <= st' ->
      step E (MkNode H R st lk pk vs ds) (MkNode H R' st' lk pk vs ds)
  | step_learn H R st lk pk vs ds pk' :
      pk ⊆ pk' -> (forall r h, pk' !! r = Some h -> polka E H r h) ->
      step E (MkNode H R st lk pk vs ds) (MkNode H R st lk pk' vs ds)
  | step_prevote H R st lk pk vs ds h :
      st < 1 -> (forall lr lh, lk = Some (lr, lh) -> h = lh) ->
      step E (MkNode H R st lk pk vs ds) (MkNode H R 1 lk pk (AVote msgPrevote H R h :: vs) ds)
  | step_precommit_nil H R st lk pk vs ds :
      st < 2 ->
      step E (MkNode H R st lk pk vs ds) (MkNode H R 2 lk pk (AVote msgPrecommit H R zeroHash :: vs) ds)
  | step_precommit H R st lk pk vs ds h :
      st < 2 -> pk !! R = Some h -> h <> zeroHash ->
      step E (MkNode H R st lk pk vs ds)
             (MkNode H R 2 (Some (R, h)) pk (AVote msgPrecommit H R h :: vs) ds)
  | step_lock H R st lk pk vs ds h :
      st < 2 -> pk !! R = Some h ->
      step E (MkNode H R st lk pk vs ds) (MkNode H R 2 (Some (R, h)) pk vs ds)
  | step_unlock H R st lr lh pk vs ds r w :
      lr < r -> r <= R -> pk !! r = Some w -> w <> lh ->
      step E (MkNode H R st (Some (lr, lh)) pk vs ds) (MkNode H R st None pk vs ds)
  | step_decide H R st lk pk vs ds r h :
      committed E H r h -> is_int64 r -> h <> zeroHash ->
      step E (MkNode H R st lk pk vs ds) (MkNode H R st lk pk vs ((H, h) :: ds))
  | step_height H R st lk pk vs ds H' :
      H < H' ->
      step E (MkNode H R st lk pk vs ds) (MkNode H' 0 0 None ∅ vs ds).

Definition steps_to (E : evidence) : relation node := rtc (step E).

(** ** Invariant *)
Definition pos_le (v w : avote) : Prop :=
  av_height v < av_height w \/ (av_height v = av_height w /\ av_round v <= av_round w).

Definition same_slot (v w : avote) : Prop :=
  av_code v = av_code w /\ av_height v = av_height w /\ av_round v = av_round w.

(** Why a vote may be cast, given the validator's earlier votes: it is the only one of
    its kind in its round; a precommit for a block follows a polka for it; and a prevote
    against an earlier precommit of the height follows a polka for another value in a
    later round. *)
Record justified (E : evidence) (v : avote) (older : list avote) : Prop := {
  just_once : forall w, w ∈ older -> ~ same_slot w v;
  just_order : forall w, w ∈ older -> pos_le w v;
  just_code : av_code v = msgPrevote \/ av_code v = msgPrecommit;
  just_precommit : av_code v = msgPrecommit -> av_hash v <> zeroHash ->
    polka E (av_height v) (av_round v) (av_hash v);
  just_prevote : av_code v = msgPrevote -> forall r h,
    AVote msgPrecommit (av_height v) r h ∈ older -> h <> zeroHash -> h <> av_hash v ->
    r < av_round v /\ exists r' w, r < r' /\ r' <= av_round v /\ w <> h /\ polka E (av_height v) r' w
}.

Fixpoint all_justified (E : evidence) (vs : list avote) : Prop :=
  match vs with
  | [] => True
  | v :: older => justified E v older /\ all_justified E older
  end.

Record node_inv (E : evidence) (a : node) : Prop := {
  inv_stage : 0 <= n_stage a;
  inv_pos : forall v, v ∈ n_votes a ->
    av_height v < n_height a \/
    (av_height v = n_height a /\
     (av_round v < n_round a \/
      (av_round v = n_round a /\ (av_code v = msgPrevote -> 1 <= n_stage a) /\
       (av_code v = msgPrecommit -> 2 <= n_stage a))));
  inv_lock : forall lr lh, n_lock a = Some (lr, lh) -> n_polka a !! lr = Some lh /\ lr <= n_round a;
  inv_polka : forall r h, n_polka a !! r = Some h -> polka E (n_height a) r h;
  inv_precommit : forall r h, AVote msgPrecommit (n_height a) r h ∈ n_votes a -> h <> zeroHash ->
    (exists lr, n_lock a = Some (lr, h) /\ r <= lr) \/
    (exists r' w, r < r' /\ r' <= n_round a /\ n_polka a !! r' = Some w /\ w <> h);
  inv_justified : all_justified E (n_votes a);
  inv_decided : forall n h, (n, h) ∈ n_decided a -> h <> zeroHash /\ exists r, is_int64 r /\ committed E n r h
}.

Definition initial_node (H : Z) : node := MkNode H 0 0 None ∅ [] [].

Lemma initial_inv E H : node_inv E (initial_node H).
Proof. constructor; cbn; try done; try (intros ? Hin; by apply elem_of_nil in Hin); try (intros ? ? Hin; by apply elem_of_nil in Hin). Qed.

Lemma inv_prevote_new E a :
  node_inv E a -> n_stage a < 1 -> forall h, (forall lr lh, n_lock a = Some (lr, lh) -> h = lh) ->
  justified E (AVote msgPrevote (n_height a) (n_round a) h) (n_votes a).
Proof.
  intros Hinv Hst h Hh. constructor; cbn.
  - intros w Hw (Hc & Hn & Hr). destruct (inv_pos E a Hinv w Hw) as [|(_ & [|(_ & Hp & _)])]; cbn in *; [lia..|].
    specialize (Hp Hc). lia.
  - intros w Hw. unfold pos_le. cbn. destruct (inv_pos E a Hinv w Hw) as [|(? & [|(? & _)])]; lia.
  - by left.
  - done.
  - intros _ r b Hin Hb Hne.
    destruct (inv_pos E a Hinv _ Hin) as [|(_ & [Hr|(_ & _ & Hp)])]; cbn in *; [lia| |by specialize (Hp eq_refl); lia].
    split; [done|]. destruct (inv_precommit E a Hinv r b Hin Hb) as [(lr & Hl & _)|(r' & w & ? & ? & Hp & ?)].
    + by rewrite (Hh lr b Hl) in Hne.
    + exists r', w. split_and!; try done. by apply (inv_polka E a Hinv).
Qed.

Lemma inv_precommit_new E a :
  node_inv E a -> n_stage a < 2 -> forall h, (h <> zeroHash -> n_polka a !! n_round a = Some h) ->
  justified E (AVote msgPrecommit (n_height a) (n_round a) h) (n_votes a).
Proof.
  intros Hinv Hst h Hh. constructor; cbn.
  - intros w Hw (Hc & Hn & Hr). destruct (inv_pos E a Hinv w Hw) as [|(_ & [|(_ & _ & Hp)])]; cbn in *; [lia..|].
    specialize (Hp Hc). lia.
  - intros w Hw. unfold pos_le. cbn. destruct (inv_pos E a Hinv w Hw) as [|(? & [|(? & _)])]; lia.
  - by right.
  - intros _ Hz. apply (inv_polka E a Hinv). by apply Hh.
  - done.
Qed.

(** Positions after a new vote in the current round. *)
Lemma pos_new E a code h st :
  node_inv E a -> n_stage a <= st -> (code = msgPrevote -> 1 <= st) -> (code = msgPrecommit -> 2 <= st) ->
  forall v, v ∈ AVote code (n_height a) (n_round a) h :: n_votes a ->
    av_height v < n_height a \/
    (av_height v = n_height a /\
     (av_round v < n_round a \/
      (av_round v = n_round a /\ (av_code v = msgPrevote -> 1 <= st) /\ (av_code v = msgPrecommit -> 2 <= st)))).
Proof.
  intros Hinv Hst H1 H2 v [->|Hv]%elem_of_cons; [right; split; [done|right; done]|].
  destruct (inv_pos E a Hinv v Hv) as [|(? & [|(? & Hp & Hq)])]; [by left|by right; split; [|left]|].
  right. split; [done|]. right. split; [done|]. split; intros Hc; [specialize (Hp Hc)|specialize (Hq Hc)]; lia.
Qed.

Lemma step_move_inv E H R st lk pk vs ds R' st' :
  R < R' \/ (R = R' /\ st <= st') -> 0 <= st' ->
  node_inv E (MkNode H R st lk pk vs ds) -> node_inv E (MkNode H R' st' lk pk vs ds).
Proof.
  intros Hm Hst' [Hs Hp Hl Hpk Hpc Hj Hd]. cbn in *. constructor; cbn; try done.
  - intros v Hv. destruct (Hp v Hv) as [|(? & [|(? & Hc1 & Hc2)])]; [by left|right; split; [done|left; lia]|].
    right. split; [done|]. destruct Hm as [|[-> Hle]]; [left; lia|]. right. split; [done|].
    split; intros Hc; [specialize (Hc1 Hc)|specialize (Hc2 Hc)]; lia.
  - intros lr lh Hlk. destruct (Hl lr lh Hlk). split; [done|lia].
  - intros r h Hin Hh. destruct (Hpc r h Hin Hh) as [|(r' & w & ? & ? & ? & ?)]; [by left|].
    right. exists r', w. split_and!; [done|lia|done|done].
Qed.

Lemma step_learn_inv E H R st lk pk vs ds pk' :
  pk ⊆ pk' -> (forall r h, pk' !! r = Some h -> polka E H r h) ->
  node_inv E (MkNode H R st lk pk vs ds) -> node_inv E (MkNode H R st lk pk' vs ds).
Proof.
  intros Hsub Hpk' [Hs Hp Hl Hpk Hpc Hj Hd]. cbn in *. constructor; cbn; try done.
  - intros lr lh Hlk. destruct (Hl lr lh Hlk). split; [by eapply lookup_weaken|done].
  - intros r h Hin Hh. destruct (Hpc r h Hin Hh) as [|(r' & w & ? & ? & ? & ?)]; [by left|].
    right. exists r', w. split_and!; [done|done|by eapply lookup_weaken|done].
Qed.

Lemma step_prevote_inv E H R st lk pk vs ds h :
  st < 1 -> (forall lr lh, lk = Some (lr, lh) -> h = lh) ->
  node_inv E (MkNode H R st lk pk vs ds) ->
  node_inv E (MkNode H R 1 lk pk (AVote msgPrevote H R h :: vs) ds).
Proof.
  intros Hst Hh Hinv. pose proof (inv_prevote_new E _ Hinv Hst h Hh) as Hj.
  pose proof (pos_new E _ msgPrevote h 1 Hinv ltac:(cbn in *; lia) ltac:(done) ltac:(done)) as Hpos.
  destruct Hinv as [Hs Hp Hl Hpk Hpc Hjs Hd]. cbn in *. constructor; cbn; try done.
  intros r b [Heq|Hin]%elem_of_cons Hb; [done|by apply Hpc].
Qed.

Lemma step_precommit_nil_inv E H R st lk pk vs ds :
  st < 2 -> node_inv E (MkNode H R st lk pk vs ds) ->
  node_inv E (MkNode H R 2 lk pk (AVote msgPrecommit H R zeroHash :: vs) ds).
Proof.
  intros Hst Hinv. pose proof (inv_precommit_new E _ Hinv Hst zeroHash ltac:(done)) as Hj.
  pose proof (pos_new E _ msgPrecommit zeroHash 2 Hinv ltac:(cbn in *; lia) ltac:(done) ltac:(done)) as Hpos.
  destruct Hinv as [Hs Hp Hl Hpk Hpc Hjs Hd]. cbn in *. constructor; cbn; try done.
  intros r b [Heq|Hin]%elem_of_cons Hb; [congruence|by apply Hpc].
Qed.

(** The earlier precommits of the height after locking [h]: either for [h] itself, or
    contradicted by its polka. *)
Lemma step_lock_inv E H R st lk pk vs ds h :
  st < 2 -> pk !! R = Some h -> node_inv E (MkNode H R st lk pk vs ds) ->
  node_inv E (MkNode H R 2 (Some (R, h)) pk vs ds).
Proof.
  intros Hst Hpk' [Hs Hp Hl Hpk Hpc Hjs Hd]. cbn in *. constructor; cbn; try done.
  - intros v Hv. destruct (Hp v Hv) as [|(? & [|(? & _ & _)])]; [by left|by right; split; [|left]|].
    right. split; [done|]. right. split; [done|]. split; lia.
  - intros lr lh [= <- <-]. done.
  - intros r b Hin Hb.
    assert (Hr : r < R).
    { destruct (Hp _ Hin) as [|(_ & [|(_ & _ & H2)])]; cbn in *; [lia..|]. specialize (H2 eq_refl). lia. }
    destruct (decide (b = h)) as [->|Hne]; [left; exists R; split; [done|lia]|].
    right. exists R, h. split_and!; [done|lia|done|done].
Qed.

Lemma step_precommit_inv E H R st lk pk vs ds h :
  st < 2 -> pk !! R = Some h -> h <> zeroHash -> node_inv E (MkNode H R st lk pk vs ds) ->
  node_inv E (MkNode H R 2 (Some (R, h)) pk (AVote msgPrecommit H R h :: vs) ds).
Proof.
  intros Hst Hpk' Hh Hinv. pose proof (inv_precommit_new E _ Hinv Hst h ltac:(done)) as Hj.
  pose proof (pos_new E _ msgPrecommit h 2 Hinv ltac:(cbn in *; lia) ltac:(done) ltac:(done)) as Hpos.
  destruct (step_lock_inv E H R st lk pk vs ds h Hst Hpk' Hinv) as [Hs Hp Hl Hpk Hpc Hjs Hd].
  cbn in *. constructor; cbn; try done.
  intros r b [Heq|Hin]%elem_of_cons Hb; [simplify_eq; left; by exists R|by apply Hpc].
Qed.

Lemma step_unlock_inv E H R st lr lh pk vs ds r w :
  lr < r -> r <= R -> pk !! r = Some w -> w <> lh ->
  node_inv E (MkNode H R st (Some (lr, lh)) pk vs ds) -> node_inv E (MkNode H R st None pk vs ds).
Proof.
  intros Hlr HrR Hpk' Hw [Hs Hp Hl Hpk Hpc Hj Hd]. cbn in *. constructor; cbn; try done.
  intros r0 h Hin Hh. right. destruct (Hpc r0 h Hin Hh) as [(lr' & [= <- <-] & Hle)|?]; [|done].
  exists r, w. split_and!; [lia|done|done|done].
Qed.

Lemma step_height_inv E H R st lk pk vs ds H' :
  H < H' -> node_inv E (MkNode H R st lk pk vs ds) -> node_inv E (MkNode H' 0 0 None ∅ vs ds).
Proof.
  intros HH [Hs Hp Hl Hpk Hpc Hj Hd]. cbn in *.
  assert (Hlt : forall v, v ∈ vs -> av_height v < H').
  { intros v Hv. destruct (Hp v Hv) as [|[? _]]; lia. }
  constructor; cbn; try done.
  - intros v Hv. left. by apply Hlt.
  - intros r h Hin Hh. specialize (Hlt _ Hin). cbn in Hlt. lia.
Qed.

Lemma step_inv E a a' : step E a a' -> node_inv E a -> node_inv E a'.
Proof.
  intros Hstep. destruct Hstep.
  - by apply step_move_inv.
  - by apply step_learn_inv.
  - by apply step_prevote_inv.
  - by apply step_precommit_nil_inv.
  - by apply step_precommit_inv.
  - by eapply step_lock_inv.
  - by eapply step_unlock_inv.
  - intros [Hs Hp Hl Hpk Hpc Hj Hd]. cbn in *. constructor; cbn; try done.
    intros n h' [[= -> ->]|Hin]%elem_of_cons; [eauto|by apply Hd].
  - by apply step_height_inv.
Qed.

Lemma steps_inv E a a' : steps_to E a a' -> node_inv E a -> node_inv E a'.
Proof. intros Hs. induction Hs; eauto using step_inv. Qed.

(** Votes and decisions are only added. *)
Lemma step_grows E a a' : step E a a' ->
  (exists vs, n_votes a' = vs ++ n_votes a) /\ (exists ds, n_decided a' = ds ++ n_decided a).
Proof.
  intros Hstep.
  destruct Hstep; cbn; (split; [(by exists []) || by eexists [_]|(by exists []) || by eexists [_]]).
Qed.

Lemma steps_grow E a a' : steps_to E a a' ->
  (exists vs, n_votes a' = vs ++ n_votes a) /\ (exists ds, n_decided a' = ds ++ n_decided a).
Proof.
  intros Hs. induction Hs as [|a b c Hab _ [[vs Hv] [ds Hd]]]; [by split; exists []|].
  destruct (step_grows E a b Hab) as [[vs' Hv'] [ds' Hd']].
  split; [exists (vs ++ vs'); by rewrite Hv, Hv', (assoc_L (++))|exists (ds ++ ds'); by rewrite Hd, Hd', (assoc_L (++))].
Qed.

(** ** Evidence grows *)
Definition ev_sub (E E' : evidence) : Prop := forall a v, E a v -> E' a v.

Lemma quorum_mono E E' v : ev_sub E E' -> quorum E v -> quorum E' v.
Proof. intros Hsub (S & H1 & H2 & H3). exists S. split_and!; [done|done|]. intros a Ha. by apply Hsub, H3. Qed.

Lemma justified_mono E E' v older : ev_sub E E' -> justified E v older -> justified E' v older.
Proof.
  intros Hsub [H1 H2 H3 H4 H5]. constructor; try done.
  - intros Hc Hh. eapply quorum_mono; [exact Hsub|]. by apply H4.
  - intros Hc r h Hin Hh Hne. destruct (H5 Hc r h Hin Hh Hne) as (Hr & r' & w & ? & ? & ? & ?).
    split; [done|]. exists r', w. split_and!; [done..|]. by eapply quorum_mono.
Qed.

Lemma all_justified_mono E E' vs : ev_sub E E' -> all_justified E vs -> all_justified E' vs.
Proof.
  intros Hsub. induction vs as [|v vs IH]; [done|]. intros [Hj Hr].
  split; [by eapply justified_mono|by apply IH].
Qed.

Lemma node_inv_mono E E' a : ev_sub E E' -> node_inv E a -> node_inv E' a.
Proof.
  intros Hsub [H1 H2 H3 H4 H5 H6 H7]. constructor; try done.
  - intros r h Hp. eapply quorum_mono; [exact Hsub|]. by apply H4.
  - by eapply all_justified_mono.
  - intros n h Hin. destruct (H7 n h Hin) as (? & r & ? & ?). split; [done|]. exists r. split; [done|by eapply quorum_mono].
Qed.
End spec.

(** The votes of the correct validators, newest first. *)
Abbreviation hist := (list (Address * avote)).

Section agreement.
Context (vals : Z -> ValidatorSet) (honest : gset Address).

(** Heights and rounds a Go node can represent on the wire. *)
Definition in_range (v : avote) : Prop := 0 <= av_height v < 2 ^ 64 /\ is_int64 (av_round v).

(** The votes of one validator, and what a history is evidence for: a vote of a correct
    validator exists when it was sent; nothing is known of the others. *)
Definition votes_of (a : Address) (h : hist) : list avote := snd <$> filter (fun p => p.1 = a) h.
Definition E_of (h : hist) : evidence := fun a v => a ∈ honest -> in_range v -> (a, v) ∈ h.

Fixpoint history (h : hist) : Prop :=
  match h with
  | [] => True
  | (a, v) :: older => a ∈ honest /\ justified vals (E_of older) v (votes_of a older) /\ history older
  end.

(** At most [F] validators of the height are faulty. *)
Definition few_faulty (n : Z) : Prop :=
  0 <= n < 2 ^ 64 /\ NoDup (vs_validators (vals n)) /\ 0 < Size (vals n) /\
  Z.of_nat (size (list_to_set (vs_validators (vals n)) ∖ honest : gset Address)) <= F (vals n).

Lemma elem_of_votes_of a v h : v ∈ votes_of a h <-> (a, v) ∈ h.
Proof.
  unfold votes_of. rewrite list_elem_of_fmap. split.
  - intros ([b w] & -> & [Hb Hin]%list_elem_of_filter). simpl in *. by subst.
  - intros Hin. exists (a, v). split; [done|]. by apply list_elem_of_filter.
Qed.

Lemma E_of_mono h h' : h ⊆ h' -> ev_sub (E_of h) (E_of h').
Proof. intros Hsub a v He Ha Hr. by apply Hsub, He. Qed.

(** Two quorums of a height share a correct validator. *)
Lemma honest_in_both n (A B : gset Address) :
  few_faulty n ->
  A ⊆ list_to_set (vs_validators (vals n)) -> B ⊆ list_to_set (vs_validators (vals n)) ->
  MinMajority (vals n) <= Z.of_nat (size A) -> MinMajority (vals n) <= Z.of_nat (size B) ->
  exists a, a ∈ A /\ a ∈ B /\ a ∈ honest.
Proof.
  intros (_ & Hnd & Hs & Hf) HA HB HqA HqB.
  destruct (quorums_share _ A B Hnd Hs HA HB HqA HqB) as (_ & _ & Hlt).
  destruct (decide (A ∩ B ∩ honest = ∅)) as [He|He].
  - assert (Hsub : A ∩ B ⊆ list_to_set (vs_validators (vals n)) ∖ honest).
    { intros a Ha. apply elem_of_difference. split; [apply HA; set_solver|].
      intros Hh. assert (Hin : a ∈ A ∩ B ∩ honest) by set_solver. rewrite He in Hin. set_solver. }
    apply subseteq_size in Hsub. lia.
  - apply set_choose_L in He as [a Ha]. exists a. set_solver.
Qed.

(** The earliest element of a history with a property. *)
Lemma earliest {A} (P : A -> Prop) `{!forall x, Decision (P x)} l :
  Exists P l -> exists l1 y l2, l = l1 ++ y :: l2 /\ P y /\ forall z, z ∈ l2 -> ~ P z.
Proof.
  induction l as [|y l IH]; [by intros Hx%Exists_nil|]. intros Hx.
  destruct (decide (Exists P l)) as [Hex|Hnone].
  - destruct (IH Hex) as (l1 & y' & l2 & -> & ? & ?). by exists (y :: l1), y', l2.
  - apply Exists_cons in Hx as [Hy|Hx]; [|done].
    exists [], y, l. split_and!; [done|done|]. intros u Hu HPu. apply Hnone, Exists_exists. by exists u.
Qed.

Lemma history_split l1 a v l2 :
  history (l1 ++ (a, v) :: l2) ->
  a ∈ honest /\ justified vals (E_of l2) v (votes_of a l2) /\ history l2 /\
  (forall w, (a, w) ∈ l1 -> pos_le v w /\ ~ same_slot v w).
Proof.
  induction l1 as [|[b w] l1 IH]; simpl.
  - intros (Ha & Hj & Hh). split_and!; [done..|]. intros w Hw. by apply elem_of_nil in Hw.
  - intros (Hb & Hj & Hh). destruct (IH Hh) as (? & ? & ? & Hw). split_and!; [done..|].
    intros w' [[= <- <-]|Hin]%elem_of_cons; [|by apply Hw].
    assert (Hin : v ∈ votes_of a (l1 ++ (a, v) :: l2)) by (apply elem_of_votes_of; set_solver).
    split; [by apply (just_order _ _ _ _ Hj)|by apply (just_once _ _ _ _ Hj)].
Qed.

(** A correct validator casts one vote of each kind in a round. *)
Lemma one_vote h a v w :
  history h -> (a, v) ∈ h -> (a, w) ∈ h -> same_slot v w -> v = w.
Proof.
  intros Hh Hv Hw Hs. apply list_elem_of_split in Hv as (l1 & l2 & ->).
  destruct (history_split _ _ _ _ Hh) as (_ & Hj & _ & Hnew).
  apply elem_of_app in Hw as [Hw|[[= <-]|Hw]%elem_of_cons]; [|done|].
  - by destruct (Hnew w Hw).
  - exfalso. apply (just_once _ _ _ _ Hj w); [by apply elem_of_votes_of|].
    destruct Hs as (? & ? & ?). by unfold same_slot.
Qed.

(** Once a quorum has precommitted [h], no later round has a polka for another value:
    the earliest prevote of a correct member of the quorum against [h] would have to
    follow such a polka. *)
Lemma no_later_polka l n r h :
  history l -> few_faulty n -> committed vals (E_of l) n r h -> is_int64 r -> h <> zeroHash ->
  forall r' w, r < r' -> is_int64 r' -> w <> h -> ~ polka vals (E_of l) n r' w.
Proof.
  intros Hl Hf (Q & HQs & HQq & HQ) Hrr Hh r'.
  cut (forall k : nat, forall r' w, Z.to_nat (r' - r) = k -> r < r' -> is_int64 r' -> w <> h -> ~ polka vals (E_of l) n r' w).
  { intros Hk w. by apply (Hk (Z.to_nat (r' - r))). }
  clear r'. intros k. induction (lt_wf k) as [k _ IH]. intros r' w Hk Hr Hr64 Hw (S & HSs & HSq & HS).
  assert (Hrange : forall code x, is_int64 x -> forall y, in_range (AVote code n x y)) by (intros; split; [apply Hf|done]).
  set (P := fun p : Address * avote => p.1 ∈ Q ∩ honest /\ av_code p.2 = msgPrevote /\
    av_height p.2 = n /\ av_round p.2 = r' /\ av_hash p.2 <> h).
  assert (HP : Exists P l).
  { destruct (honest_in_both n Q S Hf HQs HSs HQq HSq) as (a & HaQ & HaS & Ha).
    apply Exists_exists. exists (a, AVote msgPrevote n r' w). split; [by apply (HS a); [| |apply Hrange]|].
    unfold P; simpl. split; [by apply elem_of_intersection|done]. }
  destruct (earliest P l HP) as (l1 & [a v] & l2 & El & ([HaQ Ha]%elem_of_intersection & Hc & Hn & Hrd & Hv) & Hnone).
  simpl in *. rewrite El in Hl. destruct (history_split _ _ _ _ Hl) as (_ & Hj & _ & Hnew). rewrite <- El in Hl.
  assert (Hpre : (a, AVote msgPrecommit n r h) ∈ l2).
  { pose proof (HQ a HaQ Ha (Hrange _ _ Hrr _)) as Hin. rewrite El in Hin.
    apply elem_of_app in Hin as [Hin|[[= <-]|Hin]%elem_of_cons]; [|done|done].
    destruct (Hnew _ Hin) as [Hp _]. unfold pos_le in Hp. cbn in Hp. lia. }
  rewrite <- elem_of_votes_of in Hpre. rewrite <- Hn in Hpre.
  destruct (just_prevote _ _ _ _ Hj Hc r h Hpre Hh ltac:(done)) as (_ & r'' & w' & Hr1 & Hr2 & Hw' & Hp).
  rewrite Hn in Hp. assert (Hmono : ev_sub (E_of l2) (E_of l)) by (apply E_of_mono; set_solver).
  destruct (decide (r'' = r')) as [->|Hne].
  - destruct Hp as (S' & HSs' & HSq' & HS').
    destruct (honest_in_both n Q S' Hf HQs HSs' HQq HSq') as (b & HbQ & HbS & Hb).
    apply (Hnone (b, AVote msgPrevote n r' w')); [by apply HS'; [| |apply Hrange]|].
    unfold P; simpl. split; [by apply elem_of_intersection|done].
  - apply (IH (Z.to_nat (r'' - r)) ltac:(lia) r'' w' eq_refl Hr1); [unfold is_int64 in *; lia|done|by eapply quorum_mono].
Qed.

(** Two committed values of a height are equal. *)
Lemma committed_unique l n r1 h1 r2 h2 :
  history l -> few_faulty n -> committed vals (E_of l) n r1 h1 -> committed vals (E_of l) n r2 h2 ->
  is_int64 r1 -> is_int64 r2 -> h1 <> zeroHash -> h2 <> zeroHash -> r1 <= r2 -> h1 = h2.
Proof.
  intros Hl Hf C1 C2 Hr1 Hr2 Hh1 Hh2 Hr.
  pose proof C1 as (Q1 & HQ1 & Hq1 & He1). pose proof C2 as (Q2 & HQ2 & Hq2 & He2).
  destruct (honest_in_both n Q1 Q2 Hf HQ1 HQ2 Hq1 Hq2) as (a & Ha1 & Ha2 & Ha).
  pose proof (He1 a Ha1 Ha (conj (proj1 Hf) Hr1)) as H1. pose proof (He2 a Ha2 Ha (conj (proj1 Hf) Hr2)) as H2.
  destruct (decide (r1 = r2)) as [->|Hne].
  { assert (Heq : AVote msgPrecommit n r2 h1 = AVote msgPrecommit n r2 h2) by (by eapply (one_vote l a)).
    congruence. }
  destruct (decide (h2 = h1)) as [|Hd]; [done|].
  exfalso. apply (no_later_polka l n r1 h1 Hl Hf C1 Hr1 Hh1 r2 h2 ltac:(lia) Hr2 Hd).
  apply list_elem_of_split in H2 as (l1 & l2 & ->).
  destruct (history_split _ _ _ _ Hl) as (_ & Hj & _ & _).
  eapply quorum_mono; [apply E_of_mono|exact (just_precommit _ _ _ _ Hj eq_refl Hh2)]. set_solver.
Qed.
End agreement.
