(* ===== verification/Refinement.v ===== *)
(** * The core implements the specification

    A simulation between the model of [src/consensus/tendermint/core] and the machine of
    [Spec]: every event the core handles, whatever it is, amounts to steps of a correct
    validator. [core_ok] is the invariant of the core; [good] adds that its log shows
    exactly the votes and decisions of the specification. *)

From S2P Require Import Prelude Bytes RlpEncode RlpDecode RlpCanonical Types ValidatorSet Messages MessageSet.
From S2P Require Import MsgStorage Timeout Core Consensus Handler Spec.

(** ** Messages inside messages *)

(** [within m m']: handling [m] may handle [m'], as part of catch-up replies. *)
Inductive within : message -> message -> Prop :=
  | within_self m : within m m
  | within_reply m reply p sub m' :
      m_Code m = msgCatchUpReply -> decode_catchUpReply (m_Msg m) = inr reply -> p ∈ cp_Payloads reply ->
      decode_message p = inr sub -> within sub m' -> within m m'.

Section refinement.
Context `{C : Crypto} {B : Backend} {Q : PriorityQueue} {QL : PriorityQueueLaws Q}.
Context (vals : Z -> ValidatorSet) (E : evidence).

(** A vote that carries a valid signature of its sender is a vote of the sender. *)
Definition authentic (m : message) : Prop :=
  forall a v, GetAddressFromSignature m = inr a -> m_Code m = msgPrevote \/ m_Code m = msgPrecommit ->
    decode_vote (m_Msg m) = inr v -> E a (AVote (m_Code m) (v_BlockNumber v) (v_Round v) (v_BlockHash v)).

Definition trusted (m : message) : Prop := forall m', within m m' -> authentic m'.

(** ** Abstraction *)
Definition stage (step : Z) : Z :=
  if RoundStepPrecommit <=? step then 2 else if RoundStepPrevote <=? step then 1 else 0.

Definition lock_of (s : roundState) : option (Z * Hash) :=
  (fun b => (rs_lockedRound s, Block_Hash b)) <$> rs_lockedBlock s.

Definition polkas (s : roundState) : gmap Z Hash := omap ms_maj23 (rs_PrevotesReceived s).

Definition abs (c : core) (vs : list avote) (ds : list (Z * Hash)) : node :=
  let s := c_state c in
  MkNode (rs_BlockNumber s) (rs_Round s) (stage (rs_step s)) (lock_of s) (polkas s) vs ds.

(** ** The log *)
Definition vote_of (e : effect) : option (Z * Z * Z * bytes) :=
  match e with
  | EBroadcast n r code p =>
      if (code =? msgPrevote) || (code =? msgPrecommit) then Some (n, r, code, p) else None
  | _ => None
  end.

Definition commit_of (e : effect) : option Block := match e with ECommit b => Some b | _ => None end.

Definition vote_hash (block : option Block) : Hash :=
  match block with Some b => Block_Hash b | None => emptyBlockHash end.

Definition vote_rel (x : Z * Z * Z * bytes) (v : avote) : Prop :=
  let '(n, r, code, p) := x in
  exists block, vote_payload code block n r = Some p /\ v = AVote code n r (vote_hash block).

(** A committed block is a proposed block with the committed seals written into it. *)
Definition commit_rel (b : Block) (d : Z * Hash) : Prop :=
  exists b0 seals hd, Block_Number b0 = Some d.1 /\ Block_Hash b0 = d.2 /\
    WriteCommittedSeals (Block_Header b0) seals = inr hd /\ b = WithSeal b0 hd.

Definition log_ok (c : core) (vs : list avote) (ds : list (Z * Hash)) : Prop :=
  Forall2 vote_rel (omap vote_of (c_log c)) vs /\ Forall2 commit_rel (omap commit_of (c_log c)) ds.

(** ** The invariant of the core *)
Record set_ok (n code r : Z) (ms : messageSet) : Prop := {
  so_round : is_int64 r;
  so_inv : ms_inv ms;
  so_code : ms_msgCode ms = code;
  so_view : ms_view ms = MkView r n;
  so_vals : vs_validators (ms_valSet ms) = vs_validators (vals n);
  so_evidence : forall a v, ms_voteByAddress ms !! a = Some v -> E a (AVote code n r (v_BlockHash v))
}.

Definition sets_ok (n code : Z) (sets : gmap Z messageSet) : Prop :=
  forall r ms, sets !! r = Some ms -> set_ok n code r ms.

Definition lock_ok (s : roundState) : Prop :=
  match rs_lockedBlock s with
  | None => rs_lockedRound s = -1
  | Some b => 0 <= rs_lockedRound s <= rs_Round s /\ polkas s !! rs_lockedRound s = Some (Block_Hash b) /\
              Block_Number b = Some (rs_BlockNumber s) /\ Block_Hash b <> zeroHash
  end.

Definition head_number (k : nat) (x : Z) : Prop := Block_Number (be_CurrentHeadBlock k) = Some x.

Record core_ok (c : core) : Prop := {
  ok_started : c_started c = true;
  ok_round : 0 <= rs_Round (c_state c);
  ok_vals : forall v, c_valSet c = Some v -> vs_validators v = vs_validators (vals (rs_BlockNumber (c_state c)));
  ok_prevotes : sets_ok (rs_BlockNumber (c_state c)) msgPrevote (rs_PrevotesReceived (c_state c));
  ok_precommits : sets_ok (rs_BlockNumber (c_state c)) msgPrecommit (rs_PrecommitsReceived (c_state c));
  ok_lock : lock_ok (c_state c);
  ok_proposal : forall p, rs_proposalReceived (c_state c) = Some p ->
    Block_Number (p_Block p) = Some (rs_BlockNumber (c_state c));
  ok_queue : forall it, it ∈ pq_items (c_futureMessages c) -> trusted (mi_message it);
  ok_future : forall r m, c_futureProposals c !! r = Some m -> m_Code m = msgPropose;
  ok_head : forall k x, (c_calls c <= k)%nat -> head_number k x -> rs_BlockNumber (c_state c) <= x + 1
}.

Definition good (c : core) (vs : list avote) (ds : list (Z * Hash)) : Prop := core_ok c /\ log_ok c vs ds.

(** [c'] is good, and reached from [c] by steps of the specification. *)
Definition reach (c : core) (vs : list avote) (ds : list (Z * Hash)) (c' : core) : Prop :=
  exists vs' ds', good c' vs' ds' /\ steps_to vals E (abs c vs ds) (abs c' vs' ds').

Lemma reach_refl c vs ds : good c vs ds -> reach c vs ds c.
Proof. intros Hg. exists vs, ds. split; [done|apply rtc_refl]. Qed.

Lemma reach_trans c vs ds c1 c2 :
  reach c vs ds c1 -> (forall vs1 ds1, good c1 vs1 ds1 -> reach c1 vs1 ds1 c2) -> reach c vs ds c2.
Proof.
  intros (vs1 & ds1 & Hg1 & Hs1) H2. destruct (H2 vs1 ds1 Hg1) as (vs2 & ds2 & Hg2 & Hs2).
  exists vs2, ds2. split; [done|by eapply rtc_trans].
Qed.

(** ** Simulation of computations *)
Definition sim {A} (m : M core A) : Prop :=
  forall c vs ds, good c vs ds -> wp m (fun _ c' => reach c vs ds c') c.

Lemma sim_ret {A} (a : A) : sim (mret a).
Proof. intros c vs ds Hg. by apply reach_refl. Qed.

Lemma sim_bind {A D} (m : M core A) (f : A -> M core D) : sim m -> (forall a, sim (f a)) -> sim (m ≫= f).
Proof.
  intros Hm Hf c vs ds Hg. apply wp_bind. eapply wp_mono; [by apply Hm|]. intros a c1 (vs1 & ds1 & Hg1 & Hs1).
  eapply wp_mono; [by apply Hf|]. intros b c2 (vs2 & ds2 & Hg2 & Hs2).
  exists vs2, ds2. split; [done|by eapply rtc_trans].
Qed.

Lemma sim_panic {A} : sim (panic : M core A).
Proof. intros c vs ds Hg. apply wp_panic. Qed.

Lemma sim_diverge {A} : sim (diverge : M core A).
Proof. intros c vs ds Hg. apply wp_diverge. Qed.

Lemma sim_deref {A} (p : option A) : sim (deref p : M core A).
Proof. intros c vs ds Hg. apply wp_deref. intros a _. by apply reach_refl. Qed.

Lemma sim_when b (m : M core unit) : sim m -> sim (when b m).
Proof. intros Hm. destruct b; [exact Hm|apply sim_ret]. Qed.

Lemma sim_gets {A} (f : core -> A) : sim (gets f).
Proof. intros c vs ds Hg. by apply reach_refl. Qed.

Lemma sim_get : sim get.
Proof. intros c vs ds Hg. by apply reach_refl. Qed.

(** ** What does not concern the specification *)
Record frame (c c' : core) : Prop := {
  f_started : c_started c' = c_started c;
  f_number : rs_BlockNumber (c_state c') = rs_BlockNumber (c_state c);
  f_round : rs_Round (c_state c') = rs_Round (c_state c);
  f_step : rs_step (c_state c') = rs_step (c_state c);
  f_lockedRound : rs_lockedRound (c_state c') = rs_lockedRound (c_state c);
  f_lockedBlock : rs_lockedBlock (c_state c') = rs_lockedBlock (c_state c);
  f_prevotes : rs_PrevotesReceived (c_state c') = rs_PrevotesReceived (c_state c);
  f_precommits : rs_PrecommitsReceived (c_state c') = rs_PrecommitsReceived (c_state c);
  f_proposal : forall p, rs_proposalReceived (c_state c') = Some p ->
    rs_proposalReceived (c_state c) = Some p \/ Block_Number (p_Block p) = Some (rs_BlockNumber (c_state c));
  f_vals : forall v', c_valSet c' = Some v' ->
    exists v, c_valSet c = Some v /\ vs_validators v' = vs_validators v;
  f_queue : forall it, it ∈ pq_items (c_futureMessages c') ->
    it ∈ pq_items (c_futureMessages c) \/ trusted (mi_message it);
  f_future : forall r m, c_futureProposals c' !! r = Some m ->
    c_futureProposals c !! r = Some m \/ m_Code m = msgPropose;
  f_calls : (c_calls c <= c_calls c')%nat;
  f_votes : omap vote_of (c_log c') = omap vote_of (c_log c);
  f_commits : omap commit_of (c_log c') = omap commit_of (c_log c)
}.

#[local] Instance frame_refl : Reflexive frame.
Proof. intros c. constructor; eauto. Qed.

#[local] Instance frame_trans : Transitive frame.
Proof.
  intros a b c H1 H2.
  constructor.
  - rewrite (f_started _ _ H2). apply H1.
  - rewrite (f_number _ _ H2). apply H1.
  - rewrite (f_round _ _ H2). apply H1.
  - rewrite (f_step _ _ H2). apply H1.
  - rewrite (f_lockedRound _ _ H2). apply H1.
  - rewrite (f_lockedBlock _ _ H2). apply H1.
  - rewrite (f_prevotes _ _ H2). apply H1.
  - rewrite (f_precommits _ _ H2). apply H1.
  - intros p Hp. destruct (f_proposal _ _ H2 p Hp) as [Hp1|Hp1]; [by apply H1|].
    right. by rewrite (f_number _ _ H1) in Hp1.
  - intros v' Hv'. destruct (f_vals _ _ H2 v' Hv') as (v & Hv & E1).
    destruct (f_vals _ _ H1 v Hv) as (v0 & Hv0 & E2). exists v0. split; [done|congruence].
  - intros it Hit. destruct (f_queue _ _ H2 it Hit) as [Hi|?]; [by apply H1|by right].
  - intros r m Hm. destruct (f_future _ _ H2 r m Hm) as [Hi|?]; [by apply H1|by right].
  - pose proof (f_calls _ _ H1). pose proof (f_calls _ _ H2). lia.
  - rewrite (f_votes _ _ H2). apply H1.
  - rewrite (f_commits _ _ H2). apply H1.
Qed.

Lemma frame_good c vs ds c' : frame c c' -> good c vs ds -> good c' vs ds /\ abs c' vs ds = abs c vs ds.
Proof.
  intros [Fst Fn Fr Fs Flr Flb Fpv Fpc Fp Fv Fq Ff Fc Flv Flc] [[Hst Hr Hv Hpv Hpc Hl Hp Hq Hf Hh] [Hlv Hlc]].
  split; [|unfold abs, lock_of, polkas; by rewrite Fn, Fr, Fs, Flr, Flb, Fpv].
  split; [|split; [by rewrite Flv|by rewrite Flc]].
  constructor; rewrite ?Fst, ?Fn, ?Fr, ?Fs, ?Fpv, ?Fpc; try done.
  - intros v' Hv'. destruct (Fv v' Hv') as (v & E1 & E2). rewrite E2. by apply Hv.
  - unfold lock_ok, polkas in *. by rewrite Flb, Flr, Fr, Fpv, Fn.
  - intros p Hp'. destruct (Fp p Hp') as [|]; [by apply Hp|done].
  - intros it Hit. destruct (Fq it Hit) as [|]; [by apply Hq|done].
  - intros r m Hm. destruct (Ff r m Hm) as [|]; [by eapply Hf|done].
  - intros k x Hk Hx. apply (Hh k); [lia|done].
Qed.

Lemma frame_reach c vs ds c' : frame c c' -> good c vs ds -> reach c vs ds c'.
Proof.
  intros Hf Hg. destruct (frame_good c vs ds c' Hf Hg) as [Hg' Ha].
  exists vs, ds. split; [done|]. rewrite Ha. apply rtc_refl.
Qed.

Definition frames {A} (m : M core A) : Prop := forall c, wp m (fun _ c' => frame c c') c.

Lemma frames_sim {A} (m : M core A) : frames m -> sim m.
Proof. intros Hm c vs ds Hg. eapply wp_mono; [apply Hm|]. intros a c' Hf. by apply frame_reach. Qed.

Lemma frames_ret {A} (a : A) : frames (mret a).
Proof. intros c. apply wp_ret, frame_refl. Qed.

Lemma frames_bind {A D} (m : M core A) (f : A -> M core D) :
  frames m -> (forall a, frames (f a)) -> frames (m ≫= f).
Proof.
  intros Hm Hf c. apply wp_bind. eapply wp_mono; [apply Hm|]. intros a c1 H1.
  eapply wp_mono; [apply Hf|]. intros b c2 H2. exact (frame_trans _ _ _ H1 H2).
Qed.

Lemma frames_get : frames get.
Proof. intros c. apply wp_get, frame_refl. Qed.

Lemma frames_gets {A} (f : core -> A) : frames (gets f).
Proof. intros c. apply wp_gets, frame_refl. Qed.

Lemma frames_panic {A} : frames (panic : M core A).
Proof. intros c. apply wp_panic. Qed.

Lemma frames_diverge {A} : frames (diverge : M core A).
Proof. intros c. apply wp_diverge. Qed.

Lemma frames_deref {A} (p : option A) : frames (deref p : M core A).
Proof. intros c. apply wp_deref. intros a _. apply frame_refl. Qed.

Lemma frames_when b (m : M core unit) : frames m -> frames (when b m).
Proof. intros Hm. destruct b; [exact Hm|apply frames_ret]. Qed.

Lemma frames_emit e : vote_of e = None -> commit_of e = None -> frames (emit e).
Proof.
  intros H1 H2 c. apply wp_modify. constructor; cbn [add_effect c_started c_state c_valSet c_futureMessages
    c_futureProposals c_calls c_log]; eauto; by apply omap_cons_None.
Qed.

Lemma frames_ask {A} (f : nat -> A) : frames (ask f).
Proof. intros c. unfold ask. repeat wp_step. constructor; cbn; eauto. Qed.

Lemma frames_set_sent f : frames (modify (fun c => set_sent (f c) c)).
Proof. intros c. apply wp_modify. constructor; cbn; eauto. Qed.

Lemma frames_SetProposal_None : frames (upd (SetProposalReceived None)).
Proof. intros c. apply wp_modify. constructor; cbn; eauto. done. Qed.

Lemma frames_SetBlock b : frames (upd (SetBlock b)).
Proof. intros c. apply wp_modify. constructor; cbn; eauto. Qed.

Lemma frames_SetValid r b : frames (upd (SetValidRoundAndBlock r b)).
Proof. intros c. apply wp_modify. constructor; cbn; eauto. Qed.

Lemma frames_setPrecommitWaited b : frames (upd (setPrecommitWaited b)).
Proof. intros c. apply wp_modify. constructor; cbn; eauto. Qed.

Lemma frames_set_commit r t : frames (upd (set_commit r t)).
Proof. intros c. apply wp_modify. constructor; cbn; eauto. Qed.

Lemma frames_valSet : frames valSet.
Proof. apply frames_bind; [apply frames_gets|]. intros v. apply frames_deref. Qed.
End refinement.

Create HintDb frames.
#[export] Hint Resolve frames_ret frames_get frames_gets frames_panic frames_diverge frames_deref frames_when
  frames_ask frames_set_sent frames_SetProposal_None frames_SetBlock frames_SetValid frames_setPrecommitWaited
  frames_set_commit frames_valSet : frames.

(** [frame_tac]: a computation made of operations that frame. *)
Ltac frame_tac :=
  repeat first
    [ progress intros
    | solve [eauto with frames nocore]
    | apply frames_emit; reflexivity
    | apply frames_bind
    | apply frames_when
    | match goal with
      | |- frames _ (match ?x with _ => _ end) => destruct x
      | |- frames _ (if ?x then _ else _) => destruct x
      end ].

Section framed.
Context `{C : Crypto} {B : Backend} {Q : PriorityQueue} {QL : PriorityQueueLaws Q}.
Context (vals : Z -> ValidatorSet) (E : evidence).

Lemma frames_storeSent step round p : frames E (storeSent step round p).
Proof. unfold storeSent. frame_tac. Qed.
#[local] Hint Resolve frames_storeSent : frames.

Lemma frames_SendPropose p : frames E (SendPropose p).
Proof. unfold SendPropose. frame_tac. Qed.
#[local] Hint Resolve frames_SendPropose : frames.

Lemma frames_SendCatchupReply t ps : frames E (SendCatchupReply t ps).
Proof. unfold SendCatchupReply. frame_tac. Qed.
#[local] Hint Resolve frames_SendCatchupReply : frames.

Lemma frames_reBroadcastMsg m : frames E (reBroadcastMsg m).
Proof. unfold reBroadcastMsg. frame_tac. Qed.
#[local] Hint Resolve frames_reBroadcastMsg : frames.

Lemma frames_repostSelf step round : frames E (repostSelf step round).
Proof. unfold repostSelf. frame_tac. Qed.
#[local] Hint Resolve frames_repostSelf : frames.

Lemma frames_sendCatchUpRequest b r s : frames E (sendCatchUpRequest b r s).
Proof. unfold sendCatchUpRequest. frame_tac. Qed.
#[local] Hint Resolve frames_sendCatchUpRequest : frames.

Lemma frames_enterCatchup b r s t : frames E (enterCatchup b r s t).
Proof. unfold enterCatchup. frame_tac. Qed.
#[local] Hint Resolve frames_enterCatchup : frames.

Lemma frames_defaultDecideProposal r : frames E (defaultDecideProposal r).
Proof. unfold defaultDecideProposal. frame_tac. Qed.
#[local] Hint Resolve frames_defaultDecideProposal : frames.

Lemma frames_getDefaultProposal r : frames E (getDefaultProposal r).
Proof. unfold getDefaultProposal. frame_tac. Qed.
#[local] Hint Resolve frames_getDefaultProposal : frames.

Lemma frames_propose_if_proposer r : frames E (propose_if_proposer r).
Proof. unfold propose_if_proposer. frame_tac. Qed.
#[local] Hint Resolve frames_propose_if_proposer : frames.

Lemma frames_VerifyProposal p m : frames E (VerifyProposal p m).
Proof. unfold VerifyProposal. frame_tac. Qed.
#[local] Hint Resolve frames_VerifyProposal : frames.

Lemma frames_reply_batches fuel : forall t i ps, frames E (reply_batches fuel t i ps).
Proof.
  induction fuel as [|n IH]; intros t i ps; cbn [reply_batches]; [apply frames_diverge|].
  frame_tac; try apply IH; apply frames_SendCatchupReply.
Qed.
#[local] Hint Resolve frames_reply_batches : frames.

Lemma frames_handleCatchupRequest m : frames E (handleCatchupRequest m).
Proof. unfold handleCatchupRequest. frame_tac. Qed.
#[local] Hint Resolve frames_handleCatchupRequest : frames.

Lemma frames_handleNewBlock b : frames E (handleNewBlock b).
Proof. unfold handleNewBlock. frame_tac. Qed.
#[local] Hint Resolve frames_handleNewBlock : frames.
End framed.

#[export] Hint Resolve frames_storeSent frames_SendPropose frames_SendCatchupReply frames_reBroadcastMsg
  frames_repostSelf frames_sendCatchUpRequest frames_enterCatchup frames_propose_if_proposer
  frames_VerifyProposal frames_handleCatchupRequest frames_handleNewBlock : frames.
