(* ===== verification/Simulation.v ===== *)
(** * The core implements the specification: steps

    The simulation of [Refinement], operation by operation: voting, locking, counting
    votes, committing, and starting a height. *)

From S2P Require Import Prelude Bytes RlpEncode RlpDecode RlpCanonical Types ValidatorSet Messages MessageSet.
From S2P Require Import MsgStorage Timeout Core Consensus Handler Spec Refinement.

Section simulation.
Context `{C : Crypto} {B : Backend} {Q : PriorityQueue} {QL : PriorityQueueLaws Q}.
Context (vals : Z -> ValidatorSet) (E : evidence).

Abbreviation good := (good vals E).
Abbreviation reach := (reach vals E).
Abbreviation sim := (sim vals E).

(** ** Moving forward *)
Definition forward (s : roundState) (round step : Z) : Prop :=
  rs_Round s < round \/ (rs_Round s = round /\ stage (rs_step s) <= stage step).

Lemma stage_nonneg step : 0 <= stage step.
Proof. unfold stage. repeat case_match; lia. Qed.

(** The state after casting a vote with the lock set to [lr], [lb] and moving to the
    vote's round: it is good when the lock is. *)
Definition after_vote (c c1 : core) (round step lr : Z) (lb : option Block) : core :=
  set_state (UpdateRoundStep round step (SetLockedRoundAndBlock lr lb (c_state c))) c1.

Record voted (c : core) (code : Z) (block : option Block) (round : Z) (c1 : core) : Prop := {
  vd_started : c_started c1 = c_started c;
  vd_vals : c_valSet c1 = c_valSet c;
  vd_queue : c_futureMessages c1 = c_futureMessages c;
  vd_future : c_futureProposals c1 = c_futureProposals c;
  vd_calls : c_calls c1 = c_calls c;
  vd_commits : omap commit_of (c_log c1) = omap commit_of (c_log c);
  vd_votes : omap vote_of (c_log c1) = omap vote_of (c_log c) \/
    exists p, vote_payload code block (rs_BlockNumber (c_state c)) round = Some p /\
      omap vote_of (c_log c1) = (rs_BlockNumber (c_state c), round, code, p) :: omap vote_of (c_log c)
}.

Lemma after_vote_good c vs ds c1 code block round step lr lb :
  good c vs ds -> voted c code block round c1 -> rs_Round (c_state c) <= round ->
  lock_ok (UpdateRoundStep round step (SetLockedRoundAndBlock lr lb (c_state c))) ->
  exists vs', good (after_vote c c1 round step lr lb) vs' ds /\
    (vs' = vs \/ vs' = AVote code (rs_BlockNumber (c_state c)) round (vote_hash block) :: vs).
Proof.
  intros [[Hst Hr Hv Hpv Hpc Hl Hp Hq Hf Hh] [Hlv Hlc]] [V0 V1 V2 V3 V4 V5 V6] Hround Hlock.
  assert (Hok : core_ok vals E (after_vote c c1 round step lr lb)).
  { constructor; cbn; rewrite ?V0, ?V1, ?V2, ?V3, ?V4; try done. lia. }
  destruct V6 as [V6|(p & Hpay & V6)].
  - exists vs. split; [|by left]. split; [done|]. split; cbn; [by rewrite V6|by rewrite V5].
  - eexists. split; [|right; reflexivity]. split; [done|]. split; cbn; [|by rewrite V5].
    rewrite V6. constructor; [|done]. exists block. done.
Qed.

Lemma lock_ok_forward s round step :
  lock_ok s -> rs_Round s <= round ->
  lock_ok (UpdateRoundStep round step (SetLockedRoundAndBlock (rs_lockedRound s) (rs_lockedBlock s) s)).
Proof. unfold lock_ok, polkas. cbn. destruct (rs_lockedBlock s) as [b|]; [|done]. intros (? & ? & ? & ?) ?. split_and!; [lia..|done|done|done]. Qed.

Lemma move_reach c vs ds round step :
  good c vs ds -> forward (c_state c) round step ->
  reach c vs ds (set_state (UpdateRoundStep round step (c_state c)) c).
Proof.
  intros [[Hst Hr Hv Hpv Hpc Hl Hp Hq Hf Hh] [Hlv Hlc]] Hfw. exists vs, ds. split.
  - split; [|done]. unfold forward in Hfw. constructor; cbn; try done; [lia|].
    pose proof (lock_ok_forward (c_state c) round step Hl ltac:(lia)) as Hl'. exact Hl'.
  - apply rtc_once. unfold abs. cbn. apply step_move; [exact Hfw|apply stage_nonneg].
Qed.

Lemma sim_move_at round step c vs ds :
  good c vs ds -> forward (c_state c) round step ->
  wp (upd (UpdateRoundStep round step)) (fun _ c' => reach c vs ds c') c.
Proof. intros Hg Hf. apply wp_modify. by apply move_reach. Qed.

(** ** Sending votes *)
Lemma storeSent_spec step round p c :
  wp (storeSent step round p) (fun _ c' => exists m, c' = set_sent m c) c.
Proof.
  unfold storeSent. wp_step. wp_step. destruct (storeSentMsg _ _ _ _); [|done..].
  wp_step. eauto.
Qed.

Lemma vote_of_vote n r code p :
  code = msgPrevote \/ code = msgPrecommit -> vote_of (EBroadcast n r code p) = Some (n, r, code, p).
Proof. by intros [-> | ->]. Qed.

Lemma SendVote_spec code block round c :
  code = msgPrevote \/ code = msgPrecommit ->
  wp (SendVote code block round) (fun _ c' => c_state c' = c_state c /\ voted c code block round c') c.
Proof.
  intros Hcode. unfold SendVote.
  assert (negb (code =? msgPrevote) && negb (code =? msgPrecommit) = false) as ->
    by (destruct Hcode as [-> | ->]; reflexivity).
  wp_step. wp_step.
  destruct (vote_payload code block (rs_BlockNumber (c_state c)) round) as [p|] eqn:Ep.
  - wp_step. apply wp_mono with (P := fun _ c' => exists m, c' = set_sent m c).
    { destruct (code =? msgPrevote); [apply storeSent_spec|].
      destruct (code =? msgPrecommit); [apply storeSent_spec|]. wp_step. exists (c_sent c). by destruct c. }
    intros _ c' [m ->]. unfold emit. wp_step. split; [done|]. constructor; try done.
    right. exists p. split; [done|]. cbn [add_effect c_log set_sent]. apply omap_cons_Some. by apply vote_of_vote.
  - wp_step. split; [done|]. constructor; eauto.
Qed.

(** ** Prevote *)
Lemma stage_lt_prevote step : step < RoundStepPrevote -> stage step = 0.
Proof. unfold stage, RoundStepPrevote, RoundStepPrecommit. intros. repeat case_match; lia. Qed.

Lemma stage_lt_precommit step : step < RoundStepPrecommit -> stage step < 2.
Proof. unfold stage, RoundStepPrevote, RoundStepPrecommit. intros. repeat case_match; lia. Qed.

(** The specification's node moved to a later round, or left where it is. *)
Lemma abs_move c vs ds round st :
  rs_Round (c_state c) < round \/ (rs_Round (c_state c) = round /\ st = stage (rs_step (c_state c))) -> 0 <= st ->
  let s := c_state c in
  steps_to vals E (abs c vs ds) (MkNode (rs_BlockNumber s) round st (lock_of s) (polkas s) vs ds).
Proof.
  intros Hf Hst s. apply rtc_once. unfold abs. apply step_move; [|done]. fold s in Hf |- *.
  destruct Hf as [|[-> ->]]; [by left|right; lia].
Qed.

Lemma sim_enterPrevote number round : sim (enterPrevote number round).
Proof.
  intros c vs ds Hg. unfold enterPrevote. wp_step. wp_step.
  destruct (_ || _ || _) eqn:Eg; [by apply reach_refl|].
  assert (Hguard : rs_Round (c_state c) < round \/ (rs_Round (c_state c) = round /\ rs_step (c_state c) < RoundStepPrevote)) by lia.
  wp_step. apply wp_modify. set (c0 := add_effect _ c).
  assert (Hg0 : good c0 vs ds /\ abs c0 vs ds = abs c vs ds) by (apply (frame_good vals E c); [apply frames_emit; done|done]).
  destruct Hg0 as [Hg0 Ha0]. unfold reach, Refinement.reach. rewrite <- Ha0. clear Ha0 Hg.
  set (s := c_state c0). change (c_state c) with s in Hguard.
  assert (Hvote : exists block, wp (defaultDoPrevote round) (fun _ c' => c_state c' = s /\ voted c0 msgPrevote block round c') c0 /\
    forall lr lh, lock_of s = Some (lr, lh) -> vote_hash block = lh).
  { unfold defaultDoPrevote. pose proof (ok_lock _ _ _ (proj1 Hg0)) as Hl. unfold lock_ok in Hl. fold s in Hl.
    exists (if negb (rs_lockedRound s =? -1) then rs_lockedBlock s
            else match rs_proposalReceived s with None => None | Some p => Some (p_Block p) end).
    split.
    - wp_step. wp_step. fold s. destruct (negb (rs_lockedRound s =? -1)); [by apply SendVote_spec; left|].
      destruct (rs_proposalReceived s); by apply SendVote_spec; left.
    - unfold lock_of. destruct (rs_lockedBlock s) as [b|]; [|done]. intros lr lh [= <- <-].
      destruct (negb (rs_lockedRound s =? -1)) eqn:En; [done|lia]. }
  destruct Hvote as (block & Hwp & Hlk). wp_step. eapply wp_mono; [exact Hwp|].
  intros _ c1 [Hst Hvd]. apply wp_modify. rewrite Hst.
  destruct (after_vote_good c0 vs ds c1 msgPrevote block round RoundStepPrevote (rs_lockedRound s) (rs_lockedBlock s) Hg0 Hvd)
    as (vs' & Hg' & Hvs'); [fold s; lia|apply lock_ok_forward; [apply (ok_lock _ _ _ (proj1 Hg0))|fold s; lia]|].
  assert (Heta : SetLockedRoundAndBlock (rs_lockedRound s) (rs_lockedBlock s) s = s) by (by destruct s).
  unfold after_vote in Hg'. fold s in Hg', Hvs'. rewrite Heta in Hg'.
  exists vs', ds. split; [exact Hg'|].
  assert (Hm : steps_to vals E (abs c0 vs ds) (MkNode (rs_BlockNumber s) round 0 (lock_of s) (polkas s) vs ds)).
  { apply abs_move; [|lia]. fold s. destruct Hguard as [|[? ?]]; [by left|right]. by rewrite stage_lt_prevote. }
  eapply rtc_trans; [exact Hm|]. apply rtc_once. destruct Hvs' as [-> | ->].
  - apply step_move; [right|]; done.
  - by apply step_prevote.
Qed.

(** ** Precommit *)
Lemma TwoThirdMajority_maj23 ms : TwoThirdMajority (Some ms) = ms_maj23 ms.
Proof. unfold TwoThirdMajority. destruct (ms_maj23 ms); [by rewrite HexToHash_Hex|done]. Qed.

Lemma Hash_Hex_eqb (a b : Hash) : bool_decide (Hash_Hex a = Hash_Hex b) = bool_decide (a = b).
Proof. apply bool_decide_ext. split; [apply (inj Hash_Hex)|by intros ->]. Qed.

Lemma polka_majority s round :
  (rs_PrevotesReceived s !! round ≫= fun prevotes => TwoThirdMajority (Some prevotes)) = polkas s !! round.
Proof.
  unfold polkas. rewrite lookup_omap. destruct (rs_PrevotesReceived s !! round); [|done].
  apply TwoThirdMajority_maj23.
Qed.

(** What [enterPrecommit] does with the lock, and what it votes for. *)
Inductive precommit_choice (s : roundState) (round : Z) : Z -> option Block -> option Block -> Prop :=
  | pc_nil : precommit_choice s round (rs_lockedRound s) (rs_lockedBlock s) None
  | pc_unlock w :
      polkas s !! round = Some w -> (forall b, rs_lockedBlock s = Some b -> w <> Block_Hash b) ->
      precommit_choice s round (-1) None None
  | pc_lock b :
      polkas s !! round = Some (Block_Hash b) -> Block_Hash b <> zeroHash -> Block_Number b = Some (rs_BlockNumber s) ->
      precommit_choice s round round (Some b) (Some b).

Lemma SetLocked_id s : SetLockedRoundAndBlock (rs_lockedRound s) (rs_lockedBlock s) s = s.
Proof. by destruct s. Qed.

Definition precommitted (c : core) (round : Z) (c1 : core) : Prop :=
  exists lr lb block, precommit_choice (c_state c) round lr lb block /\
    c_state c1 = SetLockedRoundAndBlock lr lb (c_state c) /\ voted c msgPrecommit block round c1.

(** Setting the lock, then voting. *)
Lemma lock_and_vote c round lr lb block (f : roundState -> roundState) :
  precommit_choice (c_state c) round lr lb block -> f (c_state c) = SetLockedRoundAndBlock lr lb (c_state c) ->
  wp (upd f;; SendVote msgPrecommit block round) (fun _ c1 => precommitted c round c1) c.
Proof.
  intros Hch Hf. wp_step. unfold upd. wp_step. eapply wp_mono; [apply SendVote_spec; by right|].
  intros _ c1 [Hst Hvd]. exists lr, lb, block. split; [done|]. split; [by rewrite Hst, <- Hf|].
  destruct Hvd as [V0 V1 V2 V3 V4 V5 V6]. constructor; try done. cbn in V6. rewrite Hf in V6. exact V6.
Qed.

Lemma vote_unlocked c round block :
  precommit_choice (c_state c) round (rs_lockedRound (c_state c)) (rs_lockedBlock (c_state c)) block ->
  wp (SendVote msgPrecommit block round) (fun _ c1 => precommitted c round c1) c.
Proof.
  intros Hch. eapply wp_mono; [apply SendVote_spec; by right|]. intros _ c1 [Hst Hvd].
  eexists _, _, block. split; [exact Hch|]. by rewrite SetLocked_id.
Qed.

Lemma doPrecommit_spec c vs ds round :
  good c vs ds -> wp (doPrecommit round) (fun _ c1 => precommitted c round c1) c.
Proof.
  intros [Hok _]. unfold doPrecommit. wp_step. wp_step. set (s := c_state c). rewrite polka_majority.
  destruct (polkas s !! round) as [w|] eqn:Ep; [|apply vote_unlocked; constructor].
  destruct ((POLInfo s).1 <? round); [done|]. rewrite !Hash_Hex_eqb.
  pose proof (ok_lock _ _ _ Hok) as Hl. unfold lock_ok in Hl. fold s in Hl.
  destruct (bool_decide (w = emptyBlockHash)) eqn:Ew; [apply bool_decide_eq_true in Ew as ->|apply bool_decide_eq_false in Ew].
  { destruct (rs_lockedBlock s) as [b|] eqn:Eb; [|apply vote_unlocked; constructor].
    apply lock_and_vote with (-1) None; [|done]. eapply pc_unlock; [exact Ep|]. fold s. rewrite Eb.
    intros ? [= <-] Hz. destruct Hl as (_ & _ & _ & Hnz). by apply Hnz. }
  set (locked_is := match rs_lockedBlock s with Some b => bool_decide (Hash_Hex (Block_Hash b) = Hash_Hex w) | None => false end).
  destruct locked_is eqn:Elk.
  { unfold locked_is in Elk. destruct (rs_lockedBlock s) as [b|] eqn:Eb; [|done].
    rewrite Hash_Hex_eqb in Elk. apply bool_decide_eq_true in Elk as <-.
    apply lock_and_vote with round (Some b); [|done]. destruct Hl as (_ & _ & Hn & Hnz). by apply pc_lock. }
  assert (Hunlock : wp (upd Unlock;; SendVote msgPrecommit None round) (fun _ c1 => precommitted c round c1) c).
  { apply lock_and_vote with (-1) None; [|done]. eapply pc_unlock; [exact Ep|]. fold s. intros b Hb ->.
    unfold locked_is in Elk. rewrite Hb, Hash_Hex_eqb in Elk. by apply bool_decide_eq_false in Elk. }
  destruct (rs_proposalReceived s) as [p|] eqn:Epr; [|done]. rewrite Hash_Hex_eqb.
  destruct (bool_decide (Block_Hash (p_Block p) = w)) eqn:Epw; [|done]. apply bool_decide_eq_true in Epw as <-.
  apply lock_and_vote with round (Some (p_Block p)); [|done]. apply pc_lock; [done|done|].
  by apply (ok_proposal _ _ _ Hok).
Qed.

Lemma precommit_lock_ok s round step lr lb block :
  lock_ok s -> 0 <= rs_Round s <= round -> precommit_choice s round lr lb block ->
  lock_ok (UpdateRoundStep round step (SetLockedRoundAndBlock lr lb s)).
Proof.
  intros Hl Hr Hch. destruct Hch as [|w Hp Hb|b Hp Hb Hn]; [apply lock_ok_forward; [done|lia]|done|].
  unfold lock_ok, polkas in *. cbn. split_and!; [lia..|done|done|done].
Qed.

(** The steps of the specification behind a precommit cast at [round]. *)
Lemma precommit_steps s round st lr lb block vs ds vs' :
  lock_ok s -> 0 <= st < 2 -> rs_Round s <= round -> precommit_choice s round lr lb block ->
  vs' = vs \/ vs' = AVote msgPrecommit (rs_BlockNumber s) round (vote_hash block) :: vs ->
  steps_to vals E (MkNode (rs_BlockNumber s) round st (lock_of s) (polkas s) vs ds)
    (MkNode (rs_BlockNumber s) round 2 (lock_of (SetLockedRoundAndBlock lr lb s)) (polkas s) vs' ds).
Proof.
  intros Hl [Hst0 Hst] Hr Hch Hvs. destruct Hch as [|w Hp Hb|b Hp Hb Hn]; cbn [vote_hash] in Hvs.
  - rewrite SetLocked_id. apply rtc_once. destruct Hvs as [-> | ->]; [apply step_move; lia|by apply step_precommit_nil].
  - apply rtc_l with (MkNode (rs_BlockNumber s) round st None (polkas s) vs ds).
    + unfold lock_of, lock_ok in *. destruct (rs_lockedBlock s) as [b|] eqn:Eb; cbn; [|apply step_move; lia].
      destruct Hl as (Hl1 & Hl2 & _). apply step_unlock with (r := round) (w := w); [|done|exact Hp|by apply Hb].
      destruct (decide (rs_lockedRound s = round)) as [Heq|]; [|lia].
      rewrite Heq, Hp in Hl2. injection Hl2 as ->. by destruct (Hb b).
    + apply rtc_once. destruct Hvs as [-> | ->]; [apply step_move; lia|by apply step_precommit_nil].
  - apply rtc_once. destruct Hvs as [-> | ->]; [by apply step_lock|by apply step_precommit].
Qed.

Lemma sim_enterPrecommit number round : sim (enterPrecommit number round).
Proof.
  intros c vs ds Hg. unfold enterPrecommit. wp_step. wp_step.
  destruct (_ || _ || _) eqn:Eg; [by apply reach_refl|].
  assert (Hguard : rs_Round (c_state c) < round \/ (rs_Round (c_state c) = round /\ rs_step (c_state c) < RoundStepPrecommit)) by lia.
  wp_step. apply wp_modify. set (c0 := add_effect _ c).
  assert (Hg0 : good c0 vs ds /\ abs c0 vs ds = abs c vs ds) by (apply (frame_good vals E c); [apply frames_emit; done|done]).
  destruct Hg0 as [Hg0 Ha0]. unfold reach, Refinement.reach. rewrite <- Ha0. clear Ha0 Hg.
  set (s := c_state c0). change (c_state c) with s in Hguard.
  wp_step. eapply wp_mono; [by apply (doPrecommit_spec c0 vs ds)|].
  intros _ c1 (lr & lb & block & Hch & Hst & Hvd). apply wp_modify. fold s in Hch, Hst. rewrite Hst.
  pose proof (ok_lock _ _ _ (proj1 Hg0)) as Hl. pose proof (ok_round _ _ _ (proj1 Hg0)) as Hr. fold s in Hl, Hr.
  destruct (after_vote_good c0 vs ds c1 msgPrecommit block round RoundStepPrecommit lr lb Hg0 Hvd)
    as (vs' & Hg' & Hvs'); [fold s; lia|by eapply precommit_lock_ok; [|fold s; lia|]|].
  exists vs', ds. split; [exact Hg'|].
  set (st := if rs_Round s <? round then 0 else stage (rs_step s)).
  assert (Hst2 : 0 <= st < 2).
  { unfold st. destruct (rs_Round s <? round) eqn:Er; [lia|]. split; [apply stage_nonneg|]. apply stage_lt_precommit. lia. }
  eapply rtc_trans; [|apply (precommit_steps s round st lr lb block vs ds vs'); [done|done|lia|done|done]].
  apply abs_move; [|lia]. fold s. unfold st. destruct (rs_Round s <? round) eqn:Er; [left; lia|right; split; [lia|done]].
Qed.

(** ** New rounds and waiting *)
Lemma frame_forward c c' round step :
  frame E c c' -> forward (c_state c) round step -> forward (c_state c') round step.
Proof. intros Hf. unfold forward. by rewrite (f_round _ _ _ Hf), (f_step _ _ _ Hf). Qed.

(** Sequencing: what frames comes first, and what simulates comes after. *)
Lemma frames_bind_at {A D} (m : M core A) (f : A -> M core D) c vs ds :
  wp m (fun _ c' => frame E c c') c -> good c vs ds ->
  (forall a c1, frame E c c1 -> good c1 vs ds -> wp (f a) (fun _ c' => reach c1 vs ds c') c1) ->
  wp (m ≫= f) (fun _ c' => reach c vs ds c') c.
Proof.
  intros Hm Hg Hf. apply wp_bind. eapply wp_mono; [exact Hm|]. intros a c1 H1.
  destruct (frame_good vals E c vs ds c1 H1 Hg) as [Hg1 Ha]. eapply wp_mono; [by apply Hf|].
  intros b c2 (vs2 & ds2 & Hg2 & Hs2). exists vs2, ds2. split; [done|]. by rewrite <- Ha.
Qed.

Lemma sim_after {A D} (m : M core A) (f : A -> M core D) c vs ds :
  wp m (fun _ c' => reach c vs ds c') c -> (forall a, sim (f a)) ->
  wp (m ≫= f) (fun _ c' => reach c vs ds c') c.
Proof.
  intros Hm Hf. apply wp_bind. eapply wp_mono; [exact Hm|]. intros a c1 (vs1 & ds1 & Hg1 & Hs1).
  eapply wp_mono; [by apply Hf|]. intros b c2 (vs2 & ds2 & Hg2 & Hs2).
  exists vs2, ds2. split; [done|by eapply rtc_trans].
Qed.

Lemma sim_enterPropose number round : sim (enterPropose number round).
Proof.
  intros c vs ds Hg. unfold enterPropose. wp_step. wp_step.
  destruct (_ || _ || _) eqn:Eg; [by apply reach_refl|].
  assert (Hfw : forward (c_state c) round RoundStepPropose).
  { unfold forward. destruct (decide (rs_Round (c_state c) = round)); [right|left; lia]. split; [done|].
    rewrite stage_lt_prevote; [apply stage_nonneg|]. unfold RoundStepPrevote, RoundStepPropose in *. lia. }
  apply frames_bind_at; [by apply frames_emit|done|]. intros _ c1 H1 Hg1.
  apply frames_bind_at; [apply frames_propose_if_proposer|done|]. intros _ c2 H2 Hg2.
  apply sim_after.
  - apply sim_move_at; [done|]. by do 2 (eapply frame_forward; [eassumption|]).
  - intros _. apply sim_bind; [apply sim_gets|]. intros s. apply sim_when, sim_enterPrevote.
Qed.

Lemma CalcProposer_validators v p d v' : CalcProposer v p d = Ok v' -> vs_validators v' = vs_validators v.
Proof. unfold CalcProposer. destruct (selector _ _ _ _); [|done..]. by intros [= <-]. Qed.

Lemma wp_valSet P c : (forall v, c_valSet c = Some v -> P v c) -> wp valSet P c.
Proof. intros HP. unfold valSet. wp_step. wp_step. apply wp_deref. exact HP. Qed.

Lemma frames_calcProposer d : frames E (calcProposer d).
Proof.
  intros c. unfold calcProposer. wp_step. apply wp_valSet. intros v Hv. wp_step. wp_step.
  destruct (CalcProposer v _ d) as [v'| |] eqn:Ev; [|done..].
  apply wp_modify. constructor; cbn; eauto. intros ? [= <-]. exists v. split; [done|].
  by eapply CalcProposer_validators.
Qed.

(** The handler of messages a step may call. *)
Definition handles (handle : message -> M core (option error)) : Prop :=
  forall m, m_Code m = msgPropose -> sim (handle m).

Lemma sim_enterNewRound handle number round : handles handle -> sim (enterNewRound handle number round).
Proof.
  intros Hh c vs ds Hg. unfold enterNewRound. wp_step. wp_step.
  destruct (_ || _ || _) eqn:Eg; [by apply reach_refl|].
  assert (Hfw : forward (c_state c) round RoundStepNewRound).
  { unfold forward. destruct (decide (rs_Round (c_state c) = round)); [right|left; lia]. split; [done|].
    assert (rs_step (c_state c) = RoundStepNewHeight) as -> by lia. done. }
  apply frames_bind_at; [apply frames_when, frames_calcProposer|done|]. intros _ c1 H1 Hg1.
  apply frames_bind_at; [apply frames_when, frames_SetProposal_None|done|]. intros _ c2 H2 Hg2.
  apply sim_after; [apply sim_move_at; [done|]; by do 2 (eapply frame_forward; [eassumption|])|]. intros _.
  apply sim_bind; [apply frames_sim, frames_setPrecommitWaited|]. intros _.
  apply sim_bind; [apply sim_enterPropose|]. intros _. clear c vs ds Hg Hfw Eg c1 H1 Hg1 c2 H2 Hg2.
  intros c vs ds Hg. wp_step. wp_step. destruct (c_futureProposals c !! round) as [msg|] eqn:Em; [|by apply reach_refl].
  apply sim_after; [|intros _; apply sim_ret]. apply Hh; [|done]. by eapply (ok_future _ _ _ (proj1 Hg)).
Qed.

Lemma sim_enterPrevoteWait number round : sim (enterPrevoteWait number round).
Proof.
  intros c vs ds Hg. unfold enterPrevoteWait. wp_step. wp_step.
  destruct (_ || _ || _) eqn:Eg; [by apply reach_refl|].
  apply frames_bind_at; [by apply frames_emit|done|]. intros _ c1 H1 Hg1.
  apply sim_move_at; [done|]. eapply frame_forward; [exact H1|].
  unfold forward. destruct (decide (rs_Round (c_state c) = round)); [right|left; lia]. split; [done|].
  unfold stage, RoundStepPrevoteWait, RoundStepPrecommit, RoundStepPrevote in *. repeat case_match; lia.
Qed.

Lemma stage_le_2 step : stage step <= 2.
Proof. unfold stage. repeat case_match; lia. Qed.

Lemma sim_enterPrecommitWait number round : sim (enterPrecommitWait number round).
Proof.
  intros c vs ds Hg. unfold enterPrecommitWait. wp_step. wp_step.
  destruct (_ || _ || _) eqn:Eg; [by apply reach_refl|].
  apply frames_bind_at; [apply frames_deref|done|]. intros ms c1 H1 Hg1.
  destruct (negb (HasTwoThirdAny (Some ms))); [done|].
  apply frames_bind_at; [by apply frames_emit|done|]. intros _ c2 H2 Hg2.
  apply sim_after; [|intros _; apply frames_sim, frames_setPrecommitWaited].
  apply sim_move_at; [done|]. do 2 (eapply frame_forward; [eassumption|]).
  unfold forward. destruct (decide (rs_Round (c_state c) = round)); [right|left; lia]. split; [done|].
  apply stage_le_2.
Qed.

(** ** Commit *)

(** A majority of a message set is a quorum. *)
Lemma set_quorum n code r ms h :
  set_ok vals E n code r ms -> ms_maj23 ms = Some h -> quorum vals E (AVote code n r h).
Proof.
  intros [Hrd Hinv Hc Hv Hvals He] Hm. exists (voters (ms_voteByAddress ms) h). cbn. split_and!.
  - intros a (v & Hav & _)%elem_of_voters. rewrite <- Hvals. apply elem_of_list_to_set.
    by apply (inv_vote ms Hinv a v).
  - assert (MinMajority (vals n) = MinMajority (ms_valSet ms)) as ->
      by (unfold MinMajority, F, Size; by rewrite Hvals).
    by apply (inv_maj ms Hinv).
  - intros a (v & Hav & <-)%elem_of_voters. by apply He.
Qed.

Lemma FinalizeBlock_spec p c :
  wp (FinalizeBlock p) (fun r c' => c' = c /\ forall b, r = inr b -> exists seals hd,
    WriteCommittedSeals (Block_Header (p_Block p)) seals = inr hd /\ b = WithSeal (p_Block p) hd) c.
Proof.
  unfold FinalizeBlock. wp_step. wp_step. wp_step. apply wp_valSet. intros v _. wp_step. wp_step. wp_step. wp_step.
  destruct (_ <? _); [by wp_step|]. destruct (collect_seals _ _ _ _) as [seals total]. destruct (_ <? _); [by wp_step|].
  destruct (WriteCommittedSeals _ seals) as [e|hd] eqn:Ew; [by wp_step|]. wp_step. split; [done|].
  intros b [= <-]. eauto.
Qed.

Lemma sim_finalizeCommit number : sim (finalizeCommit number).
Proof.
  intros c vs ds Hg. unfold finalizeCommit. wp_step. wp_step. set (s := c_state c).
  destruct (negb (rs_BlockNumber s =? number)); [done|].
  destruct (negb (rs_step s =? RoundStepCommit)); [by apply reach_refl|].
  destruct (rs_PrecommitsReceived s !! rs_commitRound s) as [ms|] eqn:Ems; [|by apply reach_refl].
  cbn [mbind option_bind]. rewrite TwoThirdMajority_maj23. destruct (ms_maj23 ms) as [h|] eqn:Emaj; [|by apply reach_refl].
  rewrite Hash_Hex_eqb. destruct (bool_decide (h = emptyBlockHash)) eqn:Eh; [by apply reach_refl|].
  apply bool_decide_eq_false in Eh.
  destruct (rs_proposalReceived s) as [p|] eqn:Ep; [|by apply reach_refl].
  rewrite Hash_Hex_eqb. destruct (negb (bool_decide _)) eqn:Eph; [by apply reach_refl|].
  apply negb_false_iff, bool_decide_eq_true in Eph.
  wp_step. eapply wp_mono; [apply FinalizeBlock_spec|]. intros r c' [-> Hb]. destruct r as [e|b]; [done|].
  apply wp_modify. destruct (Hb b eq_refl) as (seals & hd & Hw & Hbl).
  destruct Hg as [Hok [Hlv Hlc]]. exists vs, ((rs_BlockNumber s, h) :: ds). split.
  - split; [by destruct Hok|]. split; [exact Hlv|]. cbn [add_effect c_log].
    rewrite (omap_cons_Some commit_of (ECommit b) _ b) by done. constructor; [|done].
    exists (p_Block p), seals, hd. cbn. split_and!; [by apply (ok_proposal _ _ _ Hok)|done|done|done].
  - apply rtc_once. unfold abs. cbn. fold s. apply step_decide with (rs_commitRound s); [| |done].
    + eapply set_quorum; [by apply (ok_precommits _ _ _ Hok)|done].
    + by eapply so_round, (ok_precommits _ _ _ Hok).
Qed.

Lemma frame_SetProposal c p :
  Block_Number (p_Block p) = Some (rs_BlockNumber (c_state c)) ->
  wp (upd (SetProposalReceived (Some p))) (fun _ c' => frame E c c') c.
Proof. intros Hn. apply wp_modify. constructor; cbn; eauto. intros p' [= <-]. by right. Qed.

Lemma sim_to_commit : sim (upd (fun s => UpdateRoundStep (rs_Round s) RoundStepCommit s)).
Proof.
  intros c vs ds Hg. apply wp_modify. apply move_reach; [done|]. right. split; [done|]. apply stage_le_2.
Qed.

Lemma sim_enterCommit number round : sim (enterCommit number round).
Proof.
  intros c vs ds Hg. unfold enterCommit. wp_step. wp_step. set (s := c_state c).
  destruct (_ || _); [by apply reach_refl|].
  apply frames_bind_at; [apply frames_deref|done|]. intros ms c1 H1 Hg1.
  apply frames_bind_at; [apply frames_deref|done|]. intros h c2 H2 Hg2.
  apply frames_bind_at; [|done|].
  { destruct (rs_lockedBlock s) as [b|] eqn:Eb; [|apply frames_ret].
    apply wp_when; intros _; [|apply frame_refl]. apply frame_SetProposal. cbn.
    rewrite (f_number _ _ _ H2), (f_number _ _ _ H1).
    pose proof (ok_lock _ _ _ (proj1 Hg)) as Hl. unfold lock_ok in Hl. fold s in Hl. rewrite Eb in Hl. apply Hl. }
  intros _ c3 H3 Hg3. wp_step. wp_step.
  apply frames_bind_at; [|done|].
  { destruct (rs_proposalReceived (c_state c3)); [apply frames_when, frames_SetProposal_None|apply frames_ret]. }
  intros _ c4 H4 Hg4. apply sim_after; [by apply sim_to_commit|]. intros _.
  apply sim_bind; [apply frames_sim, frames_ask|]. intros now.
  apply sim_bind; [apply frames_sim, frames_set_commit|]. intros _. apply sim_finalizeCommit.
Qed.

(** ** New heights *)
Record cleared (n : Z) (s : roundState) : Prop := {
  cl_number : rs_BlockNumber s = n;
  cl_round : rs_Round s = 0;
  cl_step : rs_step s = RoundStepNewHeight;
  cl_lockedRound : rs_lockedRound s = -1;
  cl_lockedBlock : rs_lockedBlock s = None;
  cl_proposal : rs_proposalReceived s = None;
  cl_prevotes : rs_PrevotesReceived s = ∅;
  cl_precommits : rs_PrecommitsReceived s = ∅
}.

Lemma clear_spec s : wp clearPreviousRoundData (fun _ s' => cleared (rs_BlockNumber s) s') s.
Proof.
  unfold clearPreviousRoundData. wp_step. wp_step. wp_step.
  apply wp_mono with (P := fun _ s' => rs_BlockNumber s' = rs_BlockNumber s).
  { destruct (rs_block s); [|by wp_step]. wp_step. wp_step. wp_step; [by wp_step|done]. }
  intros _ s1 H1. do 7 (wp_step; wp_step). wp_step. constructor; cbn; done.
Qed.

Lemma wp_on_state {A} (m : M roundState A) P c :
  wp m (fun a s => P a (set_state s c)) (c_state c) -> wp (on_state m) P c.
Proof. unfold wp, on_state. by destruct (m (c_state c)) as [[a s]| |]. Qed.

(** Reaching a new height: everything of the old one is gone. *)
Lemma height_reach c vs ds c' n :
  good c vs ds -> c_started c' = c_started c -> rs_BlockNumber (c_state c) < n -> cleared n (c_state c') ->
  (forall v, c_valSet c' = Some v -> vs_validators v = vs_validators (vals n)) ->
  c_futureMessages c' = c_futureMessages c -> (forall r m, c_futureProposals c' !! r = Some m -> c_futureProposals c !! r = Some m) ->
  c_log c' = c_log c -> (forall k x, (c_calls c' <= k)%nat -> head_number k x -> n <= x + 1) ->
  reach c vs ds c'.
Proof.
  intros [[Hst Hr Hv Hpv Hpc Hl Hp Hq Hf Hh] [Hlv Hlc]] Hst' Hn [C1 C2 C3 C4 C5 C6 C7 C8] Hv' Hq' Hf' Hlog Hh'.
  exists vs, ds. split.
  - split; [|split; by rewrite Hlog]. constructor; rewrite ?Hst', ?C1, ?C2, ?C6, ?C7, ?C8; try done.
    + unfold lock_ok. by rewrite C5.
    + by rewrite Hq'.
    + intros r m Hm. eapply Hf. by apply Hf'.
  - apply rtc_once. unfold abs, lock_of, polkas. rewrite C1, C2, C3, C5, C7.
    assert (omap ms_maj23 (∅ : gmap Z messageSet) = ∅) as -> by apply omap_empty.
    by apply step_height.
Qed.
End simulation.
