(* ===== verification/EventSim.v ===== *)
(** * The core implements the specification: events

    The simulation of the handlers: starting heights, proposals, votes, catch-up, future
    messages, timeouts, and so of every event. The backend is assumed to report the same
    validators for a height whenever it is asked, and a chain that only grows. *)

From S2P Require Import Prelude Bytes RlpEncode RlpDecode RlpCanonical Types ValidatorSet Messages MessageSet.
From S2P Require Import MsgStorage Timeout Core Consensus Handler Spec Refinement Simulation.

(** What the core relies on of its backend. *)
Class BackendLaws `{C : Crypto} (B : Backend) (vals : Z -> ValidatorSet) : Prop := {
  be_validators : forall k n v, be_Validators k n = Some v -> vs_validators v = vs_validators (vals n);
  be_chain_grows : forall k k' x x', (k <= k')%nat -> head_number k x -> head_number k' x' -> x <= x'
}.

Section events.
Context `{C : Crypto} {B : Backend} {Q : PriorityQueue} {QL : PriorityQueueLaws Q}.
Context (vals : Z -> ValidatorSet) (E : evidence) {BL : BackendLaws B vals}.

Abbreviation good := (good vals E).
Abbreviation reach := (reach vals E).
Abbreviation sim := (sim vals E).

(** ** Starting a height *)
Lemma wp_ask {A} (f : nat -> A) P c : P (f (c_calls c)) (next_call c) -> wp (ask f) P c.
Proof. intros HP. unfold ask. wp_step. wp_step. wp_step. wp_step. by wp_step. Qed.

(** Taking the validators of the height reached. *)
Lemma update_reach c vs ds :
  good c vs ds ->
  (forall k x, (c_calls c <= k)%nat -> head_number k x -> rs_BlockNumber (c_state c) <= x) ->
  wp updateStateForNewblock (fun _ c' => reach c vs ds c') c.
Proof.
  intros Hg Hhead. unfold updateStateForNewblock. wp_step. wp_step. set (s := c_state c).
  destruct (negb (commit_round_ok s)); [by apply reach_refl|].
  set (n := rs_BlockNumber s + 1). wp_step. apply wp_modify. wp_step.
  apply wp_mono with (P := fun _ c' => rs_BlockNumber (c_state c') = n /\ (c_calls c <= c_calls c')%nat /\
    c_futureMessages c' = c_futureMessages c /\ c_log c' = c_log c /\ c_started c' = c_started c).
  { destruct (rs_commitTime s =? 0); [wp_step; apply wp_ask|]; apply wp_modify; cbn; split_and!; try done; lia. }
  intros [] c1 (Hn1 & Hc1 & Hq1 & Hl1 & Hs1). wp_step. apply wp_on_state.
  eapply wp_mono; [apply clear_spec|]. intros [] s2 Hcl. cbv beta in Hcl. rewrite Hn1 in Hcl.
  wp_step. wp_step. wp_step. apply wp_ask. wp_step. apply wp_modify. apply wp_modify.
  apply height_reach with n; cbn; try done; try congruence.
  - unfold n, s. lia.
  - intros v Hv. rewrite (cl_number _ _ Hcl) in Hv. by apply be_validators in Hv.
  - intros k x Hk Hx. specialize (Hhead k x ltac:(lia) Hx). unfold n, s. lia.
Qed.

Lemma sim_startNewRound : sim startNewRound.
Proof.
  intros c vs ds Hg. unfold startNewRound. wp_step. apply wp_ask. wp_step. apply wp_deref. intros x Hx.
  wp_step. wp_step. set (s := c_state (next_call c)).
  assert (Htail : sim (s0 ← gets c_state; now ← ask be_Now; v ← valSet;
      match restart_duration s0 now with
      | Some duration => when (negb ((GetByAddress v be_Address).1 =? -1))
          (emit (ESchedule (MkTimeout duration (rs_BlockNumber s0) (rs_Round s0) (rs_step s0) 0)))
      | None => mret tt end)) by (apply frames_sim; frame_tac).
  assert (Hc1 : frame E c (next_call c)) by (constructor; cbn; eauto).
  destruct (frame_good vals E c vs ds _ Hc1 Hg) as [Hg1 Ha1]. unfold reach, Refinement.reach. rewrite <- Ha1.
  apply sim_after; [|intros _; exact Htail].
  destruct (rs_BlockNumber s =? x + 1) eqn:En; [by apply reach_refl|].
  assert (Hlt : rs_BlockNumber s < x + 1).
  { pose proof (ok_head _ _ _ (proj1 Hg) (c_calls c) x ltac:(lia) Hx) as Hle.
    change (rs_BlockNumber (c_state c)) with (rs_BlockNumber s) in Hle. lia. }
  wp_step. apply wp_modify. wp_step. apply wp_on_state. eapply wp_mono; [apply clear_spec|]. intros [] s2 Hcl. cbv beta in Hcl. cbn in Hcl.
  wp_step. apply wp_modify. wp_step. wp_step. wp_step. apply wp_ask. apply wp_modify.
  apply height_reach with (x + 1); cbn; try done.
  - intros v Hv. rewrite (cl_number _ _ Hcl) in Hv. by apply be_validators in Hv.
  - intros k x' Hk Hx'. pose proof (be_chain_grows (c_calls c) k x x' ltac:(lia) Hx Hx'). lia.
Qed.

(** ** Proposals *)
Lemma propose_trusted m : m_Code m = msgPropose -> trusted E m.
Proof.
  intros Hm m' Hw. inversion Hw as [m0 Heq|m0 reply p sub m'' Hc]; subst.
  - intros a v _ [Hc|Hc] _; by rewrite Hm in Hc.
  - by rewrite Hm in Hc.
Qed.

Lemma frames_store_future m h : trusted E m -> frames E (store_future m h).
Proof.
  intros Ht c. apply wp_modify. constructor; cbn; eauto. intros it Hit.
  rewrite pq_items_Put in Hit. apply elem_of_cons in Hit as [->|Hit]; [by right|by left].
Qed.

Lemma frames_store_future_proposal m r : m_Code m = msgPropose -> frames E (store_future_proposal m r).
Proof.
  intros Hm. unfold store_future_proposal. apply frames_bind; [apply frames_valSet|]. intros v.
  destruct (Copy v) as [v'| |]; [|apply frames_panic|apply frames_diverge].
  apply frames_bind; [apply frames_deref|]. intros p. apply frames_bind; [apply frames_gets|]. intros s.
  destruct (CalcProposer _ _ _); [|apply frames_panic|apply frames_diverge].
  apply frames_bind; [apply frames_deref|]. intros p'. apply frames_when.
  intros c. apply wp_modify. constructor; cbn; eauto. intros r' m'.
  rewrite lookup_insert_Some. intros [[_ <-]|[_ Hl]]; [by right|by left].
Qed.

Lemma sim_handlePropose m : m_Code m = msgPropose -> sim (handlePropose m).
Proof.
  intros Hm c vs ds Hg. unfold handlePropose.
  destruct (decode_proposal (m_Msg m)) as [e|p]; [by apply reach_refl|].
  wp_step. wp_step. set (s := c_state c). wp_step. apply wp_deref. intros number Hnum.
  destruct (bool_decide _); [by apply reach_refl|].
  destruct (negb (number =? rs_BlockNumber s)) eqn:En.
  { apply frames_sim; [|done]. apply frames_bind; [|intros _; apply frames_ret].
    by apply frames_when, frames_store_future, propose_trusted. }
  destruct (negb (p_Round p =? rs_Round s)).
  { apply frames_sim; [|done]. apply frames_bind; [|intros _; apply frames_ret].
    by apply frames_when, frames_store_future_proposal. }
  apply frames_bind_at; [apply frames_VerifyProposal|done|]. intros err c1 H1 Hg1.
  destruct err as [e|]; [by destruct (bool_decide _); apply reach_refl|].
  apply sim_after; [|intros _; apply sim_ret]. unfold accept_proposal.
  apply frames_bind_at; [by apply frames_emit|done|]. intros _ c2 H2 Hg2.
  apply frames_bind_at; [|done|].
  { apply frame_SetProposal. rewrite (f_number _ _ _ H2), (f_number _ _ _ H1), Hnum. fold s. f_equal. lia. }
  intros _ c3 H3 Hg3. wp_step. wp_step. destruct (_ && _); [by apply sim_enterPrevote|].
  destruct (rs_step (c_state c3) =? RoundStepCommit); [by apply sim_finalizeCommit|by apply reach_refl].
Qed.

(** ** Votes *)

(** A polka only releases a lock that is older and on another block. *)
Lemma polka_unlock c vs ds vote h :
  good c vs ds -> polkas (c_state c) !! v_Round vote = Some h ->
  wp (apply_polka vote h) (fun _ c' => reach c vs ds c') c.
Proof.
  intros Hg Hp. unfold apply_polka. wp_step. wp_step. set (s := c_state c).
  apply sim_after.
  - destruct (_ && _ && _) eqn:Eg; [|by apply reach_refl]. wp_step. apply wp_deref. intros b Hb.
    apply wp_when; intros Hne; [|by apply reach_refl]. rewrite Hash_Hex_eqb in Hne.
    apply negb_true_iff, bool_decide_eq_false in Hne. apply wp_modify. fold s.
    exists vs, ds. destruct Hg as [[Hst Hr Hv Hpv Hpc Hl Hpr Hq Hf Hh] Hlog]. split; [by split|].
    apply rtc_once. unfold abs. cbn. fold s. unfold lock_of. rewrite Hb. cbn.
    apply step_unlock with (v_Round vote) h; [lia|lia|exact Hp|congruence].
  - intros _. apply frames_sim. frame_tac.
Qed.

(** Adding a vote keeps a set well-formed and its majority. *)
Lemma AddVote_set_ok n code r ms msg vote res ms' :
  set_ok vals E n code r ms -> decode_vote (m_Msg msg) = inr vote ->
  E (m_Address msg) (AVote code n r (v_BlockHash vote)) ->
  AddVote msg vote ms = Ok (res, ms') ->
  set_ok vals E n code r ms' /\ ms_grows ms ms'.
Proof.
  intros [Hrd Hinv Hc Hview Hvals He] Hd Hev Ha.
  destruct (AddVote_grows ms msg vote res ms' Hinv Hd Ha) as [Hinv' Hg]. split; [|done].
  constructor; [done|done| | | |].
  - by rewrite (grow_code _ _ Hg).
  - by rewrite (grow_view _ _ Hg).
  - by rewrite (grow_valSet _ _ Hg).
  - destruct (AddVote_cases ms msg vote Hinv Hd) as (r0 & ms0 & E0 & _ & Hcases).
    rewrite E0 in Ha. apply Ok_pair in Ha as [_ <-].
    destruct Hcases as [(_ & _ & _ & i & ->)|[(_ & -> & _)|(_ & -> & _)]]; [|done|done].
    intros a v Hv. cbn in Hv. apply lookup_insert_Some in Hv as [[<- <-]|[_ Hv]]; [done|by apply He].
Qed.

Lemma new_set_ok n code r v :
  is_int64 r -> vs_validators v = vs_validators (vals n) -> set_ok vals E n code r (newMessageSet v code (MkView r n)).
Proof.
  intros Hr Hv. constructor; [done|apply newMessageSet_inv|done|done|done|].
  intros a w Hw. cbn in Hw. by rewrite lookup_empty in Hw.
Qed.

(** [addPrevote] and [addPrecommit]: the sets stay well-formed and majorities stay. *)
Lemma addVote_spec n code sets put msg vote v s :
  (forall m s, sets (put m s) = m) -> sets_ok vals E n code (sets s) ->
  vs_validators v = vs_validators (vals n) -> v_BlockNumber vote = n -> decode_vote (m_Msg msg) = inr vote ->
  E (m_Address msg) (AVote code n (v_Round vote) (v_BlockHash vote)) ->
  wp (addVote code sets put msg vote v)
    (fun _ s' => exists m, s' = put m s /\ sets_ok vals E n code m /\ omap ms_maj23 (sets s) ⊆ omap ms_maj23 m) s.
Proof.
  intros Hput Hok Hv Hn Hd Hev. unfold addVote. wp_step. wp_step. subst n.
  set (ms := default (newMessageSet v code (MkView (v_Round vote) (v_BlockNumber vote))) (sets s !! v_Round vote)).
  assert (Hms : set_ok vals E (v_BlockNumber vote) code (v_Round vote) ms).
  { unfold ms. destruct (sets s !! v_Round vote) as [ms0|] eqn:Em; [by apply Hok|apply new_set_ok; [by eapply decode_vote_round|done]]. }
  destruct (AddVote msg vote ms) as [[r ms']| |] eqn:Ea; [|done..].
  destruct (AddVote_set_ok _ _ _ _ _ _ _ _ Hms Hd Hev Ea) as [Hms' Hg].
  wp_step. apply wp_modify. apply wp_ret. eexists. split; [done|]. split.
  - intros r' m'. rewrite lookup_insert_Some. intros [[<- <-]|[_ Hl]]; [done|by apply Hok].
  - apply map_subseteq_spec. intros r' h. rewrite !lookup_omap. intros Hr'.
    destruct (decide (r' = v_Round vote)) as [->|Hne]; [|by rewrite lookup_insert_ne].
    rewrite lookup_insert_eq. cbn. apply (grow_maj _ _ Hg). unfold ms.
    destruct (sets s !! v_Round vote); [done|by cbn in Hr'].
Qed.

Lemma addPrevote_reach c vs ds msg vote v :
  good c vs ds -> c_valSet c = Some v -> v_BlockNumber vote = rs_BlockNumber (c_state c) ->
  decode_vote (m_Msg msg) = inr vote ->
  E (m_Address msg) (AVote msgPrevote (v_BlockNumber vote) (v_Round vote) (v_BlockHash vote)) ->
  wp (on_state (addPrevote msg vote v)) (fun _ c' => reach c vs ds c') c.
Proof.
  intros [[Hst Hr Hv Hpv Hpc Hl Hpr Hq Hf Hh] Hlog] Hval Hn Hd Hev. apply wp_on_state.
  eapply wp_mono; [apply (addVote_spec (rs_BlockNumber (c_state c))); try done; [by apply Hv|by rewrite <- Hn]|].
  intros r s' (m & -> & Hm & Hsub). exists vs, ds. split.
  - split; [|done]. constructor; cbn; try done. unfold lock_ok, polkas in *. cbn.
    destruct (rs_lockedBlock (c_state c)); [|done]. destruct Hl as (Hl1 & Hl2 & Hl3).
    split; [done|]. split; [by eapply lookup_weaken|done].
  - apply rtc_once. unfold abs, polkas, lock_of. cbn. apply step_learn; [done|].
    intros r' h. rewrite lookup_omap. destruct (m !! r') as [ms|] eqn:Em; [|done]. cbn. intros Hmaj.
    eapply set_quorum; [by apply Hm|done].
Qed.

Lemma addPrecommit_reach c vs ds msg vote v :
  good c vs ds -> c_valSet c = Some v -> v_BlockNumber vote = rs_BlockNumber (c_state c) ->
  decode_vote (m_Msg msg) = inr vote ->
  E (m_Address msg) (AVote msgPrecommit (v_BlockNumber vote) (v_Round vote) (v_BlockHash vote)) ->
  wp (on_state (addPrecommit msg vote v)) (fun _ c' => reach c vs ds c') c.
Proof.
  intros [[Hst Hr Hv Hpv Hpc Hl Hpr Hq Hf Hh] Hlog] Hval Hn Hd Hev. apply wp_on_state.
  eapply wp_mono; [apply (addVote_spec (rs_BlockNumber (c_state c))); try done; [by apply Hv|by rewrite <- Hn]|].
  intros r s' (m & -> & Hm & Hsub). exists vs, ds. split; [|apply rtc_refl].
  split; [|done]. by constructor.
Qed.

Lemma sim_handlePrevote handle msg :
  handles vals E handle -> trusted E msg -> m_Code msg = msgPrevote ->
  GetAddressFromSignature msg = inr (m_Address msg) -> sim (handlePrevote handle msg).
Proof.
  intros Hh Ht Hc Hsig c vs ds Hg. unfold handlePrevote.
  destruct (decode_vote (m_Msg msg)) as [e|vote] eqn:Ed; [by apply reach_refl|].
  wp_step. wp_step. destruct (negb (v_BlockNumber vote =? _)) eqn:En.
  { apply frames_sim; [|done]. apply frames_bind; [by apply frames_when, frames_store_future|intros _; apply frames_ret]. }
  wp_step. apply wp_valSet. intros v Hv.
  pose proof (Ht msg (within_self msg) _ vote Hsig (or_introl Hc) Ed) as Hev. rewrite Hc in Hev.
  apply sim_after; [by apply addPrevote_reach; try done; lia|].
  clear c vs ds Hg En Hv v. intros added. destruct added as [e|[]]; [apply sim_ret| |apply sim_ret].
  intros c vs ds Hg. wp_step. wp_step. wp_step. apply wp_deref. intros prevotes Hpv.
  apply sim_after.
  { rewrite TwoThirdMajority_maj23. destruct (ms_maj23 prevotes) as [h|] eqn:Em; [|by apply reach_refl].
    apply polka_unlock; [done|]. unfold polkas. by rewrite lookup_omap, Hpv. }
  intros _. apply sim_bind; [by apply frames_sim, frames_emit|]. intros _.
  apply sim_bind; [|intros _; apply sim_ret]. unfold after_prevote. apply sim_bind; [apply sim_gets|]. intros s.
  destruct (_ && HasTwoThirdAny _); [by apply sim_enterNewRound|].
  destruct (_ && (RoundStepPrevote <=? _)).
  - destruct (match TwoThirdMajority (Some prevotes) with Some _ => _ | None => _ end); [apply sim_enterPrecommit|].
    destruct (HasTwoThirdAny _); [apply sim_enterPrevoteWait|apply sim_ret].
  - destruct (rs_proposalReceived s); [apply sim_when, sim_enterPrevote|apply sim_ret].
Qed.

Lemma sim_handlePrecommit handle msg :
  handles vals E handle -> trusted E msg -> m_Code msg = msgPrecommit ->
  GetAddressFromSignature msg = inr (m_Address msg) -> sim (handlePrecommit handle msg).
Proof.
  intros Hh Ht Hc Hsig c vs ds Hg. unfold handlePrecommit.
  destruct (decode_vote (m_Msg msg)) as [e|vote] eqn:Ed; [by apply reach_refl|].
  wp_step. wp_step. destruct (negb (v_BlockNumber vote =? _)) eqn:En.
  { apply frames_sim; [|done]. apply frames_bind; [by apply frames_when, frames_store_future|intros _; apply frames_ret]. }
  wp_step. apply wp_valSet. intros v Hv.
  pose proof (Ht msg (within_self msg) _ vote Hsig (or_intror Hc) Ed) as Hev. rewrite Hc in Hev.
  apply sim_after; [by apply addPrecommit_reach; try done; lia|].
  clear c vs ds Hg En Hv v. intros added. destruct added as [e|[]]; [apply sim_ret| |apply sim_ret].
  apply sim_bind; [by apply frames_sim, frames_emit|]. intros _. apply sim_bind; [apply sim_gets|]. intros s.
  apply sim_bind; [apply sim_deref|]. intros precommits.
  apply sim_bind; [|intros _; apply sim_ret]. unfold after_precommit. apply sim_bind; [apply sim_gets|]. intros s'.
  destruct (TwoThirdMajority (Some precommits)).
  - apply sim_bind; [by apply sim_enterNewRound|]. intros _. apply sim_bind; [apply sim_enterPrecommit|]. intros _.
    destruct (negb _); [apply sim_enterCommit|by apply sim_enterNewRound].
  - apply sim_when. apply sim_bind; [by apply sim_enterNewRound|]. intros _. apply sim_enterPrecommitWait.
Qed.

(** ** Messages *)
Lemma sim_replay handle from : forall payloads,
  (forall p sub, p ∈ payloads -> decode_message p = inr sub -> sim (handle sub)) -> sim (replay handle from payloads).
Proof.
  induction payloads as [|p ps IH]; intros Hp; cbn [replay]; [apply sim_ret|].
  destruct (decode_message p) as [e|sub] eqn:Ed; [apply sim_ret|].
  destruct (negb _); [apply sim_ret|]. apply sim_bind; [apply (Hp p); [by left|done]|].
  intros [e|]; [apply sim_ret|]. apply IH. intros p' sub' Hin. apply Hp. by right.
Qed.

Lemma sim_handleMsgLocked fuel : forall m, trusted E m -> sim (handleMsgLocked fuel m).
Proof.
  induction fuel as [|n IH]; intros m Ht; cbn [handleMsgLocked]; [apply sim_diverge|].
  destruct (GetAddressFromSignature m) as [e|signer] eqn:Es; [apply sim_ret|].
  destruct (negb (bool_decide (signer = m_Address m))) eqn:Ea; [apply sim_ret|].
  apply negb_false_iff, bool_decide_eq_true in Ea. subst signer.
  assert (Hh : handles vals E (handleMsgLocked n)) by (intros m' Hm'; by apply IH, propose_trusted).
  destruct (m_Code m =? msgPropose) eqn:E0; [apply sim_handlePropose; lia|].
  destruct (m_Code m =? msgPrevote) eqn:E1; [apply sim_handlePrevote; try done; lia|].
  destruct (m_Code m =? msgPrecommit) eqn:E2; [apply sim_handlePrecommit; try done; lia|].
  destruct (m_Code m =? msgCatchUpRequest); [apply frames_sim, frames_handleCatchupRequest|].
  destruct (m_Code m =? msgCatchUpReply) eqn:E4; [|apply sim_ret].
  unfold handleCatchUpReply. destruct (decode_catchUpReply (m_Msg m)) as [e|reply] eqn:Er; [apply sim_ret|].
  apply sim_bind; [apply sim_gets|]. intros s. destruct (negb _); [apply sim_ret|].
  apply sim_replay. intros p sub Hp Hsub. apply IH. intros m' Hw. apply Ht.
  by apply within_reply with reply p sub; [lia|..].
Qed.

(** ** Future messages *)
Lemma sim_processFuture fuel : sim (processFuture fuel).
Proof.
  induction fuel as [|n IH]; cbn [processFuture]; [apply sim_diverge|].
  intros c vs ds Hg. wp_step. wp_step. destruct (pq_Len _ =? 0)%nat; [by apply reach_refl|].
  wp_step. apply wp_deref. intros item Hit.
  assert (Ht : trusted E (mi_message item)).
  { apply (ok_queue _ _ _ (proj1 Hg)). rewrite (pq_Peek_Get1 _ _ Hit). by left. }
  assert (Hpop : frame E c (set_futureMessages (pq_Get1 (c_futureMessages c)) c)).
  { constructor; cbn; eauto. intros it Hin. left. rewrite (pq_Peek_Get1 _ _ Hit). by right. }
  destruct (msg_height (mi_message item)) as [h|]; [|by apply reach_refl].
  wp_step. apply wp_deref. intros height _.
  destruct (height <? _); [|destruct (_ <? height); [by apply reach_refl|]];
    (apply frames_bind_at; [by apply wp_modify|done|]); intros _ c1 H1 Hg1; [by apply IH|].
  apply sim_after; [by apply sim_handleMsgLocked|]. intros _. apply IH.
Qed.

(** ** Events *)

(** What the environment of the core promises of an event: a final block is in the
    chain, and the votes in a message that carry a valid signature are their sender's. *)
Definition event_ok (c : core) (ev : event) : Prop :=
  match ev with
  | FinalCommittedEvent n => forall k x, (c_calls c <= k)%nat -> head_number k x -> n <= x
  | MessageEvent payload => forall m, decode_message payload = inr m -> trusted E m
  | _ => True
  end.

Lemma sim_handleFinalCommitted n c vs ds :
  good c vs ds -> event_ok c (FinalCommittedEvent n) ->
  wp (handleFinalCommitted n) (fun _ c' => reach c vs ds c') c.
Proof.
  intros Hg Hev. unfold handleFinalCommitted. wp_step. wp_step.
  destruct (n <? rs_BlockNumber (c_state c)) eqn:En; [by apply reach_refl|].
  apply frames_bind_at; [apply frames_set_sent|done|]. intros _ c1 H1 Hg1.
  apply sim_after.
  - apply update_reach; [done|]. intros k x Hk Hx. rewrite (f_number _ _ _ H1).
    pose proof (f_calls _ _ _ H1). specialize (Hev k x ltac:(lia) Hx). lia.
  - intros _. apply sim_bind; [apply sim_startNewRound|]. intros _.
    apply sim_bind; [|intros _; apply sim_ret]. unfold processFutureMessages.
    apply sim_bind; [apply sim_get|]. intros c'. apply sim_processFuture.
Qed.

Lemma sim_handleTimeout ti : sim (handleTimeout ti).
Proof.
  assert (Hh : handles vals E handle) by (intros m Hm; by apply sim_handleMsgLocked, propose_trusted).
  unfold handleTimeout. apply sim_bind; [apply sim_gets|]. intros s.
  destruct (_ || _ || _); [apply sim_ret|].
  destruct (ti_Step ti =? RoundStepNewHeight); [by apply sim_enterNewRound|].
  destruct (ti_Step ti =? RoundStepNewRound); [apply sim_enterPropose|].
  destruct (ti_Step ti =? RoundStepPropose); [apply sim_enterPrevote|].
  destruct (_ || _); [apply frames_sim, frames_enterCatchup|].
  destruct (ti_Step ti =? RoundStepPrevoteWait); [apply sim_enterPrecommit|].
  destruct (ti_Step ti =? RoundStepPrecommitWait); [|apply sim_panic].
  apply sim_bind; [apply sim_enterPrecommit|]. intros _. by apply sim_enterNewRound.
Qed.

Lemma handleEvent_reach c vs ds ev :
  good c vs ds -> event_ok c ev -> wp (handleEvent ev) (fun _ c' => reach c vs ds c') c.
Proof.
  intros Hg Hev. destruct ev as [b|payload|ti|n|msg|step round|]; cbn [handleEvent].
  - by apply frames_sim; [apply frames_handleNewBlock|].
  - destruct (decode_message payload) as [e|m] eqn:Ed; [by apply reach_refl|].
    apply sim_after; [|intros _; apply sim_ret]. by apply sim_handleMsgLocked; [apply Hev|].
  - by apply sim_handleTimeout.
  - by apply sim_handleFinalCommitted.
  - by apply frames_sim; [apply frames_reBroadcastMsg|].
  - by apply frames_sim; [apply frames_repostSelf|].
  - unfold Start. wp_step. wp_step. rewrite (ok_started _ _ _ (proj1 Hg)). cbn [negb when].
    wp_step. wp_step. by apply sim_startNewRound.
Qed.

(** The first start: no votes and no decisions yet. *)
Lemma Start_reach rebroadcast :
  wp Start (fun _ c => exists n vs ds, good c vs ds /\ steps_to vals E (initial_node n) (abs c vs ds)) (New_core rebroadcast).
Proof.
  unfold Start. wp_step. wp_step. cbn [c_started New_core negb when]. wp_step. wp_step. unfold getInitializedState.
  wp_step. apply wp_ask. wp_step. apply wp_deref. intros x Hx. wp_step. wp_step. apply wp_modify.
  wp_step. apply wp_ask. wp_step. apply wp_modify. apply wp_modify.
  set (c := set_started _).
  assert (Hg : good c [] []).
  { split; [|by split]. constructor; cbn; try done.
    - intros v Hv. by apply be_validators in Hv.
    - intros it Hit. rewrite pq_items_New in Hit. by apply elem_of_nil in Hit.
    - intros k x' Hk Hx'. pose proof (be_chain_grows 0 k x x' ltac:(lia) Hx Hx'). lia. }
  eapply wp_mono; [by apply (sim_startNewRound c [] [])|]. intros [] c' (vs & ds & Hg' & Hs).
  exists (x + 1), vs, ds. split; [done|]. exact Hs.
Qed.
End events.
