(* ===== verification/Safety.v ===== *)
(** * Safety of the consensus core

    What the simulation gives for the model of [src/consensus/tendermint/core]. One node,
    whatever events it handles: it refines the specification, votes once per round, keeps
    to its locks, and commits only blocks a quorum precommitted. A network of nodes, of
    which at most [F] validators are faulty: no two correct nodes commit different blocks
    of a height. *)

From S2P Require Import Prelude Bytes RlpEncode RlpDecode RlpCanonical Types ValidatorSet Messages MessageSet.
From S2P Require Import MsgStorage Timeout Core Consensus Handler Spec Refinement Simulation EventSim.

Section one_node.
Context `{C : Crypto} {B : Backend} {Q : PriorityQueue} {QL : PriorityQueueLaws Q}.
Context (vals : Z -> ValidatorSet) (E : evidence) {BL : BackendLaws B vals}.

(** The states of a node: started, then any events. *)
Inductive reachable : core -> Prop :=
  | reachable_start rebroadcast c : Start (New_core rebroadcast) = Ok (tt, c) -> reachable c
  | reachable_event c ev c' :
      reachable c -> event_ok E c ev -> handleEvent ev c = Ok (tt, c') -> reachable c'.

Lemma reachable_good c :
  reachable c -> exists n vs ds, good vals E c vs ds /\ steps_to vals E (initial_node n) (abs c vs ds).
Proof.
  induction 1 as [rebroadcast c Hs|c ev c' _ (n & vs & ds & Hg & Hs) Hev Hc].
  - exact (wp_Ok _ _ _ _ _ (Start_reach vals E rebroadcast) Hs).
  - destruct (wp_Ok _ _ _ _ _ (handleEvent_reach vals E c vs ds ev Hg Hev) Hc) as (vs' & ds' & Hg' & Hs').
    exists n, vs', ds'. split; [done|by eapply rtc_trans].
Qed.

Lemma reachable_inv c :
  reachable c -> exists vs ds, good vals E c vs ds /\ node_inv vals E (abs c vs ds).
Proof.
  intros (n & vs & ds & Hg & Hs)%reachable_good. exists vs, ds. split; [done|].
  eapply steps_inv; [exact Hs|apply initial_inv].
Qed.
End one_node.

(** ** The wire form of votes *)
Section wire.
Context `{C : Crypto} {CL : CryptoLaws C} {B : Backend}.

Lemma length_four a b c d n :
  (length (ref_encode a) + length (ref_encode b) + length (ref_encode c) + length (ref_encode d) <= n)%nat ->
  Z.of_nat n < 2 ^ 63 -> (length (ref_encode (GList [a; b; c; d])) <= n + 9)%nat.
Proof.
  intros Hl Hn.
  change (ref_encode (GList [a; b; c; d])) with (ref_list (ref_encode a ++ ref_encode b ++ ref_encode c ++ ref_encode d ++ [])).
  etrans; [apply length_ref_list_le|]; rewrite !length_app; cbn [length]; lia.
Qed.

Lemma vote_size v :
  0 <= v_BlockNumber v < 2 ^ 64 -> (length (v_Seal v) <= 65)%nat ->
  (length (ref_encode (vote_gval v)) <= 500)%nat.
Proof.
  intros Hn Hs.
  assert (Hh : length (bytes_of (v_BlockHash v)) = 32%nat) by apply bytes_of_length.
  pose proof (BigBytes_length_bound (v_BlockNumber v) 8 ltac:(lia)) as Hb.
  pose proof (length_FormatInt (v_Round v)) as Hf.
  pose proof (length_ref_string_le (bytes_of (v_BlockHash v)) ltac:(lia)).
  pose proof (length_ref_string_le (BigBytes (v_BlockNumber v)) ltac:(lia)).
  pose proof (length_ref_string_le (FormatInt (v_Round v)) ltac:(lia)).
  pose proof (length_ref_string_le (v_Seal v) ltac:(lia)).
  etrans; [apply (length_four _ _ _ _ 400)|]; cbn [ref_encode default from_option id]; lia.
Qed.

Lemma message_size code data a sig :
  0 <= code < 2 ^ 64 -> (length data <= 500)%nat -> (length sig <= 65)%nat ->
  (length (ref_encode (message_gval (MkMessage code data a sig))) <= 800)%nat.
Proof.
  intros Hc Hd Hs.
  assert (Ha : length (bytes_of a) = 20%nat) by apply bytes_of_length.
  pose proof (BigBytes_length_bound code 8 ltac:(lia)) as Hb.
  pose proof (length_ref_string_le (BigBytes code) ltac:(lia)).
  pose proof (length_ref_string_le data ltac:(lia)).
  pose proof (length_ref_string_le (bytes_of a) ltac:(lia)).
  pose proof (length_ref_string_le sig ltac:(lia)).
  etrans; [apply (length_four _ _ _ _ 700)|]; cbn [message_gval m_Code m_Msg m_Address m_Signature ref_encode]; lia.
Qed.

(** A broadcast vote decodes to what was voted. *)
Lemma vote_payload_decodes code block n r p m v :
  code = msgPrevote \/ code = msgPrecommit -> in_range (AVote code n r (vote_hash block)) ->
  vote_payload code block n r = Some p -> decode_message p = inr m -> decode_vote (m_Msg m) = inr v ->
  v_BlockNumber v = n /\ v_Round v = r /\ v_BlockHash v = vote_hash block.
Proof.
  intros Hc [Hn Hr] Hp Hm Hv. cbn in Hn, Hr. unfold vote_payload in Hp.
  assert (Hmade : exists seal, (length seal <= 65)%nat /\
    match encode (vote_gval (MkVote (vote_hash block) n r seal)) with
    | inr msgData => match FinalizeMsg code msgData with inl _ => None | inr payload => Some payload end
    | inl _ => None end = Some p).
  { destruct block as [b|]; [|exists []; split; [simpl; lia|by destruct (encode _)]].
    destruct (be_Sign _) as [seal|] eqn:Es; [|done]. exists seal. apply sign_length in Es. split; [lia|].
    cbn [vote_hash]. by destruct (encode _). }
  destruct Hmade as (seal & Hseal & Hmade). clear Hp.
  set (vt := MkVote (vote_hash block) n r seal) in *.
  pose proof (vote_size vt Hn Hseal) as Hsz.
  assert (Hok : vote_ok vt = true) by (unfold vote_ok, is_int64b, is_int64 in *; cbn; lia).
  rewrite (encode_ty _ _ (vote_has_ty vt Hok) ltac:(lia)) in Hmade.
  unfold FinalizeMsg in Hmade. destruct (PayLoadWithoutSignature _); [done|].
  destruct (be_Sign _) as [sig|] eqn:Es; [|done]. apply sign_length in Es.
  set (msg := MkMessage code _ _ sig) in *.
  assert (Hcode : 0 <= code < 2 ^ 64) by (destruct Hc as [-> | ->]; unfold msgPrevote, msgPrecommit; lia).
  pose proof (message_size code (ref_encode (vote_gval vt)) be_Address sig Hcode Hsz ltac:(lia)) as Hms.
  assert (Hmok : message_ok msg = true) by (unfold message_ok; cbn; lia).
  rewrite (encode_ty _ _ (message_has_ty msg Hmok) ltac:(fold msg in Hms; lia)) in Hmade.
  apply (inj Some) in Hmade as <-.
  rewrite (decode_message_encode msg Hmok ltac:(fold msg in Hms; lia)) in Hm. apply (inj inr) in Hm as <-.
  cbn [m_Msg msg] in Hv. rewrite (decode_vote_encode vt Hok ltac:(lia)) in Hv. by apply (inj inr) in Hv as <-.
Qed.
End wire.

(** ** A network of nodes *)
Section mono.
Context `{C : Crypto} {B : Backend} {Q : PriorityQueue} {QL : PriorityQueueLaws Q}.
Context (vals : Z -> ValidatorSet) (E E' : evidence) (Hsub : ev_sub E E').

Lemma set_ok_mono n code r ms : set_ok vals E n code r ms -> set_ok vals E' n code r ms.
Proof. intros []. constructor; eauto. Qed.

Lemma trusted_mono m : trusted E m -> trusted E' m.
Proof. intros Ht m' Hw a v H1 H2 H3. by apply Hsub, (Ht m' Hw). Qed.

Lemma good_mono c vs ds : good vals E c vs ds -> good vals E' c vs ds.
Proof.
  intros [[Hst Hr Hv Hpv Hpc Hl Hp Hq Hf Hh] Hlog]. split; [|done]. constructor; try done.
  - intros r ms Hms. by apply set_ok_mono, Hpv.
  - intros r ms Hms. by apply set_ok_mono, Hpc.
  - intros it Hit. by apply trusted_mono, Hq.
Qed.
End mono.

Section network.
Context `{C : Crypto} {CL : CryptoLaws C} {Q : PriorityQueue} {QL : PriorityQueueLaws Q}.
Context (vals : Z -> ValidatorSet) (honest : gset Address) (backend : Address -> Backend).
Context (BL : forall a, a ∈ honest -> BackendLaws (backend a) vals).

(** The states of the correct nodes that have started. *)
Abbreviation network := (gmap Address core).

(** Signatures are not forged: a delivered vote that a correct node signed is one it has
    broadcast. *)
Definition unforged (net : network) (payload : bytes) : Prop :=
  forall m m' a v, decode_message payload = inr m -> within m m' -> a ∈ honest ->
    GetAddressFromSignature m' = inr a -> m_Code m' = msgPrevote \/ m_Code m' = msgPrecommit ->
    decode_vote (m_Msg m') = inr v ->
    exists c p sent, net !! a = Some c /\
      EBroadcast (v_BlockNumber v) (v_Round v) (m_Code m') p ∈ c_log c /\
      decode_message p = inr sent /\ m_Code sent = m_Code m' /\ m_Msg sent = m_Msg m'.

(** A final block is in the chain of the node. *)
Definition deliverable (a : Address) (net : network) (c : core) (ev : event) : Prop :=
  match ev with
  | FinalCommittedEvent n => forall k x, (c_calls c <= k)%nat -> head_number (B := backend a) k x -> n <= x
  | MessageEvent payload => unforged net payload
  | _ => True
  end.

Inductive run : network -> Prop :=
  | run_empty : run ∅
  | run_start net a rebroadcast c :
      run net -> a ∈ honest -> net !! a = None ->
      Start (B := backend a) (New_core rebroadcast) = Ok (tt, c) -> run (<[a := c]> net)
  | run_event net a c ev c' :
      run net -> net !! a = Some c -> deliverable a net c ev ->
      handleEvent (B := backend a) ev c = Ok (tt, c') -> run (<[a := c']> net).

(** The network follows the history [h]. *)
Definition follows (net : network) (h : hist) : Prop :=
  history vals honest h /\
  (forall a v, (a, v) ∈ h -> is_Some (net !! a)) /\
  forall a c, net !! a = Some c -> a ∈ honest /\ exists ds,
    good (B := backend a) vals (E_of honest h) c (votes_of a h) ds /\
    node_inv vals (E_of honest h) (abs c (votes_of a h) ds).

Lemma votes_of_app a h h' : votes_of a (h ++ h') = votes_of a h ++ votes_of a h'.
Proof. unfold votes_of. by rewrite filter_app, fmap_app. Qed.

Lemma votes_of_own a vs : votes_of a (pair a <$> vs) = vs.
Proof.
  unfold votes_of. induction vs as [|v vs IH]; [done|]. csimpl. rewrite filter_cons_True by done.
  csimpl. by rewrite IH.
Qed.

Lemma votes_of_other a b vs : a <> b -> votes_of b (pair a <$> vs) = [].
Proof.
  intros Hne. unfold votes_of. induction vs as [|v vs IH]; [done|]. csimpl. by rewrite filter_cons_False.
Qed.

(** New votes of one node extend the history. *)
Lemma history_extend a new h :
  a ∈ honest -> history vals honest h ->
  all_justified vals (E_of honest h) (new ++ votes_of a h) -> history vals honest ((pair a <$> new) ++ h).
Proof.
  intros Ha Hh. induction new as [|v new IH]; [done|]. intros [Hj Hr]. csimpl. split; [done|].
  split; [|by apply IH]. rewrite votes_of_app, votes_of_own. eapply justified_mono; [|exact Hj].
  apply E_of_mono. set_solver.
Qed.

Lemma follows_insert net h a c new ds :
  follows net h -> a ∈ honest ->
  good (B := backend a) vals (E_of honest h) c (new ++ votes_of a h) ds ->
  node_inv vals (E_of honest h) (abs c (new ++ votes_of a h) ds) ->
  follows (<[a := c]> net) ((pair a <$> new) ++ h).
Proof.
  intros (Hh & Hdom & Hnodes) Ha Hg Hinv.
  assert (Hmono : ev_sub (E_of honest h) (E_of honest ((pair a <$> new) ++ h))) by (apply E_of_mono; set_solver).
  split; [apply history_extend; [done|done|apply Hinv]|]. split.
  - intros b v [Hin|Hin]%elem_of_app.
    + apply list_elem_of_fmap in Hin as (w & [= -> ->] & _). rewrite lookup_insert_eq. eauto.
    + destruct (decide (a = b)) as [->|]; [rewrite lookup_insert_eq; eauto|]. rewrite lookup_insert_ne by done. by eapply Hdom.
  - intros b c'. rewrite lookup_insert_Some. intros [[<- <-]|[Hne Hb]].
    + split; [done|]. exists ds. rewrite votes_of_app, votes_of_own.
      split; [by eapply good_mono|by eapply node_inv_mono].
    + destruct (Hnodes b c' Hb) as (Hbh & ds' & Hgb & Hib). split; [done|]. exists ds'.
      rewrite votes_of_app, votes_of_other by done. split; [by eapply good_mono|by eapply node_inv_mono].
Qed.

(** What is delivered is evidence of the history. *)
Lemma deliverable_ok net h a c ev :
  follows net h -> deliverable a net c ev -> event_ok (B := backend a) (E_of honest h) c ev.
Proof.
  intros (Hh & _ & Hnodes) Hd. destruct ev as [b|payload|ti|n|msg|step round|]; try done. cbn in *.
  intros m Hm m' Hw b v Hsig Hcode Hv Hb Hr.
  destruct (Hd m m' b v Hm Hw Hb Hsig Hcode Hv) as (cb & p & sent & Hcb & Hin & Hp & Hcs & Hms).
  destruct (Hnodes b cb Hcb) as (_ & ds & [_ [Hlog _]] & _).
  assert (Hvote : (v_BlockNumber v, v_Round v, m_Code m', p) ∈ omap vote_of (c_log cb)).
  { apply list_elem_of_omap. eexists. split; [exact Hin|]. by apply vote_of_vote. }
  apply list_elem_of_lookup in Hvote as [i Hi].
  destruct (Forall2_lookup_l _ _ _ _ _ Hlog Hi) as (w & Hw' & block & Hpay & ->).
  apply list_elem_of_lookup_2, elem_of_votes_of in Hw'. rewrite <- Hms in Hv.
  destruct (vote_payload_decodes (B := backend b) _ _ _ _ _ _ _ Hcode Hr Hpay Hp Hv) as (_ & _ & ->). done.
Qed.

Lemma run_follows net : run net -> exists h, follows net h.
Proof.
  induction 1 as [|net a rb c _ [h Hf] Ha Hnone Hs|net a c ev c' _ [h Hf] Hc Hd Hev].
  - exists []. split; [done|]. split; [intros a v Hin; by apply elem_of_nil in Hin|].
    intros a c Hc. by rewrite lookup_empty in Hc.
  - pose proof (BL a Ha) as Hbl.
    destruct (wp_Ok _ _ _ _ _ (Start_reach (B := backend a) vals (E_of honest h) rb) Hs) as (n & vs & ds & Hg & Hst).
    assert (Hemp : votes_of a h = []).
    { destruct (votes_of a h) as [|v l] eqn:Ev; [done|]. exfalso.
      assert (Hin : v ∈ votes_of a h) by (rewrite Ev; by left).
      apply elem_of_votes_of in Hin. destruct Hf as (_ & Hdom & _). apply Hdom in Hin. rewrite Hnone in Hin. by destruct Hin. }
    exists ((pair a <$> vs) ++ h). apply (follows_insert _ _ _ _ _ ds Hf Ha); rewrite Hemp, app_nil_r; [done|].
    eapply steps_inv; [exact Hst|apply initial_inv].
  - destruct Hf as (Hh & Hdom & Hnodes). destruct (Hnodes a c Hc) as (Ha & ds & Hg & Hinv). pose proof (BL a Ha) as Hbl.
    assert (Hf : follows net h) by done.
    pose proof (deliverable_ok net h a c ev Hf Hd) as Hok.
    destruct (wp_Ok _ _ _ _ _ (handleEvent_reach (B := backend a) vals (E_of honest h) c _ ds ev Hg Hok) Hev)
      as (vs' & ds' & Hg' & Hst).
    destruct (steps_grow _ _ _ _ Hst) as [[new Hnew] _]. cbn in Hnew. subst vs'.
    exists ((pair a <$> new) ++ h). apply (follows_insert _ _ _ _ _ ds' Hf Ha); [done|].
    eapply steps_inv; [exact Hst|done].
Qed.
End network.

(** ** Properties of one node *)
Section node_properties.
Context `{C : Crypto} {B : Backend} {Q : PriorityQueue} {QL : PriorityQueueLaws Q}.
Context (vals : Z -> ValidatorSet) (E : evidence) {BL : BackendLaws B vals}.

(** The kind of a broadcast vote: height, round and code. *)
Definition slot_of (x : Z * Z * Z * bytes) : Z * Z * Z := x.1.

Lemma vote_rel_slot x v : vote_rel x v -> slot_of x = (av_height v, av_round v, av_code v).
Proof. destruct x as [[[n r] code] p]. by intros (b & _ & ->). Qed.

Lemma votes_NoDup (E' : evidence) xs vs :
  Forall2 vote_rel xs vs -> all_justified vals E' vs -> NoDup (slot_of <$> xs).
Proof.
  induction 1 as [|x v xs vs Hx Hxs IH]; [constructor|]. intros [Hj Hr]. csimpl. constructor; [|by apply IH].
  intros (y & Hy & Hin)%list_elem_of_fmap. apply list_elem_of_lookup in Hin as [i Hi].
  destruct (Forall2_lookup_l _ _ _ _ _ Hxs Hi) as (w & Hw & Hyw).
  apply (just_once _ _ _ _ Hj w); [by eapply list_elem_of_lookup_2|].
  rewrite (vote_rel_slot _ _ Hx), (vote_rel_slot _ _ Hyw) in Hy. injection Hy as H1 H2 H3. by repeat split.
Qed.

(** The justification of one of the votes. *)
Lemma justified_at xs1 x xs2 vs :
  Forall2 vote_rel (xs1 ++ x :: xs2) vs -> all_justified vals E vs ->
  exists v vs2, vote_rel x v /\ Forall2 vote_rel xs2 vs2 /\ justified vals E v vs2.
Proof.
  revert vs. induction xs1 as [|y xs1 IH]; intros vs Hr Hj; simpl in Hr.
  - apply Forall2_cons_inv_l in Hr as (v & vs2 & Hv & Hr & ->). destruct Hj. eauto.
  - apply Forall2_cons_inv_l in Hr as (v & vs2 & Hv & Hr & ->). destruct Hj. by apply (IH vs2).
Qed.

(** The decision of a committed block. *)
Lemma commit_in_log c ds b :
  Forall2 commit_rel (omap commit_of (c_log c)) ds -> ECommit b ∈ c_log c -> exists d, d ∈ ds /\ commit_rel b d.
Proof.
  intros Hd Hin. assert (Hb : b ∈ omap commit_of (c_log c)) by (apply list_elem_of_omap; by exists (ECommit b)).
  apply list_elem_of_lookup in Hb as [i Hi]. destruct (Forall2_lookup_l _ _ _ _ _ Hd Hi) as (d & Hd' & Hr).
  exists d. split; [by eapply list_elem_of_lookup_2|done].
Qed.

(** C2: the consensus core refines the specification of a correct validator. Whatever
    messages, timeouts and blocks a node handles after it has started, its state is the
    image of a state the specification reaches, and the votes it has broadcast and the
    blocks it has committed are those of the specification. *)
Theorem core_refines_spec (c : core) :
  reachable E c ->
  exists n vs ds, steps_to vals E (initial_node n) (abs c vs ds) /\
    Forall2 vote_rel (omap vote_of (c_log c)) vs /\ Forall2 commit_rel (omap commit_of (c_log c)) ds.
Proof. intros (n & vs & ds & [_ [Hv Hd]] & Hs)%(reachable_good vals E). by exists n, vs, ds. Qed.

(** C4: a node never equivocates. Whatever it receives, it broadcasts at most one prevote
    and at most one precommit in each round of each height. *)
Theorem no_double_vote (c : core) :
  reachable (fun _ _ => True) c -> NoDup (slot_of <$> omap vote_of (c_log c)).
Proof.
  intros (vs & ds & [_ [Hv _]] & Hi)%(reachable_inv vals _). eapply votes_NoDup; [exact Hv|exact (inv_justified _ _ _ Hi)].
Qed.


(** C6: a node commits only what a quorum precommitted. A committed block is a proposed
    block of some height with the committed seals written into it, and two thirds of the
    validators of the height precommitted it in one round. *)
Theorem commit_has_quorum (c : core) b :
  reachable E c -> ECommit b ∈ c_log c ->
  exists n r p seals hd, Block_Number p = Some n /\ committed vals E n r (Block_Hash p) /\
    Block_Hash p <> zeroHash /\ WriteCommittedSeals (Block_Header p) seals = inr hd /\ b = WithSeal p hd.
Proof.
  intros (vs & ds & [_ [_ Hd]] & Hi)%(reachable_inv vals E) Hin.
  destruct (commit_in_log _ _ _ Hd Hin) as ([n h] & Hin' & p & seals & hd & Hn & Hh & Hw & Hb). cbn in *. subst h.
  destruct (inv_decided _ _ _ Hi n _ Hin') as (Hz & r & _ & Hc). by exists n, r, p, seals, hd.
Qed.
End node_properties.

(** ** Agreement *)
Section agreement.
Context `{C : Crypto} {CL : CryptoLaws C} {Q : PriorityQueue} {QL : PriorityQueueLaws Q}.
Context (vals : Z -> ValidatorSet) (honest : gset Address) (backend : Address -> Backend).

Lemma committed_in_run h net a c b :
  follows vals honest backend net h -> net !! a = Some c -> ECommit b ∈ c_log c ->
  exists n r p seals hd, Block_Number p = Some n /\ is_int64 r /\ Block_Hash p <> zeroHash /\
    committed vals (E_of honest h) n r (Block_Hash p) /\
    WriteCommittedSeals (Block_Header p) seals = inr hd /\ b = WithSeal p hd.
Proof.
  intros (_ & _ & Hnodes) Hc Hin. destruct (Hnodes a c Hc) as (_ & ds & [_ [_ Hd]] & Hi).
  destruct (commit_in_log _ _ _ Hd Hin) as ([n h'] & Hin' & p & seals & hd & Hn & Hh & Hw & Hb). cbn in *. subst h'.
  destruct (inv_decided _ _ _ Hi n _ Hin') as (Hz & r & Hr & Hcm). by exists n, r, p, seals, hd.
Qed.

Lemma sealed_Number p seals hd :
  WriteCommittedSeals (Block_Header p) seals = inr hd -> forall n, Block_Number p = Some n ->
  Block_Number (WithSeal p hd) = Some n.
Proof.
  intros Hw%WriteCommittedSeals_Extra n Hn. unfold Block_Number, WithSeal, Block_Header in *. cbn. rewrite Hw.
  cbn. by rewrite Hn.
Qed.

(** C1: agreement. In a network in which at most [F] of the validators of a height are
    faulty, and nobody forges signatures, any two blocks of that height that correct
    nodes commit were made of proposals with the same hash; when their headers are
    Tendermint headers of a possible size the committed blocks have the same hash too. *)
Theorem agreement (net : gmap Address core) a1 a2 c1 c2 b1 b2 n :
  (forall a, a ∈ honest -> BackendLaws (backend a) vals) ->
  run honest backend net -> few_faulty vals honest n ->
  net !! a1 = Some c1 -> net !! a2 = Some c2 ->
  ECommit b1 ∈ c_log c1 -> ECommit b2 ∈ c_log c2 ->
  Block_Number b1 = Some n -> Block_Number b2 = Some n ->
  exists p1 p2 seals1 seals2 hd1 hd2,
    WriteCommittedSeals (Block_Header p1) seals1 = inr hd1 /\ b1 = WithSeal p1 hd1 /\
    WriteCommittedSeals (Block_Header p2) seals2 = inr hd2 /\ b2 = WithSeal p2 hd2 /\
    Block_Hash p1 = Block_Hash p2 /\
    (sealable (b_header p1) seals1 -> sealable (b_header p2) seals2 -> Block_Hash b1 = Block_Hash b2).
Proof.
  intros BL Hrun Hf Hc1 Hc2 Hb1 Hb2 Hn1 Hn2. destruct (run_follows vals honest backend BL net Hrun) as [h Hh].
  destruct (committed_in_run h net a1 c1 b1 Hh Hc1 Hb1) as (m1 & r1 & p1 & seals1 & hd1 & Hm1 & Hr1 & Hz1 & Q1 & Hw1 & ->).
  destruct (committed_in_run h net a2 c2 b2 Hh Hc2 Hb2) as (m2 & r2 & p2 & seals2 & hd2 & Hm2 & Hr2 & Hz2 & Q2 & Hw2 & ->).
  rewrite (sealed_Number _ _ _ Hw1 _ Hm1) in Hn1. rewrite (sealed_Number _ _ _ Hw2 _ Hm2) in Hn2.
  simplify_eq. destruct Hh as [Hh _].
  assert (Heq : Block_Hash p1 = Block_Hash p2).
  { destruct (Z.le_ge_cases r1 r2); [|symmetry]; by eapply committed_unique. }
  exists p1, p2, seals1, seals2, hd1, hd2. split_and!; try done.
  intros H1 H2. unfold Block_Hash, WithSeal in *. cbn [b_header].
  by rewrite (sealed_Hash _ _ _ Hw1 H1), (sealed_Hash _ _ _ Hw2 H2).
Qed.
End agreement.
