(* ===== verification/Signing.v ===== *)
(** * Signatures of transactions

    Models [src/core/types/transaction_signing.go] and, of
    [src/core/types/transaction.go], the construction of transactions, their signatures
    and the messages made of them. A transaction has two signatures: the sender's, and one
    of a provider who pays for the gas. *)

From S2P Require Import Prelude Bytes RlpEncode RlpDecode RlpCanonical RlpRaw Types Params EvmData Fallible StateDB EvmCore Precompiled.

(** ** Transactions *)
Definition newTransaction (nonce : Z) (to : option Address) (amount : option Z) (gasLimit : Z) (gasPrice : option Z)
    (data : bytes) : Transaction :=
  MkTxdata nonce (Some (default 0 gasPrice)) gasLimit to (Some (default 0 amount)) data None None
    (Some 0) (Some 0) (Some 0) None None None.

Definition NewTransaction (nonce : Z) (to : Address) (amount : option Z) (gasLimit : Z) (gasPrice : option Z)
    (data : bytes) : Transaction := newTransaction nonce (Some to) amount gasLimit gasPrice data.

Definition set_parties (owner provider : option Address) (t : Transaction) : Transaction :=
  MkTxdata (tx_AccountNonce t) (tx_Price t) (tx_GasLimit t) (tx_Recipient t) (tx_Amount t) (tx_Payload t) owner provider
    (tx_V t) (tx_R t) (tx_S t) (tx_PV t) (tx_PR t) (tx_PS t).

Definition NewContractCreation (nonce : Z) (amount : option Z) (gasLimit : Z) (gasPrice : option Z) (data : bytes)
    (opts : option (option Address * option Address)) : Transaction :=
  let tx := newTransaction nonce None amount gasLimit gasPrice data in
  match opts with
  | Some (owner, provider) => set_parties owner provider tx
  | None => tx
  end.

Definition set_signature (v r s : option Z) (t : Transaction) : Transaction :=
  MkTxdata (tx_AccountNonce t) (tx_Price t) (tx_GasLimit t) (tx_Recipient t) (tx_Amount t) (tx_Payload t)
    (tx_Owner t) (tx_Provider t) v r s (tx_PV t) (tx_PR t) (tx_PS t).

Definition set_provider_signature (v r s : option Z) (t : Transaction) : Transaction :=
  MkTxdata (tx_AccountNonce t) (tx_Price t) (tx_GasLimit t) (tx_Recipient t) (tx_Amount t) (tx_Payload t)
    (tx_Owner t) (tx_Provider t) (tx_V t) (tx_R t) (tx_S t) v r s.

(** [Cost] and [TransactionFee] panic without a price or an amount: [None]. *)
Definition TransactionFee (t : Transaction) : option Z := p ← tx_Price t; Some (p * tx_GasLimit t).
Definition Cost (t : Transaction) : option Z := fee ← TransactionFee t; a ← tx_Amount t; Some (fee + a).

(** ** The values of a signature *)
Definition isProtectedV (V : Z) : bool :=
  if big_BitLen V <=? 8 then let v := big_Uint64 V in negb (v =? 27) && negb (v =? 28)
  else true.

Definition deriveChainId (v : Z) : Z :=
  if big_BitLen v <=? 64 then
    let v := big_Uint64 v in
    if (v =? 27) || (v =? 28) then 0 else uint64 (v - 35) / 2
  else (v - 35) / 2.

(** ** Signers *)
Inductive Signer : Type :=
  | EIP155Signer (chainId chainIdMul : Z)
  | HomesteadSigner
  | FrontierSigner.

Definition NewEIP155Signer (chainId : option Z) : Signer :=
  let chainId := default 0 chainId in EIP155Signer chainId (chainId * 2).

Definition MakeSigner (config : ChainConfig) (blockNumber : Z) : Signer :=
  if IsEIP155 config blockNumber then NewEIP155Signer (cc_ChainID config)
  else if IsHomestead config blockNumber then HomesteadSigner
  else FrontierSigner.

Definition signer_Equal (s s2 : Signer) : bool :=
  match s, s2 with
  | EIP155Signer c _, EIP155Signer c2 _ => c2 =? c
  | HomesteadSigner, HomesteadSigner => true
  | FrontierSigner, FrontierSigner => true
  | _, _ => false
  end.

(** A function that may panic, on a state. *)
Definition embed {S A} (r : res A) : M S A := fun s =>
  match r with Ok a => Ok (a, s) | Panic => Panic | OutOfFuel => OutOfFuel end.

Section signing.
Context `{C : Crypto} {N : NativeCrypto}.

(** What is signed: the owner and the provider only when there is a provider. *)
Definition signed_fields (t : Transaction) : list gval :=
  [GUint (tx_AccountNonce t); GBigInt (tx_Price t); GUint (tx_GasLimit t); optaddr_gval (tx_Recipient t);
   GBigInt (tx_Amount t); GBytes (tx_Payload t)] ++
  match tx_Provider t with
  | None => []
  | Some p => [optaddr_gval (tx_Owner t); optaddr_gval (Some p)]
  end.

Definition signed_value (s : Signer) (t : Transaction) : gval :=
  GList (signed_fields t ++
         match s with
         | EIP155Signer chainId _ => [GBigInt (Some chainId); GUint 0; GUint 0]
         | _ => []
         end).

Definition signer_Hash (s : Signer) (t : Transaction) : Hash := rlpHash (signed_value s t).

Definition recoverPlain (sighash : Hash) (R S Vb : option Z) (homestead : bool) : fallible Address :=
  match Vb with
  | None => fail ErrInvalidSig
  | Some Vb =>
      if 8 <? big_BitLen Vb then fail ErrInvalidSig
      else
        let V := uint64 (big_Uint64 Vb - 27) mod 2 ^ 8 in
        R ← raise R;
        if R <? 1 then fail ErrInvalidSig
        else
          S ← raise S;
          if negb (ValidateSignatureValues V R S homestead) then fail ErrInvalidSig
          else
            let sig := LeftPadBytes (BigBytes R) 32 ++ LeftPadBytes (BigBytes S) 32 ++ [byte_of_Z V] in
            match crypto_Ecrecover (bytes_of sighash) sig with
            | None => fail ErrRecoverPublicKey
            | Some pub =>
                if negb (Z_of_byte (default (byte_of_Z 0) (bytes_of pub !! 0%nat)) =? 4) then fail ErrInvalidPublicKey
                else mret (BytesToAddress (drop 12 (bytes_of (keccak256 (drop 1 (bytes_of pub))))))
            end
  end.

(** [Sender] and [Provider] of the signers. The chain of the provider's signature is that
    of the sender's. *)
Definition signer_Sender (s : Signer) (t : Transaction) : fallible Address :=
  match s with
  | EIP155Signer chainId chainIdMul =>
      V ← raise (tx_V t);
      if negb (isProtectedV V) then recoverPlain (signer_Hash HomesteadSigner t) (tx_R t) (tx_S t) (tx_V t) true
      else if negb (deriveChainId V =? chainId) then fail ErrInvalidChainId
      else recoverPlain (signer_Hash s t) (tx_R t) (tx_S t) (Some (V - chainIdMul - 8)) true
  | HomesteadSigner => recoverPlain (signer_Hash s t) (tx_R t) (tx_S t) (tx_V t) true
  | FrontierSigner => recoverPlain (signer_Hash s t) (tx_R t) (tx_S t) (tx_V t) false
  end.

Definition signer_Provider (s : Signer) (t : Transaction) : fallible Address :=
  match s with
  | EIP155Signer chainId chainIdMul =>
      PV ← raise (tx_PV t);
      if negb (isProtectedV PV) then recoverPlain (signer_Hash HomesteadSigner t) (tx_PR t) (tx_PS t) (tx_PV t) true
      else
        V ← raise (tx_V t);
        if negb (deriveChainId V =? chainId) then fail ErrInvalidChainId
        else recoverPlain (signer_Hash s t) (tx_PR t) (tx_PS t) (Some (PV - chainIdMul - 8)) true
  | HomesteadSigner => recoverPlain (signer_Hash s t) (tx_PR t) (tx_PS t) (tx_PV t) true
  | FrontierSigner => recoverPlain (signer_Hash s t) (tx_PR t) (tx_PS t) (tx_PV t) false
  end.

(** [SignatureValues]: R, S and V *)
Definition SignatureValues (s : Signer) (sig : bytes) : fallible (Z * Z * Z) :=
  if negb (length sig =? 65)%nat then Panic
  else
    let v := Z_of_byte (default (byte_of_Z 0) (sig !! 64%nat)) in
    let V := match s with
             | EIP155Signer chainId chainIdMul =>
                 if negb (chainId =? 0) then (v + 35) mod 2 ^ 8 + chainIdMul else (v + 27) mod 2 ^ 8
             | _ => (v + 27) mod 2 ^ 8
             end in
    mret (SetBytes (take 32 sig), SetBytes (take 32 (drop 32 sig)), V).

Definition WithSignature (s : Signer) (sig : bytes) (t : Transaction) : fallible Transaction :=
  '(r, ss, v) ← SignatureValues s sig; mret (set_signature (Some v) (Some r) (Some ss) t).
Definition WithProviderSignature (s : Signer) (sig : bytes) (t : Transaction) : fallible Transaction :=
  '(r, ss, v) ← SignatureValues s sig; mret (set_provider_signature (Some v) (Some r) (Some ss) t).

Definition sign_hash (s : Signer) (t : Transaction) (k : PrivateKey) : fallible bytes :=
  match Sign (signer_Hash s t) k with Some sig => mret sig | None => fail ErrSign end.
Definition SignTx (s : Signer) (k : PrivateKey) (t : Transaction) : fallible Transaction :=
  sig ← sign_hash s t k; WithSignature s sig t.
Definition ProviderSignTx (s : Signer) (k : PrivateKey) (t : Transaction) : fallible Transaction :=
  sig ← sign_hash s t k; WithProviderSignature s sig t.

(** ** The parties of a transaction *)
Definition absent (v : option Z) : bool := match v with None => true | Some v => v =? 0 end.

Definition Provider (s : Signer) (t : Transaction) : fallible (option Address) :=
  if absent (tx_PV t) && absent (tx_PR t) && absent (tx_PS t) then mret None
  else
    provider ← signer_Provider s t;
    mret (if bool_decide (provider = zeroAddress) then None else Some provider).

(** [Sender] keeps the address it found with the signer it used. *)
Record CachedTx : Type := MkCachedTx { ct_data : Transaction; ct_from : option (Signer * Address) }.

Definition derive_sender (signer : Signer) (t : CachedTx) : M CachedTx (error + Address) :=
  r ← embed (signer_Sender signer (ct_data t));
  match r with
  | inl e => mret (inl e)
  | inr addr => modify (fun t => MkCachedTx (ct_data t) (Some (signer, addr)));; mret (inr addr)
  end.

Definition Sender (signer : Signer) : M CachedTx (error + Address) :=
  t ← get;
  match ct_from t with
  | Some (s, from) => if signer_Equal s signer then mret (inr from) else derive_sender signer t
  | None => derive_sender signer t
  end.

Definition SignedProvider (s : Signer) (t : Transaction) : res (option Address) :=
  match Provider s t with
  | Ok (inr p) => Ok p
  | Ok (inl _) => Ok None
  | Panic => Panic
  | OutOfFuel => OutOfFuel
  end.

(** ** Messages *)
Record Message : Type := MkMessage {
  msg_to : option Address;
  msg_from : Address;
  msg_owner : option Address;
  msg_provider : option Address;
  msg_nonce : Z;
  msg_amount : option Z;
  msg_gasLimit : Z;
  msg_gasPrice : Z;
  msg_data : bytes;
  msg_checkNonce : bool;
  msg_gasPayer : Address
}.

Definition NewMessage (from : Address) (to : option Address) (nonce : Z) (amount : option Z) (gasLimit gasPrice : Z)
    (data : bytes) (checkNonce : bool) : Message :=
  MkMessage to from None None nonce amount gasLimit gasPrice data checkNonce from.

(** [AsMessage]; without a price it panics. Whoever made the provider's signature pays for
    the gas. *)
Definition AsMessage (s : Signer) (t : Transaction) : fallible Message :=
  gasPrice ← raise (tx_Price t);
  from ← signer_Sender s t;
  provider ← Provider s t;
  mret (MkMessage (tx_Recipient t) from (tx_Owner t) (tx_Provider t) (tx_AccountNonce t) (tx_Amount t) (tx_GasLimit t)
          gasPrice (tx_Payload t) true (default from provider)).

Definition GasPayer (s : Signer) (t : Transaction) : res Address :=
  match SignedProvider s t with
  | Ok (Some p) => Ok p
  | Ok None =>
      match signer_Sender s t with
      | Ok (inr from) => Ok from
      | Ok (inl _) => Ok zeroAddress
      | Panic => Panic
      | OutOfFuel => OutOfFuel
      end
  | Panic => Panic
  | OutOfFuel => OutOfFuel
  end.
End signing.
