(* ===== verification/TxList.v ===== *)
(** * Lists of transactions of the pool

    Models [src/core/tx_list.go]: the transactions of an account by nonce, with a heap of the
    nonces and a cache of the sorted transactions, the lists of the pool made of them, and
    the heap of all transactions by price. *)

From S2P Require Import Prelude Heap Bytes RlpEncode RlpDecode RlpCanonical RlpRaw Types Params EvmData Fallible StateDB EvmCore Precompiled Signing.

(** A pointer to a transaction may be nil where a map is read. *)
Abbreviation pointers := (list (option Transaction)).

(** ** Transactions by nonce *)
Record txSortedMap : Type := MkSortedMap {
  sm_items : gmap Z Transaction;
  sm_index : list Z;
  sm_cache : option (list Transaction)
}.

Definition newTxSortedMap : txSortedMap := MkSortedMap ∅ [] None.

(** [sort.Sort] on [TxByNonce] *)
Definition nonce_le (t t' : Transaction) : Prop := tx_AccountNonce t <= tx_AccountNonce t'.
#[export] Instance nonce_le_dec : RelDecision nonce_le := fun t t' => Z_le_dec _ _.

Section sorted_map.
(** The order in which Go ranges over a map. *)
Context (item_order : gmap Z Transaction -> list (Z * Transaction)).

Definition sm_Get (nonce : Z) (m : txSortedMap) : option Transaction := sm_items m !! nonce.

Definition sm_Put (tx : Transaction) (m : txSortedMap) : txSortedMap :=
  let nonce := tx_AccountNonce tx in
  MkSortedMap (<[nonce := tx]> (sm_items m))
    (match sm_items m !! nonce with
     | None => heap_Push Z.ltb nonce (sm_index m)
     | Some _ => sm_index m
     end) None.

(** One step of the loops that take transactions off the front. *)
Definition sm_pop (m : txSortedMap) : option (option Transaction * txSortedMap) :=
  '(nonce, index) ← heap_Pop Z.ltb (sm_index m);
  Some (sm_items m !! nonce, MkSortedMap (delete nonce (sm_items m)) index (sm_cache m)).

Fixpoint forward_loop (fuel : nat) (threshold : Z) (removed : pointers) : M txSortedMap pointers :=
  m ← get;
  match sm_index m with
  | [] => mret removed
  | x :: _ =>
      if x <? threshold then
        match fuel with
        | O => diverge
        | S fuel =>
            '(tx, m) ← deref (sm_pop m);
            modify (fun _ => m);;
            forward_loop fuel threshold (removed ++ [tx])
        end
      else mret removed
  end.

Definition sm_Forward (threshold : Z) : M txSortedMap pointers :=
  n ← gets (fun m => length (sm_index m));
  removed ← forward_loop n threshold [];
  m ← get;
  match sm_cache m with
  | None => mret removed
  | Some c =>
      if (length c <? length removed)%nat then panic
      else
        modify (fun m => MkSortedMap (sm_items m) (sm_index m) (Some (drop (length removed) c)));;
        mret removed
  end.

(** The heap is made anew from the map. *)
Definition reindex (m : txSortedMap) : txSortedMap :=
  MkSortedMap (sm_items m) (heap_Init Z.ltb (item_order (sm_items m)).*1) None.

Definition sm_RemoveTxs (nonces : list Z) (m : txSortedMap) : txSortedMap :=
  match nonces with
  | [] => m
  | _ => reindex (MkSortedMap (foldl (fun items n => delete n items) (sm_items m) nonces) (sm_index m) (sm_cache m))
  end.

(** The filter panics on a transaction without a price: [None]. *)
Fixpoint filter_loop (filter : Transaction -> option bool) (todo : list (Z * Transaction)) (removed : list Transaction) :
    M txSortedMap (list Transaction) :=
  match todo with
  | [] => mret removed
  | (nonce, tx) :: todo =>
      b ← deref (filter tx);
      if (b : bool) then
        modify (fun m => MkSortedMap (delete nonce (sm_items m)) (sm_index m) (sm_cache m));;
        filter_loop filter todo (removed ++ [tx])
      else filter_loop filter todo removed
  end.

Definition sm_Filter (filter : Transaction -> option bool) : M txSortedMap (list Transaction) :=
  todo ← gets (fun m => item_order (sm_items m));
  removed ← filter_loop filter todo [];
  when (0 <? length removed)%nat (modify reindex);;
  mret removed.

Fixpoint cap_loop (size : nat) (threshold : Z) (drops : pointers) : M txSortedMap pointers :=
  if threshold <? Z.of_nat size then
    match size with
    | O => panic
    | S size =>
        m ← get;
        nonce ← deref (sm_index m !! size);
        modify (fun m => MkSortedMap (delete nonce (sm_items m)) (sm_index m) (sm_cache m));;
        cap_loop size threshold (drops ++ [sm_items m !! nonce])
    end
  else mret drops.

Definition sm_Cap (threshold : Z) : M txSortedMap pointers :=
  n ← gets (fun m => size (sm_items m));
  if Z.of_nat n <=? threshold then mret []
  else
    modify (fun m => MkSortedMap (sm_items m) (merge_sort Z.le (sm_index m)) (sm_cache m));;
    drops ← cap_loop n threshold [];
    modify (fun m => MkSortedMap (sm_items m) (heap_Init Z.ltb (take (Z.to_nat threshold) (sm_index m))) (sm_cache m));;
    m ← get;
    match sm_cache m with
    | None => mret drops
    | Some c =>
        if (length c <? length drops)%nat then panic
        else
          modify (fun m => MkSortedMap (sm_items m) (sm_index m) (Some (take (length c - length drops) c)));;
          mret drops
    end.

Definition sm_Remove (nonce : Z) : M txSortedMap bool :=
  m ← get;
  match sm_items m !! nonce with
  | None => mret false
  | Some _ =>
      index ← match list_find (nonce =.) (sm_index m) with
              | Some (i, _) => '(_, index) ← deref (heap_Remove Z.ltb i (sm_index m)); mret index
              | None => mret (sm_index m)
              end;
      modify (fun m => MkSortedMap (delete nonce (sm_items m)) index None);;
      mret true
  end.

Fixpoint ready_loop (fuel : nat) (next : Z) (ready : pointers) : M txSortedMap pointers :=
  m ← get;
  match sm_index m with
  | [] => mret ready
  | x :: _ =>
      if x =? next then
        match fuel with
        | O => diverge
        | S fuel =>
            '(_, index) ← deref (heap_Pop Z.ltb (sm_index m));
            modify (fun m => MkSortedMap (delete next (sm_items m)) index (sm_cache m));;
            ready_loop fuel (uint64 (next + 1)) (ready ++ [sm_items m !! next])
        end
      else mret ready
  end.

Definition sm_Ready (start : Z) : M txSortedMap pointers :=
  m ← get;
  match sm_index m with
  | [] => mret []
  | x :: _ =>
      if start <? x then mret []
      else
        ready ← ready_loop (length (sm_index m)) x [];
        modify (fun m => MkSortedMap (sm_items m) (sm_index m) None);;
        mret ready
  end.

Definition sm_Len (m : txSortedMap) : nat := size (sm_items m).

Definition sm_Flatten : M txSortedMap (list Transaction) :=
  m ← get;
  match sm_cache m with
  | Some c => mret c
  | None =>
      let c := merge_sort nonce_le (item_order (sm_items m)).*2 in
      modify (fun m => MkSortedMap (sm_items m) (sm_index m) (Some c));;
      mret c
  end.
End sorted_map.

(** ** Lists of an account *)
Record txList : Type := MkTxList {
  tl_strict : bool;
  tl_txs : txSortedMap;
  tl_costcap : Z;
  tl_gascap : Z
}.

Definition newTxList (strict : bool) : txList := MkTxList strict newTxSortedMap 0 0.

Definition set_txs (m : txSortedMap) (l : txList) : txList := MkTxList (tl_strict l) m (tl_costcap l) (tl_gascap l).
Definition on_txs {A} (c : M txSortedMap A) : M txList A := zoom tl_txs set_txs c.

Section list.
Context (item_order : gmap Z Transaction -> list (Z * Transaction)).

Definition tl_Overlaps (tx : Transaction) (l : txList) : bool :=
  bool_decide (is_Some (sm_Get (tx_AccountNonce tx) (tl_txs l))).

(** The price a transaction with the same nonce must have. *)
Definition bumped (price priceBump : Z) : Z := price * int64 (100 + int64 priceBump) / 100.

Definition tl_Add (tx : Transaction) (priceBump : Z) : M txList (bool * option Transaction) :=
  l ← get;
  let old := sm_Get (tx_AccountNonce tx) (tl_txs l) in
  refused ← match old with
            | None => mret false
            | Some old =>
                old_price ← deref (tx_Price old);
                price ← deref (tx_Price tx);
                mret ((price <=? old_price) || (price <? bumped old_price priceBump))
            end;
  if (refused : bool) then mret (false, None)
  else
    modify (fun l => set_txs (sm_Put tx (tl_txs l)) l);;
    cost ← deref (Cost tx);
    modify (fun l => MkTxList (tl_strict l) (tl_txs l) (if tl_costcap l <? cost then cost else tl_costcap l)
                       (if tl_gascap l <? tx_GasLimit tx then tx_GasLimit tx else tl_gascap l));;
    mret (true, old).

Definition tl_Forward (threshold : Z) : M txList pointers := on_txs (sm_Forward threshold).

(** The lowest nonce of the transactions, and what is above a nonce. *)
Definition lowest_nonce (txs : list Transaction) : Z :=
  foldl (fun lowest tx => if tx_AccountNonce tx <? lowest then tx_AccountNonce tx else lowest) MaxUint64 txs.

Definition filter_above (nonce : Z) : M txSortedMap (list Transaction) :=
  sm_Filter item_order (fun tx => Some (nonce <? tx_AccountNonce tx)).

Definition tl_Filter (costLimit gasLimit : Z) : M txList (list Transaction * list Transaction) :=
  l ← get;
  if (tl_costcap l <=? costLimit) && (tl_gascap l <=? gasLimit) then mret ([], [])
  else
    modify (fun l => MkTxList (tl_strict l) (tl_txs l) costLimit gasLimit);;
    removed ← on_txs (sm_Filter item_order (fun tx => cost ← Cost tx; Some ((costLimit <? cost) || (gasLimit <? tx_GasLimit tx))));
    invalids ← (if tl_strict l && (0 <? length removed)%nat
                then on_txs (filter_above (lowest_nonce removed)) else mret []);
    mret (removed, invalids).

Definition tl_Cap (threshold : Z) : M txList pointers := on_txs (sm_Cap threshold).

Definition tl_Remove (tx : Transaction) : M txList (bool * list Transaction) :=
  let nonce := tx_AccountNonce tx in
  removed ← on_txs (sm_Remove nonce);
  if negb removed then mret (false, [])
  else
    strict ← gets tl_strict;
    if (strict : bool) then invalids ← on_txs (filter_above nonce); mret (true, invalids)
    else mret (true, []).

Definition tl_Ready (start : Z) : M txList pointers := on_txs (sm_Ready start).
Definition tl_Len (l : txList) : nat := sm_Len (tl_txs l).
Definition tl_Empty (l : txList) : bool := (tl_Len l =? 0)%nat.
Definition tl_Flatten : M txList (list Transaction) := on_txs (sm_Flatten item_order).
End list.

(** ** Local accounts and all transactions *)
Record accountSet : Type := MkAccountSet {
  as_accounts : gset Address;
  as_signer : Signer;
  as_cache : option (list Address)
}.

Definition newAccountSet (signer : Signer) : accountSet := MkAccountSet ∅ signer None.
Definition as_contains (addr : Address) (s : accountSet) : bool := bool_decide (addr ∈ as_accounts s).
Definition as_add (addr : Address) (s : accountSet) : accountSet :=
  MkAccountSet ({[addr]} ∪ as_accounts s) (as_signer s) None.
Definition as_flatten (address_order : gset Address -> list Address) : M accountSet (list Address) :=
  s ← get;
  match as_cache s with
  | Some l => mret l
  | None =>
      let l := address_order (as_accounts s) in
      modify (fun s => MkAccountSet (as_accounts s) (as_signer s) (Some l));;
      mret l
  end.

(** [txLookup] *)
Abbreviation txLookup := (gmap Hash Transaction).

(** ** Transactions by price

    The transactions of the pool have a price: the pool refuses to look at others. *)
Definition price_of (t : Transaction) : Z := default 0 (tx_Price t).

Definition price_less (t t' : Transaction) : bool :=
  match price_of t ?= price_of t' with
  | Lt => true
  | Gt => false
  | Eq => tx_AccountNonce t' <? tx_AccountNonce t
  end.

Record txPricedList : Type := MkPricedList {
  pl_items : list Transaction;
  pl_stales : Z
}.

Definition newTxPricedList : txPricedList := MkPricedList [] 0.

Section priced.
Context `{C : Crypto} {N : NativeCrypto}.
Context (hash_order : txLookup -> list (Hash * Transaction)).

Definition as_containsTx (tx : Transaction) (s : accountSet) : res bool :=
  match signer_Sender (as_signer s) tx with
  | Ok (inr addr) => Ok (as_contains addr s)
  | Ok (inl _) => Ok false
  | Panic => Panic
  | OutOfFuel => OutOfFuel
  end.

Definition pl_Put (tx : Transaction) (l : txPricedList) : txPricedList :=
  MkPricedList (heap_Push price_less tx (pl_items l)) (pl_stales l).

Definition pl_Removed (all : txLookup) (count : Z) (l : txPricedList) : txPricedList :=
  let stales := pl_stales l + count in
  if stales <=? Z.of_nat (length (pl_items l)) / 4 then MkPricedList (pl_items l) stales
  else MkPricedList (heap_Init price_less (hash_order all).*2) 0.

Definition pl_pop : M txPricedList Transaction :=
  l ← get;
  '(tx, items) ← deref (heap_Pop price_less (pl_items l));
  modify (fun l => MkPricedList items (pl_stales l));;
  mret tx.

Definition no_longer_stale : M txPricedList unit := modify (fun l => MkPricedList (pl_items l) (pl_stales l - 1)).
Definition put_back (save : list Transaction) : M txPricedList unit := modify (fun l => foldl (fun l tx => pl_Put tx l) l save).

Fixpoint price_cap_loop (fuel : nat) (all : txLookup) (threshold : Z) (locals : accountSet) (drop save : list Transaction) :
    M txPricedList (list Transaction * list Transaction) :=
  l ← get;
  match pl_items l, fuel with
  | [], _ => mret (drop, save)
  | _, O => diverge
  | _, S fuel =>
      tx ← pl_pop;
      match all !! Transaction_Hash tx with
      | None => no_longer_stale;; price_cap_loop fuel all threshold locals drop save
      | Some _ =>
          price ← deref (tx_Price tx);
          if threshold <=? price then mret (drop, save ++ [tx])
          else
            is_local ← embed (as_containsTx tx locals);
            if (is_local : bool) then price_cap_loop fuel all threshold locals drop (save ++ [tx])
            else price_cap_loop fuel all threshold locals (drop ++ [tx]) save
      end
  end.

Definition pl_Cap (all : txLookup) (threshold : Z) (locals : accountSet) : M txPricedList (list Transaction) :=
  n ← gets (fun l => length (pl_items l));
  '(drop, save) ← price_cap_loop n all threshold locals [] [];
  put_back save;;
  mret drop.

Fixpoint drop_stale (fuel : nat) (all : txLookup) : M txPricedList unit :=
  l ← get;
  match pl_items l with
  | [] => mret tt
  | head :: _ =>
      match all !! Transaction_Hash head, fuel with
      | Some _, _ => mret tt
      | None, O => diverge
      | None, S fuel => no_longer_stale;; pl_pop;; drop_stale fuel all
      end
  end.

Definition pl_Underpriced (all : txLookup) (tx : Transaction) (locals : accountSet) : M txPricedList bool :=
  is_local ← embed (as_containsTx tx locals);
  if (is_local : bool) then mret false
  else
    n ← gets (fun l => length (pl_items l));
    drop_stale n all;;
    l ← get;
    match pl_items l with
    | [] => mret false
    | cheapest :: _ =>
        cheapest_price ← deref (tx_Price cheapest);
        price ← deref (tx_Price tx);
        mret (price <=? cheapest_price)
    end.

Fixpoint discard_loop (fuel : nat) (all : txLookup) (count : Z) (locals : accountSet) (drop save : list Transaction) :
    M txPricedList (list Transaction * list Transaction) :=
  l ← get;
  if negb (0 <? count) then mret (drop, save)
  else
    match pl_items l, fuel with
    | [], _ => mret (drop, save)
    | _, O => diverge
    | _, S fuel =>
        tx ← pl_pop;
        match all !! Transaction_Hash tx with
        | None => no_longer_stale;; discard_loop fuel all count locals drop save
        | Some _ =>
            is_local ← embed (as_containsTx tx locals);
            if (is_local : bool) then discard_loop fuel all count locals drop (save ++ [tx])
            else discard_loop fuel all (count - 1) locals (drop ++ [tx]) save
        end
    end.

Definition pl_Discard (all : txLookup) (count : Z) (locals : accountSet) : M txPricedList (list Transaction) :=
  n ← gets (fun l => length (pl_items l));
  '(drop, save) ← discard_loop n all count locals [] [];
  put_back save;;
  mret drop.
End priced.

(** ** Transactions by price and nonce

    Models [TransactionsByPriceAndNonce] of [src/core/types/transaction.go], from which the
    worker takes the transactions of a block. *)
Definition by_price (t t' : Transaction) : bool := price_of t' <? price_of t.

Record ByPriceAndNonce : Type := MkByPriceAndNonce {
  bp_txs : gmap Address (list Transaction);
  bp_heads : list Transaction;
  bp_signer : Signer
}.

Section by_price.
Context `{C : Crypto} {N : NativeCrypto}.
Context (account_order : gmap Address (list Transaction) -> list Address).

(** [acc, _ := Sender(signer, tx)] *)
Definition sender_of (signer : Signer) (tx : Transaction) : res Address :=
  match signer_Sender signer tx with
  | Ok (inr addr) => Ok addr
  | Ok (inl _) => Ok zeroAddress
  | Panic => Panic
  | OutOfFuel => OutOfFuel
  end.

(** Accounts that are added while Go ranges over the map may be left out. *)
Fixpoint collect_heads (signer : Signer) (todo : list Address) (heads : list Transaction) :
    M (gmap Address (list Transaction)) (list Transaction) :=
  match todo with
  | [] => mret heads
  | from :: todo =>
      txs ← get;
      match txs !! from with
      | None => collect_heads signer todo heads
      | Some accTxs =>
          tx ← deref (head accTxs);
          acc ← embed (sender_of signer tx);
          modify (fun txs => <[acc := tail accTxs]> txs);;
          when (bool_decide (from <> acc)) (modify (fun txs => delete from txs));;
          collect_heads signer todo (heads ++ [tx])
      end
  end.

Definition NewTransactionsByPriceAndNonce (signer : Signer) (txs : gmap Address (list Transaction)) : res ByPriceAndNonce :=
  '(heads, txs) ← collect_heads signer (account_order txs) [] txs;
  mret (MkByPriceAndNonce txs (heap_Init by_price heads) signer).

Definition bp_Peek (t : ByPriceAndNonce) : option Transaction := head (bp_heads t).

Definition bp_Pop : M ByPriceAndNonce unit :=
  t ← get;
  '(_, heads) ← deref (heap_Pop by_price (bp_heads t));
  modify (fun t => MkByPriceAndNonce (bp_txs t) heads (bp_signer t)).

Definition bp_Shift : M ByPriceAndNonce unit :=
  t ← get;
  tx ← deref (head (bp_heads t));
  acc ← embed (sender_of (bp_signer t) tx);
  match bp_txs t !! acc with
  | Some (next :: rest) =>
      modify (fun t => MkByPriceAndNonce (<[acc := rest]> (bp_txs t)) (heap_Fix by_price 0 (<[0%nat := next]> (bp_heads t)))
                         (bp_signer t))
  | _ => bp_Pop
  end.
End by_price.
