(* ===== verification/TxListSpec.v ===== *)
(** * Lists of transactions are sorted lists

    What the maps with heaps and caches of [TxList] stand for: the transactions of an
    account in the order of their nonces. Every operation does on them what it says, and
    nothing panics. *)

From S2P Require Import Prelude Heap Bytes RlpEncode RlpDecode RlpCanonical RlpRaw Types Params EvmData Fallible StateDB EvmCore Precompiled Signing TxList.

(** ** The transactions of a map, by nonce *)
Definition sorted_txs (items : gmap Z Transaction) : list Transaction := merge_sort nonce_le (map_to_list items).*2.

(** A transaction is under its nonce. *)
Definition keyed (items : gmap Z Transaction) : Prop := map_Forall (fun k tx => tx_AccountNonce tx = k) items.

Definition nonce_lt (t t' : Transaction) : Prop := tx_AccountNonce t < tx_AccountNonce t'.

#[export] Instance nonce_le_trans : Transitive nonce_le.
Proof. unfold nonce_le. intros x y z. lia. Qed.
#[export] Instance nonce_le_total : Total nonce_le.
Proof. unfold nonce_le. intros x y. lia. Qed.

#[export] Instance nonce_order : StrictWeakOrder Z.ltb.
Proof.
  split; intros *; rewrite ?Z.ltb_lt, ?Z.ltb_ge; lia.
Qed.

#[export] Instance price_order : StrictWeakOrder price_less.
Proof.
  split; intros *; unfold price_less.
  - rewrite Z.compare_refl. apply Z.ltb_irrefl.
  - destruct (Z.compare_spec (price_of x) (price_of y)), (Z.compare_spec (price_of y) (price_of z)),
      (Z.compare_spec (price_of x) (price_of z)); try done; try lia; rewrite !Z.ltb_lt; lia.
  - destruct (Z.compare_spec (price_of x) (price_of y)), (Z.compare_spec (price_of y) (price_of z)),
      (Z.compare_spec (price_of x) (price_of z)); try done; try lia; rewrite !Z.ltb_ge; lia.
Qed.

#[export] Instance by_price_order : StrictWeakOrder by_price.
Proof. unfold by_price. split; intros *; rewrite ?Z.ltb_lt, ?Z.ltb_ge; lia. Qed.

Lemma keyed_empty : keyed ∅.
Proof. apply map_Forall_empty. Qed.

Lemma keyed_insert items (tx : Transaction) : keyed items -> keyed (<[tx_AccountNonce tx := tx]> items).
Proof. intros H. by apply map_Forall_insert_2. Qed.

Lemma keyed_subseteq items items' : items' ⊆ items -> keyed items -> keyed items'.
Proof. intros Hs H k tx Hk. eapply H, lookup_weaken; done. Qed.

Lemma keyed_delete items k : keyed items -> keyed (delete k items).
Proof. apply keyed_subseteq, delete_subseteq. Qed.

Section sorted_txs.
Context (items : gmap Z Transaction) (Hk : keyed items).

Lemma sorted_txs_perm : sorted_txs items ≡ₚ (map_to_list items).*2.
Proof. apply merge_sort_Permutation. Qed.

Lemma sorted_txs_elem (tx : Transaction) : tx ∈ sorted_txs items <-> items !! tx_AccountNonce tx = Some tx.
Proof.
  rewrite sorted_txs_perm, list_elem_of_fmap. split.
  - intros ([k tx'] & -> & H%elem_of_map_to_list). cbn. by rewrite (Hk _ _ H).
  - intros H. exists (tx_AccountNonce tx, tx). split; [done|by apply elem_of_map_to_list].
Qed.

Lemma length_sorted_txs : length (sorted_txs items) = size items.
Proof. by rewrite sorted_txs_perm, length_fmap, length_map_to_list. Qed.

(** Keys are nonces. *)
Lemma keys_nonces : (map_to_list items).*1 = tx_AccountNonce <$> (map_to_list items).*2.
Proof.
  rewrite <- list_fmap_compose. apply list_fmap_ext. intros i [k tx] Hi. symmetry. apply Hk.
  apply elem_of_map_to_list, list_elem_of_lookup. eauto.
Qed.

Lemma sorted_nodup : NoDup (tx_AccountNonce <$> sorted_txs items).
Proof.
  assert (E : tx_AccountNonce <$> sorted_txs items ≡ₚ (map_to_list items).*1).
  { rewrite keys_nonces. by apply Permutation_map, sorted_txs_perm. }
  rewrite E. apply NoDup_fst_map_to_list.
Qed.

Lemma sorted_txs_le : StronglySorted nonce_le (sorted_txs items).
Proof. apply StronglySorted_merge_sort; apply _. Qed.

Lemma sorted_txs_lt : StronglySorted nonce_lt (sorted_txs items).
Proof.
  generalize sorted_nodup, sorted_txs_le. induction (sorted_txs items) as [|t l IH]; [constructor|].
  rewrite fmap_cons, NoDup_cons. intros [Hn Hd] [Hs Hf]%StronglySorted_inv. constructor; [by apply IH|].
  rewrite Forall_forall in Hf |- *. intros t' Ht'. specialize (Hf t' Ht'). unfold nonce_le, nonce_lt in *.
  assert (tx_AccountNonce t <> tx_AccountNonce t') by (intros E; apply Hn; rewrite E; by apply list_elem_of_fmap_2). lia.
Qed.

(** Only one list of them is sorted. *)
Lemma sorted_txs_unique l : l ≡ₚ (map_to_list items).*2 -> StronglySorted nonce_le l -> l = sorted_txs items.
Proof.
  intros Hp Hs. rewrite <- sorted_txs_perm in Hp.
  apply (StronglySorted_unique_strong nonce_le); [|done|apply sorted_txs_le|done].
  intros x y Hx Hy Hxy Hyx. rewrite Hp in Hx. apply sorted_txs_elem in Hx, Hy. unfold nonce_le in *.
  replace (tx_AccountNonce y) with (tx_AccountNonce x) in Hy by lia. congruence.
Qed.

Lemma sorted_txs_by_elem l :
  StronglySorted nonce_lt l -> (forall tx : Transaction, tx ∈ l <-> items !! tx_AccountNonce tx = Some tx) -> l = sorted_txs items.
Proof.
  intros Hs He. apply sorted_txs_unique.
  - rewrite <- sorted_txs_perm. apply NoDup_Permutation; [|apply (NoDup_fmap_1 tx_AccountNonce), sorted_nodup|].
    + clear He. induction Hs as [|x l Hs IH Hf]; constructor; [|done]. intros Hx. rewrite Forall_forall in Hf.
      specialize (Hf x Hx). unfold nonce_lt in Hf. lia.
    + intros x. by rewrite He, sorted_txs_elem.
  - clear He. induction Hs; constructor; [done|]. eapply Forall_impl; [done|]. unfold nonce_lt, nonce_le. intros; lia.
Qed.
End sorted_txs.

(** ** When a map is in order *)
Record indexed (items : gmap Z Transaction) (index : list Z) : Prop := {
  ix_keyed : keyed items;
  ix_perm : index ≡ₚ (map_to_list items).*1;
  ix_heap : heap_ok Z.ltb index
}.

Record sm_ok (m : txSortedMap) : Prop := {
  ok_indexed : indexed (sm_items m) (sm_index m);
  ok_cache : forall c, sm_cache m = Some c -> c = sorted_txs (sm_items m)
}.

Lemma indexed_elem items index k : indexed items index -> k ∈ index <-> is_Some (items !! k).
Proof.
  intros [_ Hp _]. rewrite Hp, list_elem_of_fmap. split.
  - intros ([k' tx] & -> & H%elem_of_map_to_list). eauto.
  - intros [tx H]. exists (k, tx). split; [done|by apply elem_of_map_to_list].
Qed.

Lemma indexed_length items index : indexed items index -> length index = size items.
Proof. intros [_ Hp _]. by rewrite Hp, length_fmap, length_map_to_list. Qed.

Lemma indexed_nil items : indexed items [] -> items = ∅.
Proof. intros H%indexed_length. by apply map_size_empty_inv. Qed.

Lemma keys_delete (items : gmap Z Transaction) k tx :
  items !! k = Some tx -> (map_to_list items).*1 ≡ₚ k :: (map_to_list (delete k items)).*1.
Proof. intros H. by rewrite <- (map_to_list_delete items k tx H). Qed.

Lemma newTxSortedMap_ok : sm_ok newTxSortedMap.
Proof. split; [split; [apply keyed_empty|done|intros k Hk; cbn in Hk; lia]|done]. Qed.

Lemma sm_Put_ok (tx : Transaction) m : sm_ok m -> sm_ok (sm_Put tx m).
Proof.
  intros [[Hk Hp Hh] _]. split; [|done]. cbn. destruct (sm_items m !! tx_AccountNonce tx) as [old|] eqn:E.
  - split; [by apply keyed_insert| |done]. rewrite Hp, (keys_delete _ _ _ E).
    rewrite <- insert_delete_eq, map_to_list_insert; [done|]. by rewrite lookup_delete_eq.
  - destruct (heap_Push_ok Z.ltb (tx_AccountNonce tx) (sm_index m) Hh) as [Hp' Hh'].
    split; [by apply keyed_insert| |done]. by rewrite Hp', Hp, map_to_list_insert.
Qed.

(** The first transaction is under the first nonce. *)
Lemma sorted_head items k (tx : Transaction) :
  keyed items -> items !! k = Some tx -> (forall k', is_Some (items !! k') -> k <= k') ->
  sorted_txs items = tx :: sorted_txs (delete k items).
Proof.
  intros Hk E Hmin. pose proof (Hk _ _ E) as En. cbn in En. symmetry. apply sorted_txs_by_elem; [done|..].
  - constructor; [apply sorted_txs_lt; by apply keyed_delete|]. apply Forall_forall. intros t Ht.
    apply sorted_txs_elem, lookup_delete_Some in Ht as [Hne Ht]; [|by apply keyed_delete]. unfold nonce_lt.
    specialize (Hmin _ (mk_is_Some _ _ Ht)). lia.
  - intros t. rewrite elem_of_cons, sorted_txs_elem by (by apply keyed_delete). rewrite lookup_delete_Some.
    split; [by intros [->|[_ ?]]; [rewrite En|]|]. intros Ht. destruct (decide (k = tx_AccountNonce t)) as [->|]; [left; rewrite E in Ht; by injection Ht|eauto].
Qed.

Lemma pop_first items x rest :
  indexed items (x :: rest) ->
  exists (tx : Transaction) index, heap_Pop Z.ltb (x :: rest) = Some (x, index) /\ items !! x = Some tx /\ indexed (delete x items) index /\
    length index = length rest /\ sorted_txs items = tx :: sorted_txs (delete x items).
Proof.
  intros Hi. destruct (heap_Pop_ok Z.ltb (x :: rest) x rest (ix_heap _ _ Hi) eq_refl) as (index & Hpop & Hp & Hh & Hmin).
  destruct (proj1 (indexed_elem _ _ x Hi)) as [tx E]; [by left|]. exists tx, index. destruct Hi as [Hk Hp' Hh'].
  split_and!; [done|done| |by apply Permutation_length in Hp; injection Hp|].
  - split; [by apply keyed_delete| |done]. apply (Permutation_cons_inv (a := x)).
    by rewrite Hp, Hp', (keys_delete _ _ _ E).
  - apply sorted_head; [done..|]. intros k' Hk'. apply Z.ltb_ge, Hmin.
    by apply (indexed_elem items).
Qed.

(** ** Taking transactions off the front *)
Record taken (items items' : gmap Z Transaction) (l : list Transaction) : Prop := {
  tk_sub : items' ⊆ items;
  tk_sorted : sorted_txs items = l ++ sorted_txs items'
}.

Lemma taken_nil items : taken items items [].
Proof. by split. Qed.

Lemma taken_cons items items' k (tx : Transaction) l :
  taken (delete k items) items' l -> sorted_txs items = tx :: sorted_txs (delete k items) -> taken items items' (tx :: l).
Proof. intros [Hs Ht] E. split; [by etrans; [done|apply delete_subseteq]|]. by rewrite E, Ht. Qed.

Lemma forward_loop_ok t fuel removed m :
  indexed (sm_items m) (sm_index m) -> (length (sm_index m) <= fuel)%nat ->
  twp (forward_loop fuel t removed) (fun r m' =>
    exists l, r = removed ++ (Some <$> l) /\ taken (sm_items m) (sm_items m') l /\ indexed (sm_items m') (sm_index m') /\
      sm_cache m' = sm_cache m /\ Forall (fun tx => tx_AccountNonce tx < t) l /\
      map_Forall (fun k _ => t <= k) (sm_items m')) m.
Proof.
  revert removed m. induction fuel as [|fuel IH]; intros removed m Hi Hf; cbn [forward_loop]; twp_step; twp_step;
    destruct (sm_index m) as [|x rest] eqn:Ex; try (cbn in Hf; lia).
  1, 2: apply twp_ret; exists []; rewrite app_nil_r, Ex; split_and!; [done|apply taken_nil|done..|];
    rewrite (indexed_nil _ Hi); apply map_Forall_empty.
  destruct (pop_first _ _ _ Hi) as (tx & index & Hpop & E & Hi' & Hl & Hs). destruct (Z.ltb_spec x t) as [Hlt|Hge].
  - unfold sm_pop. rewrite Ex, Hpop. cbn -[twp heap_Pop]. twp_step. twp_step. twp_step. twp_step.
    eapply twp_mono; [apply IH; [done|cbn in *; lia]|]. cbn. intros r m' (l & -> & Ht & Hi2 & Hc & Hb & Hr).
    exists (tx :: l). rewrite <- app_assoc. cbn. rewrite E. split_and!; [done|by eapply taken_cons|done|done| |done].
    constructor; [by rewrite (ix_keyed _ _ Hi _ _ E)|done].
  - apply twp_ret. exists []. rewrite app_nil_r, Ex. split_and!; [done|apply taken_nil|done..|].
    intros k tx' Hk. assert (Hin : tx' ∈ sorted_txs (sm_items m)).
    { apply sorted_txs_elem; [apply Hi|]. by rewrite (ix_keyed _ _ Hi _ _ Hk). }
    pose proof (sorted_txs_lt _ (ix_keyed _ _ Hi)) as Hlt. rewrite Hs in Hin, Hlt. apply StronglySorted_inv in Hlt as [_ Hlt].
    rewrite Forall_forall in Hlt. pose proof (ix_keyed _ _ Hi _ _ Hk) as E1. pose proof (ix_keyed _ _ Hi _ _ E) as E2. cbn in *.
    apply elem_of_cons in Hin as [->|Hin]; [lia|]. specialize (Hlt _ Hin). unfold nonce_lt in Hlt. lia.
Qed.

(** ** What is removed and what is left *)
Record parts (items items' : gmap Z Transaction) (r : list Transaction) : Prop := {
  pt_sub : items' ⊆ items;
  pt_nodup : NoDup r;
  pt_elem : forall tx : Transaction, tx ∈ r <-> items !! tx_AccountNonce tx = Some tx /\ items' !! tx_AccountNonce tx = None
}.

Lemma parts_perm items items' r r' : r ≡ₚ r' -> parts items items' r -> parts items items' r'.
Proof. intros Hp [Hs Hn He]. split; [done|by rewrite <- Hp|]. intros tx. by rewrite <- Hp. Qed.

Lemma taken_parts items items' l : keyed items -> taken items items' l -> parts items items' l.
Proof.
  intros Hk [Hs Ht]. pose proof (keyed_subseteq _ _ Hs Hk) as Hk'.
  pose proof (NoDup_fmap_1 _ _ (sorted_nodup _ Hk)) as Hn. rewrite Ht in Hn. apply NoDup_app in Hn as (Hn & Hd & _).
  split; [done..|]. intros tx. split.
  - intros Hin. split; [apply sorted_txs_elem; [done|]; rewrite Ht; set_solver|].
    destruct (items' !! tx_AccountNonce tx) as [tx'|] eqn:E; [|done]. exfalso. apply (Hd tx Hin).
    apply sorted_txs_elem; [done|]. rewrite E. f_equal. pose proof (lookup_weaken _ _ _ _ E Hs) as E'.
    assert (items !! tx_AccountNonce tx = Some tx) as E2; [|by rewrite E' in E2; injection E2].
    apply sorted_txs_elem; [done|]. rewrite Ht. set_solver.
  - intros [E E']. apply sorted_txs_elem in E; [|done]. rewrite Ht in E. apply elem_of_app in E as [E|E]; [done|].
    apply sorted_txs_elem in E; [|done]. by rewrite E in E'.
Qed.

Lemma parts_size items items' r : keyed items -> parts items items' r -> size items = (length r + size items')%nat.
Proof.
  intros Hk [Hs Hn He]. pose proof (keyed_subseteq _ _ Hs Hk) as Hk'.
  rewrite <- (length_sorted_txs items), <- (length_sorted_txs items'), <- length_app.
  apply Permutation_length, NoDup_Permutation.
  - apply (NoDup_fmap_1 tx_AccountNonce), sorted_nodup, Hk.
  - apply NoDup_app. split_and!; [done| |by apply (NoDup_fmap_1 tx_AccountNonce), sorted_nodup].
    intros tx [_ E]%He E'%sorted_txs_elem; [|done]. by rewrite E in E'.
  - intros tx. rewrite elem_of_app, He, !sorted_txs_elem by done. split; [|intros [[]|E]; [done|by eapply lookup_weaken]].
    intros E. destruct (items' !! tx_AccountNonce tx) as [tx'|] eqn:E'; [right|by left].
    pose proof (lookup_weaken _ _ _ _ E' Hs) as E2. rewrite E in E2. by injection E2 as ->.
Qed.

(** What is left keeps its order. *)
Lemma sorted_left (P : Transaction -> Prop) `{!forall x, Decision (P x)} items items' :
  keyed items -> keyed items' ->
  (forall tx : Transaction, items' !! tx_AccountNonce tx = Some tx <-> P tx /\ items !! tx_AccountNonce tx = Some tx) ->
  sorted_txs items' = filter P (sorted_txs items).
Proof.
  intros Hk Hk' He. symmetry. apply sorted_txs_by_elem; [done|by apply StronglySorted_filter, sorted_txs_lt|].
  intros tx. by rewrite list_elem_of_filter, sorted_txs_elem, He.
Qed.

Lemma sorted_filter (P : Transaction -> Prop) `{!forall x, Decision (P x)} items :
  keyed items -> sorted_txs (filter (fun kv => P kv.2) items) = filter P (sorted_txs items).
Proof.
  intros Hk. apply sorted_left; [done|eapply keyed_subseteq; [apply map_filter_subseteq|done]|].
  intros tx. rewrite map_lookup_filter_Some. cbn. tauto.
Qed.

Lemma parts_filter (P : Transaction -> Prop) `{!forall x, Decision (P x)} items :
  keyed items -> parts items (filter (fun kv => ~ P kv.2) items) (filter P (sorted_txs items)).
Proof.
  intros Hk. split; [apply map_filter_subseteq|apply NoDup_filter, (NoDup_fmap_1 tx_AccountNonce), sorted_nodup, Hk|].
  intros tx. rewrite list_elem_of_filter, sorted_txs_elem, map_lookup_filter_None by done. split.
  - intros [HP E]. split; [done|]. right. intros x Ex. cbn. rewrite E in Ex. injection Ex as <-. tauto.
  - intros [E [E'|Hx]]; [by rewrite E' in E|]. split; [|done]. specialize (Hx _ E). cbn in Hx. destruct (decide (P tx)); tauto.
Qed.

Section operations.
Context (item_order : gmap Z Transaction -> list (Z * Transaction)).
Context (Horder : forall items, item_order items ≡ₚ map_to_list items).

Lemma sm_Forward_ok t m :
  sm_ok m ->
  twp (sm_Forward t) (fun r m' => exists l, r = Some <$> l /\ sm_ok m' /\ taken (sm_items m) (sm_items m') l /\
    Forall (fun tx => tx_AccountNonce tx < t) l /\ map_Forall (fun k _ => t <= k) (sm_items m')) m.
Proof.
  intros [Hi Hc]. unfold sm_Forward. twp_step. twp_step. twp_step. eapply twp_mono; [by apply forward_loop_ok|].
  cbn beta. intros r m' (l & Er & Ht & Hi' & Ec & Hb & Hr). cbn [app] in Er. subst r. twp_step. twp_step. rewrite Ec.
  destruct (sm_cache m) as [c|] eqn:E.
  - rewrite (Hc c eq_refl), (tk_sorted _ _ _ Ht), length_app, !length_fmap.
    rewrite (proj2 (Nat.ltb_ge _ _)) by lia. twp_step. twp_step. apply twp_ret. exists l. split_and!; [done| |done..].
    split; [done|]. cbn. intros c' [= <-]. by rewrite drop_app_length.
  - apply twp_ret. exists l. split_and!; [done| |done..]. split; [done|]. rewrite Ec. done.
Qed.

Lemma reindex_indexed items : keyed items -> indexed items (heap_Init Z.ltb (item_order items).*1).
Proof.
  intros Hk. destruct (heap_Init_ok Z.ltb (item_order items).*1) as [Hp Hh]. split; [done| |done].
  rewrite Hp. apply Permutation_map, Horder.
Qed.

Lemma reindex_ok m : keyed (sm_items m) -> sm_ok (reindex item_order m).
Proof. intros Hk. split; [by apply reindex_indexed|done]. Qed.

Lemma foldl_delete (nonces : list Z) (items : gmap Z Transaction) k :
  foldl (fun items n => delete n items) items nonces !! k = if decide (k ∈ nonces) then None else items !! k.
Proof.
  revert items. induction nonces as [|n nonces IH]; intros items; cbn [foldl]; [done|]. rewrite IH.
  destruct (decide (k = n)) as [->|Hne].
  - rewrite lookup_delete_eq. by repeat case_decide; set_solver.
  - rewrite lookup_delete_ne by done. repeat case_decide; set_solver.
Qed.

Lemma sm_RemoveTxs_ok nonces m :
  sm_ok m -> sm_ok (sm_RemoveTxs item_order nonces m) /\
    forall k, sm_items (sm_RemoveTxs item_order nonces m) !! k = if decide (k ∈ nonces) then None else sm_items m !! k.
Proof.
  intros Hm. destruct nonces as [|n nonces]; [by split; [|intros k; case_decide; set_solver]|].
  split; [|intros k; apply (foldl_delete (n :: nonces))]. apply reindex_ok. cbn [sm_items].
  eapply keyed_subseteq; [|apply Hm]. apply map_subseteq_spec. intros k tx. rewrite (foldl_delete (n :: nonces)).
  by case_decide.
Qed.

(** ** Filters *)
Lemma filter_loop_ok filter f todo removed m :
  NoDup todo.*1 -> (forall k tx, (k, tx) ∈ todo -> sm_items m !! k = Some tx /\ filter tx = Some (f tx)) ->
  twp (filter_loop filter todo removed) (fun r m' => r = removed ++ base.filter (fun tx => f tx = true) todo.*2 /\ sm_cache m' = sm_cache m /\ sm_index m' = sm_index m /\
    forall k, sm_items m' !! k = tx ← sm_items m !! k; if f tx && bool_decide (k ∈ todo.*1) then None else Some tx) m.
Proof.
  revert removed m. induction todo as [|[k tx] todo IH]; intros removed m Hn Ht; cbn [filter_loop].
  - apply twp_ret. rewrite app_nil_r. split_and!; [done..|]. intros k. destruct (sm_items m !! k) as [tx|]; [cbn|done].
    by rewrite bool_decide_eq_false_2, andb_false_r by set_solver.
  - apply NoDup_cons in Hn as [Hk Hn]. cbn in Hk. destruct (Ht k tx) as [E Ef]; [by left|]. rewrite Ef. twp_step. apply twp_deref.
    assert (Hrest : forall k' tx', (k', tx') ∈ todo -> k' <> k).
    { intros k' tx' Hin ->. apply Hk. apply list_elem_of_fmap. by exists (k, tx'). }
    destruct (f tx) eqn:Etx.
    + twp_step. twp_step. eapply twp_mono; [apply IH; [done|]|].
      * intros k' tx' Hin. cbn. rewrite lookup_delete_ne by (symmetry; by eapply Hrest). apply Ht. by right.
      * cbn beta. intros r m' (-> & Hc & Hi & Hl). cbn [fmap list_fmap snd fst sm_items] in *. rewrite filter_cons_True, <- app_assoc by done. split_and!; [done..|]. intros k'. rewrite Hl.
        destruct (decide (k' = k)) as [->|Hne].
        { rewrite lookup_delete_eq, E. cbn. by rewrite Etx, bool_decide_eq_true_2 by set_solver. }
        rewrite lookup_delete_ne by done. destruct (sm_items m !! k'); [cbn|done]. rewrite (bool_decide_ext (k' ∈ k :: todo.*1) (k' ∈ todo.*1)); [done|set_solver].
    + eapply twp_mono; [apply IH; [done|]|].
      * intros k' tx' Hin. apply Ht. by right.
      * cbn beta. intros r m' (-> & Hc & Hi & Hl). cbn [fmap list_fmap snd fst sm_items] in *. rewrite filter_cons_False by (by rewrite Etx). split_and!; [done..|]. intros k'. rewrite Hl.
        destruct (decide (k' = k)) as [->|Hne]; [rewrite E; cbn; by rewrite Etx|].
        destruct (sm_items m !! k'); [cbn|done]. rewrite (bool_decide_ext (k' ∈ k :: todo.*1) (k' ∈ todo.*1)); [done|set_solver].
Qed.

Lemma sm_Filter_ok filter f m :
  sm_ok m -> (forall k tx, sm_items m !! k = Some tx -> filter tx = Some (f tx)) ->
  twp (sm_Filter item_order filter) (fun r m' => sm_ok m' /\ r ≡ₚ base.filter (fun tx => f tx = true) (sorted_txs (sm_items m)) /\
    sm_items m' = base.filter (fun kv => f kv.2 <> true) (sm_items m)) m.
Proof.
  intros Hm Hf. unfold sm_Filter. twp_step. twp_step. twp_step. eapply twp_mono; [apply (filter_loop_ok filter f)|].
  - rewrite Horder. apply NoDup_fst_map_to_list.
  - intros k tx Hin. rewrite Horder in Hin. apply elem_of_map_to_list in Hin. eauto.
  - cbn beta. intros r m' (Er & Hc & Hi & Hl). cbn [app] in Er. twp_step.
    assert (Hitems : sm_items m' = base.filter (fun kv => f kv.2 <> true) (sm_items m)).
    { apply map_eq. intros k. rewrite Hl. destruct (sm_items m !! k) as [tx|] eqn:E; cbn.
      - rewrite bool_decide_eq_true_2, andb_true_r.
        + destruct (f tx) eqn:Etx; symmetry; [apply map_lookup_filter_None|apply map_lookup_filter_Some; split; [done|cbn; by rewrite Etx]].
          right. intros x Ex. rewrite E in Ex. injection Ex as <-. cbn. by intros [].
        + rewrite Horder, list_elem_of_fmap. exists (k, tx). split; [done|by apply elem_of_map_to_list].
      - symmetry. apply map_lookup_filter_None. by left. }
    assert (Hp : r ≡ₚ base.filter (fun tx => f tx = true) (sorted_txs (sm_items m))).
    { rewrite Er. f_equiv. rewrite sorted_txs_perm. apply Permutation_map, Horder. }
    assert (Hk' : keyed (sm_items m')).
    { rewrite Hitems. eapply keyed_subseteq; [apply map_filter_subseteq|apply Hm]. }
    apply twp_when.
    + intros _. twp_step. apply twp_ret. split_and!; [by apply reindex_ok|done..].
    + intros Hz%Nat.ltb_ge. apply twp_ret. split_and!; [|done..]. assert (E : sm_items m' = sm_items m).
      { rewrite Hitems. apply map_filter_id. intros k tx Hk. cbn. intros Hft. destruct r; [|cbn in Hz; lia].
        apply Permutation_nil in Hp. assert (Hin : tx ∈ base.filter (fun tx => f tx = true) (sorted_txs (sm_items m))); [|rewrite Hp in Hin; by apply not_elem_of_nil in Hin].
        apply list_elem_of_filter. split; [done|]. apply sorted_txs_elem; [apply Hm|].
        by rewrite (ix_keyed _ _ (ok_indexed _ Hm) _ _ Hk). }
      split; [by rewrite E, Hi; apply Hm|]. intros c. rewrite Hc, E. apply Hm.
Qed.

(** ** Limits *)
Lemma sorted_without items l (tx : Transaction) l' :
  keyed items -> sorted_txs items = l ++ tx :: l' -> sorted_txs (delete (tx_AccountNonce tx) items) = l ++ l'.
Proof.
  intros Hk E. pose proof (sorted_txs_lt _ Hk) as Hs. pose proof (sorted_nodup _ Hk) as Hn. rewrite E in Hs, Hn.
  assert (Hlt : StronglySorted nonce_lt (l ++ l')).
  { apply StronglySorted_app in Hs as (Hx & H1 & [H2 H3]%StronglySorted_inv). apply StronglySorted_app. split_and!; [|done..].
    intros x y Hxl Hyl. apply Hx; [done|by right]. }
  symmetry. apply sorted_txs_by_elem; [by apply keyed_delete|done|]. intros t.
  pose proof (sorted_txs_elem items Hk t) as He. rewrite E in He. rewrite lookup_delete_Some, <- He, !elem_of_app, elem_of_cons.
  rewrite fmap_app, fmap_cons, NoDup_app, NoDup_cons in Hn. destruct Hn as (_ & Hd & Hnt & _).
  split; [|intros [Hne [Hl|[->|Hl]]]; [by left|done|by right]].
  intros [Hl|Hl]; (split; [intros Ene|by eauto]).
  - apply (Hd (tx_AccountNonce t)); [by apply list_elem_of_fmap_2|]. rewrite Ene. by left.
  - apply Hnt. rewrite Ene. by apply list_elem_of_fmap_2.
Qed.

Lemma sorted_index items index : indexed items index -> merge_sort Z.le index = tx_AccountNonce <$> sorted_txs items.
Proof.
  intros [Hk Hp _]. apply (StronglySorted_unique Z.le).
  - apply StronglySorted_merge_sort; apply _.
  - pose proof (sorted_txs_le items) as Hs. induction Hs as [|x l Hs IH Hf]; [constructor|]. cbn. constructor; [done|].
    apply Forall_fmap. eapply Forall_impl; [done|]. done.
  - rewrite merge_sort_Permutation, Hp, keys_nonces by done. symmetry. apply Permutation_map, sorted_txs_perm.
Qed.

Lemma cap_loop_ok (L : list Transaction) n k drops m :
  keyed (sm_items m) -> sm_index m = tx_AccountNonce <$> L -> sorted_txs (sm_items m) = take k L -> (k <= length L)%nat ->
  twp (cap_loop k (Z.of_nat n) drops) (fun r m' => r = drops ++ (Some <$> reverse (drop n (take k L))) /\ sm_items m' ⊆ sm_items m /\
    sm_index m' = sm_index m /\ sm_cache m' = sm_cache m /\ sorted_txs (sm_items m') = take (min k n) L) m.
Proof.
  revert drops m. induction k as [|k IH]; intros drops m Hk Hi Hs Hl; cbn [cap_loop].
  { rewrite (proj2 (Z.ltb_ge _ _)) by lia. apply twp_ret. rewrite take_0, drop_nil, app_nil_r. by rewrite Hs. }
  destruct (Z.ltb_spec (Z.of_nat n) (Z.of_nat (S k))) as [Hlt|Hge].
  - twp_step. twp_step. twp_step. destruct (lookup_lt_is_Some_2 L k ltac:(lia)) as [tx Htx].
    rewrite Hi, list_lookup_fmap, Htx. cbn [fmap option_fmap option_map]. apply twp_deref. twp_step. twp_step.
    rewrite (take_S_r _ _ _ Htx) in Hs |- *. assert (E : sm_items m !! tx_AccountNonce tx = Some tx).
    { apply sorted_txs_elem; [done|]. rewrite Hs. set_solver. }
    rewrite E. eapply twp_mono; [apply IH|].
    + by apply keyed_delete.
    + done.
    + cbn. rewrite (sorted_without _ _ _ [] Hk Hs). by rewrite app_nil_r.
    + lia.
    + cbn beta. cbn [sm_items sm_index sm_cache]. intros r m' (-> & Hsub & Hi' & Hc & Hs').
      rewrite drop_app_le, reverse_snoc, <- app_assoc by (rewrite length_take; lia). split_and!; [done| |by rewrite Hi'|done|].
      * etrans; [done|apply delete_subseteq].
      * rewrite Hs'. f_equal. lia.
  - apply twp_ret. rewrite drop_ge, app_nil_r by (rewrite length_take; lia). split_and!; [done..|]. rewrite Hs. f_equal. lia.
Qed.

Lemma sm_Cap_ok n m :
  sm_ok m ->
  twp (sm_Cap (Z.of_nat n)) (fun r m' => sm_ok m' /\ sm_items m' ⊆ sm_items m /\
    sorted_txs (sm_items m') = take n (sorted_txs (sm_items m)) /\
    r = Some <$> reverse (drop n (sorted_txs (sm_items m)))) m.
Proof.
  intros Hm. pose proof (ix_keyed _ _ (ok_indexed _ Hm)) as Hk. set (L := sorted_txs (sm_items m)).
  assert (HL : length L = size (sm_items m)) by apply length_sorted_txs. unfold sm_Cap. twp_step. twp_step.
  destruct (Z.leb_spec (Z.of_nat (size (sm_items m))) (Z.of_nat n)) as [Hle|Hgt].
  { apply twp_ret. rewrite take_ge, drop_ge by lia. done. }
  twp_step. twp_step. twp_step. eapply twp_mono; [apply (cap_loop_ok L n); cbn|].
  - done.
  - apply sorted_index, Hm.
  - by rewrite take_ge by lia.
  - lia.
  - cbn beta. cbn [sm_items sm_index sm_cache]. rewrite (take_ge L) by lia. intros r m' (-> & Hsub & Hi & Hc & Hs). cbn [app].
    twp_step. twp_step. twp_step. twp_step. cbn [sm_cache]. rewrite Nat2Z.id, Hi, (sorted_index _ _ (ok_indexed _ Hm)). fold L.
    rewrite Nat.min_r in Hs by lia. assert (Hk' : keyed (sm_items m')) by by eapply keyed_subseteq.
    assert (Hx : indexed (sm_items m') (heap_Init Z.ltb (take n (tx_AccountNonce <$> L)))).
    { destruct (heap_Init_ok Z.ltb (take n (tx_AccountNonce <$> L))) as [Hp Hh]. split; [done| |done].
      rewrite Hp, keys_nonces, <- fmap_take, <- Hs by done. apply Permutation_map, sorted_txs_perm. }
    rewrite Hc. destruct (sm_cache m) as [c|] eqn:Ec.
    + rewrite (ok_cache _ Hm c Ec). fold L. rewrite length_fmap, length_reverse, length_drop.
      rewrite (proj2 (Nat.ltb_ge _ _)) by lia. twp_step. twp_step. apply twp_ret. split_and!; [|done..]. split; [done|].
      cbn. intros c' [= <-]. rewrite Hs. f_equal. lia.
    + apply twp_ret. split_and!; [|done..]. split; [done|]. done.
Qed.

(** ** Single transactions *)
Lemma sm_Remove_ok n m :
  sm_ok m ->
  twp (sm_Remove n) (fun b m' => sm_ok m' /\ b = bool_decide (is_Some (sm_items m !! n)) /\ sm_items m' = delete n (sm_items m)) m.
Proof.
  intros Hm. pose proof (ok_indexed _ Hm) as Hi. unfold sm_Remove. twp_step. twp_step. destruct (sm_items m !! n) as [tx|] eqn:E.
  - assert (Hin : n ∈ sm_index m) by by apply (indexed_elem _ _ _ Hi); rewrite E.
    destruct (list_find_elem_of (n =.) (sm_index m) n Hin eq_refl) as [[i x] Hf]. rewrite Hf.
    apply list_find_Some in Hf as (Hx & <- & _). destruct (heap_Remove_ok Z.ltb i n _ (ix_heap _ _ Hi) Hx) as (index & Hr & Hp & Hh).
    twp_step. rewrite Hr. apply twp_bind, twp_deref, twp_ret. twp_step. twp_step. apply twp_ret. split_and!; [|done..].
    split; [|done]. cbn. split; [apply keyed_delete, Hi| |done]. apply (Permutation_cons_inv (a := n)).
    by rewrite Hp, (ix_perm _ _ Hi), (keys_delete _ _ _ E).
  - apply twp_ret. split_and!; [done..|]. by rewrite delete_id.
Qed.

Lemma sm_Flatten_ok m :
  sm_ok m -> twp (sm_Flatten item_order) (fun r m' => sm_ok m' /\ r = sorted_txs (sm_items m) /\ sm_items m' = sm_items m) m.
Proof.
  intros Hm. unfold sm_Flatten. twp_step. twp_step. destruct (sm_cache m) as [c|] eqn:E.
  - apply twp_ret. split_and!; [done|by apply (ok_cache _ Hm)|done].
  - assert (Hs : merge_sort nonce_le (item_order (sm_items m)).*2 = sorted_txs (sm_items m)).
    { apply sorted_txs_unique; [apply Hm|by rewrite merge_sort_Permutation; apply Permutation_map|].
      apply StronglySorted_merge_sort; apply _. }
    rewrite Hs. twp_step. twp_step. apply twp_ret. split_and!; [|done..]. split; [apply Hm|]. by intros c [= <-].
Qed.

(** ** Runs of nonces *)
Definition nonces_ok (items : gmap Z Transaction) : Prop := map_Forall (fun k _ => is_uint64 k) items.

(** The transactions with the nonces from [n] on without a gap. *)
Fixpoint run_from (n : Z) (l : list Transaction) : list Transaction :=
  match l with
  | tx :: l => if tx_AccountNonce tx =? n then tx :: run_from (n + 1) l else []
  | [] => []
  end.

Definition ready_prefix (start : Z) (l : list Transaction) : list Transaction :=
  match l with
  | tx :: _ => if start <? tx_AccountNonce tx then [] else run_from (tx_AccountNonce tx) l
  | [] => []
  end.

Lemma ready_loop_ok fuel next ready m :
  indexed (sm_items m) (sm_index m) -> nonces_ok (sm_items m) -> is_uint64 next -> (length (sm_index m) <= fuel)%nat ->
  twp (ready_loop fuel next ready) (fun r m' => let l := run_from next (sorted_txs (sm_items m)) in
    r = ready ++ (Some <$> l) /\ taken (sm_items m) (sm_items m') l /\ indexed (sm_items m') (sm_index m')) m.
Proof.
  revert next ready m. induction fuel as [|fuel IH]; intros next ready m Hi Hu Hn Hf; cbn [ready_loop]; twp_step; twp_step;
    destruct (sm_index m) as [|x rest] eqn:Ex; try (cbn in Hf; lia).
  1, 2: apply twp_ret; rewrite Ex; pose proof (indexed_nil _ Hi) as E0; rewrite E0 in *; cbn; rewrite app_nil_r;
    (split_and!; [done|apply taken_nil|done]).
  destruct (pop_first _ _ _ Hi) as (tx & index & Hpop & E & Hi' & Hl & Hs). rewrite Hs. cbn [run_from].
  pose proof (ix_keyed _ _ Hi _ _ E) as Ek. cbn in Ek. rewrite Ek. destruct (Z.eqb_spec x next) as [<-|Hne].
  - rewrite Hpop. twp_step. apply twp_deref. twp_step. twp_step. rewrite E. eapply twp_mono; [apply IH|].
    + done.
    + by apply map_Forall_delete.
    + apply uint64_range.
    + cbn in *. lia.
    + cbn zeta beta. cbn [sm_items]. intros r m'. replace (run_from (uint64 (x + 1)) _) with (run_from (x + 1) (sorted_txs (delete x (sm_items m)))).
      * intros (-> & Ht & Hi2). rewrite <- app_assoc. split_and!; [done|by eapply taken_cons|done].
      * destruct (decide (x + 1 < 2 ^ 64)); [by rewrite uint64_small by (unfold is_uint64 in *; lia)|].
        destruct (sorted_txs (delete x (sm_items m))) as [|t l] eqn:El; [done|]. exfalso.
        pose proof (sorted_txs_lt _ (ix_keyed _ _ Hi)) as Hlt. rewrite Hs in Hlt. apply StronglySorted_inv in Hlt as [_ Hlt].
        inversion_clear Hlt as [|? ? H1 _]. unfold nonce_lt in H1.
        assert (Ht : sm_items m !! tx_AccountNonce t = Some t) by (apply sorted_txs_elem; [apply Hi|rewrite Hs; set_solver]).
        specialize (Hu _ _ Ht). unfold is_uint64 in Hu. lia.
  - apply twp_ret. rewrite app_nil_r, Ex. split_and!; [done|apply taken_nil|done].
Qed.

Lemma sm_Ready_ok start m :
  sm_ok m -> nonces_ok (sm_items m) ->
  twp (sm_Ready start) (fun r m' => let l := ready_prefix start (sorted_txs (sm_items m)) in
    r = Some <$> l /\ sm_ok m' /\ taken (sm_items m) (sm_items m') l) m.
Proof.
  intros Hm Hu. pose proof (ok_indexed _ Hm) as Hi. unfold sm_Ready. twp_step. twp_step. destruct (sm_index m) as [|x rest] eqn:Ex.
  - apply twp_ret. cbn zeta. replace (ready_prefix start _) with (@nil Transaction) by by rewrite (indexed_nil _ Hi).
    split_and!; [done..|apply taken_nil].
  - destruct (pop_first _ _ _ Hi) as (tx & index & Hpop & E & Hi' & Hl & Hs). cbn zeta. unfold ready_prefix. rewrite Hs.
    pose proof (ix_keyed _ _ Hi _ _ E) as Ek. cbn in Ek. rewrite Ek. destruct (Z.ltb_spec start x) as [Hlt|Hge].
    + apply twp_ret. split_and!; [done..|apply taken_nil].
    + twp_step. eapply twp_mono; [apply ready_loop_ok; [by rewrite Ex|done|by apply (Hu x tx)|by rewrite Ex]|]. cbn zeta beta. rewrite Hs.
      intros r m' (-> & Ht & Hi2). twp_step. twp_step. apply twp_ret. split_and!; [done|by split|done].
Qed.

(** ** Refinement of sorted lists

    The operations, and what they do on a list of transactions sorted by nonce. *)
Inductive sm_op : Type :=
  | OpPut (tx : Transaction)
  | OpGet (nonce : Z)
  | OpForward (threshold : Z)
  | OpRemoveTxs (nonces : list Z)
  | OpFilter (f : Transaction -> bool)
  | OpCap (threshold : nat)
  | OpRemove (nonce : Z)
  | OpReady (start : Z)
  | OpFlatten
  | OpLen.

(** Results; the order of a set depends on the order in which Go ranges over a map. *)
Inductive sm_out : Type :=
  | OutUnit
  | OutTxs (txs : pointers)
  | OutSet (txs : list Transaction)
  | OutBool (b : bool)
  | OutLen (n : nat).

Definition sm_exec (op : sm_op) : M txSortedMap sm_out :=
  match op with
  | OpPut tx => modify (sm_Put tx);; mret OutUnit
  | OpGet n => tx ← gets (sm_Get n); mret (OutTxs [tx])
  | OpForward t => r ← sm_Forward t; mret (OutTxs r)
  | OpRemoveTxs ns => modify (sm_RemoveTxs item_order ns);; mret OutUnit
  | OpFilter f => r ← sm_Filter item_order (fun tx => Some (f tx)); mret (OutSet r)
  | OpCap n => r ← sm_Cap (Z.of_nat n); mret (OutTxs r)
  | OpRemove n => b ← sm_Remove n; mret (OutBool b)
  | OpReady s => r ← sm_Ready s; mret (OutTxs r)
  | OpFlatten => r ← sm_Flatten item_order; mret (OutTxs (Some <$> r))
  | OpLen => n ← gets sm_Len; mret (OutLen n)
  end.

Fixpoint sm_execs (ops : list sm_op) : M txSortedMap (list sm_out) :=
  match ops with
  | [] => mret []
  | op :: ops => out ← sm_exec op; outs ← sm_execs ops; mret (out :: outs)
  end.

(** The same on a sorted list. *)
Definition with_nonce (n : Z) (l : list Transaction) : list Transaction := filter (fun tx => tx_AccountNonce tx = n) l.
Definition below (n : Z) (l : list Transaction) : list Transaction := filter (fun tx => tx_AccountNonce tx < n) l.

Definition list_exec (op : sm_op) (l : list Transaction) : sm_out * list Transaction :=
  match op with
  | OpPut tx => (OutUnit, below (tx_AccountNonce tx) l ++ tx :: filter (fun t => tx_AccountNonce tx < tx_AccountNonce t) l)
  | OpGet n => (OutTxs [head (with_nonce n l)], l)
  | OpForward t => (OutTxs (Some <$> below t l), filter (fun tx => t <= tx_AccountNonce tx) l)
  | OpRemoveTxs ns => (OutUnit, filter (fun tx => tx_AccountNonce tx ∉ ns) l)
  | OpFilter f => (OutSet (filter (fun tx => f tx = true) l), filter (fun tx => f tx <> true) l)
  | OpCap n => (OutTxs (Some <$> reverse (drop n l)), take n l)
  | OpRemove n => (OutBool (bool_decide (with_nonce n l <> [])), filter (fun tx => tx_AccountNonce tx <> n) l)
  | OpReady s => (OutTxs (Some <$> ready_prefix s l), drop (length (ready_prefix s l)) l)
  | OpFlatten => (OutTxs (Some <$> l), l)
  | OpLen => (OutLen (length l), l)
  end.

Fixpoint list_execs (ops : list sm_op) (l : list Transaction) : list sm_out :=
  match ops with
  | [] => []
  | op :: ops => let '(out, l) := list_exec op l in out :: list_execs ops l
  end.

Definition same_out (o o' : sm_out) : Prop :=
  match o, o' with
  | OutSet l, OutSet l' => l ≡ₚ l'
  | _, _ => o = o'
  end.

Definition op_ok (op : sm_op) : Prop :=
  match op with OpPut tx => is_uint64 (tx_AccountNonce tx) | _ => True end.

(** A map that stands for a list. *)
Record stands_for (m : txSortedMap) (l : list Transaction) : Prop := {
  sf_ok : sm_ok m;
  sf_nonces : nonces_ok (sm_items m);
  sf_list : sorted_txs (sm_items m) = l
}.

Lemma stands_sub m m' l :
  stands_for m l -> sm_ok m' -> sm_items m' ⊆ sm_items m -> stands_for m' (sorted_txs (sm_items m')).
Proof. intros [_ Hn _] Hm Hs. split; [done| |done]. intros k tx Hk. by eapply (Hn k tx), lookup_weaken. Qed.

Lemma sorted_put items (tx : Transaction) :
  keyed items -> sorted_txs (<[tx_AccountNonce tx := tx]> items) =
    below (tx_AccountNonce tx) (sorted_txs items) ++ tx :: filter (fun t => tx_AccountNonce tx < tx_AccountNonce t) (sorted_txs items).
Proof.
  intros Hk. symmetry. apply sorted_txs_by_elem; [by apply keyed_insert|..].
  - apply StronglySorted_app. pose proof (sorted_txs_lt _ Hk) as Hs. split_and!.
    + intros x y [Hx _]%list_elem_of_filter Hy. unfold nonce_lt. apply elem_of_cons in Hy as [->|[Hy _]%list_elem_of_filter]; lia.
    + by apply StronglySorted_filter.
    + constructor; [by apply StronglySorted_filter|]. apply Forall_forall. intros x [Hx _]%list_elem_of_filter. done.
  - intros t. unfold below. rewrite elem_of_app, elem_of_cons, !list_elem_of_filter, sorted_txs_elem, lookup_insert_Some by done.
    split.
    + intros [[Hlt E]|[->|[Hlt E]]]; [right|by left|right]; (split; [lia|done]).
    + intros [[_ <-]|[Hne E]]; [by right; left|]. destruct (decide (tx_AccountNonce t < tx_AccountNonce tx)); [by left|].
      right. right. split; [lia|done].
Qed.

Lemma with_nonce_lookup items n : keyed items -> head (with_nonce n (sorted_txs items)) = items !! n.
Proof.
  intros Hk. destruct (items !! n) as [tx|] eqn:E.
  - assert (Hin : tx ∈ with_nonce n (sorted_txs items)).
    { apply list_elem_of_filter. pose proof (Hk _ _ E) as En. cbn in En. rewrite sorted_txs_elem, En by done. done. }
    destruct (with_nonce n (sorted_txs items)) as [|t l] eqn:El; [by apply not_elem_of_nil in Hin|]. cbn. rewrite <- E.
    assert (Ht : t ∈ with_nonce n (sorted_txs items)) by (rewrite El; by left).
    apply list_elem_of_filter in Ht as [<- Ht]. symmetry. by apply sorted_txs_elem.
  - destruct (with_nonce n (sorted_txs items)) as [|t l] eqn:El; [done|].
    assert (Ht : t ∈ with_nonce n (sorted_txs items)) by (rewrite El; by left).
    apply list_elem_of_filter in Ht as [<- Ht]. apply sorted_txs_elem in Ht; [|done]. by rewrite Ht in E.
Qed.

Lemma taken_below items items' l t :
  keyed items -> taken items items' l -> Forall (fun tx => tx_AccountNonce tx < t) l -> map_Forall (fun k _ => t <= k) items' ->
  l = below t (sorted_txs items) /\ sorted_txs items' = filter (fun tx => t <= tx_AccountNonce tx) (sorted_txs items).
Proof.
  intros Hk [Hs E] Hl Hr. assert (Hr' : Forall (fun tx => t <= tx_AccountNonce tx) (sorted_txs items')).
  { apply Forall_forall. intros tx Hin. apply sorted_txs_elem in Hin; [|by eapply keyed_subseteq]. by specialize (Hr _ _ Hin). }
  unfold below. rewrite E, !filter_app.
  rewrite (filter_all (fun tx => tx_AccountNonce tx < t) l), (filter_all (fun tx => t <= tx_AccountNonce tx) (sorted_txs items')) by done.
  rewrite (filter_none (fun tx => tx_AccountNonce tx < t) (sorted_txs items')), (filter_none (fun tx => t <= tx_AccountNonce tx) l), app_nil_r.
  - done.
  - eapply Forall_impl; [exact Hl|]. cbn. lia.
  - eapply Forall_impl; [exact Hr'|]. cbn. lia.
Qed.

Lemma sm_exec_refines op m l :
  op_ok op -> stands_for m l ->
  twp (sm_exec op) (fun out m' => same_out out (list_exec op l).1 /\ stands_for m' (list_exec op l).2) m.
Proof.
  intros Hop Hm. pose proof Hm as [Hok Hn <-]. pose proof (ix_keyed _ _ (ok_indexed _ Hok)) as Hk.
  destruct op as [tx|n|t|ns|f|n|n|s| |]; cbn [sm_exec list_exec fst snd].
  - twp_step. twp_step. apply twp_ret. split; [done|]. split; [by apply sm_Put_ok| |by apply sorted_put].
    cbn. by apply map_Forall_insert_2.
  - twp_step. twp_step. apply twp_ret. by rewrite with_nonce_lookup.
  - twp_step. eapply twp_mono; [by apply sm_Forward_ok|]. cbn. intros r m' (l & -> & Hm' & Ht & Hl & Hr). apply twp_ret.
    destruct (taken_below _ _ _ _ Hk Ht Hl Hr) as [E1 E2]. rewrite <- E1, <- E2.
    split; [done|]. eapply stands_sub; [done..|apply Ht].
  - twp_step. twp_step. apply twp_ret. split; [done|]. destruct (sm_RemoveTxs_ok ns m Hok) as [Hm' Hl].
    assert (Hs : sm_items (sm_RemoveTxs item_order ns m) ⊆ sm_items m).
    { apply map_subseteq_spec. intros k tx. rewrite Hl. by case_decide. }
    erewrite <- sorted_left; [by eapply stands_sub|done|by eapply keyed_subseteq|].
    intros tx. rewrite Hl. case_decide; naive_solver.
  - twp_step. eapply twp_mono; [by apply (sm_Filter_ok _ f)|]. cbn. intros r m' (Hm' & Hp & E). apply twp_ret. split; [done|].
    rewrite <- sorted_filter, <- E by done. eapply stands_sub; [done..|]. rewrite E. apply map_filter_subseteq.
  - twp_step. eapply twp_mono; [by apply sm_Cap_ok|]. cbn. intros r m' (Hm' & Hs & E & ->). apply twp_ret. split; [done|].
    rewrite <- E. by eapply stands_sub.
  - twp_step. eapply twp_mono; [by apply sm_Remove_ok|]. cbn. intros b m' (Hm' & -> & E). apply twp_ret. split.
    + cbn. f_equal. apply bool_decide_ext. rewrite <- with_nonce_lookup by done. destruct (with_nonce n _); cbn; [|naive_solver].
      split; [by intros []|done].
    + erewrite <- sorted_left; [eapply stands_sub; [done..|rewrite E; apply delete_subseteq]|done|rewrite E; by apply keyed_delete|].
      intros tx. rewrite E, lookup_delete_Some. naive_solver.
  - twp_step. eapply twp_mono; [by apply sm_Ready_ok|]. cbn. intros r m' (-> & Hm' & Ht). apply twp_ret. split; [done|].
    rewrite (tk_sorted _ _ _ Ht) at 2. rewrite drop_app_length. eapply stands_sub; [done..|apply Ht].
  - twp_step. eapply twp_mono; [by apply sm_Flatten_ok|]. cbn. intros r m' (Hm' & -> & E). apply twp_ret. split; [done|].
    by split; [|rewrite E..].
  - twp_step. twp_step. apply twp_ret. split; [|done]. cbn. f_equal. symmetry. apply length_sorted_txs.
Qed.

(** Any operations, one after the other, return what they return on sorted lists: the heap
    and the cache do not show, and nothing panics. *)
Theorem txSortedMap_refines ops :
  Forall op_ok ops ->
  exists outs m, sm_execs ops newTxSortedMap = Ok (outs, m) /\ Forall2 same_out outs (list_execs ops []).
Proof.
  intros Hops. assert (H : forall m l, stands_for m l -> twp (sm_execs ops) (fun outs _ => Forall2 same_out outs (list_execs ops l)) m).
  - induction Hops as [|op ops Hop Hops IH]; intros m l Hm; [by apply twp_ret|]. cbn [sm_execs list_execs].
    twp_step. eapply twp_mono; [by apply sm_exec_refines|]. cbn beta. intros out m' [Ho Hm'].
    twp_step. eapply twp_mono; [by apply IH|]. cbn beta. intros outs m2 Hos. apply twp_ret.
    destruct (list_exec op l). by constructor.
  - destruct (H newTxSortedMap []) as (outs & m & E & Ho); [|by eauto].
    split; [apply newTxSortedMap_ok|apply map_Forall_empty|done].
Qed.
End operations.

(** ** The order in which a block is filled

    The transactions left of each account; the next one comes from an account whose first
    transaction has the best price. *)
Inductive best_first : gmap Address (list Transaction) -> list Transaction -> Prop :=
  | best_nil rest : map_Forall (fun _ l => l = []) rest -> best_first rest []
  | best_cons rest out a tx l :
      rest !! a = Some (tx :: l) ->
      (forall b tx' l', rest !! b = Some (tx' :: l') -> price_of tx' <= price_of tx) ->
      best_first (<[a := l]> rest) out -> best_first rest (tx :: out).

Section by_price.
Context `{C : Crypto} {N : NativeCrypto} (signer : Signer).
Context (account_order : gmap Address (list Transaction) -> list Address).
Context (Horder : forall txs, account_order txs ≡ₚ (map_to_list txs).*1).

(** Taking all of them, one after the other. *)
Fixpoint take_all (fuel : nat) : M ByPriceAndNonce (list Transaction) :=
  t ← get;
  match bp_Peek t, fuel with
  | None, _ => mret []
  | Some _, O => diverge
  | Some tx, S fuel => bp_Shift;; out ← take_all fuel; mret (tx :: out)
  end.

Definition sent_by (a : Address) (tx : Transaction) : Prop := signer_Sender signer tx = Ok (inr a).
Definition all_sent (txs : gmap Address (list Transaction)) : Prop := map_Forall (fun a l => Forall (sent_by a) l) txs.

Definition firsts (txs : gmap Address (list Transaction)) : list Transaction := omap head (map_to_list txs).*2.
Definition count (txs : gmap Address (list Transaction)) : nat := sum_list (length <$> (map_to_list txs).*2).

Record bp_ok (rest : gmap Address (list Transaction)) (t : ByPriceAndNonce) : Prop := {
  bp_sig : bp_signer t = signer;
  bp_sent : all_sent rest;
  bp_perm : bp_heads t ≡ₚ firsts rest;
  bp_heap : heap_ok by_price (bp_heads t);
  bp_left : forall a, default [] (bp_txs t !! a) = tail (default [] (rest !! a))
}.

Lemma firsts_insert txs a l : firsts (<[a := l]> txs) ≡ₚ option_list (head l) ++ firsts (delete a txs).
Proof.
  unfold firsts. rewrite <- insert_delete_eq, map_to_list_insert by by rewrite lookup_delete_eq. cbn.
  by destruct l.
Qed.

Lemma firsts_lookup txs a l : txs !! a = Some l -> firsts txs ≡ₚ option_list (head l) ++ firsts (delete a txs).
Proof. intros H. rewrite <- (insert_id txs a l H) at 1. apply firsts_insert. Qed.

Lemma count_lookup txs a l : txs !! a = Some l -> count txs = (length l + count (delete a txs))%nat.
Proof. intros H. unfold count. by rewrite <- (map_to_list_delete _ _ _ H). Qed.

Lemma count_insert txs a l : count (<[a := l]> txs) = (length l + count (delete a txs))%nat.
Proof. rewrite (count_lookup (<[a := l]> txs) a l) by by rewrite lookup_insert_eq. by rewrite delete_insert_eq. Qed.

Lemma firsts_elem txs tx : tx ∈ firsts txs <-> exists a l, txs !! a = Some (tx :: l).
Proof.
  unfold firsts. rewrite list_elem_of_omap. setoid_rewrite list_elem_of_fmap. split.
  - intros (l & ([a l'] & -> & H%elem_of_map_to_list) & Hh). cbn in *. destruct l'; [done|]. injection Hh as ->. eauto.
  - intros (a & l & H). exists (tx :: l). split; [|done]. exists (a, tx :: l). by rewrite elem_of_map_to_list.
Qed.

Lemma sent_once a b tx : sent_by a tx -> sent_by b tx -> a = b.
Proof. unfold sent_by. congruence. Qed.

Lemma shift_ok rest t tx :
  bp_ok rest t -> bp_Peek t = Some tx ->
  exists a l, rest !! a = Some (tx :: l) /\ (forall b tx' l', rest !! b = Some (tx' :: l') -> price_of tx' <= price_of tx) /\
    twp bp_Shift (fun _ t' => bp_ok (<[a := l]> rest) t') t.
Proof.
  intros [Hsig Hsent Hp Hh Hleft] Hpeek. unfold bp_Peek in Hpeek. destruct (bp_heads t) as [|tx' hs] eqn:Et; [done|]. injection Hpeek as ->.
  destruct (proj1 (firsts_elem rest tx)) as (a & l & Ha); [rewrite <- Hp; by left|]. exists a, l. split; [done|].
  assert (Hmin : forall y, y ∈ tx :: hs -> by_price y tx = false) by (intros y; by apply (heap_min by_price (tx :: hs))).
  split.
  { intros b tx' l' Hb. apply Z.ltb_ge, (Hmin tx'). rewrite Hp. apply firsts_elem. eauto. }
  pose proof (Hsent a (tx :: l) Ha) as Hs. inversion_clear Hs as [|? ? Hs1 Hs2].
  assert (Hsent' : all_sent (<[a := l]> rest)) by by apply map_Forall_insert_2.
  assert (Hhs : hs ≡ₚ firsts (delete a rest)).
  { apply (Permutation_cons_inv (a := tx)). rewrite Hp. by rewrite (firsts_lookup _ _ _ Ha). }
  unfold bp_Shift, sender_of. twp_step. twp_step. rewrite Et. apply twp_bind, twp_deref, twp_bind. rewrite Hsig, Hs1. apply twp_ret.
  pose proof (Hleft a) as Hla. rewrite Ha in Hla. cbn in Hla.
  assert (Hpop : l = [] -> twp bp_Pop (fun _ t' => bp_ok (<[a := l]> rest) t') t).
  { intros ->. unfold bp_Pop. twp_step. twp_step. rewrite Et. destruct (heap_Pop_ok by_price (tx :: hs) tx hs Hh eq_refl) as (hs' & E & Hp' & Hh' & _).
    rewrite E. apply twp_bind, twp_deref. apply twp_modify. split; [done|done| |done|]; cbn.
    - rewrite firsts_insert. cbn. rewrite <- Hhs. by apply Permutation_cons_inv in Hp'.
    - intros b. destruct (decide (b = a)) as [->|Hne]; [by rewrite lookup_insert_eq|]. rewrite lookup_insert_ne by done. apply Hleft. }
  destruct (bp_txs t !! a) as [[|next rest']|] eqn:Ea; cbn in Hla; [by apply Hpop| |by apply Hpop].
  subst l. apply twp_modify. cbn [list_insert]. destruct (heap_Fix_ok by_price 0 next (tx :: hs) ltac:(cbn; lia) Hh) as [Hp' Hh'].
  rewrite Et. split; [done|done| |done|]; cbn -[heap_Fix].
  - rewrite Hp', firsts_insert. cbn. by rewrite Hhs.
  - intros b. destruct (decide (b = a)) as [->|Hne]; [by rewrite !lookup_insert_eq|]. rewrite !lookup_insert_ne by done. apply Hleft.
Qed.

Lemma take_all_ok fuel rest t :
  bp_ok rest t -> (count rest <= fuel)%nat -> twp (take_all fuel) (fun out _ => best_first rest out) t.
Proof.
  revert rest t. induction fuel as [|fuel IH]; intros rest t Ht Hf; cbn [take_all]; twp_step; twp_step;
    destruct (bp_Peek t) as [tx|] eqn:E.
  2, 4: apply twp_ret, best_nil; intros a l Ha; destruct l as [|tx l]; [done|]; exfalso;
    assert (Hin : tx ∈ bp_heads t) by (rewrite (bp_perm _ _ Ht); apply firsts_elem; eauto);
    unfold bp_Peek in E; destruct (bp_heads t); [by apply not_elem_of_nil in Hin|done].
  - destruct (shift_ok rest t tx Ht E) as (a & l & Ha & _). rewrite (count_lookup _ _ _ Ha) in Hf. cbn in Hf. lia.
  - destruct (shift_ok rest t tx Ht E) as (a & l & Ha & Hbest & Hs). twp_step. eapply twp_mono; [exact Hs|]. cbn beta. intros _ t' Ht'.
    twp_step. eapply twp_mono; [apply (IH _ _ Ht')|].
    + rewrite (count_lookup _ _ _ Ha) in Hf. rewrite count_insert. cbn in Hf. lia.
    + cbn beta. intros out t2 Ho. apply twp_ret. by eapply best_cons.
Qed.

Lemma collect_heads_ok todo heads txs :
  NoDup todo -> (forall a, a ∈ todo -> exists tx l, txs !! a = Some (tx :: l) /\ sent_by a tx) ->
  twp (collect_heads signer todo heads) (fun r txs' => r = heads ++ omap (fun a => txs !! a ≫= head) todo /\
    forall a, txs' !! a = if decide (a ∈ todo) then tail <$> txs !! a else txs !! a) txs.
Proof.
  revert heads txs. induction todo as [|a todo IH]; intros heads txs Hn Ht; cbn [collect_heads].
  - apply twp_ret. by rewrite app_nil_r.
  - apply NoDup_cons in Hn as [Ha Hn]. destruct (Ht a) as (tx & l & E & Hs); [by left|]. twp_step. twp_step. rewrite E.
    cbn [head]. apply twp_bind, twp_deref, twp_bind. unfold sender_of. rewrite Hs. apply twp_ret. twp_step. twp_step.
    rewrite bool_decide_eq_false_2 by tauto. cbn [when]. apply twp_bind, twp_ret. eapply twp_mono; [apply IH; [done|]|].
    + intros b Hb. rewrite lookup_insert_ne by (intros ->; done). apply Ht. by right.
    + cbn beta. intros r txs' [-> Hl]. split.
      * rewrite <- app_assoc. f_equal. cbn. rewrite E. cbn. f_equal. apply list_omap_ext, Forall2_same_length_lookup_2; [done|].
        intros i b b' Hb Hb'. simplify_eq. rewrite lookup_insert_ne; [done|]. intros ->. apply Ha. apply list_elem_of_lookup. eauto.
      * intros b. rewrite Hl. destruct (decide (b = a)) as [->|Hne].
        { rewrite lookup_insert_eq, E, decide_False, decide_True by set_solver. done. }
        rewrite lookup_insert_ne by done. repeat case_decide; set_solver.
Qed.

Lemma best_first_sublist rest out a l : best_first rest out -> rest !! a = Some l -> l `sublist_of` out.
Proof.
  intros H. revert a l. induction H as [rest Hr|rest out b tx lb Hb _ _ IH]; intros a l Ha.
  - rewrite (Hr _ _ Ha). constructor.
  - destruct (decide (a = b)) as [->|Hne].
    + rewrite Hb in Ha. injection Ha as <-. apply sublist_skip, (IH b). by rewrite lookup_insert_eq.
    + apply sublist_cons, (IH a). by rewrite lookup_insert_ne.
Qed.

Lemma best_first_perm rest out : best_first rest out -> out ≡ₚ concat (map_to_list rest).*2.
Proof.
  induction 1 as [rest Hr|rest out b tx lb Hb _ _ IH].
  - assert (E : forall l : list (list Transaction), Forall (fun x => x = []) l -> concat l = []).
    { induction 1 as [|x l -> _ IH]; [done|]. cbn. by rewrite IH. }
    rewrite E; [done|]. apply Forall_fmap, Forall_forall. intros [a l] Ha%elem_of_map_to_list. by apply (Hr a).
  - rewrite <- (map_to_list_delete _ _ _ Hb). cbn. rewrite IH.
    rewrite <- (map_to_list_delete (<[b := lb]> rest) b lb) by by rewrite lookup_insert_eq. by rewrite delete_insert_eq.
Qed.

(** The transactions of the accounts come out completely, those of an account in the order
    of the account, and always one of the best price among those that are next. *)
Theorem price_and_nonce_order txs :
  map_Forall (fun a l => l <> [] /\ Forall (sent_by a) l) txs ->
  exists t out t', NewTransactionsByPriceAndNonce account_order signer txs = Ok t /\ take_all (count txs) t = Ok (out, t') /\
    best_first txs out /\ out ≡ₚ concat (map_to_list txs).*2 /\ forall a l, txs !! a = Some l -> l `sublist_of` out.
Proof.
  intros Htxs. assert (Hin : forall a, a ∈ account_order txs <-> is_Some (txs !! a)).
  { intros a. rewrite Horder, list_elem_of_fmap. split.
    - intros ([b l] & -> & H%elem_of_map_to_list). eauto.
    - intros [l H]. exists (a, l). by rewrite elem_of_map_to_list. }
  destruct (collect_heads_ok (account_order txs) [] txs) as (heads & txs' & E & -> & Hl).
  { rewrite Horder. apply NoDup_fst_map_to_list. }
  { intros a [l Ha]%Hin. destruct (Htxs _ _ Ha) as [Hne Hs]. destruct l as [|tx l]; [done|]. inversion_clear Hs. eauto. }
  destruct (heap_Init_ok by_price (omap (fun a => txs !! a ≫= head) (account_order txs))) as [Hp Hh].
  destruct (take_all_ok (count txs) txs (MkByPriceAndNonce txs' (heap_Init by_price (omap (fun a => txs !! a ≫= head) (account_order txs))) signer))
    as (out & t' & E' & Hb); [|done|].
  - split; cbn -[heap_Init]; [done|intros a l Ha; by apply Htxs| |done|].
    + rewrite Hp. unfold firsts. rewrite Horder, !omap_of_fmap. match goal with |- ?x ≡ₚ ?y => cut (x = y); [by intros ->|] end. apply list_omap_ext, Forall2_same_length_lookup_2; [done|].
      intros i [a l] kv' Ha Hb. simplify_eq. cbn. apply list_elem_of_lookup_2, elem_of_map_to_list in Ha. by rewrite Ha.
    + intros a. rewrite Hl. destruct (txs !! a) as [l|] eqn:Ea; [|by case_decide].
      rewrite decide_True by (apply Hin; eauto). done.
  - eexists _, out, t'. split_and!; [|exact E'|done|by apply best_first_perm|intros a l; by apply best_first_sublist].
    unfold NewTransactionsByPriceAndNonce. rewrite E. done.
Qed.
End by_price.
