(* ===== verification/SigningSpec.v ===== *)
(** * What signatures of transactions say

    A transaction signed by its sender and by a provider is a message of the one, paid for
    by the other, and what is signed determines what it says. The two signatures are of the
    same hash, so that the provider's can also be used as a sender's. *)

From S2P Require Import Prelude Bytes RlpEncode RlpDecode RlpCanonical RlpRaw Types Params EvmData Fallible StateDB EvmCore Precompiled Signing.

Section spec.
Context `{C : Crypto} {N : NativeCrypto}.

(** Documented behaviour of [crypto.Sign] and [crypto.Ecrecover] (of libsecp256k1): a
    signature is R, S in the lower half and a recovery id of 0 or 1, and gives back the
    uncompressed public key, whose hash ends with the address. *)
Class SigningLaws : Prop := {
  sign_values : forall h k sig, Sign h k = Some sig ->
    length sig = 65%nat /\
    ValidateSignatureValues (Z_of_byte (default (byte_of_Z 0) (sig !! 64%nat))) (SetBytes (take 32 sig))
      (SetBytes (take 32 (drop 32 sig))) true = true;
  sign_pubkey : forall h k sig, Sign h k = Some sig ->
    exists pub, crypto_Ecrecover (bytes_of h) sig = Some pub /\ bytes_of pub !! 0%nat = Some (byte_of_Z 4) /\
      BytesToAddress (drop 12 (bytes_of (keccak256 (drop 1 (bytes_of pub))))) = PubkeyAddress k
}.

Context {L : SigningLaws}.

(** The signers [NewEIP155Signer] makes for a chain with an id. *)
Definition signer_ok (s : Signer) : Prop :=
  match s with
  | EIP155Signer c m => 0 < c /\ m = c * 2
  | _ => True
  end.

(** ** Recovering *)
Lemma SetBytes_zeros n b : SetBytes (replicate n (byte_of_Z 0) ++ b) = SetBytes b.
Proof. induction n as [|n IH]; [done|]. cbn [replicate app]. rewrite SetBytes_cons, IH. by rewrite Z_of_byte_of_Z by lia. Qed.

Lemma pad_number b : length b = 32%nat -> LeftPadBytes (BigBytes (SetBytes b)) 32 = b.
Proof.
  intros Hb. pose proof (SetBytes_bound b) as Hr. rewrite Hb in Hr.
  pose proof (BigBytes_length_bound (SetBytes b) 32 Hr) as Hl. unfold LeftPadBytes.
  apply SetBytes_inj_length.
  - destruct (Z.leb_spec 32 (Z.of_nat (length (BigBytes (SetBytes b))))); [lia|]. rewrite length_app, length_replicate. lia.
  - destruct (Z.leb_spec 32 (Z.of_nat (length (BigBytes (SetBytes b))))); [apply SetBytes_BigBytes; lia|].
    rewrite SetBytes_zeros. apply SetBytes_BigBytes. lia.
Qed.

Lemma sig_parts (sig : bytes) :
  length sig = 65%nat ->
  take 32 sig ++ take 32 (drop 32 sig) ++ [default (byte_of_Z 0) (sig !! 64%nat)] = sig.
Proof.
  intros Hl. destruct (lookup_lt_is_Some_2 sig 64 ltac:(lia)) as [v Hv]. rewrite Hv. cbn [default from_option id].
  transitivity (take 32 sig ++ drop 32 sig); [f_equal|apply take_drop].
  transitivity (take 32 (drop 32 sig) ++ drop 32 (drop 32 sig)); [f_equal|apply take_drop].
  rewrite drop_drop. cbn [Nat.add]. rewrite (drop_S sig v 64 Hv), drop_ge by lia. done.
Qed.

Lemma Validate_weaken v r s homestead : ValidateSignatureValues v r s true = true -> ValidateSignatureValues v r s homestead = true.
Proof. unfold ValidateSignatureValues. destruct homestead; [done|]. repeat (destruct (_ || _); [done|]). by destruct (_ && (_ <? s)). Qed.

(** The values [SignatureValues] makes of a signature, with a V of 27 or 28. *)
Lemma recover_signed h k sig Vb homestead :
  Sign h k = Some sig -> Z.abs Vb = Z_of_byte (default (byte_of_Z 0) (sig !! 64%nat)) + 27 ->
  recoverPlain h (Some (SetBytes (take 32 sig))) (Some (SetBytes (take 32 (drop 32 sig)))) (Some Vb) homestead
    = Ok (inr (PubkeyAddress k)).
Proof.
  intros Hs HV. destruct (sign_values h k sig Hs) as [Hl Hval]. destruct (sign_pubkey h k sig Hs) as (pub & Hp & H4 & Ha).
  set (v := default (byte_of_Z 0) (sig !! 64%nat)) in *. pose proof (Validate_weaken _ _ _ homestead Hval) as Hval'.
  assert (Hv : Z_of_byte v = 0 \/ Z_of_byte v = 1).
  { unfold ValidateSignatureValues in Hval. destruct (_ || _); [done|]. destruct (_ && _); [done|].
    apply andb_true_iff in Hval as [_ Hv]. apply orb_true_iff in Hv as [?%Z.eqb_eq|?%Z.eqb_eq]; auto. }
  assert (HR : 1 <= SetBytes (take 32 sig)).
  { unfold ValidateSignatureValues in Hval. destruct (Z.ltb_spec (SetBytes (take 32 sig)) 1); [done|lia]. }
  unfold recoverPlain. assert (Hb : (8 <? big_BitLen Vb) = false).
  { unfold big_BitLen. destruct (Vb =? 0); [done|]. rewrite HV. by destruct Hv as [-> | ->]. }
  assert (Hu : uint64 (big_Uint64 Vb - 27) mod 2 ^ 8 = Z_of_byte v).
  { unfold big_Uint64. rewrite HV. by destruct Hv as [-> | ->]. }
  rewrite Hb, Hu. fal. rewrite (proj2 (Z.ltb_ge _ 1)) by lia. rewrite Hval'. cbn [negb].
  rewrite !pad_number, byte_of_Z_of_byte by (rewrite length_take, ?length_drop; lia).
  fold v. unfold v. rewrite sig_parts by done. rewrite Hp, H4. cbn [default from_option id].
  rewrite Z_of_byte_of_Z by lia. cbn. by rewrite Ha.
Qed.

Lemma sign_id h k sig : Sign h k = Some sig ->
  length sig = 65%nat /\ 0 <= Z_of_byte (default (byte_of_Z 0) (sig !! 64%nat)) <= 1.
Proof.
  intros Hs. destruct (sign_values h k sig Hs) as [Hl Hval]. split; [done|]. unfold ValidateSignatureValues in Hval.
  destruct (_ || _); [done|]. destruct (_ && _); [done|]. apply andb_true_iff in Hval as [_ Hv].
  apply orb_true_iff in Hv as [?%Z.eqb_eq|?%Z.eqb_eq]; lia.
Qed.

(** ** The values of V *)
Lemma BitLen_le x n : 0 <= n -> big_BitLen x <= n -> Z.abs x < 2 ^ n.
Proof.
  unfold big_BitLen. intros Hn. destruct (Z.eqb_spec x 0) as [->|Hx]; intros H; [cbn; lia|].
  apply Z.log2_lt_pow2; lia.
Qed.

Definition V_of (s : Signer) (v : Z) : Z :=
  match s with
  | EIP155Signer _ m => v + 35 + m
  | _ => v + 27
  end.

Lemma protected_V c v : 0 < c -> 0 <= v <= 1 -> isProtectedV (v + 35 + c * 2) = true.
Proof.
  intros Hc Hv. unfold isProtectedV. destruct (Z.leb_spec (big_BitLen (v + 35 + c * 2)) 8) as [Hb|]; [|done].
  apply BitLen_le in Hb; [|lia]. unfold big_Uint64. rewrite Z.abs_eq in * by lia. rewrite Z.mod_small by lia.
  rewrite (proj2 (Z.eqb_neq _ 27)), (proj2 (Z.eqb_neq _ 28)) by lia. done.
Qed.

Lemma chain_of_V c v : 0 < c -> 0 <= v <= 1 -> deriveChainId (v + 35 + c * 2) = c.
Proof.
  intros Hc Hv. assert (Hd : (v + 35 + c * 2 - 35) / 2 = c).
  { replace (v + 35 + c * 2 - 35) with (v + c * 2) by lia. rewrite Z.div_add by lia. rewrite Z.div_small; lia. }
  unfold deriveChainId. destruct (Z.leb_spec (big_BitLen (v + 35 + c * 2)) 64) as [Hb|]; [|done].
  apply BitLen_le in Hb; [|lia]. unfold big_Uint64. rewrite Z.abs_eq in * by lia. rewrite (Z.mod_small (v + 35 + c * 2)) by lia.
  rewrite (proj2 (Z.eqb_neq _ 27)), (proj2 (Z.eqb_neq _ 28)) by lia. cbn [orb].
  by rewrite uint64_small by (unfold is_uint64; lia).
Qed.

Lemma SignatureValues_eq s h k sig :
  signer_ok s -> Sign h k = Some sig ->
  SignatureValues s sig = Ok (inr (SetBytes (take 32 sig), SetBytes (take 32 (drop 32 sig)),
                                   V_of s (Z_of_byte (default (byte_of_Z 0) (sig !! 64%nat))))).
Proof.
  intros Hok Hs. destruct (sign_id h k sig Hs) as [Hl Hv]. unfold SignatureValues. rewrite Hl. cbn [Nat.eqb negb]. cbv zeta.
  fal. do 3 f_equal. destruct s as [c m| |]; cbn [V_of]; [|by rewrite Z.mod_small by lia..].
  destruct Hok as [Hc ->]. rewrite (proj2 (Z.eqb_neq c 0)) by lia. cbn [negb]. rewrite Z.mod_small by lia. lia.
Qed.

(** A transaction with a signature of its hash as the sender's, or as the provider's. *)
Lemma Sender_signed s t k sig :
  signer_ok s -> Sign (signer_Hash s t) k = Some sig ->
  tx_V t = Some (V_of s (Z_of_byte (default (byte_of_Z 0) (sig !! 64%nat)))) ->
  tx_R t = Some (SetBytes (take 32 sig)) -> tx_S t = Some (SetBytes (take 32 (drop 32 sig))) ->
  signer_Sender s t = Ok (inr (PubkeyAddress k)).
Proof.
  intros Hok Hs HV HR HS. destruct (sign_id _ k sig Hs) as [_ Hv]. unfold signer_Sender.
  destruct s as [c m| |]; rewrite HV, HR, HS; cbn [V_of]; [|by apply recover_signed; [done|lia]..].
  destruct Hok as [Hc ->]. rewrite raise_Some, protected_V, chain_of_V, Z.eqb_refl by done. cbn [negb].
  apply recover_signed; [done|lia].
Qed.

Lemma Provider_signed s t k sig V :
  signer_ok s -> Sign (signer_Hash s t) k = Some sig -> tx_V t = Some V ->
  (forall c m, s = EIP155Signer c m -> deriveChainId V = c) ->
  tx_PV t = Some (V_of s (Z_of_byte (default (byte_of_Z 0) (sig !! 64%nat)))) ->
  tx_PR t = Some (SetBytes (take 32 sig)) -> tx_PS t = Some (SetBytes (take 32 (drop 32 sig))) ->
  signer_Provider s t = Ok (inr (PubkeyAddress k)).
Proof.
  intros Hok Hs HV Hchain HPV HR HS. destruct (sign_id _ k sig Hs) as [_ Hv]. unfold signer_Provider.
  destruct s as [c m| |]; rewrite HPV, HR, HS; cbn [V_of]; [|by apply recover_signed; [done|lia]..].
  specialize (Hchain c m eq_refl). destruct Hok as [Hc ->]. rewrite raise_Some, protected_V by done. cbn [negb].
  rewrite HV, raise_Some, Hchain, Z.eqb_refl. cbn [negb]. apply recover_signed; [done|lia].
Qed.

Lemma V_chain s v c m : signer_ok s -> 0 <= v <= 1 -> s = EIP155Signer c m -> deriveChainId (V_of s v) = c.
Proof. intros Hok Hv ->. destruct Hok as [Hc ->]. by apply chain_of_V. Qed.

(** A provider is found as the one who signed. *)
Lemma Provider_present s t k V :
  tx_PV t = Some V -> V <> 0 -> signer_Provider s t = Ok (inr (PubkeyAddress k)) -> PubkeyAddress k <> zeroAddress ->
  Provider s t = Ok (inr (Some (PubkeyAddress k))).
Proof.
  intros HV Hne Hp Hz. unfold Provider. rewrite HV. cbn [absent]. rewrite (proj2 (Z.eqb_neq V 0)) by done. cbn [andb].
  rewrite Hp. fal. by rewrite bool_decide_eq_false_2.
Qed.

Lemma V_positive s v : signer_ok s -> 0 <= v <= 1 -> 0 < V_of s v.
Proof. destruct s; cbn; lia. Qed.

(** ** Messages *)
Definition message_of (t : Transaction) (price : Z) (from payer : Address) : Message :=
  MkMessage (tx_Recipient t) from (tx_Owner t) (tx_Provider t) (tx_AccountNonce t) (tx_Amount t) (tx_GasLimit t) price
    (tx_Payload t) true payer.

Lemma AsMessage_eq s t price from provider :
  tx_Price t = Some price -> signer_Sender s t = Ok (inr from) -> Provider s t = Ok (inr provider) ->
  AsMessage s t = Ok (inr (message_of t price from (default from provider))).
Proof. intros Hp Hs Hpr. unfold AsMessage. rewrite Hp, raise_Some, Hs. fal. by rewrite Hpr. Qed.

Lemma SignTx_eq s k t sig :
  signer_ok s -> Sign (signer_Hash s t) k = Some sig ->
  SignTx s k t = Ok (inr (set_signature (Some (V_of s (Z_of_byte (default (byte_of_Z 0) (sig !! 64%nat)))))
                            (Some (SetBytes (take 32 sig))) (Some (SetBytes (take 32 (drop 32 sig)))) t)).
Proof.
  intros Hok Hs. unfold SignTx, sign_hash. rewrite Hs. fal. unfold WithSignature.
  by rewrite (SignatureValues_eq s (signer_Hash s t) k) by done.
Qed.

Lemma ProviderSignTx_eq s k t sig :
  signer_ok s -> Sign (signer_Hash s t) k = Some sig ->
  ProviderSignTx s k t = Ok (inr (set_provider_signature (Some (V_of s (Z_of_byte (default (byte_of_Z 0) (sig !! 64%nat)))))
                                    (Some (SetBytes (take 32 sig))) (Some (SetBytes (take 32 (drop 32 sig)))) t)).
Proof.
  intros Hok Hs. unfold ProviderSignTx, sign_hash. rewrite Hs. fal. unfold WithProviderSignature.
  by rewrite (SignatureValues_eq s (signer_Hash s t) k) by done.
Qed.

(** C13: signing and recovering are inverse. A transaction that its sender signed is a
    message of the sender, who pays for its gas, and says what the transaction says; when a
    provider has signed it too, the provider pays. *)
Theorem signed_message s t k p sig psig price :
  signer_ok s -> tx_Price t = Some price -> Sign (signer_Hash s t) k = Some sig -> Sign (signer_Hash s t) p = Some psig ->
  absent (tx_PV t) = true -> absent (tx_PR t) = true -> absent (tx_PS t) = true -> PubkeyAddress p <> zeroAddress ->
  exists t1 t2,
    SignTx s k t = Ok (inr t1) /\ AsMessage s t1 = Ok (inr (message_of t price (PubkeyAddress k) (PubkeyAddress k))) /\
    ProviderSignTx s p t1 = Ok (inr t2) /\ AsMessage s t2 = Ok (inr (message_of t price (PubkeyAddress k) (PubkeyAddress p))).
Proof.
  intros Hok Hprice Hk Hp A1 A2 A3 Hz. destruct (sign_id _ k sig Hk) as [_ Hv]. destruct (sign_id _ p psig Hp) as [_ Hpv].
  do 2 eexists. split_and!; [by apply SignTx_eq| |by apply ProviderSignTx_eq|].
  - refine (AsMessage_eq s (set_signature _ _ _ t) price (PubkeyAddress k) None _ _ _); [done|by apply Sender_signed with sig|]. unfold Provider. cbn [tx_PV tx_PR tx_PS set_signature].
    by rewrite A1, A2, A3.
  - refine (AsMessage_eq s (set_provider_signature _ _ _ (set_signature _ _ _ t)) price (PubkeyAddress k) (Some (PubkeyAddress p)) _ _ _);
      [done|by apply Sender_signed with sig|].
    eapply Provider_present; [done|pose proof (V_positive s _ Hok Hpv); lia| |done].
    eapply Provider_signed; [done|exact Hp|done| |done..]. intros c m Hs. by eapply V_chain.
Qed.

(** C15: a provider's signature is a sender's. Whoever has a transaction that a provider
    signed, to pay for its gas, can put that signature in the place of the sender's: the
    result is a message of the provider, with the value, the recipient and the data of the
    transaction, and needs nothing else of the provider. *)
Theorem provider_signature_sends s t p psig price :
  signer_ok s -> tx_Price t = Some price -> Sign (signer_Hash s t) p = Some psig -> PubkeyAddress p <> zeroAddress ->
  exists t2, ProviderSignTx s p t = Ok (inr t2) /\
    AsMessage s (set_signature (tx_PV t2) (tx_PR t2) (tx_PS t2) t2)
      = Ok (inr (message_of t price (PubkeyAddress p) (PubkeyAddress p))).
Proof.
  intros Hok Hprice Hp Hz. destruct (sign_id _ p psig Hp) as [_ Hpv].
  eexists. split; [by apply ProviderSignTx_eq|].
  refine (AsMessage_eq s (set_signature _ _ _ (set_provider_signature _ _ _ t)) price (PubkeyAddress p) (Some (PubkeyAddress p)) _ _ _);
    [done|by apply Sender_signed with psig|].
  eapply Provider_present; [done|pose proof (V_positive s _ Hok Hpv); lia| |done].
  eapply Provider_signed; [done|exact Hp|done| |done..]. intros c m Hs. by eapply V_chain.
Qed.

(** The provider's signature of a chain is accepted with another V, so that anyone can
    change a transaction, and with it its hash, on the way. *)
Lemma provider_signature_malleable c t p psig v :
  10 < c -> c <> 23 -> c <> 24 -> deriveChainId v = c -> tx_V t = Some v ->
  Sign (signer_Hash (EIP155Signer c (c * 2)) t) p = Some psig -> PubkeyAddress p <> zeroAddress ->
  exists t2, ProviderSignTx (EIP155Signer c (c * 2)) p t = Ok (inr t2) /\
    exists V, Some V <> tx_PV t2 /\ 0 < V /\
      Provider (EIP155Signer c (c * 2)) (set_provider_signature (Some V) (tx_PR t2) (tx_PS t2) t2)
        = Ok (inr (Some (PubkeyAddress p))).
Proof.
  intros Hc H23 H24 Hd Hv Hp Hz. set (s := EIP155Signer c (c * 2)) in *. assert (Hok : signer_ok s) by (cbn; lia).
  destruct (sign_id _ p psig Hp) as [_ Hpv]. eexists. split; [by apply (ProviderSignTx_eq s)|].
  set (b := Z_of_byte _) in *. exists (c * 2 - 19 - b). cbn [tx_PV set_provider_signature].
  assert (Hpos : 0 < c * 2 - 19 - b) by lia.
  split; [cbn; intros [= ?]; lia|]. split; [done|].
  eapply Provider_present; [done|lia| |done]. unfold signer_Provider, s. cbn [tx_PV tx_PR tx_PS tx_V set_provider_signature].
  rewrite raise_Some. assert (isProtectedV (c * 2 - 19 - b) = true) as ->.
  { unfold isProtectedV. destruct (Z.leb_spec (big_BitLen (c * 2 - 19 - b)) 8) as [Hb|]; [|done].
    apply BitLen_le in Hb; [|lia]. unfold big_Uint64. rewrite Z.abs_eq in * by lia. rewrite Z.mod_small by lia.
    rewrite (proj2 (Z.eqb_neq _ 27)), (proj2 (Z.eqb_neq _ 28)) by lia. done. }
  cbn [negb]. rewrite Hv, raise_Some, Hd, Z.eqb_refl. cbn [negb]. apply recover_signed; [done|]. fold b. lia.
Qed.
End spec.

(** ** What is signed *)
Section content.
Context `{C : Crypto}.

Definition optaddr_bytes (a : option Address) : bytes := match a with Some a => bytes_of a | None => [] end.

(** The strings of the list that is signed. *)
Definition signed_strings (s : Signer) (t : Transaction) : list bytes :=
  [BigBytes (tx_AccountNonce t); BigBytes (default 0 (tx_Price t)); BigBytes (tx_GasLimit t);
   optaddr_bytes (tx_Recipient t); BigBytes (default 0 (tx_Amount t)); tx_Payload t] ++
  match tx_Provider t with
  | None => []
  | Some p => [optaddr_bytes (tx_Owner t); bytes_of p]
  end ++
  match s with
  | EIP155Signer chainId _ => [BigBytes chainId; BigBytes 0; BigBytes 0]
  | _ => []
  end.

Lemma signed_value_strings s t : ref_encode (signed_value s t) = ref_encode (GList (GBytes <$> signed_strings s t)).
Proof.
  unfold signed_value, signed_fields, signed_strings. destruct (tx_Recipient t), (tx_Provider t), (tx_Owner t), s; done.
Qed.

(** Numbers in their ranges. *)
Definition signable (t : Transaction) : Prop :=
  0 <= tx_AccountNonce t < 2 ^ 64 /\ 0 <= tx_GasLimit t < 2 ^ 64 /\ nonneg (tx_Price t) = true /\ nonneg (tx_Amount t) = true.

Lemma nonneg_Some p : nonneg p = true -> exists z, p = Some z /\ 0 <= z.
Proof. destruct p as [z|]; [|done]. cbn. intros ?%Z.leb_le. eauto. Qed.

Lemma signed_value_encodable s t : signer_ok s -> signable t -> encodable (signed_value s t) = true.
Proof.
  intros Hs (Hn & Hg & (pr & Hp & Hp0)%nonneg_Some & (am & Ha & Ha0)%nonneg_Some).
  unfold signed_value, signed_fields. rewrite Hp, Ha. cbn [encodable]. rewrite !forallb_app. cbn [forallb encodable].
  rewrite !(proj2 (Z.leb_le 0 _)), !(proj2 (Z.ltb_lt _ _)) by lia. cbn [andb].
  assert (Hrcpt : forall a, encodable (optaddr_gval a) = true) by (by intros []). rewrite Hrcpt. cbn [andb].
  destruct (tx_Provider t), s as [c m| |]; cbn [forallb encodable optaddr_gval]; rewrite ?Hrcpt; try done.
  - destruct Hs. by rewrite (proj2 (Z.leb_le 0 c)) by lia.
  - destruct Hs. by rewrite (proj2 (Z.leb_le 0 c)) by lia.
Qed.

Lemma signed_input s t :
  signer_ok s -> signable t -> fits (signed_value s t) -> hash_input (signed_value s t) = ref_encode (signed_value s t).
Proof.
  intros Hs Ht Hf. unfold hash_input, Encode. rewrite write_after by (try done; by apply signed_value_encodable).
  by rewrite toWriter_after.
Qed.

Lemma strings_inj (l1 l2 : list bytes) :
  fits (GList (GBytes <$> l1)) -> ref_encode (GList (GBytes <$> l1)) = ref_encode (GList (GBytes <$> l2)) -> l1 = l2.
Proof.
  intros Hf Heq. assert (Hty : forall l, has_ty (TSlice TBytes) (GList (GBytes <$> l)) = true).
  { intros l. cbn [has_ty]. by induction l. }
  pose proof (DecodeBytes_ty _ _ (Hty l1) Hf) as D1. unfold fits in Hf. rewrite Heq in Hf.
  pose proof (DecodeBytes_ty _ _ (Hty l2) Hf) as D2. rewrite Heq, D2 in D1. apply (inj inr) in D1. injection D1 as D1.
  apply (list_fmap_eq_inj GBytes) in D1; [done|]. by intros ?? [= ->].
Qed.

Lemma BigBytes_inj a b : 0 <= a -> 0 <= b -> BigBytes a = BigBytes b -> a = b.
Proof. intros Ha Hb E. rewrite <- (SetBytes_BigBytes a), <- (SetBytes_BigBytes b) by done. by rewrite E. Qed.

Lemma optaddr_bytes_inj a b : optaddr_bytes a = optaddr_bytes b -> a = b.
Proof.
  destruct a as [a|], b as [b|]; cbn; intros E; [by rewrite (inj bytes_of a b E)|..|done].
  - pose proof (bytes_of_length a) as Hl. by rewrite E in Hl.
  - pose proof (bytes_of_length b) as Hl. by rewrite <- E in Hl.
Qed.

Definition chain_of (s : Signer) : option Z := match s with EIP155Signer c _ => Some c | _ => None end.

(** What a signature is about. *)
Record same_content (t1 t2 : Transaction) : Prop := {
  sc_nonce : tx_AccountNonce t1 = tx_AccountNonce t2;
  sc_price : tx_Price t1 = tx_Price t2;
  sc_gas : tx_GasLimit t1 = tx_GasLimit t2;
  sc_recipient : tx_Recipient t1 = tx_Recipient t2;
  sc_amount : tx_Amount t1 = tx_Amount t2;
  sc_payload : tx_Payload t1 = tx_Payload t2;
  sc_provider : tx_Provider t1 = tx_Provider t2;
  sc_owner : tx_Provider t1 <> None -> tx_Owner t1 = tx_Owner t2
}.

Lemma signed_strings_inj s1 s2 t1 t2 :
  signer_ok s1 -> signer_ok s2 -> signable t1 -> signable t2 -> signed_strings s1 t1 = signed_strings s2 t2 ->
  same_content t1 t2 /\ chain_of s1 = chain_of s2.
Proof.
  intros Hs1 Hs2 (Hn1 & Hg1 & (p1 & Hp1 & Hp1')%nonneg_Some & (a1 & Ha1 & Ha1')%nonneg_Some)
    (Hn2 & Hg2 & (p2 & Hp2 & Hp2')%nonneg_Some & (a2 & Ha2 & Ha2')%nonneg_Some).
  unfold signed_strings. rewrite Hp1, Hp2, Ha1, Ha2. cbn [default from_option id app].
  intros [= En Ep Eg Er%optaddr_bytes_inj Ea Ed Erest].
  apply BigBytes_inj in En; [|lia..]. apply BigBytes_inj in Ep; [|lia..]. apply BigBytes_inj in Eg; [|lia..].
  apply BigBytes_inj in Ea; [|lia..].
  destruct (tx_Provider t1) as [q1|] eqn:Hq1, (tx_Provider t2) as [q2|] eqn:Hq2, s1 as [c1 m1| |], s2 as [c2 m2| |];
    cbn [app chain_of] in *; try discriminate Erest;
    try (injection Erest as Eo Eq Ec; apply (inj bytes_of) in Eq; apply optaddr_bytes_inj in Eo);
    try (injection Erest as Eo Eq; apply (inj bytes_of) in Eq; apply optaddr_bytes_inj in Eo);
    try (injection Erest as Ec); try (apply BigBytes_inj in Ec; [|cbn in *; lia..]);
    (split; [split; congruence|congruence]).
Qed.

(** C14: what is signed determines what the transaction says. Transactions with the same
    hash for signing, on the same or on different chains, agree on the nonce, the price, the
    gas, the recipient, the amount, the data, the provider and, with a provider, the owner,
    and are for the same chain, unless Keccak-256 has the same value for the two lists that
    are hashed though they differ. *)
Theorem signed_content s1 s2 t1 t2 :
  signer_ok s1 -> signer_ok s2 -> signable t1 -> signable t2 -> fits (signed_value s1 t1) -> fits (signed_value s2 t2) ->
  no_collision (hash_input (signed_value s1 t1)) (hash_input (signed_value s2 t2)) ->
  signer_Hash s1 t1 = signer_Hash s2 t2 -> same_content t1 t2 /\ chain_of s1 = chain_of s2.
Proof.
  intros Hs1 Hs2 Ht1 Ht2 Hf1 Hf2 Hnc Heq. apply Hnc in Heq. rewrite !signed_input in Heq by done.
  rewrite !signed_value_strings in Heq. apply signed_strings_inj; [done..|]. apply strings_inj; [|done].
  unfold fits in *. by rewrite <- signed_value_strings.
Qed.

(** Without a provider the owner of a new contract is not signed. *)
Lemma owner_not_signed s t owner : tx_Provider t = None -> signer_Hash s (set_parties owner None t) = signer_Hash s t.
Proof. intros Hp. unfold signer_Hash, signed_value, signed_fields. cbn. by rewrite Hp. Qed.
End content.

(** ** The sender that is kept *)
Section cached.
Context `{C : Crypto} {N : NativeCrypto}.

(** Signers as [NewEIP155Signer] makes them. *)
Definition signer_made (s : Signer) : Prop := match s with EIP155Signer c m => m = c * 2 | _ => True end.

Definition cache_ok (t : CachedTx) : Prop :=
  match ct_from t with
  | Some (s, a) => signer_made s /\ signer_Sender s (ct_data t) = Ok (inr a)
  | None => True
  end.

Lemma signer_Equal_eq s1 s2 : signer_made s1 -> signer_made s2 -> signer_Equal s1 s2 = true -> s1 = s2.
Proof. destruct s1, s2; cbn; try done. intros -> -> ->%Z.eqb_eq. done. Qed.

(** With a sender that was kept, [Sender] answers as without. *)
Lemma Sender_cached s t :
  signer_made s -> cache_ok t ->
  match signer_Sender s (ct_data t) with
  | Ok r => exists t', Sender s t = Ok (r, t') /\ ct_data t' = ct_data t /\ cache_ok t'
  | Panic => Sender s t = Panic
  | OutOfFuel => Sender s t = OutOfFuel
  end.
Proof.
  intros Hs Hc. assert (Hd : match signer_Sender s (ct_data t) with
    | Ok r => exists t', derive_sender s t t = Ok (r, t') /\ ct_data t' = ct_data t /\ cache_ok t'
    | Panic => derive_sender s t t = Panic
    | OutOfFuel => derive_sender s t t = OutOfFuel
    end).
  { unfold derive_sender, embed. run. destruct (signer_Sender s (ct_data t)) as [[e|a]| |] eqn:E; [by exists t| |done..].
    eexists. split; [done|]. split; [done|]. done. }
  unfold Sender. run. unfold cache_ok in Hc. destruct (ct_from t) as [[s' a]|] eqn:Ef; [|done].
  destruct Hc as [Hs' Ha]. destruct (signer_Equal s' s) eqn:Ee; [|done].
  apply signer_Equal_eq in Ee as ->; [|done..]. rewrite Ha. exists t. split; [done|]. split; [done|].
  unfold cache_ok. by rewrite Ef.
Qed.
End cached.

(** ** A concrete instance

    A key is its address; the hash is the end of what is hashed; a signature holds the key
    in R, and the public key ends with it. *)
Definition plain_R (k : Address) : bytes := replicate 11 (byte_of_Z 0) ++ byte_of_Z 1 :: bytes_of k.
Definition plain_S : bytes := replicate 31 (byte_of_Z 0) ++ [byte_of_Z 1].

Definition plain_crypto : Crypto := {|
  keccak256 := BytesToHash;
  sha3_256 := BytesToHash;
  PrivateKey := Address;
  PubkeyAddress := fun k => k;
  Sign := fun h k => Some (plain_R k ++ plain_S ++ [byte_of_Z 0]);
  SigToAddress := fun h sig => Some (BytesToAddress (take 20 (drop 12 sig)))
|}.

Definition plain_native : NativeCrypto := {|
  crypto_Ecrecover := fun h sig => Some (mk_bytesN 65 ([byte_of_Z 4] ++ replicate 44 (byte_of_Z 0) ++ take 20 (drop 12 sig)));
  sha256_Sum256 := fun b => mk_bytesN 32 b;
  ripemd160_Sum := fun b => mk_bytesN 20 b;
  G1 := unit;
  G2 := unit;
  G1_Unmarshal := fun _ => None;
  G2_Unmarshal := fun _ => None;
  G1_Add := fun _ _ => tt;
  G1_ScalarMult := fun _ _ => tt;
  G1_Marshal := fun _ => mk_bytesN 64 [];
  PairingCheck := fun _ _ => false
|}.

Lemma length_plain_R k : length (plain_R k) = 32%nat.
Proof. unfold plain_R. rewrite length_app. cbn [length]. by rewrite bytes_of_length. Qed.

Lemma plain_R_range k : 1 <= SetBytes (plain_R k) < secp256k1N.
Proof.
  unfold plain_R. rewrite SetBytes_zeros, SetBytes_cons, Z_of_byte_of_Z, bytes_of_length by lia.
  pose proof (SetBytes_bound (bytes_of k)) as Hb. rewrite bytes_of_length in Hb.
  assert (HN : 2 * 256 ^ Z.of_nat AddressLength < secp256k1N) by done. revert Hb HN.
  assert (Hp : 0 < 256 ^ Z.of_nat AddressLength) by done. revert Hp.
  rewrite (Z.mod_small 1 256) by lia. generalize (256 ^ Z.of_nat AddressLength), secp256k1N. lia.
Qed.

Lemma plain_laws : @SigningLaws plain_crypto plain_native.
Proof.
  split; intros h k sig Hs; apply (inj Some) in Hs as <-; pose proof (length_plain_R k) as Hk.
  - split; [by rewrite !length_app, Hk|].
    rewrite (take_app_length' (plain_R k)), (drop_app_length' (plain_R k)), (take_app_length' plain_S) by done.
    rewrite lookup_app_r by lia. rewrite Hk. pose proof (plain_R_range k). unfold ValidateSignatureValues.
    rewrite (proj2 (Z.ltb_ge (SetBytes (plain_R k)) 1)), (proj2 (Z.ltb_lt (SetBytes (plain_R k)) secp256k1N)) by lia. done.
  - eexists. split; [reflexivity|]. cbn [plain_crypto keccak256 PubkeyAddress].
    assert (Hd : take 20 (drop 12 (plain_R k ++ plain_S ++ [byte_of_Z 0])) = bytes_of k).
    { replace (plain_R k ++ _) with ((replicate 11 (byte_of_Z 0) ++ [byte_of_Z 1]) ++ bytes_of k ++ plain_S ++ [byte_of_Z 0])
        by (unfold plain_R; by rewrite <- !app_assoc).
      rewrite drop_app_length' by done. apply take_app_length'. by rewrite bytes_of_length. }
    rewrite Hd. cbn [plain_native]. rewrite bytes_of_mk, fit_id by (rewrite !length_app, bytes_of_length; done).
    split; [done|]. apply (inj bytes_of). cbn [app drop]. change 44%nat with (32 + 12)%nat. rewrite replicate_add, <- app_assoc, drop_0.
    unfold BytesToAddress, BytesToHash. rewrite !bytes_of_mk, (fit_app HashLength) by (rewrite length_app, bytes_of_length; done).
    by rewrite drop_app_length', fit_id by (try done; apply bytes_of_length).
Qed.

(** A transfer of 100 on the chain 15. *)
Definition demo_transfer : Transaction := NewTransaction 3 (BigToAddress 77) (Some 100) 21000 (Some 5) [].
Definition demo_signer : Signer := NewEIP155Signer (Some 15).

Lemma signed_message_witness :
  exists t1 t2,
    @SignTx plain_crypto demo_signer (BigToAddress 41) demo_transfer = Ok (inr t1) /\
    @AsMessage plain_crypto plain_native demo_signer t1 = Ok (inr (message_of demo_transfer 5 (BigToAddress 41) (BigToAddress 41))) /\
    @ProviderSignTx plain_crypto demo_signer (BigToAddress 42) t1 = Ok (inr t2) /\
    @AsMessage plain_crypto plain_native demo_signer t2 = Ok (inr (message_of demo_transfer 5 (BigToAddress 41) (BigToAddress 42))).
Proof.
  apply (@signed_message plain_crypto plain_native plain_laws demo_signer demo_transfer (BigToAddress 41) (BigToAddress 42)
           (plain_R (BigToAddress 41) ++ plain_S ++ [byte_of_Z 0]) (plain_R (BigToAddress 42) ++ plain_S ++ [byte_of_Z 0]) 5);
    [cbn; lia|done..|]. apply (bool_decide_eq_false_1 _); vm_compute; reflexivity.
Defined.

Lemma provider_signature_sends_witness :
  exists t2, @ProviderSignTx plain_crypto demo_signer (BigToAddress 42) demo_transfer = Ok (inr t2) /\
    @AsMessage plain_crypto plain_native demo_signer (set_signature (tx_PV t2) (tx_PR t2) (tx_PS t2) t2)
      = Ok (inr (message_of demo_transfer 5 (BigToAddress 42) (BigToAddress 42))).
Proof.
  apply (@provider_signature_sends plain_crypto plain_native plain_laws demo_signer demo_transfer (BigToAddress 42)
           (plain_R (BigToAddress 42) ++ plain_S ++ [byte_of_Z 0]) 5);
    [cbn; lia|done..|]. apply (bool_decide_eq_false_1 _); vm_compute; reflexivity.
Defined.

(** The creation of a contract, with and without an owner. *)
Definition demo_creation (owner : option Address) : Transaction :=
  NewContractCreation 4 None 100000 (Some 5) [byte_of_Z 96; byte_of_Z 0] (Some (owner, None)).

Lemma signed_content_witness :
  same_content (demo_creation None) (demo_creation (Some (BigToAddress 9))) /\ chain_of demo_signer = chain_of demo_signer.
Proof.
  apply (@signed_content plain_crypto demo_signer demo_signer (demo_creation None) (demo_creation (Some (BigToAddress 9))));
    [cbn; lia|cbn; lia|unfold signable; cbn; lia|unfold signable; cbn; lia|done|done|intros _; done|done].
Defined.
