(* ===== verification/Transition.v ===== *)
(** * State transitions

    Models [src/core/gaspool.go] and [src/core/state_transition.go]: applying a message to
    the state, from buying its gas to giving back what was not used. *)

From S2P Require Import Prelude Bytes RlpEncode RlpDecode RlpCanonical RlpRaw Types Params EvmData Fallible StateDB EvmCore EvmGas EvmOps JumpTable Precompiled Evm Signing.

(** ** The gas pool of a block *)
Definition AddGas (amount gp : Z) : res Z := if MaxUint64 - amount <? gp then Panic else Ok (gp + amount).
Definition SubGas (amount gp : Z) : error + Z := if gp <? amount then inl ErrGasLimitReached else inr (gp - amount).

(** ** The gas of the data *)
Definition nonzero_bytes (data : bytes) : Z :=
  Z.of_nat (length (List.filter (fun b => negb (Z_of_byte b =? 0)) data)).

Definition IntrinsicGas (data : bytes) (contractCreation homestead : bool) : error + Z :=
  let gas := if contractCreation && homestead then TxGasContractCreation else TxGas in
  if (length data =? 0)%nat then inr gas
  else
    let nz := nonzero_bytes data in
    if (MaxUint64 - gas) / TxDataNonZeroGas <? nz then inl ErrVmOutOfGas
    else
      let gas := uint64 (gas + nz * TxDataNonZeroGas) in
      let z := uint64 (Z.of_nat (length data) - nz) in
      if (MaxUint64 - gas) / TxDataZeroGas <? z then inl ErrVmOutOfGas
      else inr (uint64 (gas + z * TxDataZeroGas)).

Section transition.
Context `{C : Crypto} {DB : StateDatabase} {N : NativeCrypto} {E : Environment}.

(** ** The transition of a message

    The message does not change; the price, the value and the data are its own. *)
Record StateTransition : Type := MkTransition {
  st_gp : Z;
  st_gas : Z;
  st_initialGas : Z;
  st_evm : Evm
}.

Definition set_gp (gp : Z) (st : StateTransition) : StateTransition :=
  MkTransition gp (st_gas st) (st_initialGas st) (st_evm st).
Definition set_st_gas (gas : Z) (st : StateTransition) : StateTransition :=
  MkTransition (st_gp st) gas (st_initialGas st) (st_evm st).
Definition set_initialGas (gas : Z) (st : StateTransition) : StateTransition :=
  MkTransition (st_gp st) (st_gas st) gas (st_evm st).
Definition set_st_evm (e : Evm) (st : StateTransition) : StateTransition :=
  MkTransition (st_gp st) (st_gas st) (st_initialGas st) e.

Definition NewStateTransition (evm : Evm) (gp : Z) : StateTransition := MkTransition gp 0 0 evm.

Definition on_machine {A} (m : M Evm A) : M StateTransition A := zoom st_evm set_st_evm m.
Definition state {A} (m : M StateDB A) : M StateTransition A := on_machine (on_db m).

Section message.
Context (msg : Message).

Definition to : Address := default zeroAddress (msg_to msg).

Definition useGas (amount : Z) : M StateTransition (option error) :=
  gas ← gets st_gas;
  if gas <? amount then mret (Some ErrVmOutOfGas)
  else modify (set_st_gas (gas - amount));; mret None.

Definition buyGas : M StateTransition (option error) :=
  let mgval := msg_gasLimit msg * msg_gasPrice msg in
  balance ← state (GetBalance (msg_gasPayer msg));
  if balance <? mgval then mret (Some ErrInsufficientBalanceForGas)
  else
    gp ← gets st_gp;
    match SubGas (msg_gasLimit msg) gp with
    | inl e => mret (Some e)
    | inr gp =>
        modify (set_gp gp);;
        modify (fun st => set_st_gas (uint64 (st_gas st + msg_gasLimit msg)) st);;
        modify (set_initialGas (msg_gasLimit msg));;
        state (SubBalance (msg_gasPayer msg) mgval);;
        mret None
    end.

Definition preCheck : M StateTransition (option error) :=
  if msg_checkNonce msg then
    nonce ← state (GetNonce (msg_from msg));
    if nonce <? msg_nonce msg then mret (Some ErrNonceTooHigh)
    else if msg_nonce msg <? nonce then mret (Some ErrNonceTooLow)
    else buyGas
  else buyGas.

Definition gasUsed : M StateTransition Z := gets (fun st => uint64 (st_initialGas st - st_gas st)).

Definition refundGas : M StateTransition unit :=
  used ← gasUsed;
  refunds ← state GetRefund;
  let refund := if refunds <? used / 2 then refunds else used / 2 in
  modify (fun st => set_st_gas (uint64 (st_gas st + refund)) st);;
  gas ← gets st_gas;
  state (AddBalance (msg_gasPayer msg) (gas * msg_gasPrice msg));;
  gp ← gets st_gp;
  gp ← embed (AddGas gas gp);
  modify (set_gp gp).

(** What the virtual machine returns, with the gas that is left. *)
Definition execute (contractCreation : bool) : M StateTransition (option bytes * option vm_error) :=
  value ← deref (msg_amount msg);
  gas ← gets st_gas;
  if contractCreation then
    '(ret, _, left_over, vmerr) ← on_machine
       (evm_Create (AccountRef (msg_from msg)) (Some (msg_data msg)) gas value (Some (msg_owner msg, msg_provider msg)));
    modify (set_st_gas left_over);; mret (ret, vmerr)
  else
    nonce ← state (GetNonce (msg_from msg));
    state (SetNonce (msg_from msg) (uint64 (nonce + 1)));;
    '(ret, left_over, vmerr) ← on_machine
       (evm_Call (AccountRef (msg_from msg)) to (Some (msg_data msg)) gas value);
    modify (set_st_gas left_over);; mret (ret, vmerr).

(** [TransitionDb]: what was returned, the gas used, and whether the run failed; errors are
    those that make a block invalid. *)
Definition TransitionDb : M StateTransition (error + (option bytes * Z * bool)) :=
  err ← preCheck;
  match err with
  | Some e => mret (inl e)
  | None =>
      let homestead := IsHomestead chainConfig ctx_BlockNumber in
      let contractCreation := bool_decide (msg_to msg = None) in
      match IntrinsicGas (msg_data msg) contractCreation homestead with
      | inl e => mret (inl e)
      | inr gas =>
          err ← useGas gas;
          match err with
          | Some e => mret (inl e)
          | None =>
              '(ret, vmerr) ← execute contractCreation;
              if bool_decide (vmerr = Some ErrInsufficientBalance) then mret (inl ErrVmInsufficientBalance)
              else
                refundGas;;
                used ← gasUsed;
                mret (inr (ret, used, bool_decide (vmerr <> None)))
          end
      end
  end.

(** [ApplyMessage] *)
Definition ApplyMessage (evm : Evm) (gp : Z) : res ((error + (option bytes * Z * bool)) * StateTransition) :=
  TransitionDb (NewStateTransition evm gp).
End message.
End transition.
