(* ===== verification/TxPool.v ===== *)
(** * The transaction pool

    Models [src/core/tx_pool.go] and [src/core/state/managed_state.go]: transactions that
    wait for a block, per account the ones that can be executed ([pending]) and the ones
    that cannot yet ([queue]). The pool is locked during each operation, so an operation is
    a step of a state machine. The counters of the metrics are left out; the files of the
    journal and the feed of events are logs. *)

From S2P Require Import Prelude Heap Bytes RlpEncode RlpDecode RlpCanonical RlpRaw Types Params EvmData Fallible StateDB EvmCore Precompiled Evm Signing Transition TxList.

(** ** [ManagedState] *)
Record account : Type := MkManaged { ac_nstart : Z; ac_nonces : list bool }.

Section managed.
Context `{C : Crypto} {DB : StateDatabase}.

Record ManagedState : Type := MkManagedState {
  ms_StateDB : StateDB;
  ms_accounts : gmap Address account
}.

Definition ManageState (statedb : StateDB) : res ManagedState :=
  s ← Copy_StateDB statedb; mret (MkManagedState s ∅).

Definition set_ms_StateDB (s : StateDB) (ms : ManagedState) : ManagedState := MkManagedState s (ms_accounts ms).
Definition managed {A} (m : M StateDB A) : M ManagedState A := zoom ms_StateDB set_ms_StateDB m.
Definition set_account (addr : Address) (a : account) (ms : ManagedState) : ManagedState :=
  MkManagedState (ms_StateDB ms) (<[addr := a]> (ms_accounts ms)).

Definition newAccount (o : stateObject) : account := MkManaged (a_Nonce (so_data o)) [].
Definition tracked (a : account) : Z := uint64 (Z.of_nat (length (ac_nonces a)) + ac_nstart a).
Definition hasAccount (addr : Address) (ms : ManagedState) : bool := bool_decide (is_Some (ms_accounts ms !! addr)).

Definition getAccount (addr : Address) : M ManagedState account :=
  ms ← get;
  match ms_accounts ms !! addr with
  | None => o ← managed (GetOrNewStateObject addr); modify (set_account addr (newAccount o))
  | Some a =>
      o ← managed (getStateObject addr);
      match o with
      | Some o => when (tracked a <? a_Nonce (so_data o)) (modify (set_account addr (newAccount o)))
      | None => mret tt
      end
  end;;
  ms ← get;
  deref (ms_accounts ms !! addr).

Definition RemoveNonce (addr : Address) (n : Z) : M ManagedState unit :=
  ms ← get;
  when (hasAccount addr ms)
    (a ← getAccount addr;
     let k := uint64 (n - ac_nstart a) in
     when (k <=? Z.of_nat (length (ac_nonces a)))
       (modify (set_account addr (MkManaged (ac_nstart a) (take (Z.to_nat k) (ac_nonces a)))))).

(** The first nonce that is not taken, or a new one. *)
Definition NewNonce (addr : Address) : M ManagedState Z :=
  a ← getAccount addr;
  match list_find (fun b => b = false) (ac_nonces a) with
  | Some (i, _) => mret (uint64 (ac_nstart a + Z.of_nat i))
  | None =>
      modify (set_account addr (MkManaged (ac_nstart a) (ac_nonces a ++ [true])));;
      mret (uint64 (Z.of_nat (length (ac_nonces a)) + ac_nstart a))
  end.

Definition ms_GetNonce (addr : Address) : M ManagedState Z :=
  ms ← get;
  if hasAccount addr ms then a ← getAccount addr; mret (tracked a)
  else managed (GetNonce addr).

Definition ms_SetNonce (addr : Address) (nonce : Z) : M ManagedState unit :=
  managed (SetNonce addr nonce);;
  modify (set_account addr (MkManaged nonce [])).
End managed.

(** ** Configuration *)
Record TxPoolConfig : Type := MkPoolConfig {
  pc_NoLocals : bool;
  pc_Rejournal : Z;
  pc_PriceLimit : Z;
  pc_PriceBump : Z;
  pc_AccountSlots : Z;
  pc_GlobalSlots : Z;
  pc_AccountQueue : Z;
  pc_GlobalQueue : Z;
  pc_Lifetime : Z
}.

Definition time_Second : Z := 1000000000.

Definition DefaultTxPoolConfig : TxPoolConfig :=
  MkPoolConfig false (3600 * time_Second) 1 10 16 4096 64 1024 (3 * 3600 * time_Second).

Definition sanitize (conf : TxPoolConfig) : TxPoolConfig :=
  let or_default (field : TxPoolConfig -> Z) := if field conf <? 1 then field DefaultTxPoolConfig else field conf in
  MkPoolConfig (pc_NoLocals conf)
    (if pc_Rejournal conf <? time_Second then time_Second else pc_Rejournal conf)
    (or_default pc_PriceLimit) (or_default pc_PriceBump) (or_default pc_AccountSlots) (or_default pc_GlobalSlots)
    (or_default pc_AccountQueue) (or_default pc_GlobalQueue) (or_default pc_Lifetime).

(** The orders in which Go ranges over the maps of the pool. *)
Class RangeOrder : Type := {
  range_items : gmap Z Transaction -> list (Z * Transaction);
  range_hashes : txLookup -> list (Hash * Transaction);
  range_lists : gmap Address txList -> list Address;
  range_set : gset Address -> list Address
}.

Class RangeLaws (R : RangeOrder) : Prop := {
  range_items_ok : forall m, range_items m ≡ₚ map_to_list m;
  range_hashes_ok : forall m, range_hashes m ≡ₚ map_to_list m;
  range_lists_ok : forall m, range_lists m ≡ₚ (map_to_list m).*1;
  range_set_ok : forall X, range_set X ≡ₚ elements X
}.

(** ** The pool *)
Section pool.
Context `{C : Crypto} {DB : StateDatabase} {N : NativeCrypto} {R : RangeOrder}.

Record TxPool : Type := MkTxPool {
  tp_gasPrice : Z;
  tp_currentState : StateDB;
  tp_pendingState : ManagedState;
  tp_currentMaxGas : Z;
  tp_locals : accountSet;
  tp_pending : gmap Address txList;
  tp_queue : gmap Address txList;
  tp_beats : gmap Address Z;
  tp_all : txLookup;
  tp_priced : txPricedList;
  tp_homestead : bool;
  tp_ticks : nat;                       (* readings of the clock so far *)
  tp_journal : option (list Transaction);  (* what was written to the journal *)
  tp_feed : list (list Transaction)        (* the events that were sent *)
}.

Definition set_tp_gasPrice (v : Z) (p : TxPool) : TxPool :=
  MkTxPool v (tp_currentState p) (tp_pendingState p) (tp_currentMaxGas p) (tp_locals p) (tp_pending p) (tp_queue p) (tp_beats p)
    (tp_all p) (tp_priced p) (tp_homestead p) (tp_ticks p) (tp_journal p) (tp_feed p).
Definition set_tp_currentState (v : StateDB) (p : TxPool) : TxPool :=
  MkTxPool (tp_gasPrice p) v (tp_pendingState p) (tp_currentMaxGas p) (tp_locals p) (tp_pending p) (tp_queue p) (tp_beats p)
    (tp_all p) (tp_priced p) (tp_homestead p) (tp_ticks p) (tp_journal p) (tp_feed p).
Definition set_tp_pendingState (v : ManagedState) (p : TxPool) : TxPool :=
  MkTxPool (tp_gasPrice p) (tp_currentState p) v (tp_currentMaxGas p) (tp_locals p) (tp_pending p) (tp_queue p) (tp_beats p)
    (tp_all p) (tp_priced p) (tp_homestead p) (tp_ticks p) (tp_journal p) (tp_feed p).
Definition set_tp_currentMaxGas (v : Z) (p : TxPool) : TxPool :=
  MkTxPool (tp_gasPrice p) (tp_currentState p) (tp_pendingState p) v (tp_locals p) (tp_pending p) (tp_queue p) (tp_beats p)
    (tp_all p) (tp_priced p) (tp_homestead p) (tp_ticks p) (tp_journal p) (tp_feed p).
Definition set_tp_locals (v : accountSet) (p : TxPool) : TxPool :=
  MkTxPool (tp_gasPrice p) (tp_currentState p) (tp_pendingState p) (tp_currentMaxGas p) v (tp_pending p) (tp_queue p) (tp_beats p)
    (tp_all p) (tp_priced p) (tp_homestead p) (tp_ticks p) (tp_journal p) (tp_feed p).
Definition set_tp_pending (v : gmap Address txList) (p : TxPool) : TxPool :=
  MkTxPool (tp_gasPrice p) (tp_currentState p) (tp_pendingState p) (tp_currentMaxGas p) (tp_locals p) v (tp_queue p) (tp_beats p)
    (tp_all p) (tp_priced p) (tp_homestead p) (tp_ticks p) (tp_journal p) (tp_feed p).
Definition set_tp_queue (v : gmap Address txList) (p : TxPool) : TxPool :=
  MkTxPool (tp_gasPrice p) (tp_currentState p) (tp_pendingState p) (tp_currentMaxGas p) (tp_locals p) (tp_pending p) v (tp_beats p)
    (tp_all p) (tp_priced p) (tp_homestead p) (tp_ticks p) (tp_journal p) (tp_feed p).
Definition set_tp_beats (v : gmap Address Z) (p : TxPool) : TxPool :=
  MkTxPool (tp_gasPrice p) (tp_currentState p) (tp_pendingState p) (tp_currentMaxGas p) (tp_locals p) (tp_pending p) (tp_queue p) v
    (tp_all p) (tp_priced p) (tp_homestead p) (tp_ticks p) (tp_journal p) (tp_feed p).
Definition set_tp_all (v : txLookup) (p : TxPool) : TxPool :=
  MkTxPool (tp_gasPrice p) (tp_currentState p) (tp_pendingState p) (tp_currentMaxGas p) (tp_locals p) (tp_pending p) (tp_queue p)
    (tp_beats p) v (tp_priced p) (tp_homestead p) (tp_ticks p) (tp_journal p) (tp_feed p).
Definition set_tp_priced (v : txPricedList) (p : TxPool) : TxPool :=
  MkTxPool (tp_gasPrice p) (tp_currentState p) (tp_pendingState p) (tp_currentMaxGas p) (tp_locals p) (tp_pending p) (tp_queue p)
    (tp_beats p) (tp_all p) v (tp_homestead p) (tp_ticks p) (tp_journal p) (tp_feed p).
Definition set_tp_homestead (v : bool) (p : TxPool) : TxPool :=
  MkTxPool (tp_gasPrice p) (tp_currentState p) (tp_pendingState p) (tp_currentMaxGas p) (tp_locals p) (tp_pending p) (tp_queue p)
    (tp_beats p) (tp_all p) (tp_priced p) v (tp_ticks p) (tp_journal p) (tp_feed p).
Definition set_tp_ticks (v : nat) (p : TxPool) : TxPool :=
  MkTxPool (tp_gasPrice p) (tp_currentState p) (tp_pendingState p) (tp_currentMaxGas p) (tp_locals p) (tp_pending p) (tp_queue p)
    (tp_beats p) (tp_all p) (tp_priced p) (tp_homestead p) v (tp_journal p) (tp_feed p).
Definition set_tp_journal (v : option (list Transaction)) (p : TxPool) : TxPool :=
  MkTxPool (tp_gasPrice p) (tp_currentState p) (tp_pendingState p) (tp_currentMaxGas p) (tp_locals p) (tp_pending p) (tp_queue p)
    (tp_beats p) (tp_all p) (tp_priced p) (tp_homestead p) (tp_ticks p) v (tp_feed p).
Definition set_tp_feed (v : list (list Transaction)) (p : TxPool) : TxPool :=
  MkTxPool (tp_gasPrice p) (tp_currentState p) (tp_pendingState p) (tp_currentMaxGas p) (tp_locals p) (tp_pending p) (tp_queue p)
    (tp_beats p) (tp_all p) (tp_priced p) (tp_homestead p) (tp_ticks p) (tp_journal p) v.

(** The configuration, the readings of the clock, and the sizes that were stored with
    transactions when they were decoded. *)
Context (config : TxPoolConfig) (chainconfig : ChainConfig) (Now : nat -> Z) (stored_size : Transaction -> option Z).

Definition pool_signer : Signer := NewEIP155Signer (cc_ChainID chainconfig).
Definition sender (tx : Transaction) : M TxPool Address := embed (sender_of pool_signer tx).

(** Reading the states. *)
Definition current {A} (m : M StateDB A) : M TxPool A := zoom tp_currentState set_tp_currentState m.
Definition virtual {A} (m : M ManagedState A) : M TxPool A := zoom tp_pendingState set_tp_pendingState m.
Definition on_priced {A} (m : M txPricedList A) : M TxPool A := zoom tp_priced set_tp_priced m.

(** The lists of the accounts; a list that is not there is nil. *)
Inductive side : Type := Pending | Queue.

Definition lists (s : side) (p : TxPool) : gmap Address txList := match s with Pending => tp_pending p | Queue => tp_queue p end.
Definition set_lists (s : side) (v : gmap Address txList) (p : TxPool) : TxPool :=
  match s with Pending => set_tp_pending v p | Queue => set_tp_queue v p end.

Definition on_list {A} (s : side) (addr : Address) (m : M txList A) : M TxPool A := fun p =>
  match lists s p !! addr with
  | None => Panic
  | Some l =>
      match m l with
      | Ok (a, l') => Ok (a, set_lists s (<[addr := l']> (lists s p)) p)
      | Panic => Panic
      | OutOfFuel => OutOfFuel
      end
  end.

Definition list_Len (s : side) (addr : Address) : M TxPool Z := on_list s addr (gets (fun l => Z.of_nat (tl_Len l))).
Definition drop_list (s : side) (addr : Address) : M TxPool unit := modify (fun p => set_lists s (delete addr (lists s p)) p).
Definition is_local (addr : Address) : M TxPool bool := gets (fun p => as_contains addr (tp_locals p)).

(** [pool.all] and [pool.priced] *)
Definition all_Add (tx : Transaction) : M TxPool unit := modify (fun p => set_tp_all (<[Transaction_Hash tx := tx]> (tp_all p)) p).
Definition all_Remove (hash : Hash) : M TxPool unit := modify (fun p => set_tp_all (delete hash (tp_all p)) p).
Definition priced_Put (tx : Transaction) : M TxPool unit := modify (fun p => set_tp_priced (pl_Put tx (tp_priced p)) p).
Definition priced_Removed (count : Z) : M TxPool unit :=
  modify (fun p => set_tp_priced (pl_Removed range_hashes (tp_all p) count (tp_priced p)) p).

(** The transactions a list gave back are forgotten. *)
Fixpoint forget (txs : pointers) : M TxPool unit :=
  match txs with
  | [] => mret tt
  | tx :: txs => tx ← deref tx; all_Remove (Transaction_Hash tx);; forget txs
  end.

(** *** Validation *)
Definition Size (tx : Transaction) : res Z :=
  match stored_size tx with
  | Some size => Ok size
  | None =>
      match EncodeToBytes (tx_gval tx) with
      | inl _ => Ok 0
      | inr r => b ← r; mret (Z.of_nat (length b))
      end
  end.

(** The provider a transaction to an account has to be signed by, if that is a contract with
    providers. *)
Definition providers_of_code (to : Address) : M TxPool (list Address) :=
  contractHash ← current (GetCodeHash to);
  if bool_decide (contractHash <> zeroHash) && bool_decide (contractHash <> keccak256 [])
  then current (GetProviders to) else mret [].

(** What is wrong about the parties, and whether the recipient is an enterprise contract. *)
Definition check_parties (tx : Transaction) (signed : error + option Address) : M TxPool (option error * bool) :=
  match tx_Recipient tx with
  | Some to =>
      expected ← providers_of_code to;
      if (length expected =? 0)%nat then mret (None, false)
      else
        match signed with
        | inr (Some p) => if bool_decide (p ∈ expected) then mret (None, true) else mret (Some ErrInvalidProvider, true)
        | _ => mret (Some ErrInvalidProvider, true)
        end
  | None =>
      match tx_Provider tx with
      | Some p =>
          if bool_decide (p <> zeroAddress) && (bool_decide (tx_Owner tx = None) || bool_decide (tx_Owner tx = Some zeroAddress))
          then mret (Some ErrOwnerReqired, false) else mret (None, false)
      | None => mret (None, false)
      end
  end.

(** Whether the sender, and the provider who signed, can pay. *)
Definition check_funds (tx : Transaction) (from : Address) (signedProvider : option Address) : M TxPool (option error) :=
  match signedProvider with
  | Some provider =>
      balance ← current (GetBalance from);
      value ← deref (tx_Amount tx);
      if balance <? value then mret (Some ErrSenderInsufficientFunds)
      else
        balance ← current (GetBalance provider);
        fee ← deref (TransactionFee tx);
        mret (if balance <? fee then Some ErrProviderInsufficientFunds else None)
  | None =>
      balance ← current (GetBalance from);
      cost ← deref (Cost tx);
      mret (if balance <? cost then Some ErrInsufficientFunds else None)
  end.

Definition check_intrinsic (tx : Transaction) : M TxPool (option error) :=
  homestead ← gets tp_homestead;
  mret (match IntrinsicGas (tx_Payload tx) (bool_decide (tx_Recipient tx = None)) homestead with
        | inl e => Some e
        | inr intrGas => if tx_GasLimit tx <? intrGas then Some ErrIntrinsicGas else None
        end).

(** A check that goes on when nothing is wrong. *)
Definition and_then (m : M TxPool (option error)) (k : M TxPool (option error)) : M TxPool (option error) :=
  e ← m; match e with Some e => mret (Some e) | None => k end.

Definition check_account (tx : Transaction) (local : bool) (from : Address) (signedProvider : option Address) : M TxPool (option error) :=
  locally ← is_local from;
  gasPrice ← gets tp_gasPrice;
  price ← deref (tx_Price tx);
  if negb (local || locally) && (price <? gasPrice) then mret (Some ErrUnderpriced)
  else
    nonce ← current (GetNonce from);
    if tx_AccountNonce tx <? nonce then mret (Some ErrNonceTooLow)
    else and_then (check_funds tx from signedProvider) (check_intrinsic tx).

Definition ValidateTx (tx : Transaction) (local : bool) : M TxPool (option error) :=
  size ← embed (Size tx);
  if 32 * 1024 <? size then mret (Some ErrOversizedData)
  else
    value ← deref (tx_Amount tx);
    if value <? 0 then mret (Some ErrNegativeValue)
    else
      maxGas ← gets tp_currentMaxGas;
      if maxGas <? tx_GasLimit tx then mret (Some ErrGasLimit)
      else
        from ← embed (signer_Sender pool_signer tx);
        match from with
        | inl _ => mret (Some ErrInvalidSender)
        | inr from =>
            price ← deref (tx_Price tx);
            chainPrice ← deref (cc_GasPrice chainconfig);
            if negb (price =? chainPrice) then mret (Some ErrInvalidGasPrice)
            else
              signed ← embed (Provider pool_signer tx);
              let signedProvider := match signed with inr p => p | inl _ => None end in
              '(wrong, isEnterpriseContract) ← check_parties tx signed;
              match wrong with
              | Some e => mret (Some e)
              | None =>
                  if bool_decide (signedProvider <> None) && negb isEnterpriseContract then mret (Some ErrRedundantProvider)
                  else check_account tx local from signedProvider
              end
        end.

(** *** Adding *)
Definition enqueueTx (hash : Hash) (tx : Transaction) : M TxPool (error + bool) :=
  from ← sender tx;
  p ← get;
  when (bool_decide (tp_queue p !! from = None)) (modify (set_tp_queue (<[from := newTxList false]> (tp_queue p))));;
  '(inserted, old) ← on_list Queue from (tl_Add tx (pc_PriceBump config));
  if negb inserted then mret (inl ErrReplaceUnderpriced)
  else
    match old with
    | Some old => all_Remove (Transaction_Hash old);; priced_Removed 1
    | None => mret tt
    end;;
    p ← get;
    when (bool_decide (tp_all p !! hash = None)) (all_Add tx;; priced_Put tx);;
    mret (inr (bool_decide (old <> None))).

Definition journalTx (from : Address) (tx : Transaction) : M TxPool unit :=
  p ← get;
  match tp_journal p with
  | None => mret tt
  | Some written => when (as_contains from (tp_locals p)) (modify (set_tp_journal (Some (written ++ [tx]))))
  end.

Definition add (tx : Transaction) (local : bool) : M TxPool (error + bool) :=
  let hash := Transaction_Hash tx in
  p ← get;
  if bool_decide (is_Some (tp_all p !! hash)) then mret (inl ErrKnownTransaction)
  else
    err ← ValidateTx tx local;
    match err with
    | Some e => mret (inl e)
    | None =>
        p ← get;
        if uint64 (pc_GlobalSlots config + pc_GlobalQueue config) <=? Z.of_nat (size (tp_all p)) then mret (inl ErrTxPoolFull)
        else
          from ← sender tx;
          if match tp_pending p !! from with Some l => tl_Overlaps tx l | None => false end then mret (inl ErrSameNonce)
          else
            replace ← enqueueTx hash tx;
            match replace with
            | inl e => mret (inl e)
            | inr replace =>
                known ← is_local from;
                when (local && negb known) (modify (fun p => set_tp_locals (as_add from (tp_locals p)) p));;
                journalTx from tx;;
                mret (inr replace)
            end
    end.

Definition promoteTx (addr : Address) (hash : Hash) (tx : Transaction) : M TxPool bool :=
  p ← get;
  when (bool_decide (tp_pending p !! addr = None)) (modify (set_tp_pending (<[addr := newTxList true]> (tp_pending p))));;
  '(inserted, old) ← on_list Pending addr (tl_Add tx (pc_PriceBump config));
  if negb inserted then all_Remove hash;; priced_Removed 1;; mret false
  else
    match old with
    | Some old => all_Remove (Transaction_Hash old);; priced_Removed 1
    | None => mret tt
    end;;
    p ← get;
    when (bool_decide (tp_all p !! hash = None)) (all_Add tx;; priced_Put tx);;
    modify (fun p => set_tp_ticks (S (tp_ticks p)) (set_tp_beats (<[addr := Now (tp_ticks p)]> (tp_beats p)) p));;
    virtual (ms_SetNonce addr (uint64 (tx_AccountNonce tx + 1)));;
    mret true.

(** *** Removing *)
Fixpoint enqueue_all (txs : list Transaction) : M TxPool unit :=
  match txs with
  | [] => mret tt
  | tx :: txs => enqueueTx (Transaction_Hash tx) tx;; enqueue_all txs
  end.

(** The pending nonce of an account is at most [nonce]. *)
Definition lower_nonce (addr : Address) (nonce : Z) : M TxPool unit :=
  n ← virtual (ms_GetNonce addr);
  when (nonce <? n) (virtual (ms_SetNonce addr nonce)).

Definition drop_empty (s : side) (addr : Address) : M TxPool unit :=
  empty ← on_list s addr (gets tl_Empty);
  when empty (drop_list s addr).

Definition drop_empty_pending (addr : Address) : M TxPool unit :=
  empty ← on_list Pending addr (gets tl_Empty);
  when empty (drop_list Pending addr;; modify (fun p => set_tp_beats (delete addr (tp_beats p)) p)).

Definition remove_pending (addr : Address) (tx : Transaction) : M TxPool bool :=
  p ← get;
  match tp_pending p !! addr with
  | None => mret false
  | Some _ =>
      '(removed, invalids) ← on_list Pending addr (tl_Remove range_items tx);
      if (removed : bool) then
        drop_empty_pending addr;;
        enqueue_all invalids;;
        lower_nonce addr (tx_AccountNonce tx);;
        mret true
      else mret false
  end.

Definition removeTx (hash : Hash) (outofbound : bool) : M TxPool unit :=
  p ← get;
  match tp_all p !! hash with
  | None => mret tt
  | Some tx =>
      addr ← sender tx;
      all_Remove hash;;
      when outofbound (priced_Removed 1);;
      done ← remove_pending addr tx;
      if (done : bool) then mret tt
      else
        p ← get;
        match tp_queue p !! addr with
        | None => mret tt
        | Some _ => on_list Queue addr (tl_Remove range_items tx);; drop_empty Queue addr
        end
  end.

Fixpoint remove_all (txs : list Transaction) (outofbound : bool) : M TxPool unit :=
  match txs with
  | [] => mret tt
  | tx :: txs => removeTx (Transaction_Hash tx) outofbound;; remove_all txs outofbound
  end.

Definition SetGasPrice (price : Z) : M TxPool unit :=
  modify (set_tp_gasPrice price);;
  p ← get;
  dropped ← on_priced (pl_Cap (tp_all p) price (tp_locals p));
  remove_all dropped false.

(** *** What cannot be paid *)
Definition payable (accountBalance : Z) (tx : Transaction) : M TxPool bool :=
  provider ← embed (SignedProvider pool_signer tx);
  match provider with
  | Some provider =>
      providerBalance ← current (GetBalance provider);
      value ← deref (tx_Amount tx);
      if value <=? accountBalance then fee ← deref (TransactionFee tx); mret (fee <=? providerBalance)
      else mret false
  | None => cost ← deref (Cost tx); mret (cost <=? accountBalance)
  end.

Fixpoint unpayable (accountBalance : Z) (items : list (Z * Transaction)) (filtereds : list (Z * Transaction)) :
    M TxPool (list (Z * Transaction)) :=
  match items with
  | [] => mret filtereds
  | (nonce, tx) :: items =>
      hasEnoughFunds ← payable accountBalance tx;
      maxGas ← gets tp_currentMaxGas;
      unpayable accountBalance items
        (if negb hasEnoughFunds || (maxGas <? tx_GasLimit tx) then filtereds ++ [(nonce, tx)] else filtereds)
  end.

Definition filterUnpayableTransactions (s : side) (addr : Address) : M TxPool (list Transaction * list Transaction) :=
  accountBalance ← current (GetBalance addr);
  items ← on_list s addr (gets (fun l => range_items (sm_items (tl_txs l))));
  filtereds ← unpayable accountBalance items [];
  on_list s addr (modify (fun l => set_txs (sm_RemoveTxs range_items filtereds.*1 (tl_txs l)) l));;
  strict ← on_list s addr (gets tl_strict);
  invalids ← (if strict && (0 <? length filtereds)%nat
              then on_list s addr (on_txs (filter_above range_items (lowest_nonce filtereds.*2))) else mret []);
  mret (filtereds.*2, invalids).

(** *** Moving transactions from the queue to the pending ones *)
Fixpoint promote_all (addr : Address) (txs : pointers) (promoted : list Transaction) : M TxPool (list Transaction) :=
  match txs with
  | [] => mret promoted
  | tx :: txs =>
      tx ← deref tx;
      inserted ← promoteTx addr (Transaction_Hash tx) tx;
      promote_all addr txs (if (inserted : bool) then promoted ++ [tx] else promoted)
  end.

Definition promote_account (addr : Address) (promoted : list Transaction) : M TxPool (list Transaction) :=
  p ← get;
  match tp_queue p !! addr with
  | None => mret promoted
  | Some _ =>
      nonce ← current (GetNonce addr);
      forwards ← on_list Queue addr (tl_Forward nonce);
      forget forwards;;
      '(drops, _) ← filterUnpayableTransactions Queue addr;
      forget (Some <$> drops);;
      nonce ← virtual (ms_GetNonce addr);
      readies ← on_list Queue addr (tl_Ready nonce);
      promoted ← promote_all addr readies promoted;
      locally ← is_local addr;
      caps ← (if negb locally
              then caps ← on_list Queue addr (tl_Cap (int64 (pc_AccountQueue config))); forget caps;; mret caps
              else mret []);
      priced_Removed (Z.of_nat (length forwards + length drops + length caps));;
      drop_empty Queue addr;;
      mret promoted
  end.

Fixpoint promote_accounts (addrs : list Address) (promoted : list Transaction) : M TxPool (list Transaction) :=
  match addrs with
  | [] => mret promoted
  | addr :: addrs => promoted ← promote_account addr promoted; promote_accounts addrs promoted
  end.

(** *** Limiting the pending transactions

    [prque] is a heap of values with priorities, the largest first. *)
Definition prque_less (x y : Address * Z) : bool := 0 <? int64 (x.2 - y.2).

Definition lists_size (m : gmap Address txList) : Z := foldr (fun l n => uint64 (Z.of_nat (tl_Len l) + n)) 0 (map_to_list m).*2.

Fixpoint spammers_of (addrs : list Address) (p : TxPool) (spammers : list (Address * Z)) : list (Address * Z) :=
  match addrs with
  | [] => spammers
  | addr :: addrs =>
      let n := match tp_pending p !! addr with Some l => Z.of_nat (tl_Len l) | None => 0 end in
      spammers_of addrs p
        (if negb (as_contains addr (tp_locals p)) && (pc_AccountSlots config <? n)
         then heap_Push prque_less (addr, n) spammers else spammers)
  end.

(** The last transaction of an account is dropped. *)
Fixpoint drop_capped (addr : Address) (caps : pointers) : M TxPool unit :=
  match caps with
  | [] => mret tt
  | tx :: caps =>
      tx ← deref tx;
      all_Remove (Transaction_Hash tx);;
      lower_nonce addr (tx_AccountNonce tx);;
      drop_capped addr caps
  end.

Definition cap_one (addr : Address) : M TxPool unit :=
  n ← list_Len Pending addr;
  caps ← on_list Pending addr (tl_Cap (n - 1));
  drop_capped addr caps;;
  priced_Removed (Z.of_nat (length caps)).

Fixpoint cap_each (offenders : list Address) (pending : Z) : M TxPool Z :=
  match offenders with
  | [] => mret pending
  | addr :: offenders => cap_one addr;; cap_each offenders (uint64 (pending - 1))
  end.

(** The offenders of [penalized] lose transactions until [watched] has no more than
    [threshold]. *)
Fixpoint equalize (fuel : nat) (watched : Address) (threshold : Z) (penalized : list Address) (pending : Z) : M TxPool Z :=
  if negb (pc_GlobalSlots config <? pending) then mret pending
  else
    n ← list_Len Pending watched;
    if negb (threshold <? n) then mret pending
    else
      match fuel with
      | O => diverge
      | S fuel => pending ← cap_each penalized pending; equalize fuel watched threshold penalized pending
      end.

Definition equalize_to (watched : Address) (threshold : Z) (penalized : list Address) (pending : Z) : M TxPool Z :=
  n ← list_Len Pending watched;
  equalize (Z.to_nat n) watched threshold penalized pending.

Fixpoint penalize (fuel : nat) (spammers : list (Address * Z)) (offenders : list Address) (pending : Z) :
    M TxPool (list Address * Z) :=
  if negb (pc_GlobalSlots config <? pending) then mret (offenders, pending)
  else
    match spammers, fuel with
    | [], _ => mret (offenders, pending)
    | _, O => diverge
    | _, S fuel =>
        '((offender, _), spammers) ← deref (heap_Pop prque_less spammers);
        match last offenders with
        | None => penalize fuel spammers [offender] pending
        | Some previous =>
            threshold ← list_Len Pending offender;
            pending ← equalize_to previous threshold offenders pending;
            penalize fuel spammers (offenders ++ [offender]) pending
        end
    end.

Definition limit_pending : M TxPool unit :=
  p ← get;
  let pending := lists_size (tp_pending p) in
  when (pc_GlobalSlots config <? pending)
    (let spammers := spammers_of (range_lists (tp_pending p)) p [] in
     '(offenders, pending) ← penalize (length spammers) spammers [] pending;
     match last offenders with
     | Some watched =>
         when (pc_GlobalSlots config <? pending) (equalize_to watched (pc_AccountSlots config) offenders pending;; mret tt)
     | None => mret tt
     end).

(** *** Limiting the queue *)
Definition beat_le (x y : Address * Z) : Prop := x.2 <= y.2.
#[export] Instance beat_le_dec : RelDecision beat_le := fun x y => Z_le_dec _ _.

Fixpoint remove_last (txs : list Transaction) (drop : Z) : M TxPool Z :=
  match txs with
  | [] => mret drop
  | tx :: txs =>
      if 0 <? drop then removeTx (Transaction_Hash tx) true;; remove_last txs (drop - 1) else mret drop
  end.

(** The accounts, those with the latest heartbeat first. *)
Fixpoint drop_queued (addrs : list Address) (drop : Z) : M TxPool unit :=
  match addrs with
  | [] => mret tt
  | addr :: addrs =>
      if negb (0 <? drop) then mret tt
      else
        n ← list_Len Queue addr;
        txs ← on_list Queue addr (tl_Flatten range_items);
        if n <=? drop then remove_all txs true;; drop_queued addrs (drop - n)
        else drop ← remove_last (reverse txs) drop; drop_queued addrs drop
  end.

Definition limit_queue : M TxPool unit :=
  p ← get;
  let queued := lists_size (tp_queue p) in
  when (pc_GlobalQueue config <? queued)
    (let addrs := filter (fun a => as_contains a (tp_locals p) = false) (range_lists (tp_queue p)) in
     let sorted := merge_sort beat_le ((fun a => (a, default 0 (tp_beats p !! a))) <$> addrs) in
     drop_queued (reverse sorted).*1 (queued - pc_GlobalQueue config)).

Definition promoteExecutables (accounts : option (list Address)) : M TxPool unit :=
  p ← get;
  promoted ← promote_accounts (default (range_lists (tp_queue p)) accounts) [];
  when (0 <? length promoted)%nat (modify (fun p => set_tp_feed (tp_feed p ++ [promoted]) p));;
  limit_pending;;
  limit_queue.

(** *** Transactions from outside *)
Definition addTx (tx : Transaction) (local : bool) : M TxPool (option error) :=
  replace ← add tx local;
  match replace with
  | inl e => mret (Some e)
  | inr replace =>
      when (negb replace) (from ← sender tx; promoteExecutables (Some [from]));;
      mret None
  end.

Fixpoint add_each (txs : list Transaction) (local : bool) (dirty : gset Address) (errs : list (option error)) :
    M TxPool (gset Address * list (option error)) :=
  match txs with
  | [] => mret (dirty, errs)
  | tx :: txs =>
      replace ← add tx local;
      match replace with
      | inr false => from ← sender tx; add_each txs local ({[from]} ∪ dirty) (errs ++ [None])
      | inr true => add_each txs local dirty (errs ++ [None])
      | inl e => add_each txs local dirty (errs ++ [Some e])
      end
  end.

Definition addTxsLocked (txs : list Transaction) (local : bool) : M TxPool (list (option error)) :=
  '(dirty, errs) ← add_each txs local ∅ [];
  when (0 <? size dirty)%nat (promoteExecutables (Some (range_set dirty)));;
  mret errs.

Definition AddLocal (tx : Transaction) : M TxPool (option error) := addTx tx (negb (pc_NoLocals config)).
Definition AddRemote (tx : Transaction) : M TxPool (option error) := addTx tx false.
Definition AddLocals (txs : list Transaction) : M TxPool (list (option error)) := addTxsLocked txs (negb (pc_NoLocals config)).
Definition AddRemotes (txs : list Transaction) : M TxPool (list (option error)) := addTxsLocked txs false.

(** *** Questions *)
Definition stats (p : TxPool) : Z * Z := (lists_size (tp_pending p), lists_size (tp_queue p)).

Fixpoint flatten_lists (s : side) (addrs : list Address) (content : gmap Address (list Transaction)) :
    M TxPool (gmap Address (list Transaction)) :=
  match addrs with
  | [] => mret content
  | addr :: addrs =>
      txs ← on_list s addr (tl_Flatten range_items);
      flatten_lists s addrs (<[addr := txs]> content)
  end.

Definition pool_Pending : M TxPool (gmap Address (list Transaction)) :=
  p ← get; flatten_lists Pending (range_lists (tp_pending p)) ∅.

Definition Content : M TxPool (gmap Address (list Transaction) * gmap Address (list Transaction)) :=
  pending ← pool_Pending;
  p ← get;
  queued ← flatten_lists Queue (range_lists (tp_queue p)) ∅;
  mret (pending, queued).

Inductive TxStatus : Type := TxStatusUnknown | TxStatusQueued | TxStatusPending | TxStatusIncluded.

Definition Status (hash : Hash) : M TxPool TxStatus :=
  p ← get;
  match tp_all p !! hash with
  | None => mret TxStatusUnknown
  | Some tx =>
      from ← sender tx;
      mret (match tp_pending p !! from with
            | Some l => if tl_Overlaps tx l then TxStatusPending else TxStatusQueued
            | None => TxStatusQueued
            end)
  end.

(** *** A new head of the chain *)
Fixpoint enqueue_pointers (txs : pointers) : M TxPool unit :=
  match txs with
  | [] => mret tt
  | tx :: txs => tx ← deref tx; enqueueTx (Transaction_Hash tx) tx;; enqueue_pointers txs
  end.

Definition demote_account (addr : Address) : M TxPool unit :=
  nonce ← current (GetNonce addr);
  olds ← on_list Pending addr (tl_Forward nonce);
  forget olds;;
  '(drops, invalids) ← filterUnpayableTransactions Pending addr;
  forget (Some <$> drops);;
  priced_Removed (Z.of_nat (length olds + length drops));;
  enqueue_all invalids;;
  gapped ← on_list Pending addr (gets (fun l => negb (tl_Empty l) && bool_decide (sm_Get nonce (tl_txs l) = None)));
  when gapped
    (caps ← on_list Pending addr (tl_Cap 0);
     enqueue_pointers caps);;
  drop_empty_pending addr.

Fixpoint demote_accounts (addrs : list Address) : M TxPool unit :=
  match addrs with
  | [] => mret tt
  | addr :: addrs => demote_account addr;; demote_accounts addrs
  end.

Definition demoteUnexecutables : M TxPool unit := p ← get; demote_accounts (range_lists (tp_pending p)).

(** The pending nonces follow the lists. *)
Fixpoint update_nonces (addrs : list Address) : M TxPool unit :=
  match addrs with
  | [] => mret tt
  | addr :: addrs =>
      txs ← on_list Pending addr (tl_Flatten range_items);
      tx ← deref (last txs);
      virtual (ms_SetNonce addr (uint64 (tx_AccountNonce tx + 1)));;
      update_nonces addrs
  end.

(** The chain as the pool sees it. *)
Section chain.
Context (CurrentBlock : Block) (GetBlock : Hash -> Z -> option Block) (StateAt : Hash -> error + StateDB).

Definition NumberU64 (b : Block) : option Z := big_Uint64 <$> h_Number (b_header b).
Definition parent_block (b : Block) : option (option Block) :=
  n ← NumberU64 b; Some (GetBlock (h_ParentHash (b_header b)) (uint64 (n - 1))).

(** Down from a block to a height: the transactions on the way and the block there, or
    [None] when the chain ends before. *)
Fixpoint descend (fuel : nat) (b : Block) (height : Z) (txs : list Transaction) : res (option (Block * list Transaction)) :=
  match NumberU64 b with
  | None => Panic
  | Some n =>
      if negb (height <? n) then Ok (Some (b, txs))
      else
        match fuel with
        | O => OutOfFuel
        | S fuel =>
            match parent_block b with
            | None => Panic
            | Some None => Ok None
            | Some (Some b') => descend fuel b' height (txs ++ b_transactions b)
            end
        end
  end.

(** Down both chains to the block they have in common. *)
Fixpoint common_ancestor (fuel : nat) (rem add : Block) (discarded included : list Transaction) :
    res (option (list Transaction * list Transaction)) :=
  if bool_decide (Block_Hash rem = Block_Hash add) then Ok (Some (discarded, included))
  else
    match fuel with
    | O => OutOfFuel
    | S fuel =>
        match parent_block rem with
        | None => Panic
        | Some None => Ok None
        | Some (Some rem') =>
            match parent_block add with
            | None => Panic
            | Some None => Ok None
            | Some (Some add') =>
                common_ancestor fuel rem' add' (discarded ++ b_transactions rem) (included ++ b_transactions add)
            end
        end
    end.

Definition TxDifference (a b : list Transaction) : list Transaction :=
  filter (fun tx => Transaction_Hash tx ∉ (Transaction_Hash <$> b)) a.

(** The transactions that left the chain: [None] when the pool gives up. Block numbers are
    exact as floating point numbers below [2 ^ 53]. *)
Definition reorged (fuel : nat) (oldHead newHead : Header) : res (option (list Transaction)) :=
  if bool_decide (Header_Hash oldHead = h_ParentHash newHead) then Ok (Some [])
  else
    match h_Number oldHead, h_Number newHead with
    | Some oldNum, Some newNum =>
        let oldNum := big_Uint64 oldNum in
        let newNum := big_Uint64 newNum in
        if 64 <? Z.abs (oldNum - newNum) then Ok (Some [])
        else
          match GetBlock (Header_Hash oldHead) oldNum with
          | None => Ok None
          | Some rem =>
              match GetBlock (Header_Hash newHead) newNum with
              | None => Panic
              | Some add =>
                  match NumberU64 add with
                  | None => Panic
                  | Some addNum =>
                      r ← descend fuel rem addNum [];
                      match r with
                      | None => Ok None
                      | Some (rem, discarded) =>
                          match NumberU64 rem with
                          | None => Panic
                          | Some remNum =>
                              r ← descend fuel add remNum [];
                              match r with
                              | None => Ok None
                              | Some (add, included) =>
                                  r ← common_ancestor fuel rem add discarded included;
                                  mret ('(discarded, included) ← r; Some (TxDifference discarded included))
                              end
                          end
                      end
                  end
              end
          end
    | _, _ => Panic
    end.

Definition reset_to (newHead : Header) (reinject : list Transaction) : M TxPool unit :=
  match StateAt (h_Root newHead) with
  | inl _ => mret tt
  | inr statedb =>
      modify (set_tp_currentState statedb);;
      ms ← embed (ManageState statedb);
      modify (set_tp_pendingState ms);;
      modify (set_tp_currentMaxGas (h_GasLimit newHead));;
      addTxsLocked reinject false;;
      demoteUnexecutables;;
      p ← get;
      update_nonces (range_lists (tp_pending p));;
      promoteExecutables None
  end.

Definition reset (fuel : nat) (oldHead newHead : option Header) : M TxPool unit :=
  match oldHead, newHead with
  | Some oldHead, Some newHead =>
      r ← embed (reorged fuel oldHead newHead);
      match r with
      | None => mret tt
      | Some reinject => reset_to newHead reinject
      end
  | Some _, None => panic
  | None, _ => reset_to (default (b_header CurrentBlock) newHead) []
  end.
End chain.

(** *** The events of the loop *)
Definition handle_head (CurrentBlock : Block) (GetBlock : Hash -> Z -> option Block) (StateAt : Hash -> error + StateDB)
    (fuel : nat) (head block : Block) : M TxPool unit :=
  number ← deref (h_Number (b_header block));
  when (IsHomestead chainconfig number) (modify (set_tp_homestead true));;
  reset CurrentBlock GetBlock StateAt fuel (Some (b_header head)) (Some (b_header block)).

Definition time_Since (now t : Z) : Z := Z.min (now - t) MaxInt64.

(** Accounts that sent nothing that could be executed for a while lose their queue. *)
Fixpoint evict (addrs : list Address) : M TxPool unit :=
  match addrs with
  | [] => mret tt
  | addr :: addrs =>
      p ← get;
      if as_contains addr (tp_locals p) then evict addrs
      else
        modify (set_tp_ticks (S (tp_ticks p)));;
        when (pc_Lifetime config <? time_Since (Now (tp_ticks p)) (default 0 (tp_beats p !! addr)))
          (txs ← on_list Queue addr (tl_Flatten range_items); remove_all txs true);;
        evict addrs
  end.

Definition handle_evict : M TxPool unit := p ← get; evict (range_lists (tp_queue p)).
End pool.
