(* ===== verification/TxPoolSafe.v ===== *)
(** * Consistency of the transaction pool

    The invariant [pool_inv]: the two lists of an account are in order and have no nonce in
    common, and the index of all transactions has exactly those of the lists and those in
    transit. Proved to run without a panic and to keep it: [enqueueTx] and [promoteTx] of
    transactions in transit, with their loops, the reads and writes of the virtual nonces, dropping from the index, and the
    test of what an account can pay. The operations built from these (addition, removal,
    promotion and demotion as a whole, the limits, eviction and the reset) are defined in [TxPool]; nothing is proved
    of them. *)

From S2P Require Import Prelude Heap Bytes RlpEncode RlpDecode RlpCanonical RlpRaw Types Params EvmData Fallible StateDB StateRevert StateEffect EvmCore Precompiled Evm Signing Transition TxList TxListSpec TxPool.

(** ** Code on a part of the state *)
Lemma twp_zoom {S T A} (part : S -> T) put_part (m : M T A) (Q : A -> S -> Prop) s :
  twp m (fun a t => Q a (put_part t s)) (part s) -> twp (zoom part put_part m) Q s.
Proof. intros (a & t & E & H). exists a, (put_part t s). unfold zoom. by rewrite E. Qed.

Section reads.
Context `{C : Crypto} {DB : StateDatabase}.

(** ** Reading accounts *)
Definition same_accounts (s s' : StateDB) : Prop := good s' /\ forall a, find_object s' a = find_object s a.

Definition nonce_of (s : StateDB) (a : Address) : Z :=
  match find_object s a with Some o => a_Nonce (so_data o) | None => 0 end.
Definition providers_of (s : StateDB) (a : Address) : list Address :=
  match find_object s a with Some o => a_ProviderAddresses (so_data o) | None => [] end.

Lemma field_reads {A} a (d : A) f s :
  good s ->
  twp (on_object a d (field f))
    (fun v s' => v = match find_object s a with Some o => f o | None => d end /\ same_accounts s s') s.
Proof.
  intros Hg. unfold on_object, field. destruct (getStateObject_run a s) as (t & E & L).
  pose proof (looked_does _ _ Hg L) as [Ht _]. apply twp_bind. exists (find_object s a), t. split; [done|].
  pose proof (lk_find _ _ L) as Hf. destruct (find_object s a) as [o|] eqn:Eo; [|by apply twp_ret; split; [|split; [apply Ht|]]].
  apply twp_bind, twp_get. exists (f o), (put o t). split; [done|]. split; [done|].
  pose proof (Hf a) as Hfa. rewrite Eo in Hfa. split.
  - by destruct (cached_does a o o t (un_good _ _ Ht) Hfa (field_cached so_data (sdb_db t) o)) as [[] _].
  - intros b. rewrite find_put, (found_live _ _ _ Hfa). destruct (g_found _ (un_good _ _ Ht) a o Hfa) as [-> _].
    rewrite Hf. case_decide; [subst; by rewrite Eo|done].
Qed.

Lemma GetNonce_reads a s : good s -> twp (GetNonce a) (fun v s' => v = nonce_of s a /\ same_accounts s s') s.
Proof. apply field_reads. Qed.
Lemma GetBalance_reads a s : good s -> twp (GetBalance a) (fun v s' => v = balance_of s a /\ same_accounts s s') s.
Proof. apply field_reads. Qed.
Lemma GetProviders_reads a s : good s -> twp (GetProviders a) (fun v s' => v = providers_of s a /\ same_accounts s s') s.
Proof. apply field_reads. Qed.
Lemma GetCodeHash_reads a s : good s -> twp (GetCodeHash a) (fun v s' => v = code_hash_of s a /\ same_accounts s s') s.
Proof. apply field_reads. Qed.

Lemma same_accounts_refl s : good s -> same_accounts s s.
Proof. by split. Qed.

Lemma same_accounts_trans s1 s2 s3 : same_accounts s1 s2 -> same_accounts s2 s3 -> same_accounts s1 s3.
Proof. intros [_ H1] [G2 H2]. split; [done|]. intros a. by rewrite H2, H1. Qed.

Lemma same_nonce s s' a : same_accounts s s' -> nonce_of s' a = nonce_of s a.
Proof. intros [_ H]. unfold nonce_of. by rewrite H. Qed.

Lemma same_balance s s' a : same_accounts s s' -> balance_of s' a = balance_of s a.
Proof. intros [_ H]. unfold balance_of. by rewrite H. Qed.

(** ** Pending nonces *)
Record ms_ok (ms : ManagedState) : Prop := {
  mo_good : good (ms_StateDB ms);
  mo_accounts : map_Forall (fun a ac => ac = MkManaged (nonce_of (ms_StateDB ms) a) []) (ms_accounts ms);
  mo_nonces : forall a, is_uint64 (nonce_of (ms_StateDB ms) a)
}.

Definition virtual_nonce (ms : ManagedState) (a : Address) : Z := nonce_of (ms_StateDB ms) a.

Lemma ms_ok_same ms s : ms_ok ms -> same_accounts (ms_StateDB ms) s -> ms_ok (MkManagedState s (ms_accounts ms)).
Proof.
  intros [Hg Ha Hn] Hs. split; cbn; [apply Hs| |intros a; by rewrite (same_nonce _ _ a Hs)].
  intros a ac Hac. rewrite (same_nonce _ _ a Hs). by apply Ha.
Qed.

Lemma ms_GetNonce_ok a ms :
  ms_ok ms -> twp (ms_GetNonce a) (fun v ms' => v = virtual_nonce ms a /\ ms_ok ms' /\ forall b, virtual_nonce ms' b = virtual_nonce ms b) ms.
Proof.
  intros Hm. unfold ms_GetNonce, hasAccount. twp_step. twp_step. case_bool_decide as Hac.
  - destruct Hac as [ac Hac]. twp_step. unfold getAccount. twp_step. twp_step. rewrite Hac. twp_step. twp_step.
    apply twp_zoom. destruct (getStateObject_run a (ms_StateDB ms)) as (t & E & L).
    pose proof (looked_does _ _ (mo_good _ Hm) L) as [Ht _]. assert (Hs : same_accounts (ms_StateDB ms) t) by (split; [apply Ht|apply L]).
    pose proof (mo_accounts _ Hm _ _ Hac) as Eac. cbn in Eac.
    assert (Et : tracked ac = nonce_of (ms_StateDB ms) a) by (rewrite Eac; cbn; apply uint64_small, Hm).
    exists (find_object (ms_StateDB ms) a), t. split; [done|].
    assert (Hend : twp (ms ← get; deref (ms_accounts ms !! a)) (fun ac' ms' => ac' = ac /\ ms' = set_ms_StateDB t ms) (set_ms_StateDB t ms)).
    { twp_step. twp_step. cbn. rewrite Hac. by apply twp_deref. }
    assert (Hdone : twp (ms ← get; deref (ms_accounts ms !! a)) (fun ac' ms' => twp (mret (tracked ac')) (fun v ms' =>
      v = virtual_nonce ms a /\ ms_ok ms' /\ forall b, virtual_nonce ms' b = virtual_nonce ms b) ms') (set_ms_StateDB t ms)).
    { eapply twp_mono; [exact Hend|]. intros ac' ms' [-> ->]. apply twp_ret. split_and!; [done|by apply ms_ok_same|].
      intros b. by apply same_nonce. }
    destruct (find_object (ms_StateDB ms) a) as [o|] eqn:Eo; [|by apply twp_ret].
    rewrite Et. unfold nonce_of. rewrite Eo, Z.ltb_irrefl. by apply twp_ret.
  - apply twp_zoom. eapply twp_mono; [apply GetNonce_reads, Hm|]. cbn. intros v s [-> Hs].
    split_and!; [done|by apply ms_ok_same|]. intros b. by apply same_nonce.
Qed.

Lemma ms_SetNonce_ok a n ms :
  ms_ok ms -> is_uint64 n ->
  twp (ms_SetNonce a n) (fun _ ms' => ms_ok ms' /\ forall b, virtual_nonce ms' b = if decide (a = b) then n else virtual_nonce ms b) ms.
Proof.
  intros Hm Hn. unfold ms_SetNonce. twp_step. apply twp_zoom. destruct (SetNonce_updated a n _ (mo_good _ Hm)) as (s & E & U).
  exists tt, s. split; [done|]. apply twp_modify.
  assert (Hv : forall b, nonce_of s b = if decide (a = b) then n else virtual_nonce ms b).
  { intros b. unfold virtual_nonce, nonce_of. rewrite (up_find _ _ _ _ U). by case_decide. }
  split; [|done]. split; cbn.
  - destruct (up_does _ _ _ _ U) as [[] _]. done.
  - intros b ac. rewrite Hv. destruct (decide (a = b)) as [->|Hne]; [rewrite lookup_insert_eq; by intros [= <-]|].
    rewrite lookup_insert_ne by done. apply Hm.
  - intros b. rewrite Hv. case_decide; [done|apply Hm].
Qed.

Lemma ManageState_ok s :
  good s -> (forall a, is_uint64 (nonce_of s a)) -> sdb_dirties s = ∅ -> sdb_objectsDirty s = ∅ ->
  exists ms, ManageState s = Ok ms.
Proof.
  intros Hg Hn Hd Ho. unfold ManageState, Copy_StateDB. rewrite Hd, Ho. cbn. eauto.
Qed.
End reads.

(** ** Lists *)
Section lists.
Context `{C : Crypto} {DB : StateDatabase} {N : NativeCrypto} {R : RangeOrder} {RL : RangeLaws R}.
Context (config : TxPoolConfig) (chainconfig : ChainConfig) (Now : nat -> Z) (stored_size : Transaction -> option Z).

(** A transaction of an account that went through validation. *)
Record pooled (a : Address) (tx : Transaction) : Prop := {
  po_sent : signer_Sender (pool_signer chainconfig) tx = Ok (inr a);
  po_nonce : is_uint64 (tx_AccountNonce tx);
  po_price : is_Some (tx_Price tx);
  po_amount : is_Some (tx_Amount tx);
  po_provider : exists r, Provider (pool_signer chainconfig) tx = Ok r
}.

Lemma pooled_once a b tx : pooled a tx -> pooled b tx -> a = b.
Proof. intros [H _ _ _ _] [H' _ _ _ _]. congruence. Qed.

Lemma pooled_cost a tx : pooled a tx -> is_Some (Cost tx).
Proof. intros [_ _ [p Hp] [v Hv] _]. unfold Cost, TransactionFee. rewrite Hp, Hv. eauto. Qed.

Record list_ok (s : side) (a : Address) (l : txList) : Prop := {
  lo_map : sm_ok (tl_txs l);
  lo_strict : tl_strict l = match s with Pending => true | Queue => false end;
  lo_items : map_Forall (fun _ tx => pooled a tx) (sm_items (tl_txs l))
}.

Abbreviation items l := (sm_items (tl_txs l)).

Lemma list_keyed s a l : list_ok s a l -> keyed (items l).
Proof. intros H. apply H. Qed.

Lemma list_nonces s a l : list_ok s a l -> nonces_ok (items l).
Proof. intros H n tx Hn. rewrite <- (list_keyed _ _ _ H n tx Hn). apply (lo_items _ _ _ H n tx Hn). Qed.

Lemma newTxList_ok s a : list_ok s a (newTxList (match s with Pending => true | Queue => false end)).
Proof. split; [apply newTxSortedMap_ok|done|apply map_Forall_empty]. Qed.

(** A list from which some transactions were removed. *)
Lemma list_ok_sub s a l l' :
  list_ok s a l -> sm_ok (tl_txs l') -> tl_strict l' = tl_strict l -> items l' ⊆ items l -> list_ok s a l'.
Proof.
  intros [_ Hs Hi] Hm Es Hsub. split; [done|by rewrite Es|]. intros n tx Hn. by eapply Hi, lookup_weaken.
Qed.

Definition removed_from (l l' : txList) (r : list Transaction) : Prop :=
  sm_ok (tl_txs l') /\ tl_strict l' = tl_strict l /\ parts (items l) (items l') r.

Lemma twp_on_txs {A} (c : M txSortedMap A) (Q : A -> txList -> Prop) l :
  twp c (fun v m => Q v (set_txs m l)) (tl_txs l) -> twp (on_txs c) Q l.
Proof. apply twp_zoom. Qed.

Lemma tl_Forward_ok s a t l :
  list_ok s a l ->
  twp (tl_Forward t) (fun r l' => exists rs, r = Some <$> rs /\ removed_from l l' rs /\
    items l' = filter (fun kv => t <= kv.1) (items l)) l.
Proof.
  intros Hl. apply twp_on_txs. eapply twp_mono; [apply sm_Forward_ok, Hl|]. cbn beta. intros r m (rs & -> & Hm & Ht & Hlt & Hge).
  exists rs. split_and!; [done|split_and!; [done..|apply taken_parts; [by eapply list_keyed|done]]|].
  cbn. apply map_eq. intros k. apply option_eq. intros tx. rewrite map_lookup_filter_Some. cbn. split.
  - intros E. split; [by eapply lookup_weaken, Ht|by apply (Hge _ _ E)].
  - intros [E Hk]. destruct (sm_items m !! k) as [tx'|] eqn:E'.
    + pose proof (lookup_weaken _ _ _ _ E' (tk_sub _ _ _ Ht)) as E2. by rewrite E in E2.
    + exfalso. pose proof (list_keyed _ _ _ Hl _ _ E) as Ek. cbn in Ek.
      assert (Hin : tx ∈ rs) by (apply (taken_parts _ _ _ (list_keyed _ _ _ Hl) Ht); by rewrite Ek).
      rewrite Forall_forall in Hlt. specialize (Hlt _ Hin). lia.
Qed.

Lemma tl_Cap_ok s a n l :
  list_ok s a l ->
  twp (tl_Cap (Z.of_nat n)) (fun r l' => exists rs, r = Some <$> rs /\ removed_from l l' rs /\
    sorted_txs (items l') = take n (sorted_txs (items l)) /\ rs = reverse (drop n (sorted_txs (items l)))) l.
Proof.
  intros Hl. apply twp_on_txs. eapply twp_mono; [apply (sm_Cap_ok range_items range_items_ok), Hl|]. cbn beta. intros r m (Hm & Hs & E & ->).
  exists (reverse (drop n (sorted_txs (items l)))). split_and!; [done| |done..]. split_and!; [done..|]. cbn [set_txs tl_txs].
  pose proof (list_keyed _ _ _ Hl) as Hk. pose proof (keyed_subseteq _ _ Hs Hk) as Hk'.
  pose proof (NoDup_fmap_1 _ _ (sorted_nodup _ Hk)) as Hn. rewrite <- (take_drop n (sorted_txs (items l))) in Hn.
  apply NoDup_app in Hn as (_ & Hd & Hn). split; [done|by rewrite reverse_Permutation|]. intros tx.
  rewrite elem_of_reverse. assert (Hin : tx ∈ sorted_txs (items l) <-> tx ∈ take n (sorted_txs (items l)) \/ tx ∈ drop n (sorted_txs (items l))).
  { rewrite <- elem_of_app, take_drop. done. }
  rewrite sorted_txs_elem in Hin by done. rewrite Hin. rewrite <- E in Hd |- *. split.
  - intros Hdr. split; [by right|]. destruct (sm_items m !! tx_AccountNonce tx) as [tx'|] eqn:E'; [|done]. exfalso.
    pose proof (lookup_weaken _ _ _ _ E' Hs) as E2. assert (items l !! tx_AccountNonce tx = Some tx) as E3 by (apply Hin; by right).
    rewrite E3 in E2. injection E2 as <-. apply (Hd tx); [|done]. by apply sorted_txs_elem.
  - intros [[Ht|?] E']; [|done]. apply sorted_txs_elem in Ht; [|done]. by rewrite Ht in E'.
Qed.

Lemma tl_Ready_ok s a start l :
  list_ok s a l ->
  twp (tl_Ready start) (fun r l' => let rs := ready_prefix start (sorted_txs (items l)) in
    r = Some <$> rs /\ removed_from l l' rs) l.
Proof.
  intros Hl. apply twp_on_txs. eapply twp_mono; [apply (sm_Ready_ok range_items range_items_ok); [apply Hl|by eapply list_nonces]|]. cbn zeta beta.
  intros r m (-> & Hm & Ht). split; [done|]. split_and!; [done..|]. apply taken_parts; [by eapply list_keyed|done].
Qed.

Lemma tl_Flatten_ok s a l :
  list_ok s a l ->
  twp (tl_Flatten range_items) (fun r l' => r = sorted_txs (items l) /\ list_ok s a l' /\ items l' = items l) l.
Proof.
  intros Hl. apply twp_on_txs. eapply twp_mono; [apply (sm_Flatten_ok range_items range_items_ok), Hl|]. cbn beta.
  intros r m (Hm & -> & E). split_and!; [done| |done]. eapply list_ok_sub; [done..|]. cbn. by rewrite E.
Qed.

(** In a strict list, everything above goes as well. *)
Lemma filter_above_ok n m :
  sm_ok m -> twp (filter_above range_items n) (fun r m' => sm_ok m' /\ parts (sm_items m) (sm_items m') r /\
    sm_items m' = filter (fun kv => kv.1 <= n) (sm_items m)) m.
Proof.
  intros Hm. unfold filter_above. eapply twp_mono; [by apply (sm_Filter_ok range_items range_items_ok _ (fun tx => n <? tx_AccountNonce tx))|].
  cbn beta. intros r m' (Hm' & Hp & E). pose proof (ix_keyed _ _ (ok_indexed _ Hm)) as Hk.
  assert (E' : sm_items m' = filter (fun kv => kv.1 <= n) (sm_items m)).
  { rewrite E. apply map_filter_ext. intros k tx Hl. cbn. rewrite <- (Hk _ _ Hl). rewrite Z.ltb_lt. lia. }
  split_and!; [done| |done]. rewrite E'. split; [apply map_filter_subseteq| |].
  - rewrite Hp. apply NoDup_filter, (NoDup_fmap_1 tx_AccountNonce), sorted_nodup, Hk.
  - intros tx. rewrite Hp, list_elem_of_filter, sorted_txs_elem, Z.ltb_lt, map_lookup_filter_None by done. cbn. split.
    + intros [Hlt Hl]. split; [done|]. right. intros. lia.
    + intros [Hl [Hn|Hx]]; [by rewrite Hn in Hl|]. split; [|done]. specialize (Hx _ Hl). lia.
Qed.

Lemma tl_Remove_ok s a (tx : Transaction) l :
  list_ok s a l ->
  twp (tl_Remove range_items tx) (fun '(b, r) l' => let n := tx_AccountNonce tx in
    b = bool_decide (is_Some (items l !! n)) /\ sm_ok (tl_txs l') /\ tl_strict l' = tl_strict l /\
    if b then parts (delete n (items l)) (items l') r /\
      items l' = match s with Pending => filter (fun kv => kv.1 < n) (items l) | Queue => delete n (items l) end
    else r = [] /\ items l' = items l) l.
Proof.
  intros Hl. unfold tl_Remove. twp_step. apply twp_on_txs. eapply twp_mono; [apply sm_Remove_ok, Hl|]. cbn beta.
  intros b m (Hm & -> & E). case_bool_decide as Hb; cbn [negb].
  - twp_step. twp_step. cbn [set_txs tl_strict]. rewrite (lo_strict _ _ _ Hl). destruct s.
    + twp_step. apply twp_on_txs. eapply twp_mono; [by apply filter_above_ok|]. cbn beta. intros r m' (Hm' & Hp & E').
      apply twp_ret. cbn [set_txs tl_txs tl_strict] in *. rewrite E in Hp, E'.
      split_and!; [done|done|by apply (lo_strict _ _ _ Hl)|done|]. rewrite E'. apply map_eq. intros k. apply option_eq. intros tx'.
      rewrite !map_lookup_filter_Some, lookup_delete_Some. cbn. intuition lia.
    + apply twp_ret. cbn [set_txs tl_txs tl_strict] in *. rewrite E. split_and!; [done|done|by apply (lo_strict _ _ _ Hl)| |done].
      split; [done|constructor|]. intros t. rewrite elem_of_nil. split; [done|]. intros [E1 E2]. by rewrite E1 in E2.
  - apply twp_ret. cbn [set_txs tl_txs tl_strict]. rewrite E. split_and!; [done..|].
    apply delete_id, eq_None_not_Some, Hb.
Qed.

Lemma tl_Add_ok s a tx bump l :
  list_ok s a l -> pooled a tx ->
  twp (tl_Add tx bump) (fun '(b, old) l' => let n := tx_AccountNonce tx in
    list_ok s a l' /\
    if b then old = items l !! n /\ items l' = <[n := tx]> (items l)
    else is_Some (items l !! n) /\ l' = l) l.
Proof.
  intros Hl Ht. destruct (pooled_cost a tx Ht) as [cost Hcost]. unfold tl_Add, sm_Get. twp_step. twp_step. twp_step.
  assert (Hadd : twp (modify (fun l => set_txs (sm_Put tx (tl_txs l)) l);; cost ← deref (Cost tx);
      modify (fun l => MkTxList (tl_strict l) (tl_txs l) (if tl_costcap l <? cost then cost else tl_costcap l)
        (if tl_gascap l <? tx_GasLimit tx then tx_GasLimit tx else tl_gascap l));;
      mret (true, items l !! tx_AccountNonce tx)) (fun '(b, old) l' => let n := tx_AccountNonce tx in list_ok s a l' /\
      if b then old = items l !! n /\ items l' = <[n := tx]> (items l) else is_Some (items l !! n) /\ l' = l) l).
  { twp_step. twp_step. rewrite Hcost. apply twp_bind, twp_deref. twp_step. twp_step. apply twp_ret. split; [|done].
    split; cbn [tl_txs tl_strict set_txs]; [apply sm_Put_ok, Hl|apply Hl|]. cbn. apply map_Forall_insert_2; [done|apply Hl]. }
  revert Hadd. destruct (items l !! tx_AccountNonce tx) as [old|] eqn:E; intros Hadd.
  - destruct (lo_items _ _ _ Hl _ _ E) as [_ _ [op Hop] _ _]. destruct (po_price _ _ Ht) as [pr Hpr]. rewrite Hop, Hpr.
    apply twp_bind, twp_deref, twp_bind, twp_deref, twp_ret. destruct ((pr <=? op) || _).
    + apply twp_ret. eauto.
    + eapply twp_mono; [exact Hadd|]. intros [b o] l'. cbn zeta. by rewrite E.
  - apply twp_ret. eapply twp_mono; [exact Hadd|]. intros [b o] l'. cbn zeta. by rewrite E.
Qed.

(** ** The pool *)
Definition it (s : side) (p : TxPool) (a : Address) : gmap Z Transaction :=
  match lists s p !! a with Some l => items l | None => ∅ end.

Definition listed (p : TxPool) (tx : Transaction) : Prop := exists s a, it s p a !! tx_AccountNonce tx = Some tx.

(** The transactions of [D] are on their way from one list to another, or out of the pool;
    those of [X] may be missing in the heap of prices. *)
Record pool_inv (D X : list Transaction) (p : TxPool) : Prop := {
  pi_current : good (tp_currentState p);
  pi_nonces : forall a, is_uint64 (nonce_of (tp_currentState p) a);
  pi_virtual : ms_ok (tp_pendingState p);
  pi_lists : forall s a l, lists s p !! a = Some l -> list_ok s a l;
  pi_disjoint : forall a, it Pending p a ##ₘ it Queue p a;
  pi_loose : forall tx, tx ∈ D -> exists a, pooled a tx /\ forall s, it s p a !! tx_AccountNonce tx = None;
  pi_apart : forall a tx tx', tx ∈ D -> tx' ∈ D -> pooled a tx -> pooled a tx' ->
    tx_AccountNonce tx = tx_AccountNonce tx' -> tx = tx';
  pi_nodup : NoDup D;
  pi_all : forall h tx, tp_all p !! h = Some tx <-> Transaction_Hash tx = h /\ (tx ∈ D \/ listed p tx);
  pi_heap : heap_ok price_less (pl_items (tp_priced p));
  pi_priced : Forall (fun tx => exists a, pooled a tx) (pl_items (tp_priced p));
  pi_known : forall h tx, tp_all p !! h = Some tx -> tx ∈ pl_items (tp_priced p) \/ tx ∈ X
}.

Lemma it_pooled D X p s a n tx : pool_inv D X p -> it s p a !! n = Some tx -> pooled a tx /\ tx_AccountNonce tx = n.
Proof.
  intros Hp. unfold it. destruct (lists s p !! a) as [l|] eqn:E; [|done]. intros Hn. pose proof (pi_lists _ _ _ Hp _ _ _ E) as Hl.
  split; [by apply (lo_items _ _ _ Hl n)|by apply (list_keyed _ _ _ Hl)].
Qed.

Lemma listed_at D X p a tx : pool_inv D X p -> pooled a tx -> listed p tx -> exists s, it s p a !! tx_AccountNonce tx = Some tx.
Proof.
  intros Hp Ht (s & b & Hb). destruct (it_pooled _ _ _ _ _ _ _ Hp Hb) as [Hb' _]. rewrite (pooled_once _ _ _ Ht Hb'). eauto.
Qed.

Lemma it_keyed D X p s a : pool_inv D X p -> keyed (it s p a).
Proof. intros Hp n tx Hn. by destruct (it_pooled _ _ _ _ _ _ _ Hp Hn). Qed.

(** The two sides have no nonce in common. *)
Definition other (s : side) : side := match s with Pending => Queue | Queue => Pending end.

Lemma one_side D X p s a n tx : pool_inv D X p -> it s p a !! n = Some tx -> it (other s) p a !! n = None.
Proof.
  intros Hp Hn. pose proof (pi_disjoint _ _ _ Hp a) as Hd. rewrite map_disjoint_spec in Hd.
  apply eq_None_ne_Some. intros tx' Hn'. destruct s; naive_solver.
Qed.

Lemma side_cases (P : side -> Prop) s : P s -> P (other s) -> forall s', P s'.
Proof. destruct s; intros ? ? []; done. Qed.

(** [by_side s]: a property of both sides, first [s] and then the other. *)
Ltac by_side s := match goal with |- forall s', @?P s' => apply (side_cases P s); cbv beta end.

Lemma lists_set s s' v p : lists s' (set_lists s v p) = match s, s' with
  | Pending, Pending | Queue, Queue => v | _, _ => lists s' p end.
Proof. by destruct s, s'. Qed.

Lemma it_set_same s v p a : it s (set_lists s v p) a = match v !! a with Some l => items l | None => ∅ end.
Proof. by destruct s. Qed.

Lemma it_set_other s v p a : it (other s) (set_lists s v p) a = it (other s) p a.
Proof. by destruct s. Qed.

Lemma it_insert s l a b p :
  it s (set_lists s (<[a := l]> (lists s p)) p) b = if decide (a = b) then items l else it s p b.
Proof. rewrite it_set_same. case_decide as H; [subst; by rewrite lookup_insert_eq|by rewrite lookup_insert_ne]. Qed.

Lemma it_delete s a b p :
  it s (set_lists s (delete a (lists s p)) p) b = if decide (a = b) then ∅ else it s p b.
Proof. rewrite it_set_same. case_decide as H; [subst; by rewrite lookup_delete_eq|by rewrite lookup_delete_ne]. Qed.

(** Only some fields matter. *)
Lemma pool_inv_ext D X p p' :
  good (tp_currentState p') -> (forall a, is_uint64 (nonce_of (tp_currentState p') a)) -> ms_ok (tp_pendingState p') ->
  (forall s, lists s p' = lists s p) -> tp_all p' = tp_all p -> tp_priced p' = tp_priced p ->
  pool_inv D X p -> pool_inv D X p'.
Proof.
  intros Hg Hn Hm Hl Ha Hpr [? ? ? HL HD HO HA HN HAL HH HP HK].
  assert (Hit : forall s a, it s p' a = it s p a) by (intros s a; unfold it; by rewrite Hl).
  assert (Hli : forall tx, listed p' tx <-> listed p tx) by (intros tx; unfold listed; by setoid_rewrite Hit).
  split; try done; rewrite ?Ha, ?Hpr; try done.
  - intros s a l. rewrite Hl. apply HL.
  - intros a. rewrite !Hit. apply HD.
  - intros tx Htx. destruct (HO tx Htx) as (a & ? & Hx). exists a. split; [done|]. intros s. by rewrite Hit.
  - intros h tx. by rewrite Hli.
Qed.

(** The list of an account on one side has other transactions than before. *)
Record relisted (s : side) (a : Address) (I : gmap Z Transaction) (p p' : TxPool) : Prop := {
  rl_other : lists (other s) p' = lists (other s) p;
  rl_it : forall b, it s p' b = if decide (a = b) then I else it s p b;
  rl_lists : forall b l, lists s p' !! b = Some l -> list_ok s b l;
  rl_all : tp_all p' = tp_all p;
  rl_priced : tp_priced p' = tp_priced p;
  rl_current : tp_currentState p' = tp_currentState p;
  rl_virtual : tp_pendingState p' = tp_pendingState p
}.

Lemma set_lists_fields s v p :
  tp_all (set_lists s v p) = tp_all p /\ tp_priced (set_lists s v p) = tp_priced p /\
  tp_currentState (set_lists s v p) = tp_currentState p /\ tp_pendingState (set_lists s v p) = tp_pendingState p.
Proof. by destruct s. Qed.

Lemma relisted_insert D X s a l p :
  pool_inv D X p -> list_ok s a l -> relisted s a (items l) p (set_lists s (<[a := l]> (lists s p)) p).
Proof.
  intros Hp Hl. destruct (set_lists_fields s (<[a := l]> (lists s p)) p) as (? & ? & ? & ?). split; try done.
  - by destruct s.
  - intros b. apply it_insert.
  - intros b l' Hb. rewrite lists_set in Hb. assert (Hb' : <[a := l]> (lists s p) !! b = Some l') by by destruct s.
    apply lookup_insert_Some in Hb' as [[<- <-]|[_ Hb']]; [done|]. by apply (pi_lists _ _ _ Hp).
Qed.

Lemma relisted_delete D X s a p :
  pool_inv D X p -> relisted s a ∅ p (set_lists s (delete a (lists s p)) p).
Proof.
  intros Hp. destruct (set_lists_fields s (delete a (lists s p)) p) as (? & ? & ? & ?). split; try done.
  - by destruct s.
  - intros b. apply it_delete.
  - intros b l' Hb. rewrite lists_set in Hb. assert (Hb' : delete a (lists s p) !! b = Some l') by by destruct s.
    apply lookup_delete_Some in Hb' as [_ Hb']. by apply (pi_lists _ _ _ Hp).
Qed.

Section relist.
Context (D X : list Transaction) (s : side) (a : Address) (I : gmap Z Transaction) (p p' : TxPool).
Context (Hp : pool_inv D X p) (Hr : relisted s a I p p').

Lemma relisted_other b : it (other s) p' b = it (other s) p b.
Proof. unfold it. by rewrite (rl_other _ _ _ _ _ Hr). Qed.

Lemma relisted_lists s' b l : lists s' p' !! b = Some l -> list_ok s' b l.
Proof.
  revert s' b l. by_side s; [apply (rl_lists _ _ _ _ _ Hr)|]. intros b l. rewrite (rl_other _ _ _ _ _ Hr). apply (pi_lists _ _ _ Hp).
Qed.

Lemma relisted_listed (tx : Transaction) :
  listed p' tx <-> I !! tx_AccountNonce tx = Some tx \/ it (other s) p a !! tx_AccountNonce tx = Some tx \/
    exists s' b, b <> a /\ it s' p b !! tx_AccountNonce tx = Some tx.
Proof.
  unfold listed. split.
  - intros (s' & b & Hb). revert s' Hb. by_side s.
    + rewrite (rl_it _ _ _ _ _ Hr). case_decide; [by left|]. intros. right. right. exists s, b. split; [congruence|done].
    + rewrite relisted_other. destruct (decide (b = a)) as [->|]; intros; right; [by left|right; eauto].
  - intros [H|[H|(s' & b & Hne & H)]].
    + exists s, a. by rewrite (rl_it _ _ _ _ _ Hr), decide_True.
    + exists (other s), a. by rewrite relisted_other.
    + exists s', b. revert s' H. by_side s; [by rewrite (rl_it _ _ _ _ _ Hr), decide_False|by rewrite relisted_other].
Qed.

(** Transactions that leave a list. *)
Lemma detach r : parts (it s p a) I r -> pool_inv (r ++ D) X p'.
Proof.
  intros Hparts. pose proof Hparts as [Hsub Hnd Hel].
  assert (Hin : forall tx, tx ∈ r -> pooled a tx /\ it s p a !! tx_AccountNonce tx = Some tx /\ I !! tx_AccountNonce tx = None).
  { intros tx Htx. apply Hel in Htx as [H1 H2]. split_and!; [|done..]. by destruct (it_pooled _ _ _ _ _ _ _ Hp H1). }
  assert (HD : forall tx, tx ∈ D -> tx ∉ r).
  { intros tx Htx Hr'. destruct (Hin tx Hr') as (Ha & H1 & _). destruct (pi_loose _ _ _ Hp tx Htx) as (b & Hb & Hn).
    rewrite (pooled_once _ _ _ Ha Hb), (Hn s) in H1. done. }
  destruct Hp as [Hg Hno Hm HL HDj HO HA HN HAL HH HP HK]. destruct Hr as [Ro Ri Rl Ra Rp Rc Rv].
  split; rewrite ?Rc, ?Rv, ?Rp; try done.
  - apply relisted_lists.
  - intros b. assert (Hs : it s p' b ⊆ it s p b) by (rewrite Ri; case_decide; [by subst|done]).
    specialize (HDj b). pose proof (relisted_other b) as Ho. destruct s; cbn in Ho; rewrite Ho; [by eapply map_disjoint_weaken_l|by eapply map_disjoint_weaken_r].
  - intros tx [Htx|Htx]%elem_of_app.
    + destruct (Hin tx Htx) as (Ha & H1 & H2). exists a. split; [done|]. by_side s; [by rewrite Ri, decide_True|].
      rewrite relisted_other. by eapply one_side.
    + destruct (HO tx Htx) as (b & Hb & Hn). exists b. split; [done|]. by_side s.
      * rewrite Ri. case_decide; [subst|done]. eapply lookup_weaken_None; [apply Hn|done].
      * by rewrite relisted_other.
  - intros b tx tx' [Htx|Htx]%elem_of_app [Htx'|Htx']%elem_of_app Hb Hb' E; [..|by eapply HA].
    + destruct (Hin tx Htx) as (_ & H1 & _), (Hin tx' Htx') as (_ & H2 & _). rewrite E, H2 in H1. by injection H1.
    + destruct (Hin tx Htx) as (Ha & H1 & _), (HO tx' Htx') as (c & Hc & Hn). rewrite (pooled_once _ _ _ Ha Hb) in H1.
      rewrite <- (pooled_once _ _ _ Hb' Hc) in Hn. by rewrite E, Hn in H1.
    + destruct (Hin tx' Htx') as (Ha & H1 & _), (HO tx Htx) as (c & Hc & Hn). rewrite (pooled_once _ _ _ Ha Hb') in H1.
      rewrite <- (pooled_once _ _ _ Hb Hc) in Hn. by rewrite <- E, Hn in H1.
  - apply NoDup_app. split_and!; [done| |done]. intros tx Htx HDx. by apply (HD tx).
  - intros h tx. rewrite Ra, HAL, relisted_listed, elem_of_app, Hel. unfold listed. split.
    + intros [Hh [HDx|(s' & b & Hb)]]; [by eauto|]. split; [done|]. destruct (decide (b = a)) as [->|Hne]; [|by eauto 10].
      revert s' Hb. by_side s; [|by eauto]. intros H1. destruct (I !! tx_AccountNonce tx) as [tx'|] eqn:EI; [|by auto].
      pose proof (lookup_weaken _ _ _ _ EI Hsub) as H2. rewrite H1 in H2. injection H2 as <-. auto.
    + intros [Hh Hx]. split; [done|]. destruct Hx as [[[H1 _]|HDx]|[HI|[Ho|(s' & b & _ & Hb)]]]; [by eauto|by auto| |by eauto|by eauto].
      right. exists s, a. by eapply lookup_weaken.
  - intros h tx. rewrite Ra. apply HK.
Qed.

Lemma relisted_same : I = it s p a -> pool_inv D X p'.
Proof.
  intros E. apply (detach []). split; [by rewrite E|constructor|]. intros tx. rewrite elem_of_nil. split; [done|].
  intros [H1 H2]. by rewrite E, H1 in H2.
Qed.
End relist.

(** A transaction that comes to a list. *)
Lemma attach D X s a tx p p' :
  pool_inv (tx :: D) X p -> pooled a tx -> relisted s a (<[tx_AccountNonce tx := tx]> (it s p a)) p p' -> pool_inv D X p'.
Proof.
  intros Hp Ht Hr. assert (Hn : forall s', it s' p a !! tx_AccountNonce tx = None).
  { destruct (pi_loose _ _ _ Hp tx) as (b & Hb & Hn); [by left|]. by rewrite (pooled_once _ _ _ Ht Hb). }
  assert (Hother : forall tx', tx' ∈ D -> tx' <> tx).
  { intros tx' Htx' ->. pose proof (pi_nodup _ _ _ Hp) as Hd. by apply NoDup_cons in Hd as [? _]. }
  pose proof (relisted_other _ _ _ _ _ Hr) as Ho. pose proof (relisted_listed _ _ _ _ _ Hr) as Hli.
  pose proof (relisted_lists _ _ _ _ _ _ _ Hp Hr) as Hls.
  destruct Hp as [Hg Hno Hm HL HDj HO HA HN HAL HH HP HK]. destruct Hr as [Ro Ri Rl Ra Rp Rc Rv].
  split; rewrite ?Rc, ?Rv, ?Rp; try done.
  - intros b. specialize (HDj b). destruct (decide (a = b)) as [<-|Hne].
    + specialize (Ri a). rewrite decide_True in Ri by done. specialize (Ho a). destruct s; cbn in Ho; rewrite Ri, Ho.
      * apply map_disjoint_insert_l. split; [apply (Hn Queue)|done].
      * apply map_disjoint_insert_r. split; [apply (Hn Pending)|done].
    + specialize (Ri b). rewrite decide_False in Ri by done. specialize (Ho b). destruct s; cbn in Ho; by rewrite Ri, Ho.
  - intros tx' Htx'. destruct (HO tx') as (b & Hb & Hb'); [by right|]. exists b. split; [done|]. by_side s; [|by rewrite Ho].
    rewrite Ri. case_decide as Hab; [subst b|done]. rewrite lookup_insert_ne; [done|]. intros E. apply (Hother tx' Htx').
    symmetry. by apply (HA a tx tx'); [left|right|..].
  - intros b t1 t2 H1 H2. apply HA; by right.
  - by apply NoDup_cons in HN as [_ ?].
  - intros h tx'. rewrite Ra, HAL, Hli, elem_of_cons. unfold listed. split.
    + intros [Hh Hx]. split; [done|]. destruct Hx as [[->|Hx]|(s' & b & Hb)].
      * right. left. by rewrite lookup_insert_eq.
      * by left.
      * right. destruct (decide (b = a)) as [->|]; [|by eauto 10]. revert s' Hb. by_side s; [|by auto]. intros Hb. left.
        rewrite lookup_insert_ne; [done|]. intros E. by rewrite <- E, Hn in Hb.
    + intros [Hh Hx]. split; [done|]. destruct Hx as [Hx|[HI|[Hx|(s' & b & _ & Hb)]]]; [by auto| |by eauto|by eauto].
      destruct (decide (tx_AccountNonce tx = tx_AccountNonce tx')) as [E|E].
      * rewrite E, lookup_insert_eq in HI. injection HI as <-. auto.
      * rewrite lookup_insert_ne in HI by done. eauto.
  - intros h tx'. rewrite Ra. apply HK.
Qed.

(** A transaction that leaves the pool. *)
Lemma forget_inv D X tx p : pool_inv (tx :: D) X p -> pool_inv D X (set_tp_all (delete (Transaction_Hash tx) (tp_all p)) p).
Proof.
  intros Hp. pose proof (pi_nodup _ _ _ Hp) as Hnd. apply NoDup_cons in Hnd as [Hni Hnd].
  destruct (pi_loose _ _ _ Hp tx) as (a & Ha & Hn); [by left|].
  assert (Hnl : ~ listed p tx). { intros Hl. destruct (listed_at _ _ _ _ _ Hp Ha Hl) as [s Hs]. by rewrite Hn in Hs. }
  assert (Hit : forall s b, it s (set_tp_all (delete (Transaction_Hash tx) (tp_all p)) p) b = it s p b) by (intros [] b; done).
  assert (Hall : tp_all p !! Transaction_Hash tx = Some tx) by (apply Hp; split; [done|left; by left]).
  destruct Hp as [Hg Hno Hm HL HDj HO HA HN HAL HH HP HK]. split; try done.
  - intros tx' Htx'. destruct (HO tx') as (b & Hb & Hb'); [by right|]. exists b. split; [done|]. intros s. by rewrite Hit.
  - intros b t1 t2 H1 H2. apply HA; by right.
  - intros h tx'. cbn. rewrite lookup_delete_Some, HAL, elem_of_cons.
    assert (Hli : listed (set_tp_all (delete (Transaction_Hash tx) (tp_all p)) p) tx' <-> listed p tx') by (unfold listed; by setoid_rewrite Hit).
    rewrite Hli. split.
    + intros [Hne [Hh [[->|Hx]|Hx]]]; [done|by auto|by auto].
    + intros [Hh Hx]. split; [|by naive_solver]. intros E.
      assert (E2 : tp_all p !! h = Some tx') by (apply HAL; split; [done|]; rewrite elem_of_cons; tauto).
      rewrite <- E, Hall in E2. injection E2 as <-. by destruct Hx.
  - intros h tx'. cbn. rewrite lookup_delete_Some. intros [_ H]. by apply (HK h).
Qed.

(** Heaps of prices. *)
Lemma priced_inv D X p l :
  pool_inv D X p -> heap_ok price_less (pl_items l) -> Forall (fun tx => exists a, pooled a tx) (pl_items l) ->
  (forall h tx, tp_all p !! h = Some tx -> tx ∈ pl_items l \/ tx ∈ X) -> pool_inv D X (set_tp_priced l p).
Proof.
  intros [Hg Hno Hm HL HDj HO HA HN HAL HH HP HK] H1 H2 H3. by split.
Qed.

Lemma all_pooled D X p h tx : pool_inv D X p -> tp_all p !! h = Some tx -> exists a, pooled a tx.
Proof.
  intros Hp Hh. apply Hp in Hh as [_ [Hx|(s & a & Hx)]].
  - destruct (pi_loose _ _ _ Hp tx Hx) as (a & Ha & _). eauto.
  - destruct (it_pooled _ _ _ _ _ _ _ Hp Hx) as [Ha _]. eauto.
Qed.

Lemma removed_inv D X p n : pool_inv D X p -> pool_inv D X (set_tp_priced (pl_Removed range_hashes (tp_all p) n (tp_priced p)) p).
Proof.
  intros Hp. unfold pl_Removed. destruct (_ <=? _); [by apply priced_inv; [done|apply Hp..]|].
  destruct (heap_Init_ok price_less (range_hashes (tp_all p)).*2) as [Hperm Hh].
  assert (Hel : forall tx, tx ∈ heap_Init price_less (range_hashes (tp_all p)).*2 <-> exists h, tp_all p !! h = Some tx).
  { intros tx. rewrite Hperm, list_elem_of_fmap. setoid_rewrite range_hashes_ok. split.
    - intros ([h tx'] & -> & H%elem_of_map_to_list). eauto.
    - intros [h H]. exists (h, tx). by rewrite elem_of_map_to_list. }
  apply priced_inv; cbn [pl_items]; [done..| |].
  - apply Forall_forall. intros tx [h H]%Hel. by eapply all_pooled.
  - intros h tx H. left. apply Hel. eauto.
Qed.

(** ** What an operation does to the pool

    Most operations are about one account. *)
Definition current_nonce (p : TxPool) (a : Address) : Z := nonce_of (tp_currentState p) a.
Definition pending_nonce (p : TxPool) (a : Address) : Z := virtual_nonce (tp_pendingState p) a.
Definition has (s : side) (p : TxPool) (a : Address) : Prop := is_Some (lists s p !! a).

Record frame (p p' : TxPool) : Prop := {
  fr_accounts : forall a, find_object (tp_currentState p') a = find_object (tp_currentState p) a;
  fr_gas : tp_currentMaxGas p' = tp_currentMaxGas p;
  fr_locals : tp_locals p' = tp_locals p;
  fr_homestead : tp_homestead p' = tp_homestead p;
  fr_price : tp_gasPrice p' = tp_gasPrice p;
  fr_all : tp_all p' ⊆ tp_all p
}.

(** The transactions of [a] are [P] and [Q] afterwards, and its pending nonce is [n]. *)
Record acts (a : Address) (P Q : gmap Z Transaction) (n : Z) (p p' : TxPool) : Prop := {
  ac_frame : frame p p';
  ac_pending : forall b, it Pending p' b = if decide (a = b) then P else it Pending p b;
  ac_queue : forall b, it Queue p' b = if decide (a = b) then Q else it Queue p b;
  ac_nonce : forall b, pending_nonce p' b = if decide (a = b) then n else pending_nonce p b;
  ac_has : forall s b, b <> a -> has s p' b <-> has s p b
}.

#[export] Instance frame_refl : Reflexive frame.
Proof. by split. Qed.

#[export] Instance frame_trans : Transitive frame.
Proof. intros p1 p2 p3 [A1 G1 L1 H1 P1 S1] [A2 G2 L2 H2 P2 S2]. split; [|congruence..|by etrans]. intros a. by rewrite A2. Qed.

Lemma acts_trans a P Q n P' Q' n' p1 p2 p3 : acts a P Q n p1 p2 -> acts a P' Q' n' p2 p3 -> acts a P' Q' n' p1 p3.
Proof.
  intros [F1 I1 J1 N1 H1] [F2 I2 J2 N2 H2]. split; [by etrans| | | |].
  - intros b. rewrite I2. case_decide as Hb; [done|]. rewrite I1. by rewrite decide_False.
  - intros b. rewrite J2. case_decide as Hb; [done|]. rewrite J1. by rewrite decide_False.
  - intros b. rewrite N2. case_decide as Hb; [done|]. rewrite N1. by rewrite decide_False.
  - intros s b Hb. by rewrite H2, H1.
Qed.

(** Nothing an observer of the lists would see. *)
Lemma acts_none a p p' :
  frame p p' -> (forall s b, it s p' b = it s p b) -> (forall b, pending_nonce p' b = pending_nonce p b) ->
  (forall s b, b <> a -> has s p' b <-> has s p b) ->
  acts a (it Pending p a) (it Queue p a) (pending_nonce p a) p p'.
Proof. intros Hf Hi Hn Hh. split; [done|intros b; rewrite ?Hi, ?Hn; case_decide; by subst..|done]. Qed.

Lemma acts_at a P Q n p p' : acts a P Q n p p' -> it Pending p' a = P /\ it Queue p' a = Q /\ pending_nonce p' a = n.
Proof. intros [_ Hp Hq Hn _]. specialize (Hp a). specialize (Hq a). specialize (Hn a). rewrite decide_True in Hp by done. rewrite decide_True in Hq by done. by rewrite decide_True in Hn by done. Qed.

Lemma acts_eq a P Q n P' Q' n' p p' : acts a P Q n p p' -> P = P' -> Q = Q' -> n = n' -> acts a P' Q' n' p p'.
Proof. by intros ? -> -> ->. Qed.

(** Changing a field that the lists do not depend on. *)
Lemma acts_fields a p p' :
  (forall s, lists s p' = lists s p) -> frame p p' -> (forall b, pending_nonce p' b = pending_nonce p b) ->
  acts a (it Pending p a) (it Queue p a) (pending_nonce p a) p p'.
Proof.
  intros Hl Hf Hn. apply acts_none; [done|intros s b; unfold it; by rewrite Hl|done|intros s b _; unfold has; by rewrite Hl].
Qed.

(** Replacing the list of an account. *)
Definition at_side (s s' : side) (I J : gmap Z Transaction) : gmap Z Transaction :=
  match s, s' with Pending, Pending | Queue, Queue => I | _, _ => J end.

Lemma acts_relisted s a I p p' :
  relisted s a I p p' -> frame p p' -> (forall s' b, b <> a -> has s' p' b <-> has s' p b) ->
  acts a (at_side s Pending I (it Pending p a)) (at_side s Queue I (it Queue p a)) (pending_nonce p a) p p'.
Proof.
  intros Hr Hf Hh. pose proof (relisted_other _ _ _ _ _ Hr) as Ho. pose proof (rl_it _ _ _ _ _ Hr) as Hi.
  split; [done|..|done].
  - intros b. destruct s; cbn in *; [apply Hi|]. rewrite Ho. case_decide; by subst.
  - intros b. destruct s; cbn in *; [|apply Hi]. rewrite Ho. case_decide; by subst.
  - intros b. unfold pending_nonce. rewrite (rl_virtual _ _ _ _ _ Hr). case_decide; by subst.
Qed.

Lemma frame_set_lists s v p : frame p (set_lists s v p).
Proof. by destruct s. Qed.

Lemma has_insert s s' a b l p : b <> a -> has s' (set_lists s (<[a := l]> (lists s p)) p) b <-> has s' p b.
Proof. intros Hb. unfold has. rewrite lists_set. destruct s, s'; cbn; rewrite ?lookup_insert_ne by done; done. Qed.

Lemma has_delete s s' a b p : b <> a -> has s' (set_lists s (delete a (lists s p)) p) b <-> has s' p b.
Proof. intros Hb. unfold has. rewrite lists_set. destruct s, s'; cbn; rewrite ?lookup_delete_ne by done; done. Qed.

(** An operation on a list. *)
Lemma twp_on_list {A} s a (m : M txList A) (Q : A -> TxPool -> Prop) l p :
  lists s p !! a = Some l -> twp m (fun v l' => Q v (set_lists s (<[a := l']> (lists s p)) p)) l -> twp (on_list s a m) Q p.
Proof. intros Hl (v & l' & E & H). eexists v, _. unfold on_list. by rewrite Hl, E. Qed.

Lemma relist_insert D X s a l p :
  pool_inv D X p -> list_ok s a l ->
  relisted s a (items l) p (set_lists s (<[a := l]> (lists s p)) p) /\
  acts a (at_side s Pending (items l) (it Pending p a)) (at_side s Queue (items l) (it Queue p a)) (pending_nonce p a)
    p (set_lists s (<[a := l]> (lists s p)) p).
Proof.
  intros Hp Hl. pose proof (relisted_insert _ _ _ _ _ _ Hp Hl) as Hr. split; [done|].
  apply acts_relisted; [done|apply frame_set_lists|]. intros s' b Hb. by apply has_insert.
Qed.

Lemma it_some s p a l : lists s p !! a = Some l -> it s p a = items l.
Proof. unfold it. by intros ->. Qed.

(** Taking transactions out of a list. *)
Lemma take_out {A} D X s a (m : M txList A) (Q : A -> TxPool -> Prop) l p :
  pool_inv D X p -> lists s p !! a = Some l ->
  twp m (fun v l' => exists r, removed_from l l' r /\ forall p',
    pool_inv (r ++ D) X p' -> lists s p' !! a = Some l' -> parts (it s p a) (items l') r ->
    acts a (at_side s Pending (items l') (it Pending p a)) (at_side s Queue (items l') (it Queue p a)) (pending_nonce p a) p p' ->
    tp_all p' = tp_all p -> (forall s', has s' p' a <-> has s' p a) -> Q v p') l ->
  twp (on_list s a m) Q p.
Proof.
  intros Hp Hl Hm. apply (twp_on_list s a m Q l); [done|]. eapply twp_mono; [exact Hm|]. cbn beta.
  intros v l' (r & (Hm' & Hst & Hpa) & HQ). assert (Hl' : list_ok s a l').
  { eapply list_ok_sub; [by eapply pi_lists|done|done|apply Hpa]. }
  destruct (relist_insert _ _ _ _ _ _ Hp Hl') as [Hr Ha]. rewrite <- (it_some _ _ _ _ Hl) in Hpa. apply HQ.
  - by eapply detach.
  - rewrite lists_set. destruct s; apply lookup_insert_eq.
  - done.
  - done.
  - by destruct s.
  - intros s'. unfold has. rewrite lists_set. destruct s, s'; rewrite ?lookup_insert_eq; try done; cbn in Hl |- *; rewrite Hl; naive_solver.
Qed.

(** ** Steps that the lists do not see *)
Record unseen (p p' : TxPool) : Prop := {
  un_lists : forall s, lists s p' = lists s p;
  un_all : tp_all p' = tp_all p;
  un_frame : frame p p';
  un_nonce : forall b, pending_nonce p' b = pending_nonce p b
}.

Lemma unseen_it s p p' a : unseen p p' -> it s p' a = it s p a.
Proof. intros H. unfold it. by rewrite (un_lists _ _ H). Qed.

Lemma unseen_has s p p' a : unseen p p' -> has s p' a <-> has s p a.
Proof. intros H. unfold has. by rewrite (un_lists _ _ H). Qed.

Lemma unseen_acts a p p' : unseen p p' -> acts a (it Pending p a) (it Queue p a) (pending_nonce p a) p p'.
Proof. intros [Hl Ha Hf Hn]. by apply acts_fields. Qed.

Lemma unseen_trans p1 p2 p3 : unseen p1 p2 -> unseen p2 p3 -> unseen p1 p3.
Proof. intros [L1 A1 F1 N1] [L2 A2 F2 N2]. split; [intros s; by rewrite L2|congruence|by etrans|intros b; by rewrite N2]. Qed.

Lemma unseen_refl p : unseen p p.
Proof. by split. Qed.

Lemma acts_unseen a P Q n p1 p2 p3 : acts a P Q n p1 p2 -> unseen p2 p3 -> acts a P Q n p1 p3.
Proof.
  intros Ha Hu. destruct (acts_at _ _ _ _ _ _ Ha) as (<- & <- & <-). eapply acts_trans; [exact Ha|]. by apply unseen_acts.
Qed.

Lemma unseen_then a P Q n p1 p2 p3 : unseen p1 p2 -> acts a P Q n p2 p3 -> acts a P Q n p1 p3.
Proof. intros Hu Ha. eapply acts_trans; [by apply unseen_acts|exact Ha]. Qed.

Lemma unseen_priced l p : unseen p (set_tp_priced l p).
Proof. split; [by intros []|done..]. Qed.

Lemma read_ok {A} D X (m : M StateDB A) (v : A) (Q : A -> TxPool -> Prop) p :
  pool_inv D X p -> twp m (fun r s' => r = v /\ same_accounts (tp_currentState p) s') (tp_currentState p) ->
  (forall p', pool_inv D X p' -> unseen p p' -> Q v p') -> twp (current m) Q p.
Proof.
  intros Hp Hm HQ. apply twp_zoom. eapply twp_mono; [exact Hm|]. cbn beta. intros r s' [-> Hs]. apply HQ.
  - apply (pool_inv_ext D X p); [apply Hs|intros a; cbn; rewrite (same_nonce _ _ a Hs); apply Hp|apply Hp|by intros []|done..].
  - split; [by intros []|done| |done]. split; try done. apply Hs.
Qed.

Lemma virtual_read D X a (Q : Z -> TxPool -> Prop) p :
  pool_inv D X p -> (forall p', pool_inv D X p' -> unseen p p' -> Q (pending_nonce p a) p') -> twp (virtual (ms_GetNonce a)) Q p.
Proof.
  intros Hp HQ. apply twp_zoom. eapply twp_mono; [apply ms_GetNonce_ok, Hp|]. cbn beta. intros v ms (-> & Hms & Hv). apply HQ.
  - apply (pool_inv_ext D X p); [apply Hp|apply Hp|done|by intros []|done..].
  - split; [by intros []|done|done|done].
Qed.

(** *** Pending nonces *)
Lemma virtual_set D X a n (Q : unit -> TxPool -> Prop) p :
  pool_inv D X p -> is_uint64 n ->
  (forall p', pool_inv D X p' -> acts a (it Pending p a) (it Queue p a) n p p' -> tp_all p' = tp_all p ->
    (forall s, lists s p' = lists s p) -> Q tt p') ->
  twp (virtual (ms_SetNonce a n)) Q p.
Proof.
  intros Hp Hn HQ. apply twp_zoom. eapply twp_mono; [apply ms_SetNonce_ok; [apply Hp|done]|]. cbn beta. intros [] ms (Hms & Hv).
  assert (Hl : forall s, lists s (set_tp_pendingState ms p) = lists s p) by by intros [].
  assert (Hi : forall s b, it s (set_tp_pendingState ms p) b = it s p b) by (intros s b; unfold it; by rewrite Hl).
  apply HQ; [apply (pool_inv_ext D X p); [apply Hp|apply Hp|done..]| |done|done].
  split; [done| | |done|intros s b _; unfold has; by rewrite Hl]; intros b; rewrite Hi; case_decide; by subst.
Qed.

Lemma lower_nonce_ok D X a n p :
  pool_inv D X p -> is_uint64 n ->
  twp (lower_nonce a n) (fun _ p' => pool_inv D X p' /\ acts a (it Pending p a) (it Queue p a) (Z.min n (pending_nonce p a)) p p' /\
    tp_all p' = tp_all p /\ forall s, lists s p' = lists s p) p.
Proof.
  intros Hp Hn. unfold lower_nonce. twp_step. eapply virtual_read; [done|]. intros p1 H1 U1. apply twp_when.
  - intros Hlt%Z.ltb_lt. eapply virtual_set; [done..|]. intros p2 H2 A2 E2 L2. rewrite !(unseen_it _ _ _ _ U1) in A2.
    split_and!; [done| |by rewrite E2; apply U1|intros s; by rewrite L2, (un_lists _ _ U1)].
    eapply acts_eq; [by eapply unseen_then|done..|lia].
  - intros Hge%Z.ltb_ge. split_and!; [done| |apply U1|apply U1]. eapply acts_eq; [by apply unseen_acts|done..|lia].
Qed.

(** *** The index *)
Lemma forget_ok D X r p :
  pool_inv (r ++ D) X p ->
  twp (forget (Some <$> r)) (fun _ p' => pool_inv D X p' /\ exists A, p' = set_tp_all A p /\ A ⊆ tp_all p) p.
Proof.
  revert p. induction r as [|tx r IH]; intros p Hp; cbn [forget fmap list_fmap].
  - apply twp_ret. split; [done|]. exists (tp_all p). by destruct p.
  - apply twp_bind, twp_deref, twp_bind, twp_modify. eapply twp_mono; [apply IH; by apply forget_inv|]. cbn beta.
    intros _ p' [Hp' (A & -> & HA)]. split; [done|]. exists A. split; [done|]. cbn in HA. etrans; [exact HA|apply delete_subseteq].
Qed.

Lemma set_all_acts a A p : A ⊆ tp_all p -> acts a (it Pending p a) (it Queue p a) (pending_nonce p a) p (set_tp_all A p).
Proof. intros HA. apply acts_fields; [by intros []|by split|done]. Qed.

Lemma priced_Removed_ok D X n p :
  pool_inv D X p -> twp (priced_Removed n) (fun _ p' => pool_inv D X p' /\ unseen p p') p.
Proof. intros Hp. apply twp_modify. split; [by apply removed_inv|apply unseen_priced]. Qed.

(** ** Adding to a list *)
Abbreviation strict_of s := (match s with Pending => true | Queue => false end).

Lemma sender_ok a tx (Q : Address -> TxPool -> Prop) p : pooled a tx -> Q a p -> twp (sender chainconfig tx) Q p.
Proof. intros [Hs _ _ _ _] HQ. exists a, p. split; [|done]. unfold sender, sender_of, embed. by rewrite Hs. Qed.

Lemma has_other s a l p : has (other s) (set_lists s (<[a := l]> (lists s p)) p) a <-> has (other s) p a.
Proof. unfold has. by destruct s. Qed.

Lemma lookup_set s a l p : lists s (set_lists s (<[a := l]> (lists s p)) p) !! a = Some l.
Proof. destruct s; apply lookup_insert_eq. Qed.

Lemma ensure_ok D X s a (Q : unit -> TxPool -> Prop) p :
  pool_inv D X p ->
  (forall p' l, pool_inv D X p' -> lists s p' !! a = Some l ->
    acts a (it Pending p a) (it Queue p a) (pending_nonce p a) p p' -> tp_all p' = tp_all p ->
    (has (other s) p' a <-> has (other s) p a) -> Q tt p') ->
  twp (when (bool_decide (lists s p !! a = None)) (modify (set_lists s (<[a := newTxList (strict_of s)]> (lists s p))))) Q p.
Proof.
  intros Hp HQ. apply twp_when.
  - intros Hn%bool_decide_eq_true. apply twp_modify. assert (Hi : it s p a = ∅) by (unfold it; by rewrite Hn).
    destruct (relist_insert D X s a (newTxList (strict_of s)) p Hp) as [Hr Ha]; [apply newTxList_ok|].
    apply (HQ _ (newTxList (strict_of s))); [|apply lookup_set| |by destruct s|apply has_other].
    + by eapply relisted_same.
    + eapply acts_eq; [exact Ha|..|done]; destruct s; cbn; by rewrite ?Hi.
  - intros Hn%bool_decide_eq_false. destruct (lists s p !! a) as [l|] eqn:El; [|done].
    apply (HQ _ l); [done..| |done|done]. apply unseen_acts, unseen_refl.
Qed.

Lemma add_in D X s a tx bump p l :
  pool_inv (tx :: D) X p -> pooled a tx -> lists s p !! a = Some l ->
  twp (on_list s a (tl_Add tx bump)) (fun '(b, old) p' => let I := <[tx_AccountNonce tx := tx]> (it s p a) in
    b = true /\ old = None /\ pool_inv D X p' /\
    acts a (at_side s Pending I (it Pending p a)) (at_side s Queue I (it Queue p a)) (pending_nonce p a) p p' /\
    tp_all p' = tp_all p /\ has s p' a /\ (has (other s) p' a <-> has (other s) p a)) p.
Proof.
  intros Hp Ht Hl. eapply twp_on_list; [done|]. eapply twp_mono; [apply tl_Add_ok; [by eapply pi_lists|done]|].
  assert (Hn : it s p a !! tx_AccountNonce tx = None).
  { destruct (pi_loose _ _ _ Hp tx) as (b & Hb & Hn); [by left|]. by rewrite (pooled_once _ _ _ Ht Hb). }
  rewrite (it_some _ _ _ _ Hl) in Hn |- *. cbn beta zeta. intros [b old] l' [Hl' Hb]. rewrite Hn in Hb.
  destruct b; [|by destruct Hb as [[? ?] _]]. destruct Hb as [-> Hi]. destruct (relist_insert _ _ _ _ _ _ Hp Hl') as [Hr Ha].
  rewrite Hi in Hr, Ha. split_and!; [done|done| |done|by destruct s|by eexists; apply lookup_set|apply has_other].
  eapply attach; [exact Hp|done|]. rewrite (it_some _ _ _ _ Hl). exact Hr.
Qed.

Lemma known_all D X tx p : pool_inv (tx :: D) X p -> tp_all p !! Transaction_Hash tx = Some tx.
Proof. intros Hp. apply Hp. split; [done|left; by left]. Qed.

(** A transaction of the pool goes to the queue. *)
Lemma enqueue_ok D X a tx p :
  pool_inv (tx :: D) X p -> pooled a tx ->
  twp (enqueueTx config chainconfig (Transaction_Hash tx) tx) (fun r p' => r = inr false /\ pool_inv D X p' /\
    acts a (it Pending p a) (<[tx_AccountNonce tx := tx]> (it Queue p a)) (pending_nonce p a) p p' /\
    tp_all p' = tp_all p /\ has Queue p' a /\ (has Pending p' a <-> has Pending p a)) p.
Proof.
  intros Hp Ht. unfold enqueueTx. apply twp_bind. eapply sender_ok; [done|]. twp_step. twp_step. twp_step.
  apply (ensure_ok (tx :: D) X Queue a); [done|]. intros p1 l H1 L1 A1 E1 O1.
  destruct (acts_at _ _ _ _ _ _ A1) as (I1 & J1 & N1). twp_step. eapply twp_mono; [by eapply (add_in D X Queue)|]. cbn beta zeta.
  intros [b old] p2 (-> & -> & H2 & A2 & E2 & Hq & O2). cbn [negb]. apply twp_bind, twp_ret. twp_step. twp_step. twp_step.
  rewrite bool_decide_eq_false_2 by (by rewrite E2, E1, (known_all _ _ _ _ Hp)). apply twp_ret. apply twp_ret. cbn in *.
  split_and!; [done|done| |congruence|done|tauto]. rewrite I1, J1, N1 in A2. by eapply acts_trans.
Qed.

Lemma enqueue_all_ok D X a txs p :
  pool_inv (txs ++ D) X p -> Forall (pooled a) txs ->
  twp (enqueue_all config chainconfig txs) (fun _ p' => pool_inv D X p' /\
    acts a (it Pending p a) (foldl (fun m tx => <[tx_AccountNonce tx := tx]> m) (it Queue p a) txs) (pending_nonce p a) p p' /\
    tp_all p' = tp_all p /\ (has Queue p' a <-> has Queue p a \/ txs <> []) /\ (has Pending p' a <-> has Pending p a)) p.
Proof.
  intros Hp Ht. revert p Hp. induction Ht as [|tx txs Ht Hts IH]; intros p Hp; cbn [enqueue_all foldl].
  - apply twp_ret. split_and!; [done|apply unseen_acts, unseen_refl|done|naive_solver|done].
  - twp_step. eapply twp_mono; [by apply enqueue_ok|]. cbn beta. intros r p1 (-> & H1 & A1 & E1 & Q1 & O1).
    destruct (acts_at _ _ _ _ _ _ A1) as (I1 & J1 & N1). eapply twp_mono; [by apply IH|]. cbn beta.
    intros _ p2 (H2 & A2 & E2 & Q2 & O2). rewrite I1, J1, N1 in A2.
    split_and!; [done|by eapply acts_trans|congruence|naive_solver|tauto].
Qed.

Lemma promoteTx_ok D X a tx p :
  pool_inv (tx :: D) X p -> pooled a tx ->
  twp (promoteTx config Now a (Transaction_Hash tx) tx) (fun b p' => b = true /\ pool_inv D X p' /\
    acts a (<[tx_AccountNonce tx := tx]> (it Pending p a)) (it Queue p a) (uint64 (tx_AccountNonce tx + 1)) p p' /\
    tp_all p' = tp_all p /\ has Pending p' a /\ (has Queue p' a <-> has Queue p a)) p.
Proof.
  intros Hp Ht. unfold promoteTx. twp_step. twp_step. twp_step.
  apply (ensure_ok (tx :: D) X Pending a); [done|]. intros p1 l H1 L1 A1 E1 O1.
  destruct (acts_at _ _ _ _ _ _ A1) as (I1 & J1 & N1). twp_step. eapply twp_mono; [by eapply (add_in D X Pending)|]. cbn beta zeta.
  intros [b old] p2 (-> & -> & H2 & A2 & E2 & Hq & O2). cbn [negb]. apply twp_bind, twp_ret. twp_step. twp_step. twp_step.
  rewrite bool_decide_eq_false_2 by (by rewrite E2, E1, (known_all _ _ _ _ Hp)). apply twp_ret. twp_step. twp_step.
  set (p3 := set_tp_ticks _ _). assert (U3 : unseen p2 p3) by (split; [by intros []|done..]).
  assert (H3 : pool_inv D X p3) by (apply (pool_inv_ext D X p2); [apply H2..|by intros []|done|done|done]).
  destruct (acts_at _ _ _ _ _ _ A2) as (I2 & J2 & N2).
  twp_step. eapply virtual_set; [exact H3|apply uint64_range|]. intros p4 H4 A4 E4 L4. apply twp_ret. cbn in *.
  rewrite !(unseen_it _ _ _ _ U3), I2, J2, I1, J1 in A4. split_and!; [done|done| |rewrite E4; cbn; congruence|unfold has; rewrite L4; done|].
  - eapply acts_trans; [exact A1|]. eapply acts_trans; [exact A2|]. by eapply unseen_then.
  - assert (Hh : has Queue p4 a <-> has Queue p2 a) by (unfold has; by rewrite L4). tauto.
Qed.

Lemma promote_all_ok D X a r promoted p :
  pool_inv (r ++ D) X p -> Forall (pooled a) r ->
  twp (promote_all config Now a (Some <$> r) promoted) (fun l p' => l = promoted ++ r /\ pool_inv D X p' /\
    acts a (foldl (fun m tx => <[tx_AccountNonce tx := tx]> m) (it Pending p a) r) (it Queue p a)
      (foldl (fun _ tx => uint64 (tx_AccountNonce tx + 1)) (pending_nonce p a) r) p p' /\
    tp_all p' = tp_all p /\ (has Pending p' a <-> has Pending p a \/ r <> []) /\ (has Queue p' a <-> has Queue p a)) p.
Proof.
  intros Hp Ht. revert promoted p Hp. induction Ht as [|tx r Ht Hr IH]; intros promoted p Hp; cbn [promote_all foldl fmap list_fmap].
  - apply twp_ret. rewrite app_nil_r. split_and!; [done|done|apply unseen_acts, unseen_refl|done|naive_solver|done].
  - apply twp_bind, twp_deref. twp_step. eapply twp_mono; [by apply promoteTx_ok|]. cbn beta. intros b p1 (-> & H1 & A1 & E1 & Q1 & O1).
    destruct (acts_at _ _ _ _ _ _ A1) as (I1 & J1 & N1). eapply twp_mono; [by apply IH|]. cbn beta.
    intros l p2 (-> & H2 & A2 & E2 & Q2 & O2). rewrite I1, J1, N1 in A2. rewrite <- app_assoc.
    split_and!; [done|done|by eapply acts_trans|congruence|naive_solver|tauto].
Qed.

(** ** What cannot be paid *)
Lemma payable_ok D X a bal tx p :
  pool_inv D X p -> pooled a tx -> twp (payable chainconfig bal tx) (fun _ p' => pool_inv D X p' /\ unseen p p') p.
Proof.
  intros Hp Ht. destruct (pooled_cost a tx Ht) as [cost Hcost]. destruct Ht as [_ _ [pr Hpr] [am Ham] [r Hprov]].
  assert (Hs : exists o, SignedProvider (pool_signer chainconfig) tx = Ok o).
  { unfold SignedProvider. rewrite Hprov. destruct r; eauto. }
  destruct Hs as [o Hs]. unfold payable. twp_step. exists o, p. split; [unfold embed; by rewrite Hs|]. destruct o as [q|].
  - twp_step. eapply read_ok; [exact Hp|apply GetBalance_reads, Hp|]. intros p1 H1 U1. rewrite Ham. apply twp_bind, twp_deref.
    destruct (_ <=? _); [|by apply twp_ret]. unfold TransactionFee. rewrite Hpr. cbn. by apply twp_bind, twp_deref, twp_ret.
  - rewrite Hcost. apply twp_bind, twp_deref, twp_ret. split; [done|apply unseen_refl].
Qed.

Lemma unpayable_ok D X a bal todo acc p :
  pool_inv D X p -> Forall (fun kv => pooled a kv.2) todo ->
  twp (unpayable chainconfig bal todo acc) (fun r p' => pool_inv D X p' /\ unseen p p' /\ exists l, r = acc ++ l /\ l `sublist_of` todo) p.
Proof.
  intros Hp Ht. revert acc p Hp. induction Ht as [|[n tx] todo Ht Htodo IH]; intros acc p Hp; cbn [unpayable].
  - apply twp_ret. split_and!; [done|apply unseen_refl|]. exists []. by rewrite app_nil_r.
  - twp_step. eapply twp_mono; [by eapply payable_ok|]. cbn beta. intros b p1 [H1 U1]. twp_step. twp_step.
    eapply twp_mono; [by apply IH|]. cbn beta. intros r p2 (H2 & U2 & l & -> & Hl). split_and!; [done|by eapply unseen_trans|].
    destruct (_ || _).
    + exists ((n, tx) :: l). rewrite <- app_assoc. split; [done|by constructor].
    + exists l. split; [done|by constructor].
Qed.

Lemma lowest_ok txs :
  txs <> [] -> Forall (fun tx => is_uint64 (tx_AccountNonce tx)) txs ->
  (exists tx, tx ∈ txs /\ tx_AccountNonce tx = lowest_nonce txs) /\ forall tx, tx ∈ txs -> lowest_nonce txs <= tx_AccountNonce tx.
Proof.
  intros Hne Hu. unfold lowest_nonce. set (f := fun lowest tx => if tx_AccountNonce tx <? lowest then tx_AccountNonce tx else lowest).
  assert (H : forall l m, foldl f m l <= m /\ (forall tx, tx ∈ l -> foldl f m l <= tx_AccountNonce tx) /\
    (foldl f m l = m \/ exists tx, tx ∈ l /\ tx_AccountNonce tx = foldl f m l)).
  { induction l as [|x l IH]; intros m; cbn [foldl]; [split_and!; [done|intros tx []%not_elem_of_nil|by left]|].
    destruct (IH (f m x)) as (H1 & H2 & H3). assert (Hf : f m x <= m /\ f m x <= tx_AccountNonce x /\ (f m x = m \/ f m x = tx_AccountNonce x)).
    { unfold f. destruct (Z.ltb_spec (tx_AccountNonce x) m); lia. }
    split_and!; [lia|intros tx [->|Hx]%elem_of_cons; [lia|by apply H2]|].
    destruct H3 as [H3|(tx & Hx & E)]; [|right; exists tx; split; [by right|done]].
    destruct Hf as (_ & _ & [Hf|Hf]); [left; congruence|right; exists x; split; [by left|congruence]]. }
  destruct (H txs MaxUint64) as (H1 & H2 & H3). split; [|done]. destruct H3 as [H3|]; [|done].
  destruct txs as [|x l]; [done|]. exists x. split; [by left|]. pose proof (H2 x ltac:(by left)) as Hx. rewrite H3 in Hx |- *.
  inversion_clear Hu as [|? ? Hux _]. unfold is_uint64 in Hux. lia.
Qed.
End lists.
