(* ===== verification/TransitionSafe.v ===== *)
(** * What a state transition promises

    Applying a message returns, takes from the gas pool and from the payer what was used,
    and creates no value. *)

From S2P Require Import Prelude Bytes RlpEncode RlpDecode RlpCanonical RlpRaw Types Params EvmData EvmBitmap Fallible StateDB StateRevert StateEffect EvmCore EvmGas EvmOps JumpTable Precompiled Evm EvmSafe EvmSafeGas EvmSafeOps EvmSafeMem EvmSafeCalls EvmSafePre EvmSafeRun EvmSafeLevel Signing Transition.

(** ** The gas of the data *)
Lemma nonzero_bytes_range data : 0 <= nonzero_bytes data <= Z.of_nat (length data).
Proof. unfold nonzero_bytes. pose proof (List.filter_length_le (fun b => negb (Z_of_byte b =? 0)) data). lia. Qed.

(** The gas of a message of a size that a transaction can have. *)
Lemma IntrinsicGas_eq data contractCreation homestead :
  Z.of_nat (length data) < 2 ^ 57 ->
  IntrinsicGas data contractCreation homestead =
    inr ((if contractCreation && homestead then TxGasContractCreation else TxGas) +
         nonzero_bytes data * TxDataNonZeroGas + (Z.of_nat (length data) - nonzero_bytes data) * TxDataZeroGas).
Proof.
  intros Hl. pose proof (nonzero_bytes_range data) as Hn. unfold IntrinsicGas. cbv zeta.
  set (gas := if _ && _ then _ else _). assert (Hg : 0 <= gas <= 53000) by (unfold gas, TxGasContractCreation, TxGas; destruct (_ && _); lia).
  unfold TxDataNonZeroGas, TxDataZeroGas. destruct (Nat.eqb_spec (length data) 0) as [E|E].
  { destruct data; [|done]. cbn. f_equal. lia. }
  assert (H1 : nonzero_bytes data <= (MaxUint64 - gas) / 68) by (apply Z.div_le_lower_bound; lia).
  rewrite (proj2 (Z.ltb_ge _ _) H1). rewrite (uint64_small (gas + _)), (uint64_small (Z.of_nat (length data) - _)) by (unfold is_uint64; lia).
  assert (H2 : Z.of_nat (length data) - nonzero_bytes data <= (MaxUint64 - (gas + nonzero_bytes data * 68)) / 4)
    by (apply Z.div_le_lower_bound; lia).
  rewrite (proj2 (Z.ltb_ge _ _) H2). rewrite uint64_small by (unfold is_uint64; lia). f_equal.
Qed.

Lemma IntrinsicGas_positive data contractCreation homestead g : IntrinsicGas data contractCreation homestead = inr g -> 0 <= g.
Proof.
  unfold IntrinsicGas. cbv zeta. repeat case_match; intros [= <-]; try (apply Z.mod_pos_bound; lia);
    unfold TxGasContractCreation, TxGas; lia.
Qed.

(** ** Value that leaves the accounts *)
Section value.
Context `{C : Crypto} {DB : StateDatabase}.

Definition pays (fee : Z) (s s' : StateDB) : Prop := exists L : gset Address, forall X, L ⊆ X -> total X s' + fee <= total X s.

Lemma pays_trans f1 f2 s1 s2 s3 : pays f1 s1 s2 -> pays f2 s2 s3 -> pays (f1 + f2) s1 s3.
Proof.
  intros (L1 & H1) (L2 & H2). exists (L1 ∪ L2). intros X HX. specialize (H1 X ltac:(set_solver)).
  specialize (H2 X ltac:(set_solver)). lia.
Qed.

Lemma creates_pays s s' : creates_nothing s s' -> pays 0 s s'.
Proof. intros (L & H). exists L. intros X HX. specialize (H X HX). lia. Qed.

Lemma pays_creates fee s s' : 0 <= fee -> pays fee s s' -> creates_nothing s s'.
Proof. intros Hf (L & H). exists L. intros X HX. specialize (H X HX). lia. Qed.
End value.

Section safe.
Context `{C : Crypto} {DB : StateDatabase} {N : NativeCrypto} {E : Environment} {K : EnvironmentOk}.

Abbreviation sdb := evm_StateDB.

(** What an account is given or pays. *)
Record credited (a : Address) (z : Z) (s s' : StateDB) : Prop := {
  cr_ok : state_ok s';
  cr_balance : forall b, balance_of s' b = balance_of s b + (if decide (a = b) then z else 0);
  cr_pays : pays (- z) s s';
  cr_refund : sdb_refund s' = sdb_refund s;
  cr_logs : tx_effect s s'
}.

Lemma updated_credited a z s s' :
  state_ok s -> 0 <= balance_of s a + z -> updated a (added s a z) s s' -> credited a z s s'.
Proof.
  intros Hs Hz U. assert (Hb : forall b, balance_of s' b = balance_of s b + (if decide (a = b) then z else 0)).
  { intros b. rewrite (updated_balance _ _ _ _ b U), added_balance by done. case_decide; [by subst|lia]. }
  split; [by eapply updated_ok; [..|by apply added_ok]|done| |apply U|by eapply updated_logs].
  exists {[a]}. intros X HX. rewrite (total_one X a s s'); [|set_solver|].
  - rewrite Hb, decide_True by done. lia.
  - intros b Hne. rewrite Hb, decide_False by done. lia.
Qed.

Lemma SubBalance_credited a z s :
  state_ok s -> z <= balance_of s a -> twp (SubBalance a z) (fun _ => credited a (- z) s) s.
Proof.
  intros Hs Hz. destruct (SubBalance_updated a z s (ok_good _ Hs)) as (s' & Es & U). exists tt, s'. split; [done|].
  apply updated_credited; [done|lia|done].
Qed.

Lemma AddBalance_credited a z s : state_ok s -> 0 <= z -> twp (AddBalance a z) (fun _ => credited a z s) s.
Proof.
  intros Hs Hz. destruct (AddBalance_updated a z s (ok_good _ Hs)) as (s' & Es & U). exists tt, s'. split; [done|].
  pose proof (balance_positive a s Hs). apply updated_credited; [done|lia|done].
Qed.

(** ** Code on the machine of a transition *)
Lemma twp_on_machine {A} (m : M Evm A) P (Q : A -> StateTransition -> Prop) st :
  twp m P (st_evm st) -> (forall a e', P a e' -> Q a (set_st_evm e' st)) -> twp (on_machine m) Q st.
Proof. intros (a & e' & Em & H) HQ. exists a, (set_st_evm e' st). unfold on_machine, zoom. rewrite Em. auto. Qed.

Lemma twp_state {A} (m : M StateDB A) P (Q : A -> StateTransition -> Prop) st :
  twp m P (sdb (st_evm st)) -> (forall a s', P a s' -> Q a (set_st_evm (set_StateDB s' (st_evm st)) st)) -> twp (state m) Q st.
Proof.
  intros (a & s' & Em & H) HQ. exists a, (set_st_evm (set_StateDB s' (st_evm st)) st). unfold state, on_machine, on_db, zoom.
  rewrite Em. auto.
Qed.

Lemma evm_ok_db e s' : evm_ok e -> state_ok s' -> evm_ok (set_StateDB s' e).
Proof. intros [Hs Ha Hd Ht] Hk. by split. Qed.

(** A lookup changes nothing. *)
Lemma twp_lookup {A} (m : M StateDB A) P (Q : A -> StateTransition -> Prop) st :
  evm_ok (st_evm st) -> (forall ro s, state_ok s -> twp m (looks ro (P s) s) s) ->
  (forall a s', P (sdb (st_evm st)) a -> state_ok s' -> st_equiv s' (sdb (st_evm st)) ->
     Q a (set_st_evm (set_StateDB s' (st_evm st)) st)) ->
  twp (state m) Q st.
Proof.
  intros Ke Hm HQ. eapply twp_state; [apply (Hm false), Ke|]. intros a s' (Ha & Hs & He). apply HQ; [done|apply Hs|done].
Qed.

(** ** Messages *)
Record msg_ok (msg : Message) : Prop := {
  mo_gas : 0 <= msg_gasLimit msg < max_gas;
  mo_price : 0 <= msg_gasPrice msg;
  mo_amount : exists v, msg_amount msg = Some v /\ 0 <= v;
  mo_data : bounded (msg_data msg)
}.

Section message.
Context (msg : Message) {Hmsg : msg_ok msg}.

(** ** Buying gas *)
Definition bought (st st' : StateTransition) : Prop :=
  msg_gasLimit msg <= st_gp st /\ st_gp st' = st_gp st - msg_gasLimit msg /\ st_gas st' = msg_gasLimit msg /\
  st_initialGas st' = msg_gasLimit msg /\ evm_ok (st_evm st') /\ evm_readOnly (st_evm st') = evm_readOnly (st_evm st) /\
  pays (msg_gasLimit msg * msg_gasPrice msg) (sdb (st_evm st)) (sdb (st_evm st')) /\
  tx_effect (sdb (st_evm st)) (sdb (st_evm st')) /\
  forall b, balance_of (sdb (st_evm st')) b = balance_of (sdb (st_evm st)) b -
    (if decide (msg_gasPayer msg = b) then msg_gasLimit msg * msg_gasPrice msg else 0).

(** An error before anything was taken. *)
Definition untouched (st st' : StateTransition) : Prop :=
  st_gp st' = st_gp st /\ evm_ok (st_evm st') /\ st_equiv (sdb (st_evm st')) (sdb (st_evm st)).

Lemma creates_equiv s s' : st_equiv s' s -> pays 0 s s'.
Proof. intros He. exists ∅. intros X _. rewrite (total_same X s s'); [lia|]. intros a _. by apply equiv_balance. Qed.

Lemma twp_buyGas st :
  evm_ok (st_evm st) -> st_gas st = 0 -> twp (buyGas msg) (fun err st' => match err with Some _ => untouched st st' | None => bought st st' end) st.
Proof.
  intros Ke Hg. destruct Hmsg as [Hgas Hprice _ _]. unfold buyGas. apply twp_bind.
  eapply twp_lookup; [done|intros; by apply GetBalance_looks|]. intros bal s1 -> K1 Q1.
  destruct (Z.ltb_spec (balance_of (sdb (st_evm st)) (msg_gasPayer msg)) (msg_gasLimit msg * msg_gasPrice msg)) as [Hlt|Hge].
  { apply twp_ret. split; [done|]. split; [by apply evm_ok_db|done]. }
  apply twp_bind, twp_gets. cbn [st_gp set_st_evm]. unfold SubGas. destruct (Z.ltb_spec (st_gp st) (msg_gasLimit msg)) as [Hp|Hp].
  { apply twp_ret. split; [done|]. split; [by apply evm_ok_db|done]. }
  do 3 (apply twp_bind, twp_modify). apply twp_bind. eapply twp_state; [apply SubBalance_credited; [done|]|].
  { cbn. by rewrite (equiv_balance _ _ _ Q1). }
  intros _ s2 [K2 B2 P2 _ L2]. apply twp_ret. cbn in *. unfold bought. cbn. rewrite Hg, uint64_small by (unfold is_uint64; lia).
  split_and!; try done; [by do 2 (apply evm_ok_db; [|done])| | |].
  - replace (_ * _) with (0 + - - (msg_gasLimit msg * msg_gasPrice msg)) by lia. eapply pays_trans; [by apply creates_equiv|done].
  - eapply tx_effect_trans; [by apply tx_effect_equiv|done].
  - intros b. rewrite B2, (equiv_balance _ _ _ Q1). case_decide; lia.
Qed.

(** A lookup before. *)
Lemma bought_after s1 st st' :
  st_equiv s1 (sdb (st_evm st)) -> bought (set_st_evm (set_StateDB s1 (st_evm st)) st) st' -> bought st st'.
Proof.
  intros Q (H1 & H2 & H3 & H4 & H5 & H6 & H7 & H8 & H9). cbn in *. unfold bought. split_and!; try done.
  - replace (_ * _) with (0 + msg_gasLimit msg * msg_gasPrice msg) by lia. eapply pays_trans; [by apply creates_equiv|done].
  - eapply tx_effect_trans; [by apply tx_effect_equiv|done].
  - intros b. by rewrite H9, (equiv_balance _ _ _ Q).
Qed.

Lemma untouched_after s1 st st' :
  st_equiv s1 (sdb (st_evm st)) -> untouched (set_st_evm (set_StateDB s1 (st_evm st)) st) st' -> untouched st st'.
Proof. intros Q (H1 & H2 & H3). split_and!; [done..|]. cbn in H3. by transitivity s1. Qed.

Lemma twp_preCheck st :
  evm_ok (st_evm st) -> st_gas st = 0 ->
  twp (preCheck msg) (fun err st' => match err with Some _ => untouched st st' | None => bought st st' end) st.
Proof.
  intros Ke Hg. unfold preCheck. destruct (msg_checkNonce msg); [|by apply twp_buyGas]. apply twp_bind.
  eapply twp_lookup; [done|intros; by apply GetNonce_looks|]. intros n s1 _ K1 Q1.
  assert (K2 : evm_ok (set_StateDB s1 (st_evm st))) by (by apply evm_ok_db).
  repeat (case_match; [apply twp_ret; by split|]).
  eapply twp_mono; [by apply twp_buyGas|]. intros [e|] st'; [by apply untouched_after|by apply bought_after].
Qed.

(** ** Running *)
Record executed (contractCreation : bool) (st : StateTransition) (r : option bytes * option vm_error) (st' : StateTransition) : Prop := {
  ex_gp : st_gp st' = st_gp st;
  ex_initial : st_initialGas st' = st_initialGas st;
  ex_gas : 0 <= st_gas st' <= st_gas st;
  ex_ok : evm_ok (st_evm st');
  ex_worth : creates_nothing (sdb (st_evm st)) (sdb (st_evm st'));
  ex_logs : tx_effect (sdb (st_evm st)) (sdb (st_evm st'));
  ex_failed : contractCreation = false -> r.2 <> None -> forall b, balance_of (sdb (st_evm st')) b = balance_of (sdb (st_evm st)) b
}.

Lemma twp_execute contractCreation st :
  evm_ok (st_evm st) -> evm_readOnly (st_evm st) = false -> 0 <= st_gas st < max_gas ->
  twp (execute msg contractCreation) (executed contractCreation st) st.
Proof.
  intros Ke Hro Hg. destruct Hmsg as [_ _ (v & Hv & Hv0) Hd]. unfold execute. rewrite Hv.
  apply twp_bind, twp_deref, twp_bind, twp_gets.
  assert (Hst : forall e, evm_readOnly e = false -> in_static_call e = false) by (intros e He; unfold in_static_call; by rewrite He).
  destruct contractCreation.
  - apply twp_bind. eapply twp_on_machine; [by apply twp_Create; [apply below_all|..|apply Hst| | |]|].
    intros [[[ret addr] left] err] e' [Hs Hl _]. cbn in Hl. apply twp_bind, twp_modify, twp_ret. split; cbn; try done; apply Hs.
  - apply twp_bind. eapply twp_lookup; [done|intros; by apply GetNonce_looks|]. intros n s1 _ K1 Q1. apply twp_bind.
    eapply twp_state; [apply SetNonce_steps; [apply K1|apply uint64_range]|]. intros _ s2 [S2 B2]. cbn in B2.
    set (e2 := set_StateDB _ _). assert (K2 : evm_ok e2) by (do 2 (apply evm_ok_db; [|by try apply S2]); done).
    assert (Hro2 : evm_readOnly e2 = false) by done. apply twp_bind.
    pose proof (twp_Call (calls_at max_levels) (AccountRef (msg_from msg)) (to msg) (Some (msg_data msg)) (st_gas st) v e2
      (below_all e2 K2) K2 Hd Hg Hv0) as Hcall. rewrite (Hst e2 Hro2) in Hcall. specialize (Hcall ltac:(discriminate)).
    eapply twp_on_machine; [exact Hcall|].
    intros [[ret left] err] e' [[Hs Hl _] Hf _]. cbn in Hl, Hf. apply twp_bind, twp_modify, twp_ret. split; cbn; try done; [apply Hs| | |].
    + eapply creates_nothing_trans; [|apply (es_effect _ _ Hs)]. eapply creates_nothing_trans; [|apply S2].
      eapply (pays_creates 0); [lia|by apply creates_equiv].
    + eapply tx_effect_trans; [|apply (es_effect _ _ Hs)]. eapply tx_effect_trans; [by apply tx_effect_equiv|apply S2].
    + intros _ Herr b. rewrite (equiv_balance _ _ b (Hf Herr)). cbn. by rewrite B2, (equiv_balance _ _ b Q1).
Qed.

(** ** Giving back *)
Record refunded (st st' : StateTransition) : Prop := {
  rf_gas : st_gas st <= st_gas st' <= st_gas st + (st_initialGas st - st_gas st) / 2;
  rf_initial : st_initialGas st' = st_initialGas st;
  rf_gp : st_gp st' = st_gp st + st_gas st';
  rf_ok : evm_ok (st_evm st');
  rf_credited : credited (msg_gasPayer msg) (st_gas st' * msg_gasPrice msg) (sdb (st_evm st)) (sdb (st_evm st'))
}.

Lemma twp_refundGas st :
  evm_ok (st_evm st) -> 0 <= st_gas st <= st_initialGas st -> st_initialGas st < max_gas -> 0 <= st_gp st ->
  st_gp st + st_initialGas st <= MaxUint64 -> twp (refundGas msg) (fun _ => refunded st) st.
Proof.
  intros Ke Hg Hi Hgp Hroom. pose proof (mo_price _ Hmsg) as Hp. pose proof (ok_refund _ (ek_state _ Ke)) as Hr.
  unfold refundGas, gasUsed. apply twp_bind, twp_gets. rewrite (uint64_small (st_initialGas st - st_gas st)) by (unfold is_uint64; lia).
  set (used := st_initialGas st - st_gas st). assert (Hu : 0 <= used / 2 <= used).
  { split; [apply Z.div_pos; lia|]. apply Z.div_le_upper_bound; lia. }
  apply twp_bind. apply (twp_state GetRefund (fun r s' => r = sdb_refund (sdb (st_evm st)) /\ s' = sdb (st_evm st)));
    [by apply twp_gets|]. intros refunds s' [-> ->].
  set (refund := if _ <? _ then _ else _).
  assert (Hrf : 0 <= refund <= used / 2) by (unfold refund; destruct (Z.ltb_spec (sdb_refund (sdb (st_evm st))) (used / 2)); lia).
  clearbody refund. assert (Hsm : uint64 (st_gas st + refund) = st_gas st + refund) by (apply uint64_small; unfold is_uint64; lia).
  apply twp_bind, twp_modify, twp_bind, twp_gets. cbn [st_gas set_st_gas set_st_evm]. rewrite Hsm.
  apply twp_bind. eapply twp_state; [apply AddBalance_credited; [apply Ke|]|]. { apply Z.mul_nonneg_nonneg; lia. }
  intros ? s2 Hc. cbn beta in Hc. apply twp_bind, twp_gets. cbn [st_gp set_st_gas set_st_evm]. unfold AddGas.
  rewrite (proj2 (Z.ltb_ge _ _)) by lia. apply twp_bind. eexists _, _. split; [reflexivity|]. apply twp_modify.
  split; cbn [st_gas st_gp st_initialGas st_evm set_gp set_st_gas set_st_evm]; rewrite ?Hsm; [unfold used in Hrf; lia|done|done| |exact Hc].
  apply evm_ok_db; [|apply Hc]. by destruct Ke.
Qed.

(** ** The whole transition *)
Definition creation : bool := bool_decide (msg_to msg = None).

(** What a message that could be applied has cost. *)
Record charged (gp used : Z) (failed : bool) (e : Evm) (st' : StateTransition) : Prop := {
  ch_used : 0 <= used <= msg_gasLimit msg;
  ch_room : msg_gasLimit msg <= gp;
  ch_intrinsic : forall g, IntrinsicGas (msg_data msg) creation (IsHomestead chainConfig ctx_BlockNumber) = inr g -> g <= 2 * used;
  ch_gp : st_gp st' = gp - used;
  ch_pays : pays (used * msg_gasPrice msg) (sdb e) (sdb (st_evm st'));
  ch_logs : tx_effect (sdb e) (sdb (st_evm st'));
  ch_failed : failed = true -> creation = false -> forall b, balance_of (sdb (st_evm st')) b =
    balance_of (sdb e) b - (if decide (msg_gasPayer msg = b) then used * msg_gasPrice msg else 0)
}.

Definition applied (gp : Z) (e : Evm) (r : error + (option bytes * Z * bool)) (st' : StateTransition) : Prop :=
  evm_ok (st_evm st') /\
  match r with
  | inl _ => (st_gp st' = gp \/ st_gp st' = gp - msg_gasLimit msg) /\ creates_nothing (sdb e) (sdb (st_evm st'))
  | inr (_, used, failed) => charged gp used failed e st'
  end.

(** What was bought, run and given back adds up. *)
Lemma charged_all gp e st1 g r st2 st3 :
  bought (NewStateTransition e gp) st1 ->
  IntrinsicGas (msg_data msg) creation (IsHomestead chainConfig ctx_BlockNumber) = inr g ->
  0 <= g <= msg_gasLimit msg -> executed creation (set_st_gas (st_gas st1 - g) st1) r st2 -> refunded st2 st3 ->
  charged gp (st_initialGas st3 - st_gas st3) (bool_decide (r.2 <> None)) e st3.
Proof.
  intros (Hb1 & Hb2 & Hb3 & Hb4 & Kb & _ & Pb & Lb & Bb) Hg Hgl [Xgp Xin Xg Xk Xw Xl Xf] [Rg Ri Rgp Rk [_ Cb Cp _ Cl]].
  cbn [NewStateTransition st_gp st_gas st_initialGas st_evm set_st_gas] in *. rewrite Xin, Hb4, Hb3 in *.
  assert (Hh : 2 * ((msg_gasLimit msg - st_gas st2) / 2) <= msg_gasLimit msg - st_gas st2) by (apply Z.mul_div_le; lia).
  assert (Hfee : forall x, (msg_gasLimit msg - x) * msg_gasPrice msg = msg_gasLimit msg * msg_gasPrice msg + 0 + - (x * msg_gasPrice msg))
    by (intros; lia).
  split; rewrite ?Ri.
  - lia.
  - done.
  - intros g' Hg'. rewrite Hg in Hg'. injection Hg' as <-. lia.
  - lia.
  - rewrite Hfee. eapply pays_trans; [eapply pays_trans; [exact Pb|apply creates_pays, Xw]|exact Cp].
  - eapply tx_effect_trans; [eapply tx_effect_trans; [exact Lb|exact Xl]|exact Cl].
  - intros Hf%bool_decide_eq_true Hc b. rewrite Cb, (Xf Hc Hf), Bb. case_decide; lia.
Qed.

Lemma twp_TransitionDb gp e :
  evm_ok e -> evm_readOnly e = false -> 0 <= gp <= MaxUint64 ->
  twp (TransitionDb msg) (applied gp e) (NewStateTransition e gp).
Proof.
  intros Ke Hro Hgp. pose proof (mo_gas _ Hmsg) as Hgas. pose proof (mo_price _ Hmsg) as Hprice. unfold TransitionDb. apply twp_bind.
  eapply twp_mono; [by apply twp_preCheck|]. intros [err|] st1 H1.
  { destruct H1 as (Hp & K1 & Q1). apply twp_ret. split; [done|]. split; [by left|]. eapply (pays_creates 0); [lia|by apply creates_equiv]. }
  pose proof H1 as (Hb1 & Hb2 & Hb3 & Hb4 & Kb & Hrob & Pb & _ & _). cbn [NewStateTransition st_gp st_evm] in *.
  assert (Hw1 : creates_nothing (sdb e) (sdb (st_evm st1))) by (eapply pays_creates; [|exact Pb]; by apply Z.mul_nonneg_nonneg; [apply Hgas|]).
  fold creation. destruct (IntrinsicGas _ _ _) as [err|g] eqn:Eg; [apply twp_ret; split; [done|]; split; [by right|done]|].
  unfold useGas. apply twp_bind, twp_bind, twp_gets. rewrite Hb3. destruct (Z.ltb_spec (msg_gasLimit msg) g) as [Hlt|Hge].
  { do 2 apply twp_ret. split; [done|]. split; [by right|done]. }
  assert (Hg0 : 0 <= g) by (revert Eg; by apply IntrinsicGas_positive).
  apply twp_bind, twp_modify, twp_ret, twp_bind. set (st1' := set_st_gas _ _).
  eapply twp_mono; [apply (twp_execute creation st1'); [exact Kb|by cbn; rewrite Hrob|cbn; lia]|].
  intros [ret vmerr] st2 Hx. pose proof Hx as [Xgp Xin Xg Xk Xw _ Xf]. case_bool_decide.
  { apply twp_ret. split; [done|]. cbn in *. split; [right; lia|]. by eapply creates_nothing_trans. }
  cbn in Xgp, Xin, Xg. apply twp_bind. eapply twp_mono; [apply twp_refundGas; [done|lia..]|].
  intros ? st3 Hr. cbn beta in Hr. unfold gasUsed. apply twp_bind, twp_gets, twp_ret. split; [apply Hr|].
  pose proof Hr as [Rg Ri Rgp _ _]. assert (0 <= (st_initialGas st2 - st_gas st2) / 2 <= st_initialGas st2 - st_gas st2).
  { split; [apply Z.div_pos; lia|]. apply Z.div_le_upper_bound; lia. }
  rewrite uint64_small by (unfold is_uint64; lia).
  eapply (charged_all gp e st1 g (ret, vmerr) st2 st3); [exact H1|exact Eg|lia| |exact Hr]. rewrite Hb3. exact Hx.
Qed.

End message.

End safe.
