(* ===== verification/Receipts.v ===== *)
(** * Receipts, logs and bloom filters

    Models [src/core/types/receipt.go], [bloom9.go] and the encodings of [log.go]. *)

From S2P Require Import Prelude Bytes RlpEncode RlpDecode RlpCanonical RlpRaw Types Messages Params EvmData Fallible StateDB EvmCore Precompiled Evm Signing.

(** ** Bloom filters *)
Section bloom.
Context `{C : Crypto}.

(** One bit of [bloom9]: the low 11 bits of two bytes of the hash. *)
Definition bloom_bit (h : bytes) (i : nat) : Z :=
  let at_ n := Z_of_byte (default (byte_of_Z 0) (h !! n)) in
  Z.shiftl 1 (Z.land (at_ (i + 1)%nat + Z.shiftl (at_ i) 8) 2047).

Definition bloom9 (b : bytes) : Z :=
  let h := bytes_of (keccak256 b) in
  foldl (fun r i => Z.lor r (bloom_bit h i)) 0 [0; 2; 4]%nat.

Definition LogsBloom (logs : list Log) : Z :=
  foldl (fun bin log =>
    foldl (fun bin t => Z.lor bin (bloom9 (bytes_of t))) (Z.lor bin (bloom9 (bytes_of (l_Address log)))) (l_Topics log)) 0 logs.

(** [SetBytes] panics on more bytes than a filter has: [None]. *)
Definition Bloom_SetBytes (d : bytes) (b : Bloom) : option Bloom :=
  if (BloomByteLength <? length d)%nat then None
  else Some (mk_bytesN _ (take (BloomByteLength - length d) (bytes_of b) ++ d)).

Definition zeroBloom : Bloom := mk_bytesN _ [].

Definition BytesToBloom (b : bytes) : option Bloom := Bloom_SetBytes b zeroBloom.

Definition Bloom_Big (b : Bloom) : Z := SetBytes (bytes_of b).

Definition BloomLookup (bin : Bloom) (topic : bytes) : bool :=
  let cmp := bloom9 topic in Z.land (Bloom_Big bin) cmp =? cmp.

Definition Bloom_Test (b : Bloom) (test : Z) : bool := BloomLookup b (BigBytes test).
Definition TestBytes (b : Bloom) (test : bytes) : bool := Bloom_Test b (SetBytes test).
Definition Bloom_Add (d : Z) (b : Bloom) : option Bloom :=
  Bloom_SetBytes (BigBytes (Z.lor (SetBytes (bytes_of b)) (bloom9 (BigBytes d)))) b.
End bloom.

(** ** Receipts *)
Definition ReceiptStatusFailed : Z := 0.
Definition ReceiptStatusSuccessful : Z := 1.
Definition receiptStatusFailedRLP : bytes := [].
Definition receiptStatusSuccessfulRLP : bytes := [byte_of_Z 1].

Record Receipt : Type := MkReceipt {
  r_PostState : bytes;
  r_Status : Z;
  r_CumulativeGasUsed : Z;
  r_Bloom : Bloom;
  r_Logs : list Log;
  r_TxHash : Hash;
  r_ContractAddress : Address;
  r_GasUsed : Z;
  r_GasPayer : Address;
  r_BlockHash : Hash;
  r_BlockNumber : option Z;
  r_TransactionIndex : Z
}.

Definition NewReceipt (root : bytes) (failed : bool) (cumulativeGasUsed : Z) : Receipt :=
  MkReceipt root (if failed then ReceiptStatusFailed else ReceiptStatusSuccessful) cumulativeGasUsed zeroBloom []
    zeroHash zeroAddress 0 zeroAddress zeroHash None 0.

Definition statusEncoding (r : Receipt) : bytes :=
  if (length (r_PostState r) =? 0)%nat then
    if r_Status r =? ReceiptStatusFailed then receiptStatusFailedRLP else receiptStatusSuccessfulRLP
  else r_PostState r.

(** [setStatus] on the post state and the status of a receipt. *)
Definition setStatus (postStateOrStatus : bytes) (r : bytes * Z) : error + (bytes * Z) :=
  if bool_decide (postStateOrStatus = receiptStatusSuccessfulRLP) then inr (r.1, ReceiptStatusSuccessful)
  else if bool_decide (postStateOrStatus = receiptStatusFailedRLP) then inr (r.1, ReceiptStatusFailed)
  else if (length postStateOrStatus =? HashLength)%nat then inr (postStateOrStatus, r.2)
  else inl ErrInvalidReceiptStatus.

(** ** Encodings *)
Definition log_ty : ty := TStruct [TByteArray 20; TSlice (TByteArray 32); TBytes].
Definition legacyLog_ty : ty :=
  TStruct [TByteArray 20; TSlice (TByteArray 32); TBytes; TUint 64; TByteArray 32; TUint 64; TByteArray 32; TUint 64].
Definition storedLog_ty : ty := TAlt log_ty legacyLog_ty.

(** [Log.EncodeRLP] and [LogForStorage.EncodeRLP] *)
Definition log_gval (l : Log) : gval :=
  GList [GByteArray (bytes_of (l_Address l)); GList ((fun t => GByteArray (bytes_of t)) <$> l_Topics l); GBytes (l_Data l)].

Definition hash_of_gval (v : gval) : option Hash := match v with GByteArray b => Some (mk_bytesN _ b) | _ => None end.

(** [Log.DecodeRLP] into a new log, and [LogForStorage.DecodeRLP] *)
Definition log_of_gval (v : gval) : option Log :=
  match v with
  | GList (GByteArray a :: GList ts :: GBytes d :: _) =>
      ts ← mapM hash_of_gval ts;
      Some (MkLog (mk_bytesN _ a) ts d 0 zeroHash 0 zeroHash 0 false)
  | _ => None
  end.

Definition receipt_ty : ty := TStruct [TBytes; TUint 64; TByteArray 256; TSlice (TPtr log_ty)].
Definition storedReceipt_ty : ty := TStruct [TBytes; TUint 64; TSlice (TPtr storedLog_ty)].
Definition v4StoredReceipt_ty : ty :=
  TStruct [TBytes; TUint 64; TByteArray 32; TByteArray 20; TByteArray 20; TSlice (TPtr storedLog_ty); TUint 64].
Definition v3StoredReceipt_ty : ty :=
  TStruct [TBytes; TUint 64; TByteArray 256; TByteArray 32; TByteArray 20; TByteArray 20; TSlice (TPtr storedLog_ty); TUint 64].

(** [Receipt.EncodeRLP] and [ReceiptForStorage.EncodeRLP] *)
Definition receipt_gval (r : Receipt) : gval :=
  GList [GBytes (statusEncoding r); GUint (r_CumulativeGasUsed r); GByteArray (bytes_of (r_Bloom r)); GList (log_gval <$> r_Logs r)].
Definition storedReceipt_gval (r : Receipt) : gval :=
  GList [GBytes (statusEncoding r); GUint (r_CumulativeGasUsed r); GList (log_gval <$> r_Logs r)].

(** [Receipt.DecodeRLP] *)
Definition decode_receipt (b : bytes) : error + Receipt :=
  match DecodeBytes receipt_ty b with
  | inl e => inl (ErrRlp e)
  | inr (GList [GBytes status; GUint gas; GByteArray bloom; GList logs]) =>
      match setStatus status ([], 0), mapM log_of_gval logs with
      | inr (post, status), Some logs =>
          inr (MkReceipt post status gas (mk_bytesN _ bloom) logs zeroHash zeroAddress 0 zeroAddress zeroHash None 0)
      | inl e, _ => inl e
      | _, None => inl shape_error
      end
  | inr _ => inl shape_error
  end.

Section receipts.
Context `{C : Crypto} {N : NativeCrypto}.

Definition CreateBloom (receipts : list Receipt) : option Bloom :=
  BytesToBloom (BigBytes (foldl (fun bin r => Z.lor bin (LogsBloom (r_Logs r))) 0 receipts)).

(** With the bloom filter of its logs. *)
Definition with_bloom (r : Receipt) : fallible Receipt :=
  bloom ← raise (CreateBloom [r]);
  mret (MkReceipt (r_PostState r) (r_Status r) (r_CumulativeGasUsed r) bloom (r_Logs r) (r_TxHash r) (r_ContractAddress r)
          (r_GasUsed r) (r_GasPayer r) (r_BlockHash r) (r_BlockNumber r) (r_TransactionIndex r)).

(** The three forms of [ReceiptForStorage.DecodeRLP]; an attempt that fails sets no field. *)
Definition decodeStoredReceiptRLP (blob : bytes) : fallible Receipt :=
  match DecodeBytes storedReceipt_ty blob with
  | inl e => fail (ErrRlp e)
  | inr (GList [GBytes status; GUint gas; GList logs]) =>
      '(post, status) ← check (setStatus status ([], 0));
      logs ← check (match mapM log_of_gval logs with Some l => inr l | None => inl shape_error end);
      with_bloom (MkReceipt post status gas zeroBloom logs zeroHash zeroAddress 0 zeroAddress zeroHash None 0)
  | inr _ => fail shape_error
  end.

Definition decodeV4StoredReceiptRLP (blob : bytes) : fallible Receipt :=
  match DecodeBytes v4StoredReceipt_ty blob with
  | inl e => fail (ErrRlp e)
  | inr (GList [GBytes status; GUint gas; GByteArray tx; GByteArray addr; GByteArray payer; GList logs; GUint used]) =>
      '(post, status) ← check (setStatus status ([], 0));
      logs ← check (match mapM log_of_gval logs with Some l => inr l | None => inl shape_error end);
      with_bloom (MkReceipt post status gas zeroBloom logs (mk_bytesN _ tx) (mk_bytesN _ addr) used (mk_bytesN _ payer)
                    zeroHash None 0)
  | inr _ => fail shape_error
  end.

Definition decodeV3StoredReceiptRLP (blob : bytes) : fallible Receipt :=
  match DecodeBytes v3StoredReceipt_ty blob with
  | inl e => fail (ErrRlp e)
  | inr (GList [GBytes status; GUint gas; GByteArray bloom; GByteArray tx; GByteArray addr; GByteArray payer; GList logs; GUint used]) =>
      '(post, status) ← check (setStatus status ([], 0));
      logs ← check (match mapM log_of_gval logs with Some l => inr l | None => inl shape_error end);
      mret (MkReceipt post status gas (mk_bytesN _ bloom) logs (mk_bytesN _ tx) (mk_bytesN _ addr) used (mk_bytesN _ payer)
              zeroHash None 0)
  | inr _ => fail shape_error
  end.

Definition or_else {A} (x y : fallible A) : fallible A := match x with Ok (inl _) => y | _ => x end.

Definition decode_storedReceipt (blob : bytes) : fallible Receipt :=
  or_else (decodeStoredReceiptRLP blob) (or_else (decodeV3StoredReceiptRLP blob) (decodeV4StoredReceiptRLP blob)).

(** ** [DeriveFields] *)
Definition derive_logs (number : Z) (hash txHash : Hash) (txIndex logIndex : Z) (logs : list Log) : list Log :=
  imap (fun j l => MkLog (l_Address l) (l_Topics l) (l_Data l) number txHash (uint64 txIndex) hash
    (uint64 (logIndex + Z.of_nat j)) (l_Removed l)) logs.

Definition derive_receipt (signer : Signer) (hash : Hash) (number : Z) (i prev logIndex : Z) (tx : Transaction) (r : Receipt)
    : fallible Receipt :=
  contract ← (match tx_Recipient tx with
              | Some _ => mret (r_ContractAddress r)
              | None =>
                  from ← returns (match signer_Sender signer tx with
                                  | Ok (inr a) => Ok a
                                  | Ok (inl _) => Ok zeroAddress
                                  | Panic => Panic
                                  | OutOfFuel => OutOfFuel
                                  end);
                  mret (CreateAddress from (tx_AccountNonce tx))
              end);
  payer ← returns (GasPayer signer tx);
  mret (MkReceipt (r_PostState r) (r_Status r) (r_CumulativeGasUsed r) (r_Bloom r)
          (derive_logs number hash (Transaction_Hash tx) i logIndex (r_Logs r)) (Transaction_Hash tx) contract
          (uint64 (r_CumulativeGasUsed r - prev)) payer hash (Some number) (uint64 i)).

Fixpoint derive_fields (signer : Signer) (hash : Hash) (number : Z) (i prev logIndex : Z) (txs : list Transaction) (rs : list Receipt)
    : fallible (list Receipt) :=
  match txs, rs with
  | tx :: txs, r :: rs =>
      r' ← derive_receipt signer hash number i prev logIndex tx r;
      rest ← derive_fields signer hash number (i + 1) (r_CumulativeGasUsed r)
        (uint64 (logIndex + Z.of_nat (length (r_Logs r)))) txs rs;
      mret (r' :: rest)
  | _, _ => mret []
  end.

Definition DeriveFields (config : ChainConfig) (hash : Hash) (number : Z) (txs : list Transaction) (rs : list Receipt)
    : fallible (list Receipt) :=
  if negb (length txs =? length rs)%nat then fail ErrReceiptCountMismatch
  else derive_fields (MakeSigner config number) hash number 0 0 0 txs rs.

(** [GetRlp] panics when a receipt cannot be encoded. *)
Definition GetRlp (r : Receipt) : res bytes :=
  match EncodeToBytes (receipt_gval r) with inr b => b | inl _ => Panic end.
End receipts.
