(* ===== verification/ReceiptSpec.v ===== *)
(** * Properties of receipts and bloom filters

    A bloom filter has no false negatives, and receipts survive their encodings. *)

From S2P Require Import Prelude Bytes RlpEncode RlpDecode RlpCanonical RlpRaw Types Messages Params EvmData Fallible StateDB EvmCore Precompiled Evm Signing Receipts.

(** ** Sets of bits *)
(** All bits of [c] are in [a]. *)
Definition bits_in (c a : Z) : Prop := Z.land a c = c.

Lemma bits_in_refl a : bits_in a a.
Proof. apply Z.land_diag. Qed.

Lemma bits_in_lor_l c a b : bits_in c a -> bits_in c (Z.lor a b).
Proof. unfold bits_in. intros H. rewrite Z.land_lor_distr_l, H. apply Z.bits_inj'. intros n _. rewrite Z.lor_spec, Z.land_spec. by destruct (Z.testbit c n), (Z.testbit b n). Qed.

Lemma bits_in_lor_r c a b : bits_in c b -> bits_in c (Z.lor a b).
Proof. rewrite Z.lor_comm. apply bits_in_lor_l. Qed.

Lemma bits_in_trans a b c : bits_in a b -> bits_in b c -> bits_in a c.
Proof. unfold bits_in. intros H1 H2. rewrite <- H1 at 1. by rewrite Z.land_assoc, H2. Qed.

Lemma below_pow2 a n : 0 <= n -> 0 <= a -> a < 2 ^ n <-> Z.shiftr a n = 0.
Proof. intros Hn Ha. rewrite Z.shiftr_div_pow2, Z.div_small_iff by lia. lia. Qed.

Lemma lor_bound a b n : 0 <= n -> 0 <= a < 2 ^ n -> 0 <= b < 2 ^ n -> 0 <= Z.lor a b < 2 ^ n.
Proof.
  intros Hn [Ha Ha'] [Hb Hb']. assert (0 <= Z.lor a b) by (apply Z.lor_nonneg; lia).
  apply below_pow2 in Ha', Hb'; [|done..]. split; [done|]. apply below_pow2; [done..|].
  by rewrite Z.shiftr_lor, Ha', Hb'.
Qed.

Lemma lor_ge_l a b : 0 <= a -> 0 <= b -> a <= Z.lor a b.
Proof. intros Ha Hb. apply Z.ldiff_le; [by apply Z.lor_nonneg|]. apply Z.bits_inj'. intros n _. rewrite Z.ldiff_spec, Z.lor_spec, Z.bits_0. by destruct (Z.testbit a n). Qed.

(** Folding a union of bits keeps the bound and gathers the bits of every element. *)
Lemma fold_bound {A} (f : Z -> A -> Z) n l acc :
  (forall z a, 0 <= z < 2 ^ n -> 0 <= f z a < 2 ^ n) ->
  0 <= acc < 2 ^ n -> 0 <= foldl f acc l < 2 ^ n.
Proof. intros Hf. revert acc. induction l as [|a l IH]; intros acc Hacc; [done|]. apply IH, Hf, Hacc. Qed.

Lemma fold_bits_acc {A} (f : Z -> A -> Z) l c acc :
  (forall z a, bits_in z (f z a)) -> bits_in c acc -> bits_in c (foldl f acc l).
Proof.
  intros Hf. revert acc. induction l as [|a l IH]; intros acc Hc; [done|].
  apply IH. by eapply bits_in_trans.
Qed.

Lemma fold_bits {A} (f : Z -> A -> Z) l c a acc :
  (forall z a, bits_in z (f z a)) -> (forall z, bits_in c (f z a)) -> a ∈ l -> bits_in c (foldl f acc l).
Proof.
  intros Hf Hc. revert acc. induction l as [|b l IH]; intros acc Ha; [by apply elem_of_nil in Ha|].
  apply elem_of_cons in Ha as [<-|Ha]; [|by apply IH]. cbn. apply fold_bits_acc; [done|apply Hc].
Qed.

(** ** Bloom filters *)
Section bloom_filters.
Context `{C : Crypto} {N : NativeCrypto}.

Lemma bloom_bit_bound h i : 0 <= bloom_bit h i < 2 ^ 2048.
Proof.
  unfold bloom_bit. set (x := Z.land _ 2047).
  assert (0 <= x < 2048) as Hx.
  { subst x. change 2047 with (Z.ones 11). rewrite Z.land_ones by lia. apply (Z.mod_pos_bound _ (2 ^ 11)). done. }
  rewrite Z.shiftl_1_l. split; [lia|]. apply Z.pow_lt_mono_r; lia.
Qed.

Lemma bloom9_bound b : 0 <= bloom9 b < 2 ^ 2048.
Proof. apply fold_bound; [|done]. intros z i Hz. apply lor_bound; [done..|apply bloom_bit_bound]. Qed.

Definition log_fold (bin : Z) (log : Log) : Z :=
  foldl (fun bin t => Z.lor bin (bloom9 (bytes_of t))) (Z.lor bin (bloom9 (bytes_of (l_Address log)))) (l_Topics log).

Lemma log_fold_bound z l : 0 <= z < 2 ^ 2048 -> 0 <= log_fold z l < 2 ^ 2048.
Proof. intros Hz. apply fold_bound; [|apply lor_bound; [done..|apply bloom9_bound]]. intros z' t Hz'. apply lor_bound; [done..|apply bloom9_bound]. Qed.

Lemma log_fold_acc z l : bits_in z (log_fold z l).
Proof. apply fold_bits_acc; [|apply bits_in_lor_l, bits_in_refl]. intros. apply bits_in_lor_l, bits_in_refl. Qed.

Lemma LogsBloom_bound logs : 0 <= LogsBloom logs < 2 ^ 2048.
Proof. apply fold_bound; [apply log_fold_bound|done]. Qed.

(** The bits of an address and of a topic of a log are in the filter of the logs. *)
Definition found_in (z : Z) (log : Log) : Prop :=
  bits_in (bloom9 (bytes_of (l_Address log))) z /\ Forall (fun t => bits_in (bloom9 (bytes_of t)) z) (l_Topics log).

Lemma LogsBloom_found logs log : log ∈ logs -> found_in (LogsBloom logs) log.
Proof.
  intros Hl. split.
  - apply (fold_bits log_fold logs _ log); [apply log_fold_acc| |done]. intros z. apply fold_bits_acc.
    + intros. apply bits_in_lor_l, bits_in_refl.
    + apply bits_in_lor_r, bits_in_refl.
  - apply Forall_forall. intros t Ht. apply (fold_bits log_fold logs _ log); [apply log_fold_acc| |done]. intros z.
    apply (fold_bits _ _ _ t); [intros; apply bits_in_lor_l, bits_in_refl|intros; apply bits_in_lor_r, bits_in_refl|done].
Qed.

Definition receipts_bits (receipts : list Receipt) : Z := foldl (fun bin r => Z.lor bin (LogsBloom (r_Logs r))) 0 receipts.

Lemma receipts_bits_bound rs : 0 <= receipts_bits rs < 2 ^ 2048.
Proof. apply fold_bound; [|done]. intros z r Hz. apply lor_bound; [done..|apply LogsBloom_bound]. Qed.

Lemma receipts_bits_found rs r log : r ∈ rs -> log ∈ r_Logs r -> found_in (receipts_bits rs) log.
Proof.
  intros Hr Hl. destruct (LogsBloom_found _ _ Hl) as [Ha Ht].
  assert (Hsub : bits_in (LogsBloom (r_Logs r)) (receipts_bits rs)).
  { apply (fold_bits _ _ _ r); [intros; apply bits_in_lor_l, bits_in_refl|intros; apply bits_in_lor_r, bits_in_refl|done]. }
  split; [exact (bits_in_trans _ _ _ Ha Hsub)|]. eapply Forall_impl; [exact Ht|]. intros t Hb. exact (bits_in_trans _ _ _ Hb Hsub).
Qed.

(** The filter of a number of 2048 bits. *)
Lemma Bloom_SetBytes_Big z b : 0 <= z < 2 ^ 2048 -> Bloom_Big b <= z ->
  exists b', Bloom_SetBytes (BigBytes z) b = Some b' /\ Bloom_Big b' = z.
Proof.
  intros Hz Hb. pose proof (BigBytes_length_bound z BloomByteLength ltac:(done)) as Hlen.
  unfold Bloom_SetBytes. rewrite (proj2 (Nat.ltb_ge _ _)) by done. eexists. split; [done|].
  unfold Bloom_Big in *. rewrite bytes_of_mk. set (n := (BloomByteLength - length (BigBytes z))%nat).
  pose proof (bytes_of_length b) as Hb256.
  rewrite SetBytes_fit by (rewrite length_app, length_take; lia).
  rewrite SetBytes_app, SetBytes_BigBytes by lia.
  enough (SetBytes (take n (bytes_of b)) = 0) as -> by lia.
  rewrite <- (take_drop n (bytes_of b)), SetBytes_app, length_drop, Hb256 in Hb.
  replace (BloomByteLength - n)%nat with (length (BigBytes z)) in Hb by lia.
  pose proof (SetBytes_bound (take n (bytes_of b))). pose proof (SetBytes_bound (drop n (bytes_of b))).
  pose proof (SetBytes_bound (BigBytes z)). rewrite SetBytes_BigBytes in H1 by lia. nia.
Qed.

Lemma zeroBloom_Big : Bloom_Big zeroBloom = 0.
Proof. vm_compute. reflexivity. Qed.

Lemma CreateBloom_Big rs : exists b, CreateBloom rs = Some b /\ Bloom_Big b = receipts_bits rs.
Proof.
  pose proof (receipts_bits_bound rs). apply Bloom_SetBytes_Big; [done|]. rewrite zeroBloom_Big. lia.
Qed.

Lemma BloomLookup_in b x : bits_in (bloom9 x) (Bloom_Big b) -> BloomLookup b x = true.
Proof. intros H. apply Z.eqb_eq, H. Qed.

(** C17: a block's bloom filter has no false negatives: [CreateBloom] never panics, and the filter it makes of receipts
    finds the address and every topic of every log of them; adding a number to a filter keeps what is found in it
    and finds the number. *)
Theorem bloom_complete (rs : list Receipt) (b : Bloom) (d : Z) :
  (exists bloom, CreateBloom rs = Some bloom /\
     Forall (fun r => Forall (fun log =>
       BloomLookup bloom (bytes_of (l_Address log)) = true /\
       Forall (fun t => BloomLookup bloom (bytes_of t) = true) (l_Topics log)) (r_Logs r)) rs) /\
  (exists b', Bloom_Add d b = Some b' /\ Bloom_Test b' d = true /\
     (forall x, BloomLookup b x = true -> BloomLookup b' x = true)).
Proof.
  split.
  - destruct (CreateBloom_Big rs) as (bloom & Hc & Hb). exists bloom. split; [done|].
    apply Forall_forall. intros r Hr. apply Forall_forall. intros log Hl.
    destruct (receipts_bits_found rs r log Hr Hl) as [Ha Ht]. rewrite <- Hb in Ha, Ht.
    split; [by apply BloomLookup_in|]. eapply Forall_impl; [exact Ht|]. intros. by apply BloomLookup_in.
  - pose proof (SetBytes_bound (bytes_of b)) as Hb. rewrite bytes_of_length in Hb.
    destruct (Bloom_SetBytes_Big (Z.lor (Bloom_Big b) (bloom9 (BigBytes d))) b) as (b' & Hs & Hb').
    + apply lor_bound; [done|done|apply bloom9_bound].
    + apply lor_ge_l; [apply Hb|apply bloom9_bound].
    + exists b'. split; [done|]. split.
      * apply BloomLookup_in. rewrite Hb'. apply bits_in_lor_r, bits_in_refl.
      * intros x Hx. apply Z.eqb_eq in Hx. apply BloomLookup_in. rewrite Hb'. by apply bits_in_lor_l.
Qed.
End bloom_filters.

(** ** Encodings *)
Section encodings.
Context `{C : Crypto} {N : NativeCrypto}.

(** What the encodings keep of a log, and of a receipt. *)
Definition log_content (l : Log) : Log := MkLog (l_Address l) (l_Topics l) (l_Data l) 0 zeroHash 0 zeroHash 0 false.

Definition receipt_content (r : Receipt) : Receipt :=
  MkReceipt (r_PostState r) (if (length (r_PostState r) =? 0)%nat then r_Status r else 0) (r_CumulativeGasUsed r) (r_Bloom r)
    (log_content <$> r_Logs r) zeroHash zeroAddress 0 zeroAddress zeroHash None 0.

Lemma log_has_ty l : has_ty log_ty (log_gval l) = true.
Proof.
  unfold log_ty, log_gval. rewrite has_ty_TStruct. cbn [fields_ty]. rewrite array_ty by done. cbn [has_ty].
  rewrite !andb_true_r. apply (forallb_fmap_true _ (fun _ => true)); [|by apply forallb_forall].
  intros t _. by apply (array_ty HashLength).
Qed.

Lemma logs_have_ty ls t : (forall l, has_ty t (log_gval l) = true) -> has_ty (TSlice (TPtr t)) (GList (log_gval <$> ls)) = true.
Proof. intros Ht. cbn [has_ty]. apply (forallb_fmap_true _ (fun _ => true)); [done|by apply forallb_forall]. Qed.

Lemma log_of_log_gval l : log_of_gval (log_gval l) = Some (log_content l).
Proof.
  unfold log_gval, log_of_gval. rewrite mapM_of_gval by (intros t; cbn; by rewrite mk_bytesN_of).
  cbn. by rewrite mk_bytesN_of.
Qed.

Lemma mapM_content {A B} (f : A -> gval) (g : gval -> option B) (h : A -> B) l :
  (forall a, g (f a) = Some (h a)) -> mapM g (f <$> l) = Some (h <$> l).
Proof. intros H. apply mapM_Some_2, Forall2_fmap_l, Forall2_fmap_r, Forall_Forall2_diag, Forall_true. done. Qed.

Lemma logs_of_gval ls : mapM log_of_gval (log_gval <$> ls) = Some (log_content <$> ls).
Proof. apply mapM_content, log_of_log_gval. Qed.

(** Receipts with a status, or with the root of a state in its place. *)
Definition status_ok (r : Receipt) : Prop :=
  r_PostState r = [] /\ (r_Status r = ReceiptStatusFailed \/ r_Status r = ReceiptStatusSuccessful) \/ length (r_PostState r) = HashLength.

Lemma setStatus_statusEncoding r :
  status_ok r -> setStatus (statusEncoding r) ([], 0) = inr (r_PostState (receipt_content r), r_Status (receipt_content r)).
Proof.
  unfold statusEncoding, setStatus. cbn [receipt_content r_PostState r_Status].
  intros [[-> [-> | ->]]|Hl]; [done..|]. rewrite Hl. cbn [Nat.eqb HashLength].
  rewrite !bool_decide_eq_false_2 by (intros E; rewrite E in Hl; done). by rewrite Hl.
Qed.

Lemma LogsBloom_content ls : LogsBloom (log_content <$> ls) = LogsBloom ls.
Proof. unfold LogsBloom. generalize 0. induction ls as [|l ls IH]; intros z; [done|]. apply IH. Qed.

Lemma CreateBloom_logs r1 r2 : r_Logs r1 = log_content <$> r_Logs r2 -> CreateBloom [r1] = CreateBloom [r2].
Proof. intros H. unfold CreateBloom. cbn [foldl]. by rewrite H, LogsBloom_content. Qed.

Lemma gas_has_ty z : is_uint64 z -> has_ty (TUint 64) (GUint z) = true.
Proof. intros Hz. unfold is_uint64 in Hz. cbn [has_ty]. rewrite !andb_true_iff, !Z.leb_le, !Z.ltb_lt. split_and!; [done..|lia|lia]. Qed.

(** The encoding of the network is decoded to what it holds. *)
Lemma network_receipt r :
  status_ok r -> is_uint64 (r_CumulativeGasUsed r) -> fits (receipt_gval r) ->
  exists b, EncodeToBytes (receipt_gval r) = inr (Ok b) /\ decode_receipt b = inr (receipt_content r).
Proof.
  intros Hst Hg Hf. assert (Hty : has_ty receipt_ty (receipt_gval r) = true).
  { unfold receipt_ty, receipt_gval. rewrite has_ty_TStruct. cbn [fields_ty].
    rewrite gas_has_ty, array_ty, logs_have_ty; [done|apply log_has_ty|done..]. }
  exists (ref_encode (receipt_gval r)). split; [by eapply EncodeToBytes_ty|]. unfold decode_receipt.
  rewrite (DecodeBytes_ty _ _ Hty Hf). cbn [receipt_gval]. by rewrite setStatus_statusEncoding, logs_of_gval, mk_bytesN_of.
Qed.

(** That of the database as well; the bloom filter is made anew. *)
Lemma stored_receipt r :
  status_ok r -> is_uint64 (r_CumulativeGasUsed r) -> fits (storedReceipt_gval r) -> CreateBloom [r] = Some (r_Bloom r) ->
  exists b, EncodeToBytes (storedReceipt_gval r) = inr (Ok b) /\ decode_storedReceipt b = Ok (inr (receipt_content r)).
Proof.
  intros Hst Hg Hf Hbloom. assert (Hty : has_ty storedReceipt_ty (storedReceipt_gval r) = true).
  { unfold storedReceipt_ty, storedReceipt_gval. rewrite has_ty_TStruct. cbn [fields_ty].
    rewrite gas_has_ty, logs_have_ty; [done|apply log_has_ty|done]. }
  exists (ref_encode (storedReceipt_gval r)). split; [by eapply EncodeToBytes_ty|].
  unfold decode_storedReceipt, decodeStoredReceiptRLP. rewrite (DecodeBytes_ty _ _ Hty Hf). cbn [storedReceipt_gval].
  rewrite setStatus_statusEncoding, logs_of_gval by done. fal. unfold with_bloom.
  rewrite (CreateBloom_logs _ r) by done. by rewrite Hbloom.
Qed.

(** ** The receipts of a block

    What the processor records of each transaction. *)
Record receipt_of (signer : Signer) (hash : Hash) (number i prev logIndex : Z) (tx : Transaction) (r : Receipt) : Prop := {
  ro_post : r_PostState r = [];
  ro_status : r_Status r = ReceiptStatusFailed \/ r_Status r = ReceiptStatusSuccessful;
  ro_gas : 0 <= prev <= r_CumulativeGasUsed r;
  ro_used : r_GasUsed r = r_CumulativeGasUsed r - prev;
  ro_bloom : CreateBloom [r] = Some (r_Bloom r);
  ro_hash : r_TxHash r = Transaction_Hash tx;
  ro_parties : exists msg, AsMessage signer tx = Ok (inr msg) /\ r_GasPayer r = msg_gasPayer msg /\
    r_ContractAddress r =
      match tx_Recipient tx with None => CreateAddress (msg_from msg) (tx_AccountNonce tx) | Some _ => zeroAddress end;
  ro_block : (r_BlockHash r, r_BlockNumber r, r_TransactionIndex r) = (hash, Some number, uint64 i);
  ro_logs : forall j l, r_Logs r !! j = Some l ->
    (l_BlockNumber l, l_TxHash l, l_TxIndex l, l_BlockHash l, l_Index l, l_Removed l) =
    (number, Transaction_Hash tx, uint64 i, hash, uint64 (logIndex + Z.of_nat j), false)
}.

Fixpoint recorded (signer : Signer) (hash : Hash) (number i prev logIndex : Z) (txs : list Transaction) (rs : list Receipt) : Prop :=
  match txs, rs with
  | [], [] => True
  | tx :: txs, r :: rs =>
      receipt_of signer hash number i prev logIndex tx r /\
      recorded signer hash number (i + 1) (r_CumulativeGasUsed r) (uint64 (logIndex + Z.of_nat (length (r_Logs r)))) txs rs
  | _, _ => False
  end.

Lemma message_parties s t msg :
  AsMessage s t = Ok (inr msg) -> signer_Sender s t = Ok (inr (msg_from msg)) /\ GasPayer s t = Ok (msg_gasPayer msg).
Proof.
  unfold AsMessage, GasPayer, SignedProvider. fal. destruct (tx_Price t); [|done].
  destruct (signer_Sender s t) as [[e|from]| |]; try done. destruct (Provider s t) as [[e|p]| |]; try done.
  intros [= <-]. by destruct p.
Qed.

Lemma derive_logs_content signer hash number i prev logIndex tx r :
  receipt_of signer hash number i prev logIndex tx r ->
  derive_logs number hash (Transaction_Hash tx) i logIndex (log_content <$> r_Logs r) = r_Logs r.
Proof.
  intros [_ _ _ _ _ _ _ _ Hl]. apply list_eq. intros j. unfold derive_logs. rewrite list_lookup_imap, list_lookup_fmap.
  destruct (r_Logs r !! j) as [l|] eqn:El; [|done]. specialize (Hl j l El). cbn. f_equal. destruct l; cbn in *. congruence.
Qed.

Lemma derive_receipt_content signer hash number i prev logIndex tx r :
  receipt_of signer hash number i prev logIndex tx r -> is_uint64 (r_CumulativeGasUsed r) ->
  derive_receipt signer hash number i prev logIndex tx (receipt_content r) = Ok (inr r).
Proof.
  intros Hr Hg. unfold derive_receipt. cbn [receipt_content r_Logs]. rewrite (derive_logs_content _ _ _ _ _ _ _ _ Hr).
  destruct Hr as [Hp _ Hgas Hu _ Hh (msg & Hm & Hpay & Hc) Hb _]. destruct (message_parties _ _ _ Hm) as [Hs Hgp].
  rewrite Hs, Hgp. cbn [receipt_content r_ContractAddress r_CumulativeGasUsed r_PostState r_Status r_Bloom].
  rewrite uint64_small by (unfold is_uint64 in *; lia). rewrite <- Hu, <- Hpay, <- Hh, Hp. cbn [length Nat.eqb].
  assert (Hd : forall c, c = r_ContractAddress r ->
    MkReceipt [] (r_Status r) (r_CumulativeGasUsed r) (r_Bloom r) (r_Logs r) (r_TxHash r) c (r_GasUsed r) (r_GasPayer r) hash (Some number) (uint64 i) = r).
  { intros c ->. destruct r; cbn in *. congruence. }
  destruct (tx_Recipient tx); fal; by rewrite Hd.
Qed.

Lemma derive_fields_content signer hash number txs rs i prev logIndex :
  recorded signer hash number i prev logIndex txs rs -> Forall (fun r => is_uint64 (r_CumulativeGasUsed r)) rs ->
  derive_fields signer hash number i prev logIndex txs (receipt_content <$> rs) = Ok (inr rs).
Proof.
  intros Hrec Hg. revert txs i prev logIndex Hrec. induction Hg as [|r rs Hr _ IH]; intros [|tx txs] i prev logIndex Hrec; try done.
  destruct Hrec as [Hone Hrest]. csimpl. rewrite (derive_receipt_content _ _ _ _ _ _ _ _ Hone Hr).
  cbn [receipt_content r_CumulativeGasUsed r_Logs]. rewrite length_fmap.
  unfold mbind at 1, fallible_bind at 1. rewrite (IH _ _ _ _ Hrest). done.
Qed.

Lemma recorded_length signer hash number txs rs i prev logIndex :
  recorded signer hash number i prev logIndex txs rs -> length txs = length rs.
Proof.
  revert rs i prev logIndex. induction txs as [|tx txs IH]; intros [|r rs] i prev logIndex; cbn; try done.
  intros [_ H]. f_equal. by eapply IH.
Qed.

Lemma stored_blobs signer hash number i prev logIndex txs rs :
  recorded signer hash number i prev logIndex txs rs ->
  Forall (fun r => is_uint64 (r_CumulativeGasUsed r) /\ fits (storedReceipt_gval r)) rs ->
  exists blobs, Forall2 (fun r b => EncodeToBytes (storedReceipt_gval r) = inr (Ok b) /\
    decode_storedReceipt b = Ok (inr (receipt_content r))) rs blobs.
Proof.
  intros Hrec Hok. revert txs i prev logIndex Hrec.
  induction Hok as [|r rs [Hg Hf] _ IH]; intros [|tx txs] i prev logIndex Hrec; try done; [by exists []|].
  destruct Hrec as [Hone Hrest]. destruct (IH _ _ _ _ Hrest) as [bs Hbs].
  destruct (stored_receipt r) as (b & Hb); [left; split; apply Hone|done|done|apply Hone|].
  exists (b :: bs). by constructor.
Qed.

End encodings.
