(* ===== verification/Processor.v ===== *)
(** * Processing blocks

    Models [src/core/evm.go], [src/core/state_processor.go] and [ApplyDAOHardFork] of
    [src/consensus/misc/dao.go]: the environment a transaction runs
    in, the hashes of earlier blocks, and the processing of the transactions of a block. The
    function [GetHashFn] returns keeps what it has seen of the chain, which changes nothing
    in what it answers ([GetHashFn_memo]). *)

From S2P Require Import Prelude Bytes RlpEncode RlpDecode RlpCanonical RlpRaw Types Params EvmData Fallible StateDB EvmCore EvmGas EvmOps JumpTable Precompiled Evm EvmSafe Signing Transition Receipts.


(** The chain as the processor sees it, and the consensus engine: [Author] without its
    error, [Finalize] and [VerifyUncles]. *)
Class ChainContext `{C : Crypto} {DB : StateDatabase} : Type := {
  chain_GetHeader : Hash -> Z -> option Header;
  engine_Author : Header -> Address;
  engine_Finalize : Header -> list Transaction -> list Header -> M StateDB (option error);
  engine_VerifyUncles : Block -> option error
}.

(** ** [GetHashFn]

    The function it returns has a cache, which is made at the first call. *)
Section hashes.
Context (GetHeader : Hash -> Z -> option Header) (ref : Header).

Definition header_number (h : Header) : res Z := match h_Number h with Some n => Ok (big_Uint64 n) | None => Panic end.

Fixpoint walk (fuel : nat) (n : Z) (header : option Header) (cache : gmap Z Hash) : res (Hash * gmap Z Hash) :=
  match header with
  | None => Ok (zeroHash, cache)
  | Some h =>
      match fuel with
      | O => OutOfFuel
      | S fuel =>
          k ← header_number h;
          let k := uint64 (k - 1) in
          let cache := <[k := h_ParentHash h]> cache in
          if n =? k then Ok (h_ParentHash h, cache)
          else walk fuel n (GetHeader (h_ParentHash h) k) cache
      end
  end.

Definition GetHashFn (fuel : nat) (n : Z) (cache : option (gmap Z Hash)) : res (Hash * option (gmap Z Hash)) :=
  k ← header_number ref;
  let k := uint64 (k - 1) in
  let cache := default {[k := h_ParentHash ref]} cache in
  match cache !! n with
  | Some hash => Ok (hash, Some cache)
  | None =>
      '(hash, cache) ← walk fuel n (GetHeader (h_ParentHash ref) k) cache;
      Ok (hash, Some cache)
  end.
End hashes.

(** ** Processing *)
Section processor.
Context `{C : Crypto} {DB : StateDatabase} {N : NativeCrypto} {CC : ChainContext}.

(** The orders in which Go iterates over maps. *)
Context (slot_order : gmap Hash Hash -> list (Hash * Hash)) (dirty_order : gmap Address Z -> list (Address * Z)).
Context (config : ChainConfig).

(** A walk visits each number below that of the header at most once. *)
Definition walk_fuel (header : Header) : nat := S (Z.to_nat (big_Uint64 (default 0 (h_Number header)))).

(** [NewEVMContext], with the configurations that [NewEVM] is given; [GetHash] as a call of
    an empty cache. *)
Definition NewEVMContext (msg : Message) (header : Header) (author : option Address) (noRecursion recordPreimages : bool)
    : res Environment :=
  match h_Number header, h_Difficulty header with
  | Some number, Some difficulty =>
      Ok {| ctx_GetHash := fun n => match GetHashFn chain_GetHeader header (walk_fuel header) n None with
                                    | Ok (h, _) => h
                                    | _ => zeroHash
                                    end;
            ctx_Origin := msg_from msg;
            ctx_GasPrice := msg_gasPrice msg;
            ctx_Coinbase := match author with Some a => a | None => engine_Author header end;
            ctx_GasLimit := h_GasLimit header;
            ctx_BlockNumber := number;
            ctx_Time := h_Time header;
            ctx_Difficulty := difficulty;
            chainConfig := config;
            cfg_NoRecursion := noRecursion;
            cfg_EnablePreimageRecording := recordPreimages |}
  | _, _ => Panic
  end.

(** What a block changes: the gas pool, the state, and the gas used so far. *)
Record Processing : Type := MkProcessing { pr_gp : Z; pr_state : StateDB; pr_usedGas : Z }.

Definition set_pr_state (s : StateDB) (p : Processing) : Processing := MkProcessing (pr_gp p) s (pr_usedGas p).
Definition on_state {A} (m : M StateDB A) : M Processing A := zoom pr_state set_pr_state m.

(** [NewEVM] and [ApplyMessage] in a context. *)
Definition apply_in (env : Environment) (msg : Message) : M Processing (error + (option bytes * Z * bool)) := fun p =>
  match NewEVM (E := env) (pr_state p) with
  | Ok vmenv =>
      match ApplyMessage (E := env) msg vmenv (pr_gp p) with
      | Ok (r, st) => Ok (r, MkProcessing (st_gp st) (evm_StateDB (st_evm st)) (pr_usedGas p))
      | Panic => Panic
      | OutOfFuel => OutOfFuel
      end
  | Panic => Panic
  | OutOfFuel => OutOfFuel
  end.

(** The root of the state in the receipts of old blocks. *)
Definition end_transaction (number : Z) : M StateDB bytes :=
  if IsByzantium config number then Finalise slot_order dirty_order true;; mret []
  else root ← IntermediateRoot slot_order dirty_order (IsEIP158 config number); mret (bytes_of root).

Definition ApplyTransaction (author : option Address) (header : Header) (tx : Transaction) (noRecursion recordPreimages : bool)
    : M Processing (error + (Receipt * Z)) :=
  number ← deref (h_Number header);
  r ← embed (AsMessage (MakeSigner config number) tx);
  match r with
  | inl e => mret (inl e)
  | inr msg =>
      env ← embed (NewEVMContext msg header author noRecursion recordPreimages);
      r ← apply_in env msg;
      match r with
      | inl e => mret (inl e)
      | inr (_, gas, failed) =>
          root ← on_state (end_transaction number);
          modify (fun p => MkProcessing (pr_gp p) (pr_state p) (uint64 (pr_usedGas p + gas)));;
          p ← get;
          logs ← on_state (GetLogs (Transaction_Hash tx));
          let receipt := NewReceipt root failed (pr_usedGas p) in
          let contract := match msg_to msg with
                          | None => CreateAddress (ctx_Origin (Environment := env)) (tx_AccountNonce tx)
                          | Some _ => r_ContractAddress receipt
                          end in
          let receipt bloom :=
            MkReceipt (r_PostState receipt) (r_Status receipt) (r_CumulativeGasUsed receipt) bloom logs (Transaction_Hash tx) contract
              gas (msg_gasPayer msg) (sdb_bhash (pr_state p)) (h_Number header) (uint64 (sdb_txIndex (pr_state p))) in
          bloom ← deref (CreateBloom [receipt zeroBloom]);
          mret (inr (receipt bloom, gas))
      end
  end.

(** [ApplyDAOHardFork] *)
Section dao.
Context (DAORefundContract : Address) (DAODrainList : list Address).

Definition drain (addr : Address) : M StateDB unit :=
  balance ← GetBalance addr;
  AddBalance DAORefundContract balance;;
  SetBalance addr 0.

Definition ApplyDAOHardFork : M StateDB unit :=
  found ← Exist DAORefundContract;
  when (negb found) (CreateAccount DAORefundContract None);;
  each drain DAODrainList.
End dao.

(** The loop of [Process] over the transactions of a block. *)
Fixpoint process_txs (header : Header) (blockHash : Hash) (noRecursion recordPreimages : bool) (i : Z) (txs : list Transaction)
    : M Processing (error + list Receipt) :=
  match txs with
  | [] => mret (inr [])
  | tx :: txs =>
      on_state (Prepare_tx (Transaction_Hash tx) blockHash i);;
      r ← ApplyTransaction None header tx noRecursion recordPreimages;
      match r with
      | inl e => mret (inl e)
      | inr (receipt, _) =>
          rest ← process_txs header blockHash noRecursion recordPreimages (i + 1) txs;
          match rest with
          | inl e => mret (inl e)
          | inr receipts => mret (inr (receipt :: receipts))
          end
      end
  end.

(** [Process]: the receipts, their logs and the gas used, with the error of [Finalize]. *)
Definition Process (DAORefundContract : Address) (DAODrainList : list Address) (noRecursion recordPreimages : bool) (block : Block)
    : M StateDB (error + (list Receipt * list Log * Z * option error)) := fun s =>
  let header := Block_Header block in
  match AddGas (h_GasLimit (b_header block)) 0 with
  | Ok gp =>
      let forked := cc_DAOForkSupport config &&
        match cc_DAOForkBlock config with Some n => bool_decide (Some n = Block_Number block) | None => false end in
      (when forked (ApplyDAOHardFork DAORefundContract DAODrainList);;
       s ← get;
       match process_txs header (Block_Hash block) noRecursion recordPreimages 0 (b_transactions block) (MkProcessing gp s 0) with
       | Ok (r, p) =>
           modify (fun _ => pr_state p);;
           match r with
           | inl e => mret (inl e)
           | inr receipts =>
               err ← engine_Finalize header (b_transactions block) (b_uncles block);
               mret (inr (receipts, concat (r_Logs <$> receipts), pr_usedGas p, err))
           end
       | Panic => panic
       | OutOfFuel => diverge
       end) s
  | Panic => Panic
  | OutOfFuel => OutOfFuel
  end.
End processor.

Section hashes.
Context (GetHeader : Hash -> Z -> option Header) (ref : Header) (m : nat).
Context (Hnumber : forall hash n h, GetHeader hash n = Some h -> h_Number h = Some n /\ 0 <= n < 2 ^ 64 - 1).
Context (Href : h_Number ref = Some (Z.of_nat m)) (Hm : Z.of_nat m < 2 ^ 64).

(** The hash of block [n] on the chain whose block [p - 1] has the hash [hash]. *)
Fixpoint hash_below (p : nat) (n : Z) (hash : Hash) : Hash :=
  let k := uint64 (Z.of_nat p - 1) in
  if n =? k then hash
  else match p with
       | O => zeroHash
       | S p => match GetHeader hash k with Some h => hash_below p n (h_ParentHash h) | None => zeroHash end
       end.

Definition block_hash (n : Z) : Hash := hash_below m n (h_ParentHash ref).

Definition key (p : nat) : Z := uint64 (Z.of_nat p - 1).

Lemma key_inj p q : (p <= m)%nat -> (q <= m)%nat -> key p = key q -> p = q.
Proof.
  intros Hp Hq. unfold key, uint64. assert (Hk : forall r, (r <= m)%nat ->
    (Z.of_nat r - 1) mod 2 ^ 64 = if (r =? 0)%nat then 2 ^ 64 - 1 else Z.of_nat r - 1).
  { intros r Hr. destruct (Nat.eqb_spec r 0) as [->|]; [done|]. apply Z.mod_small. lia. }
  rewrite !Hk by done. destruct (Nat.eqb_spec p 0), (Nat.eqb_spec q 0); lia.
Qed.

(** On the way from the reference, block [p - 1] has the hash [hash]. *)
Definition reached (p : nat) (hash : Hash) : Prop :=
  forall n, (forall q, (p < q <= m)%nat -> n <> key q) -> block_hash n = hash_below p n hash.

Definition cache_ok (cache : gmap Z Hash) : Prop :=
  cache !! key m = Some (h_ParentHash ref) /\ forall n h, cache !! n = Some h -> h = block_hash n.

Lemma hash_below_here p hash : hash_below p (key p) hash = hash.
Proof. destruct p; cbn [hash_below]; by rewrite Z.eqb_refl. Qed.

Lemma hash_below_none p n hash : n <> key p -> GetHeader hash (key p) = None -> hash_below p n hash = zeroHash.
Proof.
  intros Hn Hh. unfold key in *. destruct p; cbn [hash_below]; rewrite (proj2 (Z.eqb_neq _ _) Hn); [done|by rewrite Hh].
Qed.

Lemma reached_below p hash h :
  (S p <= m)%nat -> reached (S p) hash -> GetHeader hash (key (S p)) = Some h -> reached p (h_ParentHash h).
Proof.
  intros Hp Hr Hh n Hn. rewrite Hr by (intros q Hq; apply Hn; lia). cbn [hash_below]. fold (key (S p)).
  rewrite (proj2 (Z.eqb_neq _ _)) by (apply Hn; lia). by rewrite Hh.
Qed.

Lemma walk_ok fuel p n hash cache :
  (p <= fuel)%nat -> (p <= m)%nat -> reached p hash -> n <> key p -> cache_ok cache ->
  exists cache', walk GetHeader fuel n (GetHeader hash (key p)) cache = Ok (hash_below p n hash, cache') /\ cache_ok cache'.
Proof.
  revert p hash cache. induction fuel as [|fuel IH]; intros p hash cache Hf Hp Hr Hn Hc;
    (destruct (GetHeader hash (key p)) as [h|] eqn:Eh; cbn [walk];
     [|exists cache; by rewrite hash_below_none]).
  - destruct (Hnumber _ _ _ Eh) as [_ Hk]. exfalso. destruct p; [|lia]. unfold key in Hk. vm_compute in Hk. by destruct Hk.
  - destruct (Hnumber _ _ _ Eh) as [Hnum Hk]. destruct p as [|p]; [unfold key in Hk; vm_compute in Hk; by destruct Hk|].
    assert (Hkp : key (S p) = Z.of_nat p) by (unfold key; rewrite uint64_small; unfold is_uint64; lia).
    unfold header_number. rewrite Hnum, big_Uint64_small by lia. cbn [mbind res_bind]. rewrite Hkp. fold (key p).
    pose proof (reached_below p hash h Hp Hr Eh) as Hr'.
    assert (Hc' : cache_ok (<[key p := h_ParentHash h]> cache)).
    { destruct Hc as [Hc1 Hc2]. split.
      - rewrite lookup_insert_ne; [done|]. intros E. apply key_inj in E; lia.
      - intros n' h'. rewrite lookup_insert_Some. intros [[<- <-]|[_ Hl]]; [|by apply Hc2].
        rewrite Hr' by (intros q Hq E; apply key_inj in E; lia). by rewrite hash_below_here. }
    assert (Hbelow : hash_below (S p) n hash = hash_below p n (h_ParentHash h)).
    { cbn [hash_below]. fold (key (S p)). rewrite (proj2 (Z.eqb_neq _ _) Hn). by rewrite Eh. }
    rewrite Hbelow. destruct (Z.eqb_spec n (key p)) as [->|Hne]; [rewrite hash_below_here; by eexists|].
    apply IH; [lia|lia|done|done|done].
Qed.

Lemma GetHashFn_ok fuel n cache :
  (m <= fuel)%nat -> match cache with Some c => cache_ok c | None => True end ->
  exists c', GetHashFn GetHeader ref fuel n cache = Ok (block_hash n, Some c') /\ cache_ok c'.
Proof.
  intros Hf Hc. unfold GetHashFn, header_number. rewrite Href, big_Uint64_small by lia. cbn [mbind res_bind]. fold (key m).
  set (c := default _ cache). assert (Hok : cache_ok c).
  { unfold c. destruct cache as [c0|]; [done|]. cbn [default]. split; [by rewrite lookup_singleton_eq|].
    intros n' h'. rewrite lookup_singleton_Some. intros [<- <-]. unfold block_hash. by rewrite hash_below_here. }
  destruct (c !! n) as [h|] eqn:El; [exists c; split; [|done]; by rewrite (proj2 Hok n h El)|].
  assert (Hn : n <> key m) by (intros ->; by rewrite (proj1 Hok) in El).
  destruct (walk_ok fuel m n (h_ParentHash ref) c) as (c' & -> & Hc'); [done|done|intros n' _; done|done|done|].
  cbn. by exists c'.
Qed.

(** A sequence of calls of the function [GetHashFn] returns. *)
Fixpoint ask (fuel : nat) (ns : list Z) (cache : option (gmap Z Hash)) : res (list Hash) :=
  match ns with
  | [] => Ok []
  | n :: ns =>
      '(h, cache) ← GetHashFn GetHeader ref fuel n cache;
      hs ← ask fuel ns cache;
      Ok (h :: hs)
  end.

Lemma ask_ok fuel ns cache :
  (m <= fuel)%nat -> match cache with Some c => cache_ok c | None => True end -> ask fuel ns cache = Ok (block_hash <$> ns).
Proof.
  intros Hf. revert cache. induction ns as [|n ns IH]; intros cache Hc; [done|]. cbn [ask].
  destruct (GetHashFn_ok fuel n cache Hf Hc) as (c' & -> & Hc'). cbn [mbind res_bind]. by rewrite (IH (Some c') Hc').
Qed.
End hashes.

(** C18: the function that [GetHashFn] returns for the instruction BLOCKHASH terminates, with no more steps than there are
    blocks below, and its cache cannot be observed: whatever it was asked before, in any order, it answers the hash
    of the block with that number on the chain below the reference, and the zero hash where there is none. *)
Theorem GetHashFn_memo (GetHeader : Hash -> Z -> option Header) (ref : Header) (m : nat) (ns : list Z) :
  (forall hash n h, GetHeader hash n = Some h -> h_Number h = Some n /\ 0 <= n < 2 ^ 64 - 1) ->
  h_Number ref = Some (Z.of_nat m) -> Z.of_nat m < 2 ^ 64 ->
  ask GetHeader ref (walk_fuel ref) ns None = Ok (block_hash GetHeader ref m <$> ns).
Proof.
  intros Hn Hr Hm. apply ask_ok; [done|done|done| |done]. unfold walk_fuel. rewrite Hr. cbn [default from_option id].
  rewrite big_Uint64_small, Nat2Z.id by lia. lia.
Qed.

(** A chain of three blocks, asked for a block twice and for one it does not have. *)
Definition chain_header (n : Z) : Header :=
  MkHeader (BigToHash (n + 99)) zeroHash zeroAddress zeroHash zeroHash zeroHash zeroBloom (Some 1) (Some n) 0 0 0 [] zeroHash (mk_bytesN 8 []).
Definition chain_headers (hash : Hash) (n : Z) : option Header :=
  if (0 <=? n) && (n <? 3) then Some (chain_header n) else None.

Lemma GetHashFn_memo_witness :
  ask chain_headers (chain_header 3) (walk_fuel (chain_header 3)) [0; 2; 0; 7] None =
    Ok [BigToHash 100; BigToHash 102; BigToHash 100; zeroHash].
Proof.
  rewrite (GetHashFn_memo chain_headers (chain_header 3) 3 [0; 2; 0; 7]); [vm_compute; reflexivity| |reflexivity|lia].
  intros hash n h. unfold chain_headers. destruct (0 <=? n) eqn:E1, (n <? 3) eqn:E2; cbn [andb]; intros [= <-].
  apply Z.leb_le in E1. apply Z.ltb_lt in E2. split; [reflexivity|lia].
Defined.
