(* ===== verification/ProcessorSafe.v ===== *)
(** * What processing a block promises

    The transactions of a block are applied one after the other: nothing panics, the gas
    adds up, the value of all accounts shrinks by the fees, and each receipt tells what its
    transaction did. *)

From S2P Require Import Prelude Bytes RlpEncode RlpDecode RlpCanonical RlpRaw Types Params EvmData EvmBitmap Fallible StateDB StateRevert StateEffect StateFinal EvmCore EvmGas EvmOps JumpTable Precompiled Evm EvmSafe EvmSafeGas EvmSafeOps EvmSafeMem EvmSafeCalls EvmSafePre EvmSafeRun EvmSafeLevel Signing Transition TransitionSafe Messages Receipts ReceiptSpec Processor.

(** ** Messages of transactions *)
Section messages.
Context `{C : Crypto} {N : NativeCrypto}.

Lemma recoverPlain_returns h R S V homestead : exists r, recoverPlain h (Some R) (Some S) V homestead = Ok r.
Proof. unfold recoverPlain. fal. repeat case_match; by eexists. Qed.

Lemma tx_ok_fields t : tx_ok t = true ->
  exists price amount v r s pv pr ps, 0 <= price /\ 0 <= amount /\ 0 <= tx_GasLimit t /\ tx_Price t = Some price /\ tx_Amount t = Some amount /\
    (tx_V t, tx_R t, tx_S t) = (Some v, Some r, Some s) /\ (tx_PV t, tx_PR t, tx_PS t) = (Some pv, Some pr, Some ps).
Proof.
  unfold tx_ok. rewrite !andb_true_iff. intros H. destruct_and!. unfold nonneg in *.
  destruct (tx_Price t), (tx_Amount t), (tx_V t), (tx_R t), (tx_S t), (tx_PV t), (tx_PR t), (tx_PS t); try done.
  rewrite Z.leb_le in *. do 8 eexists. split_and!; [..|done|done|done|done]; lia.
Qed.

Lemma signer_Sender_returns s t : tx_ok t = true -> exists r, signer_Sender s t = Ok r.
Proof.
  intros (? & ? & v & r & sv & ? & ? & ? & _ & _ & _ & _ & _ & [= Hv Hr Hs] & _)%tx_ok_fields. unfold signer_Sender. rewrite Hv, Hr, Hs.
  fal. destruct s; [|apply recoverPlain_returns..]. repeat (case_match; [by (apply recoverPlain_returns || eexists)|]). apply recoverPlain_returns.
Qed.

Lemma signer_Provider_returns s t : tx_ok t = true -> exists r, signer_Provider s t = Ok r.
Proof.
  intros (? & ? & v & ? & ? & pv & pr & ps & _ & _ & _ & _ & _ & [= Hv _ _] & [= Hpv Hpr Hps])%tx_ok_fields. unfold signer_Provider.
  rewrite Hv, Hpv, Hpr, Hps. fal. destruct s; [|apply recoverPlain_returns..].
  repeat (case_match; [by (apply recoverPlain_returns || eexists)|]). apply recoverPlain_returns.
Qed.

(** A transaction that was decoded has a message or an error. *)
Lemma AsMessage_returns s t : tx_ok t = true -> exists r, AsMessage s t = Ok r.
Proof.
  intros Hok. pose proof (tx_ok_fields t Hok) as (price & _ & _ & _ & _ & _ & _ & _ & _ & _ & _ & Hp & _).
  unfold AsMessage, Provider. rewrite Hp. fal. destruct (signer_Sender_returns s t Hok) as ([e|from] & ->); [by eexists|].
  destruct (_ && _); [by eexists|]. destruct (signer_Provider_returns s t Hok) as ([e|p] & ->); by eexists.
Qed.

(** The gas is less than any block may have, and the data shorter than Go's slices. *)
Definition tx_sized (t : Transaction) : Prop := tx_ok t = true /\ tx_GasLimit t < max_gas /\ bounded (tx_Payload t).

Lemma AsMessage_ok s t msg : tx_sized t -> AsMessage s t = Ok (inr msg) ->
  msg_ok msg /\ msg_to msg = tx_Recipient t /\ tx_Price t = Some (msg_gasPrice msg).
Proof.
  intros (Hok & Hg & Hd). pose proof (tx_ok_fields t Hok) as (price & amount & _ & _ & _ & _ & _ & _ & Hp0 & Ha0 & Hg0 & Hp & Ha & _).
  unfold AsMessage. rewrite Hp, Ha. fal. destruct (signer_Sender s t) as [[e|from]| |]; try done.
  destruct (Provider s t) as [[e|p]| |]; try done. intros [= <-]. split; [|done]. split; cbn; [lia|done|by exists amount|done].
Qed.
End messages.

(** ** The value of all accounts *)
Section supply.
Context `{C : Crypto} {DB : StateDatabase} {BC : BlockContext}.

Definition supplied (s : StateDB) : Prop := forall X, total X s < 2 ^ 256.

Lemma sum_app l1 l2 : foldr Z.add 0 (l1 ++ l2) = foldr Z.add 0 l1 + foldr Z.add 0 l2.
Proof. induction l1 as [|z l1 IH]; cbn; lia. Qed.

Lemma total_union X Y s : X ## Y -> total (X ∪ Y) s = total X s + total Y s.
Proof.
  intros H. unfold total. rewrite <- sum_app, <- fmap_app. apply (foldr_permutation_proper (=) Z.add 0); [intros; lia|].
  by apply fmap_Permutation, elements_disj_union.
Qed.

Lemma total_positive X s : state_ok s -> 0 <= total X s.
Proof. intros Hs. unfold total. induction (elements X) as [|a l IH]; csimpl; [lia|]. pose proof (balance_positive a s Hs). lia. Qed.

Lemma total_subset X Y s : state_ok s -> X ⊆ Y -> total X s <= total Y s.
Proof.
  intros Hs HXY. rewrite (union_difference_L X Y HXY), total_union by set_solver. pose proof (total_positive (Y ∖ X) s Hs). lia.
Qed.

Lemma supplied_pays fee s s' : 0 <= fee -> state_ok s' -> pays fee s s' -> supplied s -> supplied s'.
Proof.
  intros Hf Hs (L & HL) Hb X. specialize (HL (X ∪ L) ltac:(set_solver)). specialize (Hb (X ∪ L)).
  pose proof (total_subset X (X ∪ L) s' Hs ltac:(set_solver)). lia.
Qed.

Lemma supplied_bound s : supplied s -> supply_bound s.
Proof. intros Hb a. specialize (Hb {[a]}). unfold total in Hb. rewrite elements_singleton in Hb. cbn in Hb. lia. Qed.
End supply.

(** ** One transaction *)
Section process.
Context `{C : Crypto} {DB : StateDatabase} {N : NativeCrypto} {CC : ChainContext} {TL : TrieLaws}.
Context (slot_order : gmap Hash Hash -> list (Hash * Hash)) (dirty_order : gmap Address Z -> list (Address * Z)).
Context (config : ChainConfig) (header : Header) (blockHash : Hash) (noRecursion recordPreimages : bool).

(** The forks in force: the byte code is that of the virtual machine, and the gas of the
    storage is metered in one of the two ways that lose no refunds. *)
Record block_ok : Prop := {
  bk_number : exists number, h_Number header = Some number /\ 0 <= number < 2 ^ 64;
  bk_difficulty : exists difficulty, h_Difficulty header = Some difficulty;
  bk_byzantium : forall number, h_Number header = Some number -> IsByzantium config number = true /\ IsEWASM config number = false;
  bk_metering : forall number, h_Number header = Some number ->
    r_IsPetersburg (Rules_of config number) || negb (r_IsConstantinople (Rules_of config number)) = true
}.

Definition block_number_of : Z := default 0 (h_Number header).
#[local] Instance this_block : BlockContext := big_Uint64 block_number_of.

Context (Hblock : block_ok).
Context (Hhashes : forall c1 c2, bounded c1 -> bounded c2 -> keccak256 c1 = keccak256 c2 -> length c1 = length c2).

(** What a message that was applied leaves. *)
Record message_applied (msg : Message) (used : Z) (p p' : Processing) : Prop := {
  ma_used : 0 <= used;
  ma_gp : 0 <= pr_gp p' /\ pr_gp p' = pr_gp p - used;
  ma_usedGas : pr_usedGas p' = pr_usedGas p;
  ma_pays : pays (used * msg_gasPrice msg) (pr_state p) (pr_state p');
  ma_effect : tx_effect (pr_state p) (pr_state p')
}.

Lemma apply_in_run msg env p :
  NewEVMContext config msg header None noRecursion recordPreimages = Ok env ->
  msg_ok msg -> state_ok (pr_state p) -> 0 <= pr_gp p <= MaxUint64 ->
  twp (apply_in env msg) (fun r p' => match r with
    | inl _ => True
    | inr (_, used, _) => state_ok (pr_state p') /\ message_applied msg used p p'
    end) p.
Proof.
  unfold NewEVMContext. destruct Hblock as [(number & Hn & Hr) (difficulty & Hd) Hb Hm]. rewrite Hn, Hd. intros [= <-] Hmsg Hs Hgp.
  set (env := Build_Environment _ _ _ _ _ _ _ _ _ _ _).
  assert (K : EnvironmentOk (E := env)) by (split; [apply Hmsg|by apply Hm|exact Hhashes]).
  assert (Ht : this_block = env_block (E := env)) by (unfold this_block, block_number_of; by rewrite Hn).
  rewrite Ht in Hs. set (e := MkEvm (pr_state p) 0 0 false [] ∅).
  assert (Ke : evm_ok (E := env) e) by (split; [exact Hs|intros h a; cbn; by rewrite lookup_empty|done|done]).
  destruct (twp_TransitionDb msg (Hmsg := Hmsg) (pr_gp p) e Ke eq_refl Hgp) as (r & st' & Et & Hok & Ha).
  assert (Ev : NewEVM (E := env) (pr_state p) = Ok e) by (unfold NewEVM; cbn; by destruct (Hb number Hn) as [_ ->]).
  unfold twp, apply_in. rewrite Ev. unfold ApplyMessage. rewrite Et. eexists _, _. split; [reflexivity|].
  destruct r as [err|[[ret used] failed]]; [done|]. cbn [pr_state]. rewrite Ht. split; [apply Hok|].
  destruct Ha as [Hu Hroom _ Hg Hp Hl _]. split; cbn; try done; lia.
Qed.

(** ** One transaction *)
Lemma end_transaction_run number s :
  h_Number header = Some number -> state_ok s -> supplied s -> t_ok (sdb_trie s) ->
  twp (end_transaction slot_order dirty_order config number) (fun root s' => root = [] /\ finalised dirty_order s s') s.
Proof.
  intros Hn Hs Hb Ht. unfold end_transaction. rewrite (proj1 (bk_byzantium Hblock number Hn)). apply twp_bind.
  eapply twp_mono; [apply (Finalise_run slot_order dirty_order s Hs (supplied_bound _ Hb) Ht)|]. intros ? s' F. cbn beta in F. by apply twp_ret.
Qed.

(** The state between two transactions; [fresh] are the hashes of the transactions to come. *)
Record between (p : Processing) (fresh : list Hash) : Prop := {
  bt_ok : state_ok (pr_state p);
  bt_supply : supplied (pr_state p);
  bt_trie : t_ok (sdb_trie (pr_state p));
  bt_gp : 0 <= pr_gp p;
  bt_used : 0 <= pr_usedGas p;
  bt_limit : pr_gp p + pr_usedGas p = h_GasLimit header;
  bt_fresh : forall h, h ∈ fresh -> logs_of (pr_state p) h = []
}.

Lemma on_state_run {A} (m : M StateDB A) P (Q : A -> Processing -> Prop) p :
  twp m P (pr_state p) -> (forall a s', P a s' -> Q a (set_pr_state s' p)) -> twp (on_state m) Q p.
Proof. intros (a & s' & Em & H) HQ. exists a, (set_pr_state s' p). unfold on_state, zoom. rewrite Em. auto. Qed.

(** A new transaction has no logs yet. *)
Lemma Prepare_ok s h i : state_ok s -> logs_of s h = [] -> state_ok (set_tx h blockHash i s).
Proof.
  intros [Hg Hr Ho Hf _] Hl. split; try done; [by destruct Hg|]. intros j l Hj.
  change (logs_of s h !! j = Some l) in Hj. by rewrite Hl in Hj.
Qed.

(** The logs of the transaction that ends. *)
Record ended_logs (s : StateDB) (h : Hash) (i : Z) (s' : StateDB) : Prop := {
  el_logs : forall j l, logs_of s' h !! j = Some l ->
    (l_BlockNumber l, l_TxHash l, l_TxIndex l, l_BlockHash l, l_Index l, l_Removed l) =
    (big_Uint64 block_number_of, h, uint64 i, blockHash, uint64 (sdb_logSize s + Z.of_nat j), false);
  el_size : sdb_logSize s' = uint64 (sdb_logSize s + Z.of_nat (length (logs_of s' h)));
  el_other : forall h', h' <> h -> logs_of s' h' = logs_of s h';
  el_tx : (sdb_bhash s', sdb_txIndex s') = (blockHash, i)
}.

Lemma ended_logs_of s h i s2 s3 :
  state_ok s -> logs_of s h = [] -> tx_effect (set_tx h blockHash i s) s2 -> state_ok s2 -> finalised dirty_order s2 s3 -> ended_logs s h i s3.
Proof.
  intros Hs Hl [Ht Ho Hb _] Hs2 F. pose proof (g_logSize _ (ok_good _ Hs)) as Hsz. pose proof (g_logSize _ (ok_good _ Hs2)) as Hsz2.
  pose proof (fd_logs _ _ _ F) as [= HL HS]. pose proof (fd_tx _ _ _ F) as [= T1 T2 T3]. injection Ht as E1 E2 E3. cbn in E1, E2, E3.
  assert (HLh : forall h', logs_of s3 h' = logs_of s2 h') by (intros h'; unfold logs_of; by rewrite HL).
  assert (Htx : logs_of s3 h = tx_logs s2) by (rewrite HLh; unfold tx_logs; by rewrite E1).
  unfold tx_logs at 2 in Hb. change (logs_of (set_tx h blockHash i s)) with (logs_of s) in Hb. cbn in Hb. rewrite Hl in Hb.
  cbn in Hb. rewrite Z.sub_0_r, (uint64_small (sdb_logSize s)) in Hb by done.
  assert (Hbase : forall j, uint64 (sdb_logSize s2 - Z.of_nat (length (tx_logs s2)) + j) = uint64 (sdb_logSize s + j)).
  { intros j. apply uint64_shift. by rewrite Hb, uint64_small. }
  split.
  - intros j l Hj. rewrite Htx in Hj. by rewrite (ok_logs _ Hs2 j l Hj), E1, E2, E3, Hbase.
  - by rewrite HS, Htx, <- Hbase, Z.sub_add, uint64_small.
  - intros h' Hh. rewrite HLh. by apply Ho.
  - congruence.
Qed.

Record processed (p : Processing) (i : Z) (tx : Transaction) (receipt : Receipt) (p' : Processing) (fresh : list Hash) : Prop := {
  pd_between : between p' fresh;
  pd_receipt : receipt_of (MakeSigner config block_number_of) blockHash block_number_of i (pr_usedGas p) (sdb_logSize (pr_state p)) tx receipt;
  pd_used : pr_usedGas p' = r_CumulativeGasUsed receipt;
  pd_size : sdb_logSize (pr_state p') = uint64 (sdb_logSize (pr_state p) + Z.of_nat (length (r_Logs receipt)));
  pd_pays : pays (r_GasUsed receipt * default 0 (tx_Price tx)) (pr_state p) (pr_state p')
}.

Lemma twp_embed {S A} (r : res A) a (Q : A -> S -> Prop) s : r = Ok a -> Q a s -> twp (embed r) Q s.
Proof. intros -> H. by exists a, s. Qed.

Lemma pays_set_tx fee h i s s' : pays fee (set_tx h blockHash i s) s' -> pays fee s s'.
Proof. done. Qed.

(** The parts of a receipt put together. *)
Lemma processed_receipt p p2 s3 tx i fresh msg used failed bloom :
  let h := Transaction_Hash tx in
  let p0 := set_pr_state (set_tx h blockHash i (pr_state p)) p in
  let r := NewReceipt [] failed (uint64 (pr_usedGas p2 + used)) in
  let contract := match msg_to msg with
                  | None => CreateAddress (msg_from msg) (tx_AccountNonce tx)
                  | Some _ => r_ContractAddress r
                  end in
  let receipt b := MkReceipt (r_PostState r) (r_Status r) (r_CumulativeGasUsed r) b (logs_of s3 h) h contract used (msg_gasPayer msg)
                     (sdb_bhash s3) (h_Number header) (uint64 (sdb_txIndex s3)) in
  between p (h :: fresh) -> h ∉ fresh -> h_GasLimit header < 2 ^ 64 -> tx_sized tx ->
  AsMessage (MakeSigner config block_number_of) tx = Ok (inr msg) ->
  state_ok (pr_state p2) -> message_applied msg used p0 p2 -> finalised dirty_order (pr_state p2) s3 ->
  CreateBloom [receipt zeroBloom] = Some bloom ->
  processed p i tx (receipt bloom) (MkProcessing (pr_gp p2) s3 (uint64 (pr_usedGas p2 + used))) fresh.
Proof.
  intros h p0 r contract receipt [Hs Hsup Htr Hgp Hus Hlim Hfr] Hnin Hgl Htx Hmsg Hs2 [Mu [Mg1 Mg2] Mug Mp Me] F Hbl.
  destruct (AsMessage_ok _ _ _ Htx Hmsg) as ([_ Hprice _ _] & Hto & Hpr). destruct (bk_number Hblock) as (number & Hn & Hr).
  assert (Hnum : block_number_of = number) by (unfold block_number_of; by rewrite Hn). cbn in Mg2, Mug.
  assert (Hl0 : logs_of (pr_state p) h = []) by (apply Hfr; set_solver).
  pose proof (ended_logs_of _ h i _ s3 Hs Hl0 Me Hs2 F) as [EL ES EO ET]. injection ET as EB EI.
  assert (Hu64 : uint64 (pr_usedGas p2 + used) = pr_usedGas p + used) by (rewrite Mug; apply uint64_small; unfold is_uint64; lia).
  assert (Hpay : pays (used * msg_gasPrice msg) (pr_state p) s3).
  { replace (used * _) with (used * msg_gasPrice msg + 0) by lia. eapply pays_trans; [exact (pays_set_tx _ _ _ _ _ Mp)|].
    apply creates_pays. by eapply finalised_worth. }
  split; cbn [r_GasUsed receipt r_CumulativeGasUsed r_Logs pr_usedGas pr_state]; [|..|by rewrite Hpr].
  - split; cbn; [apply F| |apply F|lia|lia|lia|].
    + eapply supplied_pays; [|apply F|exact Hpay|done]. by apply Z.mul_nonneg_nonneg.
    + intros h' Hh'. rewrite EO by (intros ->; done). apply Hfr. set_solver.
  - split; cbn; try done; [by destruct failed; [left|right]|lia|lia| |by rewrite EB, EI, Hn, Hnum|].
    + exists msg. split_and!; [done..|]. unfold contract. by rewrite Hto.
    + intros j l Hj. rewrite (EL j l Hj). by rewrite Hnum, big_Uint64_small.
  - done.
  - exact ES.
Qed.

Lemma NewEVMContext_returns msg : exists env, NewEVMContext config msg header None noRecursion recordPreimages = Ok env /\
  ctx_Origin (Environment := env) = msg_from msg.
Proof.
  destruct Hblock as [(number & Hn & _) (difficulty & Hd) _ _]. unfold NewEVMContext. rewrite Hn, Hd. by eexists.
Qed.

Lemma ApplyTransaction_run p i tx fresh :
  between p (Transaction_Hash tx :: fresh) -> Transaction_Hash tx ∉ fresh -> h_GasLimit header < 2 ^ 64 -> tx_sized tx ->
  twp (ApplyTransaction slot_order dirty_order config None header tx noRecursion recordPreimages)
    (fun r p' => match r with inl _ => True | inr (receipt, _) => processed p i tx receipt p' fresh end)
    (set_pr_state (set_tx (Transaction_Hash tx) blockHash i (pr_state p)) p).
Proof.
  intros Hb Hnin Hgl Htx. set (h := Transaction_Hash tx). destruct (bk_number Hblock) as (number & Hn & Hr).
  assert (Hnum : block_number_of = number) by (unfold block_number_of; by rewrite Hn).
  unfold ApplyTransaction. rewrite Hn. apply twp_bind, twp_deref, twp_bind. rewrite <- Hnum.
  destruct (AsMessage_returns (MakeSigner config block_number_of) tx (proj1 Htx)) as (rm & Hm). eapply twp_embed; [exact Hm|].
  destruct rm as [e|msg]; [by apply twp_ret|]. destruct (AsMessage_ok _ _ _ Htx Hm) as (Hmsg & Hto & Hpr).
  destruct (NewEVMContext_returns msg) as (env & He & Ho). apply twp_bind. eapply twp_embed; [exact He|]. apply twp_bind.
  assert (Hs0 : state_ok (set_tx h blockHash i (pr_state p))) by (apply Prepare_ok; [apply Hb|apply (bt_fresh _ _ Hb); set_solver]).
  pose proof (bt_gp _ _ Hb). pose proof (bt_used _ _ Hb). pose proof (bt_limit _ _ Hb).
  eapply twp_mono; [apply (apply_in_run msg env _ He Hmsg); [exact Hs0|cbn; lia]|].
  intros [e|[[ret used] failed]] p2 H2; [by apply twp_ret|]. destruct H2 as [Hs2 Ma]. apply twp_bind.
  assert (Hsup2 : supplied (pr_state p2)).
  { eapply supplied_pays; [|done|apply Ma|exact (bt_supply _ _ Hb)]. apply Z.mul_nonneg_nonneg; [apply Ma|apply Hmsg]. }
  assert (Htr2 : t_ok (sdb_trie (pr_state p2))) by (rewrite (le_trie _ _ (ma_effect _ _ _ _ Ma)); apply Hb).
  eapply on_state_run; [apply end_transaction_run; [by rewrite Hnum|done..]|]. intros root s3 [-> F].
  apply twp_bind, twp_modify, twp_bind, twp_get, twp_bind.
  eapply (on_state_run _ (fun logs s => logs = logs_of s3 h /\ s = s3)); [by apply twp_gets|]. intros logs s [-> ->].
  apply twp_bind. match goal with |- context [CreateBloom ?l] => destruct (CreateBloom_Big l) as (bloom & Hbl & _) end.
  rewrite Hbl. apply twp_deref, twp_ret.
  pose proof (processed_receipt p p2 s3 tx i fresh msg used failed bloom Hb Hnin Hgl Htx Hm Hs2 Ma F) as HP.
  rewrite Ho, Hnum, Hn in *. exact (HP Hbl).
Qed.

(** ** All transactions of a block *)
Definition gas_used (rs : list Receipt) : Z := foldr Z.add 0 (r_GasUsed <$> rs).

Fixpoint fees (txs : list Transaction) (rs : list Receipt) : Z :=
  match txs, rs with
  | tx :: txs, r :: rs => r_GasUsed r * default 0 (tx_Price tx) + fees txs rs
  | _, _ => 0
  end.

Record all_processed (p : Processing) (i : Z) (txs : list Transaction) (rs : list Receipt) (p' : Processing) : Prop := {
  ap_between : between p' [];
  ap_recorded : recorded (MakeSigner config block_number_of) blockHash block_number_of i (pr_usedGas p) (sdb_logSize (pr_state p)) txs rs;
  ap_used : pr_usedGas p' = pr_usedGas p + gas_used rs;
  ap_pays : pays (fees txs rs) (pr_state p) (pr_state p')
}.

Lemma process_txs_run txs p i :
  between p (Transaction_Hash <$> txs) -> NoDup (Transaction_Hash <$> txs) -> h_GasLimit header < 2 ^ 64 -> Forall tx_sized txs ->
  twp (process_txs slot_order dirty_order config header blockHash noRecursion recordPreimages i txs)
    (fun r p' => match r with inl _ => True | inr rs => all_processed p i txs rs p' end) p.
Proof.
  intros Hb Hnd Hgl Hsz. revert p i Hb Hnd. induction Hsz as [|tx txs Htx _ IH]; intros p i Hb Hnd; cbn [process_txs].
  { apply twp_ret. split; [by destruct Hb|done|cbn; lia|]. exists ∅. intros X _. cbn. lia. }
  rewrite fmap_cons in Hb, Hnd. apply NoDup_cons in Hnd as [Hnin Hnd]. apply twp_bind.
  apply (on_state_run _ (fun _ s' => s' = set_tx (Transaction_Hash tx) blockHash i (pr_state p))); [by apply twp_modify|].
  intros _ s' ->. apply twp_bind. eapply twp_mono; [by apply ApplyTransaction_run|].
  intros [e|[receipt gas]] p1 H1; [by apply twp_ret|]. destruct H1 as [B1 R1 U1 S1 P1]. apply twp_bind.
  eapply twp_mono; [by apply IH|]. intros [e|rs] p2 H2; [by apply twp_ret|]. destruct H2 as [B2 R2 U2 P2]. apply twp_ret.
  rewrite U1, S1 in R2. split; [done|by split| |].
  - rewrite U2, U1. unfold gas_used. csimpl. rewrite (ro_used _ _ _ _ _ _ _ _ R1). lia.
  - cbn. by eapply pays_trans.
Qed.
End process.

(** ** Blocks *)
Section block.
Context `{C : Crypto} {DB : StateDatabase} {N : NativeCrypto} {CC : ChainContext} {TL : TrieLaws}.
Context (slot_order : gmap Hash Hash -> list (Hash * Hash)) (dirty_order : gmap Address Z -> list (Address * Z)) (config : ChainConfig).
Context (DAORefundContract : Address) (DAODrainList : list Address) (noRecursion recordPreimages : bool).

(** A block of transactions that were decoded and have different hashes, on a state in order
    whose trie of accounts can be read and which has no logs of them. Hashes of codes tell
    their lengths apart, and the consensus engine ends every block. *)
Record processable (block : Block) (s : StateDB) : Prop := {
  pc_block : block_ok config (Block_Header block);
  pc_dao : cc_DAOForkSupport config = false;
  pc_limit : 0 <= h_GasLimit (b_header block) < 2 ^ 64;
  pc_hashes : forall c1 c2, bounded c1 -> bounded c2 -> keccak256 c1 = keccak256 c2 -> length c1 = length c2;
  pc_engine : forall s1, exists err s2, engine_Finalize (Block_Header block) (b_transactions block) (b_uncles block) s1 = Ok (err, s2);
  pc_sized : Forall tx_sized (b_transactions block);
  pc_different : NoDup (Transaction_Hash <$> b_transactions block);
  pc_state : state_ok (BC := this_block (Block_Header block)) s;
  pc_supply : supplied s;
  pc_trie : t_ok (sdb_trie s);
  pc_logSize : sdb_logSize s = 0;
  pc_logs : forall tx, tx ∈ b_transactions block -> logs_of s (Transaction_Hash tx) = []
}.

(** What the receipts of a block tell, and what it has cost before the engine ended it. *)
Definition block_outcome (block : Block) (s : StateDB) (r : error + (list Receipt * list Log * Z * option error)) (s' : StateDB) : Prop :=
  let header := Block_Header block in
  match r with
  | inl _ => True
  | inr (receipts, logs, used, err) =>
      recorded (MakeSigner config (block_number_of header)) (Block_Hash block) (block_number_of header) 0 0 0 (b_transactions block) receipts /\
      logs = concat (r_Logs <$> receipts) /\ used = gas_used receipts /\ used <= h_GasLimit (b_header block) /\
      exists s1, engine_Finalize header (b_transactions block) (b_uncles block) s1 = Ok (err, s') /\ state_ok (BC := this_block header) s1 /\
        pays (fees (b_transactions block) receipts) s s1
  end.

Lemma Process_run block s :
  processable block s ->
  twp (Process slot_order dirty_order config DAORefundContract DAODrainList noRecursion recordPreimages block) (block_outcome block s) s.
Proof.
  intros [Hblock Hdao Hgl Hhash Hfin Hsz Hnd Hs Hsup Htr Hlog Hfr]. unfold twp, Process, AddGas. rewrite (proj2 (Z.ltb_ge _ _)) by lia.
  rewrite Hdao. cbn [andb when]. set (header := Block_Header block). set (txs := b_transactions block).
  apply twp_bind, twp_ret, twp_bind, twp_get.
  set (p := MkProcessing _ s 0). assert (Hb : between header p (Transaction_Hash <$> txs)).
  { split; cbn; try done; try lia. intros h Hh. apply list_elem_of_fmap in Hh as (tx & -> & Htx). by apply Hfr. }
  destruct (process_txs_run slot_order dirty_order config header (Block_Hash block) noRecursion recordPreimages Hblock Hhash txs p 0 Hb Hnd
    (proj2 Hgl) Hsz) as (r & p' & -> & Hr).
  apply twp_bind, twp_modify. destruct r as [e|rs]; [by apply twp_ret|]. destruct Hr as [[B1 _ _ Bg _ Bl _] R U P].
  destruct (Hfin (pr_state p')) as (err & s2 & Ef). apply twp_bind. exists err, s2. split; [done|]. apply twp_ret.
  unfold p in R, U. cbn [pr_state pr_usedGas] in R, U. rewrite Hlog in R. change (h_GasLimit header) with (h_GasLimit (b_header block)) in Bl.
  unfold block_outcome. split_and!; [done|done|done|lia|]. by exists (pr_state p').
Qed.

End block.
