(* ===== verification/Validator.v ===== *)
(** * Validating blocks

    Models [src/core/block_validator.go], and the check of the gas limit of
    [src/consensus/ethash/consensus.go]. *)

From S2P Require Import Prelude Bytes RlpEncode RlpDecode RlpCanonical RlpRaw TrieEncoding Types Params EvmData Fallible TrieNode Trie TriePure TrieHash TrieRefine TrieCommit TrieMap SecureTrie TrieProof TrieBinding StateDB StateRevert StateEffect StateFinal EvmCore EvmGas EvmOps JumpTable Precompiled Evm EvmSafe Signing Transition TransitionSafe Receipts ReceiptSpec Processor ProcessorSafe.

(** What the validator asks of the block chain. *)
Class BlockStore : Type := {
  HasBlock : Hash -> Z -> bool;
  HasBlockAndState : Hash -> Z -> bool
}.

Section validator.
Context `{C : Crypto} {DB : StateDatabase} {N : NativeCrypto} {CC : ChainContext} {BS : BlockStore}.
Context (slot_order : gmap Hash Hash -> list (Hash * Hash)) (dirty_order : gmap Address Z -> list (Address * Z)).
Context (config : ChainConfig).

Definition EmptyUncleHash : Hash := rlpHash (GList []).
Definition CalcUncleHash (uncles : list Header) : Hash :=
  match uncles with [] => EmptyUncleHash | _ => rlpHash (GList (header_gval <$> uncles)) end.

(** [GetRlp] of a transaction drops the error. *)
Definition tx_GetRlp (t : Transaction) : bytes := match EncodeToBytes (tx_gval t) with inr (Ok b) => b | _ => [] end.

Definition NumberU64 (b : Block) : res Z := header_number (b_header b).

(** The loop over the prices of the transactions. *)
Fixpoint check_prices (txs : list Transaction) : fallible unit :=
  match txs with
  | [] => mret tt
  | tx :: txs =>
      price ← raise (tx_Price tx);
      want ← raise (cc_GasPrice config);
      if negb (price =? want) then fail ErrTransactionGasPriceMismatch else check_prices txs
  end.

Definition ValidateBody (block : Block) : fallible unit :=
  number ← Fallible.returns (NumberU64 block);
  if HasBlockAndState (Block_Hash block) number then fail ErrKnownBlock
  else
    let header := Block_Header block in
    match engine_VerifyUncles block with
    | Some e => fail e
    | None =>
        if negb (bool_decide (CalcUncleHash (b_uncles block) = h_UncleHash header)) then fail ErrUncleRootMismatch
        else
          hash ← Fallible.returns (DeriveSha (tx_GetRlp <$> b_transactions block));
          if negb (bool_decide (hash = h_TxHash header)) then fail ErrTransactionRootMismatch
          else
            check_prices (b_transactions block);;
            let parent := uint64 (number - 1) in
            if negb (HasBlockAndState (h_ParentHash (b_header block)) parent) then
              if negb (HasBlock (h_ParentHash (b_header block)) parent) then fail ErrUnknownAncestor else fail ErrPrunedAncestor
            else mret tt
    end.

(** The receipts as [DeriveSha] takes them; one that cannot be encoded panics. *)
Fixpoint receipts_rlp (rs : list Receipt) : res (list bytes) :=
  match rs with
  | [] => Ok []
  | r :: rs => b ← GetRlp r; bs ← receipts_rlp rs; Ok (b :: bs)
  end.

Definition ValidateState (block : Block) (receipts : list Receipt) (usedGas : Z) : M StateDB (option error) :=
  let header := Block_Header block in
  if negb (h_GasUsed (b_header block) =? usedGas) then mret (Some ErrGasUsedMismatch)
  else
    rbloom ← deref (CreateBloom receipts);
    if negb (bool_decide (rbloom = h_Bloom header)) then mret (Some ErrBloomMismatch)
    else
      items ← embed (receipts_rlp receipts);
      receiptSha ← embed (DeriveSha items);
      if negb (bool_decide (receiptSha = h_ReceiptHash header)) then mret (Some ErrReceiptRootMismatch)
      else
        number ← deref (h_Number header);
        root ← IntermediateRoot slot_order dirty_order (IsEIP158 config number);
        if negb (bool_decide (h_Root header = root)) then mret (Some ErrStateRootMismatch) else mret None.

(** ** Blocks that are accepted *)
Context {TL : TrieLaws}.

Lemma check_prices_fees txs rs signer hash number i prev logIndex :
  check_prices txs = Ok (inr tt) -> recorded signer hash number i prev logIndex txs rs ->
  fees txs rs = gas_used rs * default 0 (cc_GasPrice config).
Proof.
  revert rs i prev logIndex. induction txs as [|tx txs IH]; intros [|r rs] i prev logIndex Hp Hr; try done.
  destruct Hr as [_ Hr]. cbn [check_prices] in Hp. revert Hp. fal. destruct (tx_Price tx) as [price|] eqn:Ep; [|done].
  destruct (cc_GasPrice config) as [want|] eqn:Ew; [|done]. destruct (Z.eqb_spec price want) as [->|]; [|done]. cbn [negb]. intros Hp.
  cbn [fees]. rewrite (IH _ _ _ _ Hp Hr), Ep. unfold gas_used. csimpl. lia.
Qed.

Lemma ValidateBody_accepts block :
  ValidateBody block = Ok (inr tt) ->
  check_prices (b_transactions block) = Ok (inr tt) /\ DeriveSha (tx_GetRlp <$> b_transactions block) = Ok (h_TxHash (b_header block)) /\
  CalcUncleHash (b_uncles block) = h_UncleHash (b_header block).
Proof.
  unfold ValidateBody. fal. destruct (NumberU64 block) as [n| |]; try done. case_match; [done|].
  destruct (engine_VerifyUncles block); [done|]. case_bool_decide as Hu; [|done]. cbn [negb].
  destruct (DeriveSha _) as [h| |]; try done. case_bool_decide as Ht; [|done]. cbn [negb].
  destruct (check_prices _) as [[e|[]]| |]; try done. intros _. by rewrite Ht.
Qed.

Lemma ValidateState_accepts block receipts used s s' :
  ValidateState block receipts used s = Ok (None, s') ->
  h_GasUsed (b_header block) = used /\ CreateBloom receipts = Some (h_Bloom (b_header block)) /\
  exists items, receipts_rlp receipts = Ok items /\ DeriveSha items = Ok (h_ReceiptHash (b_header block)).
Proof.
  unfold ValidateState. destruct (Z.eqb_spec (h_GasUsed (b_header block)) used) as [Hu|]; [|done]. cbn [negb].
  unfold deref, embed. destruct (CreateBloom receipts) as [bloom|]; [|done]. run. case_bool_decide as Hb; [|done]. cbn [negb].
  destruct (receipts_rlp receipts) as [items| |]; [|done|done]. cbv iota. destruct (DeriveSha items) as [sha| |] eqn:Es; [|done|done].
  case_bool_decide as Hs; [|done]. intros _. split; [done|]. split; [by rewrite Hb|]. exists items. by rewrite Es, Hs.
Qed.

End validator.

(** ** The gas limit of the next block *)
Definition CalcGasLimit (parentGasLimit parentGasUsed gasFloor gasCeil : Z) : Z :=
  let contrib := uint64 (parentGasUsed + parentGasUsed / 2) / GasLimitBoundDivisor in
  let decay := uint64 (parentGasLimit / GasLimitBoundDivisor - 1) in
  let limit := uint64 (parentGasLimit - decay + contrib) in
  let limit := if limit <? MinGasLimit then MinGasLimit else limit in
  if limit <? gasFloor then
    let limit := uint64 (parentGasLimit + decay) in
    if gasFloor <? limit then gasFloor else limit
  else if gasCeil <? limit then
    let limit := uint64 (parentGasLimit - decay) in
    if limit <? gasCeil then gasCeil else limit
  else limit.

(** The part of [verifyHeader] about the gas limit. *)
Definition gas_limit_allowed (parentGasLimit gasLimit : Z) : bool :=
  let diff := int64 (int64 parentGasLimit - int64 gasLimit) in
  let diff := if diff <? 0 then int64 (diff * -1) else diff in
  negb ((parentGasLimit / GasLimitBoundDivisor <=? uint64 diff) || (gasLimit <? MinGasLimit)).

Lemma gas_limit_near P L :
  MinGasLimit <= L < 2 ^ 63 -> 0 <= P < 2 ^ 63 -> Z.abs (P - L) < P / GasLimitBoundDivisor -> gas_limit_allowed P L = true.
Proof.
  unfold MinGasLimit, GasLimitBoundDivisor. intros HL HP Hd. unfold gas_limit_allowed. cbv zeta.
  rewrite (int64_small P), (int64_small L), (int64_small (P - L)) by (unfold is_int64; lia).
  assert (E : (if P - L <? 0 then int64 ((P - L) * -1) else P - L) = Z.abs (P - L)).
  { destruct (Z.ltb_spec (P - L) 0); [rewrite int64_small by (unfold is_int64; lia)|]; lia. }
  rewrite E, uint64_small by (unfold is_uint64; lia). apply negb_true_iff, orb_false_iff. unfold GasLimitBoundDivisor, MinGasLimit.
  rewrite Z.leb_gt, Z.ltb_ge. lia.
Qed.

(** C19: the gas limit a miner chooses is one the others accept: from a limit of at least 6144, and gas used within it,
    [CalcGasLimit] stays near the limit of the parent as [verifyHeader] asks, whatever the floor and the ceiling are. *)
Theorem CalcGasLimit_allowed (P U gasFloor gasCeil : Z) :
  6144 <= P < 2 ^ 62 -> 0 <= U <= P -> 0 <= gasFloor -> 0 <= gasCeil ->
  gas_limit_allowed P (CalcGasLimit P U gasFloor gasCeil) = true.
Proof.
  intros HP HU Hf Hc. unfold CalcGasLimit, GasLimitBoundDivisor, MinGasLimit. cbv zeta.
  assert (HU2 : U / 2 <= U) by (apply Z.div_le_upper_bound; lia). assert (0 <= U / 2) by (apply Z.div_pos; lia).
  rewrite (uint64_small (U + U / 2)) by (unfold is_uint64; lia).
  pose proof (Z.div_mod P 1024 ltac:(lia)) as Dp. pose proof (Z.mod_pos_bound P 1024 ltac:(lia)) as Mp.
  pose proof (Z.div_mod (U + U / 2) 1024 ltac:(lia)) as Du. pose proof (Z.mod_pos_bound (U + U / 2) 1024 ltac:(lia)) as Mu.
  pose proof (Z.div_mod U 2 ltac:(lia)) as D2. pose proof (Z.mod_pos_bound U 2 ltac:(lia)) as M2.
  set (q := P / 1024) in *. set (c := (U + U / 2) / 1024) in *. rewrite (uint64_small (q - 1)) by (unfold is_uint64; lia).
  rewrite (uint64_small (P - (q - 1) + c)), (uint64_small (P + (q - 1))), (uint64_small (P - (q - 1))) by (unfold is_uint64; lia).
  set (l := if _ <? 5000 then 5000 else _). assert (Hl : 5000 <= l /\ P - q < l < P + q).
  { unfold l. destruct (Z.ltb_spec (P - (q - 1) + c) 5000); lia. }
  clearbody l. apply gas_limit_near; unfold MinGasLimit, GasLimitBoundDivisor; fold q;
    repeat match goal with |- context [?a <? ?b] => destruct (Z.ltb_spec a b) end; lia.
Qed.

Lemma CalcGasLimit_allowed_witness : gas_limit_allowed 8000000 (CalcGasLimit 8000000 7000000 9000000 9000000) = true.
Proof. apply (CalcGasLimit_allowed 8000000 7000000 9000000 9000000); lia. Defined.

(** From the smallest limit a full block leads to a limit that is refused. *)
Lemma CalcGasLimit_refused : CalcGasLimit 5000 5000 0 (2 ^ 63) = 5004 /\ gas_limit_allowed 5000 5004 = false.
Proof. split; vm_compute; reflexivity. Qed.
