(* ===== verification/Demo.v ===== *)
(** * Executions

    Concrete runs of the consensus core, at which the theorems of [Safety] are applied: a
    queue, a backend of four validators, scripts of events for one node and for a network
    of three correct nodes and a silent one. All definitions evaluate. *)

From S2P Require Import Prelude Bytes RlpEncode RlpDecode RlpCanonical Types ValidatorSet Messages MessageSet.
From S2P Require Import MsgStorage Timeout Core Consensus Handler Spec Refinement Simulation.
From S2P Require Import EventSim Safety Termination.

(** ** A queue: a list sorted by height *)
Fixpoint put_sorted (x : msgItem) (l : list msgItem) : list msgItem :=
  match l with
  | [] => [x]
  | y :: l' => if mi_height x <=? mi_height y then x :: l else y :: put_sorted x l'
  end.

Lemma put_sorted_perm x l : put_sorted x l ≡ₚ x :: l.
Proof. induction l as [|y l IH]; simpl; [done|]. case_match; [done|]. rewrite IH. apply Permutation_swap. Qed.

Definition item_le (x y : msgItem) : Prop := mi_height x <= mi_height y.

Lemma put_sorted_sorted x l : StronglySorted item_le l -> StronglySorted item_le (put_sorted x l).
Proof.
  induction 1 as [|y l Hs IH Hy]; simpl; [by repeat constructor|].
  destruct (Z.leb_spec (mi_height x) (mi_height y)) as [Hle|Hlt].
  - constructor; [by constructor|]. constructor; [done|].
    eapply Forall_impl; [exact Hy|]. unfold item_le. intros u Hu. lia.
  - constructor; [done|]. rewrite put_sorted_perm. constructor; [unfold item_le; lia|done].
Qed.

Definition sorted_queue : Type := { l : list msgItem | StronglySorted item_le l }.

Definition queue_tail (q : sorted_queue) : sorted_queue.
Proof. destruct q as [[|x l] H]; [exact ([] ↾ H)|]. exists l. by inversion H. Defined.

#[export] Instance demo_queue : PriorityQueue := {|
  PQ := sorted_queue;
  pq_New := [] ↾ SSorted_nil _;
  pq_Put := fun x q => put_sorted x (`q) ↾ put_sorted_sorted x _ (proj2_sig q);
  pq_Peek := fun q => head (`q);
  pq_Get1 := queue_tail;
  pq_Len := fun q => length (`q)
|}.

#[export] Instance demo_queue_laws : PriorityQueueLaws demo_queue.
Proof.
  refine {| pq_items := fun q : PQ => `q |}; try done.
  - intros x [l H]. apply put_sorted_perm.
  - intros [[|y l] H] x Hx; [done|]. apply (inj Some) in Hx as ->. done.
  - intros [[|y l] H] Hx; done.
  - intros [[|x' l] H] x y Hx Hy; [done|]. apply (inj Some) in Hx as ->. unfold Compare.
    assert (Hle : mi_height x <= mi_height y).
    { inversion H as [|? ? _ Hall]; subst. apply elem_of_cons in Hy as [->|Hy]; [lia|].
      rewrite Forall_forall in Hall. by apply Hall. }
    rewrite (proj2 (Z.ltb_ge _ _)) by lia. by case_match.
Defined.

(** ** A backend: validator [k] of the four, on a chain whose head is block 6 *)
#[export] Existing Instance demo_crypto.
#[export] Existing Instance demo_crypto_laws.

Definition demo_head : Block :=
  MkBlock (MkHeader zeroHash zeroHash zeroAddress zeroHash zeroHash zeroHash (mk_bytesN _ []) (Some 1) (Some 6)
             1000 10 1600000000 [] zeroHash (mk_bytesN _ [])) [] [].

Definition demo_block : Block := MkBlock demo_header [] [].

Definition demo_backend (a : Address) : Backend := {|
  be_key := a : @PrivateKey demo_crypto;
  be_config := DefaultConfig;
  be_CurrentHeadBlock := fun _ => demo_head;
  be_Validators := fun _ _ => Some demo_set;
  be_VerifyProposalHeader := fun _ _ => Some ErrEmptyCommittedSeals;
  be_VerifyProposalBlock := fun _ _ => None;
  be_Now := fun n => Z.of_nat n;
  be_fakeProposal := fun _ p => p
|}.

Definition demo_vals : Z -> ValidatorSet := fun _ => demo_set.

#[export] Instance demo_backend_laws a : BackendLaws (demo_backend a) demo_vals.
Proof.
  split.
  - intros k n v Hv. by apply (inj Some) in Hv as <-.
  - intros k k' x x' _ Hx Hx'. unfold head_number in *. cbn in Hx, Hx'. simplify_eq. lia.
Qed.

(** ** Scripts for one node *)
Definition started (a : Address) : M (@core demo_queue) unit := Start (B := demo_backend a).

Definition run_events (a : Address) (evs : list event) : option core :=
  match started a (New_core false) with
  | Ok (_, c) => match handleEvents (B := demo_backend a) evs c with Ok (_, c') => Some c' | _ => None end
  | _ => None
  end.

Definition no_final (ev : event) : bool := match ev with FinalCommittedEvent _ => false | _ => true end.

Abbreviation anything := (fun (_ : Address) (_ : avote) => True).

Lemma run_events_reachable a evs c :
  run_events a evs = Some c -> forallb no_final evs = true -> reachable (B := demo_backend a) anything c.
Proof.
  unfold run_events. destruct (started a (New_core false)) as [[[] c0]| |] eqn:E; [|done..]. intros He Hf.
  assert (Hr : reachable (B := demo_backend a) anything c0) by by eapply reachable_start.
  clear E. revert c0 He Hr. induction evs as [|ev evs IH]; intros c0 He Hr.
  - cbn in He. by apply (inj Some) in He as <-.
  - cbn [handleEvents] in He. cbn [forallb] in Hf. apply andb_true_iff in Hf as [Hf1 Hf2].
    destruct (handleEvent (B := demo_backend a) ev c0) as [[[] c1]| |] eqn:E1; unfold mbind, M_bind in He; rewrite E1 in He; [|done..].
    apply (IH Hf2 c1 He). eapply reachable_event; [exact Hr| |exact E1]. by destruct ev.
Qed.

(** A vote of validator [k], as it travels. *)
Definition demo_vote_msg (k code : Z) (block : option Block) (r : Z) : event :=
  MessageEvent (default [] (vote_payload (B := demo_backend (BigToAddress k)) code block 7 r)).

Definition demo_proposal_msg (k r pol : Z) : event :=
  MessageEvent (match encode (proposal_gval (MkProposal demo_block r pol)) with
                | inl _ => []
                | inr data => match FinalizeMsg (B := demo_backend (BigToAddress k)) msgPropose data with
                              | inl _ => [] | inr p => p end
                end).

Definition demo_timeout (r step : Z) : event := TimeoutEvent (MkTimeout 0 7 r step 0).

(** A height decided in its first round. *)
Definition demo_commit_events : list event :=
  [NewBlockEvent demo_block; demo_timeout 0 RoundStepNewHeight; demo_proposal_msg 11 0 (-1)]
  ++ ((fun k => demo_vote_msg k msgPrevote (Some demo_block) 0) <$> [11; 12; 13])
  ++ ((fun k => demo_vote_msg k msgPrecommit (Some demo_block) 0) <$> [11; 12; 13]).

(** A lock of the first round, released in the second by a polka for no block. *)
Definition demo_lock_events : list event :=
  [NewBlockEvent demo_block; demo_timeout 0 RoundStepNewHeight; demo_proposal_msg 11 0 (-1)]
  ++ ((fun k => demo_vote_msg k msgPrevote (Some demo_block) 0) <$> [11; 12; 13])
  ++ ((fun k => demo_vote_msg k msgPrecommit None 0) <$> [12; 13; 14])
  ++ ((fun k => demo_vote_msg k msgPrevote None 1) <$> [12; 13; 14])
  ++ [demo_timeout 1 RoundStepPropose].

(** ** Scripts for a network *)
Definition demo_honest : gset Address := list_to_set (BigToAddress <$> [11; 12; 13]).

Inductive action : Type :=
  | Boot
  | Feed (ev : event)                     (* a timeout or a new block *)
  | Deliver (from : Address) (code : Z).  (* the latest message of that kind *)

Fixpoint latest (code : Z) (log : list effect) : option (Z * Z * bytes) :=
  match log with
  | [] => None
  | EBroadcast n r k p :: l => if k =? code then Some (n, r, p) else latest code l
  | _ :: l => latest code l
  end.

Lemma latest_in code log n r p : latest code log = Some (n, r, p) -> EBroadcast n r code p ∈ log.
Proof.
  induction log as [|e log IH]; [done|]. cbn [latest].
  destruct e as [n' r' k q| | | | | | |]; try (intros Hl; right; by apply IH).
  destruct (Z.eqb_spec k code) as [->|]; [intros [= -> -> ->]; by left|]. intros Hl. right. by apply IH.
Qed.

(** The message is what its sender broadcast, and the vote in it is of the height and
    round it was broadcast for. *)
Definition own_message (from : Address) (n r code : Z) (p : bytes) : bool :=
  match decode_message p with
  | inl _ => false
  | inr m =>
      (m_Code m =? code) && negb (code =? msgCatchUpReply)
      && match GetAddressFromSignature m with inl _ => false | inr a => bool_decide (a = from) end
      && (negb ((code =? msgPrevote) || (code =? msgPrecommit))
          || match decode_vote (m_Msg m) with
             | inl _ => false
             | inr v => (v_BlockNumber v =? n) && (v_Round v =? r)
             end)
  end.

Abbreviation net_state := (gmap Address core).

Definition handle_at (net : net_state) (a : Address) (ev : event) : option net_state :=
  c ← net !! a;
  match handleEvent (B := demo_backend a) ev c with Ok (_, c') => Some (<[a := c']> net) | _ => None end.

Definition net_step (net : net_state) (x : Address * action) : option net_state :=
  let a := x.1 in
  match x.2 with
  | Boot =>
      if bool_decide (a ∈ demo_honest) && bool_decide (net !! a = None (A := core)) then
        match started a (New_core false) with Ok (_, c) => Some (<[a := c]> net) | _ => None end
      else None
  | Feed (NewBlockEvent b) => handle_at net a (NewBlockEvent b)
  | Feed (TimeoutEvent ti) => handle_at net a (TimeoutEvent ti)
  | Feed _ => None
  | Deliver from code =>
      cf ← net !! from;
      '(n, r, p) ← latest code (c_log cf);
      if own_message from n r code p then handle_at net a (MessageEvent p) else None
  end.

Fixpoint net_run (xs : list (Address * action)) (net : net_state) : option net_state :=
  match xs with
  | [] => Some net
  | x :: l => net' ← net_step net x; net_run l net'
  end.

Lemma own_message_unforged net from cf n r code p :
  net !! from = Some cf -> EBroadcast n r code p ∈ c_log cf -> own_message from n r code p = true ->
  unforged demo_honest net p.
Proof.
  intros Hcf Hin Hown m m' b v Hm Hw Hb Hsig Hcode Hv. unfold own_message in Hown. rewrite Hm in Hown.
  apply andb_true_iff in Hown as [[[H1%Z.eqb_eq H2]%andb_true_iff H3]%andb_true_iff H4].
  destruct Hw as [m|m reply q sub m' Hreply]; [|rewrite <- H1, Hreply in H2; done]. subst code.
  rewrite Hsig in H3. apply bool_decide_eq_true in H3 as ->.
  replace ((m_Code m =? msgPrevote) || (m_Code m =? msgPrecommit)) with true in H4
    by (symmetry; apply orb_true_iff; rewrite !Z.eqb_eq; done).
  cbn [negb orb] in H4. rewrite Hv in H4. apply andb_true_iff in H4 as [H4%Z.eqb_eq H5%Z.eqb_eq].
  exists cf, p, m. subst n r. done.
Qed.

Lemma net_step_run net x net' :
  net_step net x = Some net' -> run demo_honest demo_backend net -> run demo_honest demo_backend net'.
Proof.
  destruct x as [a [|ev|from code]]; unfold net_step; cbn [fst snd].
  - case_match eqn:E; [|done]. apply andb_true_iff in E as [Ha%bool_decide_eq_true Hn%bool_decide_eq_true].
    destruct (started a (New_core false)) as [[[] c]| |] eqn:Es; [|done..]. intros [= <-] Hr.
    by eapply run_start.
  - assert (Hh : forall ev, (match ev with NewBlockEvent _ | TimeoutEvent _ => True | _ => False end) ->
      handle_at net a ev = Some net' -> run demo_honest demo_backend net -> run demo_honest demo_backend net').
    { intros e He Hh Hr. unfold handle_at in Hh. destruct (net !! a) as [c|] eqn:Ec; [|done]. cbn in Hh.
      destruct (handleEvent (B := demo_backend a) e c) as [[[] c']| |] eqn:E; [|done..].
      apply (inj Some) in Hh as <-. eapply run_event; [exact Hr|exact Ec| |exact E]. by destruct e. }
    destruct ev; try done; by apply Hh.
  - destruct (net !! from) as [cf|] eqn:Ecf; [|done]. cbn.
    destruct (latest code (c_log cf)) as [[[n r] p]|] eqn:El; [|done]. cbn.
    destruct (own_message from n r code p) eqn:Eo; [|done]. intros Hh Hr. unfold handle_at in Hh.
    destruct (net !! a) as [c|] eqn:Ec; [|done]. cbn [mbind option_bind] in Hh.
    destruct (handleEvent (B := demo_backend a) (MessageEvent p) c) as [[[] c']| |] eqn:E; [|done..].
    apply (inj Some) in Hh as <-. eapply run_event; [exact Hr|exact Ec| |exact E].
    exact (own_message_unforged net from cf n r code p Ecf (latest_in _ _ _ _ _ El) Eo).
Qed.

Lemma net_run_run xs net net' :
  net_run xs net = Some net' -> run demo_honest demo_backend net -> run demo_honest demo_backend net'.
Proof.
  revert net. induction xs as [|x xs IH]; intros net; cbn [net_run]; [by intros [= <-]|].
  destruct (net_step net x) as [net1|] eqn:E; [|done]. cbn. intros Hn Hr. apply (IH net1 Hn).
  by eapply net_step_run.
Qed.

(** Three nodes decide a block: each message is delivered to each of them. *)
Definition to_all (act : Address -> list action) : list (Address * action) :=
  concat ((fun a => pair a <$> act a) <$> (BigToAddress <$> [11; 12; 13])).

Definition from_all (code : Z) : list action := (fun k => Deliver (BigToAddress k) code) <$> [11; 12; 13].

Definition demo_script : list (Address * action) :=
  to_all (fun _ => [Boot; Feed (NewBlockEvent demo_block); Feed (demo_timeout 0 RoundStepNewHeight)])
  ++ to_all (fun _ => [Deliver (BigToAddress 11) msgPropose])
  ++ to_all (fun _ => from_all msgPrevote)
  ++ to_all (fun _ => from_all msgPrecommit).

Definition demo_net : net_state := default ∅ (net_run demo_script ∅).
Definition demo_node (k : Z) : core := default (New_core false) (demo_net !! BigToAddress k).

Definition first_commit (log : list effect) : option Block := head (omap commit_of log).
Definition demo_committed (k : Z) : Block := default demo_head (first_commit (c_log (demo_node k))).

Lemma first_commit_in log b : first_commit log = Some b -> ECommit b ∈ log.
Proof.
  unfold first_commit. intros Hh. apply head_Some_elem_of, list_elem_of_omap in Hh as (e & He & Hc).
  destruct e; try done. by apply (inj Some) in Hc as ->.
Qed.

(** A value of an option known not to be empty. *)
Lemma default_Some {A} (d : A) (x : option A) : bool_decide (is_Some x) = true -> x = Some (default d x).
Proof. by destruct x. Qed.

Lemma demo_node_Some k : bool_decide (is_Some (demo_net !! BigToAddress k)) = true ->
  demo_net !! BigToAddress k = Some (demo_node k).
Proof. exact (default_Some (New_core false) (demo_net !! BigToAddress k)). Qed.

Lemma demo_net_Some : bool_decide (is_Some (net_run demo_script ∅)) = true -> net_run demo_script ∅ = Some demo_net.
Proof. exact (default_Some ∅ (net_run demo_script ∅)). Qed.

Lemma demo_committed_in k : bool_decide (is_Some (first_commit (c_log (demo_node k)))) = true ->
  ECommit (demo_committed k) ∈ c_log (demo_node k).
Proof. intros H. exact (first_commit_in _ _ (default_Some demo_head (first_commit (c_log (demo_node k))) H)). Qed.

Lemma demo_few_faulty n : 0 <= n < 2 ^ 64 -> few_faulty demo_vals demo_honest n.
Proof.
  intros Hn. split; [done|]. split; [|split; [done|]].
  - apply (bool_decide_unpack _). vm_compute. exact I.
  - apply Z.leb_le. vm_compute. reflexivity.
Qed.

(** ** Witnesses *)
Definition demo_core (evs : list event) : core := default (New_core false) (run_events (BigToAddress 11) evs).

Lemma demo_core_reachable evs :
  bool_decide (is_Some (run_events (BigToAddress 11) evs)) && forallb no_final evs = true ->
  reachable (B := demo_backend (BigToAddress 11)) anything (demo_core evs).
Proof.
  intros [H1 H2]%andb_true_iff.
  exact (run_events_reachable _ _ _ (default_Some (New_core false) (run_events (BigToAddress 11) evs) H1) H2).
Qed.

Lemma core_refines_spec_witness :
  exists n vs ds, steps_to demo_vals anything (initial_node n) (abs (demo_core demo_commit_events) vs ds) /\
    length vs = 2%nat /\ length ds = 1%nat.
Proof.
  destruct (core_refines_spec (B := demo_backend (BigToAddress 11)) demo_vals anything (demo_core demo_commit_events))
    as (n & vs & ds & Hs & Hv & Hd).
  - apply demo_core_reachable. vm_compute. reflexivity.
  - exists n, vs, ds. split; [exact Hs|].
    rewrite <- (Forall2_length _ _ _ Hv), <- (Forall2_length _ _ _ Hd). split; vm_compute; reflexivity.
Defined.

Lemma no_double_vote_witness :
  NoDup (slot_of <$> omap vote_of (c_log (demo_core demo_lock_events))) /\
  slot_of <$> omap vote_of (c_log (demo_core demo_lock_events))
    = [(7, 1, msgPrevote); (7, 0, msgPrecommit); (7, 0, msgPrevote)].
Proof.
  split; [|vm_compute; reflexivity].
  apply (no_double_vote (B := demo_backend (BigToAddress 11)) demo_vals).
  apply demo_core_reachable. vm_compute. reflexivity.
Defined.

(** The two votes of [demo_lock_events] at issue, and the rest of the log. *)
Abbreviation lock_log := (c_log (demo_core demo_lock_events)).
Definition payload_at (i : nat) : bytes :=
  match lock_log !! i with Some (EBroadcast _ _ _ p) => p | _ => [] end.

Lemma head_drop {A} (l : list A) e : l !! 0%nat = Some e -> l = [] ++ e :: drop 1 l.
Proof. destruct l; [done|]. by intros [= ->]. Qed.

Lemma elem_of_drop {A} (l : list A) i k e : (i <= k)%nat -> l !! k = Some e -> e ∈ drop i l.
Proof.
  intros Hk Hl. apply (list_elem_of_lookup_2 _ (k - i)). rewrite lookup_drop.
  by replace (i + (k - i))%nat with k by lia.
Qed.

Lemma lock_log_at i n r code :
  match lock_log !! i with Some (EBroadcast n' r' code' _) => (n' =? n) && (r' =? r) && (code' =? code) | _ => false end = true ->
  lock_log !! i = Some (EBroadcast n r code (payload_at i)).
Proof.
  unfold payload_at. destruct (lock_log !! i) as [[n' r' code' p| | | | | | |]|]; try done.
  by intros [[->%Z.eqb_eq ->%Z.eqb_eq]%andb_true_iff ->%Z.eqb_eq]%andb_true_iff.
Qed.


Lemma commit_has_quorum_witness :
  let c := demo_core demo_commit_events in
  let b := default demo_head (first_commit (c_log c)) in
  exists n r p seals hd, Block_Number p = Some n /\ committed demo_vals anything n r (Block_Hash p) /\
    Block_Hash p <> zeroHash /\ WriteCommittedSeals (Block_Header p) seals = inr hd /\ b = WithSeal p hd.
Proof.
  intros c b. apply (commit_has_quorum (B := demo_backend (BigToAddress 11)) demo_vals anything c).
  - apply demo_core_reachable. vm_compute. reflexivity.
  - apply first_commit_in. apply (default_Some demo_head (first_commit (c_log c))). vm_compute. reflexivity.
Defined.

Lemma agreement_witness :
  exists p1 p2 seals1 seals2 hd1 hd2,
    WriteCommittedSeals (Block_Header p1) seals1 = inr hd1 /\ demo_committed 12 = WithSeal p1 hd1 /\
    WriteCommittedSeals (Block_Header p2) seals2 = inr hd2 /\ demo_committed 13 = WithSeal p2 hd2 /\
    Block_Hash p1 = Block_Hash p2 /\
    (sealable (b_header p1) seals1 -> sealable (b_header p2) seals2 ->
     Block_Hash (demo_committed 12) = Block_Hash (demo_committed 13)).
Proof.
  apply (agreement demo_vals demo_honest demo_backend demo_net (BigToAddress 12) (BigToAddress 13)
           (demo_node 12) (demo_node 13) _ _ 7).
  - intros a _. apply demo_backend_laws.
  - apply (net_run_run demo_script ∅); [|apply run_empty].
    apply demo_net_Some. vm_compute. reflexivity.
  - apply demo_few_faulty. lia.
  - apply demo_node_Some. vm_compute. reflexivity.
  - apply demo_node_Some. vm_compute. reflexivity.
  - apply demo_committed_in. vm_compute. reflexivity.
  - apply demo_committed_in. vm_compute. reflexivity.
  - vm_compute. reflexivity.
  - vm_compute. reflexivity.
Defined.

Lemma events_terminate_witness :
  (Start (B := demo_backend (BigToAddress 11));; handleEvents (B := demo_backend (BigToAddress 11)) demo_lock_events)
    (New_core true) <> OutOfFuel.
Proof. exact (events_terminate (B := demo_backend (BigToAddress 11)) true demo_lock_events). Defined.
