(* ===== verification/EngineDemo.v ===== *)
(** * Instances of the engine's theorems

    A small chain, the storage of a staking contract and the states of the core used to
    show that the hypotheses of the theorems on headers, proposals, commits and rewards
    can be met together. *)

From S2P Require Import Prelude Bytes RlpEncode RlpDecode RlpCanonical Types Fallible ValidatorSet Messages MessageSet MsgStorage.
From S2P Require Import Timeout Engine Staking Proposer Reward Core Consensus Finalize Handler Spec Refinement Simulation EventSim Safety Demo.

(** ** Headers and their seals *)
Definition demo_seal (k : Z) : bytes := replicate 45 (byte_of_Z 0) ++ bytes_of (BigToAddress k).

Definition demo_sealed (ks : list Z) : Header :=
  match WriteCommittedSeals demo_header (demo_seal <$> ks) with inr h => h | inl _ => demo_header end.

Lemma demo_set_NoDup : NoDup (vs_validators demo_set).
Proof. apply (bool_decide_unpack _). vm_compute. exact I. Qed.

Lemma verifyCommittedSeals_spec_witness :
  exists r, verifyCommittedSeals (demo_sealed [12; 13; 14]) demo_set = Ok r /\ r = inr tt /\
    sealed_by_quorum (demo_sealed [12; 13; 14]) demo_set.
Proof.
  destruct (verifyCommittedSeals_spec (demo_sealed [12; 13; 14]) demo_set) as (r & Hr & Hiff & _).
  - apply demo_set_NoDup.
  - vm_compute. discriminate.
  - assert (r = inr tt) as ->.
    { assert (Hx : verifyCommittedSeals (demo_sealed [12; 13; 14]) demo_set = Ok (inr tt)) by (vm_compute; reflexivity).
      rewrite Hx in Hr. by injection Hr as <-. }
    exists (inr tt). split; [exact Hr|]. split; [reflexivity|]. by apply Hiff.
Defined.

Lemma sealed_headers_overlap_witness :
  exists S : gset Address, F demo_set < Z.of_nat (size S) /\ forall a, a ∈ S -> a ∈ vs_validators demo_set.
Proof.
  destruct (sealed_headers_overlap (demo_sealed [12; 13; 14]) (demo_sealed [11; 12; 13]) demo_set) as (S & Hs & Ha).
  - apply demo_set_NoDup.
  - vm_compute. discriminate.
  - vm_compute. reflexivity.
  - vm_compute. reflexivity.
  - exists S. split; [exact Hs|]. intros a Hin. by apply Ha.
Defined.

(** ** A chain with epochs of two blocks *)
Definition demo_cfg : Config :=
  MkConfig RoundRobin 2 (Some (BigToAddress 100)) 1 3000 500 1000 500 1000 500 1000 None (Some 1000) 0 false.

Definition demo_validators : list Address := BigToAddress <$> [11; 12; 13; 14].

Definition chain_header (parent : Hash) (number : Z) : Header :=
  let h := MkHeader parent zeroHash (BigToAddress 12) zeroHash zeroHash zeroHash (mk_bytesN _ []) (Some 1) (Some number)
             1000 10 (1600000000 + number) (h_Extra demo_header) TendermintDigest (mk_bytesN _ []) in
  if number mod 2 =? 0 then match WriteValSet h demo_validators with inr h' => h' | inl _ => h end else h.

Fixpoint chain_upto (n : nat) : list Header :=
  match n with
  | O => [chain_header zeroHash 0]
  | S m =>
      match chain_upto m with
      | h :: l => chain_header (Header_Hash h) (Z.of_nat n) :: h :: l
      | [] => []
      end
  end.

Definition chain_at (top : nat) (number : Z) : option Header :=
  find (fun h => bool_decide (h_Number h = Some number)) (chain_upto top).

(** The node knows the chain up to a height; the state of every root is the same. *)
Definition demo_chain (top : nat) : ChainReader := {|
  ch_CurrentHeader := default demo_header (head (chain_upto top));
  ch_GetHeader := fun hash number =>
    match chain_at top number with
    | Some h => if bool_decide (Header_Hash h = hash) then Some h else None
    | None => None
    end;
  ch_GetHeaderByNumber := chain_at top
|}.

(** Header 5 of a batch 3, 4, 5, when the node is at height 2. *)
Lemma getValSetFromChain_checkpoint_witness :
  let hs := chain_upto 5 in
  let header := default demo_header (hs !! 0%nat) in
  let last := default demo_header (hs !! 1%nat) in
  GetCheckpointNumber 2 5 = Ok 4 /\ h_Number last = Some 4 /\
  getValSetFromChain (Ch := demo_chain 2) demo_cfg header [default demo_header (hs !! 2%nat); last]
  = (validators ← check (GetValSetAddresses last); returns (NewSet validators RoundRobin 5)).
Proof.
  intros hs header last.
  destruct (getValSetFromChain_checkpoint (Ch := demo_chain 2) demo_cfg header 5 2
              [default demo_header (hs !! 2%nat); last] [] last) as (H1 & H2 & H3 & _).
  - vm_compute. by split.
  - vm_compute. reflexivity.
  - lia.
  - reflexivity.
  - vm_compute. reflexivity.
  - vm_compute. split; [discriminate|reflexivity].
  - cbn [app ancestors]. split; [vm_compute; reflexivity|]. split; [vm_compute; reflexivity|]. split; [vm_compute; reflexivity|exact I].
  - vm_compute. reflexivity.
  - split; [exact H1|]. split; [exact H2|]. exact H3.
Defined.

(** ** A staking contract in storage *)
Section storage.
Context (cfg : IndexConfigs).

Definition store_array (slot : Hash) (l : list Address) : list (Hash * Hash) :=
  (slot, BigToHash (Z.of_nat (length l))) :: imap (fun i a => (sol_element slot i, Address_Hash a)) l.

Definition store_candidate (a : Address) (c : Candidate) : list (Hash * Hash) :=
  let field l := sol_field (sol_value (sol_variable (lo_Slot (CandidateDataLayout cfg))) a) (lo_Slot l) in
  [(field (si_Owner (CandidateDataStruct cfg)), Address_Hash (cs_owner c));
   (field (si_TotalStake (CandidateDataStruct cfg)), BigToHash (cs_total c))]
  ++ store_array (sol_value (sol_variable (lo_Slot (CandidateVotersLayout cfg))) a) (cs_voters c).*1
  ++ ((fun x => (sol_value (field (si_VotersStakes (CandidateDataStruct cfg))) x.1, BigToHash x.2)) <$> cs_voters c).

Definition store_contract (ct : Contract) : list (Hash * Hash) :=
  store_array (sol_variable (lo_Slot (CandidatesLayout cfg))) (ct_candidates ct).*1
  ++ (ct_candidates ct ≫= fun x => store_candidate x.1 x.2)
  ++ [(sol_variable (lo_Slot (MaxValidatorSizeLayout cfg)), BigToHash (ct_max ct));
      (sol_variable (lo_Slot (MinValidatorStakeLayout cfg)), BigToHash (ct_min ct));
      (sol_variable (lo_Slot (StartBlockLayout cfg)), BigToHash (ct_start ct));
      (sol_variable (lo_Slot (EpochPeriodLayout cfg)), BigToHash (ct_period ct));
      (sol_variable (lo_Slot (MinVoterCapLayout cfg)), BigToHash (ct_cap ct));
      (sol_variable (lo_Slot (AdminLayout cfg)), Address_Hash (ct_admin ct))].
End storage.

Definition state_of (entries : list (Hash * Hash)) : StateReader := {|
  st_GetState := fun _ loc => default zeroHash (snd <$> find (fun e => bool_decide (e.1 = loc)) entries);
  st_GetCode := fun _ => [byte_of_Z 96]
|}.

Definition demo_candidate (owner stake : Z) : Candidate :=
  MkCandidateState (BigToAddress owner) (stake + 4) [(BigToAddress owner, stake); (BigToAddress 30, 4)].

(** Three candidates; the first has less than the least stake of a validator. *)
Definition demo_contract (max : Z) : Contract :=
  MkContract [(BigToAddress 11, demo_candidate 21 5); (BigToAddress 12, demo_candidate 22 20);
              (BigToAddress 13, demo_candidate 23 15)] 1 2 max 10 1 (BigToAddress 40).

Definition demo_state (max : Z) : StateReader := state_of (store_contract DefaultIndexConfigs (demo_contract max)).

Lemma demo_represents : represents (S := demo_state 1) DefaultIndexConfigs (BigToAddress 100) (demo_contract 1).
Proof.
  assert (Harr : forall i a (l : list Address) slot,
    forallb (fun x => bool_decide (st_GetState (StateReader := demo_state 1) (BigToAddress 100)
      (sol_element slot x.1) = Address_Hash x.2)) (imap pair l) = true ->
    l !! i = Some a -> holds_address (S := demo_state 1) (BigToAddress 100) (sol_element slot i) a).
  { intros i a l slot Hall Hi. rewrite forallb_forall in Hall. specialize (Hall (i, a)).
    unfold holds_address. apply bool_decide_eq_true in Hall; [exact Hall|]. apply list_elem_of_In, (list_elem_of_lookup_2 _ i).
    rewrite list_lookup_imap, Hi. reflexivity. }
  split_and!.
  - split; [done|]. split; [by vm_compute|]. intros i a. apply Harr. vm_compute. reflexivity.
  - intros a c Hin. repeat (apply elem_of_cons in Hin as [[= -> ->]|Hin]; [|]); [..|by apply elem_of_nil in Hin];
      (split; [by vm_compute|]; split; [by vm_compute|]; split;
       [split; [done|]; split; [by vm_compute|]; intros i b; apply Harr; vm_compute; reflexivity|];
       intros v s Hv; repeat (apply elem_of_cons in Hv as [[= -> ->]|Hv]; [by vm_compute|]); by apply elem_of_nil in Hv).
  - by vm_compute.
  - by vm_compute.
  - by vm_compute.
  - by vm_compute.
  - by vm_compute.
  - by vm_compute.
Qed.

(** With room for one validator, the code returns the candidate that has not enough
    stake. *)
Lemma staking_refines_witness :
  GetValidators (S := demo_state 1) DefaultIndexConfigs (BigToAddress 100) = mret (Some [BigToAddress 11]) /\
  qualified (demo_contract 1) = [BigToAddress 12; BigToAddress 13].
Proof.
  split; [|vm_compute; reflexivity].
  destruct (staking_refines (S := demo_state 1) DefaultIndexConfigs (BigToAddress 100) (demo_contract 1)) as (_ & _ & H & _).
  - apply demo_represents.
  - reflexivity.
  - discriminate.
  - exact H.
Defined.

(** ** A proposal that ends an epoch *)
#[local] Instance demo_cache : ValSetCache := {|
  vcache := list (Z * option (list Address));
  vc_Get := fun k c => (snd <$> find (fun e => e.1 =? k) c, c);
  vc_Add := fun k x c => (k, x) :: c
|}.

#[local] Instance demo_cache_laws : ValSetCacheLaws demo_cache.
Proof.
  refine (Build_ValSetCacheLaws demo_cache (fun c k x => (k, x) ∈ (c : list (Z * option (list Address)))) _ _ _).
  - intros k c x c' H. cbn in H. injection H as H _.
    destruct (find _ c) as [[k' y]|] eqn:E; [|done]. apply (inj Some) in H as <-.
    apply find_some in E as [Hin Hk%Z.eqb_eq]. cbn in Hk. subst k'. by apply list_elem_of_In.
  - intros k c r c' k' y H Hin. cbn in H. injection H as _ <-. done.
  - intros k x c k' y [[= -> ->]|Hin]%elem_of_cons; [by left|by right].
Defined.

#[local] Instance demo_full : FullChainReader := {|
  fc_ChainReader := demo_chain 3;
  fc_StateAt := fun _ => inr (demo_state 3)
|}.

Definition no_evm : StateReader -> Header -> Address -> fallible (option (list Address)) := fun _ _ _ => fail ErrNoCode.

Definition demo_parent : Header := default demo_header (head (chain_upto 3)).

Lemma demo_next_block :
  next_block demo_cfg DefaultIndexConfigs no_evm (chain_at 3) 4 demo_parent (BigToAddress <$> [12; 13]).
Proof.
  split; try lia; try (vm_compute; reflexivity).
  - vm_compute. by split.
  - vm_compute. by split.
Qed.

Definition empty_cache : vcache := @nil (Z * option (list Address)).

Lemma valid_cache_empty chain : valid_cache demo_cfg DefaultIndexConfigs no_evm chain empty_cache.
Proof. intros k x Hx. by apply elem_of_nil in Hx. Qed.

Lemma getNextValidatorSet_cached_witness :
  exists rs c', mapM (getNextValidatorSet demo_cfg DefaultIndexConfigs no_evm) [demo_parent; demo_parent] empty_cache = Ok (rs, c') /\
    rs = replicate 2 (inr (Some (BigToAddress <$> [12; 13]))).
Proof.
  destruct (getNextValidatorSet_cached demo_cfg DefaultIndexConfigs no_evm (chain_at 3) empty_cache [demo_parent; demo_parent])
    as (rs & c' & Hm & He).
  - apply valid_cache_empty.
  - repeat constructor; exists 3, (inr (Some (BigToAddress <$> [12; 13]))); (split; [vm_compute; reflexivity|]);
      (split; [vm_compute; reflexivity|]); vm_compute; reflexivity.
  - exists rs, c'. split; [exact Hm|]. apply (inj (fmap Ok)). rewrite He. vm_compute. reflexivity.
Defined.

Definition demo_key : @PrivateKey demo_crypto := BigToAddress 12.

Definition demo_proposal_header : Header :=
  MkHeader (Header_Hash demo_parent) zeroHash zeroAddress zeroHash zeroHash zeroHash (mk_bytesN _ []) None (Some 4)
    1000 0 0 [] zeroHash (mk_bytesN _ []).


(** ** Commits with good and bad seals *)

(** A precommit with a seal of the sender's choice. *)
Definition demo_precommit (k : Z) (seal : bytes) : event :=
  MessageEvent (match encode (vote_gval (MkVote (Block_Hash demo_block) 7 0 seal)) with
                | inl _ => []
                | inr data => match FinalizeMsg (B := demo_backend (BigToAddress k)) msgPrecommit data with
                              | inl _ => [] | inr p => p end
                end).

(** All the precommits of a node that has not got the proposal yet. *)
Definition late_events (seal : bytes) : list event :=
  demo_timeout 0 RoundStepNewHeight
  :: ((fun k => demo_vote_msg k msgPrecommit (Some demo_block) 0) <$> [12; 13]) ++ [demo_precommit 14 seal].

Definition demo_proposal : Proposal := MkProposal demo_block 0 (-1).

(** Its state when it stores the proposal. *)
Definition late_core (seal : bytes) : core :=
  let c := demo_core (late_events seal) in set_state (SetProposalReceived (Some demo_proposal) (c_state c)) c.

Definition late_votes (seal : bytes) : messageSet :=
  default (newMessageSet demo_set msgPrecommit (MkView 0 0)) (rs_PrecommitsReceived (c_state (late_core seal)) !! 0).

Definition late_block_votes (seal : bytes) : blockVotes :=
  default (MkBlockVotes [] 0) (ms_voteByBlock (late_votes seal) !! Block_Hash demo_block).

Lemma demo_finalizing seal :
  (let c := late_core seal in
   (rs_commitRound (c_state c) =? 0) && bool_decide (c_valSet c = Some demo_set)
   && bool_decide (is_Some (rs_PrecommitsReceived (c_state c) !! 0))
   && bool_decide (is_Some (ms_voteByBlock (late_votes seal) !! Block_Hash demo_block))
   && (bv_totalReceived (late_block_votes seal) =? 3)
   && (Z.of_nat (length (omap id (bv_votes (late_block_votes seal)))) =? 3)) = true ->
  finalizing (late_core seal) demo_proposal demo_set (late_votes seal)
    (late_block_votes seal) (MkExtra [] [] []).
Proof.
  cbv zeta. intros [[[[[H1%Z.eqb_eq H2%bool_decide_eq_true]%andb_true_iff H3]%andb_true_iff H4]%andb_true_iff
    H5%Z.eqb_eq]%andb_true_iff H6%Z.eqb_eq]%andb_true_iff.
  split.
  - exact H2.
  - rewrite H1. exact (default_Some _ _ H3).
  - exact (default_Some _ _ H4).
  - lia.
  - rewrite H5. by vm_compute.
  - by vm_compute.
  - by vm_compute.
  - by vm_compute.
  - by vm_compute.
  - by vm_compute.
Qed.

Lemma FinalizeBlock_seals_witness :
  exists b, FinalizeBlock demo_proposal (late_core (demo_seal 14)) = Ok (inr b, late_core (demo_seal 14)) /\
    Block_Hash b = Block_Hash demo_block /\ verifyCommittedSeals (b_header b) demo_set = Ok (inr tt).
Proof.
  destruct (FinalizeBlock_seals (late_core (demo_seal 14)) demo_proposal demo_set (late_votes (demo_seal 14))
              (late_block_votes (demo_seal 14)) (MkExtra [] [] [])) as [_ H].
  - apply demo_set_NoDup.
  - vm_compute. discriminate.
  - apply demo_finalizing. vm_compute. reflexivity.
  - revert H. set (seals := first_seals _ _).
    assert (seals = demo_seal <$> [12; 13; 14]) as -> by (vm_compute; reflexivity).
    rewrite decide_True by by repeat constructor. intros (b & H1 & H2 & _ & H3).
    exists b. split; [exact H1|]. split; [exact H2|]. apply H3. exists (BigToAddress <$> [12; 13; 14]).
    split; [repeat constructor|]. split; [apply (bool_decide_unpack _); vm_compute; exact I|].
    intros a Ha. apply (elem_of_submseteq _ _ _ Ha). apply (bool_decide_unpack _). vm_compute. exact I.
Defined.

Lemma bad_seal_panics_witness :
  finalizeCommit 7 (late_core []) = Panic.
Proof.
  apply (bad_seal_panics (late_core []) demo_proposal demo_set (late_votes []) (late_block_votes []) (MkExtra [] [] [])).
  - apply demo_finalizing. vm_compute. reflexivity.
  - assert (first_seals (MinMajority demo_set) (bv_votes (late_block_votes [])) = [demo_seal 12; demo_seal 13; []])
      as -> by (vm_compute; reflexivity).
    intros H. pose proof (Forall_lookup_1 _ _ 2%nat [] H eq_refl) as Hx. discriminate Hx.
  - vm_compute. reflexivity.
  - vm_compute. reflexivity.
  - reflexivity.
  - vm_compute. reflexivity.
  - vm_compute. discriminate.
Defined.

(** The same from the messages: node 11 has the proposal, its own precommit and those of
    12 and 13 are honest; an empty seal of 14 that comes before the one of 13 ends the
    node. *)
Definition halting_events : list event :=
  [NewBlockEvent demo_block; demo_timeout 0 RoundStepNewHeight; demo_proposal_msg 11 0 (-1)]
  ++ ((fun k => demo_vote_msg k msgPrevote (Some demo_block) 0) <$> [11; 12; 13])
  ++ ((fun k => demo_vote_msg k msgPrecommit (Some demo_block) 0) <$> [11; 12]).

Lemma committing_result (r : res (unit * core)) :
  match r with Ok (_, c) => bool_decide (is_Some (first_commit (c_log c))) | _ => false end = true ->
  exists c b, r = Ok (tt, c) /\ ECommit b ∈ c_log c.
Proof.
  destruct r as [[[] c]| |]; [|done..]. intros Hc. exists c. eexists. split; [done|].
  exact (first_commit_in _ _ (default_Some demo_head _ Hc)).
Qed.


(** ** Rewards *)
Definition demo_data (k : Z) : CandidateData := data_of (demo_candidate (10 + k) (2 * k)).

Definition demo_rewards : gmap Address Z := list_to_map [(BigToAddress 11, 1001); (BigToAddress 12, 2000)].

Lemma calculateReward_order_witness :
  calculateReward (fun m => reverse (map_to_list m)) [(BigToAddress 11, demo_data 11); (BigToAddress 12, demo_data 12)] demo_rewards
  = calculateReward map_to_list [(BigToAddress 12, demo_data 12); (BigToAddress 11, demo_data 11)] demo_rewards.
Proof.
  apply (calculateReward_order (fun m => reverse (map_to_list m)) map_to_list).
  - intros m. apply reverse_Permutation.
  - apply Permutation_swap.
Defined.

Lemma owner_share_witness :
  exists final remaining,
    pay_voters (1001 * voterRewardPercentage / 100) (cd_TotalStake (demo_data 11)) (map_to_list (cd_VoterStakes (demo_data 11))) ∅ 1001
      = Ok (final, remaining) /\
    1001 - 1001 * voterRewardPercentage / 100 <= remaining <= 1001 /\ map_Forall (fun _ s => 0 <= s) final.
Proof.
  apply (owner_share map_to_list 1001 (demo_data 11)).
  - intros m. reflexivity.
  - lia.
  - vm_compute. reflexivity.
  - apply (bool_decide_unpack _). vm_compute. exact I.
  - vm_compute. discriminate.
Defined.

(** Block 2 ends the first epoch of [demo_chain]; its proposers are all validator 12. *)
Definition demo_balances : gmap Address Z := {[ BigToAddress 30 := 7 ]}.

Abbreviation demo_payment :=
  (accumulateRewards demo_cfg 3 DefaultIndexConfigs map_to_list map_to_list (fun _ _ _ _ => inl ErrNoCode)
     (default demo_header (chain_at 3 2)) demo_balances).

Definition paid_balances : gmap Address Z := match demo_payment with Ok (inr m) => m | _ => ∅ end.

Lemma demo_payment_Ok :
  match demo_payment with Ok (inr m) => map_sum m =? 2067 | _ => false end = true -> demo_payment = Ok (inr paid_balances).
Proof. unfold paid_balances. by destruct demo_payment as [[]| |]. Qed.

