(* ===== verification/EvmDemo.v ===== *)
(** * A machine to evaluate

    A chain with all forks in force, a hash that tells codes of different lengths apart,
    and a state with an account and a contract. The theorems on the virtual machine are
    applied to calls of the contract. *)

From S2P Require Import Prelude Bytes RlpEncode RlpDecode RlpCanonical RlpRaw Types Params EvmData EvmBitmap StateDB StateRevert StateEffect StateDemo EvmCore EvmGas EvmOps JumpTable Precompiled Evm EvmSafe EvmArith EvmSafeLevel Staking.

(** ** Instances *)
Definition sized_hash (b : bytes) : Hash :=
  BigToHash (Z.of_nat (length b) * 2 ^ 32 + foldl (fun acc x => Z.land (31 * acc + Z_of_byte x + 1) (Z.ones 32)) 0 b).

Definition sized_crypto : Crypto := {|
  keccak256 := sized_hash;
  sha3_256 := sized_hash;
  PrivateKey := Address;
  PubkeyAddress := fun k => k;
  Sign := fun h k => Some (replicate 45 (byte_of_Z 0) ++ bytes_of k);
  SigToAddress := fun h sig => Some (BytesToAddress sig)
|}.

#[local] Existing Instance sized_crypto.

Definition demo_config : ChainConfig :=
  MkChainConfig (Some 15) None (Some 0) None false (Some 0) (Some 0) (Some 0) (Some 0) (Some 0) (Some 0) None.

#[local] Instance demo_environment : Environment := {|
  ctx_GetHash := fun _ => zeroHash; ctx_Origin := acct 1; ctx_GasPrice := 1; ctx_Coinbase := acct 29; ctx_GasLimit := 1000000;
  ctx_BlockNumber := 10; ctx_Time := 5; ctx_Difficulty := 1; chainConfig := demo_config; cfg_NoRecursion := false;
  cfg_EnablePreimageRecording := false
|}.

#[local] Instance demo_native : NativeCrypto := {|
  crypto_Ecrecover := fun _ _ => None; sha256_Sum256 := mk_bytesN 32; ripemd160_Sum := mk_bytesN 20; G1 := unit; G2 := unit;
  G1_Unmarshal := fun _ => Some tt; G2_Unmarshal := fun _ => Some tt; G1_Add := fun _ _ => tt; G1_ScalarMult := fun _ _ => tt;
  G1_Marshal := fun _ => mk_bytesN 64 []; PairingCheck := fun _ _ => true
|}.

Lemma mix_range b acc :
  0 <= acc < 2 ^ 32 -> 0 <= foldl (fun acc x => Z.land (31 * acc + Z_of_byte x + 1) (Z.ones 32)) acc b < 2 ^ 32.
Proof.
  revert acc. induction b as [|x b IH]; intros acc Hacc; [done|]. cbn [foldl]. apply IH. rewrite Z.land_ones by lia. by apply Z.mod_pos_bound.
Qed.

Lemma sized_hash_length b : bounded b -> Hash_Big (sized_hash b) / 2 ^ 32 = Z.of_nat (length b).
Proof.
  unfold bounded, sized_hash. intros Hb. pose proof (mix_range b 0 ltac:(lia)) as Hm. set (m := foldl _ 0 b) in *.
  rewrite Hash_Big_BigToHash by lia. symmetry. apply (Z.div_unique_pos _ _ _ m); lia.
Qed.

#[local] Instance demo_environment_ok : EnvironmentOk.
Proof.
  split; [done|reflexivity|]. intros c1 c2 H1 H2 H. change (sized_hash c1 = sized_hash c2) in H.
  apply Nat2Z.inj. by rewrite <- (sized_hash_length c1), <- (sized_hash_length c2), H.
Qed.

(** ** A contract

    It returns the sum of 3 and 4, in a word. *)
Definition adder : bytes := byte_of_Z <$> [0x60; 3; 0x60; 4; 0x01; 0x60; 0; 0x52; 0x60; 32; 0x60; 0; 0xf3].

(** It jumps to itself. *)
Definition looper : bytes := byte_of_Z <$> [0x5b; 0x60; 0; 0x56].

(** It writes to its storage. *)
Definition writer : bytes := byte_of_Z <$> [0x60; 1; 0x60; 2; 0x55].

Definition contract_object (a : Address) (code : bytes) : stateObject :=
  setCode (keccak256 code) (Some code) (newObject a (MkAccount 1 50 zeroHash emptyCodeHash None [])).

Definition evm_objects : gmap Address stateObject :=
  {[ acct 1 := newObject (acct 1) (MkAccount 5 100 zeroHash emptyCodeHash None []);
     acct 27 := contract_object (acct 27) adder; acct 28 := contract_object (acct 28) looper; acct 29 := contract_object (acct 29) writer ]}.

Definition evm_state : StateDB :=
  MkStateDB (MkMapDatabase ∅ ∅) (∅ : map_trie) evm_objects ∅ None 0 zeroHash zeroHash 0 ∅ 0 ∅ [] ∅ [] 0.

Lemma evm_objects_lookup a o :
  evm_objects !! a = Some o ->
  (a = acct 1 /\ o = newObject (acct 1) (MkAccount 5 100 zeroHash emptyCodeHash None [])) \/
  exists code, (code = adder \/ code = looper \/ code = writer) /\ o = contract_object a code.
Proof.
  unfold evm_objects. rewrite !lookup_insert_Some, lookup_singleton_Some. naive_solver.
Qed.

Lemma evm_find a : find_object evm_state a = evm_objects !! a.
Proof.
  unfold find_object. cbn [evm_state sdb_objects sdb_trie]. destruct (evm_objects !! a) as [o|] eqn:Eo; [|done].
  by destruct (evm_objects_lookup a o Eo) as [[-> ->]|(code & _ & ->)].
Qed.

Lemma evm_state_ok : state_ok evm_state.
Proof.
  split.
  - split; [|intros a o Ho|constructor|done].
    + intros a o. rewrite evm_find. intros [[-> ->]|(code & _ & ->)]%evm_objects_lookup; (split; [done|apply bytes_of_length]).
    + by destruct (evm_objects_lookup a o Ho) as [[-> ->]|(code & _ & ->)].
  - split; constructor.
  - intros a o. rewrite evm_find. intros [[-> ->]|(code & Hc & ->)]%evm_objects_lookup.
    + split; [done..|]. assert (En : eff_code (sdb_db evm_state) (newObject (acct 1) (MkAccount 5 100 zeroHash emptyCodeHash None [])) = None)
        by (vm_compute; reflexivity). intros c Ec. rewrite En in Ec. discriminate.
    + split; [done..|]. intros c Ec. change (Some code = Some c) in Ec. injection Ec as <-.
      split; [by destruct Hc as [-> | [-> | ->]]|]. symmetry. apply mk_bytesN_of.
  - done.
  - by intros j l.
Qed.

Definition evm_start : Evm := MkEvm evm_state 0 0 false [] ∅.

Lemma evm_start_ok : evm_ok evm_start.
Proof. split; [exact evm_state_ok| |done|done]. intros h a. cbn [evm_start evm_jumpdests]. by rewrite lookup_empty. Qed.

Definition call_outcome (r : res (call_result * Evm)) : option (Z * Z * option vm_error) :=
  match r with Ok ((ret, left_over, err), _) => Some (SetBytes (default [] ret), left_over, err) | _ => None end.
Definition create_outcome (r : res (create_result * Evm)) : option (Z * Z * option vm_error) :=
  match r with Ok ((ret, _, left_over, err), _) => Some (SetBytes (default [] ret), left_over, err) | _ => None end.




(** -7 divided by 2 is -3 on words of 256 bits. *)
Lemma binary_instructions_witness :
  Z.quot (signed (2 ^ 256 - 7)) (signed 2) mod 2 ^ 256 = 2 ^ 256 - 3 /\
  exists o, lookup_operation SDIV (jump_table no_calls) = Some o /\
    o_execute o (MkFrame 0 [2 ^ 256 - 7; 2] NewMemory (new_contract (AccountRef (acct 1)) (acct 27) None 0) evm_start) =
    Ok ((None, None), MkFrame 0 [Z.quot (signed (2 ^ 256 - 7)) (signed 2) mod 2 ^ 256] NewMemory
                        (new_contract (AccountRef (acct 1)) (acct 27) None 0) evm_start).
Proof.
  split; [vm_compute; reflexivity|]. eexists. split; [reflexivity|].
  apply (binary_instructions no_calls SDIV _ (fun x y => if y =? 0 then 0 else Z.quot (signed x) (signed y) mod modulus));
    [reflexivity|reflexivity|unfold word; lia|unfold word; lia].
Defined.
