(* ===== verification/ProcessorDemo.v ===== *)
(** * A block to process

    A chain whose signatures all have the same key, and a state with the account of that
    key and a contract that writes a log. The theorems on transactions, receipts and
    blocks are applied to a block with a call of the contract. *)

From S2P Require Import Prelude Bytes RlpEncode RlpDecode RlpCanonical RlpRaw TrieEncoding Types Messages Params EvmData EvmBitmap Fallible TrieNode Trie TriePure TrieHash TrieRefine TrieCommit TrieMap SecureTrie TrieProof TrieBinding StateDB StateRevert StateEffect StateFinal StateDemo EvmCore EvmGas EvmOps JumpTable Precompiled Evm EvmSafe EvmSafeGas EvmSafeOps EvmSafeMem EvmSafeCalls EvmSafePre EvmSafeRun EvmSafeLevel EvmDemo Signing Transition TransitionSafe Receipts ReceiptSpec Processor ProcessorSafe Validator.

(** ** Instances *)
#[local] Existing Instance sized_crypto.

Definition pubkey : bytesN 65 := mk_bytesN 65 ([byte_of_Z 4] ++ replicate 64 (byte_of_Z 9)).
Definition holder : Address := Eval vm_compute in BytesToAddress (drop 12 (bytes_of (sized_hash (drop 1 (bytes_of pubkey))))).

#[local] Instance key_native : NativeCrypto := {|
  crypto_Ecrecover := fun _ _ => Some pubkey; sha256_Sum256 := mk_bytesN 32; ripemd160_Sum := mk_bytesN 20; G1 := unit; G2 := unit;
  G1_Unmarshal := fun _ => Some tt; G2_Unmarshal := fun _ => Some tt; G1_Add := fun _ _ => tt; G1_ScalarMult := fun _ _ => tt;
  G1_Marshal := fun _ => mk_bytesN 64 []; PairingCheck := fun _ _ => true
|}.

Lemma map_insert_get (t : gmap bytes bytes) (a b : Address) v :
  (default [] (<[bytes_of a := v]> t !! bytes_of b), @None error) = if decide (a = b) then (v, None) else (default [] (t !! bytes_of b), None).
Proof.
  case_decide as Hab; [subst; by rewrite lookup_insert_eq|].
  by rewrite lookup_insert_ne by (intros E; apply Hab; by apply (inj bytes_of)).
Qed.

Lemma map_delete_get (t : gmap bytes bytes) (a b : Address) :
  (default [] (delete (bytes_of a) t !! bytes_of b), @None error) = if decide (a = b) then ([], None) else (default [] (t !! bytes_of b), None).
Proof.
  case_decide as Hab; [subst; by rewrite lookup_delete_eq|].
  by rewrite lookup_delete_ne by (intros E; apply Hab; by apply (inj bytes_of)).
Qed.

#[local] Instance map_trie_laws : TrieLaws (DB := demo_database).
Proof.
  refine (Build_TrieLaws demo_database (fun _ => True) _ _).
  - intros a v t _ _. exists (<[bytes_of a := v]> (t : map_trie)). split; [reflexivity|]. split; [exact I|]. intros b. apply map_insert_get.
  - intros a t _. exists (delete (bytes_of a) (t : map_trie)). split; [reflexivity|]. split; [exact I|]. intros b. apply map_delete_get.
Defined.

#[local] Instance demo_chain : ChainContext (DB := demo_database) := {|
  chain_GetHeader := fun _ _ => None; engine_Author := h_Coinbase; engine_Finalize := fun _ _ _ => mret None;
  engine_VerifyUncles := fun _ => None
|}.

#[local] Instance demo_store : BlockStore := {|
  HasBlock := fun _ _ => true; HasBlockAndState := fun _ n => n =? 9
|}.

(** ** The state *)
(** It writes a log with the topic 7. *)
Definition logger : bytes := byte_of_Z <$> [0x60; 7; 0x60; 0; 0x60; 0; 0xa1].

Definition holder_object : stateObject := newObject holder (MkAccount 3 1000000 zeroHash emptyCodeHash None []).

Definition block_objects : gmap Address stateObject := {[ holder := holder_object; acct 27 := contract_object (acct 27) logger ]}.

Definition block_state : StateDB :=
  MkStateDB (MkMapDatabase ∅ ∅) (∅ : map_trie) block_objects ∅ None 0 zeroHash zeroHash 0 ∅ 0 ∅ [] ∅ [] 0.

Lemma block_objects_lookup a o :
  block_objects !! a = Some o -> (a = holder /\ o = holder_object) \/ (a = acct 27 /\ o = contract_object (acct 27) logger).
Proof. unfold block_objects. rewrite lookup_insert_Some, lookup_singleton_Some. naive_solver. Qed.

Lemma block_find a : find_object block_state a = block_objects !! a.
Proof.
  unfold find_object. cbn [block_state sdb_objects sdb_trie]. destruct (block_objects !! a) as [o|] eqn:Eo; [|done].
  by destruct (block_objects_lookup a o Eo) as [[-> ->]|[-> ->]].
Qed.

Lemma block_state_ok {BC : BlockContext} : state_ok block_state.
Proof.
  split.
  - split; [|intros a o Ho|constructor|done].
    + intros a o. rewrite block_find. intros [[-> ->]|[-> ->]]%block_objects_lookup; (split; [done|apply bytes_of_length]).
    + by destruct (block_objects_lookup a o Ho) as [[-> ->]|[-> ->]].
  - split; constructor.
  - intros a o. rewrite block_find. intros [[-> ->]|[-> ->]]%block_objects_lookup.
    + split; [done..|]. assert (En : eff_code (sdb_db block_state) holder_object = None) by (vm_compute; reflexivity).
      intros c Ec. rewrite En in Ec. discriminate.
    + split; [done..|]. intros c Ec. change (Some logger = Some c) in Ec. injection Ec as <-. split; [done|]. symmetry. apply mk_bytesN_of.
  - done.
  - by intros j l.
Qed.

Lemma block_state_supplied : supplied block_state.
Proof.
  intros X. set (D := {[holder; acct 27]} : gset Address).
  assert (Hb : forall a, a ∉ D -> balance_of block_state a = 0).
  { intros a Ha. unfold balance_of. rewrite block_find. destruct (block_objects !! a) as [o|] eqn:Eo; [|done].
    destruct (block_objects_lookup a o Eo) as [[-> _]|[-> _]]; set_solver. }
  assert (Hz : total (X ∖ D) block_state = 0).
  { unfold total. assert (H : forall a, a ∈ elements (X ∖ D) -> balance_of block_state a = 0) by (intros a Ha; apply Hb; set_solver).
    induction (elements (X ∖ D)) as [|a l IH]; [done|]. csimpl. rewrite H, IH by set_solver. done. }
  pose proof (total_subset (BC := 0) (X ∩ D) D block_state block_state_ok ltac:(set_solver)) as Hd.
  assert (HD : total D block_state = 1000050).
  { unfold D. rewrite total_union by set_solver. unfold total. rewrite !elements_singleton. cbn [fmap list_fmap foldr].
    unfold balance_of. rewrite !block_find. unfold block_objects. rewrite lookup_insert_eq, lookup_insert_ne, lookup_singleton_eq by done. done. }
  clearbody D. assert (HX : X = (X ∩ D) ∪ (X ∖ D)) by (apply set_eq; intros x; destruct (decide (x ∈ D)); set_solver).
  rewrite HX, total_union by set_solver. lia.
Qed.

(** ** The block *)
Definition block_config : ChainConfig :=
  MkChainConfig (Some 15) (Some 1) (Some 0) None false (Some 0) (Some 0) (Some 0) (Some 0) (Some 0) (Some 0) None.

Definition call_tx : Transaction :=
  set_provider_signature (Some 0) (Some 0) (Some 0)
    (set_signature (Some 65) (Some 1) (Some 1) (NewTransaction 3 (acct 27) (Some 5) 100000 (Some 1) [])).

Definition block_header (gasUsed : Z) (bloom : Bloom) (txHash receiptHash root : Hash) : Header :=
  MkHeader zeroHash (EmptyUncleHash) (acct 5) root txHash receiptHash bloom (Some 1) (Some 10) 1000000 gasUsed 5 [] zeroHash (mk_bytesN 8 []).

Definition slots (m : gmap Hash Hash) : list (Hash * Hash) := map_to_list m.
Definition dirty (m : gmap Address Z) : list (Address * Z) := map_to_list m.

Definition run_block (b : Block) := Process slots dirty block_config zeroAddress [] false false b block_state.

(** The header is made of what a first run gives. *)
Definition draft : Block := MkBlock (block_header 0 zeroBloom zeroHash zeroHash zeroHash) [call_tx] [].
Definition mined : Block :=
  match run_block draft with
  | Ok (inr (receipts, _, used, _), s') =>
      match CreateBloom receipts, receipts_rlp receipts, IntermediateRoot slots dirty true s' with
      | Some bloom, Ok items, Ok (root, _) =>
          match DeriveSha items, DeriveSha (tx_GetRlp <$> [call_tx]) with
          | Ok receiptHash, Ok txHash => MkBlock (block_header used bloom txHash receiptHash root) [call_tx] []
          | _, _ => draft
          end
      | _, _, _ => draft
      end
  | _ => draft
  end.

(** The call writes a log, and uses 21759 of gas. *)
Definition accepted {A} (x : res (option error * A)) : bool := match x with Ok (None, _) => true | _ => false end.

Definition outcome_of (f : list Receipt -> Z -> StateDB -> res (option error * StateDB))
    (x : res ((error + (list Receipt * list Log * Z * option error)) * StateDB)) : option (Z * nat * bool) :=
  match x with
  | Ok (inr (receipts, logs, used, None), s') => Some (used, length logs, accepted (f receipts used s'))
  | _ => None
  end.

Lemma outcome_of_inv f x used n :
  outcome_of f x = Some (used, n, true) ->
  exists receipts logs s' s'', x = Ok (inr (receipts, logs, used, None), s') /\ length logs = n /\ f receipts used s' = Ok (None, s'').
Proof.
  destruct x as [[[e|[[[receipts logs] used'] [err|]]] s']| |]; try discriminate. cbn. intros [= -> <- Ha]. exists receipts, logs, s'.
  destruct (f receipts used s') as [[[e|] s'']| |]; try discriminate. by exists s''.
Qed.

Definition mined_outcome : option (Z * nat * bool) := outcome_of (ValidateState slots dirty block_config mined) (run_block mined).

Lemma mined_accepted : mined_outcome = Some (21759, 1%nat, true).
Proof. vm_compute. reflexivity. Qed.

Lemma sized_hashes c1 c2 : bounded c1 -> bounded c2 -> keccak256 c1 = keccak256 c2 -> length c1 = length c2.
Proof.
  intros H1 H2 H. change (sized_hash c1 = sized_hash c2) in H. apply Nat2Z.inj. by rewrite <- (sized_hash_length c1), <- (sized_hash_length c2), H.
Qed.

Lemma mined_header : h_Number (Block_Header mined) = Some 10 /\ h_Difficulty (Block_Header mined) = Some 1 /\
  h_GasLimit (b_header mined) = 1000000 /\ b_transactions mined = [call_tx] /\ b_uncles mined = [].
Proof. vm_compute. done. Qed.

Lemma config_ok h : h_Number h = Some 10 -> h_Difficulty h = Some 1 -> block_ok block_config h.
Proof.
  intros Hn Hd. split; [exists 10; by split|by exists 1|..]; intros number H; rewrite Hn in H; injection H as <-; done.
Qed.

Lemma call_tx_sized : tx_sized call_tx.
Proof. split; [vm_compute; reflexivity|]. done. Qed.

Lemma processable_of b :
  h_Number (Block_Header b) = Some 10 /\ h_Difficulty (Block_Header b) = Some 1 /\
  h_GasLimit (b_header b) = 1000000 /\ b_transactions b = [call_tx] /\ b_uncles b = [] -> processable block_config b block_state.
Proof.
  intros (Hn & Hd & Hg & Ht & Hu). split; [by apply config_ok|done|by rewrite Hg|exact sized_hashes| | | |apply block_state_ok|
    exact block_state_supplied|exact I|done|done].
  - intros s1. by exists None, s1.
  - rewrite Ht. constructor; [exact call_tx_sized|constructor].
  - rewrite Ht. apply NoDup_singleton.
Qed.

Lemma mined_processable : processable block_config mined block_state.
Proof. exact (processable_of mined mined_header). Qed.


Lemma mined_run : exists receipts logs s' s'',
  run_block mined = Ok (inr (receipts, logs, 21759, None), s') /\ length logs = 1%nat /\
  ValidateState slots dirty block_config mined receipts 21759 s' = Ok (None, s'').
Proof.
  apply outcome_of_inv. exact mined_accepted.
Qed.

Lemma mined_body : ValidateBody block_config mined = Ok (inr tt).
Proof. vm_compute. reflexivity. Qed.


Definition mined_receipts : list Receipt := match run_block mined with Ok (inr (rs, _, _, _), _) => rs | _ => [] end.

Lemma mined_recorded :
  recorded (MakeSigner block_config 10) (Block_Hash mined) 10 0 0 0 [call_tx] mined_receipts.
Proof.
  destruct (Process_run slots dirty block_config zeroAddress [] false false mined block_state mined_processable) as (r & s' & Er & Ho).
  destruct mined_run as (receipts & logs & s1 & s2 & Hr & _). unfold mined_receipts. rewrite Hr. unfold run_block in Hr. rewrite Hr in Er.
  injection Er as <- <-. destruct Ho as [Ho _]. destruct mined_header as (Hn & _ & _ & Ht & _). unfold block_number_of in Ho.
  rewrite Hn, Ht in Ho. exact Ho.
Qed.

Lemma mined_fits : forallb (fun r => (0 <=? r_CumulativeGasUsed r) && (r_CumulativeGasUsed r <? 2 ^ 64) &&
  (Z.of_nat (length (ref_encode (storedReceipt_gval r))) <? 2 ^ 64)) mined_receipts = true.
Proof. vm_compute. reflexivity. Qed.


(** An account that is dirty is written. *)
Definition dirty_state : StateDB := set_journal [] {[ holder := 1 ]} block_state.

Lemma holder_found : find_object block_state holder = Some holder_object.
Proof. rewrite block_find. unfold block_objects. by rewrite lookup_insert_eq. Qed.


(** A message that calls the adder is charged for its gas. *)
Definition demo_message : Message := NewMessage (acct 1) (Some (acct 27)) 5 (Some 7) 30000 0 [] false.

Definition used_by (x : res ((error + (option bytes * Z * bool)) * StateTransition)) : option (Z * bool) :=
  match x with Ok (inr (_, used, failed), _) => Some (used, failed) | _ => None end.

